(* ===== verification/_CoqProject ===== *)
-Q . S2P
Prelude.v
Stdio.v
Chainpack.v
CpItem.v
ChainpackPack.v
ChainpackUnpack.v
ChainpackRoundtrip.v
ChainpackSpec.v
CpUnpack.v
CpUnpackChainpack.v
CpPack.v
CpTools.v
CpSpec.v
CpDecimal.v
CpDatetime.v
Cpon.v
CponUnpack.v
CponSpec.v
Crc32.v
Stream.v
StreamSerial.v
StreamBlock.v
StreamSpec.v
Nbool.v
Rpcri.v
Rpcaccess.v
Strset.v
CpObstack.v
CpLoops.v
RpcError.v
RpcFile.v
RpcDir.v
RpcMsg.v
RpcHead.v
RpcLogin.v
Arr.v
Subscription.v
Mount.v
Effects.v
Broker.v
BrokerSpec.v
Handler.v
HandlerSpec.v
HandlerApp.v
BrokerApi.v
BrokerStage.v
BrokerStageSpec.v
BrokerMessages.v
BrokerRouting.v
BrokerProps.v
HandlerClient.v
HandlerCall.v
Handshake.v
HandlerStage.v
History.v
HandlerHistory.v
HandlerFile.v
RpcUrl.v
Can.v
