(* ===== verification/Prelude.v ===== *)
(** * SHVC: a verification library

    SHVC is an implementation in C of SHV RPC: values in the binary format ChainPack or
    the text format CPON, messages of such values over byte streams or CAN, handlers of
    messages built of stages, and a broker that passes messages on between clients.  This
    library models its sources under [src/] as functions and proves what makes them
    correct.  This file has what the other ones share; the rest of this comment describes
    the whole.

    ** The program and its model

    The parts are built on each other, and so are the files.

    - Values.  [libshvcp] packs and unpacks one [struct cpitem] at a time.  [CpItem] has
      the item and its union.  [Chainpack], [ChainpackPack] and [ChainpackUnpack] are
      [chainpack.h], [chainpack_pack] and [chainpack_unpack]; [Cpon] and [CponUnpack] are
      [cpon_pack] and [cpon_unpack]; [CpDecimal] and [CpDatetime] the conversions of
      decimals and dates.  [CpUnpack], [CpObstack], [CpPack] and [CpTools] are the tools
      on top of the function pointers [cp_unpack_t] and [cp_pack_t], which are parameters
      [unpack] and [pack] with a state of their own.  The classes [UnpackSpec] and
      [PackSpec] state what such a function promises; the tools are proved against them,
      and [CpUnpackChainpack] and [CpPack] show that ChainPack keeps the promises.
    - Formats of messages.  [CpLoops] has the sequences of packing calls and the loops
      [for_cp_unpack_map] and the like, with the rules by which [RpcError], [RpcFile]
      (with the alerts), [RpcDir], [RpcLogin], [RpcMsg] and [RpcHead] treat errors, file
      statistics, method descriptions, logins and the heads of messages, and [History]
      the records of a log.
    - Transport.  [Stream] is [rpcclient_stream.c]: the layers Block and Serial, with and
      without a checksum, over a connection whose every [read], [write] and [poll] is an
      event of a trace.  [StreamSerial] and [StreamBlock] have their lemmas.  [Crc32] is
      the checksum.  [Can] is [rpctransport/can.c].  [RpcUrl] is [rpcurl.c] and the choice
      of the transport.
    - Handlers.  [Handler] is [rpchandler.c]: a message goes through a list of stages,
      which share a state that is a parameter.  [HandlerApp] ([.app] and [.device]),
      [HandlerHistory] and [HandlerFile] are stages of applications, [HandlerClient] those
      of a client, with [rpccall.c].  The contract of stages is [stage_ok] of
      [HandlerSpec]; [HandlerStage] has lemmas for stages by their parts.
    - Broker.  [Nbool], [Strset], [Arr], [Subscription], [Mount], [Rpcri] and [Rpcaccess]
      are its data: sets of clients, sets of names, arrays, subscriptions, mount points,
      patterns and access levels.  [Broker] has the state ([struct rpcbroker]),
      registration, roles and the delivery of signals; [BrokerApi] the methods of the
      broker and the login; [BrokerStage] the two stages every client of the broker has.

    State is passed explicitly.  Operations of handlers and the broker are in the monad of
    [Effects]: a new state and a result, or a fault (a deadlock, a read outside of memory,
    a use after free, a null pointer, a failed assertion, an invalid free).  Elsewhere
    [None] stands for such a fault, where a comment says so.  Integers are [Z] with the
    conversions of their width written out ([u32], [i32] and so on).  A [FILE] is an
    [rfile] or [wfile] of [Stdio], which may end, fail or be full at any byte; C strings
    are lists of bytes without the terminator.

    ** What the theorems show

    - Codecs: what is packed is unpacked, in ChainPack ([ChainpackSpec]) and CPON
      ([CponSpec]); unpackers stay in bounds and end on every input; the packer refines an
      abstract encoding; skipping, finishing and repacking treat exactly one value
      ([CpSpec]); dates survive the calendar ([CpDatetime]).
    - Messages: requests, responses, signals, forwarded heads and logins are received with
      the fields they were packed with ([RpcHead], [RpcLogin]); the parameter of [getLog] is
      read whatever its fields ([History]); URLs are printed and parsed ([RpcUrl]).
    - Transport: messages arrive byte for byte in whatever pieces they travel, damaged and
      interrupted ones are not taken for valid, and the next one is not lost
      ([StreamSpec]); the table driven checksum is the bitwise one ([Crc32]); the transfer
      over CAN ends with the whole message read, for every interleaving of the thread and
      the client ([Can]).
    - Data of the broker: arrays refine sets and relations ([Nbool], [Subscription]); mount
      points stay sorted, and the search finds the client ([Mount]); patterns match what
      they mean, and more only with a final [/**] ([Rpcri]); access levels are extracted ([Rpcaccess]).
    - Handlers: with stages that keep the contract every valid request is answered exactly
      once ([HandlerSpec]), and the stages keep it, or say where they do not ([HandlerApp],
      [HandlerFile], [HandlerHistory]); files are read and written as asked ([HandlerFile]);
      a call ends ([HandlerCall]).
    - Broker: an invariant of all states that are reached by operations of clients
      ([BrokerProps], with [BrokerSpec], [BrokerStageSpec] and [BrokerMessages]); requests
      and responses are routed and signals delivered byte for byte ([BrokerRouting],
      [BrokerProps]); the access stage keeps clients within their rights; and the client
      and the broker agree on the outcome of a login ([Handshake]).

    Where the code does not do what it means to, the theorems have conditions that leave
    the case out, and an [Example] at the end of the file evaluates the model on it.

    ** Loops and bounds

    A loop of the source is a function of one round, and [cloop n] runs at most [2 ^ n]
    rounds, which evaluates in as many steps as the loop has.  With 64 to 66 this is more
    than any counter or length of the program allows: every round reads or writes a byte
    or moves an index of 64 bits, and the theorems bound the lengths by [2 ^ 61] to
    [2 ^ 64] accordingly.  Theorems about what a loop gives show that it ends within
    this.  The loops of decimals have 6 for at most 20 digits.  Functions with a fuel of type [nat] are
    given the length of what they consume, or the number of bytes of an integer.

    ** What is not modelled

    Threads, locks of handlers and the poll loops ([rpcbroker_run.c]): handlers run one
    operation at a time, in any order; the lock of the broker is modelled, to see whether
    it is held.  Opening and configuring sockets, serial lines and pipes
    ([rpctransport/tcp.c] and its siblings), loggers ([rpclogger.c]), SHA-1, the programs
    [shvc], [shvcs], [shvcp], [shvctio], the configuration and command line of
    [shvcbroker], and the demonstrations: they are calls of the system or of libraries
    around what is modelled.  Formatted printing appears as its result.  Memory is
    available, except where the code handles that it is not.  Functions generated by gperf
    are parameters that agree with the keyword tables ([Keywords] of [Rpcaccess]); random
    bytes, clocks and callbacks of the application are arguments; uriparser and SHA-1 are
    parameters. *)

From stdpp Require Export base tactics numbers list list_numbers.
From Stdlib Require Export ZArith Lia.
From Stdlib Require Ascii String.

#[global] Open Scope Z_scope.

(** ** Notations and automation *)

Declare Scope shv_scope.
Delimit Scope shv_scope with shv.
#[global] Open Scope shv_scope.

Create HintDb shv.
Create Rewrite HintDb shv.

(** Decide a closed proposition by evaluation. *)
Ltac by_evaluation := apply (bool_decide_unpack _); vm_compute; exact I.

(** ** Machine integers

    A C integer of width [w] is a [Z]; the conversions below are the ones the
    C abstract machine performs on assignment.  The platform is LP64 with two's
    complement integers: [int] is 32 bits, [long], [long long], [size_t] and
    [intmax_t] are 64 bits. *)

Definition uwrap (w z : Z) : Z := z mod 2 ^ w.
Definition swrap (w z : Z) : Z := (z + 2 ^ (w - 1)) mod 2 ^ w - 2 ^ (w - 1).

Abbreviation u8 := (uwrap 8).
Abbreviation u32 := (uwrap 32).
Abbreviation u64 := (uwrap 64).
Abbreviation i8 := (swrap 8).
Abbreviation i32 := (swrap 32).
Abbreviation i64 := (swrap 64).

Definition urange (w z : Z) : Prop := 0 ≤ z < 2 ^ w.
Definition srange (w z : Z) : Prop := - 2 ^ (w - 1) ≤ z < 2 ^ (w - 1).

#[export] Instance srange_dec w v : Decision (srange w v).
Proof. unfold srange. apply _. Defined.
#[export] Instance urange_dec w v : Decision (urange w v).
Proof. unfold urange. apply _. Defined.

Definition ULLONG_MAX : Z := 2 ^ 64 - 1.
Definition SIZE_MAX : Z := 2 ^ 64 - 1.
Definition INT_MAX : Z := 2 ^ 31 - 1.
Definition UINT_MAX : Z := 2 ^ 32 - 1.

(** Test of a bit mask, the C condition [v & mask]. *)
Definition has (v mask : Z) : bool := negb (Z.land v mask =? 0).

Lemma uwrap_small w z : urange w z → uwrap w z = z.
Proof. apply Z.mod_small. Qed.

Lemma swrap_small w z : 0 < w → srange w z → swrap w z = z.
Proof.
  intros Hw Hz. unfold srange, swrap in *.
  assert (2 ^ w = 2 * 2 ^ (w - 1)) as Hp.
  { rewrite <-Z.pow_succ_r by lia. f_equal. lia. }
  rewrite Z.mod_small; lia.
Qed.

Lemma uwrap_range w z : 0 ≤ w → urange w (uwrap w z).
Proof. intros. apply Z.mod_pos_bound. lia. Qed.

Lemma swrap_range w z : 0 < w → srange w (swrap w z).
Proof.
  intros Hw. unfold srange, swrap.
  assert (2 ^ w = 2 * 2 ^ (w - 1)) as Hp.
  { rewrite <-Z.pow_succ_r by lia. f_equal. lia. }
  pose proof (Z.mod_pos_bound (z + 2 ^ (w - 1)) (2 ^ w)). lia.
Qed.

(** Conversions between the two interpretations keep the residue. *)
Lemma uwrap_swrap w z : uwrap w (swrap w z) = uwrap w z.
Proof. unfold uwrap, swrap. rewrite Zminus_mod_idemp_l. f_equal. lia. Qed.

Lemma uwrap_add_swrap w a b : uwrap w (swrap w a + b) = uwrap w (a + b).
Proof.
  pose proof (uwrap_swrap w a) as Ha. unfold uwrap in *.
  by rewrite Zplus_mod, Ha, <-Zplus_mod.
Qed.

#[export] Hint Resolve uwrap_range swrap_range : shv.

(** ** Bytes *)

Definition byte (b : Z) : Prop := 0 ≤ b < 256.
Definition bytes : list Z → Prop := Forall byte.

#[export] Instance byte_dec b : Decision (byte b).
Proof. unfold byte. apply _. Defined.

Lemma byte_uwrap z : byte (u8 z).
Proof. exact (uwrap_range 8 z ltac:(lia)). Qed.
#[export] Hint Resolve byte_uwrap : shv.

Lemma bytes_app l k : bytes (l ++ k) ↔ bytes l ∧ bytes k.
Proof. apply Forall_app. Qed.

(** Exhaustive check of a boolean property of the integers below a bound:
    used for facts about single bytes. *)
Lemma forall_below (n : Z) (P : Z → bool) :
  forallb P (seqZ 0 n) = true → ∀ z, 0 ≤ z < n → P z = true.
Proof.
  intros H z Hz. rewrite forallb_forall in H. apply H.
  apply list_elem_of_In, elem_of_seqZ. lia.
Qed.

(** Big-endian byte sequences. *)
Fixpoint be_bytes (n : nat) (v : Z) : list Z :=
  match n with
  | O => []
  | S n' => (v / 256 ^ Z.of_nat n') mod 256 :: be_bytes n' v
  end.

Definition be_push (acc b : Z) : Z := acc * 256 + b.

Lemma length_be_bytes n v : length (be_bytes n v) = n.
Proof. induction n; simpl; congruence. Qed.

Lemma bytes_be_bytes n v : bytes (be_bytes n v).
Proof.
  induction n; simpl; constructor; [|done].
  apply Z.mod_pos_bound. lia.
Qed.

Lemma be_value_bytes n v acc :
  0 ≤ v → foldl be_push acc (be_bytes n v) = acc * 256 ^ Z.of_nat n + v mod 256 ^ Z.of_nat n.
Proof.
  revert acc. induction n as [|n IH]; intros acc Hv.
  - simpl. rewrite Z.mod_1_r. lia.
  - cbn [be_bytes foldl]. rewrite IH by done. unfold be_push.
    rewrite Nat2Z.inj_succ, Z.pow_succ_r by lia.
    set (p := 256 ^ Z.of_nat n). assert (0 < p) by (subst p; lia).
    rewrite (Z.mul_comm 256 p), (Z.rem_mul_r v p 256) by lia. lia.
Qed.

(** Multiples of [256 ^ n] do not show in the [n] low bytes. *)
Lemma be_bytes_add n v c : be_bytes n (v + c * 256 ^ Z.of_nat n) = be_bytes n v.
Proof.
  revert c. induction n as [|n IH]; intros c; [done|]. cbn [be_bytes].
  replace (v + c * 256 ^ Z.of_nat (S n)) with (v + (c * 256) * 256 ^ Z.of_nat n)
    by (rewrite Nat2Z.inj_succ, Z.pow_succ_r by lia; lia).
  rewrite IH, Z.div_add by lia. by rewrite Z.mod_add by lia.
Qed.

#[export] Hint Rewrite length_be_bytes : shv.

(** ** Bit-level lemmas on [Z] *)

Lemma land_high_mask v k w :
  0 ≤ k ≤ w → urange w v →
  Z.land v (uwrap w (Z.shiftl (2 ^ w - 1) k)) = v - v mod 2 ^ k.
Proof.
  intros Hk Hv. unfold uwrap.
  replace (v - v mod 2 ^ k) with (Z.ldiff v (Z.ones k)).
  2:{ rewrite Z.ldiff_ones_r, Z.shiftl_mul_pow2, Z.shiftr_div_pow2 by lia.
      pose proof (Z.div_mod v (2 ^ k)). lia. }
  apply Z.bits_inj'. intros i Hi.
  rewrite Z.land_spec, Z.ldiff_spec, <-Z.land_ones, Z.land_spec by lia.
  replace (2 ^ w - 1) with (Z.ones w) by (rewrite Z.ones_equiv; lia).
  rewrite Z.shiftl_spec by lia.
  destruct (decide (i < w)).
  - rewrite (Z.ones_spec_low w i) by lia. rewrite andb_true_r.
    destruct (decide (i < k)).
    + rewrite (Z.testbit_neg_r _ (i - k)), (Z.ones_spec_low k i) by lia.
      by destruct (Z.testbit v i).
    + rewrite (Z.ones_spec_low w (i - k)) by lia. rewrite Z.ones_spec_high by lia.
      by destruct (Z.testbit v i).
  - assert (Z.testbit v i = false) as ->; [|done].
    rewrite <-(Z.mod_small v (2 ^ w)) by done. apply Z.mod_pow2_bits_high. lia.
Qed.

(** The C test [(v & (MAX << k)) == 0] is a comparison with [2^k]. *)
Lemma has_high_mask v k w :
  0 ≤ k ≤ w → urange w v →
  has v (uwrap w (Z.shiftl (2 ^ w - 1) k)) = (2 ^ k <=? v).
Proof.
  intros Hk Hv. unfold has. rewrite land_high_mask by done.
  unfold urange in Hv.
  pose proof (Z.mod_pos_bound v (2 ^ k)).
  destruct (Z.leb_spec (2 ^ k) v).
  - destruct (Z.eqb_spec (v - v mod 2 ^ k) 0); simpl; lia.
  - rewrite Z.mod_small by lia. by rewrite Z.sub_diag.
Qed.

(** Shifting a byte into an accumulator: [(a << 8) | b]. *)
Lemma land_shiftl_low a b k : 0 ≤ k → 0 ≤ b < 2 ^ k → Z.land (Z.shiftl a k) b = 0.
Proof.
  intros Hk Hb. apply Z.bits_inj'. intros i Hi.
  rewrite Z.land_spec, Z.shiftl_spec, Z.bits_0 by lia.
  destruct (decide (i < k)).
  - by rewrite (Z.testbit_neg_r a) by lia.
  - rewrite <-(Z.mod_small b (2 ^ k)), Z.mod_pow2_bits_high by lia. apply andb_false_r.
Qed.

Lemma lor_shiftl_add a b k : 0 ≤ k → 0 ≤ b < 2 ^ k → Z.lor (Z.shiftl a k) b = a * 2 ^ k + b.
Proof.
  intros Hk Hb. pose proof (land_shiftl_low a b k Hk Hb) as Hl.
  rewrite <-Z.lxor_lor, <-Z.add_nocarry_lxor by done. by rewrite Z.shiftl_mul_pow2.
Qed.

Lemma land_ones_mod a k : 0 ≤ k → Z.land a (2 ^ k - 1) = a mod 2 ^ k.
Proof.
  intros. rewrite <-Z.land_ones by lia. by rewrite Z.ones_equiv.
Qed.

Lemma urange_lor w a b : 0 ≤ w → urange w a → urange w b → urange w (Z.lor a b).
Proof.
  unfold urange. intros Hw Ha Hb.
  assert (0 ≤ Z.lor a b) by (apply Z.lor_nonneg; lia).
  assert (Z.lor a b / 2 ^ w = 0) as H0.
  { by rewrite <-Z.shiftr_div_pow2, Z.shiftr_lor, !Z.shiftr_div_pow2, !Z.div_small by lia. }
  apply Z.div_small_iff in H0; lia.
Qed.

Lemma urange_ldiff w a b : 0 ≤ w → urange w a → urange w (Z.ldiff a b).
Proof.
  unfold urange. intros Hw Ha.
  assert (0 ≤ Z.ldiff a b) by (apply Z.ldiff_nonneg; lia).
  assert (Z.ldiff a b / 2 ^ w = 0) as H0.
  { rewrite <-Z.shiftr_div_pow2, Z.shiftr_ldiff, (Z.shiftr_div_pow2 a), Z.div_small by lia.
    apply Z.ldiff_0_l. }
  apply Z.div_small_iff in H0; lia.
Qed.

(** A single bit mask. *)
Lemma has_pow2 v m : 0 ≤ m → has v (2 ^ m) = Z.testbit v m.
Proof.
  intros Hm. unfold has. destruct (Z.testbit v m) eqn:E.
  - destruct (Z.eqb_spec (Z.land v (2 ^ m)) 0) as [H0|]; [|done].
    apply (f_equal (λ z, Z.testbit z m)) in H0.
    rewrite Z.land_spec, E, Z.pow2_bits_true, Z.bits_0 in H0 by lia. done.
  - destruct (Z.eqb_spec (Z.land v (2 ^ m)) 0) as [|H0]; [done|]. destruct H0.
    apply Z.bits_inj'. intros i Hi. rewrite Z.land_spec, Z.bits_0.
    destruct (decide (i = m)) as [->|]; [by rewrite E|].
    by rewrite Z.pow2_bits_false, andb_false_r by lia.
Qed.

Lemma testbit_top a m : 0 ≤ m → 0 ≤ a < 2 ^ m → Z.testbit (a + 2 ^ m) m = true.
Proof.
  intros Hm Ha. apply Z.testbit_true; [done|].
  replace (a + 2 ^ m) with (a + 1 * 2 ^ m) by lia.
  by rewrite Z.div_add, Z.div_small by lia.
Qed.

Lemma testbit_small a m : 0 ≤ m → 0 ≤ a < 2 ^ m → Z.testbit a m = false.
Proof.
  intros Hm Ha. rewrite <-(Z.mod_small a (2 ^ m)) by done. by apply Z.mod_pow2_bits_high.
Qed.

(** Clearing a bit that is set. *)
Lemma ldiff_pow2 v m : 0 ≤ m → Z.testbit v m = true → Z.ldiff v (2 ^ m) = v - 2 ^ m.
Proof.
  intros Hm Hb. symmetry. apply Z.sub_nocarry_ldiff.
  apply Z.bits_inj'. intros i Hi. rewrite Z.ldiff_spec, Z.bits_0.
  destruct (decide (i = m)) as [->|]; [by rewrite Hb, andb_false_r|].
  by rewrite Z.pow2_bits_false by lia.
Qed.

(** ** Loops

    [cloop n step s] runs [step] from [s] until it stops with [inr], for at
    most [2 ^ n] iterations: [cloop 64] is enough for every counter of the
    program, and it evaluates in as many steps as the loop it models. *)

Section loops.
Context {St R : Type} (step : St → St + R).

Fixpoint cloop (n : nat) (s : St) : St + R :=
  match n with
  | O => step s
  | S n' => match cloop n' s with inl s' => cloop n' s' | inr r => inr r end
  end.

(** [steps k s x]: after exactly [k] iterations the loop is in [x]; it goes on
    from [inl s'] and has stopped in [inr r]. *)
Inductive steps : nat → St → St + R → Prop :=
  | steps_refl s : steps 0 s (inl s)
  | steps_stop s r : step s = inr r → steps 1 s (inr r)
  | steps_next k s s' x : step s = inl s' → steps k s' x → steps (S k) s x.

Lemma steps_split k1 k2 s x :
  steps (k1 + k2) s x → k1 ≠ 0%nat →
  (∃ s', steps k1 s (inl s') ∧ steps k2 s' x) ∨ (∃ r, x = inr r ∧ k2 = 0%nat ∧ steps k1 s x).
Proof.
  revert s. induction k1 as [|k1 IH]; intros s Hs Hk; [done|].
  destruct (decide (k1 = 0%nat)) as [->|Hk1].
  - simpl in Hs. inversion Hs; subst.
    + right. eexists. repeat split; [by constructor].
    + left. eexists. split; [|done]. econstructor; [done|constructor].
  - simpl in Hs. inversion Hs as [|? ? ? Hk0|? ? ? ? Hstep Hrest]; subst; [lia|].
    destruct (IH _ Hrest Hk1) as [(s'' & Ha & Hb)|(r & -> & -> & Ha)].
    + left. exists s''. split; [econstructor; done|done].
    + right. eexists. repeat split; [econstructor; done].
Qed.

Lemma steps_trans k1 k2 s s' x : steps k1 s (inl s') → steps k2 s' x → steps (k1 + k2) s x.
Proof.
  intros H. remember (inl s') as y eqn:E. revert s' E.
  induction H as [s|s r Hr|k s s1 y Hs H IH]; intros s' E H2; simplify_eq; simpl; [done|].
  apply (steps_next _ _ s1); [done|]. by eapply IH.
Qed.

Lemma cloop_inl n s s' : steps (2 ^ n) s (inl s') → cloop n s = inl s'.
Proof.
  revert s s'. induction n as [|n IH]; intros s s' Hs; simpl in *.
  - inversion Hs as [| |? ? ? ? Hstep Hrest]; subst. inversion Hrest; subst. done.
  - rewrite Nat.add_0_r in Hs. apply steps_split in Hs as [(s1 & H1 & H2)|(r & ? & _)];
      [|done|by apply Nat.pow_nonzero].
    by rewrite (IH _ _ H1), (IH _ _ H2).
Qed.

(** A run of at most [2 ^ n] iterations is computed by [cloop n]. *)
Lemma cloop_inr n k s r : steps k s (inr r) → (k ≤ 2 ^ n)%nat → cloop n s = inr r.
Proof.
  revert k s. induction n as [|n IH]; intros k s Hs Hk; simpl in *.
  - inversion Hs as [|? ? Hstep|? ? ? ? Hstep Hrest]; subst; [done|].
    assert (k0 = 0%nat) as -> by lia. inversion Hrest.
  - destruct (decide (k ≤ 2 ^ n)%nat) as [Hle|Hgt]; [by rewrite (IH k) by done|].
    replace k with (2 ^ n + (k - 2 ^ n))%nat in Hs by lia.
    apply steps_split in Hs as [(s1 & H1 & H2)|(r' & _ & ? & _)];
      [|lia|by apply Nat.pow_nonzero].
    rewrite (cloop_inl _ _ _ H1). apply (IH (k - 2 ^ n)%nat); [done|lia].
Qed.

Lemma cloop_run n k s r : steps k s (inr r) → Z.of_nat k ≤ 2 ^ Z.of_nat n → cloop n s = inr r.
Proof.
  intros Hs Hk. apply (cloop_inr n k); [done|]. apply Nat2Z.inj_le.
  by rewrite Nat2Z.inj_pow.
Qed.

(** Termination: a measure that decreases on every iteration bounds the run,
    and what the last iteration establishes holds of the result. *)
Lemma steps_total_inv (I : St → Prop) (Q : R → Prop) (m : St → nat) :
  (∀ s, I s → match step s with inl s' => I s' ∧ (m s' < m s)%nat | inr r => Q r end) →
  ∀ s, I s → ∃ k r, (k ≤ S (m s))%nat ∧ steps k s (inr r) ∧ Q r.
Proof.
  intros Hdec s. induction s as [s IH] using
    (well_founded_induction (Wf_nat.well_founded_ltof _ m)).
  intros HI. specialize (Hdec s HI) as Hd. destruct (step s) as [s'|r] eqn:E.
  - destruct Hd as [HI' Hlt]. destruct (IH s' Hlt HI') as (k & r & Hk & Hs & HQ).
    exists (S k), r. split; [lia|]. split; [by econstructor|done].
  - exists 1%nat, r. split; [lia|]. split; [by constructor|done].
Qed.
End loops.
