(* ===== verification/Stdio.v ===== *)
(** * Streams and C strings

    The part of the C library the sources are written on: reading and writing
    [FILE] streams, and NUL terminated strings.

    - [rfile] is a stream opened for reading: the bytes still to be delivered,
      and whether running out of them is a stream error or the end of file.
    - [wfile] is a stream opened for writing: the bytes written so far, the room
      left before the medium refuses more, and the error indicator.  A packer
      takes an [option wfile]: [None] is the [NULL] stream that only counts.
    - [cmd] is the shape of the [PUTC]/[WRITE]/[CALL] macros of the packers: a
      command that updates the stream and the [res] counter or leaves the
      enclosing function with [-1].
    - a C string is the list of its (non-zero) bytes without the terminator. *)

From S2P Require Import Prelude.
From Stdlib Require Ascii String.

(** ** Reading *)

Record rfile := RFile { rf_data : list Z; rf_fail : bool }.

(** [feof] after a read that could not be satisfied. *)
Definition feof (f : rfile) : bool := bool_decide (rf_data f = []) && negb (rf_fail f).

(** [getc]: [None] is [EOF]. *)
Definition getc (f : rfile) : option Z * rfile :=
  match rf_data f with
  | [] => (None, f)
  | c :: d => (Some c, RFile d (rf_fail f))
  end.

Definition ungetc (c : Z) (f : rfile) : rfile := RFile (c :: rf_data f) (rf_fail f).

(** [fread(ptr, n, 1, f) == 1]: all [n] bytes or nothing; what a short stream
    still had is consumed. *)
Definition fread (n : Z) (f : rfile) : option (list Z) * rfile :=
  if n <=? Z.of_nat (length (rf_data f))
  then (Some (take (Z.to_nat n) (rf_data f)), RFile (drop (Z.to_nat n) (rf_data f)) (rf_fail f))
  else (None, RFile [] (rf_fail f)).

Lemma fread_app l d e n :
  n = Z.of_nat (length l) → fread n (RFile (l ++ d) e) = (Some l, RFile d e).
Proof.
  intros ->. unfold fread; simpl. rewrite length_app.
  destruct (Z.leb_spec (Z.of_nat (length l)) (Z.of_nat (length l + length d))); [|lia].
  by rewrite Nat2Z.id, take_app_length, drop_app_length.
Qed.

(** [reads f n f']: [f'] is [f] after [n] bytes of it were consumed. *)
Definition reads (f : rfile) (n : Z) (f' : rfile) : Prop :=
  ∃ l, rf_data f = l ++ rf_data f' ∧ n = Z.of_nat (length l) ∧ rf_fail f' = rf_fail f.

Lemma reads_refl f : reads f 0 f.
Proof. by exists []. Qed.

Lemma reads_trans f g h n m : reads f n g → reads g m h → reads f (n + m) h.
Proof.
  intros (l & Hl & -> & He) (k & Hk & -> & He'). exists (l ++ k).
  rewrite Hl, Hk, length_app, app_assoc. split; [done|]. split; [lia|congruence].
Qed.

Lemma reads_length f n g :
  reads f n g → 0 ≤ n ∧ Z.of_nat (length (rf_data f)) = n + Z.of_nat (length (rf_data g)).
Proof. intros (l & -> & -> & _). rewrite length_app. lia. Qed.

Lemma reads_bytes f n g : reads f n g → bytes (rf_data f) → bytes (rf_data g).
Proof. intros (l & -> & _) Hb. by apply bytes_app in Hb as [_ ?]. Qed.

Lemma getc_reads f c f' : getc f = (Some c, f') → reads f 1 f' ∧ rf_data f = c :: rf_data f'.
Proof.
  destruct f as [[|x d] e]; intros [= -> <-]. split; [|done]. by exists [c].
Qed.

Lemma getc_eof f f' : getc f = (None, f') → f' = f ∧ rf_data f = [].
Proof. destruct f as [[|x d] e]; by intros [= <-]. Qed.

Lemma fread_reads n f l f' :
  0 ≤ n → fread n f = (Some l, f') →
  reads f n f' ∧ rf_data f = l ++ rf_data f' ∧ Z.of_nat (length l) = n.
Proof.
  intros Hn. unfold fread. destruct (Z.leb_spec n (Z.of_nat (length (rf_data f)))); [|done].
  intros [= <- <-]. simpl. pose proof (take_drop (Z.to_nat n) (rf_data f)).
  rewrite length_take. repeat split; [|done|lia]. exists (take (Z.to_nat n) (rf_data f)).
  rewrite length_take. simpl. repeat split; [done|lia].
Qed.

Lemma fread_short n f f' :
  fread n f = (None, f') →
  reads f (Z.of_nat (length (rf_data f))) f' ∧ rf_data f' = [] ∧
  Z.of_nat (length (rf_data f)) < n.
Proof.
  unfold fread. destruct (Z.leb_spec n (Z.of_nat (length (rf_data f)))); [done|].
  intros [= <-]. simpl. split; [|done]. exists (rf_data f). simpl. by rewrite app_nil_r.
Qed.

#[export] Hint Resolve reads_refl reads_trans reads_bytes : shv.

(** ** Writing *)

Record wfile := WFile { wf_out : list Z; wf_room : option nat; wf_err : bool }.

Definition ferror (f : wfile) : bool := wf_err f.

(** [fwrite] delivers what fits and raises the error indicator on a short count. *)
Definition fwrite (l : list Z) (f : wfile) : bool * wfile :=
  match wf_room f with
  | None => (true, WFile (wf_out f ++ l) None (wf_err f))
  | Some n =>
      if (length l <=? n)%nat
      then (true, WFile (wf_out f ++ l) (Some (n - length l)%nat) (wf_err f))
      else (false, WFile (wf_out f ++ take n l) (Some 0%nat) true)
  end.

(** A stream that accepts [n] more bytes. *)
Definition roomy (n : nat) (f : wfile) : Prop :=
  match wf_room f with None => True | Some m => (n ≤ m)%nat end.

Definition written (l : list Z) (f : wfile) : wfile :=
  WFile (wf_out f ++ l) ((λ m, (m - length l)%nat) <$> wf_room f) (wf_err f).

(** ** Packer commands *)

Definition ofile : Type := option wfile.

(** [None] is the early [return -1]; [Some res] goes on with the counter. *)
Definition cmd : Type := ofile → Z → ofile * option Z.

Definition seqc (a b : cmd) : cmd :=
  λ f res, match a f res with
           | (f', Some res') => b f' res'
           | (f', None) => (f', None)
           end.

Notation "a ;;; b" := (seqc a b) (at level 62, right associativity) : shv_scope.

Definition skipc : cmd := λ f res, (f, Some res).

Definition WRITE (l : list Z) : cmd :=
  λ f res,
    match f with
    | None => (None, Some (res + Z.of_nat (length l)))
    | Some w =>
        let '(ok, w') := fwrite l w in
        (Some w', if ok then Some (res + Z.of_nat (length l)) else None)
    end.

Definition PUTC (v : Z) : cmd := WRITE [u8 v].

(** [CALL(FUNC, ...)]: run a packer and add its count. *)
Definition CALL (func : ofile → ofile * Z) : cmd :=
  λ f res,
    let '(f', cnt) := func f in
    (f', if cnt =? -1 then None else Some (res + cnt)).

(** The body of a packer: [res = 0; ...; return res]. *)
Definition body (c : cmd) (f : ofile) : ofile * Z :=
  match c f 0 with
  | (f', Some res) => (f', res)
  | (f', None) => (f', -1)
  end.

(** *** Specification of commands

    [emits c l]: [c] writes exactly the bytes [l].  On a [NULL] stream it only
    adds their number to the counter; on a stream with room it appends them; on
    a stream without it leaves with an error, the error indicator raised and a
    prefix of [l] written. *)
Record emits (c : cmd) (l : list Z) : Prop := {
  emits_null res : c None res = (None, Some (res + Z.of_nat (length l)));
  emits_room w res :
    roomy (length l) w → c (Some w) res = (Some (written l w), Some (res + Z.of_nat (length l)));
  emits_full w res :
    ¬ roomy (length l) w →
    ∃ w', c (Some w) res = (Some w', None) ∧ wf_err w' = true ∧
      ∃ k, (k ≤ length l)%nat ∧ wf_out w' = wf_out w ++ take k l
}.

Lemma roomy_app n m l w : length l = n → roomy (n + m) w → roomy n w ∧ roomy m (written l w).
Proof. unfold roomy, written. intros <-. destruct (wf_room w); simpl; lia. Qed.

Lemma roomy_written n m l w : length l = n → roomy n w → roomy m (written l w) → roomy (n + m) w.
Proof. unfold roomy, written. intros <-. destruct (wf_room w); simpl; lia. Qed.

Lemma written_app l k w : written k (written l w) = written (l ++ k) w.
Proof.
  unfold written. rewrite app_assoc. destruct (wf_room w); simpl; [|done].
  rewrite length_app. do 2 f_equal. lia.
Qed.

#[export] Instance roomy_dec n w : Decision (roomy n w).
Proof. unfold roomy. destruct (wf_room w); apply _. Defined.

Lemma emits_seq a b l k : emits a l → emits b k → emits (a ;;; b) (l ++ k).
Proof.
  intros Ha Hb. split.
  - intros res. unfold seqc. rewrite (emits_null _ _ Ha), (emits_null _ _ Hb).
    rewrite length_app. do 2 f_equal. lia.
  - intros w res Hw. rewrite length_app in Hw.
    destruct (roomy_app _ _ l w eq_refl Hw) as [H1 H2].
    unfold seqc. rewrite (emits_room _ _ Ha) by done. rewrite (emits_room _ _ Hb) by done.
    rewrite written_app, length_app. do 2 f_equal. lia.
  - intros w res Hw. rewrite length_app in Hw. unfold seqc.
    destruct (decide (roomy (length l) w)) as [Hl|Hl].
    + rewrite (emits_room _ _ Ha) by done.
      destruct (decide (roomy (length k) (written l w))) as [Hk|Hk].
      { destruct Hw. by eapply roomy_written. }
      destruct (emits_full _ _ Hb _ (res + Z.of_nat (length l)) Hk)
        as (w' & -> & He & n & Hn & Ho).
      exists w'. split; [done|split; [done|]]. exists (length l + n)%nat.
      rewrite length_app. split; [lia|]. rewrite Ho. simpl.
      by rewrite take_app_add, app_assoc.
    + destruct (emits_full _ _ Ha _ res Hl) as (w' & -> & He & n & Hn & Ho).
      exists w'. split; [done|split; [done|]]. exists n. rewrite length_app.
      split; [lia|]. rewrite Ho. by rewrite take_app_le by lia.
Qed.

Lemma emits_skip : emits skipc [].
Proof.
  split.
  - intros res. unfold skipc. do 2 f_equal. simpl. lia.
  - intros w res _. unfold skipc, written. simpl. rewrite app_nil_r.
    destruct w as [o [r|] e]; simpl; rewrite ?Nat.sub_0_r; do 2 f_equal; lia.
  - intros w res []. unfold roomy. simpl. destruct (wf_room w); lia.
Qed.

Lemma emits_WRITE l : emits (WRITE l) l.
Proof.
  split; unfold WRITE, fwrite, roomy, written.
  - done.
  - intros w res Hw. destruct (wf_room w) as [m|]; simpl; [|done].
    by rewrite (proj2 (Nat.leb_le _ _)) by lia.
  - intros w res Hw. destruct (wf_room w) as [m|]; simpl; [|done].
    rewrite (proj2 (Nat.leb_gt _ _)) by lia.
    eexists. split; [done|split; [done|]]. exists m. simpl. split; [lia|done].
Qed.

Lemma emits_PUTC v : emits (PUTC v) [u8 v].
Proof. apply emits_WRITE. Qed.

Lemma emits_CALL_body c l : emits c l → emits (CALL (body c)) l.
Proof.
  intros Hc. split; unfold CALL, body.
  - intros res. rewrite (emits_null _ _ Hc).
    destruct (Z.eqb_spec (0 + Z.of_nat (length l)) (-1)); [lia|]. done.
  - intros w res Hw. rewrite (emits_room _ _ Hc) by done.
    destruct (Z.eqb_spec (0 + Z.of_nat (length l)) (-1)); [lia|]. done.
  - intros w res Hw. destruct (emits_full _ _ Hc _ 0 Hw) as (w' & -> & ?).
    by exists w'.
Qed.

Lemma emits_if (b : bool) c1 c2 l1 l2 :
  emits c1 l1 → emits c2 l2 → emits (if b then c1 else c2) (if b then l1 else l2).
Proof. by destruct b. Qed.

(** Result of a whole packer body. *)
Lemma body_null c l : emits c l → body c None = (None, Z.of_nat (length l)).
Proof. intros Hc. unfold body. by rewrite (emits_null _ _ Hc). Qed.

Lemma body_room c l w :
  emits c l → roomy (length l) w → body c (Some w) = (Some (written l w), Z.of_nat (length l)).
Proof. intros Hc Hw. unfold body. by rewrite (emits_room _ _ Hc). Qed.

Lemma body_full c l w :
  emits c l → ¬ roomy (length l) w →
  ∃ w', body c (Some w) = (Some w', -1) ∧ wf_err w' = true ∧
    ∃ k, (k ≤ length l)%nat ∧ wf_out w' = wf_out w ++ take k l.
Proof.
  intros Hc Hw. unfold body. destruct (emits_full _ _ Hc _ 0 Hw) as (w' & -> & ?). by exists w'.
Qed.

#[export] Hint Resolve emits_seq emits_skip emits_WRITE emits_PUTC emits_CALL_body : shv.

(** ** C strings *)

Abbreviation cstr := (list Z) (only parsing).

Fixpoint of_string (s : String.string) : cstr :=
  match s with
  | String.EmptyString => []
  | String.String c s' => Z.of_N (Ascii.N_of_ascii c) :: of_string s'
  end.

Export String.StringSyntax.
Delimit Scope string_scope with string.
Notation "'str' s" := (of_string s%string) (at level 5, s at level 0, only parsing) : shv_scope.

(** [s[i]], the terminator included. *)
Definition cget (s : cstr) (i : Z) : Z := default 0 (s !! Z.to_nat i).

Definition strlen (s : cstr) : Z := Z.of_nat (length s).

Fixpoint strcmp (a b : cstr) : Z :=
  match a, b with
  | [], [] => 0
  | [], y :: _ => - y
  | x :: _, [] => x
  | x :: a', y :: b' => if x =? y then strcmp a' b' else x - y
  end.

Fixpoint strncmp (a b : cstr) (n : nat) : Z :=
  match n with
  | O => 0
  | S n' =>
      match a, b with
      | [], [] => 0
      | [], y :: _ => - y
      | x :: _, [] => x
      | x :: a', y :: b' => if x =? y then strncmp a' b' n' else x - y
      end
  end.

(** [strchr]: the suffix that starts with [c]. *)
Fixpoint strchr (s : cstr) (c : Z) : option cstr :=
  match s with
  | [] => None
  | x :: s' => if x =? c then Some s else strchr s' c
  end.

(** [strchrnul]: the suffix that starts with [c], or the terminator. *)
Definition strchrnul (s : cstr) (c : Z) : cstr := default [] (strchr s c).

Lemma strchr_notin s c : c ∉ s → strchr s c = None.
Proof.
  induction s as [|x s IH]; [done|]. intros [? ?]%not_elem_of_cons. simpl.
  rewrite (proj2 (Z.eqb_neq x c)) by congruence. by apply IH.
Qed.

Lemma strchr_first p c q : c ∉ p → strchr (p ++ c :: q) c = Some (c :: q).
Proof.
  induction p as [|x p IH]; simpl; [by rewrite Z.eqb_refl|]. intros [? ?]%not_elem_of_cons.
  rewrite (proj2 (Z.eqb_neq x c)) by congruence. by apply IH.
Qed.

Definition wf_cstr : cstr → Prop := Forall (λ b, 0 < b < 256).

(** *** The order of [strcmp] *)

Lemma strcmp_eq a b : wf_cstr a → wf_cstr b → strcmp a b = 0 ↔ a = b.
Proof.
  intros Ha. revert b. induction Ha as [|x a Hx Ha IH]; intros b Hb; destruct Hb as [|y b Hy Hb];
    simpl; [done|split; [lia|done]|split; [lia|done]|].
  destruct (Z.eqb_spec x y) as [->|Hne]; [rewrite (IH b Hb); split; congruence|].
  split; [lia|congruence].
Qed.

Lemma strcmp_opp a b : strcmp b a = - strcmp a b.
Proof.
  revert b. induction a as [|x a IH]; intros [|y b]; simpl; [done|lia|lia|].
  rewrite (Z.eqb_sym y x). destruct (x =? y); [apply IH|lia].
Qed.

Lemma strcmp_refl a : strcmp a a = 0.
Proof. induction a as [|x a IH]; simpl; [done|]. by rewrite Z.eqb_refl. Qed.

Lemma strcmp_trans a b c :
  wf_cstr a → wf_cstr b → wf_cstr c → strcmp a b < 0 → strcmp b c < 0 → strcmp a c < 0.
Proof.
  intros Ha. revert b c. induction Ha as [|x a Hx Ha IH]; intros b c Hb Hc;
    destruct Hb as [|y b Hy Hb]; destruct Hc as [|z c Hz Hc]; simpl; try lia.
  destruct (Z.eqb_spec x y), (Z.eqb_spec y z), (Z.eqb_spec x z); try lia. by apply IH.
Qed.
