(* ===== verification/Chainpack.v ===== *)
(** * ChainPack scheme bytes and integer layout ([include/shv/chainpack.h])

    The inline functions of the header, one definition each, on [Z] kept at the
    C width, and the facts that make them a codec: the byte count is the least
    one that holds the number, and the first data byte carries the count and
    the most significant bits. *)

From S2P Require Import Prelude.

(** ** Definitions *)

(** [enum chainpack_scheme] *)
Definition CPS_Null : Z := 128.
Definition CPS_UInt : Z := 129.
Definition CPS_Int : Z := 130.
Definition CPS_Double : Z := 131.
Definition CPS_Bool : Z := 132.
Definition CPS_Blob : Z := 133.
Definition CPS_String : Z := 134.
Definition CPS_DateTimeEpoch_depr : Z := 135.
Definition CPS_List : Z := 136.
Definition CPS_Map : Z := 137.
Definition CPS_IMap : Z := 138.
Definition CPS_MetaMap : Z := 139.
Definition CPS_Decimal : Z := 140.
Definition CPS_DateTime : Z := 141.
Definition CPS_CString : Z := 142.
Definition CPS_BlobChain : Z := 143.
Definition CPS_FALSE : Z := 253.
Definition CPS_TRUE : Z := 254.
Definition CPS_TERM : Z := 255.

Definition CHAINPACK_EPOCH_MSEC : Z := 1517529600000.

Definition chainpack_scheme_signed (c : Z) : bool := has c 0x40.

Definition chainpack_scheme_uint (c : Z) : Z := Z.land c 0x3f.

Definition chainpack_is_int (c : Z) : bool :=
  (c =? CPS_Int) || ((c <? CPS_Null) && chainpack_scheme_signed c).

Definition chainpack_is_uint (c : Z) : bool :=
  (c =? CPS_Int) || ((c <? CPS_Null) && negb (chainpack_scheme_signed c)).

(** The [for] loop of [chainpack_int_bytes]; the mask runs through
    [0x80, 0x40, 0x20, 0x10] and the fifth test of the condition ends it. *)
Fixpoint int_bytes_loop (fuel : nat) (c mask i : Z) : Z :=
  match fuel with
  | O => Z.land c 0x0f + 5
  | S fuel' =>
      if 0x0f <? mask
      then if negb (has c mask) then i else int_bytes_loop fuel' c (Z.shiftr mask 1) (i + 1)
      else Z.land c 0x0f + 5
  end.

Definition chainpack_int_bytes (c : Z) : Z := int_bytes_loop 5 c 0x80 1.

Definition chainpack_uint_value1 (c bytes : Z) : Z :=
  if 4 <? bytes then 0 else Z.land (Z.shiftr 0xff bytes) c.

Definition chainpack_int_value1 (c bytes : Z) : Z :=
  if 4 <? bytes then 0
  else (if has (Z.shiftr 0x80 bytes) c then -1 else 1) * Z.land (Z.shiftr 0x7f bytes) c.

Definition chainpack_w_scheme_uint (num : Z) : Z := u8 (Z.land num 0x3f).

Definition chainpack_w_scheme_int (num : Z) : Z := u8 (Z.lor 0x40 (Z.land num 0x3f)).

(** The [for] loop of both byte counters: a 64 bit mask is zero after at most
    five shifts, so six rounds always reach the exit of the loop. *)
Fixpoint w_bytes_loop (fuel : nat) (num mask i : Z) : Z :=
  match fuel with
  | O => i
  | S fuel' =>
      if has num mask then w_bytes_loop fuel' num (u64 (Z.shiftl mask 8)) (i + 1) else i
  end.

Definition chainpack_w_uint_bytes (num : Z) : Z :=
  if negb (has num (u64 (Z.shiftl ULLONG_MAX 7))) then 1
  else if negb (has num (u64 (Z.shiftl ULLONG_MAX 14))) then 2
  else if negb (has num (u64 (Z.shiftl ULLONG_MAX 21))) then 3
  else if negb (has num (u64 (Z.shiftl ULLONG_MAX 28))) then 4
  else 5 + w_bytes_loop 6 num (u64 (Z.shiftl ULLONG_MAX 32)) 0.

(** [unsigned long long n = num < 0 ? -num : num] *)
Definition magnitude (num : Z) : Z := u64 (if num <? 0 then i64 (- num) else num).

Definition chainpack_w_int_bytes (num : Z) : Z :=
  let n := magnitude num in
  if negb (has n (u64 (Z.shiftl ULLONG_MAX 6))) then 1
  else if negb (has n (u64 (Z.shiftl ULLONG_MAX 13))) then 2
  else if negb (has n (u64 (Z.shiftl ULLONG_MAX 20))) then 3
  else if negb (has n (u64 (Z.shiftl ULLONG_MAX 27))) then 4
  else 5 + w_bytes_loop 6 n (u64 (Z.shiftl ULLONG_MAX 31)) 0.

Definition chainpack_w_uint_value1 (num bytes : Z) : Z :=
  if 4 <? bytes then u8 (Z.lor 0xf0 (Z.land (bytes - 5) 0x0f))
  else u8 (Z.lor (Z.shiftl 0xe0 (4 - bytes)) (Z.shiftr num (8 * (bytes - 1)))).

Definition chainpack_w_int_value1 (num bytes : Z) : Z :=
  let neg := num <? 0 in
  let n := magnitude num in
  if 4 <? bytes then u8 (Z.lor 0xf0 (Z.land (bytes - 5) 0x0f))
  else u8 (Z.lor (Z.shiftl (if neg then 0xe8 else 0xe0) (4 - bytes))
             (Z.shiftr n (8 * (bytes - 1)))).

(** ** Specification

    Number of value bits of a [k] byte integer: seven per byte up to four
    bytes, then whole bytes after the head. *)
Definition uint_bits (k : Z) : Z := if k <=? 4 then 7 * k else 8 * (k - 1).

(** The [k] byte representation of [v]. *)
Definition uint_rep (k : nat) (v : Z) : list Z :=
  chainpack_w_uint_value1 v (Z.of_nat k) :: be_bytes (k - 1) v.

(** ** Lemmas *)

Lemma u64_ullong_mask_top k : 64 ≤ k → u64 (Z.shiftl ULLONG_MAX k) = 0.
Proof.
  intros Hk. unfold uwrap. rewrite Z.shiftl_mul_pow2 by lia.
  replace k with (64 + (k - 64)) by lia. rewrite Z.pow_add_r by lia.
  replace (ULLONG_MAX * (2 ^ 64 * 2 ^ (k - 64))) with (ULLONG_MAX * 2 ^ (k - 64) * 2 ^ 64) by lia.
  apply Z.mod_mul. lia.
Qed.

Lemma has_ullong_mask v k : 0 ≤ k → urange 64 v →
  has v (u64 (Z.shiftl ULLONG_MAX k)) = (2 ^ k <=? v).
Proof.
  intros Hk Hv. destruct (decide (k ≤ 64)); [by apply has_high_mask|].
  rewrite u64_ullong_mask_top by lia. unfold has. rewrite Z.land_0_r. simpl.
  symmetry. apply Z.leb_gt. unfold urange in Hv.
  pose proof (Z.pow_le_mono_r 2 64 k). lia.
Qed.

Lemma shiftl_ullong_mask k : 0 ≤ k →
  u64 (Z.shiftl (u64 (Z.shiftl ULLONG_MAX k)) 8) = u64 (Z.shiftl ULLONG_MAX (k + 8)).
Proof.
  intros Hk. unfold uwrap. rewrite !Z.shiftl_mul_pow2, Z.pow_add_r by lia.
  rewrite Z.mul_mod_idemp_l by lia. f_equal. lia.
Qed.

(** The counting loop stops at the first byte boundary above the number. *)
Lemma w_bytes_loop_spec v fuel b i :
  0 ≤ b → urange 64 v → 64 ≤ b + 8 * (Z.of_nat fuel - 1) →
  ∃ j, 0 ≤ j ∧ w_bytes_loop fuel v (u64 (Z.shiftl ULLONG_MAX b)) i = i + j ∧
    v < 2 ^ (b + 8 * j) ∧ (0 < j → 2 ^ (b + 8 * (j - 1)) ≤ v).
Proof.
  intros Hb Hv. revert b i Hb. induction fuel as [|fuel IH]; intros b i Hb Hf; simpl.
  - exists 0. repeat split; try lia. unfold urange in Hv.
    pose proof (Z.pow_le_mono_r 2 64 (b + 8 * 0)). lia.
  - rewrite has_ullong_mask by done. destruct (Z.leb_spec (2 ^ b) v).
    + rewrite shiftl_ullong_mask by done.
      destruct (IH (b + 8) (i + 1)) as (j & Hj & -> & Hlt & Hge); [lia|lia|].
      exists (j + 1). replace (b + 8 * (j + 1)) with (b + 8 + 8 * j) by lia.
      repeat split; try lia. intros _. destruct (decide (j = 0)) as [->|].
      { by replace (b + 8 * (0 + 1 - 1)) with b by lia. }
      replace (b + 8 * (j + 1 - 1)) with (b + 8 + 8 * (j - 1)) by lia. apply Hge. lia.
    + exists 0. replace (b + 8 * 0) with b by lia. repeat split; lia.
Qed.

(** Whatever the head byte is, the number it announces stays small. *)
Lemma uint_value1_range c :
  byte c → urange 64 (chainpack_uint_value1 c (chainpack_int_bytes c)) ∧
  1 ≤ chainpack_int_bytes c ≤ 20.
Proof.
  intros Hc.
  pose proof (forall_below 256 (λ c, let v := chainpack_uint_value1 c (chainpack_int_bytes c) in
    (0 <=? v) && (v <? 128) && (1 <=? chainpack_int_bytes c) && (chainpack_int_bytes c <=? 20))
    eq_refl c Hc) as H.
  simpl in H. rewrite !andb_true_iff, !Z.leb_le, Z.ltb_lt in H. unfold urange. lia.
Qed.

#[global] Arguments w_bytes_loop : simpl never.

(** [chainpack_w_uint_bytes] is the least count that holds the number. *)
Lemma chainpack_w_uint_bytes_least v : urange 64 v →
  let k := chainpack_w_uint_bytes v in
  1 ≤ k ≤ 9 ∧ v < 2 ^ uint_bits k ∧ (1 < k → 2 ^ uint_bits (k - 1) ≤ v).
Proof.
  intros Hv. unfold chainpack_w_uint_bytes, uint_bits.
  rewrite !has_ullong_mask by (done || lia). unfold urange in Hv.
  destruct (Z.leb_spec (2 ^ 7) v); simpl; [|lia].
  destruct (Z.leb_spec (2 ^ 14) v); simpl; [|lia].
  destruct (Z.leb_spec (2 ^ 21) v); simpl; [|lia].
  destruct (Z.leb_spec (2 ^ 28) v); simpl; [|lia].
  destruct (w_bytes_loop_spec v 6 32 0) as (j & Hj & -> & Hlt & Hge); [lia|done|lia|].
  assert (j ≤ 4) as Hj4.
  { destruct (decide (j ≤ 4)); [done|]. specialize (Hge ltac:(lia)).
    pose proof (Z.pow_le_mono_r 2 64 (32 + 8 * (j - 1))). lia. }
  destruct (Z.leb_spec (5 + (0 + j)) 4); [lia|].
  replace (8 * (5 + (0 + j) - 1)) with (32 + 8 * j) by lia.
  repeat split; try lia. intros _. destruct (decide (j = 0)) as [->|]; [simpl; lia|].
  destruct (Z.leb_spec (5 + (0 + j) - 1) 4); [lia|].
  replace (8 * (5 + (0 + j) - 1 - 1)) with (32 + 8 * (j - 1)) by lia. apply Hge. lia.
Qed.

Lemma magnitude_spec v : srange 64 v → magnitude v = Z.abs v.
Proof.
  unfold srange, magnitude. intros Hv. destruct (Z.ltb_spec v 0).
  - destruct (decide (v = - 2 ^ 63)) as [->|]; [done|].
    rewrite swrap_small by (unfold srange; lia). rewrite uwrap_small; unfold urange; lia.
  - rewrite uwrap_small; unfold urange; lia.
Qed.

(** [chainpack_w_int_bytes] is the least count that holds the magnitude and the
    sign bit; ten bytes are only claimed for the most negative number. *)
Lemma chainpack_w_int_bytes_least v : srange 64 v →
  let k := chainpack_w_int_bytes v in
  1 ≤ k ≤ 10 ∧ (k = 10 ↔ v = - 2 ^ 63) ∧ Z.abs v < 2 ^ (uint_bits k - 1) ∧
    (1 < k → 2 ^ (uint_bits (k - 1) - 1) ≤ Z.abs v).
Proof.
  intros Hv. unfold chainpack_w_int_bytes, uint_bits. rewrite magnitude_spec by done.
  unfold srange in Hv.
  assert (urange 64 (Z.abs v)) as Hav by (unfold urange; lia).
  rewrite !has_ullong_mask by (done || lia).
  destruct (Z.leb_spec (2 ^ 6) (Z.abs v)); simpl; [|lia].
  destruct (Z.leb_spec (2 ^ 13) (Z.abs v)); simpl; [|lia].
  destruct (Z.leb_spec (2 ^ 20) (Z.abs v)); simpl; [|lia].
  destruct (Z.leb_spec (2 ^ 27) (Z.abs v)); simpl; [|lia].
  destruct (w_bytes_loop_spec (Z.abs v) 6 31 0) as (j & Hj & -> & Hlt & Hge); [lia|done|lia|].
  assert (j ≤ 5) as Hj5.
  { destruct (decide (j ≤ 5)); [done|]. specialize (Hge ltac:(lia)).
    pose proof (Z.pow_le_mono_r 2 64 (31 + 8 * (j - 1))). lia. }
  destruct (Z.leb_spec (5 + (0 + j)) 4); [lia|].
  replace (8 * (5 + (0 + j) - 1) - 1) with (31 + 8 * j) by lia.
  repeat split; try lia.
  - intros Hk. assert (j = 5) as -> by lia. specialize (Hge ltac:(lia)). simpl in Hge. lia.
  - intros ->. destruct (decide (j = 5)); [lia|]. exfalso.
    pose proof (Z.pow_le_mono_r 2 (31 + 8 * j) 63). lia.
  - intros _. destruct (decide (j = 0)) as [->|]; [simpl; lia|].
    destruct (Z.leb_spec (5 + (0 + j) - 1) 4); [lia|].
    replace (8 * (5 + (0 + j) - 1 - 1) - 1) with (31 + 8 * (j - 1)) by lia. apply Hge. lia.
Qed.

(** First data byte: an exhaustive check over the value bits it can carry. *)
Lemma short_head_ok k h :
  1 ≤ k ≤ 4 → 0 ≤ h < 2 ^ (8 - k) →
  let b := u8 (Z.lor (Z.shiftl 0xe0 (4 - k)) h) in
  byte b ∧ chainpack_int_bytes b = k ∧ chainpack_uint_value1 b k = h.
Proof.
  intros Hk Hh b. split; [apply byte_uwrap|].
  pose (P := λ z, (chainpack_int_bytes (u8 (Z.lor (Z.shiftl 0xe0 (4 - k)) z)) =? k) &&
                  (chainpack_uint_value1 (u8 (Z.lor (Z.shiftl 0xe0 (4 - k)) z)) k =? z)).
  assert (P h = true) as HP.
  { apply (forall_below (2 ^ (8 - k)) P); [|done].
    assert (k = 1 ∨ k = 2 ∨ k = 3 ∨ k = 4) as [->|[->|[->| ->]]] by lia; vm_compute; done. }
  unfold P in HP. apply andb_true_iff in HP as [?%Z.eqb_eq ?%Z.eqb_eq]. done.
Qed.

Lemma long_head_ok k :
  5 ≤ k ≤ 20 →
  let b := u8 (Z.lor 0xf0 (Z.land (k - 5) 0x0f)) in
  byte b ∧ chainpack_int_bytes b = k ∧ chainpack_uint_value1 b k = 0.
Proof.
  intros Hk b. split; [apply byte_uwrap|].
  pose (P := λ z, let c := u8 (Z.lor 0xf0 (Z.land z 0x0f)) in
                  (chainpack_int_bytes c =? z + 5) && (chainpack_uint_value1 c (z + 5) =? 0)).
  assert (P (k - 5) = true) as HP.
  { apply (forall_below 16 P); [vm_compute; done|lia]. }
  unfold P in HP. replace (k - 5 + 5) with k in HP by lia.
  apply andb_true_iff in HP as [?%Z.eqb_eq ?%Z.eqb_eq]. done.
Qed.

(** Value bits of the first byte. *)
Definition head_value (k v : Z) : Z := if k <=? 4 then v / 2 ^ (8 * (k - 1)) else 0.

Lemma uint_head_ok k v :
  1 ≤ k ≤ 20 → 0 ≤ v < 2 ^ uint_bits k →
  let b := chainpack_w_uint_value1 v k in
  byte b ∧ chainpack_int_bytes b = k ∧ chainpack_uint_value1 b k = head_value k v.
Proof.
  intros Hk Hv. unfold chainpack_w_uint_value1, head_value, uint_bits in *.
  destruct (Z.leb_spec k 4); destruct (Z.ltb_spec 4 k); try lia.
  - rewrite Z.shiftr_div_pow2 by lia. apply short_head_ok; [lia|].
    split; [apply Z.div_pos; lia|]. apply Z.div_lt_upper_bound; [lia|].
    rewrite <-Z.pow_add_r by lia. replace (8 * (k - 1) + (8 - k)) with (7 * k) by lia. lia.
  - apply long_head_ok. lia.
Qed.

(** The head and the data bytes together give the number back. *)
Lemma head_value_be k v :
  1 ≤ k → 0 ≤ v < 2 ^ uint_bits k →
  head_value k v * 256 ^ (k - 1) + v mod 256 ^ (k - 1) = v.
Proof.
  intros Hk Hv. unfold head_value, uint_bits in *.
  change 256 with (2 ^ 8). rewrite <-Z.pow_mul_r by lia.
  destruct (Z.leb_spec k 4).
  - pose proof (Z.div_mod v (2 ^ (8 * (k - 1)))). lia.
  - rewrite Z.mod_small; lia.
Qed.

#[global] Arguments chainpack_int_bytes : simpl never.
#[global] Arguments chainpack_uint_value1 : simpl never.
#[global] Arguments chainpack_w_uint_value1 : simpl never.
#[global] Arguments chainpack_w_int_value1 : simpl never.
#[global] Arguments chainpack_w_uint_bytes : simpl never.
#[global] Arguments chainpack_w_int_bytes : simpl never.
