(* ===== verification/CpItem.v ===== *)
(** * Items and their value union ([include/shv/cp.h], [libshvcp/common.c])

    [cpitem] is the structure the packers read and the unpackers fill: the type
    tag, the value union, the buffer and its size.  The union is the
    alternative written last; [as_Error] is what a read of the [Error]
    alternative yields whatever was written before it, because
    [common_unpack] relies on that read. *)

From S2P Require Import Prelude.

(** ** Definitions *)

Inductive cpitem_type :=
  | CPITEM_INVALID | CPITEM_NULL | CPITEM_BOOL | CPITEM_INT | CPITEM_UINT
  | CPITEM_DOUBLE | CPITEM_DECIMAL | CPITEM_DATETIME | CPITEM_BLOB | CPITEM_STRING
  | CPITEM_LIST | CPITEM_MAP | CPITEM_IMAP | CPITEM_META | CPITEM_CONTAINER_END.

#[export] Instance cpitem_type_eq_dec : EqDecision cpitem_type.
Proof. solve_decision. Defined.

Inductive cperror := CPERR_NONE | CPERR_EOF | CPERR_IO | CPERR_INVALID | CPERR_OVERFLOW.

#[export] Instance cperror_eq_dec : EqDecision cperror.
Proof. solve_decision. Defined.

Definition cperror_Z (e : cperror) : Z :=
  match e with
  | CPERR_NONE => 0 | CPERR_EOF => 1 | CPERR_IO => 2 | CPERR_INVALID => 3 | CPERR_OVERFLOW => 4
  end.

Record cpdecimal := Decimal { mantissa : Z; exponent : Z }.
Record cpdatetime := Datetime { msecs : Z; offutc : Z }.

Definition CPBI_F_FIRST : Z := 1.
Definition CPBI_F_LAST : Z := 2.
Definition CPBI_F_STREAM : Z := 4.
Definition CPBI_F_HEX : Z := 8.
Definition CPBI_F_SINGLE : Z := 3.

Record cpbufinfo := BufInfo { len : Z; eoff : Z; flags : Z }.

(** [union cpitem_as].  [AsBool b hi]: a [bool] occupies the first byte, [hi]
    is what the three bytes after it still hold. [AsDouble bits]: the IEEE
    binary64 pattern. *)
Inductive cpitem_as :=
  | AsBool (b : bool) (hi : Z)
  | AsInt (v : Z)
  | AsUInt (v : Z)
  | AsDouble (bits : Z)
  | AsDecimal (d : cpdecimal)
  | AsDatetime (d : cpdatetime)
  | AsBuf (b : cpbufinfo)
  | AsError (e : cperror).

#[export] Instance cpdecimal_eq_dec : EqDecision cpdecimal.
Proof. solve_decision. Defined.
#[export] Instance cpdatetime_eq_dec : EqDecision cpdatetime.
Proof. solve_decision. Defined.
#[export] Instance cpbufinfo_eq_dec : EqDecision cpbufinfo.
Proof. solve_decision. Defined.
#[export] Instance cpitem_as_eq_dec : EqDecision cpitem_as.
Proof. solve_decision. Defined.

(** [item->as.Error] read as the enumeration's integer: the first four bytes of
    the union (little endian). *)
Definition as_Error (u : cpitem_as) : Z :=
  match u with
  | AsBool b hi => (if b then 1 else 0) + 256 * hi
  | AsInt v | AsUInt v | AsDouble v => u32 v
  | AsDecimal d => u32 (mantissa d)
  | AsDatetime d => u32 (msecs d)
  | AsBuf b => u32 (len b)
  | AsError e => cperror_Z e
  end.

(** Reads of the other alternatives; each is only used under the type tag that
    its writer sets (see [item_wf]). *)
Definition as_Bool (u : cpitem_as) : bool := match u with AsBool b _ => b | _ => false end.
Definition as_Int (u : cpitem_as) : Z :=
  match u with AsInt v => v | AsUInt v => i64 v | _ => 0 end.
Definition as_UInt (u : cpitem_as) : Z :=
  match u with AsUInt v => v | AsInt v => u64 v | _ => 0 end.
Definition as_Double (u : cpitem_as) : Z := match u with AsDouble v => v | _ => 0 end.
Definition as_Decimal (u : cpitem_as) : cpdecimal :=
  match u with AsDecimal d => d | _ => Decimal 0 0 end.
Definition as_Datetime (u : cpitem_as) : cpdatetime :=
  match u with AsDatetime d => d | _ => Datetime 0 0 end.
(** [as.Blob] and [as.String] are the same structure at the same place. *)
Definition as_Blob (u : cpitem_as) : cpbufinfo :=
  match u with AsBuf b => b | _ => BufInfo 0 0 0 end.

(** Storing a [bool] leaves the rest of the union alone. *)
Definition set_Bool (b : bool) (u : cpitem_as) : cpitem_as := AsBool b (as_Error u / 256).

(** [buf]: the memory the item points to, [None] for [NULL]. *)
Record cpitem := Item {
  type : cpitem_type;
  as_ : cpitem_as;
  buf : option (list Z);
  bufsiz : Z
}.

Definition set_type (t : cpitem_type) (i : cpitem) : cpitem := Item t (as_ i) (buf i) (bufsiz i).
Definition set_as (u : cpitem_as) (i : cpitem) : cpitem := Item (type i) u (buf i) (bufsiz i).
Definition set_buf (b : option (list Z)) (i : cpitem) : cpitem := Item (type i) (as_ i) b (bufsiz i).
Definition set_bufsiz (n : Z) (i : cpitem) : cpitem := Item (type i) (as_ i) (buf i) n.

Definition cpitem_unpack_init (i : cpitem) : cpitem :=
  Item CPITEM_INVALID (AsError CPERR_NONE) None 0.

(** [item->type = CPITEM_INVALID; item->as.Error = e] *)
Definition set_error (e : cperror) (i : cpitem) : cpitem :=
  set_as (AsError e) (set_type CPITEM_INVALID i).

(** [common_unpack]: nothing is unpacked after an error was reported. *)
Definition common_unpack (i : cpitem) : bool :=
  match type i with
  | CPITEM_INVALID => negb (as_Error (as_ i) =? 0)
  | _ => false
  end.

(** *** Extraction macros

    [cpitem_extract_int(ITEM, DEST)] for a destination of the given width and
    signedness: [None] is the [false] result that leaves [DEST] alone. *)
Inductive ctype := Unsigned (w : Z) | Signed (w : Z).

Definition conv (t : ctype) (v : Z) : Z :=
  match t with Unsigned w => uwrap w v | Signed w => swrap w v end.

(** [v == (typeof(DEST))v] after the usual arithmetic conversions with a 64 bit
    left operand: the comparison is done on [uintmax_t] when either side is an
    unsigned 64 bit number, on [intmax_t] otherwise. *)
Definition fits_int (t : ctype) (v : Z) : bool :=
  match t with
  | Unsigned 64 => u64 v =? conv t v
  | _ => v =? conv t v
  end.

Definition fits_uint (t : ctype) (v : Z) : bool := v =? u64 (conv t v).

Definition cpitem_extract_int (t : ctype) (i : cpitem) : option Z :=
  if bool_decide (type i = CPITEM_INT) && fits_int t (as_Int (as_ i))
  then Some (conv t (as_Int (as_ i))) else None.

Definition cpitem_extract_uint (t : ctype) (i : cpitem) : option Z :=
  if bool_decide (type i = CPITEM_UINT) && fits_uint t (as_UInt (as_ i))
  then Some (conv t (as_UInt (as_ i))) else None.

Definition cpitem_extract_bool (i : cpitem) : option bool :=
  if bool_decide (type i = CPITEM_BOOL) then Some (as_Bool (as_ i)) else None.

Definition cpitem_extract_datetime (i : cpitem) : option cpdatetime :=
  if bool_decide (type i = CPITEM_DATETIME) then Some (as_Datetime (as_ i)) else None.

Definition cpitem_extract_decimal (i : cpitem) : option cpdecimal :=
  if bool_decide (type i = CPITEM_DECIMAL) then Some (as_Decimal (as_ i)) else None.

(** ** Well-formed items

    The alternative of the union that goes with each type, with its C range. *)
Definition bufinfo_wf (b : cpbufinfo) : Prop :=
  urange 64 (len b) ∧ urange 64 (eoff b) ∧ urange 8 (flags b).

Definition as_wf (t : cpitem_type) (u : cpitem_as) : Prop :=
  match t with
  | CPITEM_BOOL => ∃ b hi, u = AsBool b hi
  | CPITEM_INT => ∃ v, u = AsInt v ∧ srange 64 v
  | CPITEM_UINT => ∃ v, u = AsUInt v ∧ urange 64 v
  | CPITEM_DOUBLE => ∃ v, u = AsDouble v ∧ urange 64 v
  | CPITEM_DECIMAL => ∃ d, u = AsDecimal d ∧ srange 64 (mantissa d) ∧ srange 32 (exponent d)
  | CPITEM_DATETIME => ∃ d, u = AsDatetime d ∧ srange 64 (msecs d) ∧ srange 32 (offutc d)
  | CPITEM_BLOB | CPITEM_STRING => ∃ b, u = AsBuf b ∧ bufinfo_wf b
  | _ => True
  end.

(** The memory behind a non-[NULL] buffer holds at least [bufsiz] bytes. *)
Definition buf_wf (i : cpitem) : Prop :=
  urange 64 (bufsiz i) ∧
  match buf i with None => True | Some m => bufsiz i ≤ Z.of_nat (length m) end.

Definition item_wf (i : cpitem) : Prop := as_wf (type i) (as_ i) ∧ buf_wf i.

(** ** Tokens

    What an item means, apart from where it is stored: one token per item, with
    strings and blobs whole.  [holds t i] says that [i] has been filled with
    [t]; a [NULL] buffer is filled with anything. *)
Inductive tok :=
  | TNull | TBool (b : bool) | TInt (v : Z) | TUInt (v : Z) | TDouble (bits : Z)
  | TDecimal (d : cpdecimal) | TDatetime (d : cpdatetime)
  | TBlob (l : list Z) | TString (l : list Z)
  | TList | TMap | TIMap | TMeta | TEnd.

#[export] Instance tok_eq_dec : EqDecision tok.
Proof. solve_decision. Defined.

Definition tok_type (t : tok) : cpitem_type :=
  match t with
  | TNull => CPITEM_NULL | TBool _ => CPITEM_BOOL | TInt _ => CPITEM_INT | TUInt _ => CPITEM_UINT
  | TDouble _ => CPITEM_DOUBLE | TDecimal _ => CPITEM_DECIMAL | TDatetime _ => CPITEM_DATETIME
  | TBlob _ => CPITEM_BLOB | TString _ => CPITEM_STRING
  | TList => CPITEM_LIST | TMap => CPITEM_MAP | TIMap => CPITEM_IMAP | TMeta => CPITEM_META
  | TEnd => CPITEM_CONTAINER_END
  end.

Definition holds_data (l : list Z) (i : cpitem) : Prop :=
  ∃ fl, as_ i = AsBuf (BufInfo (Z.of_nat (length l)) 0 fl) ∧
    has fl CPBI_F_FIRST = true ∧ has fl CPBI_F_LAST = true ∧
    match buf i with None => True | Some m => take (length l) m = l end.

Definition holds (t : tok) (i : cpitem) : Prop :=
  type i = tok_type t ∧
  match t with
  | TBool b => ∃ hi, as_ i = AsBool b hi
  | TInt v => as_ i = AsInt v
  | TUInt v => as_ i = AsUInt v
  | TDouble v => as_ i = AsDouble v
  | TDecimal d => as_ i = AsDecimal d
  | TDatetime d => as_ i = AsDatetime d
  | TBlob l | TString l => holds_data l i
  | _ => True
  end.

(** Room for the data of a token in the buffer an item is unpacked to. *)
Definition fits (t : tok) (i : cpitem) : Prop :=
  match t with
  | TBlob l | TString l => 0 < bufsiz i ∧ Z.of_nat (length l) ≤ bufsiz i
  | _ => True
  end.

(** [buf_kept it it']: [it'] is [it] up to its value and the first [bufsiz]
    bytes of its buffer. *)
Definition buf_kept (it it' : cpitem) : Prop :=
  type it' = type it ∧ bufsiz it' = bufsiz it ∧
  match buf it, buf it' with
  | None, None => True
  | Some m, Some m' =>
      length m' = length m ∧
      drop (Z.to_nat (bufsiz it)) m' = drop (Z.to_nat (bufsiz it)) m
  | _, _ => False
  end.

(** An item the next token can be unpacked to: no error was reported and nothing
    of a string or blob is left to be read. *)
Definition ready (i : cpitem) : bool :=
  match type i with
  | CPITEM_INVALID => as_Error (as_ i) =? 0
  | CPITEM_BLOB | CPITEM_STRING =>
      (eoff (as_Blob (as_ i)) =? 0) && has (flags (as_Blob (as_ i))) CPBI_F_LAST
  | _ => true
  end.

(** ** Lemmas *)

(** The extraction macros return exactly the values the destination can hold. *)
Lemma cpitem_extract_int_signed w i v :
  0 < w ≤ 64 → type i = CPITEM_INT → as_ i = AsInt v → srange 64 v →
  cpitem_extract_int (Signed w) i = if bool_decide (srange w v) then Some v else None.
Proof.
  intros Hw Ht Ha Hv. unfold cpitem_extract_int. rewrite Ht, Ha, bool_decide_true by done. simpl.
  destruct (decide (srange w v)) as [Hr|Hr].
  - rewrite bool_decide_true by done. rewrite swrap_small by (done || lia). by rewrite Z.eqb_refl.
  - rewrite bool_decide_false by done. pose proof (swrap_range w v ltac:(lia)).
    destruct (Z.eqb_spec v (swrap w v)) as [Heq|]; [|done]. rewrite Heq in Hr. done.
Qed.

Lemma buf_kept_refl it : buf_kept it it.
Proof. unfold buf_kept. by destruct (buf it). Qed.

Lemma buf_kept_trans it it1 it2 : buf_kept it it1 → buf_kept it1 it2 → buf_kept it it2.
Proof.
  intros (Ht1 & Hs1 & H1) (Ht2 & Hs2 & H2). unfold buf_kept. rewrite Hs1 in *.
  split; [congruence|]. split; [congruence|].
  destruct (buf it), (buf it1), (buf it2); try done. destruct H1, H2. split; congruence.
Qed.

Lemma buf_kept_set_as u it it' : buf_kept it it' → buf_kept it (set_as u it').
Proof. done. Qed.

#[export] Hint Resolve buf_kept_refl buf_kept_trans buf_kept_set_as : shv.

Lemma buf_kept_wf it it' : buf_kept it it' → buf_wf it → buf_wf it'.
Proof.
  unfold buf_kept, buf_wf. intros (_ & -> & Hb) [Hs Hm]. split; [done|].
  destruct (buf it), (buf it'); try done. destruct Hb as [-> _]. done.
Qed.

Lemma holds_ready t it : holds t it → ready it = true.
Proof.
  intros [Ht Hv]. unfold ready. rewrite Ht.
  destruct t; try done; destruct Hv as (fl & Ha & _ & Hl & _); rewrite Ha; cbn in *; by rewrite Hl.
Qed.
