(* ===== verification/ChainpackPack.v ===== *)
(** * ChainPack packer ([libshvcp/chainpack_pack.c], [libshvcp/common.c])

    [chainpack_pack] writes one item.  It is a packer body over the commands of
    [Stdio]; [item_bytes] is the abstract encoding it refines: on a stream with
    room exactly these bytes are appended and their number is returned, on the
    [NULL] stream the number alone, and on a full stream [-1]. *)

From S2P Require Import Prelude Stdio Chainpack CpItem.

(** ** Definitions *)

(** [common_pack]: [Some res] when the packer returns at once with [res]. *)
Definition common_pack (f : ofile) (i : cpitem) : option Z :=
  if match f with Some w => ferror w | None => false end then Some (-1)
  else match type i with CPITEM_INVALID => Some 0 | _ => None end.

Definition uint_data (v bytes : Z) : list Z :=
  (λ i, Z.land 0xff (Z.shiftr v (8 * (bytes - i - 1)))) <$> seqZ 1 (bytes - 1).

Definition chainpack_pack_uint (v : Z) : ofile → ofile * Z :=
  let bytes := chainpack_w_uint_bytes v in
  body (WRITE (chainpack_w_uint_value1 v bytes :: uint_data v bytes)).

(** [buf[1] |= 0x80] for negative numbers longer than four bytes. *)
Definition set_sign (l : list Z) : list Z :=
  match l with h :: b :: l' => h :: Z.lor b 0x80 :: l' | _ => l end.

Definition chainpack_pack_int (v : Z) : ofile → ofile * Z :=
  let bytes := chainpack_w_int_bytes v in
  let uv := magnitude v in
  let buf := chainpack_w_int_value1 v bytes :: uint_data uv bytes in
  body (WRITE (if (4 <? bytes) && (v <? 0) then set_sign buf else buf)).

(** The eight bytes of a [double] in memory (little endian). *)
Fixpoint le_bytes (n : nat) (v : Z) : list Z :=
  match n with O => [] | S n' => v mod 256 :: le_bytes n' (v / 256) end.

(** The integer a date and time is packed as. *)
Definition datetime_code (d : cpdatetime) : Z :=
  let msecs := i64 (msecs d - CHAINPACK_EPOCH_MSEC) in
  let offset := Z.land (Z.quot (offutc d) 15) 0x7f in
  let ms := negb (Z.rem msecs 1000 =? 0) in
  let msecs := if negb ms then Z.quot msecs 1000 else msecs in
  let msecs := if negb (offset =? 0) then Z.lor (i64 (msecs * 128)) offset else msecs in
  let msecs := i64 (msecs * 4) in
  let msecs := if negb (offset =? 0) then Z.lor msecs 1 else msecs in
  if negb ms then Z.lor msecs 2 else msecs.

(** The memory [item->rbuf] points to. *)
Definition rbuf (i : cpitem) : list Z := default [] (buf i).

Definition pack_blob (i : cpitem) : cmd :=
  let b := as_Blob (as_ i) in
  (if has (flags b) CPBI_F_FIRST then
     if has (flags b) CPBI_F_STREAM then PUTC CPS_BlobChain
     else PUTC CPS_Blob ;;; CALL (chainpack_pack_uint (u64 (len b + eoff b)))
   else skipc) ;;;
  (if negb (len b =? 0) then
     (if has (flags b) CPBI_F_STREAM then CALL (chainpack_pack_uint (len b)) else skipc) ;;;
     WRITE (take (Z.to_nat (len b)) (rbuf i))
   else skipc) ;;;
  (if has (flags b) CPBI_F_STREAM && has (flags b) CPBI_F_LAST then PUTC 0 else skipc).

Definition pack_string (i : cpitem) : cmd :=
  let b := as_Blob (as_ i) in
  (if has (flags b) CPBI_F_FIRST then
     if has (flags b) CPBI_F_STREAM then PUTC CPS_CString
     else PUTC CPS_String ;;; CALL (chainpack_pack_uint (u64 (i64 (len b) + eoff b)))
   else skipc) ;;;
  WRITE (take (Z.to_nat (len b)) (rbuf i)) ;;;
  (if has (flags b) CPBI_F_STREAM && has (flags b) CPBI_F_LAST then PUTC 0 else skipc).

(** The [switch] of [chainpack_pack]. *)
Definition pack_item (i : cpitem) : cmd :=
  match type i with
  | CPITEM_INVALID => skipc (* handled in [common_pack] *)
  | CPITEM_NULL => PUTC CPS_Null
  | CPITEM_BOOL => PUTC (if as_Bool (as_ i) then CPS_TRUE else CPS_FALSE)
  | CPITEM_INT =>
      let v := as_Int (as_ i) in
      if (0 <=? v) && (v <? 64) then PUTC (Z.rem v 64 + 64)
      else PUTC CPS_Int ;;; CALL (chainpack_pack_int v)
  | CPITEM_UINT =>
      let v := as_UInt (as_ i) in
      if v <? 64 then PUTC (Z.rem (as_Int (as_ i)) 64)
      else PUTC CPS_UInt ;;; CALL (chainpack_pack_uint v)
  | CPITEM_DOUBLE => PUTC CPS_Double ;;; WRITE (le_bytes 8 (as_Double (as_ i)))
  | CPITEM_DECIMAL =>
      PUTC CPS_Decimal ;;; CALL (chainpack_pack_int (mantissa (as_Decimal (as_ i)))) ;;;
      CALL (chainpack_pack_int (exponent (as_Decimal (as_ i))))
  | CPITEM_BLOB => pack_blob i
  | CPITEM_STRING => pack_string i
  | CPITEM_DATETIME =>
      PUTC CPS_DateTime ;;; CALL (chainpack_pack_int (datetime_code (as_Datetime (as_ i))))
  | CPITEM_LIST => PUTC CPS_List
  | CPITEM_MAP => PUTC CPS_Map
  | CPITEM_IMAP => PUTC CPS_IMap
  | CPITEM_META => PUTC CPS_MetaMap
  | CPITEM_CONTAINER_END => PUTC CPS_TERM
  end.

Definition chainpack_pack (f : ofile) (i : cpitem) : ofile * Z :=
  match common_pack f i with
  | Some res => (f, res)
  | None => body (pack_item i) f
  end.

(** ** Abstract encoding *)

Definition uint_bytes (v : Z) : list Z := uint_rep (Z.to_nat (chainpack_w_uint_bytes v)) v.

(** A signed number is laid out like the unsigned one that has the magnitude in
    the low bits and the sign in the most significant value bit. *)
Definition int_code (v : Z) : Z :=
  Z.abs v + (if v <? 0 then 2 ^ (uint_bits (chainpack_w_int_bytes v) - 1) else 0).

Definition int_bytes (v : Z) : list Z :=
  uint_rep (Z.to_nat (chainpack_w_int_bytes v)) (int_code v).

#[global] Arguments uint_bytes : simpl never.
#[global] Arguments int_bytes : simpl never.

Definition blob_bytes (b : cpbufinfo) (data : list Z) : list Z :=
  (if has (flags b) CPBI_F_FIRST then
     if has (flags b) CPBI_F_STREAM then [CPS_BlobChain]
     else CPS_Blob :: uint_bytes (u64 (len b + eoff b))
   else []) ++
  (if negb (len b =? 0) then
     (if has (flags b) CPBI_F_STREAM then uint_bytes (len b) else []) ++ data
   else []) ++
  (if has (flags b) CPBI_F_STREAM && has (flags b) CPBI_F_LAST then [0] else []).

Definition string_bytes (b : cpbufinfo) (data : list Z) : list Z :=
  (if has (flags b) CPBI_F_FIRST then
     if has (flags b) CPBI_F_STREAM then [CPS_CString]
     else CPS_String :: uint_bytes (u64 (len b + eoff b))
   else []) ++
  data ++
  (if has (flags b) CPBI_F_STREAM && has (flags b) CPBI_F_LAST then [0] else []).

Definition item_bytes (i : cpitem) : list Z :=
  match type i with
  | CPITEM_INVALID => []
  | CPITEM_NULL => [CPS_Null]
  | CPITEM_BOOL => [if as_Bool (as_ i) then CPS_TRUE else CPS_FALSE]
  | CPITEM_INT =>
      let v := as_Int (as_ i) in
      if (0 <=? v) && (v <? 64) then [v + 64] else CPS_Int :: int_bytes v
  | CPITEM_UINT =>
      let v := as_UInt (as_ i) in
      if v <? 64 then [v] else CPS_UInt :: uint_bytes v
  | CPITEM_DOUBLE => CPS_Double :: le_bytes 8 (as_Double (as_ i))
  | CPITEM_DECIMAL =>
      CPS_Decimal :: int_bytes (mantissa (as_Decimal (as_ i))) ++
      int_bytes (exponent (as_Decimal (as_ i)))
  | CPITEM_BLOB =>
      blob_bytes (as_Blob (as_ i)) (take (Z.to_nat (len (as_Blob (as_ i)))) (rbuf i))
  | CPITEM_STRING =>
      string_bytes (as_Blob (as_ i)) (take (Z.to_nat (len (as_Blob (as_ i)))) (rbuf i))
  | CPITEM_DATETIME => CPS_DateTime :: int_bytes (datetime_code (as_Datetime (as_ i)))
  | CPITEM_LIST => [CPS_List]
  | CPITEM_MAP => [CPS_Map]
  | CPITEM_IMAP => [CPS_IMap]
  | CPITEM_META => [CPS_MetaMap]
  | CPITEM_CONTAINER_END => [CPS_TERM]
  end.

(** Items the packer is meant for: the value is in range, the buffer holds
    [len] bytes and the most negative number is excluded (see
    [chainpack_pack_int_min]). *)
Definition packable_int (v : Z) : Prop := srange 64 v ∧ v ≠ - 2 ^ 63.

Definition packable (i : cpitem) : Prop :=
  as_wf (type i) (as_ i) ∧
  match type i, as_ i with
  | CPITEM_INT, AsInt v => packable_int v
  | CPITEM_DECIMAL, AsDecimal d => packable_int (mantissa d)
  | CPITEM_DATETIME, AsDatetime d => packable_int (datetime_code d)
  | (CPITEM_BLOB | CPITEM_STRING), AsBuf b => len b ≤ Z.of_nat (length (rbuf i))
  | _, _ => True
  end.

(** ** Lemmas *)

Lemma uint_data_be_from v n s :
  (λ i, Z.land 0xff (Z.shiftr v (8 * (s + Z.of_nat n - i - 1)))) <$> seqZ s (Z.of_nat n) =
  be_bytes n v.
Proof.
  revert s. induction n as [|n IH]; intros s; [done|].
  rewrite seqZ_cons, fmap_cons by lia. cbn [be_bytes]. f_equal.
  - rewrite Z.land_comm. change 0xff with (2 ^ 8 - 1). rewrite land_ones_mod by lia.
    rewrite Z.shiftr_div_pow2 by lia. change 256 with (2 ^ 8). rewrite <-Z.pow_mul_r by lia.
    do 3 f_equal. lia.
  - rewrite <-(IH (Z.succ s)). replace (Z.pred (Z.of_nat (S n))) with (Z.of_nat n) by lia.
    apply list_fmap_ext. intros _ i _. do 3 f_equal. lia.
Qed.

Lemma uint_data_be v k : 1 ≤ k → uint_data v k = be_bytes (Z.to_nat k - 1) v.
Proof.
  intros Hk. unfold uint_data. rewrite <-(uint_data_be_from v (Z.to_nat k - 1) 1).
  replace (Z.of_nat (Z.to_nat k - 1)) with (k - 1) by lia.
  apply list_fmap_ext. intros _ i _. do 3 f_equal. lia.
Qed.

Lemma emits_pack_uint v : urange 64 v → emits (CALL (chainpack_pack_uint v)) (uint_bytes v).
Proof.
  intros Hv. unfold chainpack_pack_uint, uint_bytes, uint_rep.
  destruct (chainpack_w_uint_bytes_least v Hv) as (Hk & _).
  rewrite uint_data_be, Z2Nat.id by lia. apply emits_CALL_body, emits_WRITE.
Qed.

Lemma pack_uint_length v :
  urange 64 v → chainpack_pack_uint v None = (None, chainpack_w_uint_bytes v).
Proof.
  intros Hv. destruct (chainpack_w_uint_bytes_least v Hv) as (Hk & _).
  unfold chainpack_pack_uint. rewrite (body_null _ _ (emits_WRITE _)). cbn [length].
  rewrite uint_data_be, length_be_bytes by lia. f_equal. lia.
Qed.

(** The sign bit of the head byte, checked for every value it can carry. *)
Lemma signed_head k h :
  1 ≤ k ≤ 4 → 0 ≤ h < 2 ^ (7 - k) →
  u8 (Z.lor (Z.shiftl 0xe8 (4 - k)) h) = u8 (Z.lor (Z.shiftl 0xe0 (4 - k)) (h + 2 ^ (7 - k))).
Proof.
  intros Hk Hh. apply Z.eqb_eq.
  apply (forall_below (2 ^ (7 - k)) (λ z, u8 (Z.lor (Z.shiftl 0xe8 (4 - k)) z) =?
    u8 (Z.lor (Z.shiftl 0xe0 (4 - k)) (z + 2 ^ (7 - k))))); [|done].
  assert (k = 1 ∨ k = 2 ∨ k = 3 ∨ k = 4) as [->|[->|[->| ->]]] by lia; vm_compute; done.
Qed.

Lemma byte_sign b : 0 ≤ b < 128 → Z.lor b 0x80 = (b + 128) mod 256.
Proof.
  intros Hb. apply Z.eqb_eq.
  by apply (forall_below 128 (λ b, Z.lor b 0x80 =? (b + 128) mod 256)).
Qed.

(** The bytes [chainpack_pack_int] writes are the unsigned layout of [int_code]. *)
Lemma int_buf_code v k n :
  k = Z.of_nat n → 1 ≤ k ≤ 9 → srange 64 v → Z.abs v < 2 ^ (uint_bits k - 1) →
  let buf := chainpack_w_int_value1 v k :: uint_data (Z.abs v) k in
  (if (4 <? k) && (v <? 0) then set_sign buf else buf) =
  uint_rep n (Z.abs v + (if v <? 0 then 2 ^ (uint_bits k - 1) else 0)).
Proof.
  intros Hkn Hk Hv Ha. cbv zeta. rewrite uint_data_be by lia.
  unfold uint_rep, chainpack_w_int_value1, chainpack_w_uint_value1. rewrite <-Hkn.
  rewrite magnitude_spec by done. unfold uint_bits in *.
  replace (Z.to_nat k) with n by lia.
  destruct (Z.ltb_spec v 0) as [Hneg|]; [|rewrite andb_false_r, Z.add_0_r; done].
  rewrite andb_true_r. destruct (Z.ltb_spec 4 k); destruct (Z.leb_spec k 4); try lia.
  - destruct n as [|[|m]]; [lia|lia|]. simpl Nat.sub.
    assert (8 * (k - 1) - 1 = 7 + 8 * Z.of_nat m) as Hb by lia.
    rewrite Hb in *. rewrite Z.pow_add_r, (Z.pow_mul_r 2 8) in * by lia.
    change (2 ^ 8) with 256 in *. change (2 ^ 7) with 128 in *.
    cbn [be_bytes set_sign]. rewrite be_bytes_add. do 2 f_equal.
    rewrite Z.div_add by lia.
    assert (0 ≤ Z.abs v / 256 ^ Z.of_nat m < 128).
    { split; [apply Z.div_pos; lia|apply Z.div_lt_upper_bound; lia]. }
    rewrite Z.mod_small by lia. by apply byte_sign.
  - assert (7 * k - 1 = (7 - k) + 8 * Z.of_nat (n - 1)) as Hb by lia.
    rewrite Hb in *. rewrite Z.pow_add_r, (Z.pow_mul_r 2 8) in * by lia.
    change (2 ^ 8) with 256 in *. rewrite be_bytes_add. f_equal.
    rewrite !Z.shiftr_div_pow2 by lia.
    replace (8 * (k - 1)) with (8 * Z.of_nat (n - 1)) by lia.
    rewrite (Z.pow_mul_r 2 8) by lia. change (2 ^ 8) with 256.
    rewrite Z.div_add by lia. apply signed_head; [lia|].
    split; [apply Z.div_pos; lia|apply Z.div_lt_upper_bound; lia].
Qed.

Lemma emits_pack_int v : packable_int v → emits (CALL (chainpack_pack_int v)) (int_bytes v).
Proof.
  intros [Hv Hmin]. unfold chainpack_pack_int, int_bytes, int_code.
  destruct (chainpack_w_int_bytes_least v Hv) as (Hk & H10 & Ha & _).
  rewrite magnitude_spec by done.
  rewrite (int_buf_code v _ (Z.to_nat (chainpack_w_int_bytes v))) by (done || lia).
  apply emits_CALL_body, emits_WRITE.
Qed.

#[export] Hint Resolve emits_pack_uint emits_pack_int : shv.

Lemma emits_byte v b : u8 v = b → emits (PUTC v) [b].
Proof. intros <-. apply emits_PUTC. Qed.

Lemma emits_cons v b c l : u8 v = b → emits c l → emits (PUTC v ;;; c) (b :: l).
Proof. intros Hv Hc. apply (emits_seq _ _ [b]); [by apply emits_byte|done]. Qed.

Lemma emits_pack_blob i b :
  as_ i = AsBuf b → bufinfo_wf b →
  emits (pack_blob i) (blob_bytes b (take (Z.to_nat (len b)) (rbuf i))).
Proof.
  intros Ha (Hl & He & Hf). unfold pack_blob, blob_bytes. rewrite Ha. simpl.
  repeat apply emits_seq.
  - apply emits_if; [|apply emits_skip]. apply emits_if; [by apply emits_byte|].
    apply emits_cons; [done|]. apply emits_pack_uint, uwrap_range. lia.
  - apply emits_if; [|apply emits_skip]. apply emits_seq; [|apply emits_WRITE].
    apply emits_if; [|apply emits_skip]. by apply emits_pack_uint.
  - apply emits_if; [by apply emits_byte|apply emits_skip].
Qed.

Lemma emits_pack_string i b :
  as_ i = AsBuf b → bufinfo_wf b →
  emits (pack_string i) (string_bytes b (take (Z.to_nat (len b)) (rbuf i))).
Proof.
  intros Ha Hb. unfold pack_string, string_bytes. rewrite Ha. simpl.
  rewrite uwrap_add_swrap. repeat apply emits_seq.
  - apply emits_if; [|apply emits_skip]. apply emits_if; [by apply emits_byte|].
    apply emits_cons; [done|]. apply emits_pack_uint, uwrap_range. lia.
  - apply emits_WRITE.
  - apply emits_if; [by apply emits_byte|apply emits_skip].
Qed.

(** Range side conditions of 32 bit values used at 64 bits. *)
Lemma packable_int_32 v : srange 32 v → packable_int v.
Proof. unfold packable_int, srange. lia. Qed.

(** Every branch of the [switch] writes the abstract encoding. *)
Lemma emits_pack_item i : packable i → emits (pack_item i) (item_bytes i).
Proof.
  intros [Hwf Hp]. unfold pack_item, item_bytes. destruct (type i) eqn:Ht; simpl in Hwf;
    try (by apply emits_byte).
  - apply emits_skip.
  - apply emits_byte. by destruct (as_Bool (as_ i)).
  - destruct Hwf as (v & Ha & Hv). rewrite Ha in *. simpl in *.
    destruct (Z.leb_spec 0 v), (Z.ltb_spec v 64); simpl;
      try (apply emits_cons; [done|by apply emits_pack_int]).
    apply emits_byte. rewrite Z.rem_small by lia. apply uwrap_small. unfold urange. lia.
  - destruct Hwf as (v & Ha & Hv). rewrite Ha in *. simpl in *. unfold urange in Hv.
    destruct (Z.ltb_spec v 64); [|apply emits_cons; [done|by apply emits_pack_uint]].
    apply emits_byte. rewrite swrap_small by (unfold srange; lia).
    rewrite Z.rem_small by lia. apply uwrap_small. unfold urange. lia.
  - apply emits_cons; [done|apply emits_WRITE].
  - destruct Hwf as (d & Ha & Hm & He). rewrite Ha in *. cbn [as_Decimal] in *.
    apply emits_cons; [done|].
    apply emits_seq; [by apply emits_pack_int|by apply emits_pack_int, packable_int_32].
  - destruct Hwf as (d & Ha & _). rewrite Ha in *. simpl in *.
    apply emits_cons; [done|by apply emits_pack_int].
  - destruct Hwf as (b & Ha & Hb). rewrite Ha. simpl. by apply emits_pack_blob.
  - destruct Hwf as (b & Ha & Hb). rewrite Ha. simpl. by apply emits_pack_string.
Qed.

(** Result of [chainpack_pack] in its three modes. *)
Lemma chainpack_pack_null i :
  packable i → chainpack_pack None i = (None, Z.of_nat (length (item_bytes i))).
Proof.
  intros Hp. unfold chainpack_pack, common_pack.
  pose proof (body_null _ _ (emits_pack_item i Hp)) as Hb.
  destruct (type i) eqn:Ht; try exact Hb. unfold item_bytes. by rewrite Ht.
Qed.

Lemma chainpack_pack_room w i :
  packable i → wf_err w = false → roomy (length (item_bytes i)) w →
  chainpack_pack (Some w) i =
    (Some (written (item_bytes i) w), Z.of_nat (length (item_bytes i))).
Proof.
  intros Hp He Hw. unfold chainpack_pack, common_pack, ferror. rewrite He.
  pose proof (body_room _ _ _ (emits_pack_item i Hp) Hw) as Hb.
  destruct (type i) eqn:Ht; try exact Hb. unfold item_bytes, written. rewrite Ht. simpl.
  rewrite app_nil_r. destruct w as [o [r|] e]; simpl in *; subst; by rewrite ?Nat.sub_0_r.
Qed.

Lemma chainpack_pack_full w i :
  packable i → wf_err w = false → ¬ roomy (length (item_bytes i)) w →
  ∃ w', chainpack_pack (Some w) i = (Some w', -1) ∧ wf_err w' = true.
Proof.
  intros Hp He Hw. unfold chainpack_pack, common_pack, ferror. rewrite He.
  destruct (body_full _ _ _ (emits_pack_item i Hp) Hw) as (w' & Hb & He' & _).
  destruct (type i) eqn:Ht; try (by exists w'; split).
  destruct Hw. unfold item_bytes. rewrite Ht. unfold roomy. simpl. destruct (wf_room w); lia.
Qed.

(** Once the stream is in error nothing is written any more. *)
Lemma chainpack_pack_sticky w i :
  wf_err w = true → chainpack_pack (Some w) i = (Some w, -1).
Proof. intros He. unfold chainpack_pack, common_pack, ferror. by rewrite He. Qed.

(** ** Tokens *)

(** The encoding of a token. *)
Definition tok_bytes (t : tok) : list Z :=
  match t with
  | TNull => [CPS_Null]
  | TBool b => [if b then CPS_TRUE else CPS_FALSE]
  | TInt v => if (0 <=? v) && (v <? 64) then [v + 64] else CPS_Int :: int_bytes v
  | TUInt v => if v <? 64 then [v] else CPS_UInt :: uint_bytes v
  | TDouble v => CPS_Double :: le_bytes 8 v
  | TDecimal d => CPS_Decimal :: int_bytes (mantissa d) ++ int_bytes (exponent d)
  | TDatetime d => CPS_DateTime :: int_bytes (datetime_code d)
  | TBlob l => CPS_Blob :: uint_bytes (Z.of_nat (length l)) ++ l
  | TString l => CPS_String :: uint_bytes (Z.of_nat (length l)) ++ l
  | TList => [CPS_List]
  | TMap => [CPS_Map]
  | TIMap => [CPS_IMap]
  | TMeta => [CPS_MetaMap]
  | TEnd => [CPS_TERM]
  end.

(** Dates from the epoch on, with a zone offset of whole quarters of an hour. *)
Definition datetime_ok (d : cpdatetime) : Prop :=
  0 ≤ msecs d - CHAINPACK_EPOCH_MSEC < 2 ^ 54 ∧
  offutc d mod 15 = 0 ∧ -64 ≤ offutc d / 15 < 64.

(** Tokens in the range the encoding covers. *)
Definition tok_wf (t : tok) : Prop :=
  match t with
  | TInt v => packable_int v
  | TUInt v => urange 64 v
  | TDouble v => urange 64 v
  | TDecimal d => packable_int (mantissa d) ∧ srange 32 (exponent d)
  | TDatetime d => datetime_ok d
  | TBlob l | TString l => Z.of_nat (length l) < 2 ^ 63 ∧ bytes l
  | _ => True
  end.

(** A whole item in one buffer, not written as a stream. *)
Definition whole (i : cpitem) : Prop :=
  match type i, as_ i with
  | (CPITEM_BLOB | CPITEM_STRING), AsBuf b =>
      has (flags b) CPBI_F_STREAM = false ∧ urange 8 (flags b)
  | _, _ => True
  end.

Lemma datetime_code_value d :
  datetime_ok d →
  let m := msecs d - CHAINPACK_EPOCH_MSEC in
  let o := offutc d / 15 in
  let x := if m mod 1000 =? 0 then m / 1000 else m in
  let y := if o =? 0 then x else x * 128 + o mod 128 in
  datetime_code d = y * 4 + (if o =? 0 then 0 else 1) + (if m mod 1000 =? 0 then 2 else 0) ∧
  0 ≤ y < 2 ^ 61 ∧ 0 ≤ x ≤ m.
Proof.
  intros (Hm & Ho15 & Ho) m o x y. fold m in Hm. fold o in Ho.
  assert (0 ≤ x ≤ m) as Hx.
  { unfold x. destruct (m mod 1000 =? 0); [|lia].
    split; [apply Z.div_pos; lia|apply Z.div_le_upper_bound; lia]. }
  assert (0 ≤ o mod 128 < 128) by (apply Z.mod_pos_bound; lia).
  assert (0 ≤ y < 2 ^ 61) as Hy by (unfold y; destruct (o =? 0); lia).
  split; [|done]. unfold datetime_code.
  fold m. rewrite (swrap_small 64 m) by (unfold srange; lia).
  replace (Z.quot (offutc d) 15) with o.
  2:{ unfold o. rewrite (Z.div_mod (offutc d) 15) at 2 by lia.
      by rewrite Ho15, Z.add_0_r, Z.mul_comm, Z.quot_mul by lia. }
  change 0x7f with (2 ^ 7 - 1). rewrite land_ones_mod, Z.rem_mod_nonneg, Z.quot_div_nonneg by lia.
  rewrite negb_involutive. fold x. change (2 ^ 7) with 128.
  replace (o mod 128 =? 0) with (o =? 0).
  2:{ destruct (Z.eqb_spec o 0) as [->|]; [done|]. symmetry. apply Z.eqb_neq. intros H0.
      apply Z.mod_divide in H0 as [q ->]; lia. }
  assert (∀ z f, 0 ≤ z < 2 ^ 61 → 0 ≤ f < 4 → Z.lor (i64 (z * 4)) f = z * 4 + f) as Hor.
  { intros z f Hz Hf. rewrite swrap_small by (unfold srange; lia).
    change 4 with (2 ^ 2) at 1. rewrite <-Z.shiftl_mul_pow2, lor_shiftl_add by lia. done. }
  assert (Z.lor (i64 (x * 128)) (o mod 128) = x * 128 + o mod 128) as Hzone.
  { rewrite swrap_small by (unfold srange; lia).
    change 128 with (2 ^ 7) at 1. by rewrite <-Z.shiftl_mul_pow2, lor_shiftl_add by lia. }
  unfold y in *. destruct (o =? 0), (m mod 1000 =? 0); cbn [negb];
    rewrite ?Hzone, <-?Z.lor_assoc; change (Z.lor 1 2) with 3;
    rewrite ?Hor by lia; try lia.
  rewrite swrap_small by (unfold srange; lia). lia.
Qed.

Lemma datetime_code_packable d : datetime_ok d → packable_int (datetime_code d).
Proof.
  intros Hd. destruct (datetime_code_value d Hd) as (-> & ? & _).
  unfold packable_int, srange. destruct (_ =? _), (_ =? _); lia.
Qed.

(** An item that holds a token is packed as the token. *)
Lemma holds_data_packable l i m :
  type i = CPITEM_BLOB ∨ type i = CPITEM_STRING →
  Z.of_nat (length l) < 2 ^ 63 → holds_data l i → whole i → buf i = Some m →
  ∃ b, as_ i = AsBuf b ∧ bufinfo_wf b ∧ len b ≤ Z.of_nat (length (rbuf i)) ∧
    has (flags b) CPBI_F_FIRST = true ∧ has (flags b) CPBI_F_STREAM = false ∧
    take (Z.to_nat (len b)) (rbuf i) = l ∧
    len b = Z.of_nat (length l) ∧ u64 (len b + eoff b) = Z.of_nat (length l).
Proof.
  intros Ht Hl (fl & Ha & Hfirst & _ & Hm) Hw Hb. unfold whole, rbuf in *. rewrite Ha, Hb in *.
  assert (has fl CPBI_F_STREAM = false ∧ urange 8 fl) as [Hs Hfl] by (by destruct Ht as [Ht|Ht]; rewrite Ht in Hw). eexists. split; [done|]. cbn [len eoff flags] in *.
  rewrite Nat2Z.id, Z.add_0_r. simpl. rewrite Hm.
  assert (length l ≤ length m)%nat.
  { rewrite <-Hm. rewrite length_take. lia. }
  rewrite uwrap_small by (unfold urange; lia). split_and!; try done; [|lia].
  unfold bufinfo_wf, urange in *. simpl. lia.
Qed.

Lemma holds_packable t i :
  tok_wf t → holds t i → whole i →
  (tok_type t = CPITEM_BLOB ∨ tok_type t = CPITEM_STRING → is_Some (buf i)) →
  packable i ∧ item_bytes i = tok_bytes t.
Proof.
  intros Hwf [Ht Hv] Hw Hb. unfold packable, item_bytes in *. pose proof Ht as Ht'. rewrite Ht.
  destruct t; cbn [tok_type tok_bytes tok_wf as_wf] in *; try done.
  - destruct Hv as [hi Hv]. rewrite Hv. split; [|done]. split; [by do 2 eexists|done].
  - rewrite Hv. split; [|done]. split; [by exists v; destruct Hwf|done].
  - rewrite Hv. split; [|done]. split; [by exists v|done].
  - rewrite Hv. split; [|done]. split; [by exists bits|done].
  - rewrite Hv. split; [|done]. destruct Hwf as [[? ?] ?]. split; [by exists d|done].
  - rewrite Hv. split; [|done]. split; [exists d; split; [done|]|by apply datetime_code_packable].
    destruct Hwf as (Hms & Ho15 & Ho). unfold srange, CHAINPACK_EPOCH_MSEC in *.
    pose proof (Z.div_mod (offutc d) 15). lia.
  - destruct (Hb ltac:(by left)) as [m Hm], Hwf as [Hl _].
    destruct (holds_data_packable l i m ltac:(auto) Hl Hv Hw Hm) as (b & -> & ? & ? & Hf & Hs & Htk & Hlen & Hu).
    split; [split; [by eexists|done]|]. cbn [as_Blob]. unfold blob_bytes.
    rewrite Hf, Hs, Htk, Hu, Hlen. cbn [andb app]. rewrite app_nil_r. by destruct l.
  - destruct (Hb ltac:(by right)) as [m Hm], Hwf as [Hl _].
    destruct (holds_data_packable l i m ltac:(auto) Hl Hv Hw Hm) as (b & -> & ? & ? & Hf & Hs & Htk & Hlen & Hu).
    split; [split; [by eexists|done]|]. cbn [as_Blob]. unfold string_bytes.
    rewrite Hf, Hs, Htk, Hu. cbn [andb app]. by rewrite app_nil_r.
Qed.
