(* ===== verification/ChainpackUnpack.v ===== *)
(** * ChainPack unpacker ([libshvcp/chainpack_unpack.c])

    [chainpack_unpack] reads one item, or the next block of a string or blob,
    from a stream into a [cpitem].  The definitions return the stream, the item
    and the number of bytes read, the helpers also the [cperror] they report. *)

From S2P Require Import Prelude Stdio Chainpack CpItem.

(** ** Definitions *)

(** The reading loop of [chainpack_unpack_uint] for [n] more bytes. *)
Fixpoint unpack_uint_loop (n : nat) (f : rfile) (v res : Z) : rfile * Z * Z * cperror :=
  match n with
  | O => (f, v, res, CPERR_NONE)
  | S n' =>
      match getc f with
      | (None, f') => (f', v, res, CPERR_EOF)
      | (Some r, f') => unpack_uint_loop n' f' (Z.lor (u64 (Z.shiftl v 8)) r) (res + 1)
      end
  end.

(** Stream, value, bytes read, error. *)
Definition chainpack_unpack_uint (f : rfile) : rfile * Z * Z * cperror :=
  match getc f with
  | (None, f') => (f', 0, 0, CPERR_EOF)
  | (Some head, f') =>
      let bytes := chainpack_int_bytes head in
      unpack_uint_loop (Z.to_nat (bytes - 1)) f' (chainpack_uint_value1 head bytes) 1
  end.

(** The sign bit of a number of [res] bytes.  For ten bytes and more, which no number that
    fits is packed to, the shift is wider than the type and C leaves the result open; here
    the bit is shifted out, so that such a number is never negative. *)
Definition sign_mask (res : Z) : Z :=
  if res <=? 4 then u64 (Z.shiftl 1 (8 * res - res - 1))
  else u64 (Z.shiftl 1 (8 * (res - 1) - 1)).

Definition chainpack_unpack_int (f : rfile) : rfile * Z * Z * cperror :=
  let '(f', uv, res, err) := chainpack_unpack_uint f in
  let v := i64 uv in
  if bool_decide (err = CPERR_NONE) then
    if has (u64 v) (sign_mask res)
    then (f', i64 (- i64 (Z.ldiff (u64 v) (sign_mask res))), res, err)
    else (f', v, res, err)
  else (f', v, res, err).

(** *** String and blob data *)

Definition set_bufinfo (b : cpbufinfo) (i : cpitem) : cpitem := set_as (AsBuf b) i.
Definition set_len (n : Z) (i : cpitem) : cpitem :=
  let b := as_Blob (as_ i) in set_bufinfo (BufInfo n (eoff b) (flags b)) i.
Definition set_eoff (n : Z) (i : cpitem) : cpitem :=
  let b := as_Blob (as_ i) in set_bufinfo (BufInfo (len b) n (flags b)) i.
Definition set_flags (n : Z) (i : cpitem) : cpitem :=
  let b := as_Blob (as_ i) in set_bufinfo (BufInfo (len b) (eoff b) n) i.

(** [if (item->buf) memcpy(item->buf + off, l, ...)] *)
Definition buf_store (off : Z) (l : list Z) (i : cpitem) : cpitem :=
  set_buf (list_inserts (Z.to_nat off) l <$> buf i) i.

(** C string: up to [bufsiz] bytes or the terminator. *)
Fixpoint unpack_cstring (d : list Z) (i : Z) (it : cpitem) : list Z * cpitem * Z * cperror :=
  if i <? bufsiz it then
    match d with
    | [] => ([], it, i, CPERR_EOF)
    | c :: d' =>
        if c =? 0
        then (d', set_len i (set_flags (Z.lor (flags (as_Blob (as_ it))) CPBI_F_LAST) it), i + 1,
              CPERR_NONE)
        else unpack_cstring d' (i + 1) (buf_store i [c] it)
    end
  else (d, set_len i it, i, CPERR_NONE).

(** The C library's [BUFSIZ]. *)
Definition BUFSIZ : Z := 8192.

(** Reading [siz] bytes to nowhere, at most [BUFSIZ] at a time. *)
Definition discard_step (s : rfile * Z) : rfile * Z + rfile * bool :=
  let '(f, siz) := s in
  if 0 <? siz then
    match fread (Z.min siz BUFSIZ) f with
    | (None, f') => inr (f', false)
    | (Some _, f') => inl (f', siz - Z.min siz BUFSIZ)
    end
  else inr (f, true).

Definition discard (siz : Z) (f : rfile) : rfile * bool :=
  match cloop discard_step 64 (f, siz) with inr r => r | inl (f', _) => (f', true) end.

(** Reading the data of one round; the flag says that the loop is left. *)
Definition read_block (toread : Z) (f : rfile) (it : cpitem) (err : cperror) :
    rfile * cpitem * cperror * bool :=
  match buf it with
  | Some _ =>
      if 0 <? toread then
        match fread toread f with
        | (Some l, f') => (f', buf_store (len (as_Blob (as_ it))) l it, err, false)
        | (None, f') => (f', it, CPERR_EOF, true)
        end
      else (f, it, err, false)
  | None =>
      let '(f', ok) := discard toread f in
      (f', it, if ok then err else CPERR_EOF, false)
  end.

(** The length of the next chunk of a chain. *)
Definition next_chunk (f : rfile) (it : cpitem) (res : Z) (err : cperror) :
    rfile * cpitem * Z * cperror * bool :=
  let b := as_Blob (as_ it) in
  if has (flags b) CPBI_F_STREAM && (eoff b =? 0) then
    let '(f', ull, cnt, e) := chainpack_unpack_uint f in
    let err := if bool_decide (e = CPERR_NONE) then err else e in
    if bool_decide (err = CPERR_NONE)
    then (f', set_eoff ull it, res + cnt, err, false)
    else (f', it, res + cnt, err, true)
  else (f, it, res, err, false).

(** The end of a round: a new chunk, the end of the data, or another round. *)
Definition end_round (f : rfile) (it : cpitem) (res : Z) (err : cperror) :
    rfile * cpitem * Z * cperror + rfile * cpitem * Z * cperror :=
  let '(f, it, res, err, stop) := next_chunk f it res err in
  let b := as_Blob (as_ it) in
  if stop : bool then inr (f, it, res, err)
  else if eoff b =? 0 then inr (f, set_flags (Z.lor (flags b) CPBI_F_LAST) it, res, err)
  else inl (f, it, res, err).

(** One round of the [while] loop of [chainpack_unpack_buf]; [inr] leaves it. *)
Definition unpack_buf_step (s : rfile * cpitem * Z * cperror) :
    rfile * cpitem * Z * cperror + rfile * cpitem * Z * cperror :=
  let '(f, it, res, err) := s in
  let b := as_Blob (as_ it) in
  if len b <? bufsiz it then
    let toread := Z.min (eoff b) (bufsiz it - len b) in
    let '(f, it, err, stop) := read_block toread f it err in
    if stop : bool then inr (f, it, res, err)
    else end_round f (set_eoff (eoff b - toread) (set_len toread it)) (res + toread) err
  else inr s.

(** A round either consumes input or runs down [eoff]: [2 ^ 65] rounds are
    never used up on a stream of less than [2 ^ 64] bytes
    (see [unpack_buf_loop_ends]). *)
Definition unpack_buf_loop (s : rfile * cpitem * Z * cperror) : rfile * cpitem * Z * cperror :=
  match cloop unpack_buf_step 65 s with inr r => r | inl s' => s' end.

Definition chainpack_unpack_buf (f : rfile) (it : cpitem) : rfile * cpitem * Z * cperror :=
  if bufsiz it =? 0 then (f, set_len 0 it, 0, CPERR_NONE)
  else if has (flags (as_Blob (as_ it))) CPBI_F_STREAM && bool_decide (type it = CPITEM_STRING)
  then
    let '(d, it', res, err) := unpack_cstring (rf_data f) 0 it in
    (RFile d (rf_fail f), it', res, err)
  else unpack_buf_loop (f, set_len 0 it, 0, CPERR_NONE).

(** *** The unpacker *)

(** The error part of the [CALL] macro. *)
Definition call_error (f : rfile) (err : cperror) (it : cpitem) : cpitem :=
  set_error (if bool_decide (err = CPERR_EOF) && negb (feof f) then CPERR_IO else err) it.

(** [CALL(chainpack_unpack_buf, item); return res] *)
Definition call_buf (f : rfile) (it : cpitem) (res : Z) : rfile * cpitem * Z :=
  let '(f', it', cnt, err) := chainpack_unpack_buf f it in
  if bool_decide (err = CPERR_NONE) then (f', it', res + cnt)
  else (f', call_error f' err it', res + cnt).

(** The value of an unpacked date and time. *)
Definition datetime_of_code (d : Z) : cpdatetime :=
  let has_tz_offset := has d 1 in
  let has_not_msec := has d 2 in
  let d := Z.quot d 4 in
  let offset := if has_tz_offset then Z.shiftr (i8 (Z.shiftl (Z.land d 0x7f) 1)) 1 else 0 in
  let d := if has_tz_offset then Z.quot d 128 else d in
  let d := if has_not_msec then i64 (d * 1000) else d in
  Datetime (i64 (d + CHAINPACK_EPOCH_MSEC)) (offset * 15).

Fixpoint le_value (l : list Z) : Z :=
  match l with [] => 0 | b :: l' => b + 256 * le_value l' end.

(** The [switch] on scheme bytes from [CPS_Null] up; one byte is already read. *)
Definition unpack_scheme (scheme : Z) (f : rfile) (it : cpitem) : rfile * cpitem * Z :=
  if scheme =? CPS_Null then (f, set_type CPITEM_NULL it, 1)
  else if scheme =? CPS_TRUE then
    (f, set_as (set_Bool true (as_ it)) (set_type CPITEM_BOOL it), 1)
  else if scheme =? CPS_FALSE then
    (f, set_as (set_Bool false (as_ it)) (set_type CPITEM_BOOL it), 1)
  else if scheme =? CPS_Int then
    let '(f', v, cnt, err) := chainpack_unpack_int f in
    if bool_decide (err = CPERR_NONE)
    then (f', set_as (AsInt v) (set_type CPITEM_INT it), 1 + cnt)
    else (f', call_error f' err it, 1 + cnt)
  else if scheme =? CPS_UInt then
    let '(f', v, cnt, err) := chainpack_unpack_uint f in
    if bool_decide (err = CPERR_NONE)
    then (f', set_as (AsUInt v) (set_type CPITEM_UINT it), 1 + cnt)
    else (f', call_error f' err it, 1 + cnt)
  else if scheme =? CPS_Double then
    match fread 8 f with
    | (Some l, f') => (f', set_as (AsDouble (le_value l)) (set_type CPITEM_DOUBLE it), 9)
    | (None, f') => (f', set_error (if feof f' then CPERR_EOF else CPERR_IO) it, 1)
    end
  else if scheme =? CPS_Decimal then
    let '(f1, m, cnt1, err1) := chainpack_unpack_int f in
    if bool_decide (err1 = CPERR_NONE) then
      let '(f2, e, cnt2, err2) := chainpack_unpack_int f1 in
      if bool_decide (err2 = CPERR_NONE)
      then (f2, set_as (AsDecimal (Decimal m (i32 e))) (set_type CPITEM_DECIMAL it), 1 + cnt1 + cnt2)
      else (f2, call_error f2 err2 it, 1 + cnt1 + cnt2)
    else (f1, call_error f1 err1 it, 1 + cnt1)
  else if (scheme =? CPS_Blob) || (scheme =? CPS_BlobChain) then
    let '(f', ull, cnt, err) := chainpack_unpack_uint f in
    if bool_decide (err = CPERR_NONE) then
      let flags := if scheme =? CPS_BlobChain then Z.lor CPBI_F_FIRST CPBI_F_STREAM
                   else CPBI_F_FIRST in
      call_buf f' (set_bufinfo (BufInfo 0 ull flags) (set_type CPITEM_BLOB it)) (1 + cnt)
    else (f', call_error f' err it, 1 + cnt)
  else if (scheme =? CPS_String) || (scheme =? CPS_CString) then
    if scheme =? CPS_CString then
      call_buf f (set_bufinfo (BufInfo 0 0 (Z.lor CPBI_F_FIRST CPBI_F_STREAM))
        (set_type CPITEM_STRING it)) 1
    else
      let '(f', ull, cnt, err) := chainpack_unpack_uint f in
      if bool_decide (err = CPERR_NONE)
      then call_buf f' (set_bufinfo (BufInfo 0 ull CPBI_F_FIRST) (set_type CPITEM_STRING it)) (1 + cnt)
      else (f', call_error f' err it, 1 + cnt)
  else if scheme =? CPS_DateTime then
    let '(f', d, cnt, err) := chainpack_unpack_int f in
    if bool_decide (err = CPERR_NONE)
    then (f', set_as (AsDatetime (datetime_of_code d)) (set_type CPITEM_DATETIME it), 1 + cnt)
    else (f', call_error f' err it, 1 + cnt)
  else if scheme =? CPS_MetaMap then (f, set_type CPITEM_META it, 1)
  else if scheme =? CPS_Map then (f, set_type CPITEM_MAP it, 1)
  else if scheme =? CPS_IMap then (f, set_type CPITEM_IMAP it, 1)
  else if scheme =? CPS_List then (f, set_type CPITEM_LIST it, 1)
  else if scheme =? CPS_TERM then (f, set_type CPITEM_CONTAINER_END it, 1)
  else (ungetc scheme f, set_type CPITEM_INVALID it, 1).

(** Is the item a string or blob of which more is to come? *)
Definition continues (it : cpitem) : bool :=
  let b := as_Blob (as_ it) in
  (bool_decide (type it = CPITEM_BLOB) || bool_decide (type it = CPITEM_STRING)) &&
  (negb (eoff b =? 0) || negb (has (flags b) CPBI_F_LAST)).

Definition chainpack_unpack (f : rfile) (it : cpitem) : rfile * cpitem * Z :=
  if common_unpack it then (f, it, 0)
  else if continues it then
    call_buf f (set_flags (Z.ldiff (flags (as_Blob (as_ it))) CPBI_F_FIRST) it) 0
  else
    match getc f with
    | (None, f') => (f', set_error (if feof f' then CPERR_EOF else CPERR_IO) it, 0)
    | (Some scheme, f') =>
        if scheme <? CPS_Null then
          if chainpack_scheme_signed scheme
          then (f', set_as (AsInt (chainpack_scheme_uint scheme)) (set_type CPITEM_INT it), 1)
          else (f', set_as (AsUInt (chainpack_scheme_uint scheme)) (set_type CPITEM_UINT it), 1)
        else unpack_scheme scheme f' it
    end.

#[global] Arguments chainpack_unpack_uint : simpl never.
#[global] Arguments chainpack_unpack_int : simpl never.
#[global] Arguments chainpack_unpack_buf : simpl never.
#[global] Arguments unpack_buf_loop : simpl never.
#[global] Arguments discard : simpl never.

(** ** Integers *)

Lemma unpack_uint_loop_app l d e v res :
  bytes l →
  unpack_uint_loop (length l) (RFile (l ++ d) e) v res =
    (RFile d e, foldl (λ a r, Z.lor (u64 (Z.shiftl a 8)) r) v l,
     res + Z.of_nat (length l), CPERR_NONE).
Proof.
  intros Hl. revert v res. induction Hl as [|r l Hr Hl IH]; intros v res; simpl.
  - by rewrite Z.add_0_r.
  - rewrite IH. do 2 f_equal. lia.
Qed.

(** Shifting bytes into a 64 bit accumulator computes the big-endian value
    modulo [2 ^ 64]. *)
Lemma foldl_shift_u64 l v :
  bytes l → foldl (λ a r, Z.lor (u64 (Z.shiftl a 8)) r) (u64 v) l = u64 (foldl be_push v l).
Proof.
  intros Hl. revert v. induction Hl as [|r l Hr Hl IH]; intros v; [done|]. simpl.
  rewrite <-IH. f_equal. unfold byte in Hr. unfold be_push, uwrap.
  rewrite Z.shiftl_mul_pow2 by lia. rewrite Z.mul_mod_idemp_l by lia.
  change (2 ^ 64) with (2 ^ 56 * 2 ^ 8). rewrite Z.mul_mod_distr_r by lia.
  rewrite <-Z.shiftl_mul_pow2, lor_shiftl_add by lia. change (2 ^ 8) with 256.
  rewrite (Z.mul_comm (2 ^ 56) 256), Z.rem_mul_r by lia.
  rewrite (Z.add_comm (v * 256) r), Z.mod_add, (Z.mod_small r 256) by lia.
  rewrite Z.div_add, (Z.div_small r 256), Z.add_0_l by lia. lia.
Qed.

Lemma unpack_uint_rep k v d e :
  (1 ≤ k ≤ 20)%nat → 0 ≤ v < 2 ^ uint_bits (Z.of_nat k) → v < 2 ^ 64 →
  chainpack_unpack_uint (RFile (uint_rep k v ++ d) e) = (RFile d e, v, Z.of_nat k, CPERR_NONE).
Proof.
  intros Hk Hv H64. unfold chainpack_unpack_uint, uint_rep. simpl.
  destruct (uint_head_ok (Z.of_nat k) v ltac:(lia) Hv) as (_ & -> & ->).
  replace (Z.to_nat (Z.of_nat k - 1)) with (length (be_bytes (k - 1) v))
    by (rewrite length_be_bytes; lia).
  rewrite unpack_uint_loop_app by apply bytes_be_bytes.
  assert (head_value (Z.of_nat k) v = u64 (head_value (Z.of_nat k) v)) as Hh.
  { symmetry. apply uwrap_small. unfold head_value, urange.
    destruct (Z.of_nat k <=? 4); [|lia].
    split; [apply Z.div_pos; lia|]. apply Z.div_lt_upper_bound; nia. }
  rewrite Hh, foldl_shift_u64, be_value_bytes, length_be_bytes
    by (lia || apply bytes_be_bytes).
  pose proof (head_value_be (Z.of_nat k) v ltac:(lia) Hv) as Hb.
  replace (Z.of_nat (k - 1)) with (Z.of_nat k - 1) by lia. rewrite Hb.
  rewrite uwrap_small by (unfold urange; lia). do 2 f_equal. lia.
Qed.

Lemma sign_mask_bits k :
  1 ≤ k ≤ 9 → sign_mask k = 2 ^ (uint_bits k - 1).
Proof.
  intros Hk. unfold sign_mask, uint_bits.
  destruct (Z.leb_spec k 4); rewrite Z.shiftl_1_l, uwrap_small.
  - f_equal. lia.
  - split; [lia|]. apply Z.pow_lt_mono_r; lia.
  - done.
  - split; [lia|]. apply Z.pow_lt_mono_r; lia.
Qed.

Lemma unpack_int_code k (neg : bool) a d e :
  (1 ≤ k ≤ 9)%nat → 0 ≤ a < 2 ^ (uint_bits (Z.of_nat k) - 1) → (neg = true → 0 < a) →
  chainpack_unpack_int
    (RFile (uint_rep k (a + (if neg then 2 ^ (uint_bits (Z.of_nat k) - 1) else 0)) ++ d) e) =
    (RFile d e, (if neg then - a else a), Z.of_nat k, CPERR_NONE).
Proof.
  intros Hk Ha Hneg. set (m := uint_bits (Z.of_nat k) - 1) in *.
  assert (6 ≤ m ≤ 63) as Hm.
  { unfold m, uint_bits. destruct (Z.leb_spec (Z.of_nat k) 4); lia. }
  assert (2 ^ m ≤ 2 ^ 63) by (apply Z.pow_le_mono_r; lia).
  assert (2 ^ uint_bits (Z.of_nat k) = 2 * 2 ^ m) as Hp.
  { unfold m. rewrite <-Z.pow_succ_r by lia. f_equal. lia. }
  unfold chainpack_unpack_int. rewrite unpack_uint_rep by (destruct neg; lia). simpl.
  rewrite uwrap_swrap, sign_mask_bits by lia. fold m.
  rewrite uwrap_small by (unfold urange; destruct neg; lia).
  rewrite has_pow2 by lia. destruct neg.
  - rewrite testbit_top by lia. rewrite ldiff_pow2 by (try apply testbit_top; lia).
    replace (a + 2 ^ m - 2 ^ m) with a by lia.
    rewrite !swrap_small by (unfold srange; lia || (rewrite swrap_small; unfold srange; lia)).
    done.
  - rewrite Z.add_0_r, testbit_small by lia. by rewrite swrap_small by (unfold srange; lia).
Qed.
