(* ===== verification/ChainpackRoundtrip.v ===== *)
(** * Packing and unpacking ChainPack

    What [ChainpackUnpack] does with the bytes [ChainpackPack] writes: every
    packable item is read back, with all of its bytes and none of what follows
    them consumed.  The file also holds the safety and termination results on
    the reading of strings and blobs. *)

From S2P Require Import Prelude Stdio Chainpack CpItem ChainpackPack ChainpackUnpack.

(** ** Integers *)

Lemma unpack_uint_bytes v d e :
  urange 64 v →
  chainpack_unpack_uint (RFile (uint_bytes v ++ d) e) =
    (RFile d e, v, Z.of_nat (length (uint_bytes v)), CPERR_NONE).
Proof.
  intros Hv. destruct (chainpack_w_uint_bytes_least v Hv) as (Hk & Hb & _).
  unfold uint_bytes. rewrite unpack_uint_rep by (unfold urange in Hv; rewrite ?Z2Nat.id; lia).
  unfold uint_rep. cbn [length]. rewrite length_be_bytes. do 2 f_equal. lia.
Qed.

Lemma unpack_int_bytes v d e :
  packable_int v →
  chainpack_unpack_int (RFile (int_bytes v ++ d) e) =
    (RFile d e, v, Z.of_nat (length (int_bytes v)), CPERR_NONE).
Proof.
  intros [Hv Hmin]. destruct (chainpack_w_int_bytes_least v Hv) as (Hk & H10 & Ha & _).
  unfold int_bytes, int_code. set (k := chainpack_w_int_bytes v) in *.
  assert (k ≠ 10) by tauto.
  pose proof (unpack_int_code (Z.to_nat k) (v <? 0) (Z.abs v) d e ltac:(lia)) as Hu.
  rewrite Z2Nat.id in Hu by lia. rewrite Hu; clear Hu.
  - unfold uint_rep. cbn [length]. rewrite length_be_bytes.
    destruct (Z.ltb_spec v 0); by repeat (f_equal; try lia).
  - split; [lia|]. by apply Ha.
  - destruct (Z.ltb_spec v 0); [lia|done].
Qed.

(** ** Discarding input *)

Definition fread_ok (n : Z) (f : rfile) : rfile * bool :=
  ((fread n f).2, match (fread n f).1 with Some _ => true | None => false end).

Lemma discard_steps n f :
  0 ≤ n → ∃ k, Z.of_nat k ≤ n + 1 ∧ steps discard_step k (f, n) (inr (fread_ok n f)).
Proof.
  intros Hn. revert f. induction (Z.lt_wf 0 n) as [n _ IH]; intros [d e].
  destruct (Z.ltb_spec 0 n) as [Hpos|].
  - set (m := Z.min n BUFSIZ). assert (0 < m ≤ n) by (unfold m, BUFSIZ; lia).
    unfold fread_ok, fread. simpl.
    destruct (Z.leb_spec m (Z.of_nat (length d))).
    + destruct (IH (n - m) ltac:(lia) ltac:(lia) (RFile (drop (Z.to_nat m) d) e)) as (k & Hk & Hs).
      exists (S k). split; [lia|]. econstructor.
      { unfold discard_step. destruct (Z.ltb_spec 0 n); [|lia]. fold m. unfold fread. simpl.
        destruct (Z.leb_spec m (Z.of_nat (length d))); [done|lia]. }
      revert Hs. unfold fread_ok, fread. simpl. rewrite length_drop, drop_drop.
      destruct (Z.leb_spec (n - m) (Z.of_nat (length d - Z.to_nat m))),
        (Z.leb_spec n (Z.of_nat (length d))); try lia; simpl; [|done].
      by replace (Z.to_nat m + Z.to_nat (n - m))%nat with (Z.to_nat n) by lia.
    + exists 1%nat. split; [lia|]. constructor. unfold discard_step.
      destruct (Z.ltb_spec 0 n); [|lia]. fold m. unfold fread. simpl.
      destruct (Z.leb_spec m (Z.of_nat (length d))); [lia|].
      destruct (Z.leb_spec n (Z.of_nat (length d))); [lia|done].
  - exists 1%nat. assert (n = 0) as -> by lia. split; [lia|]. constructor.
    unfold fread_ok, fread. simpl. destruct (Z.leb_spec 0 (Z.of_nat (length d))); [|lia]. done.
Qed.

(** Discarding in pieces is reading to nowhere in one go. *)
Lemma discard_fread n f : urange 64 n → discard n f = fread_ok n f.
Proof.
  intros Hn. unfold urange in Hn. destruct (discard_steps n f ltac:(lia)) as (k & Hk & Hs).
  unfold discard. rewrite (cloop_run _ 64 k _ (fread_ok n f)); [done|done|].
  change (Z.of_nat 64) with 64. lia.
Qed.

(** ** Reading anything *)

(** An unsigned number is read from any bytes; only the end of the stream is an
    error. *)
Lemma unpack_uint_loop_reads n f v res f' v' res' err :
  bytes (rf_data f) → urange 64 v → unpack_uint_loop n f v res = (f', v', res', err) →
  reads f (res' - res) f' ∧ urange 64 v' ∧
  (err = CPERR_NONE ∨ err = CPERR_EOF ∧ rf_data f' = []).
Proof.
  revert f v res. induction n as [|n IH]; intros f v res Hb Hv; simpl.
  - intros [= <- <- <- <-]. rewrite Z.sub_diag. auto with shv.
  - destruct (getc f) as [[r|] g] eqn:E.
    + apply getc_reads in E as [Hr Hd]. rewrite Hd in Hb.
      apply Forall_cons in Hb as [Hr8 Hb]. intros H. apply IH in H as (? & ? & ?); [|done|].
      * split; [|done]. replace (res' - res) with (1 + (res' - (res + 1))) by lia.
        eauto with shv.
      * apply urange_lor; [lia|apply uwrap_range; lia|]. unfold byte, urange in *. lia.
    + apply getc_eof in E as [-> ?]. intros [= <- <- <- <-]. rewrite Z.sub_diag. auto with shv.
Qed.

Lemma unpack_uint_reads f f' v cnt err :
  bytes (rf_data f) → chainpack_unpack_uint f = (f', v, cnt, err) →
  reads f cnt f' ∧ urange 64 v ∧
  (err = CPERR_NONE ∧ 1 ≤ cnt ∨ err = CPERR_EOF ∧ rf_data f' = []).
Proof.
  unfold chainpack_unpack_uint. intros Hb. destruct (getc f) as [[h|] g] eqn:E.
  - apply getc_reads in E as [Hr Hd]. rewrite Hd in Hb. apply Forall_cons in Hb as [Hh Hb].
    intros H. apply unpack_uint_loop_reads in H as (Hg & Hv & He); [|done|].
    + split; [replace cnt with (1 + (cnt - 1)) by lia; eauto with shv|]. split; [done|].
      apply reads_length in Hg. destruct He; [left; split; [done|lia]|by right].
    + by apply (uint_value1_range h Hh).
  - apply getc_eof in E as [-> ?]. intros [= <- <- <- <-].
    split; [apply reads_refl|]. split; [done|by right].
Qed.

(** ** Reading strings and blobs *)

Lemma drop_list_inserts n i (l m : list Z) :
  (i + length l ≤ n)%nat → drop n (list_inserts i l m) = drop n m.
Proof.
  intros Hn. apply list_eq. intros j. rewrite !lookup_drop.
  by rewrite list_lookup_inserts_ge by lia.
Qed.

Lemma buf_kept_store off l it :
  0 ≤ off → off + Z.of_nat (length l) ≤ bufsiz it → buf_kept it (buf_store off l it).
Proof.
  intros Ho Hl. unfold buf_kept, buf_store. simpl. destruct (buf it) as [m|]; simpl; [|done].
  rewrite length_inserts, drop_list_inserts by lia. done.
Qed.

(** What holds in every round, from the state the loop started in. *)
Record buf_inv (f0 : rfile) (it0 : cpitem) (s : rfile * cpitem * Z * cperror) : Prop := {
  inv_as : ∃ b, as_ s.1.1.2 = AsBuf b ∧ bufinfo_wf b ∧ (s.2 = CPERR_NONE → len b ≤ bufsiz it0);
  inv_kept : buf_kept it0 s.1.1.2;
  inv_reads : ∃ n, reads f0 n s.1.1.1 ∧ (s.2 = CPERR_NONE → n = s.1.2);
  inv_err : s.2 = CPERR_NONE ∨ s.2 = CPERR_EOF ∧ rf_data s.1.1.1 = []
}.

Lemma read_block_spec toread f it err f' it' err' stop :
  let b := as_Blob (as_ it) in
  urange 64 toread → 0 ≤ len b → toread ≤ bufsiz it - len b →
  (err = CPERR_NONE ∨ err = CPERR_EOF ∧ rf_data f = []) →
  read_block toread f it err = (f', it', err', stop) →
  buf_kept it it' ∧ as_ it' = as_ it ∧
  ((err' = err ∧ stop = false ∧ reads f toread f') ∨
   (err' = CPERR_EOF ∧ rf_data f' = [] ∧ 0 < toread ∧ (stop = false → buf it = None) ∧
    ∃ n, reads f n f')).
Proof.
  intros b Ht Hl Hb He. unfold urange in Ht. unfold read_block. fold b.
  destruct (buf it) as [m|] eqn:Em.
  - destruct (Z.ltb_spec 0 toread) as [Hp|].
    + destruct (fread toread f) as [[l|] g] eqn:E; intros [= <- <- <- <-].
      * apply fread_reads in E as (Hr & _ & Hn); [|lia].
        split; [apply buf_kept_store; lia|]. split; [done|]. by left.
      * apply fread_short in E as (Hr & Hd & _). split; [apply buf_kept_refl|].
        split; [done|]. right. repeat split; [done|lia|done|by eexists].
    + intros [= <- <- <- <-]. assert (toread = 0) as -> by lia.
      split; [apply buf_kept_refl|]. split; [done|]. left. auto with shv.
  - rewrite discard_fread by done. unfold fread_ok.
    destruct (fread toread f) as [[l|] g] eqn:E; intros [= <- <- <- <-];
      (split; [apply buf_kept_refl|split; [done|]]).
    + apply fread_reads in E as (Hr & _ & Hn); [|lia]. by left.
    + apply fread_short in E as (Hr & Hd & Hlt).
      right. repeat split; [done|lia|by eexists].
Qed.

Lemma reads_nil f n g : rf_data f = [] → reads f n g → n = 0 ∧ rf_data g = [].
Proof.
  intros Hf (l & Hl & -> & _). rewrite Hf in Hl. symmetry in Hl. by apply app_nil in Hl as [-> ->].
Qed.

Lemma next_chunk_spec f it res err b f' it' res' err' stop :
  as_ it = AsBuf b → bufinfo_wf b → bytes (rf_data f) →
  (err = CPERR_NONE ∨ err = CPERR_EOF ∧ rf_data f = []) →
  next_chunk f it res err = (f', it', res', err', stop) →
  buf_kept it it' ∧
  (∃ e, as_ it' = AsBuf (BufInfo (len b) e (flags b)) ∧ urange 64 e ∧
    (stop = false → reads f (res' - res) f' ∧ err' = err ∧
      (f' = f ∧ e = eoff b ∨ rf_data f ≠ [] ∧ 1 ≤ res' - res))) ∧
  (stop = true → err' = CPERR_EOF ∧ rf_data f' = [] ∧ ∃ n, reads f n f').
Proof.
  intros Ha (Hl & He & Hf) Hb Herr. unfold next_chunk. rewrite Ha. cbn [as_Blob].
  destruct (_ && _).
  - destruct (chainpack_unpack_uint f) as [[[g ull] cnt] e] eqn:E.
    apply unpack_uint_reads in E as (Hr & Hu & Hc); [|done].
    destruct (bool_decide _) eqn:D; intros [= <- <- <- <- <-].
    + apply bool_decide_eq_true in D. case_bool_decide; [subst err|congruence].
      destruct Hc as [[_ Hc]|[? _]]; [|congruence].
      split; [unfold set_eoff, set_bufinfo; auto with shv|]. split; [|done].
      exists ull. unfold set_eoff. rewrite Ha. cbn. split; [done|]. split; [done|].
      replace (res + cnt - res) with cnt by lia. intros _. repeat split; [done|].
      right. split; [|done]. intros Hnil. destruct (reads_nil f _ _ Hnil Hr). lia.
    + apply bool_decide_eq_false in D. split; [apply buf_kept_refl|]. split.
      * exists (eoff b). by destruct b.
      * intros _. destruct Herr as [->|[-> Hd]].
        -- destruct Hc as [[-> _]|[-> ?]]; [by rewrite bool_decide_true in D|].
           repeat split; [done|by eexists].
        -- destruct (reads_nil _ _ _ Hd Hr) as [_ ?]. destruct Hc as [[-> _]|[-> _]]; simpl; eauto.
  - intros [= <- <- <- <- <-]. split; [apply buf_kept_refl|]. split; [|done].
    exists (eoff b). rewrite Z.sub_diag. destruct b. split; [done|]. split; [done|].
    intros _. auto with shv.
Qed.

Definition buf_measure (s : rfile * cpitem * Z * cperror) : Z :=
  let '(f, it, _, _) := s in
  match rf_data f with
  | [] => eoff (as_Blob (as_ it))
  | d => 2 ^ 64 + Z.of_nat (length d)
  end.

Lemma buf_measure_nonneg f0 it0 s : buf_inv f0 it0 s → 0 ≤ buf_measure s.
Proof.
  destruct s as [[[f it] res] err]. intros [(b & Ha & (_ & He & _) & _) _ _ _]. simpl in *.
  rewrite Ha. simpl. unfold urange in He. destruct (rf_data f); lia.
Qed.

(** A state reached by going on: less input is left, or the same with a
    smaller rest of the data. *)
Lemma buf_measure_lt f it res err f' it' res' err' :
  urange 64 (eoff (as_Blob (as_ it'))) →
  (Z.of_nat (length (rf_data f')) < Z.of_nat (length (rf_data f)) ∨
   rf_data f = [] ∧ rf_data f' = [] ∧ eoff (as_Blob (as_ it')) < eoff (as_Blob (as_ it))) →
  buf_measure (f', it', res', err') < buf_measure (f, it, res, err).
Proof.
  unfold buf_measure, urange. intros He [Hl|(-> & -> & ?)]; [|done].
  destruct (rf_data f), (rf_data f'); simpl in *; lia.
Qed.

Lemma end_round_inv f0 it0 f it res err :
  bytes (rf_data f0) → buf_inv f0 it0 (f, it, res, err) →
  match end_round f it res err with
  | inl s' =>
      buf_inv f0 it0 s' ∧
      (Z.of_nat (length (rf_data s'.1.1.1)) < Z.of_nat (length (rf_data f)) ∨
       rf_data s'.1.1.1 = rf_data f ∧ 0 < eoff (as_Blob (as_ s'.1.1.2)) ≤ eoff (as_Blob (as_ it)))
  | inr r => buf_inv f0 it0 r
  end.
Proof.
  intros Hb [(b & Ha & Hwf & Hlen) Hk (n & Hr & Hn) Herr]. simpl in *. unfold end_round.
  destruct (next_chunk f it res err) as [[[[f1 it1] res1] err1] stop] eqn:E.
  apply (next_chunk_spec _ _ _ _ b) in E as (Hk1 & (e & Ha1 & He & Hgo) & Hstop);
    [|done|done|by eapply reads_bytes|done].
  assert (buf_kept it0 it1) as Hk01 by eauto with shv.
  destruct Hwf as (Hl & _ & Hf). destruct stop.
  - destruct (Hstop eq_refl) as (-> & Hd & m & Hm).
    split; simpl; [by eexists|done|exists (n + m); split; [by eauto with shv|done]|by right].
  - destruct (Hgo eq_refl) as (Hr1 & -> & Hcase).
    assert (rf_data f = [] → rf_data f1 = []) as Hnil by (intros Hd; by destruct (reads_nil _ _ _ Hd Hr1)).
    assert (∃ k, reads f0 k f1 ∧ (err = CPERR_NONE → k = res1)) as Hreads.
    { exists (n + (res1 - res)). split; [by eauto with shv|]. intros. rewrite Hn by done. lia. }
    assert (err = CPERR_NONE ∨ err = CPERR_EOF ∧ rf_data f1 = []) as Herr1 by (destruct Herr as [?|[? ?]]; auto).
    rewrite Ha1. cbn [as_Blob eoff flags]. destruct (Z.eqb_spec e 0) as [->|Hne].
    + split; simpl; [|by auto with shv..]. unfold set_flags. rewrite Ha1. eexists. split; [done|].
      cbn. split; [|done]. split; [done|]. split; [done|]. by apply urange_lor.
    + split; [split; simpl; [by eexists|done..]|]. cbn. rewrite Ha, Ha1. cbn.
      unfold urange in He. apply reads_length in Hr1.
      destruct Hcase as [[-> ->]|[_ ?]]; [right; split; [done|lia]|left; lia].
Qed.

Lemma unpack_buf_step_inv f0 it0 s :
  bytes (rf_data f0) → urange 64 (bufsiz it0) → buf_inv f0 it0 s →
  match unpack_buf_step s with
  | inl s' => buf_inv f0 it0 s' ∧ buf_measure s' < buf_measure s
  | inr r => buf_inv f0 it0 r
  end.
Proof.
  destruct s as [[[f it] res] err]. intros Hb Hsz HI.
  pose proof HI as [(b & Ha & (Hl & He & Hf) & Hlen) Hk (n & Hr & Hn) Herr]. cbn [fst snd] in *.
  unfold unpack_buf_step. rewrite Ha. cbn [as_Blob]. pose proof (proj1 (proj2 Hk)) as Hs. rewrite Hs.
  destruct (Z.ltb_spec (len b) (bufsiz it0)) as [Hlt|]; [|done].
  set (t := Z.min (eoff b) (bufsiz it0 - len b)). unfold urange in Hl, He, Hsz.
  assert (urange 64 t) as Ht by (unfold urange; lia).
  destruct (read_block t f it err) as [[[f1 it1] err1] stop1] eqn:E1.
  apply read_block_spec in E1; [|done|rewrite Ha; simpl; lia..|done].
  destruct E1 as (Hk1 & Ha1 & H1). assert (buf_kept it0 it1) as Hk01 by eauto with shv.
  assert (∃ n1, reads f n1 f1 ∧ (err1 = CPERR_NONE → n1 = t)) as (n1 & Hr1 & Hn1).
  { destruct H1 as [(-> & _ & ?)|(-> & _ & _ & _ & ? & ?)]; by eexists. }
  assert (reads f0 (n + n1) f1) as Hr01 by eauto with shv.
  assert (err1 = CPERR_NONE ∨ err1 = CPERR_EOF ∧ rf_data f1 = []) as Herr1.
  { destruct H1 as [(-> & _ & Hr1')|(-> & Hd & _)]; [|by right].
    destruct Herr as [->|[-> Hd]]; [by left|]. right. by destruct (reads_nil _ _ _ Hd Hr1'). }
  destruct stop1.
  { destruct H1 as [(_ & ? & _)|(-> & _)]; [done|].
    split; simpl; [exists b; rewrite Ha1; done|done|eexists; split; [done|discriminate]|done]. }
  set (it2 := set_eoff _ _).
  assert (as_ it2 = AsBuf (BufInfo t (eoff b - t) (flags b))) as Ha2.
  { unfold it2, set_eoff, set_len, set_bufinfo. simpl. by rewrite Ha1, Ha. }
  assert (buf_inv f0 it0 (f1, it2, res + t, err1)) as HI2.
  { split; simpl; [|by repeat apply buf_kept_set_as| |done].
    - eexists. split; [done|]. unfold bufinfo_wf, urange in *. simpl. lia.
    - eexists. split; [done|]. intros ->. rewrite Hn1 by done.
      rewrite Hn by (destruct H1 as [(? & _)|(? & _)]; congruence). done. }
  pose proof (end_round_inv _ _ _ _ _ _ Hb HI2) as H2.
  destruct (end_round _ _ _ _) as [[[[f3 it3] res3] err3]|r]; [|done].
  destruct H2 as [HI3 Hdec]. split; [done|]. pose proof HI3 as [(b3 & Ha3 & (_ & He3 & _) & _) _ _ _].
  cbn [fst snd] in *. rewrite Ha2, Ha3 in Hdec. cbn in Hdec.
  apply buf_measure_lt; rewrite ?Ha3, ?Ha; [done|]. apply reads_length in Hr1. cbn. unfold urange in He3.
  destruct Hdec as [?|[Hd Hpos]]; [left; lia|]. rewrite Hd.
  destruct (rf_data f1) as [|c d1] eqn:Ed1; [|destruct H1 as [(_ & _ & Hr1')|(_ & ? & _)]; [|done]].
  - destruct (rf_data f); simpl in *; [right; split_and!; [done|done|lia]|left; lia].
  - apply reads_length in Hr1'. rewrite Ed1 in *. left. lia.
Qed.

(** The loop ends, within the rounds the model allows it. *)
Lemma unpack_buf_loop_ends f0 it0 s :
  bytes (rf_data f0) → Z.of_nat (length (rf_data f0)) < 2 ^ 64 → urange 64 (bufsiz it0) →
  buf_inv f0 it0 s →
  ∃ k, Z.of_nat k ≤ 2 ^ 65 ∧ steps unpack_buf_step k s (inr (unpack_buf_loop s)) ∧
    buf_inv f0 it0 (unpack_buf_loop s).
Proof.
  intros Hb Hlen Hsz HI.
  destruct (steps_total_inv unpack_buf_step (buf_inv f0 it0) (buf_inv f0 it0)
    (λ s, Z.to_nat (buf_measure s))) with s as (k & r & Hk & Hs & HR).
  - intros s1 H1. pose proof (unpack_buf_step_inv _ _ _ Hb Hsz H1) as H2.
    destruct (unpack_buf_step s1); [|done]. destruct H2 as [H2 ?]. split; [done|].
    pose proof (buf_measure_nonneg _ _ _ H2). lia.
  - done.
  - assert (Z.of_nat k ≤ 2 ^ 65) as Hk65.
    { assert (buf_measure s < 2 ^ 65); [|pose proof (buf_measure_nonneg _ _ _ HI); lia].
      destruct s as [[[f it] res] err].
      destruct HI as [(b & Ha & (_ & He & _) & _) _ (n & Hr & _) _]. cbn [fst snd] in *.
      unfold buf_measure. rewrite Ha. cbn [as_Blob]. apply reads_length in Hr.
      unfold urange in He. destruct (rf_data f); simpl in *; lia. }
    exists k. split; [done|].
    assert (unpack_buf_loop s = r) as ->; [|done].
    unfold unpack_buf_loop. by rewrite (cloop_run _ 65 k _ r) by done.
Qed.

(** ** Any input: well-formed items, bounded writes, exact counts *)

Lemma unpack_cstring_inv e d i it b :
  bytes d → 0 ≤ i ≤ bufsiz it → urange 64 (bufsiz it) → as_ it = AsBuf b → bufinfo_wf b →
  let '(d', it', n, err) := unpack_cstring d i it in
  buf_inv (RFile d e) it (RFile d' e, it', n - i, err).
Proof.
  revert i it. induction d as [|c d IH]; intros i it Hb Hi Hsz Ha Hwf; simpl.
  - destruct (Z.ltb_spec i (bufsiz it)).
    + split; simpl; [by exists b|apply buf_kept_refl| |by right].
      exists 0. split; [apply reads_refl|discriminate].
    + pose proof Hwf as (? & ? & ?). unfold set_len. rewrite Ha. cbn [as_Blob].
      split; simpl; [|exact (buf_kept_refl it)| |by left].
      * eexists. split; [done|]. unfold bufinfo_wf, urange in *. simpl. lia.
      * exists 0. split; [apply reads_refl|lia].
  - apply Forall_cons in Hb as [Hc Hb]. pose proof Hwf as (? & ? & Hf).
    destruct (Z.ltb_spec i (bufsiz it)).
    + destruct (Z.eqb_spec c 0) as [->|].
      * unfold set_len, set_flags. simpl. rewrite Ha. cbn [as_Blob].
        split; simpl; [|exact (buf_kept_refl it)| |by left].
        -- eexists. split; [done|].
           pose proof (urange_lor 8 (flags b) CPBI_F_LAST ltac:(lia) Hf ltac:(done)).
           unfold bufinfo_wf, urange in *. simpl in *. lia.
        -- exists 1. split; [by exists [0]|lia].
      * assert (buf_kept it (buf_store i [c] it)) as Hk by (apply buf_kept_store; simpl; lia).
        specialize (IH (i + 1) (buf_store i [c] it) Hb ltac:(simpl; lia) Hsz Ha Hwf).
        destruct (unpack_cstring d (i + 1) (buf_store i [c] it)) as [[[d' it'] m] err].
        destruct IH as [IH1 IH2 (k & Hk' & Hn) IH3]. simpl in *. split; simpl; [done| |exists (1 + k)|done].
        -- by eapply buf_kept_trans.
        -- split; [apply (reads_trans _ (RFile d e)); [by exists [c]|done]|]. intros Herr. rewrite Hn by done. lia.
    + unfold set_len. rewrite Ha. cbn [as_Blob]. split; simpl; [|exact (buf_kept_refl it)| |by left].
      * eexists. split; [done|]. unfold bufinfo_wf, urange in *. simpl. lia.
      * exists 0. split; [apply reads_refl|lia].
Qed.

Lemma unpack_buf_start f it b :
  urange 64 (bufsiz it) → as_ it = AsBuf b → bufinfo_wf b →
  buf_inv f it (f, set_len 0 it, 0, CPERR_NONE).
Proof.
  intros Hsz Ha (Hl & He & Hf). unfold set_len. rewrite Ha. cbn [as_Blob].
  split; simpl; [|exact (buf_kept_refl it)|by exists 0; auto with shv|by left].
  eexists. split; [done|]. unfold bufinfo_wf, urange in *. simpl. lia.
Qed.

Lemma unpack_buf_inv f it b :
  bytes (rf_data f) → Z.of_nat (length (rf_data f)) < 2 ^ 64 → urange 64 (bufsiz it) →
  as_ it = AsBuf b → bufinfo_wf b → buf_inv f it (chainpack_unpack_buf f it).
Proof.
  intros Hb Hlen Hsz Ha Hwf.
  pose proof (unpack_buf_start f it b Hsz Ha Hwf) as H0.
  unfold chainpack_unpack_buf. destruct (Z.eqb_spec (bufsiz it) 0) as [Hz|]; [done|].
  destruct (_ && _).
  - unfold urange in Hsz.
    pose proof (unpack_cstring_inv (rf_fail f) (rf_data f) 0 it b Hb ltac:(lia) Hsz Ha Hwf) as Hc.
    destruct (unpack_cstring (rf_data f) 0 it) as [[[d' it'] m] err].
    rewrite Z.sub_0_r in Hc. by destruct f.
  - by destruct (unpack_buf_loop_ends f it _ Hb Hlen Hsz H0) as (_ & _ & _ & ?).
Qed.

(** The contract of one call: the item stays well-formed, nothing outside the
    first [bufsiz] bytes of its buffer changes, and the number returned is the
    number of bytes consumed unless an error is reported. *)
Definition unpack_ok (f : rfile) (it : cpitem) (r : rfile * cpitem * Z) : Prop :=
  let '(f', it', res) := r in
  as_wf (type it') (as_ it') ∧ buf_kept (set_type (type it') it) it' ∧
  (∃ n, reads f n f') ∧ (type it' ≠ CPITEM_INVALID → reads f res f').

Lemma unpack_ok_error f it f' it' res e :
  buf_kept it it' → (∃ n, reads f n f') → unpack_ok f it (f', set_error e it', res).
Proof.
  intros (_ & Hk) Hr. split; [done|]. split; [done|]. split; [done|]. by intros [].
Qed.

(** An item whose value alone changed. *)
Lemma unpack_ok_value f it f' res t u :
  as_wf t u → reads f res f' → unpack_ok f it (f', set_as u (set_type t it), res).
Proof.
  intros Hwf Hr. split; [done|]. split; [exact (buf_kept_refl (set_type t it))|].
  split; [by eexists|done].
Qed.

Lemma call_buf_ok f0 it0 f it res b :
  bytes (rf_data f) → Z.of_nat (length (rf_data f)) < 2 ^ 64 → urange 64 (bufsiz it) →
  as_ it = AsBuf b → bufinfo_wf b → type it = CPITEM_BLOB ∨ type it = CPITEM_STRING →
  buf_kept (set_type (type it) it0) it → reads f0 res f → unpack_ok f0 it0 (call_buf f it res).
Proof.
  intros Hb Hlen Hsz Ha Hwf Ht Hk Hr. unfold call_buf.
  pose proof (unpack_buf_inv f it b Hb Hlen Hsz Ha Hwf) as HI.
  destruct (chainpack_unpack_buf f it) as [[[f' it'] cnt] err].
  destruct HI as [(b' & Ha' & Hwf' & _) Hk' (n & Hn & Hcnt) _]. cbn [fst snd] in *.
  assert (reads f0 (res + n) f') by eauto with shv.
  pose proof (proj1 Hk') as Ht'. case_bool_decide as He.
  - rewrite Hcnt in * by done. unfold unpack_ok. rewrite Ht', Ha'.
    split; [destruct Ht as [->| ->]; by eexists|]. split; [by eapply buf_kept_trans|].
    split; [by eexists|done].
  - assert (buf_kept (set_type (type it) it0) it') as (_ & Hk2) by by eapply buf_kept_trans.
    unfold call_error. split; [done|]. split; [done|]. split; [by eexists|]. by intros [].
Qed.

Lemma call_buf_first f0 it f t v fl res :
  bytes (rf_data f0) → Z.of_nat (length (rf_data f0)) < 2 ^ 64 → urange 64 (bufsiz it) →
  urange 64 v → t = CPITEM_BLOB ∨ t = CPITEM_STRING → urange 8 fl → reads f0 res f →
  unpack_ok f0 it (call_buf f (set_bufinfo (BufInfo 0 v fl) (set_type t it)) res).
Proof.
  intros Hb Hlen Hsz Hv Ht Hfl Hr. pose proof (reads_length _ _ _ Hr).
  eapply call_buf_ok; [by eapply reads_bytes|lia|done|done|done|done| |done].
  exact (buf_kept_refl (set_type t it)).
Qed.

Lemma unpack_int_reads f f' v cnt err :
  bytes (rf_data f) → chainpack_unpack_int f = (f', v, cnt, err) → reads f cnt f' ∧ srange 64 v.
Proof.
  unfold chainpack_unpack_int. intros Hb.
  destruct (chainpack_unpack_uint f) as [[[g uv] n] e] eqn:E.
  apply unpack_uint_reads in E as (Hr & _ & _); [|done].
  pose proof (swrap_range 64). 
  repeat case_match; intros [= <- <- <- <-]; split; auto with lia.
Qed.

Lemma le_value_range l : bytes l → 0 ≤ le_value l < 256 ^ Z.of_nat (length l).
Proof.
  induction 1 as [|b l Hb Hl IH]; simpl; [lia|]. unfold byte in Hb.
  rewrite Nat2Z.inj_succ, Z.pow_succ_r by lia. lia.
Qed.

Lemma datetime_of_code_wf d :
  srange 64 (msecs (datetime_of_code d)) ∧ srange 32 (offutc (datetime_of_code d)).
Proof.
  split; [apply swrap_range; lia|]. unfold datetime_of_code. cbn [offutc].
  destruct (has d 1); [|done].
  set (x := Z.land _ 0x7f). assert (0 ≤ x < 128) as Hx.
  { unfold x. change 0x7f with (2 ^ 7 - 1). rewrite land_ones_mod by lia.
    apply Z.mod_pos_bound. lia. }
  pose proof (swrap_range 8 (Z.shiftl x 1) ltac:(lia)) as Hs. unfold srange in *.
  rewrite Z.shiftr_div_pow2 by lia. set (y := i8 _) in *. clearbody y.
  change (2 ^ 1) with 2. pose proof (Z.div_mod y 2). pose proof (Z.mod_pos_bound y 2). lia.
Qed.

(** Reads the next integer from [f] in the goal. *)
Ltac take_int f :=
  let g := fresh "g" in let v := fresh "v" in let cnt := fresh "cnt" in
  let err := fresh "err" in let E := fresh "E" in
  match goal with
  | |- context [chainpack_unpack_int f] =>
      destruct (chainpack_unpack_int f) as [[[g v] cnt] err] eqn:E;
      apply unpack_int_reads in E as [? ?]; [|done]
  | |- context [chainpack_unpack_uint f] =>
      destruct (chainpack_unpack_uint f) as [[[g v] cnt] err] eqn:E;
      apply unpack_uint_reads in E as (? & ? & _); [|done]
  end;
  assert (bytes (rf_data g)) by (eapply reads_bytes; eassumption).

(** Whatever bytes the stream holds. *)
Lemma unpack_scheme_ok f0 scheme f it :
  bytes (rf_data f0) → Z.of_nat (length (rf_data f0)) < 2 ^ 64 → item_wf it →
  rf_data f0 = scheme :: rf_data f → rf_fail f = rf_fail f0 →
  unpack_ok f0 it (unpack_scheme scheme f it).
Proof.
  intros Hb Hlen [Hwf (Hsz & Hm)] Hd He.
  assert (reads f0 1 f) as Hr by by exists [scheme].
  assert (bytes (rf_data f)) as Hbf by by eapply reads_bytes.
  assert (Z.of_nat (length (rf_data f)) < 2 ^ 64) as Hlf by (rewrite Hd in Hlen; simpl in *; lia).
  unfold unpack_scheme.
  repeat match goal with |- unpack_ok _ _ (if ?c then _ else _) => destruct c eqn:? end.
  all: try (apply (unpack_ok_value f0 it f 1 _ (as_ it)); done).
  all: try (apply (unpack_ok_value f0 it f 1); [by do 2 eexists|done]).
  all: try (take_int f; case_bool_decide;
    [|apply unpack_ok_error; [apply buf_kept_refl|eexists; by eauto with shv]]).
  - apply unpack_ok_value; [by eexists|by eauto with shv].
  - apply unpack_ok_value; [by eexists|by eauto with shv].
  - destruct (fread 8 f) as [[l|] g] eqn:E.
    + apply fread_reads in E as (Hg & Hl & Hn); [|lia].
      apply (unpack_ok_value f0 it g (1 + 8)); [|by eauto with shv].
      eexists. split; [done|]. rewrite Hl in Hbf. apply bytes_app in Hbf as [Hbl _].
      apply le_value_range in Hbl. rewrite Hn in Hbl. unfold urange. lia.
    + apply fread_short in E as (Hg & _). apply unpack_ok_error; [apply buf_kept_refl|].
      eexists. eauto with shv.
  - take_int g. case_bool_decide;
      [|apply unpack_ok_error; [apply buf_kept_refl|eexists; by eauto with shv]].
    apply unpack_ok_value; [|by eauto with shv].
    eexists. split; [done|]. cbn. split; [done|]. apply swrap_range. lia.
  - apply call_buf_first; [done..|by auto| |by eauto with shv].
    destruct (scheme =? CPS_BlobChain); by apply (bool_decide_unpack _).
  - apply call_buf_first; [done..|by auto|by apply (bool_decide_unpack _)|done].
  - apply call_buf_first; [done..|by auto|done|by eauto with shv].
  - apply unpack_ok_value; [|by eauto with shv]. eexists.
    split; [done|]. apply datetime_of_code_wf.
  - assert (ungetc scheme f = f0) as ->.
    { destruct f0. unfold ungetc. simpl in *. congruence. }
    split; [done|]. split; [exact (buf_kept_refl (set_type CPITEM_INVALID it))|].
    split; [eexists; apply reads_refl|by intros []].
Qed.

(** The unpacker on any input. *)
Lemma chainpack_unpack_ok f it :
  bytes (rf_data f) → Z.of_nat (length (rf_data f)) < 2 ^ 64 → item_wf it →
  unpack_ok f it (chainpack_unpack f it).
Proof.
  intros Hb Hlen [Hwf (Hsz & Hm)]. unfold chainpack_unpack, common_unpack.
  destruct (_ : bool).
  { split; [done|]. split; [exact (buf_kept_refl (set_type (type it) it))|].
    split; [by eexists; auto with shv|auto with shv]. }
  destruct (continues it) eqn:Ec.
  - unfold continues in Ec. apply andb_true_iff in Ec as [Ht _].
    apply orb_true_iff in Ht. rewrite !bool_decide_eq_true in Ht.
    assert (∃ b, as_ it = AsBuf b ∧ bufinfo_wf b) as (b & Ha & Hl & He & Hf).
    { by destruct Ht as [Ht|Ht]; rewrite Ht in Hwf. }
    apply (call_buf_ok _ _ _ _ _ (BufInfo (len b) (eoff b) (Z.ldiff (flags b) CPBI_F_FIRST)));
      [done..| | |done| |apply reads_refl].
    + unfold set_flags. by rewrite Ha.
    + split; [done|]. split; [done|]. by apply urange_ldiff.
    + exact (buf_kept_refl (set_type (type it) it)).
  - destruct (getc f) as [[c|] g] eqn:E.
    + apply getc_reads in E as [Hr Hd]. destruct (c <? CPS_Null).
      * assert (byte c) as Hc by (rewrite Hd in Hb; by apply Forall_cons in Hb as [? _]).
        assert (0 ≤ chainpack_scheme_uint c < 64) as Hv.
        { unfold chainpack_scheme_uint. change 0x3f with (2 ^ 6 - 1).
          rewrite land_ones_mod by lia. apply Z.mod_pos_bound. lia. }
        destruct (chainpack_scheme_signed c); apply unpack_ok_value; try done;
          (eexists; split; [done|]; unfold srange, urange; lia).
      * apply unpack_scheme_ok; [done..|by split|done|]. by destruct Hr as (? & _ & _ & ->).
    + apply getc_eof in E as [-> _]. apply unpack_ok_error; [apply buf_kept_refl|].
      by eexists; auto with shv.
Qed.

(** ** Strings and blobs block by block

    A call on data of which [l] fits the buffer and [r] is left for the next. *)

Definition block_flags (fl : Z) (r : list Z) : Z :=
  match r with [] => Z.lor fl CPBI_F_LAST | _ => fl end.

Definition block_item (it : cpitem) (l r : list Z) (fl : Z) : cpitem :=
  Item (type it)
    (AsBuf (BufInfo (Z.of_nat (length l)) (Z.of_nat (length r)) (block_flags fl r)))
    (list_inserts 0 l <$> buf it) (bufsiz it).

Lemma read_block_app l d e it err :
  urange 64 (Z.of_nat (length l)) → len (as_Blob (as_ it)) = 0 →
  read_block (Z.of_nat (length l)) (RFile (l ++ d) e) it err =
    (RFile d e, set_buf (list_inserts 0 l <$> buf it) it, err, false).
Proof.
  intros Hl H0. unfold read_block, buf_store. rewrite H0.
  destruct it as [t u [m|] n]; cbn [buf set_buf fmap option_fmap option_map].
  - destruct (Z.ltb_spec 0 (Z.of_nat (length l))); [by rewrite (fread_app l)|].
    destruct l; [done|simpl in *; lia].
  - rewrite discard_fread by done. unfold fread_ok. by rewrite fread_app.
Qed.

Lemma unpack_buf_block l r d e it k fl :
  as_ it = AsBuf (BufInfo k (Z.of_nat (length l + length r)) fl) →
  has fl CPBI_F_STREAM = false → 0 < bufsiz it < 2 ^ 64 →
  Z.of_nat (length l) = Z.min (Z.of_nat (length l + length r)) (bufsiz it) →
  chainpack_unpack_buf (RFile (l ++ r ++ d) e) it =
    (RFile (r ++ d) e, block_item it l r fl, Z.of_nat (length l), CPERR_NONE).
Proof.
  intros Ha Hfl Hsz Hl. unfold chainpack_unpack_buf. rewrite Ha. cbn [as_Blob flags].
  destruct (Z.eqb_spec (bufsiz it) 0); [lia|]. rewrite Hfl. cbn [andb].
  set (it1 := set_buf (list_inserts 0 l <$> buf it) it).
  assert (unpack_buf_step (RFile (l ++ r ++ d) e, set_len 0 it, 0, CPERR_NONE) =
    end_round (RFile (r ++ d) e)
      (set_bufinfo (BufInfo (Z.of_nat (length l)) (Z.of_nat (length r)) fl) it1)
      (Z.of_nat (length l)) CPERR_NONE) as Hstep.
  { unfold unpack_buf_step, set_len. rewrite Ha. cbn [as_Blob len eoff set_bufinfo set_as as_ bufsiz].
    destruct (Z.ltb_spec 0 (bufsiz it)); [|lia]. rewrite Z.sub_0_r, <-Hl.
    rewrite read_block_app by (done || (unfold urange; lia)).
    rewrite Z.add_0_l.
    by replace (Z.of_nat (length l + length r) - Z.of_nat (length l)) with (Z.of_nat (length r)) by lia. }
  assert (next_chunk (RFile (r ++ d) e)
    (set_bufinfo (BufInfo (Z.of_nat (length l)) (Z.of_nat (length r)) fl) it1)
    (Z.of_nat (length l)) CPERR_NONE = (RFile (r ++ d) e,
    set_bufinfo (BufInfo (Z.of_nat (length l)) (Z.of_nat (length r)) fl) it1,
    Z.of_nat (length l), CPERR_NONE, false)) as Hn.
  { unfold next_chunk. cbn. by rewrite Hfl. }
  unfold end_round in Hstep. rewrite Hn in Hstep. cbn in Hstep. unfold unpack_buf_loop.
  destruct r as [|x r].
  - rewrite (cloop_run _ 65 1 _ (RFile d e, block_item it l [] fl, Z.of_nat (length l), CPERR_NONE));
      [done|by constructor|lia].
  - set (s := (RFile ((x :: r) ++ d) e, block_item it l (x :: r) fl, Z.of_nat (length l), CPERR_NONE)).
    rewrite (cloop_run _ 65 2 _ s); [done| |lia].
    apply (steps_next _ _ _ s); [done|]. constructor. unfold s, unpack_buf_step.
    cbn [block_item as_ as_Blob len bufsiz]. destruct (Z.ltb_spec (Z.of_nat (length l)) (bufsiz it)); [|done].
    simpl in Hl. lia.
Qed.

(** ** Round trip of tokens *)

Lemma zone_sign_extension o :
  -64 ≤ o < 64 → Z.shiftr (i8 (Z.shiftl (Z.land (o mod 128) 0x7f) 1)) 1 = o.
Proof.
  intros Ho. apply Z.eqb_eq.
  pose proof (forall_below 128
    (λ z, Z.shiftr (i8 (Z.shiftl (Z.land ((z - 64) mod 128) 0x7f) 1)) 1 =? z - 64)
    eq_refl (o + 64) ltac:(lia)) as H. cbv beta in H. by replace (o + 64 - 64) with o in H by lia.
Qed.

Lemma datetime_roundtrip d : datetime_ok d → datetime_of_code (datetime_code d) = d.
Proof.
  intros Hd. destruct (datetime_code_value d Hd) as (Hc & Hy & Hx).
  destruct Hd as (Hm & Ho15 & Ho).
  set (m := msecs d - CHAINPACK_EPOCH_MSEC) in *. set (o := offutc d / 15) in *.
  set (x := if m mod 1000 =? 0 then m / 1000 else m) in *.
  set (y := if o =? 0 then x else x * 128 + o mod 128) in *.
  assert (o * 15 = offutc d) as Hoff by (unfold o; pose proof (Z.div_mod (offutc d) 15); lia).
  unfold datetime_of_code. rewrite Hc.
  set (f := (if o =? 0 then 0 else 1) + (if m mod 1000 =? 0 then 2 else 0)).
  replace (_ + _ + _) with (y * 4 + f) by (unfold f; lia).
  assert (0 ≤ f < 4) as Hf by (unfold f; destruct (o =? 0), (m mod 1000 =? 0); lia).
  assert (∀ k, 0 ≤ k < 2 → Z.testbit (y * 4 + f) k = Z.testbit f k) as Hbit.
  { intros k Hk. change 4 with (2 ^ 2). rewrite <-lor_shiftl_add by lia.
    rewrite Z.lor_spec, Z.shiftl_spec, (Z.testbit_neg_r y) by lia. done. }
  pose proof (has_pow2 (y * 4 + f) 0 ltac:(lia)) as H1. change (2 ^ 0) with 1 in H1.
  pose proof (has_pow2 (y * 4 + f) 1 ltac:(lia)) as H2. change (2 ^ 1) with 2 in H2.
  rewrite H1, H2, !Hbit by lia. clear H1 H2.
  assert (Z.quot (y * 4 + f) 4 = y) as ->.
  { rewrite Z.quot_div_nonneg, Z.div_add_l, Z.div_small by lia. lia. }
  assert (Z.testbit f 0 = negb (o =? 0)) as ->
    by (unfold f; destruct (o =? 0), (m mod 1000 =? 0); done).
  assert (Z.testbit f 1 = (m mod 1000 =? 0)) as ->
    by (unfold f; destruct (o =? 0), (m mod 1000 =? 0); done).
  assert ((if negb (o =? 0) then Z.shiftr (i8 (Z.shiftl (Z.land y 0x7f) 1)) 1 else 0) = o) as ->.
  { unfold y. destruct (Z.eqb_spec o 0) as [->|]; [done|]. cbn [negb].
    rewrite <-(zone_sign_extension o) at 2 by done. do 3 f_equal.
    change 0x7f with (2 ^ 7 - 1). rewrite !land_ones_mod by lia. change (2 ^ 7) with 128.
    rewrite Z.add_comm, Z.mod_add, !Z.mod_mod by lia. done. }
  assert ((if negb (o =? 0) then Z.quot y 128 else y) = x) as ->.
  { unfold y. destruct (Z.eqb_spec o 0); [done|]. cbn [negb].
    pose proof (Z.mod_pos_bound o 128 ltac:(lia)).
    rewrite Z.quot_div_nonneg, Z.div_add_l, Z.div_small by lia. lia. }
  assert ((if m mod 1000 =? 0 then i64 (x * 1000) else x) = m) as ->.
  { unfold x. destruct (Z.eqb_spec (m mod 1000) 0) as [H0|]; [|done].
    pose proof (Z.div_mod m 1000). rewrite swrap_small by (unfold srange; lia). lia. }
  rewrite Hoff, swrap_small by (unfold srange, m, CHAINPACK_EPOCH_MSEC in *; lia).
  destruct d as [ms off]. unfold m. simpl. f_equal. lia.
Qed.

Lemma ready_next it : ready it = true → common_unpack it = false ∧ continues it = false.
Proof.
  unfold ready, common_unpack, continues. destruct (type it); cbn; try done.
  - intros ->. done.
  - intros [-> ->]%andb_true_iff. done.
  - intros [-> ->]%andb_true_iff. done.
Qed.

Lemma unpack_first c d e it :
  ready it = true →
  chainpack_unpack (RFile (c :: d) e) it =
    (if c <? CPS_Null then
       if chainpack_scheme_signed c
       then (RFile d e, set_as (AsInt (chainpack_scheme_uint c)) (set_type CPITEM_INT it), 1)
       else (RFile d e, set_as (AsUInt (chainpack_scheme_uint c)) (set_type CPITEM_UINT it), 1)
     else unpack_scheme c (RFile d e) it).
Proof.
  intros [H1 H2]%ready_next. unfold chainpack_unpack. by rewrite H1, H2.
Qed.

Lemma short_scheme v :
  0 ≤ v < 64 →
  chainpack_scheme_signed v = false ∧ chainpack_scheme_uint v = v ∧
  chainpack_scheme_signed (v + 64) = true ∧ chainpack_scheme_uint (v + 64) = v.
Proof.
  intros Hv. pose proof (forall_below 64 (λ v, negb (chainpack_scheme_signed v) &&
    (chainpack_scheme_uint v =? v) && chainpack_scheme_signed (v + 64) &&
    (chainpack_scheme_uint (v + 64) =? v)) eq_refl v Hv) as H. cbv beta in H.
  rewrite !andb_true_iff, !Z.eqb_eq, negb_true_iff in H. tauto.
Qed.

(** Whole data read into a buffer that has room for it. *)
Lemma call_buf_whole l d e it t res :
  t = CPITEM_BLOB ∨ t = CPITEM_STRING → 0 < bufsiz it < 2 ^ 64 → Z.of_nat (length l) ≤ bufsiz it →
  call_buf (RFile (l ++ d) e)
    (set_bufinfo (BufInfo 0 (Z.of_nat (length l)) CPBI_F_FIRST) (set_type t it)) res =
  (RFile d e, block_item (set_type t it) l [] CPBI_F_FIRST, res + Z.of_nat (length l)).
Proof.
  intros Ht Hsz Hl. unfold call_buf.
  rewrite (unpack_buf_block l [] d e _ 0 CPBI_F_FIRST); cbn [length];
    rewrite ?Nat.add_0_r; [done..|].
  cbn [bufsiz set_bufinfo set_as set_type]. lia.
Qed.

Lemma take_inserts (l m : list Z) :
  (length l ≤ length m)%nat → take (length l) (list_inserts 0 l m) = l.
Proof.
  intros Hl. apply list_eq. intros i. destruct (decide (i < length l)%nat).
  - rewrite lookup_take_lt, list_lookup_inserts by lia. by rewrite Nat.sub_0_r.
  - rewrite lookup_take_ge by lia. symmetry. apply lookup_ge_None. lia.
Qed.

(** A block stored at the start of the buffer. *)
Lemma block_item_data l r fl it :
  buf_wf it → Z.of_nat (length l) ≤ bufsiz it →
  buf_kept it (block_item it l r fl) ∧
  match buf (block_item it l r fl) with None => True | Some m => take (length l) m = l end.
Proof.
  intros [Hsz Hm] Hl. split.
  - pose proof (buf_kept_store 0 l it ltac:(lia) ltac:(lia)) as Hk.
    unfold buf_kept, buf_store in *. simpl in *. done.
  - destruct it as [ty u [m|] n]; simpl in *; [|done]. apply take_inserts. lia.
Qed.

Lemma block_item_holds l it :
  buf_wf it → Z.of_nat (length l) ≤ bufsiz it →
  holds_data l (block_item it l [] CPBI_F_FIRST) ∧ buf_kept it (block_item it l [] CPBI_F_FIRST).
Proof.
  intros Hw Hl. destruct (block_item_data l [] CPBI_F_FIRST it Hw Hl) as [Hk Hd].
  split; [|done]. by exists (Z.lor CPBI_F_FIRST CPBI_F_LAST).
Qed.

Lemma le_value_bytes n v : urange (8 * Z.of_nat n) v → le_value (le_bytes n v) = v.
Proof.
  revert v. induction n as [|n IH]; intros v Hv; unfold urange in *.
  - simpl in *. lia.
  - cbn [le_bytes le_value]. rewrite IH.
    + pose proof (Z.div_mod v 256). lia.
    + unfold urange. split; [apply Z.div_pos; lia|]. apply Z.div_lt_upper_bound; [lia|].
      replace (8 * Z.of_nat (S n)) with (8 + 8 * Z.of_nat n) in Hv by lia.
      rewrite Z.pow_add_r in Hv by lia. lia.
Qed.

Lemma length_le_bytes n v : length (le_bytes n v) = n.
Proof. revert v. induction n; intros v; simpl; auto. Qed.

Lemma unpack_scheme_data (blob : bool) l d e it :
  let '(c, ty) := if blob then (CPS_Blob, CPITEM_BLOB) else (CPS_String, CPITEM_STRING) in
  Z.of_nat (length l) < 2 ^ 63 → 0 < bufsiz it ∧ Z.of_nat (length l) ≤ bufsiz it → buf_wf it →
  let b := uint_bytes (Z.of_nat (length l)) ++ l in
  unpack_scheme c (RFile (b ++ d) e) it =
    (RFile d e, block_item (set_type ty it) l [] CPBI_F_FIRST, Z.of_nat (length (c :: b))) ∧
  holds_data l (block_item (set_type ty it) l [] CPBI_F_FIRST) ∧
  buf_kept (set_type ty it) (block_item (set_type ty it) l [] CPBI_F_FIRST).
Proof.
  destruct blob; intros Hl Hfit [Hsz Hm] b; (split; [|by apply block_item_holds; [|apply Hfit]]);
    unfold unpack_scheme, b; unfold urange in Hsz; cbn -[call_buf app];
    rewrite <-app_assoc, unpack_uint_bytes by (unfold urange; lia); cbn -[call_buf app];
    rewrite call_buf_whole by (lia || auto); rewrite length_app; f_equal; lia.
Qed.

(** What [chainpack_unpack] makes of the encoding of a token, anything
    following it. *)
Lemma unpack_tok t d e it :
  tok_wf t → fits t it → ready it = true → buf_wf it →
  ∃ it', chainpack_unpack (RFile (tok_bytes t ++ d) e) it =
           (RFile d e, it', Z.of_nat (length (tok_bytes t))) ∧
    holds t it' ∧ buf_kept (set_type (tok_type t) it) it'.
Proof.
  intros Hwf Hfit Hr Hb.
  assert (∀ ty u, buf_kept (set_type ty it) (set_as u (set_type ty it))) as Hk
    by (intros ty u; exact (buf_kept_refl (set_type ty it))).
  destruct t; cbn [tok_bytes app]; cbn [tok_wf fits] in *;
    try (rewrite unpack_first by done; eexists; split; [reflexivity|split; [done|apply Hk]]).
  - rewrite unpack_first by done. destruct b; eexists;
      (split; [reflexivity|split; [by split; [|eexists]|apply Hk]]).
  - destruct (Z.leb_spec 0 v), (Z.ltb_spec v 64); cbn [andb app]; rewrite unpack_first by done.
    1: { destruct (short_scheme v ltac:(lia)) as (_ & _ & -> & ->).
         rewrite (proj2 (Z.ltb_lt _ _)) by (unfold CPS_Null; lia).
         eexists. split; [reflexivity|split; [done|apply Hk]]. }
    all: unfold unpack_scheme; cbn; rewrite unpack_int_bytes by done.
    all: eexists; split; [cbn; f_equal; lia|split; [done|apply Hk]].
  - unfold urange in Hwf. destruct (Z.ltb_spec v 64); cbn [app]; rewrite unpack_first by done.
    { destruct (short_scheme v ltac:(lia)) as (-> & -> & _).
      rewrite (proj2 (Z.ltb_lt _ _)) by (unfold CPS_Null; lia).
      eexists. split; [reflexivity|split; [done|apply Hk]]. }
    unfold unpack_scheme; cbn; rewrite unpack_uint_bytes by done.
    eexists; split; [cbn; f_equal; lia|split; [done|apply Hk]].
  - rewrite unpack_first by done. unfold unpack_scheme; cbn -[le_bytes fread app].
    rewrite fread_app by (by rewrite length_le_bytes).
    eexists. split; [reflexivity|]. rewrite le_value_bytes by done. split; [done|apply Hk].
  - destruct Hwf as [Hm He]. apply packable_int_32 in He as He'.
    rewrite unpack_first by done. unfold unpack_scheme; cbn. rewrite <-app_assoc.
    rewrite unpack_int_bytes by done. cbn. rewrite unpack_int_bytes by done. cbn.
    rewrite swrap_small by (done || lia). rewrite length_app.
    eexists. split; [f_equal; lia|split; [by destruct d0|apply Hk]].
  - rewrite unpack_first by done. unfold unpack_scheme; cbn.
    rewrite unpack_int_bytes by (by apply datetime_code_packable). cbn.
    rewrite datetime_roundtrip by done.
    eexists. split; [f_equal; lia|split; [done|apply Hk]].
  - rewrite unpack_first by done. destruct Hwf as [Hl _].
    destruct (unpack_scheme_data true l d e it Hl Hfit Hb) as (Hs & Hh & Hkept).
    eexists. split; [exact Hs|]. split; [by split|done].
  - rewrite unpack_first by done. destruct Hwf as [Hl _].
    destruct (unpack_scheme_data false l d e it Hl Hfit Hb) as (Hs & Hh & Hkept).
    eexists. split; [exact Hs|]. split; [by split|done].
Qed.

(** ** Shortest encoding *)

Lemma unpack_uint_loop_bound n f v b res f' v' res' err :
  bytes (rf_data f) → 0 ≤ b → 0 ≤ v < 2 ^ b → unpack_uint_loop n f v res = (f', v', res', err) →
  err = CPERR_NONE → v' < 2 ^ (b + 8 * Z.of_nat n) ∧ res' = res + Z.of_nat n.
Proof.
  revert f v b res. induction n as [|n IH]; intros f v b res Hb Hb0 Hv; simpl.
  - intros [= <- <- <- <-] _. rewrite Z.add_0_r. lia.
  - destruct (getc f) as [[r|] g] eqn:E; [|intros [= <- <- <- <-]; done].
    apply getc_reads in E as [_ Hd]. rewrite Hd in Hb. apply Forall_cons in Hb as [Hr Hb].
    unfold byte in Hr. intros H He. apply (IH _ _ (b + 8)) in H; [|done|lia| |done].
    + replace (b + 8 * Z.of_nat (S n)) with (b + 8 + 8 * Z.of_nat n) by lia. lia.
    + assert (urange (b + 8) (Z.lor (u64 (Z.shiftl v 8)) r)); [|done].
      assert (2 ^ 8 ≤ 2 ^ (b + 8)) by (apply Z.pow_le_mono_r; lia).
      apply urange_lor; [lia| |unfold urange; lia].
      unfold urange, uwrap. rewrite Z.shiftl_mul_pow2, Z.pow_add_r by lia.
      pose proof (Z.mod_pos_bound (v * 2 ^ 8) (2 ^ 64)).
      pose proof (Z.mod_le (v * 2 ^ 8) (2 ^ 64)). nia.
Qed.

Lemma uint_value1_bound c :
  byte c → let k := chainpack_int_bytes c in
  chainpack_uint_value1 c k < 2 ^ (if k <=? 4 then 8 - k else 0).
Proof.
  intros Hc k. apply Z.ltb_lt.
  apply (forall_below 256 (λ c, let k := chainpack_int_bytes c in
    chainpack_uint_value1 c k <? 2 ^ (if k <=? 4 then 8 - k else 0))); [by vm_compute|done].
Qed.

(** A number decoded from [n] bytes has at most the bits these can carry. *)
Lemma unpack_uint_bound f f' v n :
  bytes (rf_data f) → chainpack_unpack_uint f = (f', v, n, CPERR_NONE) →
  1 ≤ n ∧ v < 2 ^ uint_bits n.
Proof.
  intros Hb. unfold chainpack_unpack_uint. destruct (getc f) as [[c|] g] eqn:E; [|done].
  apply getc_reads in E as [_ Hd]. rewrite Hd in Hb. apply Forall_cons in Hb as [Hc Hb].
  pose proof (uint_value1_bound c Hc) as Hv. destruct (uint_value1_range c Hc) as [[Hv0 _] Hk].
  set (k := chainpack_int_bytes c) in *. intros H.
  apply (unpack_uint_loop_bound _ _ _ (if k <=? 4 then 8 - k else 0)) in H as [H ->];
    [|done|destruct (Z.leb_spec k 4); lia|done|done].
  rewrite Z2Nat.id in * by lia. replace (1 + (k - 1)) with k by lia. split; [lia|].
  unfold uint_bits. destruct (Z.leb_spec k 4).
  - by replace (8 - k + 8 * (k - 1)) with (7 * k) in H by lia.
  - by rewrite Z.add_0_l in H.
Qed.
