(* ===== verification/ChainpackSpec.v ===== *)
(** * Properties of the ChainPack codec

    The theorems on [chainpack_pack] and [chainpack_unpack] the rest of the
    library stands on, with examples that evaluate the model, and the inputs on
    which the code does not do what it is meant to. *)

From S2P Require Import Prelude Stdio Chainpack CpItem ChainpackPack ChainpackUnpack.
From S2P Require Import ChainpackRoundtrip.

(** ** Codec *)

(** C1: what the packer gets in one piece survives packing and unpacking: null and
    booleans, integers but the least one of 64 bits, also as the mantissa of a
    decimal, unsigned integers, doubles, dates within 2^54 milliseconds from the epoch
    of 2018 on with offsets in whole quarters of an hour, strings and blobs given with their
    length, and the starts and ends of containers.  An item that holds such a token
    [t] is written in full, and reading the bytes back into any item that is ready
    and has room for the data gives an item that holds the same token, with exactly
    the written bytes consumed whatever follows them.  Strings and blobs whose length
    is not known at the start are not among it. *)
Theorem chainpack_roundtrip t i w it d e :
  tok_wf t → holds t i → whole i → is_Some (buf i) → wf_err w = false →
  roomy (length (item_bytes i)) w → fits t it → ready it = true → buf_wf it →
  ∃ l it', chainpack_pack (Some w) i = (Some (written l w), Z.of_nat (length l)) ∧
    chainpack_unpack (RFile (l ++ d) e) it = (RFile d e, it', Z.of_nat (length l)) ∧
    holds t it' ∧ ready it' = true ∧ buf_kept (set_type (tok_type t) it) it'.
Proof.
  intros Hwf Hh Hw Hb He Hroom Hfit Hr Hbw.
  destruct (holds_packable t i Hwf Hh Hw (λ _, Hb)) as [Hp Hbytes].
  destruct (unpack_tok t d e it Hwf Hfit Hr Hbw) as (it' & Hu & Hh' & Hk).
  exists (item_bytes i), it'. rewrite chainpack_pack_room by done. rewrite Hbytes.
  split_and!; [done..|by eapply holds_ready|done].
Qed.

Definition sample_string : cpitem :=
  Item CPITEM_STRING (AsBuf (BufInfo 3 0 CPBI_F_SINGLE)) (Some (str "shv")) 3.
Definition sample_buffer : cpitem :=
  Item CPITEM_INVALID (AsError CPERR_NONE) (Some (replicate 8 0)) 8.
Definition empty_stream : wfile := WFile [] None false.

Lemma chainpack_roundtrip_witness :
  ∃ l it', chainpack_pack (Some empty_stream) sample_string =
      (Some (written l empty_stream), Z.of_nat (length l)) ∧
    chainpack_unpack (RFile (l ++ [1; 2]) false) sample_buffer =
      (RFile [1; 2] false, it', Z.of_nat (length l)) ∧
    holds (TString (str "shv")) it' ∧ ready it' = true ∧
    buf_kept (set_type CPITEM_STRING sample_buffer) it'.
Proof.
  apply (chainpack_roundtrip (TString (str "shv")) sample_string empty_stream sample_buffer [1; 2] false).
  - split; [by vm_compute|]. repeat constructor; by apply (bool_decide_unpack _); vm_compute.
  - split; [done|]. exists CPBI_F_SINGLE. by vm_compute.
  - split; [done|]. by apply (bool_decide_unpack _); vm_compute.
  - by eexists.
  - done.
  - done.
  - by vm_compute.
  - done.
  - split; [by apply (bool_decide_unpack _); vm_compute|by vm_compute].
Defined.

(** C11: the unpacker is safe on any input.  Whatever bytes arrive, a well-formed
    item stays well-formed, no byte of its memory outside the first [bufsiz]
    changes, the stream is only advanced, and unless an error is reported the
    returned number is the number of consumed bytes. *)
Theorem chainpack_unpack_safe f it f' it' res :
  bytes (rf_data f) → Z.of_nat (length (rf_data f)) < 2 ^ 64 → item_wf it →
  chainpack_unpack f it = (f', it', res) →
  item_wf it' ∧ buf_kept (set_type (type it') it) it' ∧ (∃ n, reads f n f') ∧
  (type it' ≠ CPITEM_INVALID → reads f res f').
Proof.
  intros Hb Hlen Hwf Hu. pose proof (chainpack_unpack_ok f it Hb Hlen Hwf) as Hok.
  rewrite Hu in Hok. destruct Hok as (Has & Hk & Hr & Hc). split; [|done].
  split; [done|]. apply (buf_kept_wf _ _ Hk). apply Hwf.
Qed.

Lemma chainpack_unpack_safe_witness :
  let f := RFile [CPS_BlobChain; 2; 7; 8; 0; 5] false in
  let r := chainpack_unpack f sample_buffer in
  item_wf r.1.2 ∧ buf_kept (set_type (type r.1.2) sample_buffer) r.1.2 ∧
  (∃ n, reads f n r.1.1) ∧ (type r.1.2 ≠ CPITEM_INVALID → reads f r.2 r.1.1).
Proof.
  apply (chainpack_unpack_safe (RFile [CPS_BlobChain; 2; 7; 8; 0; 5] false) sample_buffer).
  - repeat constructor; by apply (bool_decide_unpack _); vm_compute.
  - by vm_compute.
  - split; [done|]. split; [by apply (bool_decide_unpack _); vm_compute|by vm_compute].
  - by vm_compute.
Defined.

(** C14: reading a string, a blob or a chain always ends.  From any well-formed
    item and any stream of less than [2 ^ 64] bytes, the loop of
    [chainpack_unpack_buf] stops after at most [2 ^ 65] rounds and its result is
    the one [unpack_buf_loop] computes. *)
Theorem chainpack_unpack_buf_terminates f it b :
  bytes (rf_data f) → Z.of_nat (length (rf_data f)) < 2 ^ 64 → urange 64 (bufsiz it) →
  as_ it = AsBuf b → bufinfo_wf b →
  let s := (f, set_len 0 it, 0, CPERR_NONE) in
  ∃ k, Z.of_nat k ≤ 2 ^ 65 ∧ steps unpack_buf_step k s (inr (unpack_buf_loop s)).
Proof.
  intros Hb Hlen Hsz Ha Hwf s.
  destruct (unpack_buf_loop_ends f it s Hb Hlen Hsz) as (k & Hk & Hs & _); [|by exists k].
  by apply (unpack_buf_start f it b).
Qed.

Lemma chainpack_unpack_buf_terminates_witness :
  let it := Item CPITEM_BLOB (AsBuf (BufInfo 0 5 (Z.lor CPBI_F_FIRST CPBI_F_STREAM))) None 3 in
  let s := (RFile [1; 2; 3] false, set_len 0 it, 0, CPERR_NONE) in
  ∃ k, Z.of_nat k ≤ 2 ^ 65 ∧ steps unpack_buf_step k s (inr (unpack_buf_loop s)).
Proof.
  apply (chainpack_unpack_buf_terminates _ _
    (BufInfo 0 5 (Z.lor CPBI_F_FIRST CPBI_F_STREAM))).
  - repeat constructor; by apply (bool_decide_unpack _); vm_compute.
  - by vm_compute.
  - by apply (bool_decide_unpack _); vm_compute.
  - done.
  - split; [|split]; by apply (bool_decide_unpack _); vm_compute.
Defined.

(** C15: [chainpack_pack] implements the abstract encoding [item_bytes] in its
    three modes: without a stream it returns the number of bytes, on a stream
    with room it appends exactly these bytes and returns their number, and on a
    stream that runs out of room it returns [-1] with the error indicator set,
    after which nothing is written any more. *)
Theorem chainpack_pack_refines i :
  packable i →
  let n := length (item_bytes i) in
  chainpack_pack None i = (None, Z.of_nat n) ∧
  (∀ w, wf_err w = false → roomy n w →
    chainpack_pack (Some w) i = (Some (written (item_bytes i) w), Z.of_nat n)) ∧
  (∀ w, wf_err w = false → ¬ roomy n w →
    ∃ w', chainpack_pack (Some w) i = (Some w', -1) ∧
      ∀ j, chainpack_pack (Some w') j = (Some w', -1)).
Proof.
  intros Hp n. split; [by apply chainpack_pack_null|]. split.
  - intros w He Hw. by apply chainpack_pack_room.
  - intros w He Hw. destruct (chainpack_pack_full w i Hp He Hw) as (w' & Hf & He').
    exists w'. split; [done|]. intros j. by apply chainpack_pack_sticky.
Qed.

Lemma chainpack_pack_refines_witness :
  let i := Item CPITEM_INT (AsInt (-1000000)) None 0 in
  let n := length (item_bytes i) in
  chainpack_pack None i = (None, Z.of_nat n) ∧
  (∀ w, wf_err w = false → roomy n w →
    chainpack_pack (Some w) i = (Some (written (item_bytes i) w), Z.of_nat n)) ∧
  (∀ w, wf_err w = false → ¬ roomy n w →
    ∃ w', chainpack_pack (Some w) i = (Some w', -1) ∧
      ∀ j, chainpack_pack (Some w') j = (Some w', -1)).
Proof.
  apply chainpack_pack_refines. split; [|by vm_compute].
  exists (-1000000). split; [done|]. by apply (bool_decide_unpack _); vm_compute.
Defined.

(** Unsigned numbers are packed in the shortest form the unpacker accepts:
    no sequence of bytes that unpacks to [v] is shorter than the packed one. *)
Theorem chainpack_uint_shortest v f f' n :
  urange 64 v → bytes (rf_data f) → chainpack_unpack_uint f = (f', v, n, CPERR_NONE) →
  (chainpack_pack_uint v None).2 ≤ n.
Proof.
  intros Hv Hb Hu. pose proof (unpack_uint_bound _ _ _ _ Hb Hu) as [Hn Hlt].
  destruct (chainpack_w_uint_bytes_least v Hv) as (Hk & _ & Hmin).
  rewrite pack_uint_length by done. cbn [snd].
  destruct (Z.le_gt_cases (chainpack_w_uint_bytes v) n) as [|Hgt]; [done|].
  assert (2 ^ uint_bits n ≤ 2 ^ uint_bits (chainpack_w_uint_bytes v - 1)); [|lia].
  apply Z.pow_le_mono_r; [lia|]. unfold uint_bits. destruct (Z.leb_spec n 4),
    (Z.leb_spec (chainpack_w_uint_bytes v - 1) 4); lia.
Qed.

Lemma chainpack_uint_shortest_witness :
  (chainpack_pack_uint 1000 None).2 ≤ 9.
Proof.
  apply (chainpack_uint_shortest 1000 (RFile [0xf4; 0; 0; 0; 0; 0; 0; 3; 0xe8] false) (RFile [] false)).
  - by apply (bool_decide_unpack _); vm_compute.
  - repeat constructor; by apply (bool_decide_unpack _); vm_compute.
  - by vm_compute.
Defined.

(** ** Where the code differs from its intention *)

(** [chainpack_is_uint] recognizes the scheme byte of signed numbers and not the
    one of unsigned numbers its documentation names. *)
Example chainpack_is_uint_scheme :
  chainpack_is_uint CPS_UInt = false ∧ chainpack_is_uint CPS_Int = true.
Proof. done. Qed.

(** The most negative number is the only one that takes ten bytes: the packer
    negates it and shifts its magnitude by 64 bits, both undefined in C. *)
Example chainpack_pack_int_min :
  chainpack_w_int_bytes (- 2 ^ 63) = 10 ∧
  (∀ v, srange 64 v → chainpack_w_int_bytes v = 10 → v = - 2 ^ 63).
Proof.
  split; [by vm_compute|]. intros v Hv H.
  destruct (chainpack_w_int_bytes_least v Hv) as (_ & H10 & _). by apply H10.
Qed.

(** A date before the epoch does not survive: it is decoded a second later, and
    with a zone offset the offset changes too. *)
Example datetime_before_epoch :
  let d := Datetime (CHAINPACK_EPOCH_MSEC - 1000) 0 in
  let d' := Datetime (CHAINPACK_EPOCH_MSEC - 2000) 60 in
  datetime_of_code (datetime_code d) = Datetime CHAINPACK_EPOCH_MSEC 0 ∧
  datetime_of_code (datetime_code d') = Datetime (CHAINPACK_EPOCH_MSEC - 1000) 75.
Proof. by vm_compute. Qed.

(** Two chunks of a chain that fit the buffer together: both are stored, but the
    length reported is the one of the last chunk. *)
Example blob_chain_length :
  let '(f, it, n) :=
    chainpack_unpack (RFile [CPS_BlobChain; 3; 1; 2; 3; 2; 4; 5; 0] false) sample_buffer in
  n = 9 ∧ len (as_Blob (as_ it)) = 2 ∧ buf it = Some [1; 2; 3; 4; 5; 0; 0; 0].
Proof. by vm_compute. Qed.

(** An empty chain: its terminator is taken for the length of a first chunk, so
    the unpacker goes on to read what follows the value. *)
Example blob_chain_empty :
  let i := Item CPITEM_BLOB (AsBuf (BufInfo 0 0 7)) (Some []) 0 in
  item_bytes i = [CPS_BlobChain; 0] ∧
  (chainpack_unpack (RFile (item_bytes i ++ [2; 4; 5; 0]) false) sample_buffer).1.1 =
    RFile [] false.
Proof. by vm_compute. Qed.

(** An unknown scheme byte is put back and yet counted as read. *)
Example unknown_scheme_count :
  let '(f, it, n) := chainpack_unpack (RFile [200; 5] false) sample_buffer in
  f = RFile [200; 5] false ∧ type it = CPITEM_INVALID ∧ n = 1.
Proof. by vm_compute. Qed.
