(* ===== verification/CpUnpack.v ===== *)
(** * Generic unpacker ([include/shv/cp_unpack.h], [libshvcp/cp_unpack.c])

    The rest of the code reads items through a function pointer, [cp_unpack_t].
    Here that function is a parameter [unpack] on a state [U] of its own, and
    [UnpackSpec] is what its implementation promises: tokens one by one, strings
    and blobs in blocks as large as the buffer.  The tools built on it (skipping,
    copying, duplicating) are proved against this interface; ChainPack is an
    instance of it ([chainpack_UnpackSpec]). *)

From S2P Require Import Prelude Stdio Chainpack CpItem ChainpackUnpack.

(** ** Definitions *)

(** [cp_unpack_chainpack_func] *)
Definition cp_unpack_chainpack_func (f : rfile) (it : cpitem) : rfile * cpitem :=
  let '(f', it', _) := chainpack_unpack f it in (f', it').

Section tools.
Context {U : Type} (unpack : U → cpitem → U * cpitem).

Definition cp_unpack (u : U) (it : cpitem) : U * cpitem * bool :=
  let '(u', it') := unpack u it in (u', it', negb (bool_decide (type it' = CPITEM_INVALID))).

Definition cp_unpack_type (u : U) (it : cpitem) : U * cpitem * cpitem_type :=
  let '(u', it') := unpack u it in (u', it', type it').

(** [item->buf = b; item->bufsiz = n] *)
Definition set_buffer (b : option (list Z)) (n : Z) (it : cpitem) : cpitem :=
  set_bufsiz n (set_buf b it).

Definition is_data (it : cpitem) : bool :=
  bool_decide (type it = CPITEM_STRING) || bool_decide (type it = CPITEM_BLOB).

Definition drop1_step (s : U * cpitem) : U * cpitem + U * cpitem :=
  let '(u, it) := s in
  if is_data it && negb (has (flags (as_Blob (as_ it))) CPBI_F_LAST) then inl (unpack u it)
  else inr (u, it).

(** The result of a loop of at most [2 ^ 65] rounds. *)
Definition while {St} (step : St → St + St) (s : St) : St :=
  match cloop step 65 s with inl s' => s' | inr s' => s' end.

Definition cp_unpack_drop1 (u : U) (it : cpitem) : U * cpitem :=
  let '(u', it') := while drop1_step (u, set_buffer None SIZE_MAX it) in
  (u', set_bufsiz 0 it').

(** The change of [__depth] in [for_cp_unpack_item] after an item. *)
Definition item_depth (it : cpitem) (depth : Z) : Z :=
  match type it with
  | CPITEM_BLOB | CPITEM_STRING =>
      let fl := flags (as_Blob (as_ it)) in
      let depth := if has fl CPBI_F_FIRST then i32 (depth + 1) else depth in
      if has fl CPBI_F_LAST then i32 (depth - 1) else depth
  | CPITEM_LIST | CPITEM_MAP | CPITEM_IMAP | CPITEM_META => i32 (depth + 1)
  | CPITEM_CONTAINER_END => i32 (depth - 1)
  | CPITEM_INVALID => -1
  | _ => depth
  end.

(** One round of [for_cp_unpack_item] with an empty body. *)
Definition finish_step (s : U * cpitem * Z) : U * cpitem * Z + U * cpitem * Z :=
  let '(u, it, depth) := s in
  if (0 <=? depth) && negb (bool_decide (type it = CPITEM_INVALID)) then
    let depth := item_depth it depth in
    if 0 <? depth then let '(u', it') := unpack u it in inl (u', it', depth)
    else inl (u, it, -1)
  else inr s.

Definition cp_unpack_finish (u : U) (it : cpitem) (depth : Z) : U * cpitem :=
  let '(u, it) := cp_unpack_drop1 u it in
  let '(u, it) := unpack u (set_buffer None SIZE_MAX it) in
  let '(u, it, _) := while finish_step (u, it, i32 depth) in
  (u, set_bufsiz 0 it).

Definition cp_unpack_skip (u : U) (it : cpitem) : U * cpitem := cp_unpack_finish u it 0.

Definition cp_unpack_drop (u : U) (it : cpitem) : U * cpitem :=
  match type it with
  | CPITEM_LIST | CPITEM_MAP | CPITEM_IMAP | CPITEM_META => cp_unpack_finish u it 1
  | _ => cp_unpack_drop1 u it
  end.

(** *** Scalars: [None] is the [false] that leaves the destination alone *)

Definition cp_unpack_int (t : ctype) (u : U) (it : cpitem) : U * cpitem * option Z :=
  let '(u', it') := unpack u it in (u', it', cpitem_extract_int t it').

Definition cp_unpack_uint (t : ctype) (u : U) (it : cpitem) : U * cpitem * option Z :=
  let '(u', it') := unpack u it in (u', it', cpitem_extract_uint t it').

Definition cp_unpack_bool (u : U) (it : cpitem) : U * cpitem * option bool :=
  let '(u', it') := unpack u it in (u', it', cpitem_extract_bool it').

Definition cp_unpack_datetime (u : U) (it : cpitem) : U * cpitem * option cpdatetime :=
  let '(u', it') := unpack u it in (u', it', cpitem_extract_datetime it').

Definition cp_unpack_decimal (u : U) (it : cpitem) : U * cpitem * option cpdecimal :=
  let '(u', it') := unpack u it in (u', it', cpitem_extract_decimal it').

(** *** Copies

    The destination is the memory the item points to afterwards. *)

Definition cp_unpack_getc (u : U) (it : cpitem) : U * cpitem * Z :=
  let '(u', it') := unpack u (set_buffer (Some [0]) 1 it) in
  let it' := set_bufsiz 0 it' in
  (u', it', if bool_decide (type it' = CPITEM_STRING) then cget (default [] (buf it')) 0 else -1).

Definition cp_unpack_strncpy (u : U) (it : cpitem) (dest : option (list Z)) (n : Z) :
    U * cpitem * Z :=
  let '(u', it') := unpack u (set_buffer dest n it) in
  if bool_decide (type it' = CPITEM_STRING) then
    let l := len (as_Blob (as_ it')) in
    let it' := if l <? n then buf_store l [0] it' else it' in
    (u', set_bufsiz 0 it', l)
  else (u', set_bufsiz 0 it', -1).

Definition cp_unpack_memcpy (u : U) (it : cpitem) (dest : option (list Z)) (siz : Z) :
    U * cpitem * Z :=
  let '(u', it') := unpack u (set_buffer dest siz it) in
  let it' := set_bufsiz 0 it' in
  (u', it', if bool_decide (type it' = CPITEM_BLOB) then len (as_Blob (as_ it')) else -1).

(** *** Duplicates in allocated memory

    [alloc n] says whether [realloc] to [n] bytes succeeds.  [realloc] to zero
    bytes of an existing block frees it and returns [NULL]; what is then freed
    again is [DupTwice]. *)
Inductive dup := DupNull | DupData (l : list Z) | DupTwice.

Inductive dup_state :=
  | DupGo (u : U) (it : cpitem) (res : option (list Z)) (off : Z)
  | DupDone (u : U) (it : cpitem) (r : dup).

(** [res_realloc]: [None] when the block could not be had; added bytes hold
    nothing defined (zero here). *)
Definition res_realloc (alloc : Z → bool) (n : Z) (res : option (list Z)) : option (list Z) + dup :=
  match res with
  | Some _ => if n =? 0 then inr DupTwice else
      if alloc n then inl (resize (Z.to_nat n) 0 <$> res) else inr DupNull
  | None => if alloc n then inl (Some (replicate (Z.to_nat n) 0)) else inr DupNull
  end.

Definition dup_bufsiz (off max : Z) : Z :=
  let n := Z.max off 4 in if max <? u64 (n + off) then u64 (max - off) else n.

Definition dup_step (alloc : Z → bool) (ty : cpitem_type) (max : Z) (s : dup_state) :
    dup_state + dup_state :=
  match s with
  | DupDone _ _ _ => inr s
  | DupGo u it res off =>
      let n := dup_bufsiz off max in
      match res_realloc alloc (off + n) res with
      | inr d => inr (DupDone u (set_bufsiz n it) d)
      | inl res =>
          let block := drop (Z.to_nat off) (default [] res) in
          let '(u, it) := unpack u (set_buffer (Some block) n it) in
          let res := Some (take (Z.to_nat off) (default [] res) ++ default [] (buf it)) in
          if bool_decide (type it = ty) then
            let b := as_Blob (as_ it) in
            let off := off + len b in
            if (off <? max) && negb (has (flags b) CPBI_F_LAST) then inl (DupGo u it res off)
            else inr (DupGo u it res off)
          else inr (DupDone u (set_bufsiz 0 it) DupNull)
      end
  end.

(** [sized]: the caller takes the size and no terminator is added. *)
Definition cp_unpack_dup (alloc : Z → bool) (ty : cpitem_type) (sized : bool) (max : Z)
    (u : U) (it : cpitem) : U * cpitem * dup :=
  match while (dup_step alloc ty max) (DupGo u it None 0) with
  | DupDone u it d => (u, it, d)
  | DupGo u it res off =>
      let it := set_bufsiz 0 it in
      match res_realloc alloc (if sized then off else off + 1) res with
      | inr d => (u, it, d)
      | inl res =>
          let l := take (Z.to_nat off) (default [] res) in
          (u, it, DupData (if sized then l else l ++ [0]))
      end
  end.

Definition cp_unpack_strdup alloc := cp_unpack_dup alloc CPITEM_STRING false SIZE_MAX.
Definition cp_unpack_strndup alloc n := cp_unpack_dup alloc CPITEM_STRING false n.
Definition cp_unpack_memdup alloc := cp_unpack_dup alloc CPITEM_BLOB true SIZE_MAX.
Definition cp_unpack_memndup alloc n := cp_unpack_dup alloc CPITEM_BLOB true n.
End tools.

(** ** What an unpacker promises *)

Definition data_type (blob : bool) : cpitem_type := if blob then CPITEM_BLOB else CPITEM_STRING.
Definition data_tok (blob : bool) (l : list Z) : tok := if blob then TBlob l else TString l.

Definition is_data_tok (t : tok) : bool :=
  match t with TBlob _ | TString _ => true | _ => false end.

(** [it'] was filled with the block [l1] of a string or blob in place of [it]. *)
Record block_held (blob first : bool) (l1 : list Z) (fl : Z) (it it' : cpitem) : Prop := {
  block_type : type it' = data_type blob;
  block_as : ∃ eo, as_ it' = AsBuf (BufInfo (Z.of_nat (length l1)) eo fl) ∧
    (has fl CPBI_F_LAST = true → eo = 0);
  block_first : has fl CPBI_F_FIRST = first;
  block_kept : buf_kept (set_type (data_type blob) it) it';
  block_data : match buf it' with None => True | Some m => take (length l1) m = l1 end
}.

(** Reading [l] into the buffer of [it]: as much as fits, the last block marked
    when it does not fill the buffer and never without a buffer. *)
Definition block_read {U} (pending : bool → list Z → U → cpitem → U → Prop)
    (blob first : bool) (l : list Z) (u' : U) (it : cpitem) (r : U * cpitem) : Prop :=
  ∃ l1 l2 fl,
    l = l1 ++ l2 ∧ Z.of_nat (length l1) = Z.min (Z.of_nat (length l)) (bufsiz it) ∧
    block_held blob first l1 fl it r.2 ∧
    ((Z.of_nat (length l) < bufsiz it → has fl CPBI_F_LAST = true) ∧
     (bufsiz it = 0 → has fl CPBI_F_LAST = false)) ∧
    (if has fl CPBI_F_LAST then l2 = [] ∧ r.1 = u' else pending blob l2 r.1 r.2 u').

(** [yields t u u']: the token [t] is next in [u] and [u'] is what follows it.
    [pending blob l u it u']: [it] is amid a string or blob of which [l] is left. *)
Class UnpackSpec {U : Type} (unpack : U → cpitem → U * cpitem) := {
  yields : tok → U → U → Prop;
  pending : bool → list Z → U → cpitem → U → Prop;
  unpack_scalar t u u' it :
    yields t u u' → is_data_tok t = false → ready it = true → buf_wf it →
    ∃ it', unpack u it = (u', it') ∧ holds t it' ∧ buf_kept (set_type (tok_type t) it) it';
  unpack_data blob l u u' it :
    yields (data_tok blob l) u u' → ready it = true → buf_wf it →
    block_read pending blob true l u' it (unpack u it);
  unpack_next blob l u u' it :
    pending blob l u it u' → buf_wf it → block_read pending blob false l u' it (unpack u it);
  pending_length blob l u it u' : pending blob l u it u' → Z.of_nat (length l) < 2 ^ 64 - 1;
  yields_length blob l u u' : yields (data_tok blob l) u u' → Z.of_nat (length l) < 2 ^ 64 - 1;
  pending_item blob l u it u' :
    pending blob l u it u' →
    type it = data_type blob ∧ has (flags (as_Blob (as_ it))) CPBI_F_LAST = false;
  pending_buffer blob l u it u' b n :
    pending blob l u it u' → pending blob l u (set_buffer b n it) u'
}.

(** ** Whole tokens and values *)

Definition room_for (t : tok) (it : cpitem) : Prop :=
  match t with TBlob l | TString l => Z.of_nat (length l) < bufsiz it | _ => True end.

(** A value: a single token or a container of values. *)
Inductive node := Atom (t : tok) | Cont (o : tok) (l : list node).

Fixpoint toks (n : node) : list tok :=
  match n with
  | Atom t => [t]
  | Cont o l => o :: flat_map toks l ++ [TEnd]
  end.

Definition opens (t : tok) : bool :=
  match t with TList | TMap | TIMap | TMeta => true | _ => false end.

Definition atomic (t : tok) : bool := negb (opens t) && negb (bool_decide (t = TEnd)).

Fixpoint node_wf (n : node) : bool :=
  match n with
  | Atom t => atomic t
  | Cont o l => opens o && forallb node_wf l
  end.

Fixpoint height (n : node) : Z :=
  match n with
  | Atom _ => 0
  | Cont _ l => 1 + foldr Z.max 0 (map height l)
  end.

(** Effect of a token on the depth of the reader. *)
Definition tok_depth (t : tok) (d : Z) : Z :=
  if opens t then d + 1 else if bool_decide (t = TEnd) then d - 1 else d.

(** The largest depth [for_cp_unpack_item] can count. *)
Definition DEPTH_MAX : Z := 2 ^ 31 - 2.

(** [passes d ts d']: reading [ts] goes from depth [d] to [d'], never leaving
    the range between one and the largest depth. *)
Inductive passes : Z → list tok → Z → Prop :=
  | passes_nil d : passes d [] d
  | passes_cons d t ts d' :
      0 < tok_depth t d ≤ DEPTH_MAX → passes (tok_depth t d) ts d' → passes d (t :: ts) d'.

Section yields.
Context {U : Type} (unpack : U → cpitem → U * cpitem) `{!UnpackSpec unpack}.

Fixpoint yields_list (ts : list tok) (u u' : U) : Prop :=
  match ts with
  | [] => u' = u
  | t :: ts' => ∃ u1, yields t u u1 ∧ yields_list ts' u1 u'
  end.

Lemma yields_list_app ts1 ts2 u u' :
  yields_list (ts1 ++ ts2) u u' ↔ ∃ u1, yields_list ts1 u u1 ∧ yields_list ts2 u1 u'.
Proof.
  revert u. induction ts1 as [|t ts1 IH]; intros u; simpl.
  - split; [by exists u|]. intros (u1 & -> & ?). done.
  - split.
    + intros (u1 & Hy & (u2 & H1 & H2)%IH). exists u2. split; [by exists u1|done].
    + intros (u2 & (u1 & Hy & H1) & H2). exists u1. split; [done|]. apply IH. by exists u2.
Qed.

(** A token that has room is unpacked whole. *)
Lemma unpack_whole t u u' it :
  yields t u u' → ready it = true → buf_wf it → room_for t it →
  ∃ it', unpack u it = (u', it') ∧ holds t it' ∧ buf_kept (set_type (tok_type t) it) it'.
Proof.
  intros Hy Hr Hw Hroom. destruct (is_data_tok t) eqn:Ed.
  2:{ by apply unpack_scalar. }
  assert (∃ blob l, t = data_tok blob l ∧ tok_type t = data_type blob ∧
    Z.of_nat (length l) < bufsiz it) as (blob & l & -> & -> & Hl).
  { destruct t; try done; [by exists true, l|by exists false, l]. }
  destruct (unpack_data blob l u u' it Hy Hr Hw) as (l1 & l2 & fl & Hsplit & _ & Hb & [Hlast _] & Hend).
  rewrite (Hlast Hl) in Hend. destruct Hend as [-> Hu]. rewrite app_nil_r in Hsplit. subst l1.
  destruct Hb as [Ht (eo & Ha & He) Hf Hk Hd]. specialize (He (Hlast Hl)) as ->.
  destruct (unpack u it) as [u1 it']. simpl in *. subst u1. exists it'. split; [done|].
  split; [|done]. split; [by destruct blob|].
  assert (holds_data l it') as Hh by (exists fl; split_and!; [done..|by apply Hlast|done]).
  by destruct blob.
Qed.
End yields.

(** Induction over values with the values inside a container. *)
Lemma node_ind' (P : node → Prop) :
  (∀ t, P (Atom t)) → (∀ o l, Forall P l → P (Cont o l)) → ∀ n, P n.
Proof.
  intros Ha Hc. fix IH 1. intros [t|o l]; [apply Ha|]. apply Hc.
  induction l as [|n l IHl]; constructor; [apply IH|apply IHl].
Qed.

Lemma passes_app d1 ts1 d2 ts2 d3 : passes d1 ts1 d2 → passes d2 ts2 d3 → passes d1 (ts1 ++ ts2) d3.
Proof. induction 1; intros; simpl; [done|]. constructor; auto. Qed.

Lemma atomic_depth t d : atomic t = true → tok_depth t d = d.
Proof.
  unfold atomic, tok_depth. intros [H1 H2]%andb_true_iff. apply negb_true_iff in H1, H2.
  by rewrite H1, H2.
Qed.

Lemma opens_depth t d : opens t = true → tok_depth t d = d + 1.
Proof. unfold tok_depth. by intros ->. Qed.

Lemma height_nonneg n : 0 ≤ height n.
Proof.
  destruct n; simpl; [lia|]. induction l; simpl; lia.
Qed.

Lemma height_children o l n :
  n ∈ l → height n + 1 ≤ height (Cont o l).
Proof.
  intros Hn. simpl. induction Hn as [|? ? ? ? IH]; simpl; lia.
Qed.

Lemma passes_flat_map l d : (∀ n, n ∈ l → passes d (toks n) d) → passes d (flat_map toks l) d.
Proof.
  induction l as [|n l IH]; intros Hl; simpl; [constructor|].
  apply (passes_app _ _ d); [apply Hl; left|]. apply IH. intros m Hm. apply Hl. by right.
Qed.

Lemma passes_end d : 1 < d ≤ DEPTH_MAX → passes d [TEnd] (d - 1).
Proof. intros Hd. constructor; [|constructor]. unfold tok_depth. simpl. lia. Qed.

(** Values inside an open container leave the depth as it was. *)
Lemma passes_node n d :
  node_wf n = true → 0 < d → d + height n ≤ DEPTH_MAX → passes d (toks n) d.
Proof.
  revert d. induction n as [t|o l IH] using node_ind'; intros d Hwf Hd Hh.
  - simpl in *. constructor; rewrite atomic_depth by done; [lia|constructor].
  - assert (1 ≤ height (Cont o l)).
    { simpl. clear. induction l; simpl; lia. }
    simpl in Hwf. apply andb_true_iff in Hwf as [Ho Hl]. cbn [toks].
    constructor; rewrite opens_depth by done; [lia|].
    apply (passes_app _ _ (d + 1)).
    + apply passes_flat_map. intros n Hn. pose proof (height_children o l n Hn).
      rewrite Forall_forall in IH. rewrite forallb_forall in Hl.
      apply IH; [done|by apply Hl, list_elem_of_In|lia|lia].
    + replace d with (d + 1 - 1) at 2 by lia. apply passes_end. lia.
Qed.

Definition nodes_ok (l : list node) (d : Z) : Prop :=
  ∀ n, n ∈ l → node_wf n = true ∧ d + height n ≤ DEPTH_MAX.

Lemma passes_nodes l d : 0 < d → nodes_ok l d → passes d (flat_map toks l) d.
Proof. intros Hd Hl. apply passes_flat_map. intros n Hn. by apply passes_node; [apply Hl| |apply Hl]. Qed.

(** The rest of [length gs] containers that are open, one group for each. *)
Definition closing (gs : list (list node)) : list tok :=
  flat_map (λ l, flat_map toks l ++ [TEnd]) gs.

(** The depth counter follows the tokens. *)
Lemma item_depth_holds t it d :
  holds t it → 0 ≤ d ≤ DEPTH_MAX → item_depth it d = tok_depth t d.
Proof.
  intros [Ht Hv] Hd. unfold DEPTH_MAX in Hd.
  assert (∀ x, -1 ≤ x < 2 ^ 31 → i32 x = x) as Hi.
  { intros x Hx. apply swrap_small; [lia|]. unfold srange. lia. }
  unfold item_depth, tok_depth. rewrite Ht. destruct t; cbn [tok_type opens]; try done;
    try (rewrite Hi by lia; done);
    (destruct Hv as (fl & Ha & Hf & Hl & _); rewrite Ha; cbn [as_Blob flags];
     rewrite Hf, Hl, (Hi (d + 1)), Hi by lia; case_bool_decide; [done|lia]).
Qed.

(** Reading to nowhere. *)
Definition nowhere (it : cpitem) : Prop := buf it = None ∧ bufsiz it = SIZE_MAX.

Lemma while_run {St} (step : St → St + St) k s r :
  steps step k s (inr r) → Z.of_nat k ≤ 2 ^ 65 → while step s = r.
Proof. intros Hs Hk. unfold while. by rewrite (cloop_run _ 65 k _ r). Qed.

Lemma buf_kept_nowhere it it' : nowhere it → buf_kept it it' → nowhere it'.
Proof.
  unfold nowhere, buf_kept. intros [Hb Hs] (_ & Hs' & Hb'). rewrite Hb in Hb'.
  split; [by destruct (buf it')|congruence].
Qed.

Lemma nowhere_wf it : nowhere it → buf_wf it.
Proof. intros [Hb Hs]. split; [rewrite Hs; done|by rewrite Hb]. Qed.

Section finish.
Context {U : Type} (unpack : U → cpitem → U * cpitem) `{!UnpackSpec unpack}.

Lemma nowhere_room t u u' it : yields t u u' → nowhere it → room_for t it.
Proof.
  intros Hy [_ Hs]. destruct t; try done; unfold room_for; rewrite Hs; unfold SIZE_MAX.
  - pose proof (yields_length true l u u' Hy). lia.
  - pose proof (yields_length false l u u' Hy). lia.
Qed.

Lemma unpack_nowhere t u u' it :
  yields t u u' → ready it = true → nowhere it →
  ∃ it', unpack u it = (u', it') ∧ holds t it' ∧ nowhere it'.
Proof.
  intros Hy Hr Hn.
  destruct (unpack_whole unpack t u u' it Hy Hr (nowhere_wf it Hn) (nowhere_room t u u' it Hy Hn))
    as (it' & Hu & Hh & Hk). exists it'. split; [done|]. split; [done|].
  by apply (buf_kept_nowhere (set_type (tok_type t) it)).
Qed.

Lemma finish_steps d ts1 d' tl t ts u u' it :
  passes d ts1 d' → 0 ≤ d ≤ DEPTH_MAX → tok_depth tl d' ≤ 0 → ts1 ++ [tl] = t :: ts →
  holds t it → nowhere it → yields_list unpack ts u u' →
  ∃ k it', k = (length ts + 2)%nat ∧ steps (finish_step unpack) k (u, it, d) (inr (u', it', -1)) ∧
    holds tl it' ∧ nowhere it'.
Proof.
  intros Hp. revert t ts u it. induction Hp as [d|d t0 ts1 d' Hd1 Hp IH];
    intros t ts u it Hd Htl Heq Hh Hn Hy.
  - injection Heq as <- <-. simpl in Hy. subst u'. exists 2%nat, it. split; [done|].
    split; [|done]. apply (steps_next _ _ _ (u, it, -1)); [|by apply steps_stop]. unfold finish_step.
    rewrite (item_depth_holds tl it d) by done.
    rewrite (proj2 (Z.leb_le 0 d)), (proj2 (Z.ltb_ge 0 _)) by lia.
    rewrite bool_decide_false; [done|]. destruct Hh as [-> _]. by destruct tl.
  - injection Heq as -> Hts. destruct (ts1 ++ [tl]) as [|t1 ts'] eqn:E;
      [by destruct ts1|]. subst ts. destruct Hy as (u1 & Hy1 & Hy).
    destruct (unpack_nowhere t1 u u1 it Hy1 (holds_ready _ _ Hh) Hn) as (it1 & Hu & Hh1 & Hn1).
    destruct (IH t1 ts' u1 it1 ltac:(lia) Htl eq_refl Hh1 Hn1 Hy) as (k & it' & -> & Hs & ?).
    exists (S (length ts' + 2)), it'. split; [done|]. split; [|done].
    apply (steps_next _ _ _ (u1, it1, tok_depth t d)); [|done].
    unfold finish_step. rewrite (item_depth_holds t it d) by done.
    rewrite (proj2 (Z.leb_le 0 d)), (proj2 (Z.ltb_lt 0 _)), Hu by lia.
    rewrite bool_decide_false; [done|]. destruct Hh as [-> _]. by destruct t.
Qed.
(** [at_item u it u1]: the next item starts in [u1]; [it] is done with, or amid
    a string or blob. *)
Definition at_item (u : U) (it : cpitem) (u1 : U) : Prop :=
  (ready it = true ∧ u1 = u) ∨ ∃ blob l, pending blob l u it u1.

Lemma drop1_at_item u it u1 :
  at_item u it u1 →
  ∃ it', cp_unpack_drop1 unpack u it = (u1, it') ∧ ready it' = true ∧ buf it' = None ∧ bufsiz it' = 0.
Proof.
  unfold cp_unpack_drop1. set (it0 := set_buffer None SIZE_MAX it).
  assert (∀ u it, ready it = true → drop1_step unpack (u, it) = inr (u, it)) as Hstop.
  { intros v i Hr. unfold drop1_step, is_data, ready in *.
    destruct (type i); try done; apply andb_true_iff in Hr as [_ ->]; by rewrite andb_false_r. }
  intros [[Hr ->]|(blob & l & Hp)].
  - exists (set_bufsiz 0 it0). rewrite (while_run _ 1 _ (u, it0)); [done|by constructor; apply Hstop|lia].
  - apply (pending_buffer _ _ _ _ _ None SIZE_MAX) in Hp. fold it0 in Hp.
    assert (nowhere it0) as Hn by done.
    destruct (pending_item _ _ _ _ _ Hp) as [Ht Hl].
    pose proof (pending_length _ _ _ _ _ Hp) as Hlen.
    destruct (unpack_next _ _ _ _ _ Hp (nowhere_wf _ Hn)) as (l1 & l2 & fl & _ & _ & Hb & [Hlast _] & Hend).
    rewrite (Hlast Hlen) in Hend. destruct Hend as [_ Hu].
    destruct Hb as [Ht' (eo & Ha & He) _ Hk _]. specialize (He (Hlast Hlen)) as ->.
    destruct (unpack u it0) as [u2 it2] eqn:E. cbn [fst snd] in *. subst u2.
    assert (ready it2 = true) as Hr2.
    { unfold ready. rewrite Ht', Ha. simpl. rewrite (Hlast Hlen). by destruct blob. }
    exists (set_bufsiz 0 it2). destruct (buf_kept_nowhere (set_type (data_type blob) it0) it2 Hn Hk) as [Hb2 _].
    rewrite (while_run _ 2 _ (u1, it2)); [done| |lia].
    apply (steps_next _ _ _ (u1, it2)); [|by apply steps_stop, Hstop].
    unfold drop1_step, is_data. rewrite Ht, Hl, E. by destruct blob.
Qed.

Lemma finish_at_item u it u1 u' depth d' ts1 tl :
  at_item u it u1 → passes depth ts1 d' → tok_depth tl d' ≤ 0 → 0 ≤ depth ≤ DEPTH_MAX →
  yields_list unpack (ts1 ++ [tl]) u1 u' → Z.of_nat (length ts1) < 2 ^ 64 →
  ∃ it', cp_unpack_finish unpack u it depth = (u', it') ∧ holds tl it' ∧
    buf it' = None ∧ bufsiz it' = 0.
Proof.
  intros Hat Hp Htl Hd Hy Hlen. unfold cp_unpack_finish.
  destruct (drop1_at_item u it u1 Hat) as (it1 & -> & Hr1 & _).
  destruct (ts1 ++ [tl]) as [|t ts] eqn:E; [by destruct ts1|]. destruct Hy as (u2 & Hy1 & Hy).
  destruct (unpack_nowhere t u1 u2 (set_buffer None SIZE_MAX it1) Hy1 Hr1 ltac:(done))
    as (it2 & -> & Hh2 & Hn2).
  destruct (finish_steps depth ts1 d' tl t ts u2 u' it2 Hp Hd Htl E Hh2 Hn2 Hy)
    as (k & it3 & -> & Hs & Hh3 & Hn3 & Hb3).
  rewrite swrap_small by (unfold srange, DEPTH_MAX in *; lia).
  rewrite (while_run _ _ _ _ Hs).
  - exists (set_bufsiz 0 it3). split_and!; [done|by destruct Hh3, tl|done..].
  - apply (f_equal length) in E. rewrite length_app in E. simpl in E. lia.
Qed.

Lemma skip_node u it u1 u' n :
  at_item u it u1 → node_wf n = true → height n ≤ DEPTH_MAX →
  yields_list unpack (toks n) u1 u' → Z.of_nat (length (toks n)) < 2 ^ 64 →
  ∃ it', cp_unpack_skip unpack u it = (u', it') ∧ ready it' = true ∧
    buf it' = None ∧ bufsiz it' = 0.
Proof.
  intros Hat Hwf Hh Hy Hlen. unfold cp_unpack_skip.
  assert (∃ ts1 d' tl, toks n = ts1 ++ [tl] ∧ passes 0 ts1 d' ∧ tok_depth tl d' ≤ 0)
    as (ts1 & d' & tl & E & Hp & Htl).
  { destruct n as [t|o l].
    - exists [], 0, t. split; [done|]. split; [constructor|]. by rewrite atomic_depth.
    - apply andb_true_iff in Hwf as [Ho Hl]. exists (o :: flat_map toks l), 1, TEnd.
      split; [done|]. split; [|done]. constructor; rewrite opens_depth by done; [by vm_compute|].
      apply passes_nodes; [lia|]. intros n Hn. pose proof (height_children o l n Hn).
      rewrite forallb_forall in Hl. split; [by apply Hl, list_elem_of_In|lia]. }
  rewrite E in Hy, Hlen. rewrite length_app in Hlen. simpl in Hlen.
  destruct (finish_at_item u it u1 u' 0 d' ts1 tl) as (it' & Hf & Hh' & ?); [done..|by vm_compute|done|lia|].
  exists it'. split; [done|]. split; [by eapply holds_ready|done].
Qed.

Lemma closing_passes gs k :
  (0 < length gs)%nat → k = Z.of_nat (length gs) → k ≤ DEPTH_MAX →
  Forall (λ l, nodes_ok l k) gs →
  ∃ ts1, closing gs = ts1 ++ [TEnd] ∧ passes k ts1 1.
Proof.
  revert k. induction gs as [|l gs IH]; intros k Hlen Hk Hmax Hok; simpl in *; [lia|].
  apply Forall_cons in Hok as [Hl Hok].
  assert (passes k (flat_map toks l) k) as Hpl by (apply passes_nodes; [lia|done]).
  destruct gs as [|l' gs].
  - exists (flat_map toks l). split; [by rewrite app_nil_r|]. by replace 1 with k by (simpl in *; lia).
  - destruct (IH (k - 1)) as (ts1 & E & Hp); [simpl; lia|simpl in *; lia|lia| |].
    { eapply Forall_impl; [done|]. intros l0 Hl0 n Hn. destruct (Hl0 n Hn). split; [done|lia]. }
    exists ((flat_map toks l ++ [TEnd]) ++ ts1).
    change (flat_map (λ l, flat_map toks l ++ [TEnd]) (l' :: gs)) with (closing (l' :: gs)).
    rewrite E. split; [by rewrite app_assoc|].
    eapply passes_app; [|done]. eapply passes_app; [done|]. apply passes_end. simpl in *. lia.
Qed.

Lemma finish_closing u it u1 u' gs :
  at_item u it u1 → (0 < length gs)%nat → Z.of_nat (length gs) ≤ DEPTH_MAX →
  Forall (λ l, nodes_ok l (Z.of_nat (length gs))) gs →
  yields_list unpack (closing gs) u1 u' → Z.of_nat (length (closing gs)) < 2 ^ 64 →
  ∃ it', cp_unpack_finish unpack u it (Z.of_nat (length gs)) = (u', it') ∧
    type it' = CPITEM_CONTAINER_END ∧ buf it' = None ∧ bufsiz it' = 0.
Proof.
  intros Hat Hgs Hmax Hok Hy Hlen.
  destruct (closing_passes gs _ Hgs eq_refl Hmax Hok) as (ts1 & E & Hp).
  rewrite E in Hy, Hlen. rewrite length_app in Hlen. simpl in Hlen.
  destruct (finish_at_item u it u1 u' (Z.of_nat (length gs)) 1 ts1 TEnd)
    as (it' & Hf & [Ht _] & ?); [done..|lia|done|lia|]. by exists it'.
Qed.
End finish.

(** ** Duplicates *)

Section dup.
Context {U : Type} (unpack : U → cpitem → U * cpitem) `{!UnpackSpec unpack}.

(** The data [l] is next, from its start or from the middle of it. *)
Definition data_next (blob : bool) (l : list Z) (u : U) (it : cpitem) (u' : U) : Prop :=
  (yields (data_tok blob l) u u' ∧ ready it = true) ∨ pending blob l u it u'.

(** What one call leaves behind: the data ended in [u'], or [l2] is next. *)
Definition data_left (blob last : bool) (l2 : list Z) (u : U) (it : cpitem) (u' : U) : Prop :=
  if last then l2 = [] ∧ u = u' ∧ ready it = true else pending blob l2 u it u'.

Lemma data_next_block blob l u it u' block n :
  data_next blob l u it u' → n ≤ Z.of_nat (length block) → urange 64 n →
  ∃ l1 l2 fl eo u1 it1 m1,
    unpack u (set_buffer (Some block) n it) = (u1, it1) ∧ l = l1 ++ l2 ∧
    Z.of_nat (length l1) = Z.min (Z.of_nat (length l)) n ∧ type it1 = data_type blob ∧
    as_ it1 = AsBuf (BufInfo (Z.of_nat (length l1)) eo fl) ∧ buf it1 = Some m1 ∧
    length m1 = length block ∧ take (length l1) m1 = l1 ∧
    (Z.of_nat (length l) < n → has fl CPBI_F_LAST = true) ∧
    data_left blob (has fl CPBI_F_LAST) l2 u1 it1 u'.
Proof.
  intros Hd Hblk Hn. set (it0 := set_buffer (Some block) n it).
  assert (buf_wf it0) as Hwf by (split; [done|simpl; lia]).
  assert (∃ first, block_read pending blob first l u' it0 (unpack u it0)) as (first & Hr).
  { destruct Hd as [[Hy Hr]|Hp]; [exists true; by apply unpack_data|].
    exists false. apply unpack_next; [by apply pending_buffer|done]. }
  destruct Hr as (l1 & l2 & fl & Hl & Hlen & [Ht (eo & Ha & He) _ (_ & _ & Hk) Hb] & [Hlast _] & Hend).
  destruct (unpack u it0) as [u1 it1] eqn:E. cbn [fst snd] in *. simpl in Hk.
  destruct (buf it1) as [m1|] eqn:Em; [|done]. destruct Hk as [Hlm _].
  exists l1, l2, fl, eo, u1, it1, m1. split_and!; try done.
  unfold data_left. destruct (has fl CPBI_F_LAST) eqn:El; [|done]. destruct Hend as [-> ->].
  split; [done|]. split; [done|]. unfold ready. rewrite Ht, Ha. simpl. rewrite El, (He eq_refl).
  by destruct blob.
Qed.

Lemma dup_bufsiz_spec off max :
  0 ≤ off < 2 ^ 62 → off ≤ max < 2 ^ 64 →
  let n := dup_bufsiz off max in 0 ≤ n < 2 ^ 63 ∧ off + n ≤ max ∧ (off < max → 0 < n).
Proof.
  intros Ho Hm. unfold dup_bufsiz. rewrite uwrap_small by (unfold urange; lia).
  destruct (Z.ltb_spec max (Z.max off 4 + off)); [rewrite uwrap_small by (unfold urange; lia)|]; lia.
Qed.

(** One round, with [p] read before it. *)
Lemma dup_round blob l u it u' p m max :
  data_next blob l u it u' → Z.of_nat (length p + length l) < 2 ^ 62 →
  Z.of_nat (length p) ≤ max < 2 ^ 64 →
  (m = None ∧ p = [] ∨ ∃ r, m = Some r ∧ take (length p) r = p ∧ (length p ≤ length r)%nat ∧ p ≠ []) →
  ∃ l1 l2 u1 it1 r1 last,
    l = l1 ++ l2 ∧ Z.of_nat (length (p ++ l1)) ≤ max ∧
    take (length (p ++ l1)) r1 = p ++ l1 ∧ (length (p ++ l1) ≤ length r1)%nat ∧
    (last = false → l1 = [] → max = Z.of_nat (length p)) ∧
    data_left blob last l2 u1 it1 u' ∧
    dup_step unpack (λ _, true) (data_type blob) max (DupGo u it m (Z.of_nat (length p))) =
      let s := DupGo u1 it1 (Some r1) (Z.of_nat (length (p ++ l1))) in
      if (Z.of_nat (length (p ++ l1)) <? max) && negb last then inl s else inr s.
Proof.
  intros Hd Hlen Hmax Hm. set (off := Z.of_nat (length p)).
  destruct (dup_bufsiz_spec off max) as (Hn & Hnm & Hpos); [lia..|]. set (n := dup_bufsiz off max) in *.
  assert (∃ r, res_realloc (λ _, true) (off + n) m = inl (Some r) ∧ take (length p) r = p ∧
    Z.of_nat (length r) = off + n) as (r & Hre & Hr & Hrl).
  { destruct Hm as [[-> ->]|(r & -> & Htk & Hle & Hne)].
    - eexists. split; [done|]. rewrite length_replicate. simpl in *. split; [done|lia].
    - unfold res_realloc. destruct (Z.eqb_spec (off + n) 0); [destruct p; simpl in *; [done|lia]|].
      eexists. split; [done|]. rewrite length_resize. split; [|lia].
      rewrite take_resize_le by lia. by rewrite resize_le. }
  destruct (data_next_block blob l u it u' (drop (length p) r) n Hd)
    as (l1 & l2 & fl & eo & u1 & it1 & m1 & Hu & Hl & Hl1 & Ht & Ha & Hb & Hml & Htk & Hlast & Hleft);
    [rewrite length_drop; lia|unfold urange; lia|]. rewrite length_drop in Hml.
  assert (take (length (p ++ l1)) (p ++ m1) = p ++ l1) as Htk1.
  { by rewrite length_app, take_app_add, Htk. }
  exists l1, l2, u1, it1, (p ++ m1), (has fl CPBI_F_LAST). rewrite Hl, !length_app in *.
  split_and!; [done|lia|done|lia| |done|].
  - intros El ->. simpl in *. destruct (Z.lt_ge_cases off max); [|lia].
    destruct l2; simpl in *; [|lia]. rewrite Hlast in El by lia. done.
  - unfold dup_step. fold n. rewrite Hre. unfold off. rewrite Nat2Z.id. cbn [default from_option id].
    rewrite Hu, Hb, Hr, Ha, bool_decide_true by done. cbn. rewrite Nat2Z.inj_add. done.
Qed.
Lemma data_left_at_item blob last l u it u' : data_left blob last l u it u' → at_item unpack u it u'.
Proof.
  destruct last; [intros (_ & -> & ?); by left|]. intros Hp. right. by exists blob, l.
Qed.

(** The whole loop: all of the data, or as much of it as was asked for. *)
Lemma dup_loop blob l u it u' p m max :
  data_next blob l u it u' → Z.of_nat (length p + length l) < 2 ^ 62 →
  Z.of_nat (length p) ≤ max < 2 ^ 64 →
  (m = None ∧ p = [] ∨ ∃ r, m = Some r ∧ take (length p) r = p ∧ (length p ≤ length r)%nat ∧ p ≠ []) →
  ∃ k u1 it1 r1 q,
    (k ≤ length l + 1)%nat ∧ q = take (Z.to_nat max - length p) l ∧
    take (length (p ++ q)) r1 = p ++ q ∧ (length (p ++ q) ≤ length r1)%nat ∧
    at_item unpack u1 it1 u' ∧ (Z.of_nat (length p + length l) < max → ready it1 = true ∧ u1 = u') ∧
    steps (dup_step unpack (λ _, true) (data_type blob) max) k (DupGo u it m (Z.of_nat (length p)))
      (inr (DupGo u1 it1 (Some r1) (Z.of_nat (length (p ++ q))))).
Proof.
  remember (length l) as n eqn:En. revert l u it p m En.
  induction n as [n IH] using lt_wf_ind. intros l u it p m En Hd Hlen Hmax Hm. subst n.
  destruct (dup_round blob l u it u' p m max Hd Hlen Hmax Hm)
    as (l1 & l2 & u1 & it1 & r1 & last & -> & Hle & Htk & Hr1 & Hprog & Hleft & Hstep).
  rewrite length_app in Hlen. pose proof (data_left_at_item _ _ _ _ _ _ Hleft) as Hat.
  destruct ((Z.of_nat (length (p ++ l1)) <? max) && negb last) eqn:Ego; cbv zeta in Hstep.
  - apply andb_true_iff in Ego as [Hlt Hnl]. apply Z.ltb_lt in Hlt. apply negb_true_iff in Hnl.
    subst last. simpl in Hleft. rewrite length_app in Hlt.
    assert (l1 ≠ []) as Hne by (intros ->; specialize (Hprog eq_refl eq_refl); simpl in *; lia).
    assert (0 < length l1)%nat by (destruct l1; simpl in *; [done|lia]).
    destruct (IH (length l2)) with l2 u1 it1 (p ++ l1) (Some r1)
      as (k & u2 & it2 & r2 & q & Hk & Hq & Htk2 & Hr2 & Hat2 & Hend & Hs);
      [rewrite length_app; lia|done|by right|rewrite length_app; lia|rewrite length_app; lia| |].
    { right. exists r1. split_and!; [done..|]. intros [-> ->]%app_nil. done. }
    exists (S k), u2, it2, r2, (l1 ++ q). rewrite !length_app in *.
    rewrite app_assoc, !Nat.add_assoc. split_and!; [lia| |done|done|done| |].
    + rewrite take_app_ge by lia. rewrite Hq. do 2 f_equal. lia.
    + intros. apply Hend. lia.
    + by econstructor.
  - apply andb_false_iff in Ego.
    exists 1%nat, u1, it1, r1, l1. rewrite !length_app in *.
    split_and!; [lia| |done|done|done| |by constructor].
    + destruct last.
      * destruct Hleft as [-> _]. rewrite app_nil_r. symmetry. apply take_ge. lia.
      * destruct Ego as [Hge%Z.ltb_ge|?]; [|done].
        replace (Z.to_nat max - length p)%nat with (length l1) by lia. by rewrite take_app_length.
    + intros Hlt. destruct Ego as [Hge%Z.ltb_ge|Hl%negb_false_iff]; [lia|]. subst last.
      destruct Hleft as (_ & -> & ?). done.
Qed.
Lemma dup_spec blob sized l u it u' max :
  data_next blob l u it u' → Z.of_nat (length l) < 2 ^ 62 → urange 64 max →
  let q := take (Z.to_nat max) l in
  ∃ u1 it1,
    cp_unpack_dup unpack (λ _, true) (data_type blob) sized max u it =
      (u1, it1, if sized then match q with [] => DupTwice | _ => DupData q end
                else DupData (q ++ [0])) ∧
    at_item unpack u1 it1 u' ∧
    (Z.of_nat (length l) < max → ready it1 = true ∧ u1 = u') ∧ bufsiz it1 = 0.
Proof.
  intros Hd Hlen Hmax q. unfold urange in Hmax.
  destruct (dup_loop blob l u it u' [] None max Hd) as
    (k & u1 & it1 & r1 & q' & Hk & Hq & Htk & Hr & Hat & Hend & Hs); [simpl in *; lia..|by left|].
  rewrite Nat.sub_0_r in Hq. fold q in Hq. subst q'. cbn [app length Nat.add] in *.
  unfold cp_unpack_dup. change (Z.of_nat 0) with 0 in Hs. rewrite (while_run _ _ _ _ Hs) by lia.
  exists u1, (set_bufsiz 0 it1). split.
  - unfold res_realloc. destruct sized.
    + clearbody q. destruct q as [|c q]; [done|].
      destruct (Z.eqb_spec (Z.of_nat (length (c :: q))) 0); [done|].
      cbn [fmap option_fmap option_map default from_option id]. rewrite Nat2Z.id.
      rewrite resize_le, Htk, take_ge by (done || lia). done.
    + destruct (Z.eqb_spec (Z.of_nat (length q) + 1) 0); [lia|].
      cbn [fmap option_fmap option_map default from_option id]. rewrite Nat2Z.id.
      by rewrite take_resize_le, resize_le, Htk by lia.
  - split_and!; [|done|done]. destruct Hat as [[Hr' ->]|(b & l' & Hp)]; [by left|].
    right. exists b, l'. by apply (pending_buffer _ _ _ _ _ (buf it1) 0) in Hp.
Qed.
(** ** Copies to a buffer of the caller *)

Lemma strncpy_spec l u it u' dest n :
  data_next false l u it u' → urange 64 n → n ≤ Z.of_nat (length dest) →
  let q := take (Z.to_nat n) l in
  ∃ u1 it1 m,
    cp_unpack_strncpy unpack u it (Some dest) n = (u1, it1, Z.of_nat (length q)) ∧
    buf it1 = Some m ∧ length m = length dest ∧ take (length q) m = q ∧
    drop (Z.to_nat n) m = drop (Z.to_nat n) dest ∧
    (Z.of_nat (length l) < n → m !! length l = Some 0 ∧ ready it1 = true ∧ u1 = u') ∧
    at_item unpack u1 it1 u'.
Proof.
  intros Hd Hn Hdest q. set (it0 := set_buffer (Some dest) n it). unfold urange in Hn.
  assert (buf_wf it0) as Hwf by (split; [done|simpl; lia]).
  assert (∃ first, block_read pending false first l u' it0 (unpack u it0)) as (first & Hr).
  { destruct Hd as [[Hy Hr]|Hp]; [exists true; by apply unpack_data|].
    exists false. apply unpack_next; [by apply pending_buffer|done]. }
  destruct Hr as (l1 & l2 & fl & Hl & Hlen & Hb & [Hlast _] & Hend).
  unfold cp_unpack_strncpy. fold it0. destruct (unpack u it0) as [u1 it1] eqn:E. cbn [fst snd] in *.
  pose proof Hb as [Ht (eo & Ha & He) _ (_ & _ & Hk) Hbd]. simpl in Hk, Hlen, Hlast.
  destruct (buf it1) as [m|] eqn:Em; [|done]. destruct Hk as [Hml Hmd].
  assert (q = l1) as Hq.
  { unfold q. rewrite Hl. rewrite length_app in Hlen || rewrite Hl, length_app in Hlen.
    destruct (decide (l2 = [])) as [->|Hne].
    - rewrite app_nil_r. apply take_ge. simpl in *. lia.
    - assert (0 < length l2)%nat by (destruct l2; simpl; [done|lia]).
      replace (Z.to_nat n) with (length l1) by lia. apply take_app_length. }
  rewrite Hq, Ht, bool_decide_true by done. rewrite Ha. cbn [as_Blob len].
  assert (at_item unpack u1 it1 u') as Hat.
  { destruct (has fl CPBI_F_LAST) eqn:El; [destruct Hend as [_ ->]; left|right; by eexists _, _].
    split; [|done]. unfold ready. rewrite Ht, Ha. simpl. by rewrite El, (He eq_refl). }
  assert (∀ b k, at_item unpack u1 (set_buffer b k it1) u') as Hat'.
  { intros b k. destruct Hat as [?|(bl & l' & Hp)]; [by left|]. right. exists bl, l'.
    by apply pending_buffer. }
  destruct (Z.ltb_spec (Z.of_nat (length l1)) n) as [Hlt|Hge].
  - exists u1, (set_bufsiz 0 (buf_store (Z.of_nat (length l1)) [0] it1)), (<[length l1:=0]> m).
    unfold buf_store. rewrite Em. cbn [fmap option_fmap option_map]. rewrite Nat2Z.id.
    rewrite length_insert, take_insert_ge, drop_insert_lt by lia.
    split_and!; try done; [|apply Hat'].
    intros Hll. assert (l1 = l) as ->.
    { rewrite Hl. assert (length l2 = 0)%nat; [|destruct l2; [by rewrite app_nil_r|done]].
      rewrite Hl, length_app in Hlen, Hll. lia. }
    split; [apply list_lookup_insert_eq; lia|]. specialize (Hlast Hll). rewrite Hlast in Hend.
    destruct Hend as [_ ->]. split; [|done]. unfold ready. simpl. rewrite Ht, Ha. simpl.
    by rewrite Hlast, (He Hlast).
  - exists u1, (set_bufsiz 0 it1), m. split_and!; try done; [lia|].
    exact (Hat' (buf it1) 0).
Qed.
End dup.
