(* ===== verification/CpUnpackChainpack.v ===== *)
(** * ChainPack as a generic unpacker

    [chainpack_unpack] keeps the promises of [UnpackSpec]: tokens in their
    encoding, strings also as C strings, are delivered one by one and in blocks
    of the size of the buffer.  With it the tools of [CpUnpack] are functions on
    ChainPack streams. *)

From S2P Require Import Prelude Stdio Chainpack CpItem ChainpackPack ChainpackUnpack.
From S2P Require Import ChainpackRoundtrip CpUnpack.

(** ** Definitions *)

Definition nonzero : list Z → Prop := Forall (λ b, 0 < b < 256).

(** The byte sequences that stand for a token. *)
Definition encodes (t : tok) (bs : list Z) : Prop :=
  (tok_wf t ∧ bs = tok_bytes t) ∨
  (∃ l, t = TString l ∧ Z.of_nat (length l) < 2 ^ 63 ∧ nonzero l ∧ bs = CPS_CString :: l ++ [0]).

Definition cp_yields (t : tok) (f f' : rfile) : Prop :=
  ∃ bs, encodes t bs ∧ f = RFile (bs ++ rf_data f') (rf_fail f').

(** The rest of a string or blob: counted by [eoff], or up to the terminator. *)
Definition cp_pending (blob : bool) (l : list Z) (f : rfile) (it : cpitem) (f' : rfile) : Prop :=
  ∃ k eo fl, as_ it = AsBuf (BufInfo k eo fl) ∧ type it = data_type blob ∧
    has fl CPBI_F_LAST = false ∧ urange 8 fl ∧ Z.of_nat (length l) < 2 ^ 63 ∧
    ((has fl CPBI_F_STREAM = false ∧ eo = Z.of_nat (length l) ∧
      f = RFile (l ++ rf_data f') (rf_fail f')) ∨
     (has fl CPBI_F_STREAM = true ∧ blob = false ∧ eo = 0 ∧ nonzero l ∧
      f = RFile (l ++ 0 :: rf_data f') (rf_fail f'))).

(** ** Flags *)

Lemma has_lor_last fl :
  has (Z.lor fl CPBI_F_LAST) CPBI_F_LAST = true ∧
  has (Z.lor fl CPBI_F_LAST) CPBI_F_FIRST = has fl CPBI_F_FIRST ∧
  has (Z.lor fl CPBI_F_LAST) CPBI_F_STREAM = has fl CPBI_F_STREAM.
Proof.
  pose proof (λ v, has_pow2 v 0 ltac:(lia)) as H0. pose proof (λ v, has_pow2 v 1 ltac:(lia)) as H1.
  pose proof (λ v, has_pow2 v 2 ltac:(lia)) as H2.
  change (2 ^ 0) with 1 in H0. change (2 ^ 1) with 2 in H1. change (2 ^ 2) with 4 in H2.
  unfold CPBI_F_LAST, CPBI_F_FIRST, CPBI_F_STREAM. rewrite !H0, !H1, !H2, !Z.lor_spec.
  split_and!; cbn; by rewrite ?orb_false_r, ?orb_true_r.
Qed.

Lemma has_ldiff_first fl :
  has (Z.ldiff fl CPBI_F_FIRST) CPBI_F_FIRST = false ∧
  has (Z.ldiff fl CPBI_F_FIRST) CPBI_F_LAST = has fl CPBI_F_LAST ∧
  has (Z.ldiff fl CPBI_F_FIRST) CPBI_F_STREAM = has fl CPBI_F_STREAM.
Proof.
  pose proof (λ v, has_pow2 v 0 ltac:(lia)) as H0. pose proof (λ v, has_pow2 v 1 ltac:(lia)) as H1.
  pose proof (λ v, has_pow2 v 2 ltac:(lia)) as H2.
  change (2 ^ 0) with 1 in H0. change (2 ^ 1) with 2 in H1. change (2 ^ 2) with 4 in H2.
  unfold CPBI_F_LAST, CPBI_F_FIRST, CPBI_F_STREAM. rewrite !H0, !H1, !H2, !Z.ldiff_spec.
  split_and!; cbn; by rewrite ?andb_true_r, ?andb_false_r.
Qed.

(** ** C strings *)

(** The bytes up to the terminator, or as many as fit. *)
Definition cstring_item (it : cpitem) (i : Z) (l : list Z) (last : bool) : cpitem :=
  let b := as_Blob (as_ it) in
  Item (type it)
    (AsBuf (BufInfo (i + Z.of_nat (length l)) (eoff b)
      (if last then Z.lor (flags b) CPBI_F_LAST else flags b)))
    (list_inserts (Z.to_nat i) l <$> buf it) (bufsiz it).

Lemma inserts_insert i j (l m : list Z) c :
  (i < j)%nat → list_inserts j l (<[i:=c]> m) = <[i:=c]> (list_inserts j l m).
Proof.
  revert j. induction l as [|x l IH]; intros j Hj; simpl; [done|].
  by rewrite IH, list_insert_insert_ne by lia.
Qed.

Lemma unpack_cstring_app l1 l2 d i it b :
  0 ≤ i → nonzero (l1 ++ l2) → as_ it = AsBuf b →
  Z.of_nat (length l1) = Z.min (Z.of_nat (length (l1 ++ l2))) (bufsiz it - i) →
  let last := i + Z.of_nat (length (l1 ++ l2)) <? bufsiz it in
  unpack_cstring (l1 ++ l2 ++ 0 :: d) i it =
    (if last then d else l2 ++ 0 :: d, cstring_item it i l1 last,
     i + Z.of_nat (length l1) + (if last then 1 else 0), CPERR_NONE).
Proof.
  revert i it. induction l1 as [|c l1 IH]; intros i it Hi Hnz Ha Hl last.
  - simpl in Hl. unfold last. cbn [app length]. unfold cstring_item, set_len, set_flags. rewrite Ha.
    destruct l2 as [|c l2]; simpl in *.
    + rewrite !Z.add_0_r. destruct (Z.ltb_spec i (bufsiz it)); simpl; rewrite ?Z.add_0_r;
        do 3 f_equal; destruct it as [? ? [m|] ?]; simpl in *; by rewrite ?Ha.
    + destruct (Z.ltb_spec i (bufsiz it)); [lia|].
      destruct (Z.ltb_spec (i + Z.of_nat (S (length l2))) (bufsiz it)); [lia|].
      rewrite !Z.add_0_r. do 3 f_equal. destruct it as [? ? [m|] ?]; simpl in *; by rewrite ?Ha.
  - simpl in Hnz. apply Forall_cons in Hnz as [Hc Hnz]. cbn [app length] in *.
    cbn [unpack_cstring]. destruct (Z.ltb_spec i (bufsiz it)); [|lia].
    destruct (Z.eqb_spec c 0); [lia|].
    rewrite (IH (i + 1) (buf_store i [c] it)); [|lia|done|done|simpl; lia].
    unfold last. cbn [buf_store set_buf bufsiz].
    replace (i + 1 + Z.of_nat (length (l1 ++ l2))) with (i + Z.of_nat (S (length (l1 ++ l2)))) by lia.
    do 2 f_equal; [|lia]. f_equal. unfold cstring_item, buf_store. simpl.
    f_equal; [do 2 f_equal; lia|]. destruct (buf it) as [m|]; simpl; [|done]. f_equal.
    replace (Z.to_nat (i + 1)) with (S (Z.to_nat i)) by lia. by rewrite inserts_insert by lia.
Qed.

(** ** Blocks *)

Lemma take_min {A} (l : list A) n :
  0 ≤ n → Z.of_nat (length (take (Z.to_nat n) l)) = Z.min (Z.of_nat (length l)) n.
Proof. intros Hn. rewrite length_take. lia. Qed.

(** [block_held] in terms of the state before and the item filled. *)
Lemma block_held_intro blob l1 k eo fl it it1 it' :
  as_ it' = AsBuf (BufInfo k eo fl) → k = Z.of_nat (length l1) →
  (has fl CPBI_F_LAST = true → eo = 0) → type it' = data_type blob →
  buf_kept (set_type (data_type blob) it) it1 → buf_kept it1 it' →
  match buf it' with None => True | Some m => take (length l1) m = l1 end →
  block_held blob (has fl CPBI_F_FIRST) l1 fl it it'.
Proof.
  intros Ha -> He Ht Hk1 Hk Hd. split; [done|by exists eo|done|by eapply buf_kept_trans|done].
Qed.

(** The data of a counted string or blob: what is stored and what is left. *)
Lemma call_buf_counted_eq l d e it k fl res :
  let n := Z.to_nat (bufsiz it) in
  as_ it = AsBuf (BufInfo k (Z.of_nat (length l)) fl) → has fl CPBI_F_STREAM = false →
  0 < bufsiz it < 2 ^ 64 →
  call_buf (RFile (l ++ d) e) it res =
    (RFile (drop n l ++ d) e, block_item it (take n l) (drop n l) fl,
     res + Z.of_nat (length (take n l))).
Proof.
  intros n Ha Hs Hsz. unfold call_buf. rewrite <-(take_drop n l) at 1. rewrite <-app_assoc.
  rewrite (unpack_buf_block _ (drop n l) _ _ it k fl); [by rewrite bool_decide_true| |done|done|].
  - by rewrite <-length_app, take_drop.
  - rewrite <-length_app, take_drop. unfold n. rewrite take_min by lia. done.
Qed.

Lemma call_buf_counted blob l f' it it0 k fl res :
  as_ it = AsBuf (BufInfo k (Z.of_nat (length l)) fl) → type it = data_type blob →
  has fl CPBI_F_STREAM = false → has fl CPBI_F_LAST = false → urange 8 fl →
  Z.of_nat (length l) < 2 ^ 63 →
  buf_wf it → buf_kept (set_type (data_type blob) it0) it → bufsiz it = bufsiz it0 →
  block_read cp_pending blob (has fl CPBI_F_FIRST) l f' it0
    (let '(f1, it1, _) := call_buf (RFile (l ++ rf_data f') (rf_fail f')) it res in (f1, it1)).
Proof.
  intros Ha Ht Hs Hlst Hfl Hlen Hw Hk Hbs. pose proof Hw as [Hsz Hm]. unfold urange in Hsz.
  destruct (Z.eq_dec (bufsiz it) 0) as [Hz|Hnz].
  - unfold call_buf, chainpack_unpack_buf. rewrite Hz. cbn. exists [], l, fl.
    rewrite <-Hbs, Hz. split; [done|]. split; [simpl; lia|]. unfold set_len. rewrite Ha. cbn.
    split; [|split; [split; [lia|done]|]].
    + eapply block_held_intro; [done|done| |done|done|exact (buf_kept_refl it)|].
      2: { simpl. by destruct (buf it). }
      by rewrite Hlst.
    + rewrite Hlst. exists 0, (Z.of_nat (length l)), fl. auto 10.
  - rewrite (call_buf_counted_eq l _ _ it k fl) by (done || lia).
    set (l1 := take _ l). set (l2 := drop _ l).
    assert (l = l1 ++ l2) as Hsp by (symmetry; apply take_drop).
    assert (Z.of_nat (length l1) = Z.min (Z.of_nat (length l)) (bufsiz it)) as Hl1
      by (apply take_min; lia).
    exists l1, l2, (block_flags fl l2). rewrite <-Hbs.
    destruct (has_lor_last fl) as (HL & HF & HS).
    destruct (block_item_data l1 l2 fl it Hw ltac:(lia)) as [Hk1 Hd1].
    assert (has fl CPBI_F_FIRST = has (block_flags fl l2) CPBI_F_FIRST) as -> by (by destruct l2).
    assert (length l = length l1 + length l2)%nat as Hadd by (by rewrite Hsp, length_app).
    split; [done|]. split; [done|]. split; [|split].
    + eapply block_held_intro; [done|done| |done|done|done|done].
      destruct l2; [done|]. cbn. by rewrite Hlst.
    + split; [|lia]. intros Hlt. assert (length l2 = 0)%nat by lia. by destruct l2.
    + destruct l2 as [|c l2']; cbn [block_flags]; [by rewrite HL; destruct f'|]. rewrite Hlst.
      eexists _, _, _. split; [done|]. cbn. rewrite Hlst.
      cbn in *. split; [done|]. split; [done|]. split; [done|]. split; [lia|by left].
Qed.

(** The data of a C string. *)
Lemma call_buf_cstring_eq l d e it k fl res :
  let n := Z.to_nat (bufsiz it) in
  let last := Z.of_nat (length l) <? bufsiz it in
  as_ it = AsBuf (BufInfo k 0 fl) → type it = CPITEM_STRING → has fl CPBI_F_STREAM = true →
  nonzero l → urange 64 (bufsiz it) →
  call_buf (RFile (l ++ 0 :: d) e) it res =
    (RFile (if last then d else drop n l ++ 0 :: d) e, cstring_item it 0 (take n l) last,
     res + (Z.of_nat (length (take n l)) + (if last then 1 else 0))).
Proof.
  intros n last Ha Ht Hs Hnz Hsz. unfold urange in Hsz.
  assert (Z.of_nat (length (take n l)) = Z.min (Z.of_nat (length l)) (bufsiz it)) as Hl1
    by (apply take_min; lia).
  unfold call_buf, chainpack_unpack_buf. destruct (Z.eqb_spec (bufsiz it) 0) as [Hz|].
  - unfold last, n, cstring_item, set_len. rewrite Hz, Ha. cbn.
    destruct (Z.ltb_spec (Z.of_nat (length l)) 0); [lia|]. do 3 f_equal.
    unfold set_bufinfo, set_as. rewrite <-Hz. destruct (buf it); by rewrite ?Hz.
  - rewrite Ha, Ht. cbn [as_Blob flags]. rewrite Hs. cbn [andb].
    rewrite bool_decide_true by done. cbn [rf_data rf_fail].
    pose proof (unpack_cstring_app (take n l) (drop n l) d 0 it (BufInfo k 0 fl)) as Hc.
    rewrite take_drop, Z.sub_0_r, Z.add_0_l in Hc.
    rewrite <-(take_drop n l) at 1. rewrite <-app_assoc, Hc by (done || lia).
    rewrite bool_decide_true by done. by rewrite Z.add_0_l.
Qed.

Lemma call_buf_cstring l f' it it0 k fl res :
  as_ it = AsBuf (BufInfo k 0 fl) → type it = CPITEM_STRING →
  has fl CPBI_F_STREAM = true → has fl CPBI_F_LAST = false → urange 8 fl →
  Z.of_nat (length l) < 2 ^ 63 →
  nonzero l → buf_wf it → buf_kept (set_type CPITEM_STRING it0) it → bufsiz it = bufsiz it0 →
  block_read cp_pending false (has fl CPBI_F_FIRST) l f' it0
    (let '(f1, it1, _) := call_buf (RFile (l ++ 0 :: rf_data f') (rf_fail f')) it res in (f1, it1)).
Proof.
  intros Ha Ht Hs Hlst Hfl Hlen Hnz Hw Hk Hbs. pose proof Hw as [Hsz Hm].
  rewrite (call_buf_cstring_eq l _ _ it k fl) by done. unfold urange in Hsz.
  set (l1 := take _ l). set (l2 := drop _ l). set (last := _ <? _).
  assert (l = l1 ++ l2) as Hsp by (symmetry; apply take_drop).
  assert (Z.of_nat (length l1) = Z.min (Z.of_nat (length l)) (bufsiz it)) as Hl1 by (apply take_min; lia).
  exists l1, l2. destruct (has_lor_last fl) as (HL & HF & HS). rewrite <-Hbs.
  pose proof (block_item_data l1 l2 fl it Hw ltac:(lia)) as [Hk1 Hd1].
  assert (as_ (cstring_item it 0 l1 last) = AsBuf (BufInfo (Z.of_nat (length l1)) 0
    (if last then Z.lor fl CPBI_F_LAST else fl))) as Ha1.
  { unfold cstring_item. rewrite Ha. simpl. by rewrite Z.add_0_l. }
  exists (if last then Z.lor fl CPBI_F_LAST else fl).
  assert (has fl CPBI_F_FIRST = has (if last then Z.lor fl CPBI_F_LAST else fl) CPBI_F_FIRST) as ->
    by (by destruct last).
  assert (length l = length l1 + length l2)%nat as Hadd by (by rewrite Hsp, length_app).
  split; [done|]. split; [done|]. split; [|split].
  - eapply block_held_intro; [exact Ha1|done|done|done|done|exact Hk1|exact Hd1].
  - split; [intros Hlt; unfold last; by rewrite (proj2 (Z.ltb_lt _ _)) by done|].
    intros Hz. unfold last. by rewrite (proj2 (Z.ltb_ge _ _)) by lia.
  - cbn [fst snd]. destruct last eqn:El; unfold last in El.
    + apply Z.ltb_lt in El. rewrite HL. split; [apply length_zero_iff_nil; lia|by destruct f'].
    + rewrite Hlst. eexists _, _, _. split; [exact Ha1|]. rewrite Hlst.
      rewrite Hsp in Hnz. apply Forall_app in Hnz as [_ Hnz2].
      split; [done|]. split; [done|]. split; [done|]. split; [lia|by right].
Qed.

(** ** The instance *)

Lemma chainpack_scalar t f f' it :
  cp_yields t f f' → is_data_tok t = false → ready it = true → buf_wf it →
  ∃ it', cp_unpack_chainpack_func f it = (f', it') ∧ holds t it' ∧
    buf_kept (set_type (tok_type t) it) it'.
Proof.
  intros (bs & He & ->) Hd Hr Hw. destruct He as [[Hwf ->]|(l & -> & _)]; [|done].
  destruct (unpack_tok t (rf_data f') (rf_fail f') it Hwf) as (it' & Hu & Hh & Hk); [by destruct t|done..|].
  exists it'. unfold cp_unpack_chainpack_func. rewrite Hu. by destruct f'.
Qed.

Lemma chainpack_data blob l f f' it :
  cp_yields (data_tok blob l) f f' → ready it = true → buf_wf it →
  block_read cp_pending blob true l f' it (cp_unpack_chainpack_func f it).
Proof.
  intros (bs & He & ->) Hr Hw. unfold cp_unpack_chainpack_func.
  destruct He as [[Hwf ->]|(l' & Hl & Hlen & Hnz & ->)].
  - assert (Z.of_nat (length l) < 2 ^ 63) as Hlen by (by destruct blob, Hwf).
    destruct blob; cbn [data_tok tok_bytes app]; rewrite unpack_first by done;
      unfold unpack_scheme; cbn -[call_buf app]; rewrite <-app_assoc;
      rewrite unpack_uint_bytes by (unfold urange; lia); cbn -[call_buf app].
    + by apply (call_buf_counted true l f' _ it 0 CPBI_F_FIRST);
        [done..|by apply (bool_decide_unpack _)|done|done|exact (buf_kept_refl (set_type CPITEM_BLOB it))|done].
    + by apply (call_buf_counted false l f' _ it 0 CPBI_F_FIRST);
        [done..|by apply (bool_decide_unpack _)|done|done|exact (buf_kept_refl (set_type CPITEM_STRING it))|done].
  - destruct blob; [done|]. injection Hl as <-. cbn [app]. rewrite unpack_first by done.
    unfold unpack_scheme; cbn -[call_buf app]. rewrite <-app_assoc. cbn [app].
    by apply (call_buf_cstring l f' _ it 0 (Z.lor CPBI_F_FIRST CPBI_F_STREAM));
      [done..|by apply (bool_decide_unpack _)|done|done|done|exact (buf_kept_refl (set_type CPITEM_STRING it))|done].
Qed.

(** An item amid its data goes on with it. *)
Lemma chainpack_continue blob f it k eo fl :
  as_ it = AsBuf (BufInfo k eo fl) → type it = data_type blob → has fl CPBI_F_LAST = false →
  chainpack_unpack f it = call_buf f (set_flags (Z.ldiff fl CPBI_F_FIRST) it) 0.
Proof.
  intros Ha Ht Hlst. unfold chainpack_unpack.
  assert (common_unpack it = false) as -> by (unfold common_unpack; rewrite Ht; by destruct blob).
  assert (continues it = true) as ->; [|by rewrite Ha].
  unfold continues. rewrite Ht, Ha. simpl. rewrite Hlst. destruct blob; simpl; by rewrite orb_true_r.
Qed.

Lemma chainpack_next blob l f f' it :
  cp_pending blob l f it f' → buf_wf it →
  block_read cp_pending blob false l f' it (cp_unpack_chainpack_func f it).
Proof.
  intros (k & eo & fl & Ha & Ht & Hlst & Hfl & Hlen & Hcase) Hw.
  unfold cp_unpack_chainpack_func. rewrite (chainpack_continue blob f it k eo fl) by done.
  destruct (has_ldiff_first fl) as (HF & HL & HS).
  rewrite <-HL in Hlst. rewrite <-HS in Hcase. set (fl' := Z.ldiff fl CPBI_F_FIRST) in *.
  assert (urange 8 fl') as Hfl' by (by apply urange_ldiff).
  assert (as_ (set_flags fl' it) = AsBuf (BufInfo k eo fl')) as Ha'
    by (unfold set_flags; by rewrite Ha).
  assert (buf_kept (set_type (data_type blob) it) (set_flags fl' it)) as Hk.
  { rewrite <-Ht. exact (buf_kept_refl (set_type (type it) it)). }
  destruct Hcase as [(Hs & -> & ->)|(Hs & -> & -> & Hnz & ->)].
  - pose proof (call_buf_counted blob l f' _ it k fl' 0 Ha' Ht Hs Hlst Hfl' Hlen Hw Hk eq_refl) as H.
    by rewrite HF in H.
  - pose proof (call_buf_cstring l f' _ it k fl' 0 Ha' Ht Hs Hlst Hfl' Hlen Hnz Hw Hk eq_refl) as H.
    by rewrite HF in H.
Qed.

#[export] Program Instance chainpack_UnpackSpec : UnpackSpec cp_unpack_chainpack_func := {
  yields := cp_yields;
  pending := cp_pending
}.
Next Obligation. exact chainpack_scalar. Qed.
Next Obligation. exact chainpack_data. Qed.
Next Obligation. exact chainpack_next. Qed.
Next Obligation. intros blob l f it f' (k & eo & fl & _ & _ & _ & _ & ? & _). lia. Qed.
Next Obligation.
  intros blob l f f' (bs & [[Hwf _]|(l' & Hl & ? & _)] & _).
  - destruct blob, Hwf; lia.
  - destruct blob; [done|]. injection Hl as ->. lia.
Qed.
Next Obligation.
  intros blob l f it f' (k & eo & fl & Ha & Ht & Hl & _). split; [done|]. by rewrite Ha.
Qed.
Next Obligation. intros blob l f it f' b n Hp. exact Hp. Qed.

(** The encodings of tokens one after the other. *)
Lemma yields_tok_bytes ts d e :
  Forall tok_wf ts →
  yields_list cp_unpack_chainpack_func ts (RFile (flat_map tok_bytes ts ++ d) e) (RFile d e).
Proof.
  induction 1 as [|t ts Ht Hts IH]; simpl; [done|].
  exists (RFile (flat_map tok_bytes ts ++ d) e). split; [|done].
  exists (tok_bytes t). split; [by left|]. simpl. by rewrite app_assoc.
Qed.
