(* ===== verification/CpPack.v ===== *)
(** * Generic packer ([include/shv/cp_pack.h], [libshvcp/cp_pack.c])

    Items are written through a function pointer, [cp_pack_t]; here a parameter
    [pack] on a state [P] of its own.  [PackSpec] is what an implementation
    promises: an item that holds a token is written as that token.  The packing
    functions of the header are sequences of such calls; [outputs c ts] says that
    [c] writes the tokens [ts] and succeeds. *)

From S2P Require Import Prelude Stdio Chainpack CpItem ChainpackPack.

(** ** Definitions *)

(** [cp_pack_chainpack_func] *)
Definition cp_pack_chainpack_func (f : ofile) (it : cpitem) : ofile * bool :=
  let '(f', n) := chainpack_pack f it in (f', 0 <=? n).

Section pack.
Context {P : Type} (pack : P → cpitem → P * bool).

Definition cp_pack (p : P) (it : cpitem) : P * bool := pack p it.

(** An item on the stack with its type and value set. *)
Definition value_item (t : cpitem_type) (u : cpitem_as) : cpitem := Item t u None 0.

(** An item on the stack that points to [l]. *)
Definition data_item (t : cpitem_type) (b : cpbufinfo) (l : list Z) : cpitem :=
  Item t (AsBuf b) (Some l) 0.

Definition cp_pack_success (p : P) : P * bool :=
  pack p (value_item CPITEM_INVALID (AsError CPERR_NONE)).
Definition cp_pack_null (p : P) : P * bool := pack p (value_item CPITEM_NULL (AsError CPERR_NONE)).
Definition cp_pack_bool (v : bool) (p : P) : P * bool := pack p (value_item CPITEM_BOOL (AsBool v 0)).
Definition cp_pack_int (v : Z) (p : P) : P * bool := pack p (value_item CPITEM_INT (AsInt v)).
Definition cp_pack_uint (v : Z) (p : P) : P * bool := pack p (value_item CPITEM_UINT (AsUInt v)).
Definition cp_pack_double (v : Z) (p : P) : P * bool := pack p (value_item CPITEM_DOUBLE (AsDouble v)).
Definition cp_pack_decimal (v : cpdecimal) (p : P) : P * bool :=
  pack p (value_item CPITEM_DECIMAL (AsDecimal v)).
Definition cp_pack_datetime (v : cpdatetime) (p : P) : P * bool :=
  pack p (value_item CPITEM_DATETIME (AsDatetime v)).

Definition cp_pack_blob (l : list Z) (p : P) : P * bool :=
  pack p (data_item CPITEM_BLOB (BufInfo (Z.of_nat (length l)) 0 CPBI_F_SINGLE) l).
Definition cp_pack_string (l : list Z) (p : P) : P * bool :=
  pack p (data_item CPITEM_STRING (BufInfo (Z.of_nat (length l)) 0 CPBI_F_SINGLE) l).

(** [None] is the [NULL] pointer. *)
Definition cp_pack_str (s : option cstr) (p : P) : P * bool :=
  match s with Some l => cp_pack_string l p | None => cp_pack_null p end.

Definition cp_pack_list_begin (p : P) : P * bool := pack p (value_item CPITEM_LIST (AsError CPERR_NONE)).
Definition cp_pack_map_begin (p : P) : P * bool := pack p (value_item CPITEM_MAP (AsError CPERR_NONE)).
Definition cp_pack_imap_begin (p : P) : P * bool := pack p (value_item CPITEM_IMAP (AsError CPERR_NONE)).
Definition cp_pack_meta_begin (p : P) : P * bool := pack p (value_item CPITEM_META (AsError CPERR_NONE)).
Definition cp_pack_container_end (p : P) : P * bool :=
  pack p (value_item CPITEM_CONTAINER_END (AsError CPERR_NONE)).

(** *** Strings and blobs in parts

    [cp_pack_blob_size] and [cp_pack_string_size] write the length alone; the
    parts follow through the item they leave behind.  [None] is a failed
    [assert]. *)
Definition cp_pack_data_size (blob : bool) (siz : Z) (it : cpitem) (p : P) : P * cpitem * bool :=
  let it := set_as (AsBuf (BufInfo 0 siz CPBI_F_FIRST))
              (set_type (if blob then CPITEM_BLOB else CPITEM_STRING) it) in
  let '(p', ok) := pack p it in (p', it, ok).

Definition cp_pack_data_part (blob : bool) (l : list Z) (it : cpitem) (p : P) :
    option (P * cpitem * bool) :=
  let b := as_Blob (as_ it) in
  let siz := Z.of_nat (length l) in
  if bool_decide (type it = if blob then CPITEM_BLOB else CPITEM_STRING) && (siz <=? eoff b) then
    if siz =? 0 then Some (p, it, true)
    else
      let fl := Z.ldiff (flags b) CPBI_F_FIRST in
      let fl := if eoff b - siz =? 0 then Z.lor fl CPBI_F_LAST else fl in
      let it := set_as (AsBuf (BufInfo siz (eoff b - siz) fl)) (set_buf (Some l) it) in
      let '(p', ok) := pack p it in Some (p', it, ok)
  else None.

(** *** Streams: [cp_pack_fopen], the writes and the close of the stream it
    returns *)
Definition fopen_item (text : bool) (fl : Z) (l : list Z) : cpitem :=
  data_item (if text then CPITEM_STRING else CPITEM_BLOB) (BufInfo (Z.of_nat (length l)) 0 fl) l.

Definition cp_pack_fopen (text : bool) (p : P) : P * bool :=
  pack p (fopen_item text (Z.lor CPBI_F_FIRST CPBI_F_STREAM) []).

(** The result of [cp_pack] is a [bool] that [_write] and [_close] take for a
    count: their failure branches are never taken. *)
Definition fopen_write (text : bool) (l : list Z) (p : P) : P * Z :=
  let '(p', ok) := pack p (fopen_item text CPBI_F_STREAM l) in
  (p', if 0 <=? Z.b2z ok then Z.of_nat (length l) else 0).

Definition fopen_close (text : bool) (p : P) : P * Z :=
  let '(p', ok) := pack p (fopen_item text (Z.lor CPBI_F_STREAM CPBI_F_LAST) []) in
  (p', if 0 <=? Z.b2z ok then 0 else -1).
End pack.

(** ** What a packer promises *)

(** [emitted t p p']: [p'] is [p] with the token [t] written to it. *)
Class PackSpec {P : Type} (pack : P → cpitem → P * bool) := {
  emitted : tok → P → P → Prop;
  pack_emitted t it p p' :
    tok_wf t → holds t it → whole it →
    (tok_type t = CPITEM_BLOB ∨ tok_type t = CPITEM_STRING → is_Some (buf it)) →
    emitted t p p' → pack p it = (p', true)
}.

Section outputs.
Context {P : Type} (pack : P → cpitem → P * bool) `{!PackSpec pack}.

Fixpoint emitted_list (ts : list tok) (p p' : P) : Prop :=
  match ts with
  | [] => p' = p
  | t :: ts' => ∃ p1, emitted t p p1 ∧ emitted_list ts' p1 p'
  end.

(** The command [c] writes [ts] and succeeds wherever they can be written. *)
Definition outputs (c : P → P * bool) (ts : list tok) : Prop :=
  ∀ p p', emitted_list ts p p' → c p = (p', true).

Lemma emitted_list_app ts1 ts2 p p' :
  emitted_list (ts1 ++ ts2) p p' ↔ ∃ p1, emitted_list ts1 p p1 ∧ emitted_list ts2 p1 p'.
Proof.
  revert p. induction ts1 as [|t ts1 IH]; intros p; simpl.
  - split; [by exists p|]. intros (p1 & -> & ?). done.
  - split.
    + intros (p1 & Hy & (p2 & H1 & H2)%IH). exists p2. split; [by exists p1|done].
    + intros (p2 & (p1 & Hy & H1) & H2). exists p1. split; [done|]. apply IH. by exists p2.
Qed.

(** A value that is not a string or blob. *)
Lemma outputs_value t u :
  tok_wf t → holds t (value_item (tok_type t) u) →
  (match t with TBlob _ | TString _ => False | _ => True end) →
  match u with AsBuf _ => False | _ => True end →
  outputs (λ p, pack p (value_item (tok_type t) u)) [t].
Proof.
  intros Hwf Hh Ht Hu p p' (p1 & He & ->). apply (pack_emitted t); [done|done| | |done].
  - unfold whole, value_item. simpl. by destruct (tok_type t), u.
  - destruct t; try done; simpl; intros [?|?]; done.
Qed.

Lemma outputs_data (blob : bool) l :
  Z.of_nat (length l) < 2 ^ 63 → bytes l →
  outputs (λ p, pack p (data_item (if blob then CPITEM_BLOB else CPITEM_STRING)
    (BufInfo (Z.of_nat (length l)) 0 CPBI_F_SINGLE) l)) [if blob then TBlob l else TString l].
Proof.
  intros Hl Hb p p' (p1 & He & ->).
  apply (pack_emitted (if blob : bool then TBlob l else TString l)); [|split| | |done].
  - by destruct blob.
  - by destruct blob.
  - assert (holds_data l (data_item (if blob : bool then CPITEM_BLOB else CPITEM_STRING)
      (BufInfo (Z.of_nat (length l)) 0 CPBI_F_SINGLE) l)) as Hh; [|by destruct blob].
    exists CPBI_F_SINGLE. split_and!; [done..|]. simpl. by apply take_ge.
  - unfold whole. destruct blob; (split; [done|by apply (bool_decide_unpack _)]).
  - intros _. by eexists.
Qed.

Lemma outputs_null : outputs (cp_pack_null pack) [TNull].
Proof. by apply (outputs_value TNull (AsError CPERR_NONE)). Qed.
Lemma outputs_bool b : outputs (cp_pack_bool pack b) [TBool b].
Proof. apply (outputs_value (TBool b) (AsBool b 0)); [done| |done|done]. split; [done|by exists 0]. Qed.
Lemma outputs_int v : packable_int v → outputs (cp_pack_int pack v) [TInt v].
Proof. intros Hv. by apply (outputs_value (TInt v) (AsInt v)). Qed.
Lemma outputs_uint v : urange 64 v → outputs (cp_pack_uint pack v) [TUInt v].
Proof. intros Hv. by apply (outputs_value (TUInt v) (AsUInt v)). Qed.
Lemma outputs_datetime d : datetime_ok d → outputs (cp_pack_datetime pack d) [TDatetime d].
Proof. intros Hd. by apply (outputs_value (TDatetime d) (AsDatetime d)). Qed.
Lemma outputs_blob l :
  Z.of_nat (length l) < 2 ^ 63 → bytes l → outputs (cp_pack_blob pack l) [TBlob l].
Proof. apply (outputs_data true). Qed.
Lemma outputs_string l :
  Z.of_nat (length l) < 2 ^ 63 → bytes l → outputs (cp_pack_string pack l) [TString l].
Proof. apply (outputs_data false). Qed.
Lemma outputs_list_begin : outputs (cp_pack_list_begin pack) [TList].
Proof. by apply (outputs_value TList (AsError CPERR_NONE)). Qed.
Lemma outputs_map_begin : outputs (cp_pack_map_begin pack) [TMap].
Proof. by apply (outputs_value TMap (AsError CPERR_NONE)). Qed.
Lemma outputs_imap_begin : outputs (cp_pack_imap_begin pack) [TIMap].
Proof. by apply (outputs_value TIMap (AsError CPERR_NONE)). Qed.
Lemma outputs_meta_begin : outputs (cp_pack_meta_begin pack) [TMeta].
Proof. by apply (outputs_value TMeta (AsError CPERR_NONE)). Qed.
Lemma outputs_container_end : outputs (cp_pack_container_end pack) [TEnd].
Proof. by apply (outputs_value TEnd (AsError CPERR_NONE)). Qed.
End outputs.

#[export] Hint Resolve outputs_null outputs_bool outputs_int outputs_uint outputs_datetime
  outputs_blob outputs_string outputs_list_begin outputs_map_begin outputs_imap_begin
  outputs_meta_begin outputs_container_end : shv.

(** ** ChainPack *)

(** The token written to a stream with room, or counted only. *)
Definition cp_emitted (t : tok) (p p' : ofile) : Prop :=
  match p with
  | None => p' = None
  | Some w => wf_err w = false ∧ roomy (length (tok_bytes t)) w ∧ p' = Some (written (tok_bytes t) w)
  end.

#[export] Program Instance chainpack_PackSpec : PackSpec cp_pack_chainpack_func := {
  emitted := cp_emitted
}.
Next Obligation.
  intros t it p p' Hwf Hh Hw Hb He. destruct (holds_packable t it Hwf Hh Hw Hb) as [Hp Hbytes].
  unfold cp_pack_chainpack_func. destruct p as [w|]; simpl in He.
  - destruct He as (Herr & Hroom & ->). rewrite chainpack_pack_room by (by rewrite ?Hbytes).
    rewrite Hbytes. by rewrite (proj2 (Z.leb_le _ _)) by lia.
  - subst p'. rewrite chainpack_pack_null by done. by rewrite (proj2 (Z.leb_le _ _)) by lia.
Qed.
