(* ===== verification/CpTools.v ===== *)
(** * Repacking ([libshvcp/cp_tools.c])

    [cp_repack] copies one value from an unpacker to a packer, strings and blobs
    in blocks of [BUFSIZ] bytes.  From ChainPack to ChainPack it copies the very
    bytes: every item it writes is the bytes its unpacking consumed. *)

From S2P Require Import Prelude Stdio Chainpack CpItem ChainpackPack ChainpackUnpack.
From S2P Require Import ChainpackRoundtrip CpUnpack CpUnpackChainpack CpPack.

(** ** Definitions *)

Section repack.
Context {U P : Type} (unpack : U → cpitem → U * cpitem) (pack : P → cpitem → P * bool).

Definition repack_depth (it : cpitem) (depth : Z) : Z :=
  match type it with
  | CPITEM_BLOB | CPITEM_STRING =>
      let fl := flags (as_Blob (as_ it)) in
      let depth := if has fl CPBI_F_FIRST then u32 (depth + 1) else depth in
      if has fl CPBI_F_LAST then u32 (depth - 1) else depth
  | CPITEM_LIST | CPITEM_MAP | CPITEM_IMAP | CPITEM_META => u32 (depth + 1)
  | CPITEM_CONTAINER_END => u32 (depth - 1)
  | _ => depth
  end.

(** One round of the [do] loop: goes on with [depth], or ends with the result. *)
Definition repack_step (s : U * cpitem * P * Z) : U * cpitem * P * Z + U * cpitem * P * bool :=
  let '(u, it, p, depth) := s in
  let '(u, it) := unpack u it in
  if bool_decide (type it = CPITEM_INVALID) then inr (u, it, p, false)
  else
    let depth := repack_depth it depth in
    let '(p, ok) := pack p it in
    if ok then if depth =? 0 then inr (u, it, p, true) else inl (u, it, p, depth)
    else inr (u, it, p, false).

(** The buffer on the stack holds nothing defined at first (zeros here). *)
Definition cp_repack (u : U) (it : cpitem) (p : P) : U * cpitem * P * bool :=
  let it := set_buffer (Some (replicate (Z.to_nat BUFSIZ) 0)) BUFSIZ it in
  match cloop repack_step 65 (u, it, p, 0) with
  | inr (u, it, p, ok) => (u, set_buffer None 0 it, p, ok)
  | inl (u, it, p, _) => (u, set_buffer None 0 it, p, false)
  end.
End repack.

(** ** Bytes of a block *)

Lemma block_item_bytes blob it l1 l2 fl m :
  type it = data_type blob → buf it = Some m → (length l1 ≤ length m)%nat →
  has fl CPBI_F_STREAM = false → urange 8 fl → Z.of_nat (length l1 + length l2) < 2 ^ 63 →
  packable (block_item it l1 l2 fl) ∧
  item_bytes (block_item it l1 l2 fl) =
    (if has fl CPBI_F_FIRST
     then (if blob then CPS_Blob else CPS_String) ::
       uint_bytes (Z.of_nat (length l1 + length l2)) else []) ++ l1.
Proof.
  intros Ht Hb Hm Hs Hfl Hlen. destruct (has_lor_last fl) as (_ & HF & HS).
  assert (has (block_flags fl l2) CPBI_F_STREAM = false) as Hs' by (destruct l2; [by rewrite <-Hs|done]).
  assert (has (block_flags fl l2) CPBI_F_FIRST = has fl CPBI_F_FIRST) as Hf' by (by destruct l2).
  assert (urange 8 (block_flags fl l2)) as Hfl'.
  { destruct l2; [|done]. apply urange_lor; [lia|done|]. by apply (bool_decide_unpack _). }
  assert (bufinfo_wf (BufInfo (Z.of_nat (length l1)) (Z.of_nat (length l2)) (block_flags fl l2))) as Hwf.
  { split; [|split]; [unfold urange; simpl; lia..|done]. }
  assert (rbuf (block_item it l1 l2 fl) = list_inserts 0 l1 m) as Hr
    by (unfold rbuf, block_item; simpl; by rewrite Hb).
  assert (take (length l1) (list_inserts 0 l1 m) = l1) as Htk by (by apply take_inserts).
  unfold packable, item_bytes. rewrite Hr, length_inserts. cbn [type as_ block_item]. rewrite Ht.
  split; [destruct blob; (split; [by eexists|simpl; lia])|].
  destruct blob; cbn [data_type as_Blob len]; rewrite Nat2Z.id, Htk;
    unfold blob_bytes, string_bytes; cbn [flags len eoff]; rewrite Hs', Hf'; cbn [andb app];
    rewrite uwrap_small by (unfold urange; lia); rewrite app_nil_r, Nat2Z.inj_add.
  - destruct l1; cbn; destruct (has fl CPBI_F_FIRST); by rewrite ?app_nil_r.
  - by destruct (has fl CPBI_F_FIRST).
Qed.

Lemma cstring_item_bytes it l1 last m k fl :
  type it = CPITEM_STRING → as_ it = AsBuf (BufInfo k 0 fl) → buf it = Some m →
  (length l1 ≤ length m)%nat → has fl CPBI_F_STREAM = true → has fl CPBI_F_LAST = false →
  urange 8 fl → Z.of_nat (length l1) < 2 ^ 63 →
  packable (cstring_item it 0 l1 last) ∧
  item_bytes (cstring_item it 0 l1 last) =
    (if has fl CPBI_F_FIRST then [CPS_CString] else []) ++ l1 ++ (if last then [0] else []).
Proof.
  intros Ht Ha Hb Hm Hs Hl Hfl Hlen. destruct (has_lor_last fl) as (HL & HF & HS).
  set (fl' := if last then Z.lor fl CPBI_F_LAST else fl).
  assert (has fl' CPBI_F_STREAM = true) as Hs' by (unfold fl'; destruct last; [by rewrite HS|done]).
  assert (has fl' CPBI_F_FIRST = has fl CPBI_F_FIRST) as Hf' by (unfold fl'; by destruct last).
  assert (has fl' CPBI_F_LAST = last) as Hl' by (unfold fl'; by destruct last).
  assert (urange 8 fl') as Hfl'.
  { unfold fl'. destruct last; [|done]. apply urange_lor; [lia|done|]. by apply (bool_decide_unpack _). }
  assert (bufinfo_wf (BufInfo (Z.of_nat (length l1)) 0 fl')) as Hwf.
  { split; [|split]; [unfold urange; simpl; lia..|done]. }
  assert (take (length l1) (list_inserts 0 l1 m) = l1) as Htk by (by apply take_inserts).
  unfold packable, item_bytes, rbuf, cstring_item. rewrite Ha, Hb, Ht, Z.add_0_l.
  cbn [type as_ as_Blob buf len eoff flags]. fold fl'.
  change (default [] (list_inserts (Z.to_nat 0) l1 <$> Some m)) with (list_inserts 0 l1 m).
  rewrite length_inserts, Nat2Z.id, Htk. split; [split; [by eexists|lia]|].
  unfold string_bytes. cbn [flags len eoff]. rewrite Hs', Hf', Hl'. cbn [andb]. done.
Qed.

(** ** Copying *)

(** The item is packed as the bytes that were consumed for it. *)
Definition copied (f : rfile) (r : rfile * cpitem) : Prop :=
  rf_data f = item_bytes r.2 ++ rf_data r.1 ∧ packable r.2.

Definition has_buffer (it : cpitem) : Prop := is_Some (buf it) ∧ 0 < bufsiz it ∧ buf_wf it.

Lemma has_buffer_split it (l : list Z) :
  has_buffer it → ∃ m, buf it = Some m ∧ 0 < bufsiz it < 2 ^ 64 ∧
    (length (take (Z.to_nat (bufsiz it)) l) ≤ length m)%nat.
Proof.
  intros ([m Hb] & Hp & Hs & Hm). exists m. rewrite Hb in Hm. unfold urange in Hs.
  split; [done|]. split; [lia|]. rewrite length_take. lia.
Qed.

Lemma copied_counted blob l d e it k fl res :
  as_ it = AsBuf (BufInfo k (Z.of_nat (length l)) fl) → type it = data_type blob →
  has fl CPBI_F_STREAM = false → urange 8 fl → Z.of_nat (length l) < 2 ^ 63 → has_buffer it →
  let r := call_buf (RFile (l ++ d) e) it res in
  packable r.1.2 ∧
  item_bytes r.1.2 ++ rf_data r.1.1 =
    (if has fl CPBI_F_FIRST
     then (if blob then CPS_Blob else CPS_String) :: uint_bytes (Z.of_nat (length l)) else []) ++ l ++ d.
Proof.
  intros Ha Ht Hs Hfl Hlen Hbuf. destruct (has_buffer_split it l Hbuf) as (m & Hb & Hsz & Hm).
  rewrite (call_buf_counted_eq l d e it k fl) by done. cbn [fst snd rf_data].
  set (l1 := take _ l) in *. set (l2 := drop _ l).
  assert (l = l1 ++ l2) as Hsp by (symmetry; apply take_drop).
  assert (length l = length l1 + length l2)%nat as Hadd by (by rewrite Hsp, length_app).
  destruct (block_item_bytes blob it l1 l2 fl m) as [Hp ->]; [done..|lia|].
  split; [done|]. rewrite <-Hadd, <-app_assoc. f_equal. by rewrite app_assoc, <-Hsp.
Qed.

Lemma copied_cstring l d e it k fl res :
  as_ it = AsBuf (BufInfo k 0 fl) → type it = CPITEM_STRING → has fl CPBI_F_STREAM = true →
  has fl CPBI_F_LAST = false → urange 8 fl → Z.of_nat (length l) < 2 ^ 63 → nonzero l → has_buffer it →
  let r := call_buf (RFile (l ++ 0 :: d) e) it res in
  packable r.1.2 ∧
  item_bytes r.1.2 ++ rf_data r.1.1 =
    (if has fl CPBI_F_FIRST then [CPS_CString] else []) ++ l ++ 0 :: d.
Proof.
  intros Ha Ht Hs Hl Hfl Hlen Hnz Hbuf. destruct (has_buffer_split it l Hbuf) as (m & Hb & Hsz & Hm).
  rewrite (call_buf_cstring_eq l d e it k fl) by (done || (unfold urange; lia)). cbn [fst snd rf_data].
  set (l1 := take _ l) in *. set (l2 := drop _ l). set (last := _ <? _).
  assert (l = l1 ++ l2) as Hsp by (symmetry; apply take_drop).
  assert (length l = length l1 + length l2)%nat as Hadd by (by rewrite Hsp, length_app).
  destruct (cstring_item_bytes it l1 last m k fl) as [Hp ->]; [done..|lia|].
  split; [done|]. rewrite <-app_assoc. f_equal.
  replace (l ++ 0 :: d) with (l1 ++ l2 ++ 0 :: d) by (by rewrite app_assoc, <-Hsp).
  rewrite <-!app_assoc. f_equal.
  unfold last. destruct (Z.ltb_spec (Z.of_nat (length l)) (bufsiz it)); [|done].
  assert (l2 = []) as ->; [|done]. apply length_zero_iff_nil. unfold l2. rewrite length_drop. lia.
Qed.

Lemma copied_start t f f' it :
  cp_yields t f f' → ready it = true → has_buffer it → copied f (cp_unpack_chainpack_func f it).
Proof.
  intros Hy Hr Hbuf. pose proof Hbuf as (Hb & Hp & Hw). destruct (is_data_tok t) eqn:Ed.
  - destruct Hy as (bs & [[Hwf ->]|(l & -> & Hlen & Hnz & ->)] & ->);
      unfold copied, cp_unpack_chainpack_func; cbn [rf_data].
    + assert (∃ blob l, t = data_tok blob l) as (blob & l & ->)
        by (destruct t; try done; [by exists true, l|by exists false, l]).
      assert (Z.of_nat (length l) < 2 ^ 63) as Hlen by (by destruct blob, Hwf).
      pose proof (λ ty, copied_counted blob l (rf_data f') (rf_fail f')
        (set_bufinfo (BufInfo 0 (Z.of_nat (length l)) CPBI_F_FIRST) (set_type (data_type blob) it))
        0 CPBI_F_FIRST (1 + Z.of_nat (length (uint_bytes (Z.of_nat (length l))))) eq_refl eq_refl
        eq_refl ty Hlen Hbuf) as Hc.
      specialize (Hc ltac:(by apply (bool_decide_unpack _))).
      destruct blob; cbn [data_tok tok_bytes app]; rewrite unpack_first by done;
        unfold unpack_scheme; cbn -[call_buf app item_bytes]; rewrite <-app_assoc;
        rewrite unpack_uint_bytes by (unfold urange; lia); cbn -[call_buf app item_bytes];
        destruct (call_buf _ _ _) as [[f1 it1] n]; destruct Hc as [Hpk Hc];
        (split; [symmetry; exact Hc|exact Hpk]).
    + pose proof (λ ty, copied_cstring l (rf_data f') (rf_fail f')
        (set_bufinfo (BufInfo 0 0 (Z.lor CPBI_F_FIRST CPBI_F_STREAM)) (set_type CPITEM_STRING it))
        0 (Z.lor CPBI_F_FIRST CPBI_F_STREAM) 1 eq_refl eq_refl eq_refl eq_refl ty Hlen Hnz Hbuf) as Hc.
      specialize (Hc ltac:(by apply (bool_decide_unpack _))).
      cbn [app]. rewrite unpack_first by done. unfold unpack_scheme; cbn -[call_buf app item_bytes].
      rewrite <-app_assoc. cbn [app].
      destruct (call_buf _ _ _) as [[f1 it1] n]; destruct Hc as [Hpk Hc].
      split; [symmetry; exact Hc|exact Hpk].
  - destruct (chainpack_scalar t f f' it Hy Ed Hr Hw) as (it' & Hu & Hh & Hk).
    destruct Hy as (bs & [[Hwf ->]|(l & -> & _)] & ->); [|done].
    destruct (holds_packable t it' Hwf Hh) as [Hpk Hbytes].
    + unfold whole. destruct Hh as [-> _]. by destruct t.
    + destruct t; try done; simpl; by intros [?|?].
    + rewrite Hu. unfold copied. cbn [fst snd rf_data]. by rewrite Hbytes.
Qed.

Lemma copied_next blob l f f' it :
  cp_pending blob l f it f' → has_buffer it → copied f (cp_unpack_chainpack_func f it).
Proof.
  intros (k & eo & fl & Ha & Ht & Hlst & Hfl & Hlen & Hcase) Hbuf.
  unfold copied, cp_unpack_chainpack_func. rewrite (chainpack_continue blob f it k eo fl) by done.
  destruct (has_ldiff_first fl) as (HF & HL & HS). set (fl' := Z.ldiff fl CPBI_F_FIRST) in *.
  assert (urange 8 fl') as Hfl' by (by apply urange_ldiff).
  assert (as_ (set_flags fl' it) = AsBuf (BufInfo k eo fl')) as Ha' by (unfold set_flags; by rewrite Ha).
  destruct Hcase as [(Hs & -> & ->)|(Hs & -> & -> & Hnz & ->)]; cbn [rf_data].
  - pose proof (copied_counted blob l (rf_data f') (rf_fail f') _ k fl' 0 Ha' Ht) as Hc.
    rewrite HS, HF in Hc. specialize (Hc Hs Hfl' Hlen Hbuf).
    destruct (call_buf _ _ _) as [[f1 it1] n]. destruct Hc as [Hpk Hc].
    split; [symmetry; exact Hc|exact Hpk].
  - pose proof (copied_cstring l (rf_data f') (rf_fail f') _ k fl' 0 Ha' Ht) as Hc.
    rewrite HS, HF, HL in Hc. specialize (Hc Hs Hlst Hfl' Hlen Hnz Hbuf).
    destruct (call_buf _ _ _) as [[f1 it1] n]. destruct Hc as [Hpk Hc].
    split; [symmetry; exact Hc|exact Hpk].
Qed.

(** ** The loop *)

(** The state [repack_step] is left in: it stops at depth zero. *)
Definition outcome (f : rfile) (it : cpitem) (w : wfile) (depth : Z) :
    rfile * cpitem * ofile * Z + rfile * cpitem * ofile * bool :=
  if depth =? 0 then inr (f, it, Some w, true) else inl (f, it, Some w, depth).

Abbreviation cp_step := (repack_step cp_unpack_chainpack_func cp_pack_chainpack_func).

(** [copies c f it w depth f' depth']: the loop gets from [f] to [f'], with all
    the bytes between them written, in at most as many rounds as there are bytes,
    and [c] more. *)
Definition copies (c : nat) (f : rfile) (it : cpitem) (w : wfile) (depth : Z)
    (f' : rfile) (depth' : Z) : Prop :=
  ∃ bs, rf_data f = bs ++ rf_data f' ∧
    (wf_err w = false → roomy (length bs) w →
     ∃ k it', (k ≤ length bs + c)%nat ∧ ready it' = true ∧ has_buffer it' ∧
       steps cp_step k (f, it, Some w, depth) (outcome f' it' (written bs w) depth')).

Lemma roomy_le n m w : (n ≤ m)%nat → roomy m w → roomy n w.
Proof. unfold roomy. destruct (wf_room w); lia. Qed.

Lemma outcome_step s f it w d : cp_step s = outcome f it w d → steps cp_step 1 s (outcome f it w d).
Proof.
  unfold outcome. destruct (d =? 0); intros Hs; [by apply steps_stop|].
  eapply steps_next; [exact Hs|]. constructor.
Qed.

Lemma repack_item f it w depth f1 it1 :
  cp_unpack_chainpack_func f it = (f1, it1) → copied f (f1, it1) → type it1 ≠ CPITEM_INVALID →
  wf_err w = false → roomy (length (item_bytes it1)) w →
  cp_step (f, it, Some w, depth) =
    outcome f1 it1 (written (item_bytes it1) w) (repack_depth it1 depth).
Proof.
  intros Hu [_ Hp] Ht He Hw. unfold repack_step. rewrite Hu, bool_decide_false by done.
  unfold cp_pack_chainpack_func. cbn [snd] in Hp. rewrite chainpack_pack_room by done.
  by rewrite (proj2 (Z.leb_le _ _)) by lia.
Qed.

Lemma repack_depth_first it blob d fl k eo :
  type it = data_type blob → as_ it = AsBuf (BufInfo k eo fl) → 0 ≤ d ≤ DEPTH_MAX →
  has fl CPBI_F_FIRST = true →
  repack_depth it d = if has fl CPBI_F_LAST then d else d + 1.
Proof.
  intros Ht Ha Hd Hf. unfold repack_depth, DEPTH_MAX in *. rewrite Ht, Ha. cbn [as_Blob flags].
  assert (∀ x, 0 ≤ x < 2 ^ 32 → u32 x = x) as Hi by (intros x Hx; by apply uwrap_small).
  destruct blob; cbn [data_type]; rewrite Hf; destruct (has fl CPBI_F_LAST);
    rewrite (Hi (d + 1)), ?Hi by lia; lia.
Qed.

Lemma repack_depth_next it blob d fl k eo :
  type it = data_type blob → as_ it = AsBuf (BufInfo k eo fl) → 1 ≤ d ≤ DEPTH_MAX + 1 →
  has fl CPBI_F_FIRST = false →
  repack_depth it d = if has fl CPBI_F_LAST then d - 1 else d.
Proof.
  intros Ht Ha Hd Hf. unfold repack_depth, DEPTH_MAX in *. rewrite Ht, Ha. cbn [as_Blob flags].
  assert (∀ x, 0 ≤ x < 2 ^ 32 → u32 x = x) as Hi by (intros x Hx; by apply uwrap_small).
  destruct blob; cbn [data_type]; by rewrite Hf, Hi by lia.
Qed.

Lemma block_held_buffer blob first l fl it it' :
  block_held blob first l fl it it' → has_buffer it → has_buffer it'.
Proof.
  intros [_ _ _ Hk _] ([m Hb] & Hp & Hw). pose proof (buf_kept_wf _ _ Hk Hw) as Hw'.
  destruct Hk as (_ & Hs & Hbuf). simpl in *. rewrite Hb in Hbuf.
  split; [by destruct (buf it'); [eexists|]|]. by rewrite Hs.
Qed.

Lemma block_held_ready blob first l fl it it' :
  block_held blob first l fl it it' → has fl CPBI_F_LAST = true → ready it' = true.
Proof.
  intros [Ht (eo & Ha & He) _ _ _] Hl. unfold ready. rewrite Ht, Ha. simpl.
  rewrite Hl, (He Hl). by destruct blob.
Qed.

Lemma block_held_length blob first l fl it it' :
  block_held blob first l fl it it' → has_buffer it' →
  ((if first then 1 else 0) + length l ≤ length (item_bytes it'))%nat.
Proof.
  intros [Ht (eo & Ha & _) Hf _ Hd] ([m Hb] & _). rewrite Hb in Hd.
  unfold item_bytes, rbuf. rewrite Ht, Ha, Hb. cbn [as_Blob len default from_option id].
  rewrite Nat2Z.id, Hd. destruct blob; cbn [data_type]; unfold blob_bytes, string_bytes;
    cbn [len flags]; rewrite !length_app, Hf;
    repeat match goal with |- context [uint_bytes ?x] => generalize (uint_bytes x); intros ? end;
    destruct first, (has fl CPBI_F_STREAM), l; simpl;
    rewrite ?length_app; simpl; lia.
Qed.

(** What comes after the first block. *)
Lemma copies_rest blob l f it f' w d :
  cp_pending blob l f it f' → has_buffer it → 1 ≤ d ≤ DEPTH_MAX + 1 → copies 1 f it w d f' (d - 1).
Proof.
  remember (length l) as n eqn:En. revert l f it w En.
  induction n as [n IH] using lt_wf_ind. intros l f it w En Hp Hbuf Hd. subst n.
  destruct (chainpack_next blob l f f' it Hp ltac:(apply Hbuf))
    as (l1 & l2 & fl & Hl & Hl1 & Hb & [Hlast _] & Hend).
  pose proof (copied_next blob l f f' it Hp Hbuf) as Hc.
  destruct (cp_unpack_chainpack_func f it) as [f1 it1] eqn:Hu. cbn [fst snd] in *.
  pose proof (block_held_buffer _ _ _ _ _ _ Hb Hbuf) as Hbuf1. pose proof Hc as [Hcd _]. cbn [fst snd] in Hcd.
  assert (type it1 ≠ CPITEM_INVALID) as Hni by (rewrite (block_type _ _ _ _ _ _ Hb); by destruct blob).
  pose proof Hb as [Ht (eo & Ha & _) Hfirst _ _].
  pose proof (repack_depth_next it1 blob d fl _ eo Ht Ha Hd Hfirst) as Hdep.
  destruct (has fl CPBI_F_LAST) eqn:El.
  - destruct Hend as [-> ->]. exists (item_bytes it1). split; [done|]. intros He Hw.
    exists 1%nat, it1. split; [lia|]. split; [by eapply block_held_ready|]. split; [done|].
    pose proof (repack_item f it w d f' it1 Hu Hc Hni He Hw) as Hs. rewrite Hdep in Hs.
    by apply outcome_step.
  - assert (0 < length l1)%nat as Hpos.
    { destruct Hbuf as (_ & Hp0 & _). destruct (Z.lt_ge_cases (Z.of_nat (length l)) (bufsiz it));
        [by specialize (Hlast ltac:(done))|lia]. }
    destruct (IH (length l2)) with l2 f1 it1 (written (item_bytes it1) w) as (bs2 & Hd2 & Hrun);
      [rewrite Hl, length_app; lia|done|done|done|done|].
    exists (item_bytes it1 ++ bs2). split; [by rewrite Hcd, Hd2, app_assoc|]. intros He Hw.
    rewrite length_app in *. destruct (roomy_app _ _ (item_bytes it1) w eq_refl Hw) as [Hw1 Hw2].
    destruct (Hrun He Hw2) as (k & it' & Hk & Hr & Hbuf' & Hs2).
    exists (S k), it'. split; [|split; [done|split; [done|]]].
    + pose proof (block_held_length _ _ _ _ _ _ Hb Hbuf1) as Hbl. cbv iota in Hbl. lia.
    + rewrite <-written_app. eapply steps_next; [|exact Hs2].
      rewrite (repack_item f it w d f1 it1) by done. rewrite Hdep. unfold outcome.
      destruct (Z.eqb_spec d 0); [lia|done].
Qed.

(** One token, in one or more blocks. *)
Lemma copies_data blob l f it f' w d :
  cp_yields (data_tok blob l) f f' → ready it = true → has_buffer it → 0 ≤ d ≤ DEPTH_MAX →
  copies 0 f it w d f' d.
Proof.
  intros Hy Hr Hbuf Hd.
  destruct (chainpack_data blob l f f' it Hy Hr ltac:(apply Hbuf))
    as (l1 & l2 & fl & Hl & Hl1 & Hb & [Hlast _] & Hend).
  pose proof (copied_start _ f f' it Hy Hr Hbuf) as Hc.
  destruct (cp_unpack_chainpack_func f it) as [f1 it1] eqn:Hu. cbn [fst snd] in *.
  pose proof (block_held_buffer _ _ _ _ _ _ Hb Hbuf) as Hbuf1.
  pose proof Hc as [Hcd _]. cbn [fst snd] in Hcd.
  assert (type it1 ≠ CPITEM_INVALID) as Hni by (rewrite (block_type _ _ _ _ _ _ Hb); by destruct blob).
  pose proof (block_held_length _ _ _ _ _ _ Hb Hbuf1) as Hbl. cbv iota in Hbl.
  pose proof Hb as [Ht (eo & Ha & _) Hfirst _ _].
  pose proof (repack_depth_first it1 blob d fl _ eo Ht Ha Hd Hfirst) as Hdep.
  destruct (has fl CPBI_F_LAST) eqn:El.
  - destruct Hend as [-> ->]. exists (item_bytes it1). split; [done|]. intros He Hw.
    exists 1%nat, it1. split; [lia|]. split; [by eapply block_held_ready|]. split; [done|].
    pose proof (repack_item f it w d f' it1 Hu Hc Hni He Hw) as Hs. rewrite Hdep in Hs.
    by apply outcome_step.
  - assert (0 < length l1)%nat as Hpos.
    { destruct Hbuf as (_ & Hp0 & _). destruct (Z.lt_ge_cases (Z.of_nat (length l)) (bufsiz it));
        [by specialize (Hlast ltac:(done))|lia]. }
    destruct (copies_rest blob l2 f1 it1 f' (written (item_bytes it1) w) (d + 1) Hend Hbuf1)
      as (bs2 & Hd2 & Hrun); [lia|].
    exists (item_bytes it1 ++ bs2). split; [by rewrite Hcd, Hd2, app_assoc|]. intros He Hw.
    rewrite length_app in *. destruct (roomy_app _ _ (item_bytes it1) w eq_refl Hw) as [Hw1 Hw2].
    destruct (Hrun He Hw2) as (k & it' & Hk & Hr' & Hbuf' & Hs2).
    exists (S k), it'. split; [lia|split; [done|split; [done|]]].
    rewrite <-written_app. replace (d + 1 - 1) with d in Hs2 by lia.
    eapply steps_next; [|exact Hs2].
    rewrite (repack_item f it w d f1 it1) by done. rewrite Hdep. unfold outcome.
    destruct (Z.eqb_spec (d + 1) 0); [lia|done].
Qed.

Lemma repack_depth_holds t it d :
  holds t it → is_data_tok t = false → 0 ≤ d ≤ DEPTH_MAX → (t = TEnd → 1 ≤ d) →
  repack_depth it d = tok_depth t d.
Proof.
  intros [Ht _] Hnd Hd Hend. unfold DEPTH_MAX in Hd. unfold repack_depth, tok_depth. rewrite Ht.
  assert (∀ x, 0 ≤ x < 2 ^ 32 → u32 x = x) as Hi by (intros x Hx; by apply uwrap_small).
  destruct t; cbn [tok_type opens]; try done; rewrite Hi; try done; try lia.
  specialize (Hend eq_refl). lia.
Qed.

Lemma copies_tok t f it f' w d :
  cp_yields t f f' → ready it = true → has_buffer it → 0 ≤ d ≤ DEPTH_MAX → (t = TEnd → 1 ≤ d) →
  copies 0 f it w d f' (tok_depth t d).
Proof.
  intros Hy Hr Hbuf Hd Hend. destruct (is_data_tok t) eqn:Ed.
  - destruct t; try done; cbn [tok_depth opens].
    + rewrite bool_decide_false by done. by apply (copies_data true l).
    + rewrite bool_decide_false by done. by apply (copies_data false l).
  - destruct (chainpack_scalar t f f' it Hy Ed Hr ltac:(apply Hbuf)) as (it' & Hu & Hh & Hk).
    pose proof (copied_start t f f' it Hy Hr Hbuf) as Hc. rewrite Hu in Hc.
    pose proof Hc as [Hcd _]. cbn [fst snd] in Hcd.
    assert (0 < length (item_bytes it'))%nat as Hpos.
    { destruct Hh as [Ht _]. unfold item_bytes. rewrite Ht.
      destruct t; cbn; repeat case_match; simpl; try lia; done. }
    exists (item_bytes it'). split; [done|]. intros He Hw. exists 1%nat, it'.
    split; [lia|]. split; [by eapply holds_ready|]. split.
    + destruct Hbuf as ([m Hb] & Hp & Hwf). pose proof (buf_kept_wf _ _ Hk Hwf).
      destruct Hk as (_ & Hs & Hbk). simpl in *. rewrite Hb in Hbk.
      split; [by destruct (buf it'); [eexists|]|]. by rewrite Hs.
    + assert (type it' ≠ CPITEM_INVALID) as Hni by (destruct Hh as [-> _]; by destruct t).
      pose proof (repack_item f it w d f' it' Hu Hc Hni He Hw) as Hs.
      rewrite (repack_depth_holds t) in Hs by done. by apply outcome_step.
Qed.

Lemma copies_seq f it w d f1 d1 f2 d2 :
  copies 0 f it w d f1 d1 → d1 ≠ 0 → ready it = true → has_buffer it →
  (∀ it1 w1, ready it1 = true → has_buffer it1 → copies 0 f1 it1 w1 d1 f2 d2) →
  copies 0 f it w d f2 d2.
Proof.
  intros (bs1 & Hb1 & Hrun1) Hd1 Hr Hbuf Hnext.
  destruct (Hnext it w Hr Hbuf) as (bs2 & Hb2 & _).
  exists (bs1 ++ bs2). split; [by rewrite Hb1, Hb2, app_assoc|]. intros He Hw.
  rewrite length_app in *. destruct (roomy_app _ _ bs1 w eq_refl Hw) as [Hw1 Hw2].
  destruct (Hrun1 He Hw1) as (k1 & it1 & Hk1 & Hr1 & Hbuf1 & Hs1).
  destruct (Hnext it1 (written bs1 w) Hr1 Hbuf1) as (bs2' & Hb2' & Hrun2). rewrite Hb2 in Hb2'.
  apply app_inv_tail in Hb2' as <-. destruct (Hrun2 He Hw2) as (k2 & it2 & Hk2 & Hr2 & Hbuf2 & Hs2).
  exists (k1 + k2)%nat, it2. split; [lia|]. split; [done|]. split; [done|].
  rewrite <-written_app. eapply steps_trans; [|exact Hs2].
  unfold outcome in Hs1. by destruct (Z.eqb_spec d1 0).
Qed.

(** Tokens that keep a container open. *)
Lemma copies_passes d ts d' f it f' w :
  passes d ts d' → 0 ≤ d ≤ DEPTH_MAX → ts ≠ [] → yields_list cp_unpack_chainpack_func ts f f' →
  ready it = true → has_buffer it → copies 0 f it w d f' d'.
Proof.
  intros Hp. revert f it w. induction Hp as [d|d t ts d' Hd1 Hp IH]; intros f it w Hd Hne Hy Hr Hbuf;
    [done|].
  destruct Hy as (f1 & Hy1 & Hy).
  assert (copies 0 f it w d f1 (tok_depth t d)) as Hc1.
  { apply copies_tok; [done..|]. intros ->. unfold tok_depth in Hd1. simpl in Hd1. lia. }
  destruct (decide (ts = [])) as [->|Hne'].
  - simpl in Hy. subst f1. by inversion Hp; subst.
  - apply (copies_seq _ _ _ _ _ _ _ _ Hc1); [lia|done|done|].
    intros it1 w1 Hr1 Hbuf1. apply IH; [lia|done..].
Qed.

(** One value from ChainPack to ChainPack. *)
Lemma copies_node n f it f' w :
  node_wf n = true → height n ≤ DEPTH_MAX → yields_list cp_unpack_chainpack_func (toks n) f f' →
  ready it = true → has_buffer it → copies 0 f it w 0 f' 0.
Proof.
  intros Hwf Hh Hy Hr Hbuf. assert (0 ≤ 0 ≤ DEPTH_MAX) as H0 by (unfold DEPTH_MAX; lia).
  destruct n as [t|o l].
  - destruct Hy as (f1 & Hy & ->). simpl in Hwf.
    pose proof (copies_tok t f it f1 w 0 Hy Hr Hbuf H0) as Hc.
    rewrite atomic_depth in Hc by done. apply Hc. by intros ->.
  - simpl in Hwf. apply andb_true_iff in Hwf as [Ho Hl].
    cbn [toks] in Hy. rewrite app_comm_cons in Hy.
    apply yields_list_app in Hy as (f1 & Hy1 & (f2 & Hy2 & ->)).
    apply (copies_seq _ _ _ _ f1 1); [|done..|].
    + apply (copies_passes 0 (o :: flat_map toks l)); [|done..].
      constructor; rewrite opens_depth by done; [unfold DEPTH_MAX; lia|].
      apply passes_nodes; [lia|]. intros n Hn. pose proof (height_children o l n Hn).
      rewrite forallb_forall in Hl. split; [by apply Hl, list_elem_of_In|lia].
    + intros it1 w1 Hr1 Hbuf1. apply (copies_tok TEnd f1 it1 f2 w1 1); [done..| |lia].
      unfold DEPTH_MAX. lia.
Qed.

Lemma repack_node n f it f' w :
  node_wf n = true → height n ≤ DEPTH_MAX → yields_list cp_unpack_chainpack_func (toks n) f f' →
  ready it = true → wf_err w = false → Z.of_nat (length (rf_data f)) < 2 ^ 64 →
  ∃ bs it', rf_data f = bs ++ rf_data f' ∧
    (roomy (length bs) w →
     cp_repack cp_unpack_chainpack_func cp_pack_chainpack_func f it (Some w) =
       (f', it', Some (written bs w), true)) ∧ buf it' = None ∧ bufsiz it' = 0.
Proof.
  intros Hwf Hh Hy Hr He Hlen. unfold cp_repack.
  set (it0 := set_buffer (Some (replicate (Z.to_nat BUFSIZ) 0)) BUFSIZ it).
  assert (has_buffer it0) as Hbuf.
  { split; [by eexists|]. split; [done|]. split; [by apply (bool_decide_unpack _)|].
    unfold it0. cbn [buf bufsiz set_buffer set_bufsiz set_buf]. rewrite length_replicate.
    unfold BUFSIZ. lia. }
  destruct (copies_node n f it0 f' w Hwf Hh Hy Hr Hbuf) as (bs & Hb & Hrun).
  destruct (decide (roomy (length bs) w)) as [Hw|Hw].
  - destruct (Hrun He Hw) as (k & it' & Hk & _ & _ & Hs). exists bs, (set_buffer None 0 it').
    split; [done|]. split; [intros _|done]. unfold outcome, ofile in *. simpl in Hs.
    rewrite (cloop_run _ 65 k _ _ Hs); [done|]. rewrite Hb, length_app in Hlen. lia.
  - exists bs, (set_buffer None 0 it). done.
Qed.
