(* ===== verification/CpSpec.v ===== *)
(** * Properties of the generic packers and unpackers

    What the tools of [cp_unpack.h], [cp_pack.h] and [cp_tools.h] do with values,
    proved for any unpacker that keeps [UnpackSpec] and shown on ChainPack. *)

From S2P Require Import Prelude Stdio Chainpack CpItem ChainpackPack ChainpackUnpack.
From S2P Require Import ChainpackRoundtrip CpUnpack CpUnpackChainpack CpPack CpTools.

(** ** Skipping *)

(** C16: [cp_unpack_skip] skips exactly one value.  Wherever the reader stands,
    even amid a string or blob, what is left of the current item and the whole
    next value, with everything nested in it, is consumed and nothing after it;
    the item is ready for the next one. *)
Theorem cp_unpack_skip_value {U} (unpack : U → cpitem → U * cpitem) `{!UnpackSpec unpack}
    u it u1 u' n :
  at_item unpack u it u1 → node_wf n = true → height n ≤ DEPTH_MAX →
  yields_list unpack (toks n) u1 u' → Z.of_nat (length (toks n)) < 2 ^ 64 →
  ∃ it', cp_unpack_skip unpack u it = (u', it') ∧ ready it' = true ∧
    buf it' = None ∧ bufsiz it' = 0.
Proof. apply skip_node. Qed.

Definition sample_node : node :=
  Cont TList [Atom (TInt 1); Cont TMap [Atom (TString (str "key")); Atom TNull]; Atom (TUInt 300)].

Definition sample_stream : list Z := flat_map tok_bytes (toks sample_node).

Definition fresh : cpitem := Item CPITEM_INVALID (AsError CPERR_NONE) None 0.

Lemma cp_unpack_skip_value_witness :
  ∃ it', cp_unpack_skip cp_unpack_chainpack_func (RFile (sample_stream ++ [7]) false) fresh =
    (RFile [7] false, it') ∧ ready it' = true ∧ buf it' = None ∧ bufsiz it' = 0.
Proof.
  apply (cp_unpack_skip_value cp_unpack_chainpack_func _ _
    (RFile (sample_stream ++ [7]) false) _ sample_node).
  - by left.
  - done.
  - by vm_compute.
  - apply (yields_tok_bytes (toks sample_node) [7] false).
    repeat constructor; by apply (bool_decide_unpack _); vm_compute.
  - by vm_compute.
Defined.

(** C17: [cp_unpack_finish] with a depth of [k] reads to the end of the [k]-th
    container around the reader: the values left in each of them and the [k] ends,
    and nothing after the last one. *)
Theorem cp_unpack_finish_containers {U} (unpack : U → cpitem → U * cpitem) `{!UnpackSpec unpack}
    u it u1 u' gs :
  at_item unpack u it u1 → (0 < length gs)%nat → Z.of_nat (length gs) ≤ DEPTH_MAX →
  Forall (λ l, nodes_ok l (Z.of_nat (length gs))) gs →
  yields_list unpack (closing gs) u1 u' → Z.of_nat (length (closing gs)) < 2 ^ 64 →
  ∃ it', cp_unpack_finish unpack u it (Z.of_nat (length gs)) = (u', it') ∧
    type it' = CPITEM_CONTAINER_END ∧ buf it' = None ∧ bufsiz it' = 0.
Proof. apply finish_closing. Qed.

Lemma cp_unpack_finish_containers_witness :
  let f := RFile (flat_map tok_bytes (closing [[Atom TNull]; [sample_node]]) ++ [7]) false in
  ∃ it', cp_unpack_finish cp_unpack_chainpack_func f fresh 2 = (RFile [7] false, it') ∧
    type it' = CPITEM_CONTAINER_END ∧ buf it' = None ∧ bufsiz it' = 0.
Proof.
  intros f. apply (cp_unpack_finish_containers cp_unpack_chainpack_func f fresh f (RFile [7] false)
    [[Atom TNull]; [sample_node]]).
  - by left.
  - simpl. lia.
  - by vm_compute.
  - apply Forall_cons. split; [|apply Forall_singleton];
      intros n Hn; apply list_elem_of_singleton in Hn as ->; by vm_compute.
  - apply (yields_tok_bytes (closing [[Atom TNull]; [sample_node]]) [7] false).
    repeat constructor; by apply (bool_decide_unpack _); vm_compute.
  - by vm_compute.
Defined.

(** ** Copying *)

(** C13: [cp_repack] from ChainPack to ChainPack copies one value byte for byte:
    the output is exactly the bytes the value occupies in the input, strings and
    blobs longer than the buffer included, and the reader stands behind it. *)
Theorem cp_repack_verbatim n f it f' w :
  node_wf n = true → height n ≤ DEPTH_MAX → yields_list cp_unpack_chainpack_func (toks n) f f' →
  ready it = true → wf_err w = false → Z.of_nat (length (rf_data f)) < 2 ^ 64 →
  roomy (length (rf_data f)) w →
  ∃ bs it', rf_data f = bs ++ rf_data f' ∧
    cp_repack cp_unpack_chainpack_func cp_pack_chainpack_func f it (Some w) =
      (f', it', Some (written bs w), true) ∧ buf it' = None ∧ bufsiz it' = 0.
Proof.
  intros Hwf Hh Hy Hr He Hlen Hroom.
  destruct (repack_node n f it f' w Hwf Hh Hy Hr He Hlen) as (bs & it' & Hb & Hc & ?).
  exists bs, it'. split; [done|]. split; [|done]. apply Hc.
  apply (roomy_le _ (length (rf_data f))); [rewrite Hb, length_app; lia|done].
Qed.

Lemma cp_repack_verbatim_witness :
  ∃ bs it', sample_stream ++ [7] = bs ++ [7] ∧
    cp_repack cp_unpack_chainpack_func cp_pack_chainpack_func
      (RFile (sample_stream ++ [7]) false) fresh (Some (WFile [] None false)) =
      (RFile [7] false, it', Some (written bs (WFile [] None false)), true) ∧
    buf it' = None ∧ bufsiz it' = 0.
Proof.
  apply (cp_repack_verbatim sample_node (RFile (sample_stream ++ [7]) false) fresh (RFile [7] false)).
  - done.
  - by vm_compute.
  - apply (yields_tok_bytes (toks sample_node) [7] false).
    repeat constructor; by apply (bool_decide_unpack _); vm_compute.
  - done.
  - done.
  - by vm_compute.
  - done.
Defined.

(** Duplicating a string or blob gives its data, as much of it as was asked
    for, with a terminator when no size is passed back, however many blocks it
    takes.  The reader is behind the data or still in it when the limit was hit.
    The one exception is an empty blob: shrinking the block to zero bytes frees
    it and it is freed again. *)
Theorem cp_unpack_dup_data {U} (unpack : U → cpitem → U * cpitem) `{!UnpackSpec unpack}
    blob sized l u it u' max :
  data_next unpack blob l u it u' → Z.of_nat (length l) < 2 ^ 62 → urange 64 max →
  let q := take (Z.to_nat max) l in
  ∃ u1 it1,
    cp_unpack_dup unpack (λ _, true) (data_type blob) sized max u it =
      (u1, it1, if sized then match q with [] => DupTwice | _ => DupData q end
                else DupData (q ++ [0])) ∧
    at_item unpack u1 it1 u' ∧
    (Z.of_nat (length l) < max → ready it1 = true ∧ u1 = u') ∧ bufsiz it1 = 0.
Proof. apply dup_spec. Qed.

Lemma cp_unpack_dup_data_witness :
  let l := str "a string longer than one block" in
  let f := RFile (tok_bytes (TString l) ++ [7]) false in
  ∃ f1 it1,
    cp_unpack_dup cp_unpack_chainpack_func (λ _, true) CPITEM_STRING false SIZE_MAX f fresh =
      (f1, it1, DupData (take (Z.to_nat SIZE_MAX) l ++ [0])) ∧
    at_item cp_unpack_chainpack_func f1 it1 (RFile [7] false) ∧
    (Z.of_nat (length l) < SIZE_MAX → ready it1 = true ∧ f1 = RFile [7] false) ∧ bufsiz it1 = 0.
Proof.
  intros l f. apply (cp_unpack_dup_data cp_unpack_chainpack_func false false l f fresh (RFile [7] false)).
  - left. split; [|done].
    exists (tok_bytes (TString l)). split; [left|done]. split; [|done].
    split; [by vm_compute|]. repeat constructor; by apply (bool_decide_unpack _); vm_compute.
  - by vm_compute.
  - by apply (bool_decide_unpack _); vm_compute.
Defined.

(** The empty blob on a ChainPack stream. *)
Example cp_unpack_memdup_empty :
  (cp_unpack_memdup cp_unpack_chainpack_func (λ _, true) (RFile [CPS_Blob; 0] false) fresh).2 = DupTwice.
Proof. by vm_compute. Qed.

(** [cp_unpack_strncpy] copies at most [n] bytes of the string into the
    destination and returns how many; it never touches the memory past them, and
    it terminates the copy exactly when the whole string and the terminator fit. *)
Theorem cp_unpack_strncpy_copy {U} (unpack : U → cpitem → U * cpitem) `{!UnpackSpec unpack}
    l u it u' dest n :
  data_next unpack false l u it u' → urange 64 n → n ≤ Z.of_nat (length dest) →
  let q := take (Z.to_nat n) l in
  ∃ u1 it1 m,
    cp_unpack_strncpy unpack u it (Some dest) n = (u1, it1, Z.of_nat (length q)) ∧
    buf it1 = Some m ∧ length m = length dest ∧ take (length q) m = q ∧
    drop (Z.to_nat n) m = drop (Z.to_nat n) dest ∧
    (Z.of_nat (length l) < n → m !! length l = Some 0 ∧ ready it1 = true ∧ u1 = u') ∧
    at_item unpack u1 it1 u'.
Proof. apply strncpy_spec. Qed.

Lemma cp_unpack_strncpy_copy_witness :
  let l := str "path" in
  let f := RFile (tok_bytes (TString l) ++ [7]) false in
  let q := take 8 l in
  ∃ f1 it1 m,
    cp_unpack_strncpy cp_unpack_chainpack_func f fresh (Some (replicate 9 1)) 8 =
      (f1, it1, Z.of_nat (length q)) ∧
    buf it1 = Some m ∧ length m = 9%nat ∧ take (length q) m = q ∧
    drop 8 m = drop 8 (replicate 9 1) ∧
    (Z.of_nat (length l) < 8 → m !! length l = Some 0 ∧ ready it1 = true ∧ f1 = RFile [7] false) ∧
    at_item cp_unpack_chainpack_func f1 it1 (RFile [7] false).
Proof.
  intros l f. apply (cp_unpack_strncpy_copy cp_unpack_chainpack_func l f fresh (RFile [7] false)).
  - left. split; [|done].
    exists (tok_bytes (TString l)). split; [left|done]. split; [|done].
    split; [by vm_compute|]. repeat constructor; by apply (bool_decide_unpack _); vm_compute.
  - by apply (bool_decide_unpack _); vm_compute.
  - by vm_compute.
Defined.

(** A failed write to the stream [cp_pack_fopen] returns is reported as if all
    of it had been written. *)
Example fopen_write_failure :
  let full := Some (WFile [] (Some 0%nat) false) in
  let '(p, n) := fopen_write cp_pack_chainpack_func false [1; 2; 3] full in
  n = 3 ∧ (fopen_close cp_pack_chainpack_func false p).2 = 0 ∧
  p = Some (WFile [] (Some 0%nat) true).
Proof. by vm_compute. Qed.
