(* ===== verification/CpDecimal.v ===== *)
(** * Decimal numbers and times ([libshvcp/cpdecimal.c], [include/shv/cp.h])

    Decimals are [mantissa * 10 ^ exponent].  [cpdecnorm] brings one to its
    normal form and [cpdecexp] to a given exponent; [cpdtoi] is the conversion to
    an integer built on it.  The loops run at most twenty rounds, the number of
    decimal digits of a 64 bit mantissa. *)

From S2P Require Import Prelude Stdio CpItem.

(** ** Definitions *)

Definition decnorm_step (v : cpdecimal) : cpdecimal + cpdecimal :=
  if Z.rem (mantissa v) 10 =? 0
  then inl (Decimal (Z.quot (mantissa v) 10) (i32 (exponent v + 1)))
  else inr v.

Definition cpdecnorm (v : cpdecimal) : cpdecimal :=
  if mantissa v =? 0 then Decimal (mantissa v) 0
  else match cloop decnorm_step 6 v with inl v' => v' | inr v' => v' end.

(** [neg]: towards a larger exponent.  The result is the decimal and what is
    returned. *)
Definition decexp_step (neg : Z) (ex : Z) (v : cpdecimal) : cpdecimal + cpdecimal * bool :=
  if negb (exponent v =? ex) && negb (mantissa v =? 0) then
    if neg <? 0 then
      if bool_decide (srange 64 (mantissa v * 10))
      then inl (Decimal (mantissa v * 10) (i32 (exponent v + neg)))
      else inr (v, false)
    else inl (Decimal (Z.quot (mantissa v) 10) (i32 (exponent v + neg)))
  else inr (v, true).

Definition cpdecexp (v : cpdecimal) (ex : Z) : cpdecimal * bool :=
  let neg := if exponent v <? ex then 1 else -1 in
  match cloop (decexp_step neg ex) 6 v with inl v' => (v', true) | inr r => r end.

(** [None] is the [false] that leaves the destination alone. *)
Definition cpdtoi (t : ctype) (d : cpdecimal) (ex : Z) : option Z :=
  let '(d', ok) := cpdecexp d ex in
  if ok && fits_int t (mantissa d') then Some (conv t (mantissa d')) else None.

Definition cpitod (mantissa exponent : Z) : cpdecimal := cpdecnorm (Decimal mantissa exponent).

Definition cpitem_extract_decimal_int (t : ctype) (it : cpitem) (ex : Z) : option Z :=
  if bool_decide (type it = CPITEM_DECIMAL) then cpdtoi t (as_Decimal (as_ it)) ex else None.

(** [struct timespec] *)
Record timespec := Timespec { tv_sec : Z; tv_nsec : Z }.

Definition cpdttots (v : cpdatetime) (utc : bool) : timespec :=
  Timespec (i64 (Z.quot (msecs v) 1000 + (if utc then 0 else i32 (offutc v * 60))))
    (Z.rem (msecs v) 1000 * 1000000).

Definition cptstodt (v : timespec) : cpdatetime :=
  Datetime (i64 (tv_sec v * 1000 + Z.quot (tv_nsec v) 1000000)) 0.

(** ** Normal form *)

Lemma rem10_quot m : Z.rem m 10 = 0 → m = Z.quot m 10 * 10.
Proof. intros H. pose proof (Z.quot_rem' m 10). lia. Qed.

Lemma decnorm_steps j m e :
  m ≠ 0 → Z.abs m < 10 ^ Z.of_nat j → - 2 ^ 31 ≤ e → e + Z.of_nat j < 2 ^ 31 →
  ∃ k n, (k ≤ S j)%nat ∧ (n ≤ j)%nat ∧
    steps decnorm_step k (Decimal m e)
      (inr (Decimal (Z.quot m (10 ^ Z.of_nat n)) (e + Z.of_nat n))) ∧
    m = Z.quot m (10 ^ Z.of_nat n) * 10 ^ Z.of_nat n ∧
    Z.rem (Z.quot m (10 ^ Z.of_nat n)) 10 ≠ 0.
Proof.
  revert m e. induction j as [|j IH]; intros m e Hm Hj He He'; [simpl in Hj; lia|].
  destruct (Z.eqb_spec (Z.rem m 10) 0) as [H0|H0].
  - pose proof (rem10_quot m H0) as Hq. set (q := Z.quot m 10) in *.
    destruct (IH q (e + 1)) as (k & n & Hk & Hn & Hs & Hv & Hr); [lia| |lia|lia|].
    { rewrite Nat2Z.inj_succ, Z.pow_succ_r in Hj by lia. lia. }
    assert (Z.quot m (10 ^ Z.of_nat (S n)) = Z.quot q (10 ^ Z.of_nat n)) as Hqq.
    { rewrite Nat2Z.inj_succ, Z.pow_succ_r by lia. unfold q. rewrite Z.quot_quot by lia. done. }
    exists (S k), (S n). rewrite Hqq. split; [lia|]. split; [lia|]. split; [|split; [|done]].
    + apply (steps_next _ _ _ (Decimal q (e + 1))).
      * unfold decnorm_step. cbn [mantissa exponent]. rewrite H0. cbn.
        rewrite swrap_small by (unfold srange; lia). done.
      * by replace (e + Z.of_nat (S n)) with (e + 1 + Z.of_nat n) by lia.
    + rewrite Nat2Z.inj_succ, Z.pow_succ_r by lia. lia.
  - exists 1%nat, 0%nat. change (10 ^ Z.of_nat 0) with 1. rewrite Z.quot_1_r, Z.add_0_r.
    split; [lia|]. split; [lia|]. split; [|lia]. apply steps_stop. unfold decnorm_step.
    cbn [mantissa]. by rewrite (proj2 (Z.eqb_neq _ _)).
Qed.

(** ** Change of exponent *)

Lemma quot_small_pow m n : 0 ≤ n → Z.quot 0 (10 ^ n) = 0 ∧ (m = 0 → Z.quot m (10 ^ n) = 0).
Proof. intros Hn. split; [by apply Z.quot_0_l; lia|]. intros ->. apply Z.quot_0_l. lia. Qed.

Lemma decexp_div_steps j m e ex :
  Z.abs m < 10 ^ Z.of_nat j → srange 32 e → srange 32 ex → e ≤ ex →
  ∃ k e', (k ≤ S j)%nat ∧
    steps (decexp_step 1 ex) k (Decimal m e) (inr (Decimal (Z.quot m (10 ^ (ex - e))) e', true)).
Proof.
  revert m e. induction j as [|j IH]; intros m e Hj He Hex Hle.
  - assert (m = 0) as -> by (simpl in Hj; lia). exists 1%nat, e. split; [lia|].
    rewrite Z.quot_0_l by lia. apply steps_stop. unfold decexp_step. cbn. by rewrite andb_false_r.
  - destruct (decide (e = ex)) as [->|Hne].
    { exists 1%nat, ex. split; [lia|]. rewrite Z.sub_diag, Z.pow_0_r, Z.quot_1_r.
      apply steps_stop. unfold decexp_step. cbn [exponent mantissa]. by rewrite Z.eqb_refl. }
    destruct (decide (m = 0)) as [->|Hm].
    { exists 1%nat, e. split; [lia|]. rewrite Z.quot_0_l by lia. apply steps_stop.
      unfold decexp_step. cbn [exponent mantissa]. by rewrite andb_false_r. }
    destruct (IH (Z.quot m 10) (e + 1)) as (k & e' & Hk & Hs); [|unfold srange in *; lia|done|lia|].
    { rewrite Nat2Z.inj_succ, Z.pow_succ_r in Hj by lia. rewrite <-Z.quot_abs by lia.
      rewrite Z.quot_div_nonneg by lia. apply Z.div_lt_upper_bound; lia. }
    exists (S k), e'. split; [lia|].
    apply (steps_next _ _ _ (Decimal (Z.quot m 10) (e + 1))).
    + unfold decexp_step. cbn [exponent mantissa].
      rewrite (proj2 (Z.eqb_neq e ex)), (proj2 (Z.eqb_neq m 0)) by done. cbn [negb andb Z.ltb].
      rewrite swrap_small by (unfold srange in *; lia). done.
    + replace (ex - e) with (1 + (ex - (e + 1))) by lia. rewrite Z.pow_add_r by lia.
      rewrite Z.pow_1_r, <-Z.quot_quot by lia. done.
Qed.

Lemma srange_mul_iff m n :
  srange 64 m → m ≠ 0 → 1 ≤ n → srange 64 (m * 10 ^ n) → srange 64 (m * 10).
Proof.
  unfold srange. intros Hm H0 Hn Hr.
  assert (10 ^ n = 10 * 10 ^ (n - 1)) as E by (rewrite <-Z.pow_succ_r by lia; f_equal; lia).
  assert (1 ≤ 10 ^ (n - 1)) by (change 1 with (10 ^ 0); apply Z.pow_le_mono_r; lia).
  rewrite E in Hr. nia.
Qed.

Lemma decexp_mul_steps j m e ex :
  m = 0 ∨ 2 ^ 63 < Z.abs m * 10 ^ Z.of_nat j → srange 64 m → srange 32 e → srange 32 ex → ex ≤ e →
  ∃ k v, (k ≤ S j)%nat ∧
    steps (decexp_step (-1) ex) k (Decimal m e)
      (inr (v, bool_decide (srange 64 (m * 10 ^ (e - ex))))) ∧
    (srange 64 (m * 10 ^ (e - ex)) → mantissa v = m * 10 ^ (e - ex)).
Proof.
  revert m e. induction j as [|j IH]; intros m e Hj Hm He Hex Hle.
  - unfold srange in Hm. destruct Hj as [->|Hj]; [|lia]. exists 1%nat, (Decimal 0 e).
    split; [lia|]. rewrite Z.mul_0_l, bool_decide_true by (by apply (bool_decide_unpack _)).
    split; [|done]. apply steps_stop. unfold decexp_step. cbn. by rewrite andb_false_r.
  - destruct (decide (e = ex)) as [->|Hne].
    { exists 1%nat, (Decimal m ex). split; [lia|]. rewrite Z.sub_diag, Z.pow_0_r, Z.mul_1_r.
      rewrite bool_decide_true by done. split; [|done].
      apply steps_stop. unfold decexp_step. cbn [exponent mantissa]. by rewrite Z.eqb_refl. }
    destruct (decide (m = 0)) as [->|Hm0].
    { exists 1%nat, (Decimal 0 e). split; [lia|].
      rewrite Z.mul_0_l, bool_decide_true by (by apply (bool_decide_unpack _)). split; [|done].
      apply steps_stop. unfold decexp_step. cbn [exponent mantissa]. by rewrite andb_false_r. }
    assert (m * 10 ^ (e - ex) = m * 10 * 10 ^ (e - 1 - ex)) as E.
    { rewrite <-Z.mul_assoc, <-Z.pow_succ_r by lia. do 2 f_equal. lia. }
    destruct (decide (srange 64 (m * 10))) as [Hr|Hr].
    + destruct (IH (m * 10) (e - 1)) as (k & v & Hk & Hs & Hv); [|done|unfold srange in *; lia|done|lia|].
      { right. destruct Hj as [?|Hj]; [done|]. rewrite Nat2Z.inj_succ, Z.pow_succ_r in Hj by lia. lia. }
      rewrite <-E in *. exists (S k), v. split; [lia|]. split; [|done].
      apply (steps_next _ _ _ (Decimal (m * 10) (e - 1))); [|done].
      unfold decexp_step. cbn [exponent mantissa].
      rewrite (proj2 (Z.eqb_neq e ex)), (proj2 (Z.eqb_neq m 0)) by done. cbn [negb andb Z.ltb Z.compare].
      rewrite bool_decide_true by done. rewrite swrap_small by (unfold srange in *; lia). done.
    + exists 1%nat, (Decimal m e). split; [lia|].
      assert (¬ srange 64 (m * 10 ^ (e - ex))) as Hno.
      { intros H. apply Hr. apply (srange_mul_iff m (e - ex)); [done|done|lia|done]. }
      rewrite (bool_decide_false _ Hno). split; [|done]. apply steps_stop. unfold decexp_step.
      cbn [exponent mantissa].
      rewrite (proj2 (Z.eqb_neq e ex)), (proj2 (Z.eqb_neq m 0)) by done. cbn [negb andb Z.ltb Z.compare].
      by rewrite bool_decide_false.
Qed.

(** The scaled value: cropped towards a larger exponent. *)
Definition rescale (m e ex : Z) : Z :=
  if e <? ex then Z.quot m (10 ^ (ex - e)) else m * 10 ^ (e - ex).

Lemma cpdecexp_spec v ex :
  srange 64 (mantissa v) → srange 32 (exponent v) → srange 32 ex →
  let r := rescale (mantissa v) (exponent v) ex in
  ∃ v', cpdecexp v ex = (v', bool_decide (srange 64 r)) ∧ (srange 64 r → mantissa v' = r).
Proof.
  intros Hm He Hex r. unfold cpdecexp, r, rescale. destruct v as [m e]. cbn [mantissa exponent] in *.
  unfold srange in Hm. destruct (Z.ltb_spec e ex).
  - destruct (decexp_div_steps 19 m e ex) as (k & e' & Hk & Hs); [simpl; lia|done|done|lia|].
    assert (srange 64 (Z.quot m (10 ^ (ex - e)))) as Hr.
    { assert (10 ^ 1 ≤ 10 ^ (ex - e)) by (apply Z.pow_le_mono_r; lia).
      assert (Z.abs (Z.quot m (10 ^ (ex - e))) < 2 ^ 63); [|unfold srange; lia].
      rewrite <-Z.quot_abs, Z.quot_div_nonneg by lia. apply Z.div_lt_upper_bound; nia. }
    rewrite (cloop_run _ 6 k _ _ Hs) by (simpl; lia). rewrite bool_decide_true by done. by eexists.
  - destruct (decexp_mul_steps 19 m e ex) as (k & v & Hk & Hs & Hv); [|done..|lia|].
    { destruct (decide (m = 0)); [by left|right]. simpl. lia. }
    rewrite (cloop_run _ 6 k _ _ Hs) by (simpl; lia). by exists v.
Qed.

(** ** Properties *)

(** Normalization keeps the value and removes all trailing zeros: the
    mantissa is divided by a power of ten exactly, the exponent grows by the same
    power, and the new mantissa is not a multiple of ten. *)
Theorem cpdecnorm_normal m e :
  srange 64 m → m ≠ 0 → - 2 ^ 31 ≤ e < 2 ^ 31 - 19 →
  let v := cpdecnorm (Decimal m e) in
  e ≤ exponent v ≤ e + 19 ∧ m = mantissa v * 10 ^ (exponent v - e) ∧ Z.rem (mantissa v) 10 ≠ 0.
Proof.
  intros Hm H0 He. unfold srange in Hm.
  destruct (decnorm_steps 19 m e) as (k & n & Hk & Hn & Hs & Hv & Hr); [done|simpl; lia|lia|simpl; lia|].
  unfold cpdecnorm. cbn [mantissa]. rewrite (proj2 (Z.eqb_neq m 0)) by done.
  rewrite (cloop_run _ 6 k _ _ Hs) by (simpl; lia). cbn [mantissa exponent].
  replace (e + Z.of_nat n - e) with (Z.of_nat n) by lia. split; [lia|]. done.
Qed.

Lemma cpdecnorm_normal_witness :
  let v := cpdecnorm (Decimal (-120000) 3) in
  3 ≤ exponent v ≤ 3 + 19 ∧ -120000 = mantissa v * 10 ^ (exponent v - 3) ∧ Z.rem (mantissa v) 10 ≠ 0.
Proof.
  apply cpdecnorm_normal; [by apply (bool_decide_unpack _); vm_compute|done|lia].
Defined.

(** [cpdtoi] converts exactly when the scaled value fits: it succeeds if
    and only if the decimal at the wanted exponent, cropped towards zero, is a 64
    bit number in the range of the signed destination, which it then stores. *)
Theorem cpdtoi_exact w d ex :
  0 < w ≤ 64 → srange 64 (mantissa d) → srange 32 (exponent d) → srange 32 ex →
  let r := rescale (mantissa d) (exponent d) ex in
  cpdtoi (Signed w) d ex = if bool_decide (srange 64 r ∧ srange w r) then Some r else None.
Proof.
  intros Hw Hm He Hex r. destruct (cpdecexp_spec d ex Hm He Hex) as (v' & Hc & Hv).
  fold r in Hc, Hv. unfold cpdtoi. rewrite Hc. destruct (decide (srange 64 r)) as [Hr|Hr].
  - rewrite bool_decide_true by done. rewrite Hv by done. cbn [andb conv fits_int].
    destruct (decide (srange w r)) as [Hwr|Hwr].
    + rewrite bool_decide_true by done. rewrite swrap_small by (done || lia). by rewrite Z.eqb_refl.
    + rewrite bool_decide_false by tauto. pose proof (swrap_range w r ltac:(lia)).
      destruct (Z.eqb_spec r (swrap w r)) as [E|]; [|done]. by rewrite E in Hwr.
  - rewrite !bool_decide_false by tauto. done.
Qed.

Lemma cpdtoi_exact_witness :
  cpdtoi (Signed 32) (Decimal 12345 (-3)) (-1) =
    if bool_decide (srange 64 123 ∧ srange 32 123) then Some 123 else None.
Proof.
  apply (cpdtoi_exact 32 (Decimal 12345 (-3)) (-1));
    [lia|by apply (bool_decide_unpack _); vm_compute..].
Defined.
