(* ===== verification/CpDatetime.v ===== *)
(** * Dates ([libshvcp/cpdatetime.c])

    Conversions between a date and time and the broken down time of the C library, with
    the calendar of [gmtime_r] and [timegm]. *)

From S2P Require Import Prelude CpItem.

(** ** The calendar *)

(** [struct tm] without what is not used of it: months count from zero and years from
    1900. *)
Record tm : Type := Tm {
  tm_sec : Z; tm_min : Z; tm_hour : Z; tm_mday : Z; tm_mon : Z; tm_year : Z; tm_gmtoff : Z }.

(** Days from the first of March of the year zero to the first day of a month of a year
    that starts in March, [m] from zero. *)
Definition days_of_year (y : Z) : Z := 365 * y + y / 4 - y / 100 + y / 400.
Definition days_of_month (m : Z) : Z := (153 * m + 2) / 5.

(** The first of January of 1970. *)
Definition EPOCH_DAYS : Z := 719468.

(** The days since the epoch of the day [d] of the month [m], from zero, of [y]: months
    before March are of the year before. *)
Definition days_from_civil (y m d : Z) : Z :=
  let y := y + m / 12 in
  let m := m mod 12 in
  let '(y, m) := if m <? 2 then (y - 1, m + 10) else (y, m - 2) in
  days_of_year y + days_of_month m + d - 1 - EPOCH_DAYS.

(** A day since the epoch as year, month and day. *)
Definition civil_from_days (z : Z) : Z * Z * Z :=
  let z := z + EPOCH_DAYS in
  let era := z / 146097 in
  let doe := z mod 146097 in
  let yoe := (doe - doe / 1460 + doe / 36524 - doe / 146096) / 365 in
  let doy := doe - days_of_year yoe in
  let m := (5 * doy + 2) / 153 in
  let d := doy - days_of_month m + 1 in
  let y := yoe + era * 400 in
  if m <? 10 then (y, m + 2, d) else (y + 1, m - 10, d).

Definition gmtime (t : Z) : tm :=
  let '(y, m, d) := civil_from_days (t / 86400) in
  let s := t mod 86400 in
  Tm (s mod 60) (s / 60 mod 60) (s / 3600) d m (y - 1900) 0.

(** Fields out of their range carry over. *)
Definition timegm (v : tm) : Z :=
  86400 * days_from_civil (tm_year v + 1900) (tm_mon v) (tm_mday v) +
  3600 * tm_hour v + 60 * tm_min v + tm_sec v.

(** ** Conversions *)

Definition set_gmtoff (o : Z) (v : tm) : tm :=
  Tm (tm_sec v) (tm_min v) (tm_hour v) (tm_mday v) (tm_mon v) (tm_year v) o.

Definition cpdttotm (v : cpdatetime) : tm :=
  set_gmtoff (i32 (offutc v * 60)) (gmtime (Z.quot (msecs v) 1000)).

Definition cptmtodt (v : tm) : cpdatetime :=
  Datetime (i64 (timegm v * 1000)) (Z.quot (i32 (tm_gmtoff v)) 60).

(** The clock, and the offset that [localtime_r] gives for it. *)
Definition clock_cpdatetime (tv_sec tv_nsec gmtoff : Z) : cpdatetime :=
  Datetime (i64 (tv_sec * 1000 + Z.quot tv_nsec 1000000)) (i32 (Z.quot gmtoff 60)).

(** ** Lemmas *)

(** A boolean property checked for the integers from zero one after the other. *)
Definition check_below (P : Z → bool) (n : positive) : Z * bool :=
  Pos.iter (λ '(i, ok), (i + 1, ok && P i)) (0, true) n.

Lemma check_below_spec P n : (check_below P n).2 = true → ∀ z, 0 ≤ z < Z.pos n → P z = true.
Proof.
  assert ((check_below P n).1 = Z.pos n ∧ ((check_below P n).2 = true → ∀ z, 0 ≤ z < Z.pos n → P z = true))
    as [_ H]; [|exact H].
  unfold check_below. induction n as [|n [IH1 IH2]] using Pos.peano_ind.
  - simpl. split; [done|]. intros H z Hz. by replace z with 0 by lia.
  - rewrite Pos.iter_succ. destruct (Pos.iter _ _ n) as [i ok]. simpl in *. subst i. split; [lia|].
    intros [Ho Hp]%andb_true_iff z Hz. destruct (Z.eq_dec z (Z.pos n)) as [->|]; [done|]. apply IH2; [done|lia].
Qed.

(** The days of one era of 400 years are those of its years and months. *)
Definition era_day (doe : Z) : bool :=
  let yoe := (doe - doe / 1460 + doe / 36524 - doe / 146096) / 365 in
  let doy := doe - days_of_year yoe in
  let m := (5 * doy + 2) / 153 in
  let d := doy - days_of_month m + 1 in
  (0 <=? m) && (m <? 12) && (1 <=? d) && (d <=? 31) && (0 <=? yoe) && (yoe <? 400).

Lemma era_days doe : 0 ≤ doe < 146097 → era_day doe = true.
Proof. apply (check_below_spec era_day 146097). vm_cast_no_check (eq_refl true). Qed.

Lemma days_of_era y e : days_of_year (y + 400 * e) = days_of_year y + 146097 * e.
Proof.
  unfold days_of_year.
  replace (y + 400 * e) with (y + (100 * e) * 4) at 2 by lia. rewrite Z.div_add by lia.
  replace (y + 400 * e) with (y + (4 * e) * 100) at 2 by lia. rewrite Z.div_add by lia.
  replace (y + 400 * e) with (y + e * 400) at 2 by lia. rewrite Z.div_add by lia. lia.
Qed.

(** The fields are in their range and say which day it is. *)
Lemma civil_days z :
  let '(y, m, d) := civil_from_days z in
  0 ≤ m < 12 ∧ 1 ≤ d ≤ 31 ∧ days_from_civil y m d = z.
Proof.
  unfold civil_from_days. set (w := z + EPOCH_DAYS).
  pose proof (Z.mod_pos_bound w 146097 ltac:(lia)) as Hb. pose proof (Z.div_mod w 146097 ltac:(lia)) as Hw.
  pose proof (era_days _ Hb) as He. unfold era_day in He. rewrite !andb_true_iff in He.
  set (doe := w mod 146097) in *. set (era := w / 146097) in *. set (yoe := _ / 365) in *.
  set (m := (5 * (doe - days_of_year yoe) + 2) / 153) in *.
  destruct He as [[[[[Hm1 Hm2] Hd1] Hd2] Hy1] Hy2].
  assert (∀ k, days_of_year (yoe + era * 400) + days_of_month m +
    (doe - days_of_year yoe - days_of_month m + 1) - 1 - k = w - k) as Hsum.
  { intros k. rewrite (Z.mul_comm era 400), days_of_era. lia. }
  destruct (Z.ltb_spec m 10); (split; [lia|split; [lia|]]); unfold days_from_civil.
  - rewrite Z.div_small, Z.mod_small, Z.add_0_r by lia. rewrite (proj2 (Z.ltb_ge _ _)) by lia.
    replace (m + 2 - 2) with m by lia. rewrite Hsum. lia.
  - rewrite Z.div_small, Z.mod_small, Z.add_0_r by lia. rewrite (proj2 (Z.ltb_lt _ _)) by lia.
    replace (m - 10 + 10) with m by lia. replace (yoe + era * 400 + 1 - 1) with (yoe + era * 400) by lia.
    rewrite Hsum. lia.
Qed.

(** A broken down time in range. *)
Definition tm_ok (v : tm) : Prop :=
  0 ≤ tm_sec v < 60 ∧ 0 ≤ tm_min v < 60 ∧ 0 ≤ tm_hour v < 24 ∧ 1 ≤ tm_mday v ≤ 31 ∧ 0 ≤ tm_mon v < 12.

Lemma gmtime_ok t : tm_ok (gmtime t) ∧ timegm (gmtime t) = t ∧ tm_gmtoff (gmtime t) = 0.
Proof.
  unfold gmtime, timegm. pose proof (civil_days (t / 86400)) as Hc.
  destruct (civil_from_days (t / 86400)) as [[y m] d]. destruct Hc as (Hm & Hd & Hz).
  pose proof (Z.mod_pos_bound t 86400 ltac:(lia)) as Hb. pose proof (Z.div_mod t 86400 ltac:(lia)) as Ht.
  set (s := t mod 86400) in *.
  assert (s / 3600 = s / 60 / 60) as -> by (by rewrite Z.div_div by lia).
  assert (s = 3600 * (s / 60 / 60) + 60 * (s / 60 mod 60) + s mod 60) as Hs.
  { pose proof (Z.div_mod (s / 60) 60 ltac:(lia)). pose proof (Z.div_mod s 60 ltac:(lia)). lia. }
  pose proof (Z.mod_pos_bound s 60 ltac:(lia)). pose proof (Z.mod_pos_bound (s / 60) 60 ltac:(lia)).
  unfold tm_ok. cbn [tm_sec tm_min tm_hour tm_mday tm_mon tm_year tm_gmtoff].
  replace (y - 1900 + 1900) with y by lia. rewrite Hz. split; [|split; [lia|done]]. lia.
Qed.

(** C40: a date and time that is broken down and put together again is the same to the
    second, whatever the year, with its offset, and the fields in between are those of a
    calendar. *)
Theorem cpdatetime_roundtrip d :
  srange 64 (msecs d) → - 2 ^ 31 ≤ offutc d * 60 < 2 ^ 31 →
  tm_ok (cpdttotm d) ∧
  cptmtodt (cpdttotm d) = Datetime (msecs d - Z.rem (msecs d) 1000) (offutc d).
Proof.
  intros Hm Ho. destruct (gmtime_ok (Z.quot (msecs d) 1000)) as (Hok & Ht & _).
  split; [exact Hok|]. unfold cptmtodt, cpdttotm.
  change (timegm (set_gmtoff _ ?v)) with (timegm v). rewrite Ht. cbn [tm_gmtoff set_gmtoff].
  rewrite !(swrap_small 32) by (done || by rewrite swrap_small).
  pose proof (Z.quot_rem (msecs d) 1000 ltac:(lia)) as Hq.
  replace (Z.quot (msecs d) 1000 * 1000) with (msecs d - Z.rem (msecs d) 1000) by lia.
  rewrite swrap_small; [|done|].
  - rewrite Z.quot_mul by lia. done.
  - unfold srange in *. pose proof (Z.rem_bound_abs (msecs d) 1000 ltac:(lia)).
    destruct (Z.le_gt_cases 0 (msecs d)).
    + pose proof (Z.rem_nonneg (msecs d) 1000 ltac:(lia) ltac:(lia)). pose proof (Z.rem_le (msecs d) 1000). lia.
    + pose proof (Z.rem_nonpos (msecs d) 1000 ltac:(lia) ltac:(lia)). lia.
Qed.

Lemma cpdatetime_roundtrip_witness :
  cptmtodt (cpdttotm (Datetime 1700000000123 (-90))) = Datetime 1700000000000 (-90) ∧
  cpdttotm (Datetime 1700000000123 (-90)) = Tm 20 13 22 14 10 123 (-5400).
Proof.
  split; [|by vm_compute]. apply (cpdatetime_roundtrip (Datetime 1700000000123 (-90))); unfold srange; simpl; lia.
Defined.
