(* ===== verification/Cpon.v ===== *)
(** * CPON ([libshvcp/cpon_pack.c], [libshvcp/cpon_unpack.c])

    The text format of the values ChainPack has.  The packer keeps a context for every
    open container, from which it takes the separators and the brackets; the unpacker
    looks at the characters alone. *)

From S2P Require Import Prelude Stdio CpItem ChainpackPack CpDatetime.

(** ** State *)

Record cpon_state_ctx : Type := Ctx { tp : cpitem_type; first : bool; even : bool; meta : bool }.

(** [ctx] is the array, whose length is [cnt]. *)
Record cpon_state : Type := CponState { depth : Z; ctx : list cpon_state_ctx }.

Definition cnt (s : cpon_state) : Z := Z.of_nat (length (ctx s)).

(** [ctx[i]] is changed. *)
Definition set_ctx (i : Z) (f : cpon_state_ctx → cpon_state_ctx) (s : cpon_state) : cpon_state :=
  CponState (depth s) (alter f (Z.to_nat i) (ctx s)).

(** The array of the packers grows to double its size; the new part is not initialized. *)
Definition cpon_state_realloc (l : list cpon_state_ctx) : list cpon_state_ctx :=
  l ++ replicate (if (length l =? 0)%nat then 1 else length l) (Ctx CPITEM_INVALID false false false).

Definition new_cpon_state : cpon_state := CponState 0 [].

(** ** Numbers *)

Definition DQUOTE : Z := 34.
Definition BACKSLASH : Z := 92.

(** The digits of [PUTUINT], the last one first; the buffer has room for 39. *)
Fixpoint uint_digits (n : nat) (u : Z) (buf : list Z) : list Z :=
  match n with
  | O => buf
  | S n => let buf := (u mod 10 + 48) :: buf in if u / 10 =? 0 then buf else uint_digits n (u / 10) buf
  end.

Definition PUTUINT (u : Z) : cmd := if u <? 10 then PUTC (u + 48) else WRITE (uint_digits 39 u []).

(** The lowest number has no absolute value: the result is its unsigned value. *)
Definition PUTINT (v : Z) : cmd := (if v <? 0 then PUTC 45 else skipc) ;;; PUTUINT (u64 (Z.abs v)).

(** Upper case digits. *)
Definition hex_upper (v : Z) : Z := let v := Z.land v 0xf in v + (if 10 <=? v then 55 else 48).

Definition PUTHEX (v : Z) : cmd := PUTC (hex_upper v).

(** A formatted text.  The count is unsigned, so the failure of the stream is taken for
    one character less. *)
Definition PRINTF (l : list Z) : cmd :=
  λ f res,
    match WRITE l f res with
    | (f, None) => (f, Some (res - 1))
    | r => r
    end.

(** What [printf] makes of a number with a precision. *)
Definition print_prec (n : nat) (v : Z) : list Z :=
  let d := uint_digits 39 (Z.abs v) [] in
  (if v <? 0 then [45] else []) ++ replicate (n - length d) 48 ++ d.

(** *** Decimals *)

Fixpoint each_char (l : list Z) : cmd :=
  match l with [] => skipc | c :: l => PUTC c ;;; each_char l end.

(** The number of digits before the point is [len + exponent], if there are any. *)
Definition cpon_pack_decimal (dec : cpdecimal) : ofile → ofile * Z :=
  let e := exponent dec in
  body (
    if (e <=? 6) && (-9 <=? e) then
      let neg := mantissa dec <? 0 in
      let digits := uint_digits 39 (u64 (if neg then - mantissa dec else mantissa dec)) [] in
      let len := Z.of_nat (length digits) in
      let k := Z.to_nat (len + Z.min e 0) in
      (if neg then PUTC 45 else skipc) ;;;
      each_char (take k digits) ;;;
      each_char (replicate (Z.to_nat e) 48) ;;;
      (if len <=? - e then PUTC 48 else skipc) ;;;
      PUTC 46 ;;;
      each_char (replicate (Z.to_nat (- e - len)) 48) ;;;
      each_char (drop k digits)
    else PUTINT (mantissa dec) ;;; PUTC 101 ;;; PUTINT e).

(** *** Doubles

    [frexp] times two: the fraction as in the pattern of a number between one and two,
    and the exponent for it.  Numbers without the implicit one are shifted; for those
    that are not finite the exponent is that of a half, as the C library leaves it. *)
Fixpoint normalize (n : nat) (frac e : Z) : Z * Z :=
  match n with
  | O => (frac, e)
  | S n => if frac <? 2 ^ 52 then normalize n (2 * frac) (e - 1) else (frac - 2 ^ 52, e)
  end.

Definition frexp2 (bits : Z) : Z * Z :=
  let frac := bits mod 2 ^ 52 in
  let biased := bits / 2 ^ 52 mod 2 ^ 11 in
  if biased =? 2047 then (frac, -1)
  else if biased =? 0 then normalize 53 frac (-1022)
  else (frac, biased - 1023).

Definition is_zero (bits : Z) : bool := bits mod 2 ^ 63 =? 0.
Definition is_negative (bits : Z) : bool :=
  (2 ^ 63 <=? bits) && negb ((bits / 2 ^ 52 mod 2 ^ 11 =? 2047) && negb (bits mod 2 ^ 52 =? 0)).

(** The digits of the fraction that are put to the buffer: the zeros in front of them are
    skipped. *)
Definition nibbles (frac : Z) : list Z := (λ i, Z.land (Z.shiftr frac (48 - 4 * i)) 0xf) <$> seqZ 0 13.

Fixpoint skip_zeros (l : list Z) : list Z :=
  match l with 0 :: l => skip_zeros l | _ => l end.

(** Up to the last one that is not zero; there is a zero when there is none. *)
Definition fraction_digits (frac : Z) : list Z :=
  match rev (skip_zeros (rev (skip_zeros (nibbles frac)))) with
  | [] => [48]
  | l => hex_upper <$> l
  end.

Definition cpon_pack_double (bits : Z) : ofile → ofile * Z :=
  body (
    if is_zero bits then WRITE (str "0x0.0p+1")
    else
      let '(frac, e) := frexp2 bits in
      (if is_negative bits then PUTC 45 else skipc) ;;;
      WRITE (str "0x1." ++ fraction_digits frac ++ str "p" ++ (if 0 <? e then str "+" else [])) ;;;
      PUTINT e).

(** *** Strings and blobs *)

(** The letter for a character that is escaped. *)
Definition escape_letter (b : Z) : option Z :=
  if b =? BACKSLASH then Some BACKSLASH
  else if b =? 0 then Some 48
  else if b =? 7 then Some 97
  else if b =? 8 then Some 98
  else if b =? 9 then Some 116
  else if b =? 10 then Some 110
  else if b =? 11 then Some 118
  else if b =? 12 then Some 102
  else if b =? 13 then Some 114
  else if b =? DQUOTE then Some DQUOTE
  else None.

Definition pack_byte (blob hex : bool) (b : Z) : cmd :=
  if blob && hex then PUTHEX (Z.shiftr b 4) ;;; PUTHEX b
  else
    let '(c, b) := match escape_letter b with Some v => (PUTC BACKSLASH, v) | None => (skipc, b) end in
    c ;;;
    (if blob && ((b <? 32) || (127 <=? b)) then PUTC BACKSLASH ;;; PUTHEX (Z.shiftr b 4) ;;; PUTHEX b
     else PUTC b).

Fixpoint pack_bytes (blob hex : bool) (l : list Z) : cmd :=
  match l with [] => skipc | b :: l => pack_byte blob hex b ;;; pack_bytes blob hex l end.

Definition cpon_pack_buf (i : cpitem) : ofile → ofile * Z :=
  let b := as_Blob (as_ i) in
  body (pack_bytes (bool_decide (type i = CPITEM_BLOB)) (has (flags b) CPBI_F_HEX) (take (Z.to_nat (len b)) (rbuf i))).

Definition cpon_pack_blob (start : list Z) (i : cpitem) : cmd :=
  let b := as_Blob (as_ i) in
  (if has (flags b) CPBI_F_FIRST then WRITE start else skipc) ;;;
  (if 0 <? len b then CALL (cpon_pack_buf i) else skipc) ;;;
  (if has (flags b) CPBI_F_LAST then PUTC DQUOTE else skipc).

(** *** Dates *)

Definition print_datetime (d : cpdatetime) : list Z :=
  let v := cpdttotm d in
  str "d" ++ [DQUOTE] ++ print_prec 0 (tm_year v + 1900) ++ str "-" ++ print_prec 2 (tm_mon v + 1) ++ str "-" ++
  print_prec 2 (tm_mday v) ++ str "T" ++ print_prec 2 (tm_hour v) ++ str ":" ++ print_prec 2 (tm_min v) ++ str ":" ++
  print_prec 2 (tm_sec v) ++ str "." ++ print_prec 3 (Z.rem (msecs d) 1000).

Definition print_offset (o : Z) : list Z :=
  (if 0 <? o then str "+" else []) ++ print_prec 2 (Z.quot o 60) ++ str ":" ++ print_prec 2 (Z.rem (Z.abs o) 60) ++ [DQUOTE].

Definition cpon_pack_datetime (d : cpdatetime) : cmd :=
  PRINTF (print_datetime d) ;;;
  (if offutc d =? 0 then WRITE (str "Z" ++ [DQUOTE]) else PRINTF (print_offset (offutc d))).

(** ** The packer *)

(** A command that changes the state as well. *)
Definition scmd : Type := ofile → cpon_state → Z → ofile * cpon_state * option Z.

Definition seqs (a b : scmd) : scmd :=
  λ f s res, match a f s res with
             | (f, s, Some res) => b f s res
             | r => r
             end.

Definition lift (c : cmd) : scmd := λ f s res, let '(f, res) := c f res in (f, s, res).
Definition change (g : cpon_state → cpon_state) : scmd := λ f s res, (f, g s, Some res).

Section pack.
(** [state->realloc], if there is one. *)
Context (realloc : option (list cpon_state_ctx → list cpon_state_ctx)).

Definition ctxpush (ty : cpitem_type) (text : list Z) : scmd :=
  λ f s res,
    let s := if depth s =? cnt s then
               match realloc with Some g => CponState (depth s) (g (ctx s)) | None => s end
             else s in
    let s' := set_ctx (depth s) (λ _, Ctx ty true true false) s in
    if depth s <? cnt s then
      seqs (lift (CALL (body (WRITE text)))) (change (λ s, CponState (depth s + 1) (ctx s))) f s' res
    else if depth s =? cnt s then
      seqs (lift (CALL (body (WRITE (str "..."))))) (change (λ s, CponState (depth s + 1) (ctx s))) f s res
    else change (λ s, CponState (depth s + 1) (ctx s)) f s res.

(** What is ended, [CPITEM_INVALID] when nothing is. *)
Definition ctxpop (s : cpon_state) : cpon_state * cpitem_type :=
  if 0 <? depth s then
    let s := CponState (depth s - 1) (ctx s) in
    (s, if depth s <? cnt s then match ctx s !! Z.to_nat (depth s) with Some c => tp c | None => CPITEM_INVALID end
        else CPITEM_INVALID)
  else (s, CPITEM_INVALID).

(** What is put in front of an item of the container. *)
Definition separator (c : cpon_state_ctx) : cmd :=
  match tp c with
  | CPITEM_LIST => if first c then skipc else PUTC 44
  | CPITEM_MAP | CPITEM_IMAP | CPITEM_META =>
      if even c then if first c then skipc else PUTC 44 else PUTC 58
  | _ => skipc
  end.

(** Further blocks of a string or blob and the end of a container are no items. *)
Definition separates (i : cpitem) : bool :=
  negb (bool_decide (type i = CPITEM_CONTAINER_END)) &&
  (negb (bool_decide (type i = CPITEM_STRING) || bool_decide (type i = CPITEM_BLOB)) ||
   has (flags (as_Blob (as_ i))) CPBI_F_FIRST).

Definition pack_separator (i : cpitem) : scmd :=
  λ f s res,
    match ctx s !! Z.to_nat (depth s - 1) with
    | Some c =>
        if (0 <? depth s) && separates i then
          if negb (meta c) then
            seqs (lift (separator c))
              (change (set_ctx (depth s - 1) (λ c, Ctx (tp c) false (negb (even c)) (meta c)))) f s res
          else change (set_ctx (depth s - 1) (λ c, Ctx (tp c) (first c) (even c) false)) f s res
        else (f, s, Some res)
    | None => (f, s, Some res)
    end.

Definition pack_end : scmd :=
  λ f s res,
    let '(s, ty) := ctxpop s in
    match ty with
    | CPITEM_LIST => lift (PUTC 93) f s res
    | CPITEM_MAP | CPITEM_IMAP => lift (PUTC 125) f s res
    | CPITEM_META =>
        seqs (lift (PUTC 62))
          (change (λ s, if 0 <? depth s then set_ctx (depth s - 1) (λ c, Ctx (tp c) (first c) (even c) true) s else s)) f s res
    | _ => (f, s, Some res)
    end.

(** The [switch] of [cpon_pack]. *)
Definition cpon_pack_item (i : cpitem) : scmd :=
  match type i with
  | CPITEM_INVALID => lift skipc (* handled in [common_pack] *)
  | CPITEM_NULL => lift (WRITE (str "null"))
  | CPITEM_BOOL => lift (WRITE (if as_Bool (as_ i) then str "true" else str "false"))
  | CPITEM_INT => lift (PUTINT (as_Int (as_ i)))
  | CPITEM_UINT => lift (PUTUINT (as_UInt (as_ i)) ;;; PUTC 117)
  | CPITEM_DOUBLE => lift (CALL (cpon_pack_double (as_Double (as_ i))))
  | CPITEM_DECIMAL => lift (CALL (cpon_pack_decimal (as_Decimal (as_ i))))
  | CPITEM_BLOB =>
      lift (cpon_pack_blob (if has (flags (as_Blob (as_ i))) CPBI_F_HEX then [120; DQUOTE] else [98; DQUOTE]) i)
  | CPITEM_STRING => lift (cpon_pack_blob [DQUOTE] i)
  | CPITEM_DATETIME => lift (cpon_pack_datetime (as_Datetime (as_ i)))
  | CPITEM_LIST => ctxpush CPITEM_LIST (str "[")
  | CPITEM_MAP => ctxpush CPITEM_MAP (str "{")
  | CPITEM_IMAP => ctxpush CPITEM_IMAP (str "i{")
  | CPITEM_META => ctxpush CPITEM_META (str "<")
  | CPITEM_CONTAINER_END => pack_end
  end.

(** Beyond the depth the array is for nothing is done: the other branch asks for a depth
    the first one has taken. *)
Definition cpon_pack (f : ofile) (s : cpon_state) (i : cpitem) : ofile * cpon_state * Z :=
  match common_pack f i with
  | Some res => (f, s, res)
  | None =>
      if depth s <=? cnt s then
        match seqs (pack_separator i) (cpon_pack_item i) f s 0 with
        | (f, s, Some res) => (f, s, res)
        | (f, s, None) => (f, s, -1)
        end
      else (f, s, 0)
  end.
End pack.

Definition cp_pack_cpon_func (p : ofile * cpon_state) (i : cpitem) : ofile * cpon_state * bool :=
  let '(f, s, res) := cpon_pack (Some cpon_state_realloc) p.1 p.2 i in (f, s, 0 <=? res).
