(* ===== verification/CponUnpack.v ===== *)
(** * CPON unpacker ([libshvcp/cpon_unpack.c])

    One item is read from the text at a time, with the integer conversions of [scanf].
    The state of the unpacker is not used by the code. *)

From S2P Require Import Prelude Stdio CpItem ChainpackUnpack CpDatetime Cpon.

(** ** Integers of [scanf] *)

Definition is_space (c : Z) : bool := (c =? 32) || ((9 <=? c) && (c <=? 13)).

Fixpoint skip_space (l : list Z) : list Z :=
  match l with c :: l' => if is_space c then skip_space l' else l | [] => [] end.

Definition digit_of (base c : Z) : option Z :=
  let d := if (48 <=? c) && (c <=? 57) then c - 48
           else if (97 <=? c) && (c <=? 102) then c - 87
           else if (65 <=? c) && (c <=? 70) then c - 55 else 16 in
  if d <? base then Some d else None.

(** At most [width] digits: the value, whether there are any, and what follows. *)
Fixpoint scan_digits (base : Z) (width : nat) (l : list Z) (v : Z) (any : bool) : list Z * Z * bool :=
  match width, l with
  | S width, c :: l' =>
      match digit_of base c with
      | Some d => scan_digits base width l' (v * base + d) true
      | None => (l, v, any)
      end
  | _, _ => (l, v, any)
  end.

(** A conversion: a number without bounds, the end of the input, or no number. *)
Inductive scanned := Scanned (v : Z) | ScanEnd | ScanFailed.

(** The base and what follows a prefix: hexadecimal and octal numbers are known by it when
    the base is zero, and a hexadecimal number may have it. *)
Definition scan_prefix (base : Z) (width : nat) (l : list Z) : Z * nat * list Z * bool :=
  if (base =? 0) || (base =? 16) then
    match width, l with
    | S w, c :: l' =>
        if c =? 48 then
          match w, l' with
          | S w', x :: l'' =>
              if (x =? 120) || (x =? 88) then (16, w', l'', false) else (if base =? 0 then 8 else 16, w, l', true)
          | _, _ => (if base =? 0 then 8 else 16, w, l', true)
          end
        else (if base =? 0 then 10 else 16, width, l, false)
    | _, _ => (if base =? 0 then 10 else 16, width, l, false)
    end
  else (base, width, l, false).

Definition scan_int (base : Z) (width : nat) (l : list Z) : list Z * scanned :=
  match skip_space l with
  | [] => ([], ScanEnd)
  | c :: l =>
      let '(sign, width, l) :=
        if c =? 45 then (-1, pred width, l) else if c =? 43 then (1, pred width, l) else (1, width, c :: l) in
      let '(base, width, l, zero) := scan_prefix base width l in
      let '(l, v, any) := scan_digits base width l 0 zero in
      (l, if any : bool then Scanned (sign * v) else ScanFailed)
  end.

(** Without a width. *)
Definition scan_all (base : Z) (l : list Z) : list Z * scanned := scan_int base (length l) l.

(** What [strtoimax] and [strtoumax] make of a number. *)
Definition clamp (v : Z) : Z := Z.max (- 2 ^ 63) (Z.min v (2 ^ 63 - 1)).
Definition uclamp (v : Z) : Z := if 2 ^ 64 <=? Z.abs v then 2 ^ 64 - 1 else u64 v.

(** [%u] after each of the characters, as far as they match: what follows, the numbers,
    and whether the input ended. *)
Fixpoint scan_fields (lits : list Z) (l : list Z) : list Z * list Z * bool :=
  match lits with
  | [] => (l, [], false)
  | x :: lits =>
      match l with
      | [] => ([], [], true)
      | c :: l' =>
          if c =? x then
            match scan_all 10 l' with
            | (l, Scanned v) => let '(l, vs, e) := scan_fields lits l in (l, u32 (uclamp v) :: vs, e)
            | (l, ScanEnd) => (l, [], true)
            | (l, ScanFailed) => (l, [], false)
            end
          else (l, [], false)
      end
  end.

(** ** Characters

    What is read is kept as a [char], so the byte 255 is taken for the end. *)
Inductive char := Char (c : Z) | AtEnd | LooksLikeEnd.

Definition GETC (f : rfile) : rfile * char :=
  match getc f with
  | (None, f) => (f, AtEnd)
  | (Some c, f) => (f, if c =? 255 then LooksLikeEnd else Char c)
  end.

Definition UNGETC (c : char) (f : rfile) : rfile := match c with Char c => ungetc c f | _ => f end.

(** [ERR_IO] and [ERR_INVALID] *)
Definition err_io (c : char) (f : rfile) (it : cpitem) : cpitem :=
  set_error (match c with LooksLikeEnd => CPERR_IO | _ => if feof f then CPERR_EOF else CPERR_IO end) it.
Definition err_invalid (it : cpitem) : cpitem := set_error CPERR_INVALID it.

(** [EXPECT]: the item with the error when it is another character; it is the expected one
    that is put back. *)
Definition EXPECT (v : Z) (f : rfile) (it : cpitem) (res : Z) : rfile * Z * option cpitem :=
  match GETC f with
  | (f, Char c) => if c =? v then (f, res + 1, None) else (ungetc v f, res, Some (err_invalid it))
  | (f, c) => (f, res + 1, Some (err_io c f it))
  end.

Fixpoint EXPECTS (l : list Z) (f : rfile) (it : cpitem) (res : Z) : rfile * Z * option cpitem :=
  match l with
  | [] => (f, res, None)
  | v :: l =>
      match EXPECT v f it res with
      | (f, res, None) => EXPECTS l f it res
      | r => r
      end
  end.

(** [SCANF] of one number: the count goes on by what was read. *)
Definition SCANF (base : Z) (width : option nat) (f : rfile) (res : Z) : rfile * Z * scanned :=
  let l := rf_data f in
  let '(l', r) := scan_int base (match width with Some w => w | None => length l end) l in
  (RFile l' (rf_fail f), res + (Z.of_nat (length l) - Z.of_nat (length l')), r).

(** ** Strings and blobs *)

(** The character for a letter behind a backslash. *)
Definition unescape (c : Z) : Z :=
  if c =? 97 then 7 else if c =? 98 then 8 else if c =? 116 then 9 else if c =? 110 then 10
  else if c =? 118 then 11 else if c =? 102 then 12 else if c =? 114 then 13 else c.

(** Stream, item, [i], [res] and [escape]. *)
Definition buf_state : Type := rfile * cpitem * Z * Z * bool.

(** [if (item->buf) item->buf[i++] = c] *)
Definition put_char (c i : Z) (it : cpitem) : cpitem * Z :=
  match buf it with Some _ => (buf_store i [u8 c] it, i + 1) | None => (it, i) end.

Definition is_hex (it : cpitem) : bool :=
  bool_decide (type it = CPITEM_BLOB) && has (flags (as_Blob (as_ it))) CPBI_F_HEX.

Definition mark_last (it : cpitem) : cpitem := set_flags (Z.lor (flags (as_Blob (as_ it))) CPBI_F_LAST) it.

(** One round of the loop; the result is that of the function. *)
Definition cpon_buf_step (s : buf_state) : buf_state + rfile * cpitem * Z * cperror :=
  let '(f, it, i, res, escape) := s in
  if i <? bufsiz it then
    match getc f with
    | (None, f) => inr (f, it, i, CPERR_EOF)
    | (Some c, f) =>
        let res := res + 1 in
        if is_hex it then
          if c =? DQUOTE then inr (f, set_len i (mark_last it), res, CPERR_NONE)
          else
            match SCANF 16 (Some 2%nat) (ungetc c f) (res - 1) with
            | (f, res, Scanned v) => let '(it, i) := put_char v i it in inl (f, it, i, res, escape)
            | (f, _, ScanEnd) => inr (f, it, i, CPERR_EOF)
            | (f, _, ScanFailed) => inr (f, it, i, CPERR_INVALID)
            end
        else if escape then
          let c := unescape c in
          let '(f, res, c) :=
            if bool_decide (type it = CPITEM_BLOB) then
              match SCANF 16 None (ungetc c f) (res - 1) with
              | (f, res, Scanned v) => (f, res, uclamp v)
              | (f, res, _) => (f, res, c)
              end
            else (f, res, c) in
          let '(it, i) := put_char c i it in inl (f, it, i, res, false)
        else if c =? BACKSLASH then inl (f, it, i, res, true)
        else if c =? DQUOTE then inr (f, set_len i (mark_last it), res, CPERR_NONE)
        else let '(it, i) := put_char c i it in inl (f, it, i, res, false)
    end
  else inr (f, set_len i it, res, CPERR_NONE).

(** A round consumes input or ends an escape, so [2 ^ 66] of them are never used up on a
    stream of less than [2 ^ 64] bytes (see [cpon_buf_ends]). *)
Definition cpon_unpack_buf (f : rfile) (it : cpitem) : rfile * cpitem * Z * cperror :=
  if bufsiz it =? 0 then (f, set_len 0 it, 0, CPERR_NONE)
  else match cloop cpon_buf_step 66 (f, it, 0, 0, false) with
       | inr r => r
       | inl (f, it, _, res, _) => (f, it, res, CPERR_NONE)
       end.

(** [CALL(cpon_unpack_buf, item); return res] *)
Definition cpon_call_buf (f : rfile) (it : cpitem) (res : Z) : rfile * cpitem * Z :=
  let '(f, it, n, err) := cpon_unpack_buf f it in
  (f, match err with
      | CPERR_EOF => err_io AtEnd f it
      | CPERR_INVALID => err_invalid it
      | _ => it
      end, res + n).

(** ** Between items *)

Inductive blank := Found (c : Z) | BlankEnd (c : char) | NoComment.

Definition is_blank (c : Z) : bool :=
  (c =? 32) || (c =? 9) || (c =? 13) || (c =? 10) || (c =? 58) || (c =? 44).

Fixpoint blanks (comment : bool) (l : list Z) (res : Z) : list Z * Z * blank :=
  match l with
  | [] => ([], res + 1, BlankEnd AtEnd)
  | c :: l =>
      if c =? 255 then (l, res + 1, BlankEnd LooksLikeEnd)
      else if comment then
        if c =? 42 then
          match l with
          | [] => ([], res + 2, BlankEnd AtEnd)
          | c :: l =>
              if c =? 255 then (l, res + 2, BlankEnd LooksLikeEnd) else blanks (negb (c =? 47)) l (res + 2)
          end
        else blanks true l (res + 1)
      else if is_blank c then blanks false l (res + 1)
      else if c =? 47 then
        match l with
        | [] => ([], res + 2, BlankEnd AtEnd)
        | c :: l =>
            if c =? 255 then (l, res + 2, BlankEnd LooksLikeEnd)
            else if c =? 42 then blanks true l (res + 2) else (42 :: l, res + 1, NoComment)
        end
      else (l, res + 1, Found c)
  end.

(** ** The unpacker *)

Section unpack.
(** What the exponent holds that is not written. *)
Context (stale : Z).

(** Trailing zeros of a mantissa that is not zero. *)
Fixpoint strip_zeros (n : nat) (m e : Z) : Z * Z :=
  match n with
  | O => (m, e)
  | S n => if Z.rem m 10 =? 0 then strip_zeros n (Z.quot m 10) (e + 1) else (m, e)
  end.

(** [.] and what follows; the fraction is added with the sign of what is in front of it. *)
Definition unpack_point (m : Z) (f : rfile) (res : Z) : rfile * cpdecimal * Z :=
  let '(f, res', r) := SCANF 10 None f res in
  let '(m, e) :=
    match r with
    | Scanned v =>
        let n := res' - res in
        (i64 ((if m <? 0 then -1 else 1) * uclamp v + m * i64 (10 ^ n)), i32 (- n))
    | _ => (m, stale)
    end in
  (f, if m =? 0 then Decimal m e else let '(m, e) := strip_zeros 20 m e in Decimal m e, res').

(** An unsigned number is the same in memory. *)
Definition unpack_number (neg : bool) (f : rfile) (it : cpitem) (res : Z) : rfile * cpitem * Z :=
  match SCANF 0 None f res with
  | (f, res, Scanned v) =>
      let v := clamp v in
      let it := set_as (AsInt v) (set_type CPITEM_INT it) in
      let '(f, c) := GETC f in
      let res := res + 1 in
      match c with
      | Char c =>
          if negb neg && (c =? 117) then (f, set_as (AsUInt (u64 v)) (set_type CPITEM_UINT it), res)
          else if c =? 101 then
            let '(f, res, r) := SCANF 0 None f res in
            (f, set_as (AsDecimal (Decimal v (match r with Scanned e => i32 (clamp e) | _ => 0 end)))
              (set_type CPITEM_DECIMAL it), res)
          else if c =? 46 then
            let '(f, d, res) := unpack_point v f res in (f, set_as (AsDecimal d) (set_type CPITEM_DECIMAL it), res)
          else (ungetc c f, it, res - 1)
      | _ => (f, it, res - 1)
      end
  | (f, res, _) => (f, err_io AtEnd f it, res)
  end.

(** [SCANF] of the two numbers of an offset; those that are not there are what was there. *)
Definition unpack_offset (f : rfile) (res : Z) : rfile * Z * Z :=
  let l := rf_data f in
  let '(l', h, m) :=
    match scan_all 10 l with
    | (l, Scanned h) => let '(l, vs, _) := scan_fields [58] l in (l, u32 (uclamp h), default stale (head vs))
    | (l, _) => (l, stale, stale)
    end in
  (RFile l' (rf_fail f), u32 (u32 (h * 60 + m) * 60), res + (Z.of_nat (length l) - Z.of_nat (length l'))).

Definition unpack_datetime (f : rfile) (it : cpitem) (res : Z) : rfile * cpitem * Z :=
  let l := rf_data f in
  let '(l', vs, ended) := scan_fields [DQUOTE; 45; 45; 84; 58; 58; 46] l in
  let f := RFile l' (rf_fail f) in
  let res := res + (Z.of_nat (length l) - Z.of_nat (length l')) in
  match vs with
  | [year; mon; day; hour; min; sec; ms] =>
      let '(f, c) := GETC f in
      let res := res + 1 in
      let t off := Tm (i32 sec) (i32 min) (i32 hour) (i32 day) (i32 (i32 mon - 1)) (i32 (i32 year - 1900)) off in
      let finish f off res :=
        match EXPECT DQUOTE f it res with
        | (f, res, None) =>
            let d := cptmtodt (t off) in
            (f, set_as (AsDatetime (Datetime (i64 (msecs d + ms)) (offutc d))) (set_type CPITEM_DATETIME it), res)
        | (f, res, Some it) => (f, it, res)
        end in
      match c with
      | Char c =>
          if c =? 90 then finish f 0 res
          else if (c =? 43) || (c =? 45) then
            let '(f, off, res) := unpack_offset f res in finish f (if c =? 45 then - off else off) res
          else (ungetc c f, err_invalid it, res - 1)
      | _ => (f, err_invalid it, res - 1)
      end
  | [] => (f, if ended then err_io AtEnd f it else err_invalid it, res)
  | _ => (f, err_invalid it, res)
  end.

(** A word of which the first letter was read. *)
Definition unpack_word (l : list Z) (f : rfile) (it it' : cpitem) (res : Z) : rfile * cpitem * Z :=
  match EXPECTS l f it res with
  | (f, res, None) => (f, it', res)
  | (f, res, Some it) => (f, it, res)
  end.

Definition unpack_string (ty : cpitem_type) (hex : bool) (f : rfile) (it : cpitem) (res : Z) : rfile * cpitem * Z :=
  let fl := Z.lor CPBI_F_FIRST CPBI_F_STREAM in
  cpon_call_buf f (set_bufinfo (BufInfo (len (as_Blob (as_ it))) 0 (if hex then Z.lor fl CPBI_F_HEX else fl))
    (set_type ty it)) res.

(** The [switch] over the first character. *)
Definition cpon_unpack_char (c : Z) (f : rfile) (it : cpitem) (res : Z) : rfile * cpitem * Z :=
  let at_ x := c =? x in
  if at_ 110 then unpack_word (str "ull") f it (set_type CPITEM_NULL it) res
  else if at_ 116 then unpack_word (str "rue") f it (set_as (set_Bool true (as_ it)) (set_type CPITEM_BOOL it)) res
  else if at_ 102 then unpack_word (str "alse") f it (set_as (set_Bool false (as_ it)) (set_type CPITEM_BOOL it)) res
  else if at_ 45 || ((48 <=? c) && (c <=? 57)) then unpack_number (at_ 45) (ungetc c f) it (res - 1)
  else if at_ 120 || at_ 98 then
    match EXPECT DQUOTE f it res with
    | (f, res, None) => unpack_string CPITEM_BLOB (at_ 120) f it res
    | (f, res, Some it) => (f, it, res)
    end
  else if at_ 100 then unpack_datetime f it res
  else if at_ DQUOTE then unpack_string CPITEM_STRING false f it res
  else if at_ 91 then (f, set_type CPITEM_LIST it, res)
  else if at_ 123 then (f, set_type CPITEM_MAP it, res)
  else if at_ 105 then unpack_word (str "{") f it (set_type CPITEM_IMAP it) res
  else if at_ 60 then (f, set_type CPITEM_META it, res)
  else if at_ 62 || at_ 125 || at_ 93 then (f, set_type CPITEM_CONTAINER_END it, res)
  else (ungetc c f, it, res - 1).

Definition cpon_unpack (f : rfile) (it : cpitem) : rfile * cpitem * Z :=
  if common_unpack it then (f, it, 0)
  else if continues it then
    cpon_call_buf f (set_flags (Z.ldiff (flags (as_Blob (as_ it))) CPBI_F_FIRST) it) 0
  else
    let it := set_type CPITEM_INVALID it in
    let '(l, res, b) := blanks false (rf_data f) 0 in
    let f := RFile l (rf_fail f) in
    match b with
    | Found c => cpon_unpack_char c f it res
    | BlankEnd c => (f, err_io c f it, res)
    | NoComment => (f, err_invalid it, res)
    end.

Definition cp_unpack_cpon_func (f : rfile) (it : cpitem) : rfile * cpitem :=
  let '(f, it, _) := cpon_unpack f it in (f, it).
End unpack.
