(* ===== verification/CponSpec.v ===== *)
(** * CPON packed and unpacked

    The text that is written for items, and that reading it gives the items back: for
    everything but doubles, which the unpacker does not know, and the decimals, dates and
    blobs it does not read as they are written. *)

From S2P Require Import Prelude Stdio CpItem ChainpackPack ChainpackUnpack ChainpackRoundtrip CpDatetime Cpon CponUnpack.

(** ** Digits *)

Definition is_digit (c : Z) : Prop := 48 ≤ c ≤ 57.

Definition dec_value (v : Z) (l : list Z) : Z := foldl (λ v c, v * 10 + (c - 48)) v l.

Lemma uint_digits_app n u l : uint_digits n u l = uint_digits n u [] ++ l.
Proof.
  revert u l. induction n as [|n IH]; intros u l; simpl; [done|]. destruct (_ =? 0); [done|].
  rewrite IH, (IH _ [_]), <-app_assoc. done.
Qed.

Lemma dec_value_app v l k : dec_value v (l ++ k) = dec_value (dec_value v l) k.
Proof. apply foldl_app. Qed.

(** The digits have the value, and only zero starts with a zero. *)
Lemma uint_digits_spec n u :
  0 ≤ u < 10 ^ Z.of_nat n → (0 < n)%nat →
  let d := uint_digits n u [] in
  Forall is_digit d ∧ dec_value 0 d = u ∧ (length d ≤ n)%nat ∧
  match d with [] => False | c :: d' => c = 48 → u = 0 ∧ d' = [] end.
Proof.
  revert u. induction n as [|n IH]; [lia|]. intros u Hu _. cbn [uint_digits].
  pose proof (Z.mod_pos_bound u 10 ltac:(lia)) as Hm. pose proof (Z.div_mod u 10 ltac:(lia)) as Hd.
  destruct (Z.eqb_spec (u / 10) 0) as [H0|Hn].
  - cbn zeta. split; [constructor; [unfold is_digit; lia|constructor]|]. split; [cbn; lia|].
    split; [simpl; lia|]. intros. split; [lia|done].
  - rewrite Nat2Z.inj_succ, Z.pow_succ_r in Hu by lia.
    assert (0 ≤ u / 10 < 10 ^ Z.of_nat n) as Hu' by (split; [apply Z.div_pos; lia|apply Z.div_lt_upper_bound; lia]).
    destruct n as [|n]; [simpl in Hu'; lia|].
    destruct (IH (u / 10) Hu' ltac:(lia)) as (Hf & Hv & Hl & Hc).
    rewrite uint_digits_app. set (d := uint_digits (S n) (u / 10) []) in *. cbn zeta.
    split; [apply Forall_app; split; [done|constructor; [unfold is_digit; lia|constructor]]|].
    split; [rewrite dec_value_app, Hv; cbn; lia|]. split; [rewrite length_app; simpl; lia|].
    destruct d as [|c d]; [done|]. cbn [app]. intros Hc48. by destruct (Hc Hc48).
Qed.

Definition digits (u : Z) : list Z := uint_digits 39 u [].

Lemma digits_spec u :
  0 ≤ u < 2 ^ 64 →
  Forall is_digit (digits u) ∧ dec_value 0 (digits u) = u ∧
  match digits u with [] => False | c :: d => c = 48 → u = 0 ∧ d = [] end.
Proof.
  intros Hu. destruct (uint_digits_spec 39 u) as (H1 & H2 & _ & H3); [|lia|done].
  split; [lia|]. apply Z.lt_trans with (2 ^ 64); [lia|by vm_compute].
Qed.

(** What ends a number. *)
Definition stops (r : list Z) : Prop :=
  match r with [] => True | c :: _ => c ∈ [44; 58; 62; 93; 125; 32; 9; 10; 13] end.

Definition no_digit (r : list Z) : Prop := match r with [] => True | c :: _ => digit_of 10 c = None end.

Lemma digit_of_digit c : is_digit c → digit_of 10 c = Some (c - 48).
Proof.
  intros Hc. unfold is_digit in Hc. unfold digit_of.
  rewrite (proj2 (Z.leb_le 48 c)), (proj2 (Z.leb_le c 57)) by lia. cbn [andb].
  by rewrite (proj2 (Z.ltb_lt _ _)) by lia.
Qed.

Lemma scan_digits_app w d r v any :
  Forall is_digit d → no_digit r → (length d ≤ w)%nat →
  scan_digits 10 w (d ++ r) v any = (r, dec_value v d, any || negb (bool_decide (d = []))).
Proof.
  intros Hd Hr. revert w v any. induction Hd as [|c d Hc Hd IH]; intros w v any Hw; cbn [app].
  - rewrite bool_decide_true, orb_false_r by done. destruct w, r as [|x r]; cbn [scan_digits]; try done.
    simpl in Hr. by rewrite Hr.
  - destruct w as [|w]; [simpl in Hw; lia|]. cbn [scan_digits]. rewrite digit_of_digit by done.
    rewrite IH by (simpl in Hw; lia). rewrite (bool_decide_false (c :: d = [])) by done.
    by rewrite orb_true_r.
Qed.

(** A number in front of something else, with base zero and with base ten. *)
Definition signed (v : Z) : list Z := (if v <? 0 then [45] else []) ++ digits (Z.abs v).

Lemma digit_char c : is_digit c → is_space c = false ∧ c ≠ 45 ∧ c ≠ 43 ∧ c ≠ 120 ∧ c ≠ 88.
Proof. unfold is_digit, is_space. lia. Qed.

Lemma stops_char r c : stops (c :: r) → digit_of 10 c = None ∧ digit_of 8 c = None ∧ c ≠ 120 ∧ c ≠ 88 ∧
  c ≠ 117 ∧ c ≠ 101 ∧ c ≠ 46 ∧ c ≠ 255.
Proof. unfold stops. rewrite !elem_of_cons, elem_of_nil. intros H. repeat destruct H as [->|H]; done. Qed.

Definition after (r : list Z) : Prop :=
  match r with [] => True | c :: _ => digit_of 10 c = None ∧ c ≠ 120 ∧ c ≠ 88 end.

Lemma after_digit r : after r → no_digit r ∧ ∀ w, scan_digits 8 w r 0 true = (r, 0, true).
Proof.
  destruct r as [|c r]; intros H; [split; [done|by intros []]|]. destruct H as (Hd & _). split; [done|]. intros [|w]; [done|].
  cbn [scan_digits]. unfold digit_of in *. set (d := if _ && _ then _ else _) in *. clearbody d.
  destruct (Z.ltb_spec d 10) as [|Hl]; [done|]. by rewrite (proj2 (Z.ltb_ge d 8)) by lia.
Qed.

Lemma scan_unsigned base w u r :
  base = 0 ∨ base = 10 → 0 ≤ u < 2 ^ 64 → after r → (length (digits u) ≤ w)%nat →
  (let '(b, w, l, z) := scan_prefix base w (digits u ++ r) in scan_digits b w l 0 z) = (r, u, true).
Proof.
  intros Hb Hu Hr Hw. destruct (digits_spec u Hu) as (Hf & Hv & Hc). destruct (after_digit r Hr) as [Hn H8].
  assert (scan_digits 10 w (digits u ++ r) 0 false = (r, u, true)) as H10.
  { rewrite scan_digits_app by done. rewrite Hv. by destruct (digits u). }
  destruct Hb as [->| ->]; [|exact H10]. unfold scan_prefix. cbn [Z.eqb orb]. change (0 =? 0) with true. cbn [orb].
  destruct (digits u) as [|c d]; [done|]. destruct w as [|w]; [simpl in Hw; lia|]. cbn [app].
  destruct (Z.eqb_spec c 48) as [->|]; [|exact H10]. destruct (Hc eq_refl) as [-> ->]. cbn [app].
  destruct w as [|w]; [by rewrite H8|]. destruct r as [|x r]; [by rewrite H8|].
  destruct Hr as (_ & Hx & HX). rewrite (proj2 (Z.eqb_neq x 120)), (proj2 (Z.eqb_neq x 88)) by done. cbn [orb].
  by rewrite H8.
Qed.

Lemma scan_signed base w v r :
  base = 0 ∨ base = 10 → - 2 ^ 63 ≤ v < 2 ^ 64 → after r → (length (signed v) ≤ w)%nat →
  scan_int base w (signed v ++ r) = (r, Scanned v).
Proof.
  intros Hb Hv Hr Hw. assert (0 ≤ Z.abs v < 2 ^ 64) as Ha by lia. unfold signed in *.
  destruct (digits_spec _ Ha) as (Hf & _ & Hc). unfold scan_int.
  destruct (Z.ltb_spec v 0) as [Hneg|Hpos].
  - cbn [app] in *. change (skip_space (45 :: ?l)) with (45 :: l).
    cbv beta iota zeta. rewrite Z.eqb_refl.
    pose proof (scan_unsigned base (pred w) (Z.abs v) r Hb Ha Hr ltac:(simpl in Hw; lia)) as Hs.
    cbv beta iota zeta. destruct (scan_prefix _ _ _) as [[[b w'] l] z].
    rewrite Hs. do 2 f_equal. lia.
  - cbn [app] in *. pose proof (scan_unsigned base w (Z.abs v) r Hb Ha Hr Hw) as Hs.
    destruct (digits (Z.abs v)) as [|c d]; [done|]. apply Forall_cons in Hf as [Hd _].
    destruct (digit_char c Hd) as (Hsp & H45 & H43 & _). cbn [app] in *. cbn [skip_space]. rewrite Hsp.
    rewrite (proj2 (Z.eqb_neq c 45)), (proj2 (Z.eqb_neq c 43)) by done.
    cbv beta iota zeta. destruct (scan_prefix _ _ _) as [[[b w'] l] z]. rewrite Hs. do 2 f_equal. lia.
Qed.

(** A number alone takes all its digits whatever follows. *)
Lemma scan_all_signed base v r :
  base = 0 ∨ base = 10 → - 2 ^ 63 ≤ v < 2 ^ 64 → after r → scan_all base (signed v ++ r) = (r, Scanned v).
Proof. intros. apply scan_signed; [done..|]. rewrite length_app. lia. Qed.

Lemma SCANF_signed v r e res :
  - 2 ^ 63 ≤ v < 2 ^ 64 → after r →
  SCANF 0 None (RFile (signed v ++ r) e) res = (RFile r e, res + Z.of_nat (length (signed v)), Scanned v).
Proof.
  intros Hv Hr. unfold SCANF. cbn [rf_data rf_fail].
  pose proof (scan_all_signed 0 v r ltac:(by left) Hv Hr) as Hs. unfold scan_all in Hs. rewrite Hs.
  rewrite length_app. do 2 f_equal. lia.
Qed.

(** ** The text of tokens *)

Definition hex_pair (b : Z) : list Z := [hex_upper (Z.shiftr b 4); hex_upper b].

Definition escaped (b : Z) : list Z :=
  match escape_letter b with Some v => [BACKSLASH; v] | None => [b] end.

(** Blobs as hexadecimal digits. *)
Definition tok_text (t : tok) : list Z :=
  match t with
  | TNull => str "null"
  | TBool b => if b then str "true" else str "false"
  | TInt v => signed v
  | TUInt v => digits v ++ str "u"
  | TDecimal d => signed (mantissa d) ++ str "e" ++ signed (exponent d)
  | TBlob l => str "x" ++ [DQUOTE] ++ concat (hex_pair <$> l) ++ [DQUOTE]
  | TString l => [DQUOTE] ++ concat (escaped <$> l) ++ [DQUOTE]
  | _ => []
  end.

(** The values that are read as they are written: no doubles, unsigned numbers a signed
    one has room for, decimals that are written with an exponent, and no zero in a
    string. *)
Definition cpon_tok (t : tok) : Prop :=
  match t with
  | TInt v => srange 64 v
  | TUInt v => 0 ≤ v < 2 ^ 63
  | TDecimal d => srange 64 (mantissa d) ∧ srange 32 (exponent d) ∧ (exponent d < -9 ∨ 6 < exponent d)
  | TBlob l => bytes l ∧ Z.of_nat (length l) < 2 ^ 63
  | TString l => bytes l ∧ Z.of_nat (length l) < 2 ^ 63 ∧ 0 ∉ l
  | TDouble _ | TDatetime _ => False
  | _ => True
  end.

Definition scalar (t : tok) : bool :=
  match t with TList | TMap | TIMap | TMeta | TEnd => false | _ => true end.

(** Whole, and for blobs with hexadecimal digits asked for. *)
Definition cpon_whole (i : cpitem) : Prop :=
  is_Some (buf i) ∧ (type i = CPITEM_BLOB → has (flags (as_Blob (as_ i))) CPBI_F_HEX = true).

(** *** Written *)

Lemma emits_eq c l k : emits c l → l = k → emits c k.
Proof. by intros ? <-. Qed.

Lemma emits_PUTUINT v : 0 ≤ v < 2 ^ 64 → emits (PUTUINT v) (digits v).
Proof.
  intros Hv. unfold PUTUINT. destruct (Z.ltb_spec v 10); [|by auto with shv].
  eapply emits_eq; [apply emits_PUTC|]. unfold digits. cbn [uint_digits].
  rewrite Z.div_small, Z.mod_small by lia. simpl. rewrite uwrap_small by (unfold urange; lia). done.
Qed.

Lemma emits_PUTINT v : srange 64 v → emits (PUTINT v) (signed v).
Proof.
  intros Hv. unfold PUTINT, signed. apply emits_seq.
  - destruct (v <? 0); auto with shv.
  - rewrite uwrap_small by (unfold urange, srange in *; lia). apply emits_PUTUINT. unfold srange in Hv. lia.
Qed.

Lemma hex_upper_byte v : byte (hex_upper v).
Proof.
  unfold hex_upper, byte. change 0xf with (2 ^ 4 - 1). rewrite land_ones_mod by lia.
  pose proof (Z.mod_pos_bound v (2 ^ 4) ltac:(lia)). destruct (10 <=? _); lia.
Qed.

Lemma u8_byte b : byte b → u8 b = b.
Proof. intros. by apply uwrap_small. Qed.

Lemma emits_hex_bytes l : emits (pack_bytes true true l) (concat (hex_pair <$> l)).
Proof.
  induction l as [|b l IH]; simpl; [by auto with shv|]. change (?x :: ?y :: ?k) with ([x; y] ++ k).
  apply emits_seq; [|done]. unfold pack_byte, PUTHEX. cbn [andb].
  eapply emits_eq; [apply emits_seq; apply emits_PUTC|]. by rewrite !u8_byte by apply hex_upper_byte.
Qed.

Lemma escape_letter_byte b v : escape_letter b = Some v → byte v.
Proof. unfold escape_letter. repeat case_match; intros [= <-]; by unfold byte, BACKSLASH, DQUOTE. Qed.

Lemma emits_string_bytes hex l : bytes l → emits (pack_bytes false hex l) (concat (escaped <$> l)).
Proof.
  induction 1 as [|b l Hb Hl IH]; simpl; [by auto with shv|]. apply emits_seq; [|done].
  unfold pack_byte, escaped. cbn [andb]. destruct (escape_letter b) as [v|] eqn:Hv.
  - eapply emits_eq; [apply emits_seq; apply emits_PUTC|]. by rewrite (u8_byte v) by eauto using escape_letter_byte.
  - eapply emits_eq; [apply emits_seq; [apply emits_skip|apply emits_PUTC]|]. by rewrite u8_byte by done.
Qed.

Lemma emits_blob start i l t (k : list Z) :
  type i = t → holds_data l i → is_Some (buf i) → Z.of_nat (length l) < 2 ^ 63 →
  emits (pack_bytes (bool_decide (t = CPITEM_BLOB)) (has (flags (as_Blob (as_ i))) CPBI_F_HEX) l) k → (l = [] → k = []) →
  emits (cpon_pack_blob start i) (start ++ k ++ [DQUOTE]).
Proof.
  intros Ht (fl & Ha & Hf & Hl & Hm) [m Hb] Hlen He H0. unfold cpon_pack_blob, cpon_pack_buf, rbuf in *.
  rewrite Ha, Hb, Ht in *. cbn [as_Blob len flags default] in *. rewrite Hf, Hl, Nat2Z.id.
  change (id m) with m.
  rewrite Hm.
  apply emits_seq; [by auto with shv|]. apply emits_seq; [|by auto with shv].
  destruct (Z.ltb_spec 0 (Z.of_nat (length l))); [by apply emits_CALL_body|].
  destruct l; [|simpl in *; lia]. rewrite H0 by done. by auto with shv.
Qed.

(** The command of an item that holds a scalar. *)
Lemma pack_scalar g t i :
  cpon_tok t → scalar t = true → holds t i → cpon_whole i →
  ∃ c, cpon_pack_item g i = lift c ∧ emits c (tok_text t).
Proof.
  intros Hwf Hs [Ht Hv] [Hb Hx]. unfold cpon_pack_item. pose proof Ht as Ht'. rewrite Ht.
  destruct t; try done; cbn [tok_type tok_text cpon_tok] in *; (eexists; split; [reflexivity|]).
  - by auto with shv.
  - destruct Hv as [hi ->]. cbn [as_Bool]. destruct b; by auto with shv.
  - rewrite Hv. by apply emits_PUTINT.
  - rewrite Hv. apply emits_seq; [apply emits_PUTUINT; cbn [as_UInt]; lia|by auto with shv].
  - destruct Hwf as (Hm & He & Hr). rewrite Hv. cbn [as_Decimal]. unfold cpon_pack_decimal.
    replace ((exponent d <=? 6) && (-9 <=? exponent d)) with false by lia. apply emits_CALL_body.
    apply emits_seq; [by apply emits_PUTINT|]. apply emits_seq; [by auto with shv|].
    apply emits_PUTINT. unfold srange in *. lia.
  - rewrite Hx by done. destruct Hwf as [Hby Hl].
    apply (emits_blob [120; DQUOTE] i l _ (concat (hex_pair <$> l)) Ht' Hv Hb Hl); [|by intros ->].
    rewrite Hx, bool_decide_true by done. apply emits_hex_bytes.
  - destruct Hwf as (Hby & Hl & _).
    apply (emits_blob [DQUOTE] i l _ (concat (escaped <$> l)) Ht' Hv Hb Hl); [|by intros ->].
    rewrite bool_decide_false by done. by apply emits_string_bytes.
Qed.

(** ** The contexts as a stack

    What the array, its part in use and its growth stand for: the contexts of the open
    containers, the innermost first. *)
Definition stack : Type := list cpon_state_ctx.

Definition stack_of (s : cpon_state) : stack := rev (take (Z.to_nat (depth s)) (ctx s)).
Definition state_ok (s : cpon_state) : Prop := 0 ≤ depth s ≤ cnt s.

Definition separator_text (c : cpon_state_ctx) : list Z :=
  match tp c with
  | CPITEM_LIST => if first c then [] else [44]
  | CPITEM_MAP | CPITEM_IMAP | CPITEM_META => if even c then if first c then [] else [44] else [58]
  | _ => []
  end.

(** Meta belong to what follows them. *)
Definition before (st : stack) : list Z :=
  match st with [] => [] | c :: _ => if meta c then [] else separator_text c end.

Definition entered (st : stack) : stack :=
  match st with
  | [] => []
  | c :: st => (if meta c then Ctx (tp c) (first c) (even c) false else Ctx (tp c) false (negb (even c)) false) :: st
  end.

Definition closing (ty : cpitem_type) : list Z :=
  match ty with
  | CPITEM_LIST => [93]
  | CPITEM_MAP | CPITEM_IMAP => [125]
  | CPITEM_META => [62]
  | _ => []
  end.

Definition after_meta (st : stack) : stack :=
  match st with [] => [] | c :: st => Ctx (tp c) (first c) (even c) true :: st end.

Definition left_ (st : stack) : stack :=
  match st with [] => [] | c :: st => if bool_decide (tp c = CPITEM_META) then after_meta st else st end.

Definition opening (t : tok) : list Z :=
  match t with TList => str "[" | TMap => str "{" | TIMap => str "i{" | TMeta => str "<" | _ => [] end.

(** The text of a token and the stack it leaves. *)
Definition item_step (st : stack) (t : tok) : list Z * stack :=
  match t with
  | TEnd => (match st with [] => [] | c :: _ => closing (tp c) end, left_ st)
  | TList | TMap | TIMap | TMeta =>
      (before st ++ opening t, Ctx (tok_type t) true true false :: entered st)
  | _ => (before st ++ tok_text t, entered st)
  end.

Fixpoint cpon_text (st : stack) (ts : list tok) : list Z :=
  match ts with
  | [] => []
  | t :: ts => let '(l, st) := item_step st t in l ++ cpon_text st ts
  end.

Lemma stack_top s c st :
  state_ok s → stack_of s = c :: st →
  0 < depth s ∧ ctx s !! Z.to_nat (depth s - 1) = Some c ∧
  ∀ g, stack_of (set_ctx (depth s - 1) g s) = g c :: st ∧ state_ok (set_ctx (depth s - 1) g s).
Proof.
  destruct s as [d l]. unfold state_ok, stack_of, set_ctx, cnt. cbn [depth ctx]. intros Hd Hs.
  assert (0 < d) by (destruct (Z.eq_dec d 0) as [->|]; [done|lia]). split; [done|].
  replace (Z.to_nat d) with (S (Z.to_nat (d - 1))) in Hs by lia.
  destruct (lookup_lt_is_Some_2 l (Z.to_nat (d - 1)) ltac:(lia)) as [x Hx].
  rewrite (take_S_r _ _ x), rev_app_distr in Hs by done. simpl in Hs. injection Hs as -> <-. split; [done|].
  intros g. rewrite length_alter. split; [|lia]. replace (Z.to_nat d) with (S (Z.to_nat (d - 1))) by lia.
  rewrite (take_S_r _ _ (g c)), rev_app_distr by (by rewrite list_lookup_alter_eq, Hx). simpl.
  by rewrite take_alter_ge by lia.
Qed.

Lemma stack_empty s : state_ok s → stack_of s = [] → depth s = 0.
Proof.
  unfold state_ok, stack_of, cnt. intros Hd Hs%(f_equal length). rewrite length_rev, length_take in Hs. simpl in Hs. lia.
Qed.

(** ** Packing *)

(** A command that writes [l] and changes the stack from [st] to [st']. *)
Definition does (c : scmd) (l : list Z) (st st' : stack) : Prop :=
  ∀ w s res, roomy (length l) w → state_ok s → stack_of s = st →
  ∃ s', c (Some w) s res = (Some (written l w), s', Some (res + Z.of_nat (length l))) ∧ state_ok s' ∧ stack_of s' = st'.

Lemma does_seq a b l k st st' st'' : does a l st st' → does b k st' st'' → does (seqs a b) (l ++ k) st st''.
Proof.
  intros Ha Hb w s res Hw Hs Hst. rewrite length_app in Hw. destruct (roomy_app _ _ l w eq_refl Hw) as [H1 H2].
  destruct (Ha w s res H1 Hs Hst) as (s1 & E1 & Hs1 & Hst1). unfold seqs. rewrite E1.
  destruct (Hb _ s1 (res + Z.of_nat (length l)) H2 Hs1 Hst1) as (s2 & E2 & Hs2 & Hst2). rewrite E2.
  exists s2. split; [|done]. rewrite written_app, length_app. do 2 f_equal. lia.
Qed.

Lemma does_lift c l st : emits c l → does (lift c) l st st.
Proof. intros Hc w s res Hw Hs Hst. exists s. unfold lift. by rewrite (emits_room _ _ Hc). Qed.

Lemma written_nil w : written [] w = w.
Proof. destruct w as [o [r|] e]; unfold written; simpl; by rewrite app_nil_r, ?Nat.sub_0_r. Qed.

Lemma does_change g st st' :
  (∀ s, state_ok s → stack_of s = st → state_ok (g s) ∧ stack_of (g s) = st') → does (change g) [] st st'.
Proof.
  intros Hg w s res _ Hs Hst. exists (g s). unfold change. rewrite written_nil, Z.add_0_r.
  split; [done|by apply Hg].
Qed.

Lemma separator_emits c : emits (separator c) (separator_text c).
Proof. unfold separator, separator_text. destruct (tp c), (first c), (even c); auto with shv. Qed.

Lemma holds_separates t i : holds t i → separates i = negb (bool_decide (t = TEnd)).
Proof.
  intros [Ht Hv]. unfold separates. rewrite Ht. destruct t; try done;
    destruct Hv as (fl & Ha & Hf & _); rewrite Ha; cbn [as_Blob flags]; by rewrite Hf.
Qed.

Lemma does_separator t i st :
  holds t i → t ≠ TEnd → does (pack_separator i) (before st) st (entered st).
Proof.
  intros Hh Ht w s res Hw Hs Hst. pose proof (holds_separates t i Hh) as Hsep.
  rewrite (bool_decide_false _ Ht) in Hsep. cbn [negb] in Hsep. unfold pack_separator. rewrite Hsep.
  destruct st as [|c st].
  - rewrite (stack_empty s Hs Hst). exists s. cbn [before entered]. rewrite written_nil.
    replace (res + Z.of_nat (@length Z [])) with res by (simpl; lia). by destruct (ctx s !! _).
  - destruct (stack_top s c st Hs Hst) as (Hd & Hc & Hset). rewrite Hc, (proj2 (Z.ltb_lt _ _)) by done.
    cbn [andb before entered] in *. destruct (meta c) eqn:Hm; cbn [negb].
    + eexists. split; [unfold change; by rewrite written_nil, Z.add_0_r|].
      split; apply Hset.
    + eexists. split; [unfold seqs, lift; by rewrite (emits_room _ _ (separator_emits c) _ _ Hw)|].
      split; [apply Hset|]. rewrite (proj1 (Hset _)). by rewrite Hm.
Qed.

Lemma stack_push d l x :
  0 ≤ d → d < Z.of_nat (length l) →
  stack_of (CponState (d + 1) (alter (λ _, x) (Z.to_nat d) l)) = x :: rev (take (Z.to_nat d) l).
Proof.
  intros Hd Hl. unfold stack_of. cbn [depth ctx]. replace (Z.to_nat (d + 1)) with (S (Z.to_nat d)) by lia.
  destruct (lookup_lt_is_Some_2 l (Z.to_nat d) ltac:(lia)) as [y Hy].
  rewrite (take_S_r _ _ x), rev_app_distr by (by rewrite list_lookup_alter_eq, Hy).
  by rewrite take_alter_ge.
Qed.

(** The array has room for another context when it was reallocated. *)
Definition grown (s : cpon_state) : cpon_state :=
  if depth s =? cnt s then CponState (depth s) (cpon_state_realloc (ctx s)) else s.

Lemma grown_room s :
  state_ok s → depth (grown s) = depth s ∧ depth s < cnt (grown s) ∧
  take (Z.to_nat (depth s)) (ctx (grown s)) = take (Z.to_nat (depth s)) (ctx s).
Proof.
  unfold state_ok, grown, cnt. intros Hd. destruct (Z.eqb_spec (depth s) (Z.of_nat (length (ctx s)))); [|split_and!; [done|lia|done]].
  cbn [depth ctx]. unfold cpon_state_realloc. rewrite length_app, length_replicate, take_app_le by lia.
  split; [done|]. split; [|done]. destruct (Nat.eqb_spec (length (ctx s)) 0); lia.
Qed.

Lemma does_push ty text st :
  does (ctxpush (Some cpon_state_realloc) ty text) text st (Ctx ty true true false :: st).
Proof.
  intros w s res Hw Hs Hst. destruct (grown_room s Hs) as (Hd & Hlt & Htk). unfold ctxpush. cbv zeta.
  change (if depth s =? cnt s then _ else s) with (grown s). rewrite !Hd, (proj2 (Z.ltb_lt _ _)) by done.
  unfold seqs, lift. rewrite (emits_room _ _ (emits_CALL_body _ _ (emits_WRITE text)) _ _ Hw).
  eexists. split; [reflexivity|]. unfold set_ctx. cbn [depth ctx]. rewrite Hd. unfold state_ok, cnt in *.
  cbn [depth ctx]. rewrite length_alter. split; [lia|]. rewrite stack_push by lia.
  by rewrite Htk, <-Hst.
Qed.

Lemma does_putc v st : u8 v = v → does (lift (PUTC v)) [v] st st.
Proof. intros Hv. apply does_lift. rewrite <-Hv at 2. apply emits_PUTC. Qed.

Lemma does_end st : does pack_end (match st with [] => [] | c :: _ => closing (tp c) end) st (left_ st).
Proof.
  intros w s res Hw Hs Hst. unfold pack_end, ctxpop. destruct st as [|c st].
  - rewrite (stack_empty s Hs Hst). exists s. cbn. by rewrite written_nil, Z.add_0_r.
  - destruct (stack_top s c st Hs Hst) as (Hd & Hc & _). rewrite (proj2 (Z.ltb_lt _ _)) by done. cbn [depth ctx].
    set (s1 := CponState _ _). unfold state_ok in Hs. unfold cnt at 1. cbn [ctx].
    change (length (ctx s1)) with (length (ctx s)). fold (cnt s). rewrite (proj2 (Z.ltb_lt _ _)), Hc by lia.
    assert (state_ok s1 ∧ stack_of s1 = st) as [Hs1 Hst1].
    { unfold s1, state_ok, stack_of, cnt in *. cbn [depth ctx] in *. split; [lia|].
      replace (Z.to_nat (depth s)) with (S (Z.to_nat (depth s - 1))) in Hst by lia.
      rewrite (take_S_r _ _ c), rev_app_distr in Hst by done. by injection Hst. }
    assert (left_ (c :: st) = match tp c with CPITEM_META => after_meta st | _ => st end) as -> by (unfold left_; by destruct (tp c)).
    destruct (tp c); cbn [closing] in *;
      try (exists s1; by rewrite written_nil, Z.add_0_r);
      try (by apply (does_putc _ st eq_refl w s1 res Hw)).
    apply (does_seq _ _ [62] [] _ _ (after_meta st) (does_putc 62 st eq_refl)); [|done..].
    apply does_change. intros s2 Hs2 Hst2. destruct st as [|c2 st2].
    + by rewrite (stack_empty s2 Hs2 Hst2).
    + destruct (stack_top s2 c2 st2 Hs2 Hst2) as (Hd2 & _ & Hset). rewrite (proj2 (Z.ltb_lt _ _)) by done.
      split; apply Hset.
Qed.

Lemma does_item t i st :
  cpon_tok t → holds t i → cpon_whole i →
  does (seqs (pack_separator i) (cpon_pack_item (Some cpon_state_realloc) i)) (item_step st t).1 st (item_step st t).2.
Proof.
  intros Hwf Hh Hw. destruct (decide (t = TEnd)) as [->|Ht].
  - assert (does (pack_separator i) [] st st) as Hsep.
    { intros w s res _ Hs Hst. exists s. unfold pack_separator. rewrite (holds_separates _ _ Hh), bool_decide_true by done.
      rewrite written_nil, Z.add_0_r, andb_false_r. by destruct (ctx s !! _). }
    apply (does_seq _ _ [] _ _ _ _ Hsep). unfold cpon_pack_item. rewrite (proj1 Hh). apply does_end.
  - pose proof (does_separator t i st Hh Ht) as Hsep. destruct (scalar t) eqn:Hsc.
    + destruct (pack_scalar (Some cpon_state_realloc) t i Hwf Hsc Hh Hw) as (c & -> & Hc).
      pose proof (does_seq _ _ _ _ _ _ _ Hsep (does_lift c _ (entered st) Hc)). by destruct t.
    + unfold cpon_pack_item. rewrite (proj1 Hh).
      destruct t; try done; apply (does_seq _ _ _ _ _ _ _ Hsep), does_push.
Qed.

(** An item is packed: the text is written, and the state stands for the next stack. *)
Lemma cpon_pack_item_text t i w s :
  cpon_tok t → holds t i → cpon_whole i → wf_err w = false → state_ok s →
  roomy (length (item_step (stack_of s) t).1) w →
  ∃ s', cpon_pack (Some cpon_state_realloc) (Some w) s i =
      (Some (written (item_step (stack_of s) t).1 w), s', Z.of_nat (length (item_step (stack_of s) t).1)) ∧
    state_ok s' ∧ stack_of s' = (item_step (stack_of s) t).2.
Proof.
  intros Hwf Hh Hw He Hs Hroom. destruct (does_item t i (stack_of s) Hwf Hh Hw w s 0 Hroom Hs eq_refl) as (s' & Hp & Hs').
  exists s'. split; [|done]. unfold cpon_pack, common_pack, ferror. rewrite He, (proj1 Hh).
  assert (depth s <=? cnt s = true) as -> by (apply Z.leb_le; apply Hs).
  rewrite Hp, Z.add_0_l. by destruct t.
Qed.

(** Packing of one item after another, as long as it does not fail. *)
Fixpoint cpon_pack_all (p : ofile * cpon_state) (its : list cpitem) : ofile * cpon_state * bool :=
  match its with
  | [] => (p, true)
  | i :: its => match cp_pack_cpon_func p i with
               | (p, true) => cpon_pack_all p its
               | r => r
               end
  end.

Lemma cpon_pack_text ts its w s :
  Forall cpon_tok ts → Forall2 holds ts its → Forall cpon_whole its → wf_err w = false → state_ok s →
  roomy (length (cpon_text (stack_of s) ts)) w →
  ∃ s', cpon_pack_all (Some w, s) its = ((Some (written (cpon_text (stack_of s) ts) w), s'), true) ∧ state_ok s'.
Proof.
  intros Hwf Hh. revert w s. induction Hh as [|t i ts its Hti Hts IH]; intros w s Hw He Hs Hroom.
  - exists s. cbn. by rewrite written_nil.
  - apply Forall_cons in Hwf as [Ht Hwf], Hw as [Hi Hw]. cbn [cpon_text cpon_pack_all] in *.
    destruct (item_step (stack_of s) t) as [l st] eqn:Hstep. rewrite length_app in Hroom.
    destruct (roomy_app _ _ l w eq_refl Hroom) as [H1 H2].
    destruct (cpon_pack_item_text t i w s Ht Hti Hi He Hs) as (s1 & Hp & Hs1 & Hst1); rewrite Hstep in *; [done|].
    cbn [fst snd] in *. unfold cp_pack_cpon_func. cbn [fst snd]. rewrite Hp, (proj2 (Z.leb_le 0 _)) by lia.
    destruct (IH Hwf (written l w) s1 Hw He Hs1) as (s2 & Hp2 & Hs2); rewrite Hst1 in *; [done|].
    exists s2. cbv beta iota zeta.
    split; [|done]. etransitivity; [exact Hp2|by rewrite written_app].
Qed.

(** ** Unpacking *)

Definition starts (c : Z) : Prop := is_blank c = false ∧ c ≠ 47 ∧ c ≠ 255.

Lemma before_cases st : before st = [] ∨ before st = [44] ∨ before st = [58].
Proof. destruct st as [|[ty [] [] []] st]; auto; destruct ty; cbn; auto. Qed.

Lemma cpon_unpack_first stale st c l e it :
  ready it = true → starts c →
  cpon_unpack stale (RFile (before st ++ c :: l) e) it =
    cpon_unpack_char stale c (RFile l e) (set_type CPITEM_INVALID it) (Z.of_nat (length (before st)) + 1).
Proof.
  intros [H1 H2]%ready_next (Hb & H47 & H255). unfold cpon_unpack. rewrite H1, H2. cbn [rf_data rf_fail].
  assert (∀ res, blanks false (c :: l) res = (l, res + 1, Found c)) as Hf.
  { intros res. cbn [blanks]. by rewrite (proj2 (Z.eqb_neq c 255)), Hb, (proj2 (Z.eqb_neq c 47)) by done. }
  destruct (before_cases st) as [-> | [-> | ->]]; cbn [app length].
  - by rewrite Hf.
  - change (blanks false (44 :: ?k) 0) with (blanks false k 1). by rewrite Hf.
  - change (blanks false (58 :: ?k) 0) with (blanks false k 1). by rewrite Hf.
Qed.

Lemma EXPECTS_text l r e it res :
  255 ∉ l → EXPECTS l (RFile (l ++ r) e) it res = (RFile r e, res + Z.of_nat (length l), None).
Proof.
  revert res. induction l as [|c l IH]; intros res Hl; simpl; [by rewrite Z.add_0_r|].
  apply not_elem_of_cons in Hl as [Hc Hl]. unfold EXPECT, GETC. cbn [getc rf_data rf_fail].
  rewrite (proj2 (Z.eqb_neq c 255)), Z.eqb_refl, IH by done. do 2 f_equal. lia.
Qed.

(** *** Numbers *)

Lemma stops_after r : stops r → after r.
Proof. destruct r as [|c r]; [done|]. intros (? & _ & ? & ? & _)%stops_char. done. Qed.

Lemma unpack_number_int stale neg v r e it res :
  srange 64 v → stops r →
  unpack_number stale neg (RFile (signed v ++ r) e) it res =
    (RFile r e, set_as (AsInt v) (set_type CPITEM_INT it), res + Z.of_nat (length (signed v))).
Proof.
  intros Hv Hr. unfold unpack_number. rewrite SCANF_signed by (apply stops_after; done) || (unfold srange in Hv; lia).
  assert (clamp v = v) as -> by (unfold clamp, srange in *; lia). unfold GETC. destruct r as [|c r]; cbn [getc rf_data rf_fail].
  - do 2 f_equal. lia.
  - destruct (stops_char r c Hr) as (_ & _ & _ & _ & Hu & He & Hp & Hx).
    rewrite (proj2 (Z.eqb_neq c 255)), (proj2 (Z.eqb_neq c 117)), (proj2 (Z.eqb_neq c 101)), (proj2 (Z.eqb_neq c 46)) by done.
    rewrite andb_false_r. unfold ungetc. cbn [rf_data rf_fail]. do 2 f_equal. lia.
Qed.

Lemma unpack_number_uint stale v r e it res :
  0 ≤ v < 2 ^ 63 →
  unpack_number stale false (RFile (signed v ++ 117 :: r) e) it res =
    (RFile r e, set_as (AsUInt v) (set_type CPITEM_UINT it), res + Z.of_nat (length (signed v)) + 1).
Proof.
  intros Hv. unfold unpack_number. rewrite SCANF_signed by (done || lia).
  assert (clamp v = v) as -> by (unfold clamp; lia). unfold GETC. cbn [getc rf_data rf_fail].
  by rewrite uwrap_small by (unfold urange; lia).
Qed.

Lemma unpack_number_decimal stale neg m x r e it res :
  srange 64 m → srange 32 x → stops r →
  unpack_number stale neg (RFile (signed m ++ 101 :: signed x ++ r) e) it res =
    (RFile r e, set_as (AsDecimal (Decimal m x)) (set_type CPITEM_DECIMAL it),
     res + Z.of_nat (length (signed m ++ 101 :: signed x))).
Proof.
  intros Hm Hx Hr. unfold unpack_number. rewrite SCANF_signed by (done || unfold srange in Hm; lia).
  assert (clamp m = m) as -> by (unfold clamp, srange in *; lia). unfold GETC. cbn [getc rf_data rf_fail].
  change (101 =? 255) with false. cbv beta iota zeta. change (101 =? 117) with false. rewrite andb_false_r, Z.eqb_refl.
  rewrite SCANF_signed by (apply stops_after; done) || (unfold srange in Hx; lia).
  assert (clamp x = x) as -> by (unfold clamp, srange in *; lia). rewrite swrap_small by (done || lia).
  rewrite length_app. cbn [length]. f_equal. lia.
Qed.

(** The first character of a number. *)
Lemma signed_first v :
  - 2 ^ 63 ≤ v < 2 ^ 64 →
  ∃ c d, signed v = c :: d ∧ starts c ∧ (c =? 45) = (v <? 0) ∧
    ((c =? 110) || (c =? 116) || (c =? 102) = false) ∧ (c =? 45) || ((48 <=? c) && (c <=? 57)) = true.
Proof.
  intros Hv. unfold signed. destruct (Z.ltb_spec v 0) as [Hn|Hp].
  - eexists _, _. split; [reflexivity|]. done.
  - destruct (digits_spec (Z.abs v) ltac:(lia)) as (Hf & _ & Hc). destruct (digits (Z.abs v)) as [|c d]; [done|].
    apply Forall_cons in Hf as [Hd _]. exists c, d. unfold is_digit, starts, is_blank in *. split; [done|]. lia.
Qed.

(** *** Strings and blobs *)

Lemma buf_store_cons i c l it :
  0 ≤ i → buf_store (i + 1) l (buf_store i [c] it) = buf_store i (c :: l) it.
Proof.
  intros Hi. unfold buf_store, set_buf. simpl. f_equal. destruct (buf it); [|done]. simpl. f_equal.
  replace (Z.to_nat (i + 1)) with (S (Z.to_nat i)) by lia. symmetry. apply list_insert_inserts_lt. lia.
Qed.

Lemma buf_store_nil i it : buf_store i [] it = it.
Proof. destruct it as [t u [m|] n]; done. Qed.

Lemma put_char_byte c i it : byte c → is_Some (buf it) → put_char c i it = (buf_store i [c] it, i + 1).
Proof. intros Hc [m Hm]. unfold put_char. by rewrite Hm, u8_byte. Qed.

Lemma unescape_letter b v : escape_letter b = Some v → b ≠ 0 → unescape v = b.
Proof. unfold escape_letter. repeat case_match; intros [= <-] ?; repeat match goal with H : (_ =? _) = true |- _ => apply Z.eqb_eq in H as -> end; done. Qed.

Lemma escape_letter_none b : escape_letter b = None → b ≠ BACKSLASH ∧ b ≠ DQUOTE.
Proof. unfold escape_letter. repeat case_match; try done. intros _. split; by apply Z.eqb_neq. Qed.

(** What the rounds over one character of the text do, for strings and for blobs. *)
Definition char_rounds (text : Z → list Z) (ok : cpitem → Prop) (b : Z) : Prop :=
  ∀ r e it i res x k, ok it → i < bufsiz it →
  steps cpon_buf_step k (RFile r e, buf_store i [b] it, i + 1, res + Z.of_nat (length (text b)), false) (inr x) →
  ∃ k', (k' ≤ k + 2)%nat ∧ steps cpon_buf_step k' (RFile (text b ++ r) e, it, i, res, false) (inr x).

Definition string_item (it : cpitem) : Prop := is_Some (buf it) ∧ is_hex it = false ∧ type it = CPITEM_STRING.

Lemma string_rounds b : byte b → b ≠ 0 → char_rounds escaped string_item b.
Proof.
  intros Hb H0 r e it i res x k (Hm & Hh & Ht) Hi Hs. unfold escaped in *.
  destruct (escape_letter b) as [v|] eqn:Hv.
  - exists (S (S k)). split; [lia|]. eapply steps_next; [|eapply steps_next; [|exact Hs]].
    + cbn [cpon_buf_step app]. rewrite (proj2 (Z.ltb_lt _ _)), Hh by done. by cbn [getc rf_data rf_fail].
    + cbn [cpon_buf_step app]. rewrite (proj2 (Z.ltb_lt _ _)), Hh by done. cbn [getc rf_data rf_fail].
      rewrite Ht, bool_decide_false, (unescape_letter b v), put_char_byte by done. cbn [length]. do 3 f_equal. lia.
  - exists (S k). split; [lia|]. destruct (escape_letter_none b Hv) as [H92 H34]. eapply steps_next; [|exact Hs].
    cbn [cpon_buf_step app]. rewrite (proj2 (Z.ltb_lt _ _)), Hh by done. cbn [getc rf_data rf_fail].
    by rewrite (proj2 (Z.eqb_neq b BACKSLASH)), (proj2 (Z.eqb_neq b DQUOTE)), put_char_byte by done.
Qed.

Definition hex_item (it : cpitem) : Prop := is_Some (buf it) ∧ is_hex it = true.

Lemma hex_upper_char v :
  let c := hex_upper v in
  digit_of 16 c = Some (v mod 16) ∧ is_space c = false ∧ c ≠ 45 ∧ c ≠ 43 ∧ c ≠ 120 ∧ c ≠ 88 ∧ c ≠ DQUOTE ∧ (c = 48 → v mod 16 = 0).
Proof.
  cbv zeta. assert (hex_upper v = hex_upper (v mod 16)) as ->.
  { unfold hex_upper. change 0xf with (2 ^ 4 - 1). rewrite !land_ones_mod by lia. by rewrite Z.mod_mod by lia. }
  pose proof (Z.mod_pos_bound v 16 ltac:(lia)) as Hv. set (u := v mod 16) in *. clearbody u.
  pose proof (forall_below 16 (λ u, let c := hex_upper u in bool_decide (digit_of 16 c = Some u ∧ is_space c = false ∧ c ≠ 45 ∧
    c ≠ 43 ∧ c ≠ 120 ∧ c ≠ 88 ∧ c ≠ DQUOTE ∧ (c = 48 → u = 0))) eq_refl u Hv) as H. cbv beta zeta in H.
  by apply bool_decide_eq_true in H.
Qed.

Lemma scan_hex_pair b r : byte b → scan_int 16 2 (hex_pair b ++ r) = (r, Scanned b).
Proof.
  intros Hb. destruct (hex_upper_char (Z.shiftr b 4)) as (H1 & Hs & H45 & H43 & _ & _ & _ & H0).
  destruct (hex_upper_char b) as (H2 & _ & _ & _ & Hx & HX & _). unfold hex_pair. cbn [app].
  set (x := hex_upper (Z.shiftr b 4)) in *. set (y := hex_upper b) in *. unfold scan_int. cbn [skip_space]. rewrite Hs.
  rewrite (proj2 (Z.eqb_neq x 45)), (proj2 (Z.eqb_neq x 43)) by done. unfold scan_prefix. change (16 =? 16) with true.
  rewrite orb_true_r. change (16 =? 0) with false. cbv beta iota zeta.
  assert ((Z.shiftr b 4) mod 16 * 16 + b mod 16 = b) as Hval.
  { rewrite Z.shiftr_div_pow2 by lia. change (2 ^ 4) with 16. unfold byte in Hb.
    rewrite (Z.mod_small (b / 16)) by (split; [apply Z.div_pos; lia|apply Z.div_lt_upper_bound; lia]).
    pose proof (Z.div_mod b 16 ltac:(lia)). lia. }
  destruct (Z.eqb_spec x 48) as [Hx48|].
  - rewrite (proj2 (Z.eqb_neq y 120)), (proj2 (Z.eqb_neq y 88)) by done. cbn [orb scan_digits]. rewrite H2.
    rewrite H0 in Hval by done. destruct r; cbn [scan_digits]; do 2 f_equal; lia.
  - cbn [scan_digits]. rewrite H1, H2. destruct r; cbn [scan_digits]; do 2 f_equal; lia.
Qed.

Lemma hex_rounds b : byte b → char_rounds hex_pair hex_item b.
Proof.
  intros Hb r e it i res x k (Hm & Hh) Hi Hs. exists (S k). split; [lia|]. eapply steps_next; [|exact Hs].
  cbn [cpon_buf_step]. rewrite (proj2 (Z.ltb_lt _ _)), Hh by done.
  pose proof (scan_hex_pair b r Hb) as Hp. unfold hex_pair in *. cbn [app getc rf_data rf_fail].
  destruct (hex_upper_char (Z.shiftr b 4)) as (_ & _ & _ & _ & _ & _ & H34 & _).
  rewrite (proj2 (Z.eqb_neq _ DQUOTE)) by done. unfold SCANF, ungetc. cbn [rf_data rf_fail]. cbn [app] in Hp.
  rewrite Hp, put_char_byte by done. cbn [length]. do 3 f_equal. lia.
Qed.

Lemma quote_round r e it i res :
  i < bufsiz it →
  cpon_buf_step (RFile (DQUOTE :: r) e, it, i, res, false) =
    inr (RFile r e, set_len i (mark_last it), res + 1, CPERR_NONE).
Proof.
  intros Hi. cbn [cpon_buf_step]. rewrite (proj2 (Z.ltb_lt _ _)) by done. cbn [getc rf_data rf_fail].
  by destruct (is_hex it).
Qed.

Lemma buf_rounds text ok l r e it i res :
  Forall (char_rounds text ok) l → (∀ it i c, ok it → ok (buf_store i [c] it)) → ok it →
  0 ≤ i → i + Z.of_nat (length l) < bufsiz it →
  ∃ k, (k ≤ 2 * length l + 1)%nat ∧
    steps cpon_buf_step k (RFile (concat (text <$> l) ++ DQUOTE :: r) e, it, i, res, false)
      (inr (RFile r e, set_len (i + Z.of_nat (length l)) (mark_last (buf_store i l it)),
            res + Z.of_nat (length (concat (text <$> l))) + 1, CPERR_NONE)).
Proof.
  intros Hc Hst. revert it i res. induction Hc as [|b l Hb Hl IH]; intros it i res Hok Hi Hlen; cbn [length] in Hlen.
  - exists 1%nat. split; [lia|]. apply steps_stop. simpl concat. cbn [app length].
    rewrite quote_round, buf_store_nil, !Z.add_0_r by lia. done.
  - destruct (IH (buf_store i [b] it) (i + 1) (res + Z.of_nat (length (text b))) (Hst it i b Hok) ltac:(lia)) as (k & Hk & Hs).
    { cbn [buf_store set_buf bufsiz]. lia. }
    rewrite buf_store_cons in Hs by done.
    destruct (Hb _ e it i res _ k Hok ltac:(lia) Hs) as (k' & Hk' & Hs'). exists k'. split; [cbn [length]; lia|].
    cbn [fmap list_fmap concat length] in *. rewrite <-app_assoc, length_app, !Nat2Z.inj_add, Nat2Z.inj_succ.
    replace (i + Z.succ (Z.of_nat (length l))) with (i + 1 + Z.of_nat (length l)) by lia. by rewrite !Z.add_assoc in *.
Qed.

Definition data_item (ty : cpitem_type) (hex : bool) (it : cpitem) : cpitem :=
  let fl := Z.lor CPBI_F_FIRST CPBI_F_STREAM in
  set_bufinfo (BufInfo (len (as_Blob (as_ it))) 0 (if hex then Z.lor fl CPBI_F_HEX else fl)) (set_type ty it).

(** Data in a buffer that has room for it and one more is stored whole. *)
Lemma unpack_string_data text ok ty hex l r e it res :
  Forall (char_rounds text ok) l → (∀ it i c, ok it → ok (buf_store i [c] it)) → ok (data_item ty hex it) →
  Z.of_nat (length l) < 2 ^ 63 → Z.of_nat (length l) < bufsiz it → buf_wf it →
  ∃ it', unpack_string ty hex (RFile (concat (text <$> l) ++ DQUOTE :: r) e) it res =
      (RFile r e, it', res + Z.of_nat (length (concat (text <$> l))) + 1) ∧
    type it' = ty ∧ holds_data l it' ∧ buf_kept (set_type ty it) it'.
Proof.
  intros Hc Hst Hok Hl Hsz Hwf. set (it0 := data_item ty hex it) in *.
  destruct (buf_rounds text ok l r e it0 0 0 Hc Hst Hok ltac:(lia) Hsz) as (k & Hk & Hs).
  unfold unpack_string. change (set_bufinfo _ _) with it0. unfold cpon_call_buf, cpon_unpack_buf.
  change (bufsiz it0) with (bufsiz it). rewrite (proj2 (Z.eqb_neq (bufsiz it) 0)) by lia.
  rewrite (cloop_run _ 66 k _ _ Hs) by (change (Z.of_nat 66) with 66; lia). cbv beta iota zeta.
  eexists. split; [f_equal; lia|]. split; [done|]. split.
  - exists (Z.lor (flags (as_Blob (as_ it0))) CPBI_F_LAST). split; [done|].
    split; [by destruct hex|]. split; [by destruct hex|]. destruct Hwf as [_ Hm].
    unfold it0, data_item in *. cbn [buf set_len mark_last set_flags set_bufinfo set_as buf_store set_buf set_type] in *.
    destruct (buf it) as [m|]; [|done]. cbn. apply take_inserts. lia.
  - pose proof (buf_kept_store 0 l (set_type ty it) ltac:(lia) ltac:(cbn [bufsiz set_type]; lia)) as Hkept. exact Hkept.
Qed.

(** *** Tokens *)

Definition own_text (t : tok) : list Z := if scalar t then tok_text t else opening t.

(** A buffer, with one byte more than the data: whether the data are complete is only
    known from the quote that follows. *)
Definition cpon_fits (t : tok) (it : cpitem) : Prop :=
  match t with TBlob l | TString l => Z.of_nat (length l) < bufsiz it | _ => True end.

Lemma stored_string it i c : string_item it → string_item (buf_store i [c] it).
Proof. intros ([m Hm] & Hh & Ht). unfold string_item, buf_store. cbn [set_buf buf]. rewrite Hm. by split; [eexists|]. Qed.

Lemma stored_hex it i c : hex_item it → hex_item (buf_store i [c] it).
Proof. intros ([m Hm] & Hh). unfold hex_item, buf_store. cbn [set_buf buf]. rewrite Hm. by split; [eexists|]. Qed.

(** What the first character and those after it are read as. *)
Definition char_reads (stale : Z) (t : tok) (text r : list Z) (e : bool) (it : cpitem) : Prop :=
  ∃ c k, text = c :: k ∧ starts c ∧ ∀ res, ∃ it',
    cpon_unpack_char stale c (RFile (k ++ r) e) (set_type CPITEM_INVALID it) res = (RFile r e, it', res + Z.of_nat (length k)) ∧
    holds t it' ∧ buf_kept (set_type (tok_type t) it) it'.

Lemma char_reads_number stale t v k r e it u :
  - 2 ^ 63 ≤ v < 2 ^ 64 →
  (∀ res it, unpack_number stale (v <? 0) (RFile (signed v ++ k ++ r) e) it res =
     (RFile r e, set_as u (set_type (tok_type t) it), res + Z.of_nat (length (signed v ++ k)))) →
  holds t (set_as u (set_type (tok_type t) it)) → char_reads stale t (signed v ++ k) r e it.
Proof.
  intros Hv Hu Hh. destruct (signed_first v Hv) as (c & d & Hs & Hc & H45 & Hno & Hnum). rewrite Hs in *.
  exists c, (d ++ k). split; [done|]. split; [done|]. intros res. eexists. split.
  - unfold cpon_unpack_char. apply orb_false_iff in Hno as [[-> ->]%orb_false_iff ->]. rewrite Hnum, H45.
    unfold ungetc. cbn [rf_data rf_fail]. change (c :: (d ++ k) ++ r) with (((c :: d) ++ k) ++ r).
    rewrite <-app_assoc, Hu. cbn [app length]. f_equal. lia.
  - split; [done|]. apply buf_kept_set_as, buf_kept_refl.
Qed.

Lemma char_reads_word stale t c k r e it it' :
  starts c → 255 ∉ k →
  (∀ f res, cpon_unpack_char stale c f (set_type CPITEM_INVALID it) res = unpack_word k f (set_type CPITEM_INVALID it) it' res) →
  holds t it' → buf_kept (set_type (tok_type t) it) it' → char_reads stale t (c :: k) r e it.
Proof.
  intros Hc Hk Hu Hh Hb. exists c, k. split; [done|]. split; [done|]. intros res. exists it'. split; [|done].
  rewrite Hu. unfold unpack_word. by rewrite EXPECTS_text.
Qed.

Ltac read_word :=
  eapply char_reads_word;
  [done | by apply (bool_decide_unpack _); vm_compute | intros; reflexivity | by (split; [|eexists] || split)
  | exact (buf_kept_refl (set_type _ _))].

Lemma token_reads stale t r e it :
  cpon_tok t → t ≠ TEnd → buf_wf it → is_Some (buf it) → cpon_fits t it → (scalar t = true → stops r) →
  char_reads stale t (own_text t) r e it.
Proof.
  intros Hwf Ht Hb [m Hm] Hfit Hr. destruct t; try done; cbn [own_text scalar tok_text opening cpon_tok cpon_fits] in *;
    try specialize (Hr eq_refl).
  - read_word.
  - destruct b; read_word.
  - rewrite <-(app_nil_r (signed v)). eapply (char_reads_number stale (TInt v) v [] r e it (AsInt v)); [unfold srange in Hwf; lia| |done].
    intros. rewrite app_nil_r. by apply unpack_number_int.
  - assert (digits v = signed v) as -> by (unfold signed; rewrite (proj2 (Z.ltb_ge v 0)), Z.abs_eq by lia; done).
    eapply (char_reads_number stale (TUInt v) v (str "u") r e it (AsUInt v)); [lia| |done].
    intros. rewrite (proj2 (Z.ltb_ge v 0)) by lia. cbn [app of_string]. etransitivity; [by apply unpack_number_uint|].
    rewrite length_app. cbn [length]. f_equal. lia.
  - destruct Hwf as (Hma & Hex & _). destruct d as [ma ex]. cbn [mantissa exponent] in *.
    eapply (char_reads_number stale _ ma (str "e" ++ signed ex) r e it (AsDecimal (Decimal ma ex))); [unfold srange in Hma; lia| |done].
    intros. by apply unpack_number_decimal.
  - destruct Hwf as [Hby Hl]. exists 120, ([DQUOTE] ++ concat (hex_pair <$> l) ++ [DQUOTE]). split; [done|]. split; [done|].
    intros res. destruct (unpack_string_data hex_pair hex_item CPITEM_BLOB true l r e (set_type CPITEM_INVALID it) (res + 1))
      as (it' & Hu & Ht' & Hd & Hk); [by eapply Forall_impl; [exact Hby|apply hex_rounds]|apply stored_hex|by split; [eexists|]|done..|].
    exists it'. split; [|done]. cbn [app]. rewrite <-app_assoc. cbn [app]. etransitivity; [exact Hu|].
    cbn [length]. rewrite length_app. cbn [length]. f_equal. lia.
  - destruct Hwf as (Hby & Hl & H0). exists DQUOTE, (concat (escaped <$> l) ++ [DQUOTE]). split; [done|]. split; [done|].
    intros res. destruct (unpack_string_data escaped string_item CPITEM_STRING false l r e (set_type CPITEM_INVALID it) res)
      as (it' & Hu & Ht' & Hd & Hk); [|apply stored_string|by split; [eexists|]|done..|].
    { apply Forall_forall. intros b Hin. apply string_rounds; [by eapply Forall_forall in Hby|by intros ->]. }
    exists it'. split; [|done]. rewrite <-app_assoc. cbn [app]. etransitivity; [exact Hu|].
    rewrite length_app. cbn [length]. f_equal. lia.
  - read_word.
  - read_word.
  - read_word.
  - read_word.
Qed.

(** ** Sequences *)

(** Only at the end there is something outside of containers that is none, as nothing
    would separate it from what follows, and what ends was opened. *)
Fixpoint placed (n : nat) (ts : list tok) : Prop :=
  match ts with
  | [] => True
  | t :: ts =>
      match t with
      | TList | TMap | TIMap | TMeta => placed (S n) ts
      | TEnd => match n with O => False | S n => placed n ts end
      | _ => (n = O → ts = []) ∧ placed n ts
      end
  end.

(** The contexts that are pushed: only the innermost one may have nothing in it. *)
Definition stack_ok (st : stack) : Prop :=
  match st with
  | [] => True
  | c :: st => closing (tp c) ≠ [] ∧ (meta c = true → first c = false) ∧
      Forall (λ c, closing (tp c) ≠ [] ∧ first c = false) st
  end.

Lemma entered_ok st : stack_ok st → Forall (λ c, closing (tp c) ≠ [] ∧ first c = false ∧ meta c = false) (take 1 (entered st)) ∧
  Forall (λ c, closing (tp c) ≠ [] ∧ first c = false) (entered st) ∧ stack_ok (entered st) ∧ length (entered st) = length st.
Proof.
  destruct st as [|c st]; [done|]. intros (Ht & Hm & Hf). simpl. destruct (meta c); simpl; repeat constructor; auto.
Qed.

Lemma item_step_ok st t n :
  stack_ok st → match t with TEnd => length st = S n | _ => True end → stack_ok (item_step st t).2.
Proof.
  intros Hst Hn. destruct (entered_ok st Hst) as (_ & Hf & He & _). destruct t; try done.
  destruct st as [|c [|c' st]]; [done| |]; destruct Hst as (Ht & Hm & Hst); simpl.
  - by case_bool_decide.
  - apply Forall_cons in Hst as [[? ?] ?]. case_bool_decide; simpl; auto.
Qed.

Lemma closing_stops c : closing (tp c) ≠ [] → ∃ x, closing (tp c) = [x] ∧ starts x ∧ ∀ r, stops (x :: r).
Proof. destruct (tp c); simpl; try done; intros _; eexists; (split; [done|split; [done|]]); intros r; apply (bool_decide_unpack _); done. Qed.

(** What follows a number ends it. *)
Lemma text_stops st ts d :
  stack_ok st → placed (length st) ts → (length st = O → ts = []) → stops d → stops (cpon_text (entered st) ts ++ d).
Proof.
  intros Hst Hp H0 Hd. destruct ts as [|t ts]; [done|]. destruct st as [|c st]; [by discriminate H0|].
  destruct (entered_ok _ Hst) as (Htop & _). simpl in Htop. apply Forall_inv in Htop as (Hc & Hf & Hm).
  simpl. set (c' := if meta c then _ else _) in *. clearbody c'.
  assert (separator_text c' ≠ [] ∧ ∀ r, stops (separator_text c' ++ r)) as [_ Hs].
  { unfold separator_text. rewrite Hf. split; destruct (tp c'), (even c'); try done; intros r; simpl; apply (bool_decide_unpack _); done. }
  assert (before (c' :: st) = separator_text c') as Hb by (simpl; by rewrite Hm).
  destruct t; cbn [item_step]; rewrite ?Hb, <-?app_assoc; try apply Hs.
  destruct (closing_stops c' Hc) as (x & -> & _ & Hx). apply Hx.
Qed.

Fixpoint cpon_unpack_all (stale : Z) (n : nat) (f : rfile) (it : cpitem) : rfile * list cpitem :=
  match n with
  | O => (f, [])
  | S n => let '(f, it) := cp_unpack_cpon_func stale f it in
           let '(f, its) := cpon_unpack_all stale n f it in (f, it :: its)
  end.

Lemma char_reads_unpack stale st t l r e it :
  ready it = true → char_reads stale t l r e it →
  ∃ it', cp_unpack_cpon_func stale (RFile ((before st ++ l) ++ r) e) it = (RFile r e, it') ∧
    holds t it' ∧ buf_kept (set_type (tok_type t) it) it'.
Proof.
  intros Hr (c & k & -> & Hc & Hu). destruct (Hu (Z.of_nat (length (before st)) + 1)) as (it' & Hu' & Hh & Hk).
  exists it'. split; [|done]. unfold cp_unpack_cpon_func. rewrite <-app_assoc. cbn [app].
  by rewrite cpon_unpack_first, Hu'.
Qed.

(** One token of the text. *)
Lemma unpack_step stale st t ts d e it :
  cpon_tok t → stack_ok st → placed (length st) (t :: ts) → stops d →
  ready it = true → buf_wf it → is_Some (buf it) → cpon_fits t it →
  let '(l, st') := item_step st t in
  let r := cpon_text st' ts ++ d in
  ∃ it', cp_unpack_cpon_func stale (RFile (l ++ r) e) it = (RFile r e, it') ∧
    holds t it' ∧ buf_kept (set_type (tok_type t) it) it'.
Proof.
  intros Hwf Hst Hp Hd Hr Hb Hm Hfit. destruct (decide (t = TEnd)) as [->|Ht].
  - simpl in Hp. destruct st as [|c st]; [done|]. destruct (closing_stops c (proj1 Hst)) as (x & Hx & Hsx & _).
    cbn [item_step]. rewrite Hx. apply (char_reads_unpack stale [] TEnd [x]); [done|].
    exists x, []. split; [done|]. split; [done|]. intros res. exists (set_type CPITEM_CONTAINER_END it).
    rewrite Z.add_0_r. split; [|split; [by split|exact (buf_kept_refl (set_type _ _))]].
    by destruct (tp c); simpl in Hx; try done; injection Hx as <-.
  - assert (item_step st t = (before st ++ own_text t, (item_step st t).2)) as -> by (by destruct t).
    apply char_reads_unpack; [done|]. apply token_reads; try done. intros Hs.
    assert ((length st = O → ts = []) ∧ placed (length st) ts) as [H0 Hp'] by (by destruct t).
    replace (item_step st t).2 with (entered st) by (by destruct t). by apply text_stops.
Qed.

Lemma placed_step st t ts : placed (length st) (t :: ts) → placed (length (item_step st t).2) ts.
Proof.
  assert (∀ st, length (entered st) = length st) as He by (by intros []).
  destruct t; cbn [placed item_step snd length]; rewrite ?He; try tauto.
  destruct st as [|c [|c' st]]; simpl; [done|by case_bool_decide..].
Qed.

Lemma cpon_unpack_text stale ts st d e it :
  Forall cpon_tok ts → stack_ok st → placed (length st) ts → stops d →
  ready it = true → buf_wf it → is_Some (buf it) → Forall (λ t, cpon_fits t it) ts →
  ∃ its, cpon_unpack_all stale (length ts) (RFile (cpon_text st ts ++ d) e) it = (RFile d e, its) ∧ Forall2 holds ts its.
Proof.
  intros Hwf. revert st it. induction Hwf as [|t ts Ht Hwf IH]; intros st it Hst Hp Hd Hr Hb Hm Hfit; [by exists []|].
  apply Forall_cons in Hfit as [Hf Hfit]. pose proof (unpack_step stale st t ts d e it Ht Hst Hp Hd Hr Hb Hm Hf) as Hstep.
  pose proof (placed_step st t ts Hp) as Hp'.
  assert (stack_ok (item_step st t).2) as Hst'.
  { apply (item_step_ok st t (pred (length st)) Hst). destruct t; try done. simpl in Hp. by destruct (length st). }
  cbn [cpon_text cpon_unpack_all length]. destruct (item_step st t) as [l st']. cbn [snd] in *.
  destruct Hstep as (it' & Hu & Hh & Hk). rewrite <-app_assoc, Hu.
  pose proof Hk as (_ & Hsiz & Hbuf). cbn [buf bufsiz set_type] in *.
  destruct (IH st' it' Hst' Hp' Hd (holds_ready t it' Hh)) as (its & Hus & Hhs).
  - by eapply buf_kept_wf; [exact Hk|].
  - destruct Hm as [m Hm]. rewrite Hm in Hbuf. destruct (buf it'); [by eexists|done].
  - eapply Forall_impl; [exact Hfit|]. intros t0. by destruct t0; simpl; rewrite ?Hsiz.
  - exists (it' :: its). rewrite Hus. by split; [|constructor].
Qed.

(** C10: what is packed as CPON is unpacked again: null and booleans, integers of 64
    bits, unsigned ones below 2^63, decimals that are written with an exponent, strings
    without a zero byte, blobs as hexadecimal digits, and containers.  A sequence of
    such items, nested to any depth, is written as one text with the separators, the
    brackets and the escapes that belong to it; the unpacker gives items with the same
    values in the same order, all of the text consumed and nothing of what follows it.
    Doubles, dates and other decimals and blobs are not among it. *)
Theorem cpon_roundtrip ts its w stale d e it :
  Forall cpon_tok ts → placed 0 ts → Forall2 holds ts its → Forall cpon_whole its →
  wf_err w = false → roomy (length (cpon_text [] ts)) w → stops d →
  ready it = true → buf_wf it → is_Some (buf it) → Forall (λ t, cpon_fits t it) ts →
  ∃ l s its', cpon_pack_all (Some w, new_cpon_state) its = ((Some (written l w), s), true) ∧ depth s <= cnt s ∧
    cpon_unpack_all stale (length ts) (RFile (l ++ d) e) it = (RFile d e, its') ∧ Forall2 holds ts its'.
Proof.
  intros Hwf Hp Hh Hw He Hroom Hd Hr Hb Hm Hfit.
  destruct (cpon_pack_text ts its w new_cpon_state Hwf Hh Hw He ltac:(done) Hroom) as (s & Hpack & Hs).
  destruct (cpon_unpack_text stale ts [] d e it Hwf I Hp Hd Hr Hb Hm Hfit) as (its' & Hu & Hh').
  exists (cpon_text [] ts), s, its'. split; [exact Hpack|]. split; [apply Hs|done].
Qed.

Definition sample_toks : list tok :=
  [TMeta; TInt 1; TInt (-25); TEnd; TMap; TString [97; 34; 10]; TList; TUInt 42; TNull; TEnd; TString []; TBlob [0; 255]; TEnd].

Definition sample_item (t : tok) : cpitem :=
  let i u b := Item (tok_type t) u (Some b) 8 in
  match t with
  | TInt v => i (AsInt v) []
  | TUInt v => i (AsUInt v) []
  | TString l => i (AsBuf (BufInfo (Z.of_nat (length l)) 0 CPBI_F_SINGLE)) l
  | TBlob l => i (AsBuf (BufInfo (Z.of_nat (length l)) 0 (Z.lor CPBI_F_SINGLE CPBI_F_HEX))) l
  | _ => i (AsInt 0) []
  end.

Definition sample_target : cpitem := Item CPITEM_INVALID (AsError CPERR_NONE) (Some (replicate 8 0)) 8.

Lemma cpon_roundtrip_witness :
  ∃ l s its', cpon_pack_all (Some (WFile [] None false), new_cpon_state) (sample_item <$> sample_toks) =
      ((Some (written l (WFile [] None false)), s), true) ∧ depth s <= cnt s ∧
    cpon_unpack_all 0 (length sample_toks) (RFile (l ++ [10; 65]) false) sample_target = (RFile [10; 65] false, its') ∧
    Forall2 holds sample_toks its'.
Proof.
  apply (cpon_roundtrip sample_toks (sample_item <$> sample_toks) (WFile [] None false) 0 [10; 65] false sample_target).
  - repeat constructor; try done; try by apply (bool_decide_unpack _); vm_compute.
  - by repeat constructor.
  - repeat constructor; try done; eexists; by vm_compute.
  - repeat constructor; try (by eexists); done.
  - done.
  - done.
  - apply (bool_decide_unpack _); by vm_compute.
  - done.
  - split; [by apply (bool_decide_unpack _); vm_compute|by vm_compute].
  - by eexists.
  - repeat constructor; by vm_compute.
Defined.

(** ** Any text *)

Lemma scan_digits_length b w l v any :
  let '(l', _, any') := scan_digits b w l v any in
  (length l' ≤ length l)%nat ∧ (any' = true → any = true ∨ (length l' < length l)%nat).
Proof.
  revert l v any. induction w as [|w IH]; intros [|c l] v any; cbn [scan_digits]; auto.
  destruct (digit_of b c); [|auto]. specialize (IH l (v * b + z) true).
  destruct (scan_digits b w l (v * b + z) true) as [[l' v'] any']. cbn [length]. destruct IH as [IH _]. split; [lia|]. right. lia.
Qed.

Lemma scan_prefix_length base w l :
  let '(_, _, l', z) := scan_prefix base w l in
  (length l' ≤ length l)%nat ∧ (z = true → (length l' < length l)%nat).
Proof.
  unfold scan_prefix. destruct ((base =? 0) || (base =? 16)); [|by split].
  destruct w as [|w], l as [|c l]; try by split.
  destruct (c =? 48); [|by split]. destruct w as [|w], l as [|x l]; try (cbn [length]; lia).
  destruct ((x =? 120) || (x =? 88)); cbn [length]; lia.
Qed.

Lemma skip_space_length l : (length (skip_space l) ≤ length l)%nat.
Proof. induction l as [|c l IH]; simpl; [done|]. destruct (is_space c); simpl; lia. Qed.

(** A number takes at least one character, and nothing is put back but what was read. *)
Lemma scan_int_length base w l :
  let '(l', r) := scan_int base w l in
  (length l' ≤ length l)%nat ∧ (match r with Scanned _ => True | _ => False end → (length l' < length l)%nat).
Proof.
  unfold scan_int. pose proof (skip_space_length l) as Hs. destruct (skip_space l) as [|c l0]; [simpl; split; [lia|done]|].
  assert (∀ sign w' l1, (length l1 ≤ S (length l0))%nat →
    let '(l', r) := let '(base, width, l, zero) := scan_prefix base w' l1 in
      let '(l, v, any) := scan_digits base width l 0 zero in (l, if any : bool then Scanned (sign * v) else ScanFailed) in
    (length l' ≤ length l)%nat ∧ (match r with Scanned _ => True | _ => False end → (length l' < length l)%nat)) as Hgo.
  { intros sign w' l1 Hl1. pose proof (scan_prefix_length base w' l1) as Hp. destruct (scan_prefix base w' l1) as [[[b w2] l2] z].
    pose proof (scan_digits_length b w2 l2 0 z) as Hd. destruct (scan_digits b w2 l2 0 z) as [[l3 v] any].
    cbn [length] in Hs. destruct Hp as [Hp Hz], Hd as [Hd Ha]. split; [lia|]. destruct any; [intros _|done].
    destruct (Ha eq_refl) as [H|H]; [specialize (Hz H)|]; lia. }
  destruct (c =? 45); [|destruct (c =? 43)]; apply Hgo; cbn [length]; lia.
Qed.

Definition buf_left (s : buf_state) : nat :=
  let '(f, _, _, _, escape) := s in (2 * length (rf_data f) + (if escape : bool then 1 else 0))%nat.

Definition buf_ok (it0 : cpitem) (s : buf_state) : Prop :=
  let '(_, it, i, _, _) := s in 0 ≤ i ≤ bufsiz it0 ∧ buf_kept it0 it.

Lemma put_char_ok it0 it c i :
  0 ≤ i < bufsiz it0 → buf_kept it0 it → let '(it', i') := put_char c i it in 0 ≤ i' ≤ bufsiz it0 ∧ buf_kept it0 it'.
Proof.
  intros Hi Hk. unfold put_char. destruct (buf it); [|split; [lia|done]]. split; [lia|].
  eapply buf_kept_trans; [exact Hk|]. apply buf_kept_store; [lia|]. destruct Hk as (_ & -> & _). simpl. lia.
Qed.

Lemma SCANF_length base w f res :
  let '(f', _, r) := SCANF base w f res in
  (length (rf_data f') ≤ length (rf_data f))%nat ∧
  (match r with Scanned _ => True | _ => False end → (length (rf_data f') < length (rf_data f))%nat).
Proof.
  unfold SCANF. pose proof (scan_int_length base (match w with Some w => w | None => length (rf_data f) end) (rf_data f)) as H.
  by destruct (scan_int _ _ _) as [l' r].
Qed.

Definition buf_result_ok (it0 : cpitem) (r : rfile * cpitem * Z * cperror) : Prop :=
  let '(_, it, _, err) := r in
  buf_kept it0 it ∧ (err = CPERR_NONE → 0 ≤ len (as_Blob (as_ it)) ≤ bufsiz it0).

Lemma cpon_buf_step_ok it0 s :
  buf_ok it0 s →
  match cpon_buf_step s with
  | inl s' => buf_ok it0 s' ∧ (buf_left s' < buf_left s)%nat
  | inr r => buf_result_ok it0 r
  end.
Proof.
  destruct s as [[[[[[|c l] e] it] i] res] escape]; intros [Hi Hk]; pose proof (proj1 (proj2 Hk)) as Hsz;
    cbn [cpon_buf_step]; destruct (Z.ltb_spec i (bufsiz it)); cbn [getc rf_data rf_fail]; try (by split; [exact Hk|]).
  assert (∀ v, let '(it', i') := put_char v i it in 0 ≤ i' ≤ bufsiz it0 ∧ buf_kept it0 it') as Hput by (intros; apply put_char_ok; [lia|done]).
  destruct (is_hex it).
  - destruct (c =? DQUOTE); [by split; [exact Hk|]|].
    pose proof (SCANF_length 16 (Some 2%nat) (ungetc c (RFile l e)) (res + 1 - 1)) as Hs.
    destruct (SCANF _ _ _ _) as [[f' res'] [v| |]]; try (by split; [exact Hk|]).
    specialize (Hput v). destruct (put_char v i it) as [it' i']. split; [done|]. destruct Hs as [_ Hs]. specialize (Hs I).
    unfold buf_left. cbn [rf_data ungetc length] in *. destruct escape; lia.
  - destruct escape.
    + case_bool_decide.
      * pose proof (SCANF_length 16 None (ungetc (unescape c) (RFile l e)) (res + 1 - 1)) as Hs.
        destruct (SCANF _ _ _ _) as [[f' res'] [v| |]]; destruct Hs as [Hs _];
          (match goal with |- context [put_char ?v i it] => specialize (Hput v); destruct (put_char v i it) as [it' i'] end);
          (split; [done|]); unfold buf_left; cbn [rf_data ungetc length] in *; lia.
      * specialize (Hput (unescape c)). destruct (put_char _ i it) as [it' i']. split; [done|]. unfold buf_left. cbn [rf_data length]. lia.
    + destruct (c =? BACKSLASH); [split; [by split|unfold buf_left; cbn [rf_data length]; lia]|].
      destruct (c =? DQUOTE); [by split; [exact Hk|]|].
      specialize (Hput c). destruct (put_char c i it) as [it' i']. split; [done|]. unfold buf_left. cbn [rf_data length]. lia.
Qed.

(** The rounds that are allowed are never used up. *)
Lemma cpon_buf_ends f it :
  Z.of_nat (length (rf_data f)) < 2 ^ 64 → 0 ≤ bufsiz it →
  ∃ r, cloop cpon_buf_step 66 (f, it, 0, 0, false) = inr r ∧ buf_result_ok it r.
Proof.
  intros Hl Hsz. destruct (steps_total_inv cpon_buf_step (buf_ok it) (buf_result_ok it) buf_left
    (cpon_buf_step_ok it) (f, it, 0, 0, false)) as (k & r & Hk & Hs & Hr); [by split; [lia|apply buf_kept_refl]|].
  exists r. split; [|done]. apply (cloop_run _ _ k); [done|]. unfold buf_left in Hk. change (Z.of_nat 66) with 66. lia.
Qed.

(** C39: the reading of a string or blob is safe on any text.  Whatever characters and
    escapes there are, it ends, no byte of the memory outside the buffer is changed, and the
    length that is reported without an error is within the buffer. *)
Theorem cpon_unpack_buf_safe f it :
  Z.of_nat (length (rf_data f)) < 2 ^ 64 → buf_wf it →
  let '(f', it', n, err) := cpon_unpack_buf f it in
  buf_kept it it' ∧ (err = CPERR_NONE → 0 ≤ len (as_Blob (as_ it')) ≤ bufsiz it).
Proof.
  intros Hl [Hsz _]. unfold urange in Hsz. unfold cpon_unpack_buf.
  destruct (Z.eqb_spec (bufsiz it) 0); [split; [apply buf_kept_set_as, buf_kept_refl|simpl; lia]|].
  destruct (cpon_buf_ends f it Hl ltac:(lia)) as ([[[f' it'] n'] err] & -> & Hr). exact Hr.
Qed.

Lemma cpon_unpack_buf_safe_witness :
  let '(_, it', _, err) := cpon_unpack_buf (RFile (str "12\q\") false) (set_type CPITEM_BLOB sample_target) in
  buf_kept (set_type CPITEM_BLOB sample_target) it' ∧ (err = CPERR_NONE → 0 ≤ len (as_Blob (as_ it')) ≤ 8).
Proof.
  apply (cpon_unpack_buf_safe (RFile (str "12\q\") false) (set_type CPITEM_BLOB sample_target)); [by vm_compute|].
  split; [by apply (bool_decide_unpack _); vm_compute|by vm_compute].
Defined.

(** ** What is not read as it is written *)

Definition packed (i : cpitem) : list Z :=
  match cpon_pack (Some cpon_state_realloc) (Some (WFile [] None false)) new_cpon_state i with
  | (Some w, _, _) => wf_out w
  | _ => []
  end.

Definition value (ty : cpitem_type) (u : cpitem_as) : cpitem := Item ty u (Some []) 0.

Definition unpacked (stale : Z) (l : list Z) : list Z * cpitem_type * cpitem_as :=
  let '(f, it, _) := cpon_unpack stale (RFile l false) sample_target in (rf_data f, type it, as_ it).

Definition blob_item (l : list Z) : cpitem :=
  Item CPITEM_BLOB (AsBuf (BufInfo (Z.of_nat (length l)) 0 CPBI_F_SINGLE)) (Some l) 2.

(** Containers beyond the contexts there are: nothing is written after the dots, not even
    the end of the containers around them. *)
Example too_deep_loses_the_rest :
  let pack '(f, s) i := let '(f, s, _) := cpon_pack None f s i in (f, s) in
  foldl pack (Some (WFile [] None false), CponState 0 [Ctx CPITEM_INVALID false false false])
    (sample_item <$> [TList; TList; TEnd; TInt 1; TEnd]) =
  (Some (WFile (str "[...") None false), CponState 2 [Ctx CPITEM_LIST false false false]).
Proof. by vm_compute. Qed.

(** 1 + 12/256 and 1 + 12/16 have the same text. *)
Example doubles_alike :
  packed (value CPITEM_DOUBLE (AsDouble 0x3FF0C00000000000)) = str "0x1.Cp0" ∧
  packed (value CPITEM_DOUBLE (AsDouble 0x3FFC000000000000)) = str "0x1.Cp0".
Proof. by vm_compute. Qed.

(** A double is read as a decimal of which the exponent is not written. *)
Example double_not_unpacked :
  unpacked 77 (str "0x1.Cp0") = (str "Cp0", CPITEM_DECIMAL, AsDecimal (Decimal 1 77)).
Proof. by vm_compute. Qed.

Example whole_decimal_exponent :
  packed (value CPITEM_DECIMAL (AsDecimal (Decimal 15 0))) = str "15." ∧
  unpacked 77 (str "15.") = ([], CPITEM_DECIMAL, AsDecimal (Decimal 15 77)).
Proof. by vm_compute. Qed.

Example negative_fraction :
  packed (value CPITEM_DECIMAL (AsDecimal (Decimal (-5) (-1)))) = str "-0.5" ∧
  unpacked 0 (str "-0.5") = ([], CPITEM_DECIMAL, AsDecimal (Decimal 5 (-1))).
Proof. by vm_compute. Qed.

Example unsigned_clamped :
  unpacked 0 (packed (value CPITEM_UINT (AsUInt (2 ^ 63)))) = ([], CPITEM_UINT, AsUInt (2 ^ 63 - 1)).
Proof. by vm_compute. Qed.

(** Half an hour west: the offset is written without its sign. *)
Example small_offset_unread :
  packed (value CPITEM_DATETIME (AsDatetime (Datetime 0 (-30)))) =
    str "d" ++ [DQUOTE] ++ str "1970-01-01T00:00:00.00000:30" ++ [DQUOTE] ∧
  unpacked 0 (packed (value CPITEM_DATETIME (AsDatetime (Datetime 0 (-30))))) =
    (str ":30" ++ [DQUOTE], CPITEM_INVALID, AsError CPERR_INVALID).
Proof. by vm_compute. Qed.

Example before_the_epoch :
  packed (value CPITEM_DATETIME (AsDatetime (Datetime (-1) 0))) =
    str "d" ++ [DQUOTE] ++ str "1970-01-01T00:00:00.-001Z" ++ [DQUOTE] ∧
  unpacked 0 (packed (value CPITEM_DATETIME (AsDatetime (Datetime (-1) 0)))) =
    ([], CPITEM_DATETIME, AsDatetime (Datetime 4294967295 0)).
Proof. by vm_compute. Qed.

(** A zero in a string comes back as the digit. *)
Example zero_not_unescaped :
  let '(_, it, _) := cpon_unpack 0 (RFile (packed (sample_item (TString [0]))) false) sample_target in
  holds (TString [48]) it.
Proof. vm_compute. split; [done|]. by eexists. Qed.

(** The number behind a backslash takes what follows, and another character is read once
    more as what ends the blob. *)
Example blob_escapes_misread :
  unpacked 0 (packed (blob_item [10; 65])) = ([], CPITEM_BLOB, AsBuf (BufInfo 1 0 7)) ∧
  unpacked 0 (packed (blob_item [34; 65])) = ([65; 34], CPITEM_BLOB, AsBuf (BufInfo 1 0 7)).
Proof. by vm_compute. Qed.

(** The character that is put back is the one that was expected. *)
Example expected_put_back : unpacked 0 (str "nux") = (str "l", CPITEM_INVALID, AsError CPERR_INVALID).
Proof. by vm_compute. Qed.

(** Nothing is read and no error is reported. *)
Example unknown_character : unpacked 0 (str "?") = (str "?", CPITEM_INVALID, AsError CPERR_NONE).
Proof. by vm_compute. Qed.

Example comment_goes_on : unpacked 0 (str "/***/1") = ([], CPITEM_INVALID, AsError CPERR_EOF).
Proof. by vm_compute. Qed.

(** Separators and brackets are not looked at. *)
Example not_strict :
  unpacked 0 (str ":,: ]1") = (str "1", CPITEM_CONTAINER_END, AsError CPERR_NONE).
Proof. by vm_compute. Qed.
