(* ===== verification/Crc32.v ===== *)
(** * CRC-32 ([libshvrpc/crc32.c], [include/shv/crc32.h])

    The table driven update of the checksum, proved equal to the bit by bit
    definition with the reflected polynomial [0xedb88320], and injective in the
    state and in the byte, so that no change of a single byte goes unnoticed. *)

From S2P Require Import Prelude.

(** ** Definitions *)

Definition crc_table : list Z := [
   0x00000000; 0x77073096; 0xee0e612c; 0x990951ba; 0x076dc419; 0x706af48f; 0xe963a535; 0x9e6495a3;
   0x0edb8832; 0x79dcb8a4; 0xe0d5e91e; 0x97d2d988; 0x09b64c2b; 0x7eb17cbd; 0xe7b82d07; 0x90bf1d91;
   0x1db71064; 0x6ab020f2; 0xf3b97148; 0x84be41de; 0x1adad47d; 0x6ddde4eb; 0xf4d4b551; 0x83d385c7;
   0x136c9856; 0x646ba8c0; 0xfd62f97a; 0x8a65c9ec; 0x14015c4f; 0x63066cd9; 0xfa0f3d63; 0x8d080df5;
   0x3b6e20c8; 0x4c69105e; 0xd56041e4; 0xa2677172; 0x3c03e4d1; 0x4b04d447; 0xd20d85fd; 0xa50ab56b;
   0x35b5a8fa; 0x42b2986c; 0xdbbbc9d6; 0xacbcf940; 0x32d86ce3; 0x45df5c75; 0xdcd60dcf; 0xabd13d59;
   0x26d930ac; 0x51de003a; 0xc8d75180; 0xbfd06116; 0x21b4f4b5; 0x56b3c423; 0xcfba9599; 0xb8bda50f;
   0x2802b89e; 0x5f058808; 0xc60cd9b2; 0xb10be924; 0x2f6f7c87; 0x58684c11; 0xc1611dab; 0xb6662d3d;
   0x76dc4190; 0x01db7106; 0x98d220bc; 0xefd5102a; 0x71b18589; 0x06b6b51f; 0x9fbfe4a5; 0xe8b8d433;
   0x7807c9a2; 0x0f00f934; 0x9609a88e; 0xe10e9818; 0x7f6a0dbb; 0x086d3d2d; 0x91646c97; 0xe6635c01;
   0x6b6b51f4; 0x1c6c6162; 0x856530d8; 0xf262004e; 0x6c0695ed; 0x1b01a57b; 0x8208f4c1; 0xf50fc457;
   0x65b0d9c6; 0x12b7e950; 0x8bbeb8ea; 0xfcb9887c; 0x62dd1ddf; 0x15da2d49; 0x8cd37cf3; 0xfbd44c65;
   0x4db26158; 0x3ab551ce; 0xa3bc0074; 0xd4bb30e2; 0x4adfa541; 0x3dd895d7; 0xa4d1c46d; 0xd3d6f4fb;
   0x4369e96a; 0x346ed9fc; 0xad678846; 0xda60b8d0; 0x44042d73; 0x33031de5; 0xaa0a4c5f; 0xdd0d7cc9;
   0x5005713c; 0x270241aa; 0xbe0b1010; 0xc90c2086; 0x5768b525; 0x206f85b3; 0xb966d409; 0xce61e49f;
   0x5edef90e; 0x29d9c998; 0xb0d09822; 0xc7d7a8b4; 0x59b33d17; 0x2eb40d81; 0xb7bd5c3b; 0xc0ba6cad;
   0xedb88320; 0x9abfb3b6; 0x03b6e20c; 0x74b1d29a; 0xead54739; 0x9dd277af; 0x04db2615; 0x73dc1683;
   0xe3630b12; 0x94643b84; 0x0d6d6a3e; 0x7a6a5aa8; 0xe40ecf0b; 0x9309ff9d; 0x0a00ae27; 0x7d079eb1;
   0xf00f9344; 0x8708a3d2; 0x1e01f268; 0x6906c2fe; 0xf762575d; 0x806567cb; 0x196c3671; 0x6e6b06e7;
   0xfed41b76; 0x89d32be0; 0x10da7a5a; 0x67dd4acc; 0xf9b9df6f; 0x8ebeeff9; 0x17b7be43; 0x60b08ed5;
   0xd6d6a3e8; 0xa1d1937e; 0x38d8c2c4; 0x4fdff252; 0xd1bb67f1; 0xa6bc5767; 0x3fb506dd; 0x48b2364b;
   0xd80d2bda; 0xaf0a1b4c; 0x36034af6; 0x41047a60; 0xdf60efc3; 0xa867df55; 0x316e8eef; 0x4669be79;
   0xcb61b38c; 0xbc66831a; 0x256fd2a0; 0x5268e236; 0xcc0c7795; 0xbb0b4703; 0x220216b9; 0x5505262f;
   0xc5ba3bbe; 0xb2bd0b28; 0x2bb45a92; 0x5cb36a04; 0xc2d7ffa7; 0xb5d0cf31; 0x2cd99e8b; 0x5bdeae1d;
   0x9b64c2b0; 0xec63f226; 0x756aa39c; 0x026d930a; 0x9c0906a9; 0xeb0e363f; 0x72076785; 0x05005713;
   0x95bf4a82; 0xe2b87a14; 0x7bb12bae; 0x0cb61b38; 0x92d28e9b; 0xe5d5be0d; 0x7cdcefb7; 0x0bdbdf21;
   0x86d3d2d4; 0xf1d4e242; 0x68ddb3f8; 0x1fda836e; 0x81be16cd; 0xf6b9265b; 0x6fb077e1; 0x18b74777;
   0x88085ae6; 0xff0f6a70; 0x66063bca; 0x11010b5c; 0x8f659eff; 0xf862ae69; 0x616bffd3; 0x166ccf45;
   0xa00ae278; 0xd70dd2ee; 0x4e048354; 0x3903b3c2; 0xa7672661; 0xd06016f7; 0x4969474d; 0x3e6e77db;
   0xaed16a4a; 0xd9d65adc; 0x40df0b66; 0x37d83bf0; 0xa9bcae53; 0xdebb9ec5; 0x47b2cf7f; 0x30b5ffe9;
   0xbdbdf21c; 0xcabac28a; 0x53b39330; 0x24b4a3a6; 0xbad03605; 0xcdd70693; 0x54de5729; 0x23d967bf;
   0xb3667a2e; 0xc4614ab8; 0x5d681b02; 0x2a6f2b94; 0xb40bbe37; 0xc30c8ea1; 0x5a05df1b; 0x2d02ef8d].

Definition crc32_init : Z := 0xffffffff.

(** One round of the loop of [crc32_update]. *)
Definition crc32_step (crc byte : Z) : Z :=
  let i := u8 (Z.land (Z.lxor crc byte) 0xff) in
  Z.land (Z.lxor (nth (Z.to_nat i) crc_table 0) (Z.shiftr crc 8)) 0xffffffff.

Definition crc32_update (crc : Z) (data : list Z) : Z :=
  Z.land (foldl crc32_step crc data) 0xffffffff.

Definition crc32_cupdate (crc byte : Z) : Z := crc32_update crc [byte].

(** [~crc] on a [uint32_t]. *)
Definition crc32_finalize (crc : Z) : Z := u32 (Z.lnot crc).

Definition crc32 (data : list Z) : Z := crc32_finalize (crc32_update crc32_init data).

(** ** Reference: division by the polynomial, one bit at a time *)

Definition crc_bit (c : Z) : Z :=
  if Z.odd c then Z.lxor (Z.shiftr c 1) 0xedb88320 else Z.shiftr c 1.

Definition crc_byte (c b : Z) : Z := Nat.iter 8 crc_bit (Z.lxor c b).

Definition crc_ref (data : list Z) : Z := Z.lxor (foldl crc_byte 0xffffffff data) 0xffffffff.

(** ** Linearity *)

Lemma crc_bit_lxor a b : crc_bit (Z.lxor a b) = Z.lxor (crc_bit a) (crc_bit b).
Proof.
  unfold crc_bit. rewrite <-!Z.bit0_odd, Z.lxor_spec, Z.shiftr_lxor.
  set (x := Z.shiftr a 1). set (y := Z.shiftr b 1).
  destruct (Z.testbit a 0), (Z.testbit b 0); cbn [xorb].
  - rewrite (Z.lxor_comm y), <-Z.lxor_assoc, (Z.lxor_assoc x).
    by rewrite Z.lxor_nilpotent, Z.lxor_0_r.
  - by rewrite Z.lxor_assoc, (Z.lxor_comm y), Z.lxor_assoc.
  - by rewrite Z.lxor_assoc.
  - done.
Qed.

Lemma iter_crc_bit_lxor n a b :
  Nat.iter n crc_bit (Z.lxor a b) = Z.lxor (Nat.iter n crc_bit a) (Nat.iter n crc_bit b).
Proof. induction n as [|n IH]; simpl; [done|]. by rewrite IH, crc_bit_lxor. Qed.

(** Bits above the ones shifted out only move. *)
Lemma crc_bit_shiftl x n : 0 < n → crc_bit (Z.shiftl x n) = Z.shiftl x (n - 1).
Proof.
  intros Hn. unfold crc_bit. rewrite <-Z.bit0_odd, Z.shiftl_spec_low by lia.
  rewrite Z.shiftr_shiftl_l by lia. done.
Qed.

Lemma iter_crc_bit_shiftl x n : Nat.iter n crc_bit (Z.shiftl x (Z.of_nat n)) = x.
Proof.
  induction n as [|n IH]; [apply Z.shiftl_0_r|]. rewrite Nat.iter_succ_r.
  rewrite crc_bit_shiftl by lia. replace (Z.of_nat (S n) - 1) with (Z.of_nat n) by lia. done.
Qed.

Lemma low_byte_split c : c = Z.lxor (Z.land c 0xff) (Z.shiftl (Z.shiftr c 8) 8).
Proof.
  apply Z.bits_inj'. intros i Hi. rewrite Z.lxor_spec, Z.land_spec, Z.shiftl_spec by lia.
  change 0xff with (Z.ones 8). destruct (decide (i < 8)).
  - rewrite Z.ones_spec_low, andb_true_r, (Z.testbit_neg_r _ (i - 8)) by lia. by rewrite xorb_false_r.
  - rewrite Z.ones_spec_high, andb_false_r, Z.shiftr_spec by lia.
    replace (i - 8 + 8) with i by lia. by destruct (Z.testbit c i).
Qed.

(** Every entry of the table is its index pushed through eight bits. *)
Lemma crc_table_bits i : 0 ≤ i < 256 → nth (Z.to_nat i) crc_table 0 = Nat.iter 8 crc_bit i.
Proof.
  intros Hi. apply Z.eqb_eq.
  apply (forall_below 256 (λ i, nth (Z.to_nat i) crc_table 0 =? Nat.iter 8 crc_bit i));
    [by vm_compute|done].
Qed.

Lemma lxor_range w a b : 0 ≤ w → urange w a → urange w b → urange w (Z.lxor a b).
Proof.
  unfold urange. intros Hw Ha Hb.
  assert (0 ≤ Z.lxor a b) by (apply Z.lxor_nonneg; lia).
  assert (Z.lxor a b / 2 ^ w = 0) as H0.
  { by rewrite <-Z.shiftr_div_pow2, Z.shiftr_lxor, !Z.shiftr_div_pow2, !Z.div_small by lia. }
  apply Z.div_small_iff in H0; lia.
Qed.

Lemma crc_bit_range c : urange 32 c → urange 32 (crc_bit c).
Proof.
  intros Hc. assert (urange 32 (Z.shiftr c 1)) as Hs.
  { unfold urange in *. rewrite Z.shiftr_div_pow2 by lia. change (2 ^ 1) with 2.
    split; [apply Z.div_pos; lia|apply Z.div_lt_upper_bound; lia]. }
  unfold crc_bit. destruct (Z.odd c); [|done].
  apply lxor_range; [lia|done|]. by apply (bool_decide_unpack _).
Qed.

Lemma iter_crc_bit_range n c : urange 32 c → urange 32 (Nat.iter n crc_bit c).
Proof. intros Hc. induction n; simpl; [done|]. by apply crc_bit_range. Qed.

Lemma byte_range32 b : byte b → urange 32 b.
Proof. unfold byte, urange. lia. Qed.

Lemma crc_byte_range c b : urange 32 c → byte b → urange 32 (crc_byte c b).
Proof. intros Hc Hb. apply iter_crc_bit_range, lxor_range; [lia|done|by apply byte_range32]. Qed.

Lemma land_mask32 c : urange 32 c → Z.land c 0xffffffff = c.
Proof.
  intros Hc. change 0xffffffff with (2 ^ 32 - 1). rewrite land_ones_mod by lia. by apply Z.mod_small.
Qed.

(** The table step is eight bit steps. *)
Lemma crc32_step_byte c b : urange 32 c → byte b → crc32_step c b = crc_byte c b.
Proof.
  intros Hc Hb. unfold crc32_step, crc_byte.
  set (x := Z.lxor c b).
  assert (urange 32 x) as Hx by (apply lxor_range; [lia|done|by apply byte_range32]).
  assert (0 ≤ Z.land x 0xff < 256) as Hl.
  { change 0xff with (2 ^ 8 - 1). rewrite land_ones_mod by lia. apply Z.mod_pos_bound. lia. }
  assert (Z.shiftr x 8 = Z.shiftr c 8) as Hhi.
  { unfold x. rewrite Z.shiftr_lxor. assert (Z.shiftr b 8 = 0) as ->; [|apply Z.lxor_0_r].
    unfold byte in Hb. rewrite Z.shiftr_div_pow2 by lia. apply Z.div_small. lia. }
  rewrite uwrap_small by (unfold urange; lia). rewrite crc_table_bits by done. rewrite <-Hhi.
  assert (Nat.iter 8 crc_bit x = Z.lxor (Nat.iter 8 crc_bit (Z.land x 0xff)) (Z.shiftr x 8)) as ->.
  { rewrite (low_byte_split x) at 1. rewrite iter_crc_bit_lxor. f_equal.
    apply (iter_crc_bit_shiftl (Z.shiftr x 8) 8). }
  apply land_mask32.
  apply lxor_range; [lia| |].
  - apply iter_crc_bit_range. unfold urange. lia.
  - unfold urange in *. rewrite Z.shiftr_div_pow2 by lia.
    split; [apply Z.div_pos; lia|apply Z.div_lt_upper_bound; lia].
Qed.

Lemma foldl_crc_step c data :
  urange 32 c → bytes data →
  foldl crc32_step c data = foldl crc_byte c data ∧ urange 32 (foldl crc32_step c data).
Proof.
  intros Hc Hd. revert c Hc. induction Hd as [|b data Hb Hd IH]; intros c Hc; simpl; [done|].
  rewrite crc32_step_byte by done. by apply IH, crc_byte_range.
Qed.

Lemma crc32_update_foldl c data :
  urange 32 c → bytes data →
  crc32_update c data = foldl crc_byte c data ∧ urange 32 (crc32_update c data).
Proof.
  intros Hc Hd. destruct (foldl_crc_step c data Hc Hd) as [H1 H2].
  unfold crc32_update. by rewrite land_mask32.
Qed.

Lemma crc32_init_range : urange 32 crc32_init.
Proof. by apply (bool_decide_unpack _). Qed.

Lemma crc32_update_app c a b :
  urange 32 c → bytes a → bytes b → crc32_update c (a ++ b) = crc32_update (crc32_update c a) b.
Proof.
  intros Hc Ha Hb. destruct (crc32_update_foldl c a Hc Ha) as [E Hr].
  rewrite (proj1 (crc32_update_foldl c (a ++ b) Hc ltac:(by apply bytes_app))).
  rewrite (proj1 (crc32_update_foldl _ b Hr Hb)). by rewrite foldl_app, E.
Qed.

Lemma lnot_mask32 c : urange 32 c → u32 (Z.lnot c) = Z.lxor c 0xffffffff.
Proof.
  intros Hc. unfold uwrap. rewrite <-Z.land_ones by lia. change 0xffffffff with (Z.ones 32).
  apply Z.bits_inj'. intros i Hi. rewrite Z.land_spec, Z.lxor_spec, Z.lnot_spec by done.
  destruct (decide (i < 32)).
  - rewrite Z.ones_spec_low by lia. by destruct (Z.testbit c i).
  - rewrite Z.ones_spec_high by lia. rewrite <-(Z.mod_small c (2 ^ 32)) by done.
    rewrite Z.mod_pow2_bits_high by lia. done.
Qed.

(** ** Injectivity *)

(** The top byte of a table entry determines its index. *)
Lemma crc_table_top i j :
  0 ≤ i < 256 → 0 ≤ j < 256 →
  Z.shiftr (nth (Z.to_nat i) crc_table 0) 24 = Z.shiftr (nth (Z.to_nat j) crc_table 0) 24 → i = j.
Proof.
  intros Hi Hj H.
  set (inv := λ t, match list_find (λ e, Z.shiftr e 24 = t) crc_table with
                   | Some (n, _) => Z.of_nat n | None => 0 end).
  assert (∀ k, 0 ≤ k < 256 → inv (Z.shiftr (nth (Z.to_nat k) crc_table 0) 24) = k) as Hinv.
  { intros k Hk. apply Z.eqb_eq.
    apply (forall_below 256 (λ k, inv (Z.shiftr (nth (Z.to_nat k) crc_table 0) 24) =? k));
      [by vm_compute|done]. }
  rewrite <-(Hinv i), <-(Hinv j), H by done. done.
Qed.

Lemma shiftr_small_top c : urange 32 c → Z.shiftr (Z.shiftr c 8) 24 = 0.
Proof.
  intros Hc. unfold urange in Hc. rewrite Z.shiftr_shiftr by lia. rewrite Z.shiftr_div_pow2 by lia.
  apply Z.div_small. lia.
Qed.

Lemma land_lxor_distr a b m : Z.land (Z.lxor a b) m = Z.lxor (Z.land a m) (Z.land b m).
Proof.
  apply Z.bits_inj'. intros i Hi. rewrite !Z.lxor_spec, !Z.land_spec, Z.lxor_spec.
  by destruct (Z.testbit a i), (Z.testbit b i), (Z.testbit m i).
Qed.

Lemma land_byte b : byte b → Z.land b 0xff = b.
Proof.
  intros Hb. change 0xff with (2 ^ 8 - 1). rewrite land_ones_mod by lia. by apply Z.mod_small.
Qed.

Lemma crc32_step_inj c1 c2 b1 b2 :
  urange 32 c1 → urange 32 c2 → byte b1 → byte b2 →
  crc32_step c1 b1 = crc32_step c2 b2 → (c1 = c2 ↔ b1 = b2).
Proof.
  intros H1 H2 Hb1 Hb2. unfold crc32_step.
  set (i1 := u8 (Z.land (Z.lxor c1 b1) 0xff)). set (i2 := u8 (Z.land (Z.lxor c2 b2) 0xff)).
  assert (0 ≤ i1 < 256 ∧ 0 ≤ i2 < 256) as [Hi1 Hi2] by (split; apply byte_uwrap).
  set (e1 := nth (Z.to_nat i1) crc_table 0). set (e2 := nth (Z.to_nat i2) crc_table 0).
  assert (∀ k, 0 ≤ k < 256 → urange 32 (nth (Z.to_nat k) crc_table 0)) as He.
  { intros k Hk. rewrite crc_table_bits by done. apply iter_crc_bit_range. unfold urange. lia. }
  assert (∀ c, urange 32 c → urange 32 (Z.shiftr c 8)) as Hsh.
  { intros c Hc. unfold urange in *. rewrite Z.shiftr_div_pow2 by lia.
    split; [apply Z.div_pos; lia|apply Z.div_lt_upper_bound; lia]. }
  rewrite !land_mask32 by (apply lxor_range; [lia|by apply He|by apply Hsh]).
  intros Heq.
  assert (i1 = i2) as Hi.
  { apply crc_table_top; [done..|]. fold e1 e2.
    apply (f_equal (λ z, Z.shiftr z 24)) in Heq. rewrite !Z.shiftr_lxor in Heq.
    by rewrite !shiftr_small_top, !Z.lxor_0_r in Heq by done. }
  assert (e1 = e2) as E by (unfold e1, e2; by rewrite Hi).
  assert (Z.shiftr c1 8 = Z.shiftr c2 8) as Hhi.
  { rewrite E in Heq. apply (f_equal (Z.lxor e2)) in Heq.
    by rewrite <-!Z.lxor_assoc, Z.lxor_nilpotent, !Z.lxor_0_l in Heq. }
  assert (Z.land (Z.lxor c1 b1) 0xff = Z.land (Z.lxor c2 b2) 0xff) as Hlo.
  { unfold i1, i2 in Hi. rewrite !uwrap_small in Hi; [done| |];
      change 0xff with (2 ^ 8 - 1); rewrite land_ones_mod by lia; apply Z.mod_pos_bound; lia. }
  rewrite !land_lxor_distr, (land_byte b1), (land_byte b2) in Hlo by done. split.
  - intros <-. apply (f_equal (Z.lxor (Z.land c1 0xff))) in Hlo.
    by rewrite <-!Z.lxor_assoc, Z.lxor_nilpotent, !Z.lxor_0_l in Hlo.
  - intros <-. apply (f_equal (λ z, Z.lxor z b1)) in Hlo.
    rewrite !Z.lxor_assoc, Z.lxor_nilpotent, !Z.lxor_0_r in Hlo.
    by rewrite (low_byte_split c1), (low_byte_split c2), Hhi, Hlo.
Qed.

Lemma foldl_crc_step_inj c1 c2 data :
  urange 32 c1 → urange 32 c2 → bytes data →
  foldl crc32_step c1 data = foldl crc32_step c2 data → c1 = c2.
Proof.
  intros H1 H2 Hd. revert c1 c2 H1 H2. induction Hd as [|b data Hb Hd IH]; intros c1 c2 H1 H2; simpl;
    [done|]. intros H. apply IH in H.
  - by apply (crc32_step_inj c1 c2 b b).
  - rewrite crc32_step_byte by done. by apply crc_byte_range.
  - rewrite crc32_step_byte by done. by apply crc_byte_range.
Qed.

(** ** Properties *)

(** C27: the table driven checksum is the CRC-32 of IEEE 802.3: on every sequence
    of bytes [crc32] is the remainder computed bit by bit with the reflected
    polynomial. *)
Theorem crc32_bitwise data : bytes data → crc32 data = crc_ref data.
Proof.
  intros Hd. destruct (crc32_update_foldl crc32_init data crc32_init_range Hd) as [E Hr].
  unfold crc32, crc_ref, crc32_finalize. rewrite lnot_mask32 by done. by rewrite E.
Qed.

Lemma crc32_bitwise_witness :
  crc32 [0x31; 0x32; 0x33; 0x34; 0x35; 0x36; 0x37; 0x38; 0x39] =
  crc_ref [0x31; 0x32; 0x33; 0x34; 0x35; 0x36; 0x37; 0x38; 0x39].
Proof. apply crc32_bitwise. repeat constructor; by apply (bool_decide_unpack _); vm_compute. Defined.

(** The check value of CRC-32. *)
Example crc32_check : crc32 [0x31; 0x32; 0x33; 0x34; 0x35; 0x36; 0x37; 0x38; 0x39] = 0xcbf43926.
Proof. by vm_compute. Qed.

Lemma crc32_one_byte pre post b1 b2 :
  bytes pre → bytes post → byte b1 → byte b2 →
  crc32 (pre ++ b1 :: post) = crc32 (pre ++ b2 :: post) → b1 = b2.
Proof.
  intros Hpre Hpost H1 H2 H.
  assert (∀ b, byte b → bytes (pre ++ b :: post)) as Hall
    by (intros b Hb; apply bytes_app; split; [done|by constructor]).
  pose proof (crc32_update_foldl crc32_init _ crc32_init_range (Hall b1 H1)) as [_ Hr1].
  pose proof (crc32_update_foldl crc32_init _ crc32_init_range (Hall b2 H2)) as [_ Hr2].
  unfold crc32, crc32_finalize in H. rewrite !lnot_mask32 in H by done.
  apply (f_equal (λ z, Z.lxor z 0xffffffff)) in H.
  rewrite !Z.lxor_assoc, Z.lxor_nilpotent, !Z.lxor_0_r in H.
  pose proof (foldl_crc_step crc32_init pre crc32_init_range Hpre) as [_ Hc].
  unfold crc32_update in H. rewrite !land_mask32 in H.
  - rewrite !foldl_app in H. simpl in H. set (c := foldl crc32_step crc32_init pre) in *.
    apply foldl_crc_step_inj in H; [|rewrite crc32_step_byte by done; by apply crc_byte_range..|done].
    by apply (crc32_step_inj c c b1 b2).
  - by apply foldl_crc_step; [apply crc32_init_range|apply Hall].
  - by apply foldl_crc_step; [apply crc32_init_range|apply Hall].
Qed.
