(* ===== verification/Stream.v ===== *)
(** * Stream transport layers ([libshvrpc/rpcclient_stream.c])

    The Block and the Serial framing of messages on a byte stream, with the
    [stream_ctrl] operations that drive them.

    - [net] is the connection: what the next [poll]/[read] and [poll]/[write]
      calls return, as traces of events, the bytes written so far and the
      recorded [errnum].  A trace says when a [poll] times out, so the timeout
      arguments of [xread] have no other use and are left out.  After the end of
      its trace the reading side times out and the writing side accepts.
    - [block] and [serial] are the two members of the union in [struct ctx].
      Outcomes of [realloc] are a trace too, and [fault] records a copy outside
      of the allocated buffer.
    - [c->fr] is not buffered: [getc] and [fread] are calls of [cookie_read].
      [c->fw] has a buffer of [BUFSIZ] bytes for Serial and none for Block.
    - Loggers do not take part in the protocol and are left out. *)

From S2P Require Import Prelude Stdio Crc32 Chainpack CpItem ChainpackPack.

(** ** Definitions *)

Definition STX : Z := 0xA2.
Definition ETX : Z := 0xA3.
Definition ATX : Z := 0xA4.
Definition ESC : Z := 0xAA.
Definition ESC_STX : Z := 0x02.
Definition ESC_ETX : Z := 0x03.
Definition ESC_ATX : Z := 0x04.
Definition ESC_ESC : Z := 0x0A.
Definition ESCX (x : Z) : Z := Z.land x 0x0f.
Definition DESCX (x : Z) : Z := Z.lor x 0xA0.
Definition ESCAPABLE (x : Z) : bool := (x =? STX) || (x =? ETX) || (x =? ATX) || (x =? ESC).
Definition ESCAPED (x : Z) : bool :=
  (x =? ESC_STX) || (x =? ESC_ETX) || (x =? ESC_ATX) || (x =? ESC_ESC).

Definition BUFSIZ : Z := 8192.

Definition EAGAIN : Z := 11.
Definition EWOULDBLOCK : Z := 11.
Definition EPIPE : Z := 32.
Definition ENOTCONN : Z := 107.
Definition ETIMEDOUT : Z := 110.

Inductive rpcstream_proto := RPCSTREAM_P_BLOCK | RPCSTREAM_P_SERIAL | RPCSTREAM_P_SERIAL_CRC.
Inductive wmsg_state := WMSG_NO | WMSG_ST | WMSG_DATA.
Inductive rmsg_state := RMSG_NO | RMSG_STX | RMSG_DATA | RMSG_ETX.
Inductive rpcclient_msg_type := RPCC_NOTHING | RPCC_MESSAGE | RPCC_RESET | RPCC_ERROR.

#[export] Instance rpcstream_proto_eq_dec : EqDecision rpcstream_proto.
Proof. solve_decision. Defined.
#[export] Instance wmsg_state_eq_dec : EqDecision wmsg_state.
Proof. solve_decision. Defined.
#[export] Instance rmsg_state_eq_dec : EqDecision rmsg_state.
Proof. solve_decision. Defined.

(** One [poll] of the reading side with the [read] that follows it. *)
Inductive rxev :=
  | RxIntr                    (** interrupted, tried again *)
  | RxPollErr                 (** [poll] failed *)
  | RxTimeout                 (** [poll] returned 0 *)
  | RxHup                     (** [POLLHUP] *)
  | RxData (l : list Z)       (** bytes to read; none of them is the end of file *)
  | RxErr (e : Z).            (** [read] failed *)

(** One [poll] of the writing side with the [write] that follows it. *)
Inductive txev :=
  | TxIntr                    (** [poll] interrupted *)
  | TxPollErr (e : Z)
  | TxTimeout
  | TxHup
  | TxWriteIntr               (** [write] interrupted *)
  | TxAccept (n : nat)        (** at most [n] bytes written *)
  | TxErr (e : Z).

Record net := Net { errnum : Z; rx : list rxev; tx : list txev; wire : list Z }.

Record block := Block {
  rmsgoff : Z;
  wbuf : list Z;        (** the [wbuflen] bytes in the buffer *)
  wbufsiz : Z;
  walloc : Z;           (** size of the allocation behind the buffer *)
  heap : list bool;     (** outcomes of the next [realloc] calls *)
  fault : bool
}.

Record serial := Serial { wmsg : wmsg_state; rmsg : rmsg_state; rcrc : Z; wcrc : Z }.

Record ctx := Ctx {
  proto : rpcstream_proto;
  rfd : Z;
  wfd : Z;
  fw : list Z;          (** buffer of [c->fw] *)
  cnet : net;
  blk : block;
  ser : serial
}.

Definition wbuflen (b : block) : Z := Z.of_nat (length (wbuf b)).

Definition set_net (n : net) (c : ctx) : ctx :=
  Ctx (proto c) (rfd c) (wfd c) (fw c) n (blk c) (ser c).
Definition set_blk (b : block) (c : ctx) : ctx :=
  Ctx (proto c) (rfd c) (wfd c) (fw c) (cnet c) b (ser c).
Definition set_ser (s : serial) (c : ctx) : ctx :=
  Ctx (proto c) (rfd c) (wfd c) (fw c) (cnet c) (blk c) s.
Definition set_fw (l : list Z) (c : ctx) : ctx :=
  Ctx (proto c) (rfd c) (wfd c) l (cnet c) (blk c) (ser c).
Definition set_fds (r w : Z) (c : ctx) : ctx :=
  Ctx (proto c) r w (fw c) (cnet c) (blk c) (ser c).
Definition set_errnum (e : Z) (n : net) : net := Net e (rx n) (tx n) (wire n).
Definition set_rmsgoff (v : Z) (b : block) : block :=
  Block v (wbuf b) (wbufsiz b) (walloc b) (heap b) (fault b).
Definition set_wbuf (l : list Z) (b : block) : block :=
  Block (rmsgoff b) l (wbufsiz b) (walloc b) (heap b) (fault b).
Definition set_rmsg (r : rmsg_state) (s : serial) : serial := Serial (wmsg s) r (rcrc s) (wcrc s).
Definition set_rcrc (v : Z) (s : serial) : serial := Serial (wmsg s) (rmsg s) v (wcrc s).
Definition set_wmsg (w : wmsg_state) (s : serial) : serial := Serial w (rmsg s) (rcrc s) (wcrc s).
Definition set_wcrc (v : Z) (s : serial) : serial := Serial (wmsg s) (rmsg s) (rcrc s) v.

(** *** Reading and writing of the descriptors *)

(** The result, the bytes stored in [buf], the new [errnum] and the trace left. *)
Fixpoint xread_rx (siz : Z) (evs : list rxev) (err : Z) : Z * list Z * Z * list rxev :=
  match evs with
  | [] => (-2, [], err, [])
  | RxIntr :: r => xread_rx siz r err
  | RxPollErr :: r => (-1, [], err, r)
  | RxTimeout :: r => (-2, [], err, r)
  | RxHup :: r => (-1, [], EPIPE, r)
  | RxErr e :: r => (-1, [], e, r)
  | RxData l :: r =>
      match l with
      | [] => (0, [], ENOTCONN, r)
      | _ =>
          let n := Z.min siz (Z.of_nat (length l)) in
          let rest := drop (Z.to_nat n) l in
          (n, take (Z.to_nat n) l, err, if decide (rest = []) then r else RxData rest :: r)
      end
  end.

Definition xread (n : net) (siz : Z) : Z * list Z * net :=
  let '(res, l, err, r) := xread_rx siz (rx n) (errnum n) in
  (res, l, Net err r (tx n) (wire n)).

Definition xreadc (n : net) : Z * net :=
  let '(res, l, n') := xread n 1 in
  if 0 <? res then (hd 0 l, n') else if res =? 0 then (-1, n') else (res, n').

(** The loop of [xwrite]: success, the new [errnum], the trace left and the bytes
    that went out. *)
Fixpoint xwrite_tx (evs : list txev) (data : list Z) (err : Z) : bool * Z * list txev * list Z :=
  match data with
  | [] => (true, err, evs, [])
  | _ =>
      match evs with
      | [] => (true, 0, [], data)
      | TxIntr :: r => xwrite_tx r data err
      | TxPollErr e :: r => (false, e, r, [])
      | TxTimeout :: r => (false, EWOULDBLOCK, r, [])
      | TxHup :: r => (false, EPIPE, r, [])
      | TxErr e :: r => (false, e, r, [])
      | TxWriteIntr :: r => xwrite_tx r data 0
      | TxAccept k :: r =>
          let '(ok, err', r', out) := xwrite_tx r (drop k data) 0 in
          (ok, err', r', take k data ++ out)
      end
  end.

Definition xwrite (n : net) (data : list Z) : bool * net :=
  if negb (errnum n =? 0) && negb (errnum n =? EAGAIN) then (false, n)
  else
    let '(ok, err, r, out) := xwrite_tx (tx n) data (errnum n) in
    (ok, Net err (rx n) r (wire n ++ out)).

(** *** Block *)

Definition cookie_read_block (c : ctx) (size : Z) : Z * list Z * ctx :=
  let size := if rmsgoff (blk c) <? size then rmsgoff (blk c) else size in
  if size =? 0 then (0, [], c)
  else
    let '(res, l, n) := xread (cnet c) size in
    let b := if 0 <=? res then set_rmsgoff (u64 (rmsgoff (blk c) - res)) (blk c) else blk c in
    let n := if res =? -2 then set_errnum ETIMEDOUT n else n in
    (res, l, set_blk b (set_net n c)).

(** The growth loop: [inr false] is the early [return 0]. *)
Definition grow_step (size : Z) (b : block) : block + bool * block :=
  if u64 (wbuflen b + size) <? wbufsiz b then inr (true, b)
  else
    let siz := u64 (2 * (if wbufsiz b =? 0 then 4 else wbufsiz b)) in
    match heap b with
    | false :: h => inr (false, Block (rmsgoff b) (wbuf b) siz (walloc b) h (fault b))
    | _ => inl (Block (rmsgoff b) (wbuf b) siz siz (tail (heap b)) (fault b))
    end.

Definition cookie_write_block (c : ctx) (l : list Z) : Z * ctx :=
  let size := Z.of_nat (length l) in
  match cloop (grow_step size) 64 (blk c) with
  | inr (true, b) =>
      (size, set_blk (Block (rmsgoff b) (wbuf b ++ l) (wbufsiz b) (walloc b) (heap b)
                        (fault b || (walloc b <? wbuflen b + size))) c)
  | inr (false, b) | inl b => (0, set_blk b c)
  end.

(** The size, one [xwrite] per byte. *)
Fixpoint send_size (fuel : nat) (n : net) (len bytes i : Z) : bool * net :=
  match fuel with
  | O => (true, n)
  | S fuel' =>
      if i <? bytes then
        let v := if i =? 0 then chainpack_w_uint_value1 len bytes
                 else Z.land 0xff (Z.shiftr len (8 * (bytes - i - 1))) in
        let '(ok, n) := xwrite n [v] in
        if ok then send_size fuel' n len bytes (i + 1) else (false, n)
      else (true, n)
  end.

Definition rpcclient_stream_block_send (c : ctx) : bool * ctx :=
  if wbuflen (blk c) =? 0 then (false, c)
  else
    let bytes := chainpack_w_uint_bytes (wbuflen (blk c)) in
    let '(ok, n) := send_size (Z.to_nat bytes) (cnet c) (wbuflen (blk c)) bytes 0 in
    if negb ok then (false, set_net n c)
    else
      let '(res, n) := xwrite n (wbuf (blk c)) in
      (res, set_blk (set_wbuf [] (blk c)) (set_net n c)).

Definition rpcclient_stream_block_drop (c : ctx) : bool * ctx :=
  (true, set_blk (set_wbuf [] (blk c)) c).

(** The bytes of the size after the first one; [None] is the error return. *)
Fixpoint next_size (fuel : nat) (n : net) (msgsiz : Z) : option Z * net :=
  match fuel with
  | O => (Some msgsiz, n)
  | S fuel' =>
      let '(v, n) := xreadc n in
      if v =? -1 then (None, set_errnum ETIMEDOUT n)
      else next_size fuel' n (u64 (Z.lor (Z.shiftl msgsiz 8) v))
  end.

Definition rpcclient_stream_block_nextmsg (c : ctx) : rpcclient_msg_type * ctx :=
  let '(v, n) := xreadc (cnet c) in
  if v <? 0 then (if v =? -2 then RPCC_NOTHING else RPCC_ERROR, set_net n c)
  else
    let bytes := chainpack_int_bytes v in
    match next_size (Z.to_nat (bytes - 1)) n (chainpack_uint_value1 v bytes) with
    | (None, n) => (RPCC_ERROR, set_net n c)
    | (Some msgsiz, n) => (RPCC_MESSAGE, set_blk (set_rmsgoff msgsiz (blk c)) (set_net n c))
    end.

(** *** Serial *)

(** The loop of [cookie_read_serial]: [size] bytes are still wanted, [buf] has
    what was read. *)
Fixpoint read_serial (size : nat) (n : net) (s : serial) (buf : list Z)
    : Z * list Z * net * serial :=
  match size with
  | O => (Z.of_nat (length buf), buf, n, s)
  | S size' =>
      let '(v, n) := xreadc n in
      if v =? STX then (-1, buf, n, set_rmsg RMSG_STX s)
      else if v =? ETX then (Z.of_nat (length buf), buf, n, set_rmsg RMSG_ETX s)
      else if v =? ESC then
        let s := set_rcrc (crc32_cupdate (rcrc s) v) s in
        let '(v, n) := xreadc n in
        if ESCAPED v
        then read_serial size' n (set_rcrc (crc32_cupdate (rcrc s) v) s) (buf ++ [DESCX v])
        else (-1, buf, n, set_rmsg RMSG_NO s)
      else if v =? ATX then (-1, buf, n, set_rmsg RMSG_NO s)
      else if v <? 0 then (v, buf, n, set_rmsg RMSG_NO s)
      else read_serial size' n (set_rcrc (crc32_cupdate (rcrc s) v) s) (buf ++ [v])
  end.

Definition cookie_read_serial (c : ctx) (size : Z) : Z * list Z * ctx :=
  if negb (bool_decide (rmsg (ser c) = RMSG_DATA))
  then ((if errnum (cnet c) =? 0 then 0 else -1), [], c)
  else
    let '(res, l, n, s) := read_serial (Z.to_nat size) (cnet c) (ser c) [] in
    (res, l, set_ser s (set_net n c)).

(** The inner loop of [cookie_write_serial]: fills [buf] up to [room] bytes;
    [data] is what was not consumed. *)
Fixpoint fill (room : nat) (s : serial) (esc : bool) (data : list Z)
    : list Z * serial * bool * list Z :=
  match room, data with
  | S room', x :: data' =>
      if decide (wmsg s = WMSG_DATA) then
        let '(b, esc', rest) :=
          if esc then (ESCX x, false, data')
          else if ESCAPABLE x then (ESC, true, data) else (x, false, data') in
        let '(buf, s, esc, rest) :=
          fill room' (set_wcrc (crc32_cupdate (wcrc s) b) s) esc' rest in
        (b :: buf, s, esc, rest)
      else
        let '(buf, s, esc, rest) :=
          fill room' (set_wcrc crc32_init (set_wmsg WMSG_DATA s)) esc data in
        (STX :: buf, s, esc, rest)
  | _, _ => ([], s, esc, data)
  end.

(** One round of the outer loop: the state is the connection, the member of the
    union, [esc] and the data not consumed. *)
Definition write_serial_step (st : net * serial * bool * list Z)
    : (net * serial * bool * list Z) + (net * serial * list Z) :=
  let '(n, s, esc, data) := st in
  match data with
  | [] => inr (n, s, [])
  | _ =>
      let '(buf, s, esc, rest) := fill (Z.to_nat BUFSIZ) s esc data in
      let '(ok, n) := xwrite n buf in
      if ok then inl (n, s, esc, rest) else inr (n, s, rest)
  end.

Definition cookie_write_serial (c : ctx) (data : list Z) : Z * ctx :=
  match cloop write_serial_step 64 (cnet c, ser c, false, data) with
  | inr (n, s, rest) =>
      (Z.of_nat (length data) - Z.of_nat (length rest), set_ser s (set_net n c))
  | inl (n, s, _, rest) =>
      (Z.of_nat (length data) - Z.of_nat (length rest), set_ser s (set_net n c))
  end.

(** The checksum after [ETX], from the most significant byte. *)
Definition crc_part (crc y : Z) : list Z :=
  let v := Z.land (Z.shiftr crc (8 * y)) 0xff in
  if ESCAPABLE v then [ESC; ESCX v] else [v].

Definition rpcclient_stream_serial_send (c : ctx) : bool * ctx :=
  if negb (bool_decide (wmsg (ser c) = WMSG_DATA)) then (false, c)
  else
    let s := set_wmsg WMSG_NO (ser c) in
    let tail :=
      if decide (proto c = RPCSTREAM_P_SERIAL_CRC)
      then let crc := crc32_finalize (wcrc s) in
           crc_part crc 3 ++ crc_part crc 2 ++ crc_part crc 1 ++ crc_part crc 0
      else [] in
    let '(ok, n) := xwrite (cnet c) (ETX :: tail) in
    (ok, set_ser s (set_net n c)).

Definition rpcclient_stream_serial_drop (c : ctx) : bool * ctx :=
  if decide (wmsg (ser c) = WMSG_NO) then (true, c)
  else
    let '(ok, n) := xwrite (cnet c) [ATX] in
    (ok, set_ser (set_wmsg WMSG_NO (ser c)) (set_net n c)).

(** [do v = xreadc(c, 0); while (v >= 0 && v != STX)] *)
Definition seek_step (n : net) : net + Z * net :=
  let '(v, n) := xreadc n in if (0 <=? v) && negb (v =? STX) then inl n else inr (v, n).

Definition seek_stx (n : net) : Z * net :=
  match cloop seek_step 64 n with inr r => r | inl n => (-1, n) end.

Definition rpcclient_stream_serial_nextmsg (c : ctx) : rpcclient_msg_type * ctx :=
  let start c :=
    (RPCC_MESSAGE, set_ser (set_rmsg RMSG_DATA (set_rcrc crc32_init (ser c))) c) in
  if decide (rmsg (ser c) = RMSG_STX) then start c
  else
    let c := set_ser (set_rmsg RMSG_NO (ser c)) c in
    let '(v, n) := seek_stx (cnet c) in
    let c := set_net n c in
    if v =? STX then start c else (if v =? -2 then RPCC_NOTHING else RPCC_ERROR, c).

(** The loop over the four bytes of the received checksum; [None] is the early
    [return false]. *)
Fixpoint read_crc (i : nat) (n : net) (crc : Z) : option Z * net :=
  match i with
  | O => (Some crc, n)
  | S i' =>
      let '(v, n) := xreadc n in
      if v <? 0 then (None, n)
      else if v =? ESC then
        let '(v, n) := xreadc n in
        if negb (ESCAPED v) then (None, n)
        else read_crc i' n (u32 (Z.lor (Z.shiftl crc 8) (Z.land (DESCX v) 0xff)))
      else read_crc i' n (u32 (Z.lor (Z.shiftl crc 8) (Z.land v 0xff)))
  end.

Definition rpcclient_stream_serial_validate (c : ctx) : bool * ctx :=
  if negb (bool_decide (rmsg (ser c) = RMSG_ETX)) then (false, c)
  else if negb (bool_decide (proto c = RPCSTREAM_P_SERIAL_CRC)) then (true, c)
  else
    let '(crc, n) := read_crc 4 (cnet c) 0 in
    (match crc with
     | Some crc => crc =? crc32_finalize (rcrc (ser c))
     | None => false
     end, set_net n c).

(** *** The streams of a client *)

Definition is_block (c : ctx) : bool := bool_decide (proto c = RPCSTREAM_P_BLOCK).

Definition cookie_read (c : ctx) (size : Z) : Z * list Z * ctx :=
  if is_block c then cookie_read_block c size else cookie_read_serial c size.

Definition cookie_write (c : ctx) (l : list Z) : Z * ctx :=
  if is_block c then cookie_write_block c l else cookie_write_serial c l.

(** [getc_unlocked(c->fr)] *)
Definition fr_getc (c : ctx) : option Z * ctx :=
  let '(res, l, c) := cookie_read c 1 in (if 0 <? res then head l else None, c).

(** [fread_unlocked(buf, 1, size, c->fr)]: reads until [size] bytes are there, the
    end of file or an error; a read that fails leaves nothing behind. *)
Fixpoint fread_loop (fuel : nat) (c : ctx) (size : Z) (buf : list Z) : list Z * ctx :=
  match fuel with
  | O => (buf, c)
  | S fuel' =>
      if size <=? Z.of_nat (length buf) then (buf, c)
      else
        let '(res, l, c) := cookie_read c (size - Z.of_nat (length buf)) in
        if 0 <? res then fread_loop fuel' c size (buf ++ l) else (buf, c)
  end.

Definition fr_fread (c : ctx) (size : Z) : list Z * ctx :=
  fread_loop (S (Z.to_nat size)) c size [].

(** [fflush(c->fw)] *)
Definition fw_flush (c : ctx) : bool * ctx :=
  match fw c with
  | [] => (true, c)
  | l => let '(cnt, c) := cookie_write (set_fw [] c) l in (cnt =? Z.of_nat (length l), c)
  end.

(** A write to [c->fw], passed on when the buffer is full. *)
Definition fw_write (c : ctx) (l : list Z) : bool * ctx :=
  if is_block c
  then let '(cnt, c) := cookie_write c l in (cnt =? Z.of_nat (length l), c)
  else
    let c := set_fw (fw c ++ l) c in
    if Z.of_nat (length (fw c)) <? BUFSIZ then (true, c) else fw_flush c.

(** The bytes [chainpack_pack] writes for an item reach [c->fw] as one write. *)
Definition stream_pack (c : ctx) (item : cpitem) : bool * ctx :=
  let c :=
    if (is_block c && (wbuflen (blk c) =? 0)) ||
       (negb (is_block c) && bool_decide (wmsg (ser c) = WMSG_NO))
    then
      let '(_, c) := fw_write c [1] in
      if is_block c then c else set_ser (set_wmsg WMSG_ST (ser c)) c
    else c in
  match chainpack_pack (Some (WFile [] None false)) item with
  | (Some w, cnt) => let '(ok, c) := fw_write c (wf_out w) in (ok && (0 <? cnt), c)
  | (None, _) => (false, c)
  end.

(** [while (fread_unlocked(buf, 1, BUFSIZ, c->fr) > 0) {}] *)
Definition flush_step (c : ctx) : ctx + ctx :=
  let '(l, c) := fr_fread c BUFSIZ in
  if decide (l = []) then inr c else inl c.

Definition flushmsg (c : ctx) : ctx :=
  match cloop flush_step 64 c with inr c => c | inl c => c end.

(** *** [stream_ctrl], an operation each *)

(** The part of [struct rpcclient_stream_funcs] that the operations depend on:
    [connect] gives the result, the descriptors and the new connection. *)
Record rpcclient_stream_funcs := Funcs {
  connect : option (bool * Z * Z * net);
  contrack : bool
}.

Definition stream_validmsg (c : ctx) : bool * ctx :=
  let c := flushmsg c in
  if is_block c then (true, c) else rpcclient_stream_serial_validate c.

Definition stream_ignoremsg (c : ctx) : ctx :=
  let c := flushmsg c in
  if is_block c then (rpcclient_stream_serial_validate c).2 else c.

Definition nextmsg_step (c : ctx) : ctx + rpcclient_msg_type * ctx :=
  let '(ret, c) :=
    if is_block c then rpcclient_stream_block_nextmsg (flushmsg c)
    else rpcclient_stream_serial_nextmsg c in
  match ret with
  | RPCC_MESSAGE =>
      let '(id, c) := fr_getc c in
      if decide (id = Some 1) then inr (ret, c)
      else if decide (id = Some 0) then
        let '(valid, c) := stream_validmsg c in
        if valid then inr (RPCC_RESET, c) else inl c
      else inl c
  | _ => inr (ret, c)
  end.

Definition stream_nextmsg (c : ctx) : rpcclient_msg_type * ctx :=
  match cloop nextmsg_step 64 c with inr r => r | inl c => (RPCC_ERROR, c) end.

Definition stream_sendmsg (c : ctx) : bool * ctx :=
  let '(res, c) :=
    if is_block c then rpcclient_stream_block_send c
    else rpcclient_stream_serial_send (fw_flush c).2 in
  (res, if errnum (cnet c) =? EWOULDBLOCK
        then set_net (set_errnum (if is_block c then ETIMEDOUT else EAGAIN) (cnet c)) c
        else c).

Definition stream_dropmsg (c : ctx) : bool * ctx :=
  let '(res, c) :=
    if is_block c then rpcclient_stream_block_drop c
    else rpcclient_stream_serial_drop (fw_flush c).2 in
  (res, if errnum (cnet c) =? EWOULDBLOCK
        then set_net (set_errnum EAGAIN (cnet c)) c else c).

Definition stream_reset (f : rpcclient_stream_funcs) (c : ctx) : bool * ctx :=
  let send c := stream_sendmsg (fw_write c [0]).2 in
  if rfd c <? 0 then
    let '(sendrst, c) :=
      match connect f with
      | Some (sendrst, r, w, n) => (sendrst, set_net n (set_fds r w c))
      | None => (false, c)
      end in
    if negb sendrst || (rfd c <? 0) then (0 <=? rfd c, c) else send c
  else send c.

Definition stream_disconnect (c : ctx) : bool * ctx :=
  if rfd c <? 0 then (false, c) else (true, set_fds (-1) (-1) c).

Definition stream_errno (c : ctx) : Z := if rfd c <? 0 then ENOTCONN else errnum (cnet c).

Definition rpcclient_stream_new (p : rpcstream_proto) (r w : Z) (rxs : list rxev) (txs : list txev)
    (h : list bool) : ctx :=
  Ctx p r w [] (Net 0 rxs txs []) (Block 0 [] 0 0 h false) (Serial WMSG_NO RMSG_NO 0 0).

(** The macro [rpcclient_connected]. *)
Definition rpcclient_connected (c : ctx) : bool :=
  let errnum := stream_errno c in
  (errnum =? 0) || (errnum =? EWOULDBLOCK) || (errnum =? EAGAIN).
