(* ===== verification/StreamSerial.v ===== *)
(** * Serial framing: what goes over the wire and what comes out of it

    [frame p m] is the specification of a message [m] on the wire.  The writer
    produces it however the message is cut into writes, and the reader gets [m]
    back from it however it is cut into reads, after any noise without a start mark
    and before whatever follows. *)

From S2P Require Import Prelude Stdio Crc32 Chainpack CpItem ChainpackPack Stream.

(** ** Specification *)

Definition escape1 (x : Z) : list Z := if ESCAPABLE x then [ESC; ESCX x] else [x].
Definition escape (m : list Z) : list Z := m ≫= escape1.

Definition trailer (p : rpcstream_proto) (e : list Z) : list Z :=
  if decide (p = RPCSTREAM_P_SERIAL_CRC) then escape (be_bytes 4 (crc32 e)) else [].

(** The end of a message with the checksum [x]. *)
Definition sealed (p : rpcstream_proto) (x : Z) : list Z :=
  if decide (p = RPCSTREAM_P_SERIAL_CRC) then escape (be_bytes 4 x) else [].

Definition frame (p : rpcstream_proto) (m : list Z) : list Z :=
  STX :: escape m ++ ETX :: trailer p (escape m).

(** [delivers r l r']: the trace [r] delivers the bytes [l], in pieces of any
    size and with any interruptions, and [r'] is left of it. *)
Inductive delivers : list rxev → list Z → list rxev → Prop :=
  | delivers_nil r : delivers r [] r
  | delivers_intr r b l r' : delivers r (b :: l) r' → delivers (RxIntr :: r) (b :: l) r'
  | delivers_last b r l r' : delivers r l r' → delivers (RxData [b] :: r) (b :: l) r'
  | delivers_more b b' d r l r' :
      delivers (RxData (b' :: d) :: r) l r' → delivers (RxData (b :: b' :: d) :: r) (b :: l) r'.

(** [accepting r]: the trace [r] of writes has no failure. *)
Definition accepting : list txev → Prop :=
  Forall (λ e, match e with TxIntr | TxWriteIntr | TxAccept _ => True | _ => False end).

Definition set_rx (r : list rxev) (n : net) : net := Net (errnum n) r (tx n) (wire n).

(** Reading is inside of a message of which [got] was read and [d] was not; [u]
    follows it on the wire. *)
Definition in_message (c : ctx) (got d u : list Z) (r' : list rxev) : Prop :=
  is_block c = false ∧ rmsg (ser c) = RMSG_DATA ∧
  rcrc (ser c) = crc32_update crc32_init (escape got) ∧ bytes got ∧ bytes d ∧
  delivers (rx (cnet c)) (escape d ++ u) r'.

(** The end mark was read after the message [m]. *)
Definition at_end (c : ctx) (m t : list Z) (r' : list rxev) : Prop :=
  is_block c = false ∧ rmsg (ser c) = RMSG_ETX ∧
  rcrc (ser c) = crc32_update crc32_init (escape m) ∧ bytes m ∧ delivers (rx (cnet c)) t r'.

(** The rest [d] of a message that ends well. *)
Definition receiving (c : ctx) (got d t : list Z) (r' : list rxev) : Prop :=
  in_message c got d (ETX :: t) r' ∨ (d = [] ∧ at_end c got t r').

(** The other parts of the client are left alone by a reader. *)
Definition same_writer (c c' : ctx) : Prop :=
  proto c' = proto c ∧ fw c' = fw c ∧ wmsg (ser c') = wmsg (ser c) ∧ wcrc (ser c') = wcrc (ser c) ∧
  tx (cnet c') = tx (cnet c) ∧ wire (cnet c') = wire (cnet c) ∧ blk c' = blk c.

(** ** Escaping *)

Lemma escape_app a b : escape (a ++ b) = escape a ++ escape b.
Proof. apply bind_app. Qed.

Lemma escape_cons x m : escape (x :: m) = escape1 x ++ escape m.
Proof. done. Qed.

(** Facts about single bytes, by exhaustion. *)
Lemma escape1_ok x :
  byte x →
  if ESCAPABLE x
  then ESCAPED (ESCX x) = true ∧ DESCX (ESCX x) = x ∧ byte (ESCX x) ∧ ESCAPABLE (ESCX x) = false
  else x ≠ STX ∧ x ≠ ETX ∧ x ≠ ATX ∧ x ≠ ESC.
Proof.
  intros Hx.
  pose proof (forall_below 256 (λ x, if ESCAPABLE x
    then ESCAPED (ESCX x) && (DESCX (ESCX x) =? x) && bool_decide (byte (ESCX x)) &&
         negb (ESCAPABLE (ESCX x))
    else true) eq_refl x Hx) as H. simpl in H.
  destruct (ESCAPABLE x) eqn:E.
  - apply andb_true_iff in H as [H H4]. apply andb_true_iff in H as [H H3].
    apply andb_true_iff in H as [H1 H2]. apply bool_decide_eq_true in H3.
    apply negb_true_iff in H4. by apply Z.eqb_eq in H2.
  - unfold ESCAPABLE in E. rewrite !orb_false_iff, !Z.eqb_neq in E. naive_solver.
Qed.

Lemma bytes_escape m : bytes m → bytes (escape m).
Proof.
  intros Hm. induction Hm as [|x m Hx Hm IH]; [constructor|].
  rewrite escape_cons. apply bytes_app. split; [|done].
  pose proof (escape1_ok x Hx) as H. unfold escape1. destruct (ESCAPABLE x).
  - destruct H as (_ & _ & ? & _). apply Forall_cons_2; [by apply (bool_decide_unpack _)|by apply Forall_singleton].
  - by constructor.
Qed.

(** An escaped message has none of the control bytes. *)
Lemma escape_no_control m b :
  bytes m → b ∈ escape m → b ≠ STX ∧ b ≠ ETX ∧ b ≠ ATX.
Proof.
  intros Hm Hb. apply list_elem_of_bind in Hb as (x & Hx & Hin).
  unfold bytes in Hm. rewrite Forall_forall in Hm. specialize (Hm x Hin). pose proof (escape1_ok x Hm) as H.
  unfold escape1 in Hx. destruct (ESCAPABLE x).
  - apply elem_of_cons in Hx as [->|Hx]; [done|].
    apply list_elem_of_singleton in Hx as ->. destruct H as (_ & _ & _ & H).
    unfold ESCAPABLE in H. rewrite !orb_false_iff, !Z.eqb_neq in H. naive_solver.
  - apply list_elem_of_singleton in Hx as ->. naive_solver.
Qed.

(** ** Traces *)

Lemma delivers_app r l1 l2 r' :
  delivers r (l1 ++ l2) r' ↔ ∃ r1, delivers r l1 r1 ∧ delivers r1 l2 r'.
Proof.
  split.
  - revert r. induction l1 as [|b l1 IH]; intros r H; [exists r; split; [constructor|done]|].
    simpl in H. remember (b :: l1 ++ l2) as l eqn:El. revert b l1 IH El.
    induction H as [|r b0 l r' H IHd|b0 r l r' H _|b0 b' d r l r' H _];
      intros b l1 IH El; [done| | |].
    + destruct (IHd b l1 IH El) as (r1 & ? & ?). exists r1. split; [by constructor|done].
    + simplify_eq. destruct (IH r H) as (r1 & ? & ?). exists r1. split; [by constructor|done].
    + simplify_eq. destruct (IH _ H) as (r1 & ? & ?). exists r1. split; [by constructor|done].
  - intros (r1 & H & H2). induction H; simpl in *; [done|by constructor; eauto..].
Qed.

Lemma delivers_data l r : l ≠ [] → delivers (RxData l :: r) l r.
Proof.
  induction l as [|b [|b' l] IH]; [done| |]; intros _; repeat constructor.
  by apply IH.
Qed.

(** A byte of the trace is what [xreadc] returns. *)
Lemma xreadc_delivers n b l r' :
  delivers (rx n) (b :: l) r' → ∃ r1, xreadc n = (b, set_rx r1 n) ∧ delivers r1 l r'.
Proof.
  destruct n as [err r t w]; simpl. remember (b :: l) as k eqn:Ek. intros H. revert b l Ek.
  induction H as [|r b0 k r' H IH|b0 r k r' H _|b0 b' d r k r' H _]; intros b l Ek; simplify_eq.
  - destruct (IH b l eq_refl) as (r1 & E & ?). exists r1. split; [|done].
    unfold xreadc, xread, set_rx in *. simpl in *. exact E.
  - exists r. split; [done|done].
  - exists (RxData (b' :: d) :: r). split; [|done]. unfold xreadc, xread, set_rx. simpl.
    rewrite Z.min_l by lia. done.
Qed.

Lemma set_rx_rx n r : rx (set_rx r n) = r.
Proof. done. Qed.

Lemma set_rx_twice n r r1 : set_rx r (set_rx r1 n) = set_rx r n.
Proof. done. Qed.

(** ** Reading *)

Lemma crc32_update_range c l : urange 32 c → bytes l → urange 32 (crc32_update c l).
Proof. intros Hc Hl. by apply crc32_update_foldl. Qed.

#[export] Hint Resolve crc32_update_range bytes_escape crc32_init_range : shv.

Lemma cupdate_app c b l :
  urange 32 c → byte b → bytes l →
  crc32_update (crc32_cupdate c b) l = crc32_update c (b :: l).
Proof.
  intros Hc Hb Hl. unfold crc32_cupdate. rewrite <-crc32_update_app; [done|done| |done].
  by apply Forall_singleton.
Qed.

Lemma cupdate_range c b : urange 32 c → byte b → urange 32 (crc32_cupdate c b).
Proof. intros. apply crc32_update_range; [done|by apply Forall_singleton]. Qed.

Lemma byte_ESC : byte ESC.
Proof. by apply (bool_decide_unpack _). Qed.

Lemma bytes_cons b l : byte b → bytes l → bytes (b :: l).
Proof. by constructor. Qed.

#[export] Hint Resolve cupdate_range byte_ESC : shv.

Lemma crc32_update_nil c : urange 32 c → crc32_update c [] = c.
Proof. intros. unfold crc32_update. simpl. by apply land_mask32. Qed.

Lemma set_rcrc_same s : set_rcrc (rcrc s) s = s.
Proof. by destruct s. Qed.

(** The bytes of an escaped message are read back, whatever follows them. *)
Lemma read_serial_escape m k l r' : ∀ n s buf,
  bytes m → urange 32 (rcrc s) → delivers (rx n) (escape m ++ l) r' →
  ∃ r1, read_serial (length m + k) n s buf =
          read_serial k (set_rx r1 n) (set_rcrc (crc32_update (rcrc s) (escape m)) s) (buf ++ m) ∧
        delivers r1 l r'.
Proof.
  induction m as [|x m IH]; intros n s buf Hm Hc Hd.
  { exists (rx n). simpl. rewrite app_nil_r, crc32_update_nil, set_rcrc_same by done.
    split; [by destruct n|done]. }
  apply Forall_cons in Hm as [Hx Hm]. rewrite escape_cons in *. pose proof (escape1_ok x Hx) as H1.
  simpl length. cbn [Nat.add read_serial]. unfold escape1 in *. destruct (ESCAPABLE x) eqn:E.
  - destruct H1 as (He & Hde & Hb & Hne). simpl in Hd.
    apply xreadc_delivers in Hd as (r1 & -> & Hd).
    cbn -[crc32_cupdate read_serial set_rx ESCX].
    apply (xreadc_delivers (set_rx r1 n)) in Hd as (r2 & -> & Hd). rewrite He, Hde.
    destruct (IH (set_rx r2 (set_rx r1 n))
      (set_rcrc (crc32_cupdate (crc32_cupdate (rcrc s) ESC) (ESCX x)) s) (buf ++ [x]))
      as (r3 & Hr & Hd3); [done| |done|].
    { simpl. auto with shv. }
    exists r3. split; [|done]. etransitivity; [exact Hr|]. cbn [rcrc set_rcrc].
    rewrite !cupdate_app, <-app_assoc, !set_rx_twice by eauto using bytes_cons with shv. done.
  - destruct H1 as (H1 & H2 & H3 & H4). simpl in Hd.
    apply xreadc_delivers in Hd as (r1 & -> & Hd).
    rewrite !(proj2 (Z.eqb_neq _ _)), (proj2 (Z.ltb_ge _ _)) by (done || apply Hx).
    destruct (IH (set_rx r1 n) (set_rcrc (crc32_cupdate (rcrc s) x) s) (buf ++ [x]))
      as (r2 & Hr & Hd2); [done|by apply cupdate_range|done|].
    exists r2. split; [|done]. etransitivity; [exact Hr|]. cbn [rcrc set_rcrc].
    rewrite cupdate_app, <-app_assoc, set_rx_twice by auto with shv. done.
Qed.

Lemma escape_crc got m :
  bytes got → bytes m →
  crc32_update (crc32_update crc32_init (escape got)) (escape m) =
  crc32_update crc32_init (escape (got ++ m)).
Proof. intros Hg Hm. rewrite escape_app, crc32_update_app by auto with shv. done. Qed.

Lemma same_writer_refl c : same_writer c c.
Proof. done. Qed.

Lemma same_writer_trans c1 c2 c3 : same_writer c1 c2 → same_writer c2 c3 → same_writer c1 c3.
Proof. unfold same_writer. intuition congruence. Qed.

Lemma same_writer_read c r s :
  wmsg s = wmsg (ser c) → wcrc s = wcrc (ser c) →
  same_writer c (set_ser s (set_net (set_rx r (cnet c)) c)).
Proof. done. Qed.

#[export] Hint Resolve same_writer_refl same_writer_trans : shv.

Lemma cookie_read_part c got d u r' size :
  in_message c got d u r' → 0 < size ≤ Z.of_nat (length d) →
  ∃ c', cookie_read c size = (size, take (Z.to_nat size) d, c') ∧ same_writer c c' ∧
    in_message c' (got ++ take (Z.to_nat size) d) (drop (Z.to_nat size) d) u r'.
Proof.
  intros (Hb & Hr & Hc & Hg & Hd & Hrx) Hsz. unfold cookie_read. rewrite Hb.
  unfold cookie_read_serial. rewrite bool_decide_eq_true_2 by done. cbn [negb].
  set (a := take (Z.to_nat size) d). set (z := drop (Z.to_nat size) d).
  assert (d = a ++ z) as Hz by (unfold a, z; by rewrite take_drop).
  assert (Z.to_nat size = (length a + 0)%nat) as Hn.
  { unfold a. rewrite length_take. lia. }
  rewrite Hz in Hd, Hrx. apply bytes_app in Hd as [Ha Hd].
  rewrite escape_app, <-app_assoc in Hrx.
  destruct (read_serial_escape a 0 (escape z ++ u) r' (cnet c) (ser c) []) as (r1 & E & Hrx1);
    [done|rewrite Hc; auto with shv|done|].
  rewrite Hn, E. cbn [read_serial app]. replace (Z.of_nat (length a)) with size by lia.
  eexists. split; [done|split; [by apply same_writer_read|]].
  repeat split; [done|done| |by apply bytes_app|done|done].
  cbn [ser set_ser rcrc set_rcrc]. by rewrite Hc, escape_crc.
Qed.

Lemma cookie_read_last c got d t r' size :
  in_message c got d (ETX :: t) r' → Z.of_nat (length d) < size →
  ∃ c', cookie_read c size = (Z.of_nat (length d), d, c') ∧ same_writer c c' ∧
    at_end c' (got ++ d) t r'.
Proof.
  intros (Hb & Hr & Hc & Hg & Hd & Hrx) Hsz. unfold cookie_read. rewrite Hb.
  unfold cookie_read_serial. rewrite bool_decide_eq_true_2 by done. cbn [negb].
  assert (∃ k, Z.to_nat size = (length d + S k)%nat) as [k Hn].
  { exists (Z.to_nat size - length d - 1)%nat. lia. }
  destruct (read_serial_escape d (S k) (ETX :: t) r' (cnet c) (ser c) []) as (r1 & E & Hrx1);
    [done|rewrite Hc; auto with shv|done|].
  rewrite Hn, E. cbn [read_serial app].
  apply (xreadc_delivers (set_rx r1 (cnet c))) in Hrx1 as (r2 & -> & Hrx2).
  change (ETX =? STX) with false. change (ETX =? ETX) with true. cbv iota.
  eexists. split; [done|split; [by apply same_writer_read|]].
  repeat split; [done| |by apply bytes_app|done].
  cbn [ser set_ser rcrc set_rcrc set_rmsg]. by rewrite Hc, escape_crc.
Qed.

Lemma cookie_read_end c m t r' size :
  at_end c m t r' → ∃ res, cookie_read c size = (res, [], c) ∧ res ≤ 0.
Proof.
  intros (Hb & Hr & _). unfold cookie_read. rewrite Hb. unfold cookie_read_serial. rewrite Hr.
  cbn. eexists. split; [done|]. destruct (errnum (cnet c) =? 0); lia.
Qed.

(** The first and the second round of [fread]. *)
Lemma fr_fread_first c size :
  0 < size →
  fr_fread c size =
    let '(res, l, c') := cookie_read c size in
    if 0 <? res then fread_loop (Z.to_nat size) c' size l else ([], c').
Proof.
  intros Hsz. unfold fr_fread. cbn [fread_loop]. change (Z.of_nat (length [])) with 0.
  rewrite (proj2 (Z.leb_gt size 0)), Z.sub_0_r by lia. by destruct (cookie_read c size) as [[res l] c'].
Qed.

Lemma fread_loop_full fuel c size buf :
  size ≤ Z.of_nat (length buf) → fread_loop fuel c size buf = (buf, c).
Proof. intros H. destruct fuel; [done|]. cbn [fread_loop]. by rewrite (proj2 (Z.leb_le _ _)). Qed.

Lemma fread_loop_end fuel c m t r' size buf :
  at_end c m t r' → fread_loop fuel c size buf = (buf, c).
Proof.
  intros H. destruct fuel; [done|]. cbn [fread_loop]. destruct (size <=? _); [done|].
  destruct (cookie_read_end c m t r' (size - Z.of_nat (length buf)) H) as (res & -> & Hres).
  by rewrite (proj2 (Z.ltb_ge _ _)).
Qed.

(** The stream of a client behaves as the rest of the message in memory. *)
Lemma fr_fread_receiving c got d t r' size :
  receiving c got d t r' → 0 < size →
  ∃ c', fr_fread c size = (take (Z.to_nat size) d, c') ∧ same_writer c c' ∧
    receiving c' (got ++ take (Z.to_nat size) d) (drop (Z.to_nat size) d) t r' ∧
    (Z.of_nat (length d) < size → at_end c' (got ++ d) t r').
Proof.
  intros H Hsz. destruct H as [H|[-> H]].
  - destruct (decide (size ≤ Z.of_nat (length d))) as [Hle|Hgt].
    + destruct (cookie_read_part _ _ _ _ _ size H) as (c' & E & Hs & H'); [lia|].
      exists c'. split; [|split; [done|split; [by left|lia]]].
      rewrite fr_fread_first, E by done. rewrite (proj2 (Z.ltb_lt 0 size)) by lia.
      by rewrite fread_loop_full by (rewrite length_take; lia).
    + destruct (cookie_read_last _ _ _ _ _ size H) as (c' & E & Hs & H'); [lia|].
      rewrite (take_ge d), (drop_ge d) by lia.
      exists c'. split; [|split; [done|split; [by right|done]]].
      rewrite fr_fread_first, E by done. destruct (Z.ltb_spec 0 (Z.of_nat (length d))).
      * by rewrite (fread_loop_end _ _ _ _ _ _ _ H').
      * destruct d; [done|simpl in *; lia].
  - unfold fr_fread. rewrite (fread_loop_end _ _ _ _ _ _ _ H), take_nil, drop_nil, app_nil_r.
    exists c. split; [done|split; [done|split; [by right|done]]].
Qed.

Lemma fr_getc_receiving c got x d t r' :
  receiving c got (x :: d) t r' →
  ∃ c', fr_getc c = (Some x, c') ∧ same_writer c c' ∧ receiving c' (got ++ [x]) d t r'.
Proof.
  intros [H|[[=] _]].
  destruct (cookie_read_part _ _ _ _ _ 1 H) as (c' & E & Hs & H'); [simpl; lia|].
  exists c'. unfold fr_getc. rewrite E. split; [done|]. split; [done|by left].
Qed.

(** ** Reading to the end and validation *)

Lemma flushmsg_receiving c got d t r' :
  receiving c got d t r' → Z.of_nat (length d) < 2 ^ 63 →
  ∃ c', flushmsg c = c' ∧ same_writer c c' ∧ at_end c' (got ++ d) t r'.
Proof.
  intros H Hlen.
  assert (∃ k c', (k ≤ length d + 2)%nat ∧ steps flush_step k c (inr c') ∧ same_writer c c' ∧
            at_end c' (got ++ d) t r') as (k & c' & Hk & Hs & Hw & He).
  { clear Hlen. remember (length d) as m eqn:Em. revert c got d H Em.
    induction m as [m IH] using lt_wf_ind. intros c got d H ->.
    destruct (fr_fread_receiving _ _ _ _ _ BUFSIZ H) as (c1 & E & Hw & H1 & Hend); [done|].
    destruct (decide (take (Z.to_nat BUFSIZ) d = [])) as [Hn|Hn].
    - assert (d = []) as ->. { apply (f_equal length) in Hn. rewrite length_take in Hn.
        apply length_zero_iff_nil. unfold BUFSIZ in Hn. simpl length in Hn. lia. }
      exists 1%nat, c1. split; [simpl; lia|]. split; [|split; [done|by apply Hend]].
      constructor. unfold flush_step. rewrite E. done.
    - edestruct (IH (length (drop (Z.to_nat BUFSIZ) d))) as (k & c' & Hk & Hs & Hw' & He);
        [|exact H1|done|].
      { rewrite length_drop. destruct d; [done|]. simpl length. unfold BUFSIZ. lia. }
      exists (S k), c'. split; [rewrite length_drop in Hk; destruct d; [done|]; simpl length in *; unfold BUFSIZ in Hk; lia|].
      split; [econstructor; [|done]; unfold flush_step; rewrite E; by rewrite decide_False|].
      split; [eauto with shv|]. by rewrite <-app_assoc, take_drop in He. }
  exists c'. split; [|done]. unfold flushmsg. rewrite (cloop_run _ 64 k c c'); [done|done|].
  change (Z.of_nat 64) with 64. lia.
Qed.

Lemma push_u32 a b : byte b → u32 (Z.lor (Z.shiftl (u32 a) 8) b) = u32 (be_push a b).
Proof.
  intros Hb. rewrite lor_shiftl_add by (done || lia). unfold uwrap, be_push.
  by rewrite <-Zplus_mod_idemp_l, Z.mul_mod_idemp_l, Zplus_mod_idemp_l by lia.
Qed.

Lemma read_crc_escape l t r' : ∀ n a,
  bytes l → delivers (rx n) (escape l ++ t) r' →
  ∃ r1, read_crc (length l) n (u32 a) = (Some (u32 (foldl be_push a l)), set_rx r1 n) ∧
    delivers r1 t r'.
Proof.
  induction l as [|x l IH]; intros n a Hl Hd.
  { exists (rx n). split; [by destruct n|done]. }
  apply Forall_cons in Hl as [Hx Hl]. rewrite escape_cons in Hd. pose proof (escape1_ok x Hx) as H1.
  simpl length. cbn [read_crc foldl]. unfold escape1 in *. destruct (ESCAPABLE x).
  - destruct H1 as (He & Hde & Hb & Hne). simpl in Hd.
    apply xreadc_delivers in Hd as (r1 & -> & Hd).
    change (ESC <? 0) with false. change (ESC =? ESC) with true. cbv iota.
    apply (xreadc_delivers (set_rx r1 n)) in Hd as (r2 & -> & Hd). rewrite He, Hde. cbn [negb].
    rewrite land_byte, push_u32 by done. by apply (IH (set_rx r2 (set_rx r1 n))).
  - destruct H1 as (H1 & H2 & H3 & H4). simpl in Hd.
    apply xreadc_delivers in Hd as (r1 & -> & Hd).
    rewrite (proj2 (Z.ltb_ge _ _)), (proj2 (Z.eqb_neq _ _)) by (done || apply Hx).
    rewrite land_byte, push_u32 by done. by apply (IH (set_rx r1 n)).
Qed.

Lemma crc32_range l : bytes l → urange 32 (crc32 l).
Proof. intros Hl. unfold crc32, crc32_finalize. by apply uwrap_range. Qed.

(** The checksum validates the message if and only if it is the one of the message. *)
Lemma validate_sealed c m x rest r' :
  urange 32 x → at_end c m (sealed (proto c) x ++ rest) r' →
  ∃ c', rpcclient_stream_serial_validate c =
          (if decide (proto c = RPCSTREAM_P_SERIAL_CRC) then x =? crc32 (escape m) else true,
           c') ∧ same_writer c c' ∧ rmsg (ser c') = RMSG_ETX ∧ is_block c' = false ∧
        delivers (rx (cnet c')) rest r'.
Proof.
  intros Hx (Hb & Hr & Hc & Hm & Hd). unfold rpcclient_stream_serial_validate, sealed in *.
  rewrite Hr. cbn [bool_decide negb]. rewrite bool_decide_eq_true_2 by done. cbn [negb].
  destruct (decide (proto c = RPCSTREAM_P_SERIAL_CRC)) as [E|E].
  - rewrite bool_decide_eq_true_2 by done. cbn [negb].
    apply (read_crc_escape _ _ _ (cnet c) 0) in Hd as (r1 & Ecrc & Hd); [|apply bytes_be_bytes].
    rewrite length_be_bytes in Ecrc. change (u32 0) with 0 in Ecrc. rewrite Ecrc.
    rewrite be_value_bytes by apply Hx. cbn [Z.mul Z.add].
    change (256 ^ Z.of_nat 4) with (2 ^ 32). rewrite (Z.mod_small x) by apply Hx.
    rewrite uwrap_small by apply Hx.
    eexists. split; [unfold crc32; by rewrite Hc|]. done.
  - rewrite bool_decide_eq_false_2 by done. cbn [negb]. by exists c.
Qed.

Lemma stream_validmsg_receiving c got d x rest r' :
  receiving c got d (sealed (proto c) x ++ rest) r' → urange 32 x → Z.of_nat (length d) < 2 ^ 63 →
  ∃ c', stream_validmsg c =
          (if decide (proto c = RPCSTREAM_P_SERIAL_CRC) then x =? crc32 (escape (got ++ d))
           else true, c') ∧ same_writer c c' ∧ rmsg (ser c') = RMSG_ETX ∧ is_block c' = false ∧
        delivers (rx (cnet c')) rest r'.
Proof.
  intros H Hx Hlen.
  destruct (flushmsg_receiving _ _ _ _ _ H Hlen) as (c1 & E & Hw & H1).
  unfold stream_validmsg. rewrite E, (proj1 H1). pose proof Hw as (Hp & _).
  rewrite <-Hp in H1 |- *.
  destruct (validate_sealed _ _ _ _ _ Hx H1) as (c2 & -> & Hw2 & H2).
  exists c2. split; [done|]. split; [eauto with shv|done].
Qed.

Lemma stream_validmsg_valid c got d rest r' :
  receiving c got d (trailer (proto c) (escape (got ++ d)) ++ rest) r' →
  bytes (got ++ d) → Z.of_nat (length d) < 2 ^ 63 →
  ∃ c', stream_validmsg c = (true, c') ∧ same_writer c c' ∧ rmsg (ser c') = RMSG_ETX ∧
        is_block c' = false ∧ delivers (rx (cnet c')) rest r'.
Proof.
  intros H Hb Hlen.
  destruct (stream_validmsg_receiving _ _ _ _ _ _ H (crc32_range _ (bytes_escape _ Hb)) Hlen) as (c' & E & H').
  exists c'. split; [|done]. rewrite E. by destruct (decide _); rewrite ?Z.eqb_refl.
Qed.

(** ** The next message *)

(** What the reader sees next is the start mark, after noise, and then [l]. *)
Definition awaiting (c : ctx) (l : list Z) (r' : list rxev) : Prop :=
  is_block c = false ∧
  ((rmsg (ser c) = RMSG_STX ∧ delivers (rx (cnet c)) l r') ∨
   (rmsg (ser c) ≠ RMSG_STX ∧ ∃ g, bytes g ∧ STX ∉ g ∧ Z.of_nat (length g) < 2 ^ 63 ∧
      delivers (rx (cnet c)) (g ++ STX :: l) r')).

Lemma seek_stx_delivers n g l r' :
  bytes g → STX ∉ g → Z.of_nat (length g) < 2 ^ 63 → delivers (rx n) (g ++ STX :: l) r' →
  ∃ r1, seek_stx n = (STX, set_rx r1 n) ∧ delivers r1 l r'.
Proof.
  intros Hg Hn Hlen Hd.
  assert (∃ r1, steps seek_step (S (length g)) n (inr (STX, set_rx r1 n)) ∧ delivers r1 l r')
    as (r1 & Hs & Hd1).
  { clear Hlen. revert n Hd. induction Hg as [|x g Hx Hg IH]; intros n Hd.
    - apply xreadc_delivers in Hd as (r1 & E & Hd). exists r1. split; [|done].
      constructor. unfold seek_step. by rewrite E.
    - apply not_elem_of_cons in Hn as [Hne Hn].
      apply xreadc_delivers in Hd as (r1 & E & Hd).
      destruct (IH Hn (set_rx r1 n) Hd) as (r2 & Hs & Hd2). exists r2. split; [|done].
      apply (steps_next _ _ _ (set_rx r1 n)); [|done]. unfold seek_step. rewrite E.
      rewrite (proj2 (Z.leb_le _ _)) by apply Hx. by rewrite (proj2 (Z.eqb_neq _ _)). }
  exists r1. split; [|done]. unfold seek_stx. rewrite (cloop_run _ 64 _ _ _ Hs); [done|].
  change (Z.of_nat 64) with 64. lia.
Qed.

Lemma serial_nextmsg_awaiting c d u r' :
  awaiting c (escape d ++ u) r' → bytes d →
  ∃ c', rpcclient_stream_serial_nextmsg c = (RPCC_MESSAGE, c') ∧ same_writer c c' ∧
    in_message c' [] d u r'.
Proof.
  intros [Hb H] Hd. unfold rpcclient_stream_serial_nextmsg.
  destruct H as [[Hr H]|(Hr & g & Hg & Hn & Hlen & H)].
  - rewrite decide_True by done. eexists. split; [done|]. split; [done|].
    repeat split; [done|constructor|done|done].
  - rewrite decide_False by done. cbn [cnet set_ser].
    destruct (seek_stx_delivers _ _ _ _ Hg Hn Hlen H) as (r1 & -> & Hd1).
    change (STX =? STX) with true. cbv iota. eexists. split; [done|]. split; [done|].
    repeat split; [done|constructor|done|done].
Qed.

Lemma stream_nextmsg_now c r : nextmsg_step c = inr r → stream_nextmsg c = r.
Proof.
  intros H. unfold stream_nextmsg. rewrite (cloop_run _ 64 1 _ r); [done| |done]. by constructor.
Qed.

Lemma nextmsg_message c m t r' :
  awaiting c (escape (1 :: m) ++ ETX :: t) r' → bytes m →
  ∃ c', nextmsg_step c = inr (RPCC_MESSAGE, c') ∧ same_writer c c' ∧ receiving c' [1] m t r'.
Proof.
  intros H Hm. assert (bytes (1 :: m)) as Hm1 by (apply bytes_cons; [done|done]).
  destruct (serial_nextmsg_awaiting _ _ _ _ H Hm1) as (c1 & E & Hw & H1).
  destruct (fr_getc_receiving c1 [] 1 m t r') as (c2 & E2 & Hw2 & H2); [by left|].
  exists c2. unfold nextmsg_step. rewrite (proj1 H), E, E2. eauto with shv.
Qed.

Lemma nextmsg_reset c t r' :
  awaiting c (escape [0] ++ ETX :: trailer (proto c) (escape [0]) ++ t) r' →
  ∃ c', nextmsg_step c = inr (RPCC_RESET, c') ∧ same_writer c c' ∧
    rmsg (ser c') = RMSG_ETX ∧ delivers (rx (cnet c')) t r'.
Proof.
  intros H. assert (bytes [0]) as Hm by (apply bytes_cons; [done|constructor]).
  destruct (serial_nextmsg_awaiting _ _ _ _ H Hm) as (c1 & E & Hw & H1).
  destruct (fr_getc_receiving c1 [] 0 [] (trailer (proto c) (escape [0]) ++ t) r')
    as (c2 & E2 & Hw2 & H2); [by left|].
  assert (same_writer c c2) as Hw3 by eauto with shv. pose proof Hw3 as [Hp _]. rewrite <-Hp in H2.
  destruct (stream_validmsg_valid c2 ([] ++ [0]) [] t r') as (c3 & E3 & Hw4 & H3 & _ & H4);
    [done..|].
  exists c3. unfold nextmsg_step. rewrite (proj1 H), E, E2.
  rewrite (decide_False (P := Some 0 = Some 1)), decide_True, E3 by done.
  split; [done|]. split; [eauto with shv|done].
Qed.

(** ** Interrupted messages *)

(** Reading ran into a start mark or an abort mark. *)
Definition interrupted (c : ctx) (b : Z) (t : list Z) (r' : list rxev) : Prop :=
  is_block c = false ∧ rmsg (ser c) = (if b =? STX then RMSG_STX else RMSG_NO) ∧
  delivers (rx (cnet c)) t r'.

Lemma cookie_read_abort c got d b t r' size :
  b = STX ∨ b = ATX → in_message c got d (b :: t) r' → Z.of_nat (length d) < size →
  ∃ c', cookie_read c size = (-1, d, c') ∧ same_writer c c' ∧ interrupted c' b t r'.
Proof.
  intros Hb0 (Hb & Hr & Hc & Hg & Hd & Hrx) Hsz. unfold cookie_read. rewrite Hb.
  unfold cookie_read_serial. rewrite bool_decide_eq_true_2 by done. cbn [negb].
  assert (∃ k, Z.to_nat size = (length d + S k)%nat) as [k Hn].
  { exists (Z.to_nat size - length d - 1)%nat. lia. }
  destruct (read_serial_escape d (S k) (b :: t) r' (cnet c) (ser c) []) as (r1 & E & Hrx1);
    [done|rewrite Hc; auto with shv|done|].
  rewrite Hn, E. cbn [read_serial app].
  apply (xreadc_delivers (set_rx r1 (cnet c))) in Hrx1 as (r2 & -> & Hrx2).
  destruct Hb0 as [-> | ->]; (eexists; split; [done|split; [by apply same_writer_read|done]]).
Qed.

Lemma flushmsg_abort c got d b t r' :
  b = STX ∨ b = ATX → in_message c got d (b :: t) r' → Z.of_nat (length d) < 2 ^ 63 →
  ∃ c', flushmsg c = c' ∧ same_writer c c' ∧ interrupted c' b t r'.
Proof.
  intros Hb H Hlen.
  assert (∃ k c', (k ≤ length d + 1)%nat ∧ steps flush_step k c (inr c') ∧ same_writer c c' ∧
            interrupted c' b t r') as (k & c' & Hk & Hs & Hw & He).
  { clear Hlen. remember (length d) as m eqn:Em. revert c got d H Em.
    induction m as [m IH] using lt_wf_ind. intros c got d H ->.
    destruct (decide (BUFSIZ ≤ Z.of_nat (length d))) as [Hle|Hgt].
    - destruct (cookie_read_part _ _ _ _ _ BUFSIZ H) as (c1 & E & Hw & H1); [by split|].
      edestruct (IH (length (drop (Z.to_nat BUFSIZ) d))) as (k & c' & Hk & Hs & Hw' & He);
        [|exact H1|done|].
      { rewrite length_drop. unfold BUFSIZ in *. lia. }
      rewrite length_drop in Hk. exists (S k), c'. split; [unfold BUFSIZ in *; lia|].
      split; [|split; [eauto with shv|done]]. apply (steps_next _ _ _ c1); [|done].
      unfold flush_step. rewrite fr_fread_first, E by done. change (0 <? BUFSIZ) with true. cbv iota.
      rewrite fread_loop_full by (rewrite length_take; lia). rewrite decide_False; [done|].
      intros E0. apply (f_equal length) in E0. rewrite length_take in E0.
      unfold BUFSIZ in *. simpl length in E0. lia.
    - destruct (cookie_read_abort _ _ _ _ _ _ BUFSIZ Hb H) as (c1 & E & Hw & H1); [lia|].
      exists 1%nat, c1. split; [lia|]. split; [|done]. constructor.
      unfold flush_step. by rewrite fr_fread_first, E by done. }
  exists c'. split; [|done]. unfold flushmsg. rewrite (cloop_run _ 64 k c c'); [done|done|].
  change (Z.of_nat 64) with 64. lia.
Qed.

Lemma validate_interrupted c b t r' :
  interrupted c b t r' → rpcclient_stream_serial_validate c = (false, c).
Proof.
  intros (_ & Hr & _). unfold rpcclient_stream_serial_validate. rewrite Hr. by destruct (b =? STX).
Qed.

(** ** Writing *)

Lemma xwrite_accepting n data :
  errnum n = 0 → accepting (tx n) →
  ∃ t, xwrite n data = (true, Net 0 (rx n) t (wire n ++ data)) ∧ accepting t.
Proof.
  intros He Ha. unfold xwrite. rewrite He. cbn [Z.eqb negb andb].
  assert (∀ t, accepting t → ∀ data,
    ∃ t', xwrite_tx t data 0 = (true, 0, t', data) ∧ accepting t') as Hx.
  { clear. intros t Ht. induction Ht as [|e t He Ht IH]; intros data.
    - exists []. split; [by destruct data|constructor].
    - destruct data as [|b data]; [exists (e :: t); split; [done|by constructor]|].
      destruct e as [| | | | |k|]; try done; cbn [xwrite_tx].
      + apply IH.
      + apply IH.
      + destruct (IH (drop k (b :: data))) as (t' & -> & ?). exists t'. split; [|done].
        by rewrite take_drop. }
  destruct (Hx _ Ha data) as (t & -> & Ht). by exists t.
Qed.

(** What is left to write when [data] is not consumed yet; [esc] tells that the
    escape byte of the first one is already out. *)
Definition pend (esc : bool) (data : list Z) : list Z :=
  match data with
  | x :: d => if esc then ESCX x :: escape d else escape data
  | [] => []
  end.

Definition esc_ok (esc : bool) (data : list Z) : Prop :=
  esc = true → match data with x :: _ => ESCAPABLE x = true | [] => False end.

Lemma bytes_pend esc data : bytes data → esc_ok esc data → bytes (pend esc data).
Proof.
  intros Hd He. destruct data as [|x data]; [constructor|].
  pose proof Hd as [Hx Hd']%Forall_cons. unfold pend. destruct esc; [|by apply bytes_escape].
  pose proof (escape1_ok x Hx) as H. rewrite He in H by done.
  apply bytes_cons; [apply H|by apply bytes_escape].
Qed.

Lemma fill_data room : ∀ s esc data,
  wmsg s = WMSG_DATA → bytes data → esc_ok esc data → urange 32 (wcrc s) →
  ∃ buf s' esc' rest, fill room s esc data = (buf, s', esc', rest) ∧
    pend esc data = buf ++ pend esc' rest ∧ bytes buf ∧ bytes rest ∧ esc_ok esc' rest ∧
    wcrc s' = crc32_update (wcrc s) buf ∧ wmsg s' = WMSG_DATA ∧ rmsg s' = rmsg s ∧
    rcrc s' = rcrc s ∧ (room ≠ 0%nat → data ≠ [] → buf ≠ []).
Proof.
  induction room as [|room IH]; intros s esc data Hs Hd He Hc.
  { exists [], s, esc, data. simpl. rewrite crc32_update_nil by done. repeat split; done || constructor. }
  destruct data as [|x data].
  { exists [], s, esc, []. simpl. rewrite crc32_update_nil by done. repeat split; done || constructor. }
  cbn [fill]. rewrite decide_True by done.
  pose proof Hd as [Hx Hd']%Forall_cons. pose proof (escape1_ok x Hx) as H1.
  set (o := if esc then (ESCX x, false, data)
            else if ESCAPABLE x then (ESC, true, x :: data) else (x, false, data)).
  assert (∃ b e r, o = (b, e, r) ∧ pend esc (x :: data) = b :: pend e r ∧ byte b ∧ bytes r ∧
            esc_ok e r) as (b & e & r & -> & Hp & Hb & Hr & He').
  { unfold o, pend, esc_ok in *. rewrite escape_cons. unfold escape1. destruct esc.
    - rewrite He in H1 by done. exists (ESCX x), false, data. repeat split; [|apply H1..|done|done].
      by destruct data.
    - destruct (ESCAPABLE x) eqn:E.
      + exists ESC, true, (x :: data). by repeat split.
      + exists x, false, data. repeat split; [|apply Hx..|done|done]. by destruct data. }
  destruct (IH (set_wcrc (crc32_cupdate (wcrc s) b) s) e r) as
    (buf & s' & esc' & rest & -> & Hp' & Hbuf & Hrest & He'' & Hc' & Hw & Hrm & Hrc & _);
    [done|done|done|by apply cupdate_range|].
  exists (b :: buf), s', esc', rest. split; [done|]. rewrite Hp, Hp', Hc'. cbn [wcrc set_wcrc].
  rewrite cupdate_app by done. repeat split; try done. by apply bytes_cons.
Qed.

(** The writer of a healthy connection put [m] on the wire since [w0]. *)
Definition sent (n : net) (s : serial) (w0 m : list Z) : Prop :=
  errnum n = 0 ∧ accepting (tx n) ∧ bytes m ∧
  if decide (m = []) then wmsg s ≠ WMSG_DATA ∧ wire n = w0
  else wmsg s = WMSG_DATA ∧ wire n = w0 ++ STX :: escape m ∧
       wcrc s = crc32_update crc32_init (escape m).

Definition same_reader (n : net) (s : serial) (n' : net) (s' : serial) : Prop :=
  rx n' = rx n ∧ rmsg s' = rmsg s ∧ rcrc s' = rcrc s.

Lemma write_loop_data m : ∀ n s esc data,
  length (pend esc data) = m →
  errnum n = 0 → accepting (tx n) → wmsg s = WMSG_DATA → bytes data → esc_ok esc data →
  urange 32 (wcrc s) →
  ∃ k n' s', (k ≤ m + 1)%nat ∧ steps write_serial_step k (n, s, esc, data) (inr (n', s', [])) ∧
    errnum n' = 0 ∧ accepting (tx n') ∧ wire n' = wire n ++ pend esc data ∧
    wmsg s' = WMSG_DATA ∧ wcrc s' = crc32_update (wcrc s) (pend esc data) ∧
    same_reader n s n' s'.
Proof.
  induction m as [m IH] using lt_wf_ind. intros n s esc data Hm He Ha Hs Hd Hesc Hc.
  destruct data as [|x data].
  { exists 1%nat, n, s. split; [lia|]. split; [by constructor|].
    simpl. rewrite app_nil_r, crc32_update_nil by done. done. }
  destruct (fill_data (Z.to_nat BUFSIZ) s esc (x :: data)) as
    (buf & s' & esc' & rest & E & Hp & Hbuf & Hrest & He' & Hc' & Hw & Hrm & Hrc & Hne); [done..|].
  destruct (xwrite_accepting n buf He Ha) as (t & Ex & Ht).
  assert (buf ≠ []) as Hbne by (apply Hne; [unfold BUFSIZ; lia|done]).
  destruct (IH (length (pend esc' rest))) with (n := Net 0 (rx n) t (wire n ++ buf)) (s := s')
    (esc := esc') (data := rest) as (k & n' & s'' & Hk & Hst & ? & ? & Hwi & ? & Hcr & Hsr);
    [|done|done|done|done|done|done| |].
  { rewrite <-Hm, Hp, length_app. destruct buf; [done|]. simpl. lia. }
  { rewrite Hc'. auto with shv. }
  pose proof (bytes_pend _ _ Hrest He') as Hbp.
  exists (S k), n', s''. split.
  { rewrite Hp, length_app in Hm. destruct buf; [done|]. simpl in Hm. lia. }
  split; [|split; [done|split; [done|]]].
  - eapply steps_next; [|exact Hst]. unfold write_serial_step. by rewrite E, Ex.
  - rewrite Hwi, Hp, Hcr, Hc', <-crc32_update_app by done. cbn [wire]. rewrite <-app_assoc.
    split; [done|]. split; [done|]. split; [done|]. destruct Hsr as (? & ? & ?).
    repeat split; [done|congruence..].
Qed.

(** The same from a writer that has to open the frame. *)
Lemma write_loop_start n s data :
  data ≠ [] → errnum n = 0 → accepting (tx n) → wmsg s ≠ WMSG_DATA → bytes data →
  ∃ k n' s', (k ≤ length (escape data) + 2)%nat ∧
    steps write_serial_step k (n, s, false, data) (inr (n', s', [])) ∧
    errnum n' = 0 ∧ accepting (tx n') ∧ wire n' = wire n ++ STX :: escape data ∧
    wmsg s' = WMSG_DATA ∧ wcrc s' = crc32_update crc32_init (escape data) ∧
    same_reader n s n' s'.
Proof.
  intros Hne He Ha Hs Hd.
  set (s1 := set_wcrc crc32_init (set_wmsg WMSG_DATA s)).
  destruct (fill_data (Z.to_nat (BUFSIZ - 1)) s1 false data) as
    (buf & s' & esc' & rest & E & Hp & Hbuf & Hrest & He' & Hc' & Hw & Hrm & Hrc & _);
    [done|done|done|apply crc32_init_range|].
  assert (pend false data = escape data) as Hpe by (by destruct data).
  destruct (xwrite_accepting n (STX :: buf) He Ha) as (t & Ex & Ht).
  destruct (write_loop_data _ (Net 0 (rx n) t (wire n ++ STX :: buf)) s' esc' rest eq_refl)
    as (k & n' & s'' & Hk & Hst & ? & ? & Hwi & ? & Hcr & Hsr); [done..|rewrite Hc'; auto with shv|].
  pose proof (bytes_pend _ _ Hrest He') as Hbp.
  exists (S k), n', s''. rewrite <-Hpe, Hp, length_app. split; [lia|].
  split; [|split; [done|split; [done|]]].
  - eapply steps_next; [|exact Hst]. unfold write_serial_step. destruct data as [|x data]; [done|].
    replace (Z.to_nat BUFSIZ) with (S (Z.to_nat (BUFSIZ - 1))) by (unfold BUFSIZ; lia).
    cbn [fill]. rewrite decide_False by done. fold s1. by rewrite E, Ex.
  - rewrite Hwi, Hcr, Hc', <-crc32_update_app by auto with shv. cbn [wire]. rewrite <-app_assoc.
    split; [done|]. split; [done|]. split; [done|]. destruct Hsr as (? & ? & ?).
    unfold s1 in Hrm, Hrc. cbn [rmsg rcrc set_wcrc set_wmsg] in Hrm, Hrc.
    repeat split; [done|congruence..].
Qed.

(** A client of which [m] was written to [c->fw] since the wire was [w0]: a part
    of it is on the wire and the rest in the buffer of the stream. *)
Definition queued (c : ctx) (w0 m : list Z) : Prop :=
  is_block c = false ∧ Z.of_nat (length m) < 2 ^ 62 ∧ bytes m ∧
  ∃ m1, m = m1 ++ fw c ∧ sent (cnet c) (ser c) w0 m1.

(** The reading side of the client is left alone by a writer. *)
Definition unread (c c' : ctx) : Prop :=
  proto c' = proto c ∧ blk c' = blk c ∧ rfd c' = rfd c ∧ wfd c' = wfd c ∧
  same_reader (cnet c) (ser c) (cnet c') (ser c').

Lemma unread_trans a b c : unread a b → unread b c → unread a c.
Proof. unfold unread, same_reader. intuition congruence. Qed.

Lemma length_escape m : (length (escape m) ≤ 2 * length m)%nat.
Proof.
  induction m as [|x m IH]; [done|]. rewrite escape_cons, length_app.
  unfold escape1. destruct (ESCAPABLE x); simpl; lia.
Qed.

Lemma cookie_write_sent c w0 m data :
  is_block c = false → sent (cnet c) (ser c) w0 m → bytes data →
  Z.of_nat (length data) < 2 ^ 62 →
  ∃ c', cookie_write c data = (Z.of_nat (length data), c') ∧ unread c c' ∧ fw c' = fw c ∧
    sent (cnet c') (ser c') w0 (m ++ data).
Proof.
  intros Hb (He & Ha & Hm & H) Hd Hlen. unfold cookie_write. rewrite Hb. unfold cookie_write_serial.
  assert (∃ k n' s', (k ≤ 2 * length data + 2)%nat ∧
    steps write_serial_step k (cnet c, ser c, false, data) (inr (n', s', [])) ∧
    same_reader (cnet c) (ser c) n' s' ∧ sent n' s' w0 (m ++ data))
    as (k & n' & s' & Hk & Hst & Hsr & Hsent).
  { destruct (decide (data = [])) as [->|Hne].
    { exists 1%nat, (cnet c), (ser c). rewrite app_nil_r. split; [lia|].
      split; [by constructor|]. by repeat split. }
    pose proof (length_escape data). destruct (decide (m = [])) as [->|Hmne]; [destruct H as [Hw Hwi]|destruct H as (Hw & Hwi & Hc)].
    - destruct (write_loop_start (cnet c) (ser c) data) as
        (k & n' & s' & Hk & Hst & ? & ? & Hwi' & ? & ? & ?); [done..|].
      exists k, n', s'. split; [lia|]. split; [done|]. split; [done|].
      repeat split; [done|done|done|]. rewrite decide_False by done. by rewrite Hwi', Hwi.
    - destruct (write_loop_data _ (cnet c) (ser c) false data eq_refl) as
        (k & n' & s' & Hk & Hst & ? & ? & Hwi' & ? & Hc' & ?);
        [done..|rewrite Hc; auto with shv|].
      assert (pend false data = escape data) as Hpe by (by destruct data). rewrite Hpe in *.
      exists k, n', s'. split; [lia|]. split; [done|]. split; [done|].
      repeat split; [done|done|by apply bytes_app|].
      rewrite decide_False by (intros [? _]%app_eq_nil; done).
      rewrite Hwi', Hwi, Hc', Hc, escape_crc, escape_app, <-app_assoc by done. done. }
  rewrite (cloop_run _ 64 k _ _ Hst) by (change (Z.of_nat 64) with 64; lia).
  eexists. split; [f_equal; simpl; lia|]. by repeat split; try apply Hsr; try apply Hsent.
Qed.

Lemma queued_parts m1 l w0 c :
  queued c w0 (m1 ++ l) → bytes m1 ∧ bytes l ∧ Z.of_nat (length l) < 2 ^ 62.
Proof.
  intros (_ & Hlen & Hb & _). apply bytes_app in Hb. rewrite length_app in Hlen. intuition lia.
Qed.

Lemma fw_flush_queued c w0 m :
  queued c w0 m →
  ∃ c', fw_flush c = (true, c') ∧ unread c c' ∧ fw c' = [] ∧ queued c' w0 m.
Proof.
  intros Hq. pose proof Hq as (Hb & Hlen & Hm & m1 & -> & Hs). unfold fw_flush.
  destruct (queued_parts _ _ _ _ Hq) as (_ & Hf & Hl).
  destruct (fw c) as [|x l] eqn:E.
  { exists c. rewrite app_nil_r in *. repeat split; try done. by exists m1; rewrite E, app_nil_r. }
  destruct (cookie_write_sent (set_fw [] c) w0 m1 (x :: l)) as (c' & -> & Hu & Hfw & Hs');
    [done|done|done|done|].
  exists c'. rewrite Z.eqb_refl. split; [done|]. split; [done|]. split; [done|].
  repeat split; [|done|done|].
  - unfold is_block in *. by rewrite (proj1 Hu).
  - exists (m1 ++ x :: l). by rewrite Hfw, app_nil_r.
Qed.

Lemma fw_write_queued c w0 m l :
  queued c w0 m → bytes l → Z.of_nat (length m) + Z.of_nat (length l) < 2 ^ 62 →
  ∃ c', fw_write c l = (true, c') ∧ unread c c' ∧ queued c' w0 (m ++ l) ∧
    (wmsg (ser c') = wmsg (ser c) ∨ wmsg (ser c') = WMSG_DATA).
Proof.
  intros (Hb & Hlen & Hm & m1 & -> & Hs) Hl Hlen'. unfold fw_write. rewrite Hb.
  assert (queued (set_fw (fw c ++ l) c) w0 ((m1 ++ fw c) ++ l)) as Hq.
  { repeat split; [done|rewrite length_app; lia|by apply bytes_app|].
    exists m1. cbn [fw set_fw]. by rewrite app_assoc. }
  destruct (Z.ltb_spec (Z.of_nat (length (fw (set_fw (fw c ++ l) c)))) BUFSIZ) as [|Hfull].
  - eexists. split; [done|]. split; [done|]. split; [done|by left].
  - destruct (fw_flush_queued _ _ _ Hq) as (c' & -> & Hu & Hfw & Hq'). exists c'.
    split; [done|]. split; [done|]. split; [done|right].
    destruct Hq' as (_ & _ & _ & m' & Em & _ & _ & _ & Hs'). rewrite Hfw, app_nil_r in Em. subst m'.
    rewrite decide_False in Hs'; [by destruct Hs'|]. intros E0. apply (f_equal length) in E0.
    cbn [fw set_fw] in Hfull. rewrite !length_app in *. unfold BUFSIZ in Hfull. simpl length in E0. lia.
Qed.

(** The checksum is sent as an escaped big-endian number. *)
Lemma crc_parts crc :
  0 ≤ crc → crc_part crc 3 ++ crc_part crc 2 ++ crc_part crc 1 ++ crc_part crc 0 =
  escape (be_bytes 4 crc).
Proof.
  intros Hc.
  assert (∀ y, 0 ≤ y → crc_part crc y = escape1 ((crc / 256 ^ y) mod 256)) as H.
  { intros y Hy. unfold crc_part, escape1. change 0xff with (2 ^ 8 - 1).
    rewrite land_ones_mod, Z.shiftr_div_pow2 by lia. change 256 with (2 ^ 8).
    by rewrite <-Z.pow_mul_r by lia. }
  rewrite !H by lia. unfold escape. cbn [be_bytes mbind list_bind]. by rewrite app_nil_r.
Qed.

Lemma stream_sendmsg_queued c w0 m :
  queued c w0 m → m ≠ [] →
  ∃ c', stream_sendmsg c = (true, c') ∧ unread c c' ∧ wire (cnet c') = w0 ++ frame (proto c) m ∧
    queued c' (w0 ++ frame (proto c) m) [].
Proof.
  intros Hq Hne. unfold stream_sendmsg. rewrite (proj1 Hq).
  destruct (fw_flush_queued _ _ _ Hq) as (c1 & -> & Hu & Hfw & (Hb1 & _ & Hm & m1 & Em & Hs)).
  rewrite Hfw, app_nil_r in Em. subst m1. destruct Hs as (He & Ha & _ & Hs).
  rewrite decide_False in Hs by done. destruct Hs as (Hw & Hwi & Hc).
  unfold rpcclient_stream_serial_send. cbn [snd]. rewrite bool_decide_eq_true_2 by done. cbn [negb].
  set (tl := if decide _ then _ else _).
  assert (tl = trailer (proto c) (escape m)) as ->.
  { unfold tl, trailer. rewrite (proj1 Hu). destruct (decide (proto c = _)); [|done].
    cbn [wcrc set_wmsg]. rewrite Hc. by apply crc_parts, (crc32_range (escape m)), bytes_escape. }
  destruct (xwrite_accepting (cnet c1) (ETX :: trailer (proto c) (escape m)) He Ha) as (t & -> & Ht).
  assert ((w0 ++ STX :: escape m) ++ ETX :: trailer (proto c) (escape m) =
    w0 ++ frame (proto c) m) as Hfr by (unfold frame; by rewrite <-app_assoc).
  eexists. split; [done|]. cbn. rewrite Hwi. split; [by eapply unread_trans|]. split; [done|].
  repeat split; [done|constructor|]. exists []. cbn. rewrite Hfw, Hfr.
  split; [done|]. by repeat split; [|constructor|].
Qed.
