(* ===== verification/StreamBlock.v ===== *)
(** * Block framing

    A message on the wire is its length and its bytes.  The writer collects the
    message in a buffer that grows; the reader counts the bytes down. *)

From S2P Require Import Prelude Stdio Chainpack CpItem ChainpackPack Stream StreamSerial.

(** ** Specification *)

Definition block_frame (m : list Z) : list Z := uint_bytes (Z.of_nat (length m)) ++ m.

(** [d] is the rest of the message being read and [t] follows it. *)
Definition block_rest (c : ctx) (d t : list Z) (r' : list rxev) : Prop :=
  is_block c = true ∧ rmsgoff (blk c) = Z.of_nat (length d) ∧ Z.of_nat (length d) < 2 ^ 63 ∧
  delivers (rx (cnet c)) (d ++ t) r'.

(** The other parts of the client are left alone by the reader. *)
Definition block_reader (c c' : ctx) : Prop :=
  proto c' = proto c ∧ fw c' = fw c ∧ ser c' = ser c ∧ tx (cnet c') = tx (cnet c) ∧
  wire (cnet c') = wire (cnet c) ∧ wbuf (blk c') = wbuf (blk c) ∧
  errnum (cnet c') = errnum (cnet c).

(** The buffer is what its size says and holds its content; allocation does not
    fail. *)
Definition block_ok (b : block) : Prop :=
  wbufsiz b = walloc b ∧ 0 ≤ wbufsiz b < 2 ^ 63 ∧ fault b = false ∧
  Forall (λ ok, ok = true) (heap b) ∧ (wbuf b ≠ [] → wbuflen b < wbufsiz b).

(** [m] was packed for a healthy connection on which [w0] was sent before. *)
Definition block_queued (c : ctx) (w0 m : list Z) : Prop :=
  is_block c = true ∧ block_ok (blk c) ∧ wbuf (blk c) = m ∧ wire (cnet c) = w0 ∧
  errnum (cnet c) = 0 ∧ accepting (tx (cnet c)).

(** ** Reading *)

Lemma delivers_chunk k : ∀ ch r l r',
  (0 < k ≤ length ch)%nat → (k ≤ length l)%nat → delivers (RxData ch :: r) l r' →
  take k ch = take k l ∧
  delivers (if decide (drop k ch = []) then r else RxData (drop k ch) :: r) (drop k l) r'.
Proof.
  induction k as [|k IH]; intros ch r l r' Hk Hl Hd; [lia|].
  destruct l as [|b l]; [simpl in Hl; lia|].
  inversion Hd as [| |b0 r0 l0 r0' Hd'|b0 b' d r0 l0 r0' Hd']; subst.
  - simpl in Hk. assert (k = 0%nat) as -> by lia. simpl. done.
  - destruct (decide (k = 0%nat)) as [->|Hk0]; [done|].
    destruct (IH (b' :: d) r l r') as [E H]; [simpl in *; lia|simpl in *; lia|done|].
    cbn [take drop]. by rewrite E.
Qed.

Lemma xread_delivers n siz l r' :
  delivers (rx n) l r' → 1 ≤ siz ≤ Z.of_nat (length l) →
  ∃ k r1, (0 < k)%nat ∧ Z.of_nat k ≤ siz ∧
    xread n siz = (Z.of_nat k, take k l, set_rx r1 n) ∧ delivers r1 (drop k l) r'.
Proof.
  destruct n as [err r t w]; simpl. unfold xread, set_rx; simpl. intros H. revert siz.
  induction H as [r|r b k r' H IH|b r k r' H _|b b' d r k r' H _]; intros siz Hsz.
  - simpl in Hsz. lia.
  - destruct (IH siz Hsz) as (m & r1 & ? & ? & E & ?). exists m, r1. by repeat split.
  - cbn [xread_rx length]. rewrite Z.min_r by lia. exists 1%nat, r. repeat split; [lia|lia|done].
  - cbn [xread_rx]. set (ch := b :: b' :: d). set (m := Z.to_nat (Z.min siz (Z.of_nat (length ch)))).
    assert (0 < m ≤ length ch)%nat as Hm by (unfold m, ch; simpl length; lia).
    destruct (delivers_chunk m ch r (b :: k) r') as [E Hd];
      [done|unfold m; lia|by constructor|].
    exists m, (if decide (drop m ch = []) then r else RxData (drop m ch) :: r).
    split; [lia|]. split; [unfold m; lia|]. split; [|done].
    rewrite <-E. replace (Z.of_nat m) with (Z.min siz (Z.of_nat (length ch))); [done|].
    unfold m. simpl length. lia.
Qed.

Lemma cookie_read_block_rest c d t r' size :
  block_rest c d t r' → 0 < size → d ≠ [] →
  ∃ k c', (0 < k ≤ length d)%nat ∧ Z.of_nat k ≤ size ∧
    cookie_read c size = (Z.of_nat k, take k d, c') ∧ block_reader c c' ∧
    block_rest c' (drop k d) t r'.
Proof.
  intros (Hb & Hoff & Hlen & Hd) Hsz Hne. unfold cookie_read. rewrite Hb.
  unfold cookie_read_block. rewrite Hoff.
  set (sz := if Z.of_nat (length d) <? size then Z.of_nat (length d) else size).
  assert (0 < Z.of_nat (length d)) as Hpos by (destruct d; [done|simpl length; lia]).
  assert (1 ≤ sz ≤ Z.of_nat (length d) ∧ sz ≤ size) as [Hs1 Hs2].
  { unfold sz. destruct (Z.ltb_spec (Z.of_nat (length d)) size); lia. }
  rewrite (proj2 (Z.eqb_neq sz 0)) by lia.
  destruct (xread_delivers (cnet c) sz (d ++ t) r') as (k & r1 & Hk & Hks & -> & Hd1);
    [done|rewrite length_app; lia|].
  rewrite (proj2 (Z.leb_le 0 _)), (proj2 (Z.eqb_neq _ (-2))) by lia.
  rewrite uwrap_small by (unfold urange; lia). rewrite take_app_le by lia.
  rewrite drop_app_le in Hd1 by lia.
  eexists k, _. split; [lia|]. split; [lia|]. split; [done|]. split; [done|].
  repeat split; [done|cbn; rewrite length_drop; lia|rewrite length_drop; lia|done].
Qed.

Lemma cookie_read_block_end c t r' size :
  block_rest c [] t r' → 0 < size → cookie_read c size = (0, [], c).
Proof.
  intros (Hb & Hoff & _) Hsz. unfold cookie_read. rewrite Hb. unfold cookie_read_block.
  rewrite Hoff. simpl. by rewrite (proj2 (Z.ltb_lt _ _)).
Qed.

Lemma block_reader_trans a b c : block_reader a b → block_reader b c → block_reader a c.
Proof. unfold block_reader. intuition congruence. Qed.

#[export] Hint Resolve block_reader_trans : shv.

Lemma fread_loop_block fuel : ∀ c d t r' size buf,
  block_rest c d t r' → size - Z.of_nat (length buf) < Z.of_nat fuel →
  ∃ c', fread_loop fuel c size buf =
          (buf ++ take (Z.to_nat (size - Z.of_nat (length buf))) d, c') ∧ block_reader c c' ∧
        block_rest c' (drop (Z.to_nat (size - Z.of_nat (length buf))) d) t r'.
Proof.
  induction fuel as [|fuel IH]; intros c d t r' size buf H Hf.
  { exists c. replace (Z.to_nat _) with 0%nat by lia. simpl. by rewrite app_nil_r. }
  cbn [fread_loop]. destruct (Z.leb_spec size (Z.of_nat (length buf))).
  { exists c. replace (Z.to_nat _) with 0%nat by lia. simpl. by rewrite app_nil_r. }
  destruct (decide (d = [])) as [->|Hne].
  { rewrite (cookie_read_block_end _ _ _ _ H) by lia. exists c.
    by rewrite take_nil, drop_nil, app_nil_r. }
  destruct (cookie_read_block_rest _ _ _ _ (size - Z.of_nat (length buf)) H) as
    (k & c1 & Hk & Hks & -> & Hr & H1); [lia|done|].
  rewrite (proj2 (Z.ltb_lt _ _)) by lia.
  assert (length (take k d) = k) as Hkl by (rewrite length_take; lia).
  destruct (IH c1 (drop k d) t r' size (buf ++ take k d) H1) as (c2 & -> & Hr2 & H2);
    [rewrite length_app; lia|].
  rewrite length_app, Hkl in *.
  replace (Z.to_nat (size - Z.of_nat (length buf)))
    with (k + Z.to_nat (size - Z.of_nat (length buf + k)))%nat by lia.
  exists c2. rewrite <-app_assoc, <-take_take_drop, <-drop_drop. eauto with shv.
Qed.

Lemma fr_fread_block c d t r' size :
  block_rest c d t r' → 0 < size →
  ∃ c', fr_fread c size = (take (Z.to_nat size) d, c') ∧ block_reader c c' ∧
    block_rest c' (drop (Z.to_nat size) d) t r'.
Proof.
  intros H Hsz. unfold fr_fread.
  destruct (fread_loop_block (S (Z.to_nat size)) c d t r' size [] H) as (c' & E & Hr & H').
  { simpl length. lia. }
  change (Z.of_nat (length [])) with 0 in *. rewrite Z.sub_0_r in *. by exists c'.
Qed.

Lemma flushmsg_block c d t r' :
  block_rest c d t r' →
  ∃ c', flushmsg c = c' ∧ block_reader c c' ∧ block_rest c' [] t r'.
Proof.
  intros H. assert (Z.of_nat (length d) < 2 ^ 63) as Hlen by apply H.
  assert (∃ k c', (k ≤ length d + 1)%nat ∧ steps flush_step k c (inr c') ∧ block_reader c c' ∧
            block_rest c' [] t r') as (k & c' & Hk & Hs & Hw & He).
  { clear Hlen. remember (length d) as m eqn:Em. revert c d H Em.
    induction m as [m IH] using lt_wf_ind. intros c d H ->.
    destruct (fr_fread_block _ _ _ _ BUFSIZ H) as (c1 & E & Hr & H1); [done|].
    destruct (decide (d = [])) as [->|Hne].
    - exists 1%nat, c1. split; [lia|]. split; [|split; [done|by rewrite drop_nil in H1]].
      constructor. unfold flush_step. by rewrite E, take_nil.
    - assert (0 < length d)%nat by (destruct d; [done|simpl; lia]).
      edestruct (IH (length (drop (Z.to_nat BUFSIZ) d))) as (k & c' & Hk & Hs & Hw' & He);
        [|exact H1|done|].
      { rewrite length_drop. unfold BUFSIZ. lia. }
      rewrite length_drop in Hk. exists (S k), c'. split; [unfold BUFSIZ in Hk; lia|].
      split; [|split; [eauto with shv|done]]. apply (steps_next _ _ _ c1); [|done].
      unfold flush_step. rewrite E, decide_False; [done|]. intros E0.
      apply (f_equal length) in E0. rewrite length_take in E0. unfold BUFSIZ in E0.
      simpl length in E0. lia. }
  exists c'. split; [|done]. unfold flushmsg. rewrite (cloop_run _ 64 k c c'); [done|done|].
  change (Z.of_nat 64) with 64. lia.
Qed.

(** The length before the message. *)
Lemma next_size_delivers l t r' : ∀ n a,
  bytes l → delivers (rx n) (l ++ t) r' →
  ∃ r1, next_size (length l) n (u64 a) = (Some (u64 (foldl be_push a l)), set_rx r1 n) ∧
    delivers r1 t r'.
Proof.
  induction l as [|x l IH]; intros n a Hl Hd.
  { exists (rx n). split; [by destruct n|done]. }
  apply Forall_cons in Hl as [Hx Hl]. simpl in Hd.
  apply xreadc_delivers in Hd as (r1 & E & Hd). cbn [length next_size foldl]. rewrite E.
  unfold byte in Hx. rewrite (proj2 (Z.eqb_neq x (-1))) by lia.
  replace (u64 (Z.lor (Z.shiftl (u64 a) 8) x)) with (u64 (be_push a x)).
  - by apply (IH (set_rx r1 n)).
  - rewrite lor_shiftl_add by lia. unfold uwrap, be_push.
    by rewrite <-Zplus_mod_idemp_l, <-Z.mul_mod_idemp_l, Zplus_mod_idemp_l by lia.
Qed.

Lemma uint_bytes_head v :
  urange 64 v →
  let k := chainpack_w_uint_bytes v in
  uint_bytes v = chainpack_w_uint_value1 v k :: be_bytes (Z.to_nat (k - 1)) v ∧
  byte (chainpack_w_uint_value1 v k) ∧
  chainpack_int_bytes (chainpack_w_uint_value1 v k) = k ∧ 1 ≤ k ≤ 9 ∧
  foldl be_push (chainpack_uint_value1 (chainpack_w_uint_value1 v k) k)
    (be_bytes (Z.to_nat (k - 1)) v) = v.
Proof.
  intros Hv k. destruct (chainpack_w_uint_bytes_least v Hv) as (Hk & Hb & _). fold k in Hk, Hb.
  unfold urange in Hv. destruct (uint_head_ok k v) as (H1 & H2 & H3); [lia|lia|].
  split; [|split; [done|split; [done|split; [done|]]]].
  - unfold uint_bytes, uint_rep. fold k. rewrite Z2Nat.id by lia. do 2 f_equal. lia.
  - rewrite H3, be_value_bytes, Z2Nat.id by lia. apply head_value_be; lia.
Qed.

Lemma block_nextmsg_frame c m t r' :
  is_block c = true → Z.of_nat (length m) < 2 ^ 63 →
  delivers (rx (cnet c)) (block_frame m ++ t) r' →
  ∃ c', rpcclient_stream_block_nextmsg c = (RPCC_MESSAGE, c') ∧ block_reader c c' ∧
    block_rest c' m t r'.
Proof.
  intros Hb Hlen Hd. unfold block_frame in Hd.
  assert (urange 64 (Z.of_nat (length m))) as Hv by (unfold urange; lia).
  destruct (uint_bytes_head _ Hv) as (E & Hh & Hk & Hkr & Hval).
  rewrite E in Hd. simpl in Hd. rewrite <-app_assoc in Hd. unfold rpcclient_stream_block_nextmsg.
  apply xreadc_delivers in Hd as (r1 & -> & Hd).
  rewrite (proj2 (Z.ltb_ge _ _)) by apply Hh. rewrite Hk.
  apply (next_size_delivers _ _ _ (set_rx r1 (cnet c))
    (chainpack_uint_value1 (chainpack_w_uint_value1 (Z.of_nat (length m))
      (chainpack_w_uint_bytes (Z.of_nat (length m))))
      (chainpack_w_uint_bytes (Z.of_nat (length m))))) in Hd as (r2 & E2 & Hd);
    [|apply bytes_be_bytes].
  rewrite length_be_bytes, Hval in E2. pose proof (uint_value1_range _ Hh) as [Hr _].
  rewrite Hk in Hr. rewrite !uwrap_small in E2 by done. rewrite E2.
  eexists. split; [done|]. by repeat split.
Qed.

(** ** Writing *)

Lemma grow_ok b size :
  block_ok b → 0 ≤ size → wbuflen b + size < 2 ^ 62 →
  ∃ b', cloop (grow_step size) 64 b = inr (true, b') ∧ block_ok b' ∧ wbuf b' = wbuf b ∧
    rmsgoff b' = rmsgoff b ∧ wbuflen b + size < wbufsiz b'.
Proof.
  intros Hok Hs Hlen.
  set (I b' := block_ok b' ∧ wbuf b' = wbuf b ∧ rmsgoff b' = rmsgoff b).
  set (Q := λ r : bool * block, r.1 = true ∧ I r.2 ∧ wbuflen b + size < wbufsiz r.2).
  destruct (steps_total_inv (grow_step size) I Q
    (λ b', Z.to_nat (wbuflen b + size + 1 - wbufsiz b'))) with (s := b)
    as (k & [ok b'] & Hk & Hst & (? & (? & ? & ?) & ?)); [|done|].
  - intros b' HI. pose proof HI as ((Ha & Hz & Hf & Hh & Hl) & Hb & Hr). unfold grow_step.
    assert (wbuflen b' = wbuflen b) as Hwl by (unfold wbuflen; by rewrite Hb).
    assert (0 ≤ wbuflen b) by (unfold wbuflen; lia).
    rewrite Hwl, uwrap_small by (unfold urange; lia).
    destruct (Z.ltb_spec (wbuflen b + size) (wbufsiz b')); [done|].
    set (siz := u64 (2 * _)).
    assert (wbufsiz b' < siz < 2 ^ 63) as Hsz.
    { unfold siz. destruct (Z.eqb_spec (wbufsiz b') 0) as [->|]; [done|].
      rewrite uwrap_small by (unfold urange; lia). lia. }
    assert (∀ h, Forall (λ ok, ok = true) h →
      I (Block (rmsgoff b') (wbuf b') siz siz h (fault b')) ∧
      (Z.to_nat (wbuflen b + size + 1 - siz) < Z.to_nat (wbuflen b + size + 1 - wbufsiz b'))%nat)
      as Hinv.
    { intros h Hh'. split; [|lia]. repeat split; try done; cbn; try lia.
      intros Hne. specialize (Hl Hne). unfold wbuflen in *. cbn. lia. }
    destruct (heap b') as [|[] h].
    + by apply Hinv.
    + apply Hinv. by apply Forall_cons in Hh as [_ ?].
    + by apply Forall_cons in Hh as [? _].
  - cbn [fst snd] in *. subst ok. exists b'. split; [|done].
    apply (cloop_run _ 64 k); [done|]. destruct Hok as (_ & ? & _).
    change (Z.of_nat 64) with 64. unfold wbuflen in *. lia.
Qed.

Lemma fw_write_block c w0 m l :
  block_queued c w0 m → Z.of_nat (length m) + Z.of_nat (length l) < 2 ^ 62 →
  ∃ c', fw_write c l = (true, c') ∧ block_queued c' w0 (m ++ l) ∧ rx (cnet c') = rx (cnet c) ∧
    rmsgoff (blk c') = rmsgoff (blk c).
Proof.
  intros (Hb & Hok & Hm & Hw & He & Ha) Hlen. unfold fw_write, cookie_write. rewrite Hb.
  unfold cookie_write_block.
  destruct (grow_ok (blk c) (Z.of_nat (length l))) as (b' & -> & Hok' & Hb' & Hr & Hgrow);
    [done|lia|unfold wbuflen; rewrite Hm; lia|].
  rewrite Z.eqb_refl. eexists. split; [done|]. split; [|done].
  destruct Hok' as (H1 & H2 & H3 & H4 & H5). unfold wbuflen in *.
  split; [done|]. split; [|split; [cbn; by rewrite Hb', Hm|done]].
  unfold block_ok, wbuflen. cbn. rewrite H3, Hb', <-H1, length_app.
  rewrite (proj2 (Z.ltb_ge _ _)) by lia. split_and!; [done|apply H2..|done|done|lia].
Qed.

Lemma send_size_tail fuel : ∀ n len bytes i,
  errnum n = 0 → accepting (tx n) → 0 ≤ len → 0 < i → bytes - i = Z.of_nat fuel →
  ∃ t, send_size fuel n len bytes i = (true, Net 0 (rx n) t (wire n ++ be_bytes fuel len)) ∧
    accepting t.
Proof.
  induction fuel as [|fuel IH]; intros n len bytes i He Ha Hlen Hi Hf; cbn [send_size be_bytes].
  { exists (tx n). rewrite app_nil_r. split; [destruct n; simpl in *; by subst|done]. }
  rewrite (proj2 (Z.ltb_lt _ _)), (proj2 (Z.eqb_neq i 0)) by lia.
  set (v := Z.land 0xff _).
  assert (v = (len / 256 ^ Z.of_nat fuel) mod 256) as Hv.
  { unfold v. rewrite Z.land_comm. change 0xff with (2 ^ 8 - 1).
    rewrite land_ones_mod, Z.shiftr_div_pow2 by lia. change 256 with (2 ^ 8).
    rewrite <-Z.pow_mul_r by lia. do 3 f_equal. lia. }
  destruct (xwrite_accepting n [v] He Ha) as (t & -> & Ht).
  destruct (IH (Net 0 (rx n) t (wire n ++ [v])) len bytes (i + 1)) as (t' & -> & Ht'); try done; [lia..|].
  exists t'. split; [|done]. cbn [rx wire]. by rewrite <-app_assoc, Hv.
Qed.

Lemma stream_sendmsg_block c w0 m :
  block_queued c w0 m → m ≠ [] → Z.of_nat (length m) < 2 ^ 63 →
  ∃ c', stream_sendmsg c = (true, c') ∧ block_queued c' (w0 ++ block_frame m) [] ∧
    rx (cnet c') = rx (cnet c) ∧ rmsgoff (blk c') = rmsgoff (blk c).
Proof.
  intros (Hb & Hok & Hm & Hw & He & Ha) Hne Hlen. unfold stream_sendmsg. rewrite Hb.
  unfold rpcclient_stream_block_send.
  set (len := wbuflen (blk c)). assert (len = Z.of_nat (length m)) as El by (unfold len, wbuflen; by rewrite Hm).
  assert (0 < len) by (rewrite El; destruct m; [done|simpl length; lia]).
  assert (urange 64 len) as Hv by (unfold urange; lia).
  rewrite (proj2 (Z.eqb_neq len 0)) by lia.
  destruct (uint_bytes_head _ Hv) as (E & Hh & Hk & Hkr & Hval).
  set (k := chainpack_w_uint_bytes len) in *.
  replace (Z.to_nat k) with (S (Z.to_nat (k - 1))) by lia. cbn [send_size].
  rewrite (proj2 (Z.ltb_lt _ _)) by lia. change (0 =? 0) with true. cbv iota.
  destruct (xwrite_accepting (cnet c) [chainpack_w_uint_value1 len k] He Ha) as (t1 & -> & Ht1).
  edestruct (send_size_tail (Z.to_nat (k - 1))) as (t2 & -> & Ht2);
    [|exact Ht1| | | |]; [done|lia|lia|lia|]. cbn [negb].
  match goal with |- context [xwrite ?n ?d] =>
    destruct (xwrite_accepting n d eq_refl Ht2) as (t3 & -> & Ht3) end.
  eexists. split; [done|]. split; [|done]. destruct Hok as (H1 & H2 & H3 & H4 & H5).
  split; [done|]. split; [|split; [done|split; [|done]]].
  - unfold block_ok. cbn. by split_and!; try apply H2.
  - cbn. rewrite Hw, Hm. unfold block_frame. rewrite <-El, E. by rewrite <-!app_assoc.
Qed.
