(* ===== verification/StreamSpec.v ===== *)
(** * Stream transport: properties

    The Serial and Block layers carry messages faithfully: what the sender packs
    is what the receiver reads, whatever pieces it travels in, and a message that
    was damaged or cut off is not taken for a valid one. *)

From S2P Require Import Prelude Stdio Crc32 Chainpack CpItem ChainpackPack.
From S2P Require Import Stream StreamSerial StreamBlock.

(** ** Definitions of the statements *)

(** Pack the items one after another. *)
Fixpoint pack_all (c : ctx) (l : list cpitem) : bool * ctx :=
  match l with
  | [] => (true, c)
  | i :: l' =>
      let '(ok, c) := stream_pack c i in
      let '(oks, c) := pack_all c l' in
      (ok && oks, c)
  end.

(** The message of the items: the ChainPack identifier and their encodings. *)
Definition message (l : list cpitem) : list Z := 1 :: (l ≫= item_bytes).

(** Items that [chainpack_pack] encodes to at least one byte. *)
Definition encodable (i : cpitem) : Prop :=
  packable i ∧ item_bytes i ≠ [] ∧ bytes (item_bytes i).

(** Read pieces of the given sizes from [c->fr]. *)
Fixpoint read_all (c : ctx) (sizes : list Z) : list (list Z) * ctx :=
  match sizes with
  | [] => ([], c)
  | n :: sizes' =>
      let '(l, c) := fr_fread c n in
      let '(ls, c) := read_all c sizes' in
      (l :: ls, c)
  end.

(** The pieces of a message in memory. *)
Fixpoint pieces (m : list Z) (sizes : list Z) : list (list Z) :=
  match sizes with
  | [] => []
  | n :: sizes' => take (Z.to_nat n) m :: pieces (drop (Z.to_nat n) m) sizes'
  end.

(** A client with a healthy connection that is not in the middle of a message. *)
Definition idle (c : ctx) : Prop :=
  errnum (cnet c) = 0 ∧ accepting (tx (cnet c)) ∧ fw c = [] ∧ wmsg (ser c) = WMSG_NO ∧
  wbuf (blk c) = [] ∧ block_ok (blk c).

(** ** Lemmas *)

(** Packing of a message: the identifier goes before the first item. *)
Definition packing (c : ctx) (w0 m : list Z) : Prop :=
  queued c w0 m ∧ (m = [] ∧ wmsg (ser c) = WMSG_NO ∨ m ≠ [] ∧ wmsg (ser c) ≠ WMSG_NO).

Lemma stream_pack_bytes i :
  packable i →
  chainpack_pack (Some (WFile [] None false)) i =
    (Some (WFile (item_bytes i) None false), Z.of_nat (length (item_bytes i))).
Proof. intros Hp. by rewrite chainpack_pack_room. Qed.

Lemma stream_pack_next c w0 m i :
  packing c w0 m → m ≠ [] → encodable i →
  Z.of_nat (length m) + Z.of_nat (length (item_bytes i)) < 2 ^ 62 →
  ∃ c', stream_pack c i = (true, c') ∧ unread c c' ∧ packing c' w0 (m ++ item_bytes i).
Proof.
  intros [Hq H] Hm (Hp & Hne & Hb) Hlen. destruct H as [[-> _]|[_ Hw]]; [done|].
  unfold stream_pack. rewrite (proj1 Hq), (bool_decide_eq_false_2 (wmsg (ser c) = WMSG_NO)) by done.
  cbn [negb andb orb]. rewrite stream_pack_bytes by done. cbn [wf_out].
  destruct (fw_write_queued _ _ _ (item_bytes i) Hq Hb Hlen) as (c' & -> & Hu & Hq' & Hw').
  exists c'. rewrite (proj2 (Z.ltb_lt 0 _)); [|destruct (item_bytes i); [done|simpl length; lia]].
  split; [done|]. split; [done|]. split; [done|]. right. split.
  - by destruct m.
  - destruct Hw' as [-> | ->]; done.
Qed.

Lemma stream_pack_first c w0 i :
  packing c w0 [] → encodable i → Z.of_nat (length (item_bytes i)) < 2 ^ 61 →
  ∃ c', stream_pack c i = (true, c') ∧ unread c c' ∧ packing c' w0 (1 :: item_bytes i).
Proof.
  intros [Hq H] Hi Hlen. destruct H as [[_ Hw]|[? _]]; [|done].
  pose proof Hq as (Hb & _ & _ & m1 & E & Hs).
  symmetry in E. apply app_eq_nil in E as [-> Hfw].
  assert (packing (set_ser (set_wmsg WMSG_ST (ser c)) (set_fw [1] c)) w0 [1]) as H1.
  { split; [|by right]. split; [done|]. split; [done|]. split; [by apply bytes_cons; [|constructor]|].
    exists []. split; [done|]. destruct Hs as (? & ? & ? & Hs). split; [done|]. split; [done|].
    split; [done|]. by destruct Hs. }
  destruct (stream_pack_next _ w0 [1] i H1) as (c' & E & Hu & Hp); [done|done|simpl length; lia|].
  exists c'. split; [|done]. rewrite <-E. unfold stream_pack.
  cbn [is_block proto set_ser set_fw ser wmsg set_wmsg]. unfold is_block in *. cbn [proto set_ser set_fw].
  rewrite Hb, Hw. cbn [negb andb orb bool_decide]. unfold fw_write, is_block. rewrite Hb, Hfw.
  cbn [app fw set_fw length]. change (Z.of_nat 1 <? BUFSIZ) with true. cbv iota.
  cbn [proto set_fw]. rewrite Hb. done.
Qed.

Lemma pack_all_packing l : ∀ c w0 m,
  packing c w0 m → m ≠ [] → Forall encodable l →
  Z.of_nat (length m) + Z.of_nat (length (l ≫= item_bytes)) < 2 ^ 62 →
  ∃ c', pack_all c l = (true, c') ∧ unread c c' ∧ packing c' w0 (m ++ (l ≫= item_bytes)).
Proof.
  induction l as [|i l IH]; intros c w0 m Hp Hm Hl Hlen.
  { exists c. simpl. rewrite app_nil_r. split; [done|]. split; [done|done]. }
  apply Forall_cons in Hl as [Hi Hl]. cbn [pack_all mbind list_bind] in *. rewrite length_app in Hlen.
  destruct (stream_pack_next _ _ _ i Hp Hm Hi) as (c1 & -> & Hu & H1); [lia|].
  destruct (IH c1 w0 (m ++ item_bytes i) H1) as (c2 & -> & Hu2 & H2);
    [by destruct m|done|rewrite length_app; unfold mbind in *; lia|].
  exists c2. split; [done|]. split; [by eapply unread_trans|].
  by rewrite <-app_assoc in H2.
Qed.

Lemma idle_packing c : idle c → is_block c = false → packing c (wire (cnet c)) [].
Proof.
  intros (He & Ha & Hf & Hw & _) Hb. split; [|by left].
  split; [done|]. split; [done|]. split; [constructor|].
  exists []. rewrite Hf. split; [done|]. split; [done|]. split; [done|].
  split; [constructor|]. simpl. by rewrite Hw.
Qed.

Lemma read_all_receiving sizes : ∀ c got d t r',
  receiving c got d t r' → Forall (λ n, 0 < n) sizes →
  ∃ c' k, read_all c sizes = (pieces d sizes, c') ∧ same_writer c c' ∧
    receiving c' (got ++ take k d) (drop k d) t r'.
Proof.
  induction sizes as [|n sizes IH]; intros c got d t r' H Hs.
  { exists c, 0%nat. simpl. rewrite app_nil_r. by split. }
  apply Forall_cons in Hs as [Hn Hs]. cbn [read_all pieces].
  destruct (fr_fread_receiving _ _ _ _ _ n H Hn) as (c1 & -> & Hw & H1 & _).
  destruct (IH _ _ _ _ _ H1 Hs) as (c2 & k & -> & Hw2 & H2).
  exists c2, (Z.to_nat n + k)%nat. split; [done|]. split; [eauto with shv|].
  by rewrite <-app_assoc, take_take_drop, drop_drop in H2.
Qed.

Lemma serial_send c i l :
  idle c → is_block c = false → Forall encodable (i :: l) →
  Z.of_nat (length (message (i :: l))) < 2 ^ 61 →
  ∃ c1 c2, pack_all c (i :: l) = (true, c1) ∧ stream_sendmsg c1 = (true, c2) ∧ unread c c2 ∧
    wire (cnet c2) = wire (cnet c) ++ frame (proto c) (message (i :: l)) ∧
    queued c2 (wire (cnet c2)) [].
Proof.
  intros Hc Hb [Hi Hl]%Forall_cons Hlen. unfold message in *. cbn [mbind list_bind length] in Hlen.
  rewrite length_app in Hlen. pose proof (idle_packing c Hc Hb) as Hp.
  destruct (stream_pack_first _ _ i Hp Hi) as (c1 & E1 & Hu1 & H1); [lia|].
  destruct (pack_all_packing l c1 _ _ H1) as (c2 & E2 & Hu2 & H2);
    [done|done|simpl length; unfold mbind in *; lia|].
  destruct (stream_sendmsg_queued _ _ _ (proj1 H2)) as (c3 & E3 & Hu3 & Hw & Hq); [done|].
  assert (unread c c2) as Hu12 by (by eapply unread_trans).
  assert (unread c c3) as Hu13 by (by eapply unread_trans).
  exists c2, c3. cbn [pack_all]. rewrite E1, E2. split; [done|]. split; [done|]. split; [done|].
  rewrite (proj1 Hu12) in *. rewrite Hw. split; [done|]. exact Hq.
Qed.

Lemma awaiting_frame c noise p m rest r' :
  is_block c = false → rmsg (ser c) ≠ RMSG_STX → bytes noise → STX ∉ noise →
  Z.of_nat (length noise) < 2 ^ 63 →
  delivers (rx (cnet c)) (noise ++ frame p m ++ rest) r' →
  awaiting c (escape m ++ ETX :: trailer p (escape m) ++ rest) r'.
Proof.
  intros Hb Hr Hn Hs Hlen Hd. split; [done|]. right. split; [done|]. exists noise.
  split; [done|]. split; [done|]. split; [done|]. unfold frame in Hd. simpl in Hd.
  by rewrite <-app_assoc in Hd.
Qed.

Lemma is_block_proto a b : proto b = proto a → is_block b = is_block a.
Proof. intros E. unfold is_block. by rewrite E. Qed.

Lemma receiving_bytes c got d t r' : receiving c got d t r' → bytes (got ++ d).
Proof.
  intros [(_ & _ & _ & ? & ? & _)|(-> & _ & _ & _ & ? & _)]; [by apply bytes_app|].
  by rewrite app_nil_r.
Qed.

Lemma serial_receive c m rest r' sizes :
  awaiting c (escape (1 :: m) ++ ETX :: trailer (proto c) (escape (1 :: m)) ++ rest) r' →
  bytes m → Z.of_nat (length m) < 2 ^ 63 → Forall (λ n, 0 < n) sizes →
  ∃ c1 c2 c3, stream_nextmsg c = (RPCC_MESSAGE, c1) ∧ read_all c1 sizes = (pieces m sizes, c2) ∧
    stream_validmsg c2 = (true, c3) ∧ rmsg (ser c3) = RMSG_ETX ∧
    delivers (rx (cnet c3)) rest r'.
Proof.
  intros H Hm Hlen Hs.
  destruct (nextmsg_message _ _ _ _ H Hm) as (c1 & E1 & Hw1 & H1). apply stream_nextmsg_now in E1.
  destruct (read_all_receiving sizes _ _ _ _ _ H1 Hs) as (c2 & k & E2 & Hw2 & H2).
  pose proof (receiving_bytes _ _ _ _ _ H2) as Hb2.
  destruct (stream_validmsg_valid c2 ([1] ++ take k m) (drop k m) rest r')
    as (c3 & E3 & _ & Hr & _ & Hd).
  - rewrite <-app_assoc, take_drop. destruct Hw1 as [Hp1 _], Hw2 as [Hp2 _].
    by rewrite Hp2, Hp1.
  - done.
  - rewrite length_drop. lia.
  - by exists c1, c2, c3.
Qed.

(** ** Properties *)

(** C2: a message sent over a Serial layer is received as it was packed: the
    items packed by [a] and sent go out on its wire, and when [b] gets these
    bytes, in any pieces, after any noise without a start mark, it is offered a
    message, reads exactly the encodings of the items whatever sizes it reads in,
    validates it and is left with what follows. *)
Theorem serial_roundtrip a b i l noise rest r' sizes :
  idle a → is_block a = false → proto b = proto a → rmsg (ser b) ≠ RMSG_STX →
  Forall encodable (i :: l) → Z.of_nat (length (message (i :: l))) < 2 ^ 61 →
  bytes noise → STX ∉ noise → Z.of_nat (length noise) < 2 ^ 63 → Forall (λ n, 0 < n) sizes →
  let s := stream_sendmsg (pack_all a (i :: l)).2 in
  delivers (rx (cnet b))
    (noise ++ drop (length (wire (cnet a))) (wire (cnet s.2)) ++ rest) r' →
  s.1 = true ∧
  ∃ b1 b2 b3, stream_nextmsg b = (RPCC_MESSAGE, b1) ∧
    read_all b1 sizes = (pieces ((i :: l) ≫= item_bytes) sizes, b2) ∧
    stream_validmsg b2 = (true, b3) ∧ delivers (rx (cnet b3)) rest r'.
Proof.
  intros Ha Hb Hp Hr Hl Hlen Hn Hs Hnl Hsz.
  destruct (serial_send a i l Ha Hb Hl Hlen) as (c1 & c2 & -> & E2 & _ & Hw & _).
  cbn [snd]. rewrite E2. cbn [fst snd]. rewrite Hw, drop_app_length. intros Hd. split; [done|].
  assert (bytes ((i :: l) ≫= item_bytes)) as Hbm.
  { apply Forall_bind. eapply Forall_impl; [exact Hl|]. by intros j (_ & _ & ?). }
  assert (Z.of_nat (length ((i :: l) ≫= item_bytes)) < 2 ^ 63) as Hlm.
  { unfold message in Hlen. cbn [length] in Hlen. lia. }
  destruct (serial_receive b ((i :: l) ≫= item_bytes) rest r' sizes)
    as (b1 & b2 & b3 & E1 & E3 & E4 & _ & Hrest); [|done..|by exists b1, b2, b3].
  rewrite Hp. apply (awaiting_frame b noise (proto a)); try done.
  by rewrite (is_block_proto _ _ Hp).
Qed.

(** A client for the examples: the integers 42 and 162 packed by a Serial client
    with checksums, whose descriptor takes the bytes in pieces. *)
Definition example_items : list cpitem :=
  [Item CPITEM_INT (AsInt 42) None 0; Item CPITEM_UINT (AsUInt 162) None 0].

Definition example_sender : ctx :=
  rpcclient_stream_new RPCSTREAM_P_SERIAL_CRC 3 4 [] [TxAccept 3; TxIntr; TxAccept 2] [].

Definition example_receiver : ctx :=
  rpcclient_stream_new RPCSTREAM_P_SERIAL_CRC 3 4
    [RxData [7; 0xA3; 0xA2; 1; 0x6a]; RxIntr;
     RxData [0x81; 0x80; 0xAA; 0x02; 0xA3; 167; 42; 226; 123; 0xA2]] [] [].

Lemma example_encodable : Forall encodable example_items.
Proof.
  repeat constructor; try (by apply (bool_decide_unpack _); vm_compute); try done.
  - exists 42. by vm_compute.
  - exists 162. by vm_compute.
Qed.

Lemma serial_roundtrip_witness :
  (stream_sendmsg (pack_all example_sender example_items).2).1 = true ∧
  ∃ b1 b2 b3, stream_nextmsg example_receiver = (RPCC_MESSAGE, b1) ∧
    read_all b1 [2; 100] = (pieces (example_items ≫= item_bytes) [2; 100], b2) ∧
    stream_validmsg b2 = (true, b3) ∧ delivers (rx (cnet b3)) [0xA2] [].
Proof.
  apply (serial_roundtrip example_sender example_receiver _ _ [7; 0xA3] [0xA2] [] [2; 100]);
    try done; try by_evaluation.
  - by repeat constructor.
  - exact example_encodable.
  - vm_compute. repeat constructor.
Defined.

(** The bytes of a Serial message on the wire are the start mark, the escaped
    message, the end mark and, with checksums, the escaped CRC-32 of the escaped
    message; in between there is no control byte, and afterwards the client is
    ready for the next message. *)
Theorem serial_send_frame c i l :
  idle c → is_block c = false → Forall encodable (i :: l) →
  Z.of_nat (length (message (i :: l))) < 2 ^ 61 →
  let c1 := (pack_all c (i :: l)).2 in
  let c2 := (stream_sendmsg c1).2 in
  (stream_sendmsg c1).1 = true ∧
  wire (cnet c2) = wire (cnet c) ++ frame (proto c) (message (i :: l)) ∧
  (∀ b, b ∈ escape (message (i :: l)) → b ≠ STX ∧ b ≠ ETX ∧ b ≠ ATX) ∧
  errnum (cnet c2) = 0 ∧ wmsg (ser c2) ≠ WMSG_DATA ∧ fw c2 = [].
Proof.
  intros Hc Hb Hl Hlen.
  destruct (serial_send c i l Hc Hb Hl Hlen) as (c1 & c2 & -> & E2 & _ & Hw & Hq).
  cbn [snd fst]. rewrite E2. cbn [snd fst]. split; [done|]. split; [done|]. split.
  - intros b Hin. eapply escape_no_control; [|done]. apply bytes_cons; [done|].
    apply Forall_bind. eapply Forall_impl; [exact Hl|]. by intros j (_ & _ & ?).
  - destruct Hq as (_ & _ & _ & m1 & E & Hs). symmetry in E. apply app_eq_nil in E as [-> Hfw].
    by destruct Hs as (? & _ & _ & ? & _).
Qed.

Lemma serial_send_frame_witness :
  let c2 := (stream_sendmsg (pack_all example_sender example_items).2).2 in
  wire (cnet c2) =
    [0xA2; 1; 0x6a; 0x81; 0x80; 0xAA; 0x02; 0xA3; 167; 42; 226; 123] ∧
  wire (cnet c2) = wire (cnet example_sender) ++ frame (proto example_sender) (message example_items).
Proof.
  split; [by vm_compute|]. unfold example_items.
  assert (idle example_sender) as Hi by (by repeat constructor).
  apply (serial_send_frame example_sender _ _ Hi eq_refl example_encodable).
  by vm_compute.
Defined.

(** The checksum [x] is not the one of the bytes, which is so when a byte of them is not
    the one it was computed of. *)
Definition tampered (x : Z) (e : list Z) : Prop :=
  urange 32 x ∧ (x ≠ crc32 e ∨ ∃ pre b1 b2 post, e = pre ++ b1 :: post ∧ byte b2 ∧ b1 ≠ b2 ∧ x = crc32 (pre ++ b2 :: post)).

Lemma tampered_differs x e : bytes e → tampered x e → x ≠ crc32 e.
Proof.
  intros Hb [_ [?|(pre & b1 & b2 & post & -> & Hb2 & Hne & ->)]]; [done|].
  apply bytes_app in Hb as [Hpre [Hb1 Hpost]%Forall_cons]. intros E. apply Hne. symmetry. by apply crc32_one_byte in E.
Qed.

(** C18: with a checksum, a message that was changed on the way is not valid: when the
    escaped message that is received has the checksum of one that differs in one
    byte, or any checksum but its own, the receiver that reads it in any pieces finds
    it invalid, and is left with what follows. *)
Theorem serial_corruption_detected c m x rest r' sizes :
  proto c = RPCSTREAM_P_SERIAL_CRC → tampered x (escape (1 :: m)) →
  awaiting c (escape (1 :: m) ++ ETX :: escape (be_bytes 4 x) ++ rest) r' →
  bytes m → Z.of_nat (length m) < 2 ^ 63 → Forall (λ n, 0 < n) sizes →
  ∃ c1 c2 c3 l, stream_nextmsg c = (RPCC_MESSAGE, c1) ∧ read_all c1 sizes = (l, c2) ∧
    stream_validmsg c2 = (false, c3) ∧ delivers (rx (cnet c3)) rest r'.
Proof.
  intros Hp Hx H Hm Hlen Hs.
  destruct (nextmsg_message _ _ _ _ H Hm) as (c1 & E1 & Hw1 & H1). apply stream_nextmsg_now in E1.
  destruct (read_all_receiving sizes _ _ _ _ _ H1 Hs) as (c2 & k & E2 & Hw2 & H2).
  assert (proto c2 = RPCSTREAM_P_SERIAL_CRC) as Hp2.
  { destruct Hw1 as [Hp1 _], Hw2 as [Hp2 _]. by rewrite Hp2, Hp1. }
  assert (escape (be_bytes 4 x) = sealed (proto c2) x) as Hseal by (unfold sealed; by rewrite decide_True).
  rewrite Hseal in H2. destruct (stream_validmsg_receiving _ _ _ _ _ _ H2) as (c3 & E3 & _ & _ & _ & Hd);
    [apply Hx|rewrite length_drop; lia|].
  exists c1, c2, c3, (pieces m sizes). split; [done|]. split; [done|]. split; [|done].
  rewrite E3, decide_True by done. rewrite <-app_assoc, take_drop. cbn [app].
  f_equal. apply Z.eqb_neq, tampered_differs; [|done]. by apply bytes_escape, bytes_cons.
Qed.

Lemma serial_corruption_detected_witness :
  ∃ c1 c2 c3 l,
    stream_nextmsg (rpcclient_stream_new RPCSTREAM_P_SERIAL_CRC 3 4
      [RxData [0xA2; 1; 0x6b; 0x81; 0x80; 0xAA; 0x02; 0xA3; 167; 42; 226; 123; 9]] [] []) =
      (RPCC_MESSAGE, c1) ∧
    read_all c1 [100] = (l, c2) ∧ stream_validmsg c2 = (false, c3) ∧
    delivers (rx (cnet c3)) [9] [].
Proof.
  apply (serial_corruption_detected _ [0x6b; 0x81; 0x80; 0xA2] (crc32 [1; 0x6a; 0x81; 0x80; 0xAA; 0x02])); try done; try by_evaluation.
  - split; [by vm_compute|]. right. exists [1], 0x6b, 0x6a, [0x81; 0x80; 0xAA; 0x02]. by split_and!.
  - split; [done|]. right. split; [done|]. exists []. split; [constructor|].
    split; [by_evaluation|]. split; [done|]. vm_compute. repeat constructor.
Defined.

(** C19: a message that was given up ([ATX]) or overtaken by the start of another
    one is reported invalid, wherever in it the reader is, and the next message is
    not lost: the reader goes on with it at once.  The message was not cut right
    behind an escape byte. *)
Theorem serial_interrupted_recovers c got d b noise l r' :
  in_message c got d (b :: noise ++ l) r' → Z.of_nat (length d) < 2 ^ 63 →
  b = STX ∧ noise = [] ∨
  (b = ATX ∧ ∃ g, noise = g ++ [STX] ∧ bytes g ∧ STX ∉ g ∧ Z.of_nat (length g) < 2 ^ 63) →
  ∃ c', stream_validmsg c = (false, c') ∧ awaiting c' l r'.
Proof.
  intros H Hlen Hb.
  assert (b = STX ∨ b = ATX) as Hb' by naive_solver.
  destruct (flushmsg_abort _ _ _ _ _ _ Hb' H Hlen) as (c1 & E & Hw & H1).
  exists c1. unfold stream_validmsg. rewrite E, (proj1 H1), (validate_interrupted _ _ _ _ H1).
  split; [done|]. destruct H1 as (Hbl & Hr & Hd). split; [done|].
  destruct Hb as [[-> ->]|(-> & g & -> & Hg & Hn & Hgl)].
  - left. done.
  - right. rewrite Hr. split; [done|]. exists g. rewrite <-app_assoc in Hd. done.
Qed.

Lemma serial_interrupted_recovers_witness :
  let c := (stream_nextmsg (rpcclient_stream_new RPCSTREAM_P_SERIAL 3 4
             [RxData [0xA2; 1; 0x6b; 0x81; 0xA4; 9; 0xA2; 1; 0x6c; 0xA3]] [] [])).2 in
  ∃ c', stream_validmsg c = (false, c') ∧ awaiting c' [1; 0x6c; 0xA3] [].
Proof.
  apply (serial_interrupted_recovers _ [1] [0x6b; 0x81] ATX [9; STX]); [|done|].
  - split_and!; try done; try by_evaluation. vm_compute. repeat constructor.
  - right. split; [done|]. exists [9]. split; [done|]. split; [by_evaluation|].
    split; [by_evaluation|done].
Defined.

(** *** Block *)

Lemma stream_pack_block c w0 m i :
  block_queued c w0 m → encodable i →
  Z.of_nat (length m) + Z.of_nat (length (item_bytes i)) < 2 ^ 61 →
  ∃ c', stream_pack c i = (true, c') ∧
    block_queued c' w0 ((if decide (m = []) then [1] else m) ++ item_bytes i).
Proof.
  intros Hq (Hp & Hne & Hb) Hlen. pose proof Hq as (Hbl & _ & Hm & _).
  assert (∃ c1, block_queued c1 w0 (if decide (m = []) then [1] else m) ∧
    stream_pack c i = let '(ok, c) := fw_write c1 (item_bytes i) in
      (ok && (0 <? Z.of_nat (length (item_bytes i))), c)) as (c1 & H1 & ->).
  { unfold stream_pack, wbuflen. rewrite Hbl, Hm, stream_pack_bytes by done. cbn [andb negb wf_out].
    rewrite orb_false_r. destruct (decide (m = [])) as [->|Hmne].
    - cbn [length]. change (Z.of_nat 0 =? 0) with true. cbv iota.
      destruct (fw_write_block _ _ _ [1] Hq) as (c1 & -> & H1 & _); [done|].
      exists c1. split; [done|]. by rewrite (proj1 H1).
    - rewrite (proj2 (Z.eqb_neq _ 0)) by (destruct m; [done|simpl length; lia]).
      by exists c. }
  assert (Z.of_nat (length (if decide (m = []) then [1] else m)) ≤ Z.of_nat (length m) + 1) as Hl
    by (destruct (decide (m = [])); simpl length; lia).
  destruct (fw_write_block _ _ _ (item_bytes i) H1) as (c2 & -> & H2 & _); [lia|].
  exists c2. rewrite (proj2 (Z.ltb_lt 0 _)); [done|].
  destruct (item_bytes i); [done|simpl length; lia].
Qed.

Lemma pack_all_block l : ∀ c w0 m,
  block_queued c w0 m → m ≠ [] → Forall encodable l →
  Z.of_nat (length m) + Z.of_nat (length (l ≫= item_bytes)) < 2 ^ 61 →
  ∃ c', pack_all c l = (true, c') ∧ block_queued c' w0 (m ++ (l ≫= item_bytes)).
Proof.
  induction l as [|i l IH]; intros c w0 m Hq Hm Hl Hlen.
  { exists c. simpl. by rewrite app_nil_r. }
  apply Forall_cons in Hl as [Hi Hl]. cbn [pack_all mbind list_bind] in *. rewrite length_app in Hlen.
  destruct (stream_pack_block _ _ _ i Hq Hi) as (c1 & -> & H1); [lia|].
  rewrite decide_False in H1 by done.
  destruct (IH c1 w0 _ H1) as (c2 & -> & H2);
    [by destruct m|done|rewrite length_app; unfold mbind in *; lia|].
  exists c2. split; [done|]. by rewrite <-app_assoc in H2.
Qed.

Lemma block_send c i l :
  idle c → is_block c = true → Forall encodable (i :: l) →
  Z.of_nat (length (message (i :: l))) < 2 ^ 60 →
  ∃ c1 c2, pack_all c (i :: l) = (true, c1) ∧ stream_sendmsg c1 = (true, c2) ∧
    block_queued c2 (wire (cnet c) ++ block_frame (message (i :: l))) [].
Proof.
  intros (He & Ha & _ & _ & Hw & Hok) Hb [Hi Hl]%Forall_cons Hlen. unfold message in *.
  cbn [mbind list_bind length] in Hlen. rewrite length_app in Hlen.
  assert (block_queued c (wire (cnet c)) []) as Hq by (by repeat split; try apply Hok).
  destruct (stream_pack_block _ _ _ i Hq Hi) as (c1 & E1 & H1); [simpl length; lia|].
  rewrite decide_True in H1 by done. cbn [app] in H1.
  destruct (pack_all_block l c1 _ _ H1) as (c2 & E2 & H2);
    [done|done|cbn [length]; unfold mbind in *; lia|].
  destruct (stream_sendmsg_block _ _ _ H2) as (c3 & E3 & H3 & _);
    [done|cbn [app length]; rewrite length_app; unfold mbind in *; lia|].
  exists c2, c3. cbn [pack_all]. rewrite E1, E2. by split.
Qed.

Lemma read_all_block sizes : ∀ c d t r',
  block_rest c d t r' → Forall (λ n, 0 < n) sizes →
  ∃ c' d', read_all c sizes = (pieces d sizes, c') ∧ block_rest c' d' t r'.
Proof.
  induction sizes as [|n sizes IH]; intros c d t r' H Hs; [by exists c, d|].
  apply Forall_cons in Hs as [Hn Hs]. cbn [read_all pieces].
  destruct (fr_fread_block _ _ _ _ n H Hn) as (c1 & -> & _ & H1).
  destruct (IH _ _ _ _ H1 Hs) as (c2 & d' & -> & H2). by exists c2, d'.
Qed.

Lemma block_receive c d0 m rest r' sizes :
  block_rest c d0 (block_frame (1 :: m) ++ rest) r' → Z.of_nat (length m) < 2 ^ 62 →
  Forall (λ n, 0 < n) sizes →
  ∃ c1 c2 c3, stream_nextmsg c = (RPCC_MESSAGE, c1) ∧ read_all c1 sizes = (pieces m sizes, c2) ∧
    stream_validmsg c2 = (true, c3) ∧ block_rest c3 [] rest r'.
Proof.
  intros H Hlen Hs.
  destruct (flushmsg_block _ _ _ _ H) as (c0 & E0 & _ & (Hb0 & _ & _ & Hd0)).
  assert (Z.of_nat (length (1 :: m)) < 2 ^ 63) as Hlen1 by (cbn [length]; lia).
  destruct (block_nextmsg_frame _ _ _ _ Hb0 Hlen1 Hd0) as (c1 & E1 & _ & H1).
  destruct (cookie_read_block_rest _ _ _ _ 1 H1) as (k & c2 & Hk & Hk1 & E2 & _ & H2); [done|done|].
  assert (k = 1%nat) as -> by lia.
  destruct (read_all_block sizes _ _ _ _ H2 Hs) as (c3 & d' & E3 & H3).
  destruct (flushmsg_block _ _ _ _ H3) as (c4 & E4 & _ & H4).
  exists c2, c3, c4. split_and!; [|done| |done].
  - apply stream_nextmsg_now. unfold nextmsg_step, fr_getc. by rewrite (proj1 H), E0, E1, E2.
  - unfold stream_validmsg. by rewrite E4, (proj1 H4).
Qed.

(** C20: a message sent over a Block layer is received as it was packed: the items
    packed by [a] and sent go out as the length and the bytes of the message, and
    when [b] gets these bytes in any pieces, after a message it left unread, it is
    offered a message, reads exactly the encodings of the items whatever sizes it
    reads in, and is left with what follows. *)
Theorem block_roundtrip a b d0 i l rest r' sizes :
  idle a → is_block a = true → Forall encodable (i :: l) →
  Z.of_nat (length (message (i :: l))) < 2 ^ 60 → Forall (λ n, 0 < n) sizes →
  let s := stream_sendmsg (pack_all a (i :: l)).2 in
  block_rest b d0 (drop (length (wire (cnet a))) (wire (cnet s.2)) ++ rest) r' →
  s.1 = true ∧ fault (blk s.2) = false ∧
  ∃ b1 b2 b3, stream_nextmsg b = (RPCC_MESSAGE, b1) ∧
    read_all b1 sizes = (pieces ((i :: l) ≫= item_bytes) sizes, b2) ∧
    stream_validmsg b2 = (true, b3) ∧ block_rest b3 [] rest r'.
Proof.
  intros Ha Hb Hl Hlen Hsz.
  destruct (block_send a i l Ha Hb Hl Hlen) as (c1 & c2 & -> & E2 & Hq).
  cbn [snd]. rewrite E2. cbn [fst snd]. destruct Hq as (_ & (_ & _ & Hf & _) & _ & Hw & _).
  rewrite Hw, drop_app_length. intros Hd. split; [done|]. split; [done|].
  apply (block_receive b d0); [done| |done]. unfold message in Hlen. cbn [length] in Hlen. lia.
Qed.

Definition example_block (rxs : list rxev) : ctx :=
  rpcclient_stream_new RPCSTREAM_P_BLOCK 3 4 rxs [TxAccept 1; TxIntr] [true].

Lemma block_roundtrip_witness :
  (stream_sendmsg (pack_all (example_block []) example_items).2).1 = true ∧
  fault (blk (stream_sendmsg (pack_all (example_block []) example_items).2).2) = false ∧
  ∃ b1 b2 b3,
    stream_nextmsg (example_block [RxData [5; 1; 0x6a]; RxIntr; RxData [0x81; 0x80; 0xA2; 2]]) =
      (RPCC_MESSAGE, b1) ∧
    read_all b1 [2; 100] = (pieces (example_items ≫= item_bytes) [2; 100], b2) ∧
    stream_validmsg b2 = (true, b3) ∧ block_rest b3 [] [2] [].
Proof.
  assert (idle (example_block [])) as Hi.
  { split_and!; try by_evaluation; try done; by repeat constructor. }
  apply (block_roundtrip (example_block []) _ [] _ _ [2] [] [2; 100] Hi eq_refl example_encodable).
  - by_evaluation.
  - by_evaluation.
  - split_and!; [done|done|by_evaluation|]. vm_compute. repeat constructor.
Defined.

(** ** Behaviour that departs from the intention *)

(** [fault]: the size of the buffer is updated before [realloc] succeeds, so after
    a failed one the next write goes behind the allocation. *)
Example block_realloc_failure :
  let c := rpcclient_stream_new RPCSTREAM_P_BLOCK 3 4 [] [] [true; false] in
  let '(_, c1) := cookie_write_block c (replicate 7 1) in
  let '(r2, c2) := cookie_write_block c1 (replicate 4 2) in
  let '(r3, c3) := cookie_write_block c2 (replicate 4 3) in
  r2 = 0 ∧ r3 = 4 ∧ fault (blk c3) = true.
Proof. by vm_compute. Qed.

(** A timeout of a [write] in the middle of a message loses the bytes of the
    message, and yet the message is reported as sent when the end mark can be
    written. *)
Example serial_timeout_reported_sent :
  let c := rpcclient_stream_new RPCSTREAM_P_SERIAL 3 4 [] [TxTimeout] [] in
  let '(r, c2) := stream_sendmsg (pack_all c example_items).2 in
  r = true ∧ wire (cnet c2) = [ETX].
Proof. by vm_compute. Qed.

(** A timeout inside of the length of a Block message is taken for a byte. *)
Example block_size_timeout :
  let '(r, c) := rpcclient_stream_block_nextmsg (example_block [RxData [0x80]; RxTimeout]) in
  r = RPCC_MESSAGE ∧ rmsgoff (blk c) = 2 ^ 64 - 2.
Proof. by vm_compute. Qed.

(** A start mark right after an escape byte is lost: the reader does not notice the
    message that follows. *)
Example serial_escape_swallows_start :
  let c := rpcclient_stream_new RPCSTREAM_P_SERIAL 3 4
             [RxData [0xA2; 1; 0xAA; 0xA2; 1; 0x6a; 0xA3]] [] [] in
  let '(r1, c1) := stream_nextmsg c in
  let '(v1, c2) := stream_validmsg c1 in
  r1 = RPCC_MESSAGE ∧ v1 = false ∧ (stream_nextmsg c2).1 = RPCC_NOTHING.
Proof. by vm_compute. Qed.
