(* ===== verification/Nbool.v ===== *)
(** * Sets of client identifiers ([libshvbroker/nbool.h])

    A growing array of bits: [None] is the [NULL] pointer, [Some vals] the words
    of the array.  Represented as the set of the numbers whose bit is set; the
    array is trimmed, so that [NULL] is the only representation of the empty
    set. *)

From stdpp Require Import gmap.
From S2P Require Import Prelude.

(** ** Definitions *)

Definition NBOOL_N : Z := 32.

Definition nbool_t : Type := option (list Z).

Definition cnt (v : nbool_t) : Z := match v with Some vals => Z.of_nat (length vals) | None => 0 end.

Definition nbool_valid_index (v : nbool_t) (i : Z) : bool :=
  match v with Some _ => i <? cnt v * NBOOL_N | None => false end.

Definition nbool_incease_size (v : nbool_t) (c : Z) : nbool_t :=
  let vals := default [] v in
  Some (vals ++ replicate (Z.to_nat (c - cnt v)) 0).

(** The word of a bit and the mask [1 << (i % NBOOL_N)], an [int]. *)
Definition word (i : Z) : nat := Z.to_nat (i / NBOOL_N).
Definition mask (i : Z) : Z := i32 (Z.shiftl 1 (i mod NBOOL_N)).

Definition nbool_set (v : nbool_t) (i : Z) : nbool_t :=
  let v := if nbool_valid_index v i then v else nbool_incease_size v (i / NBOOL_N + 1) in
  match v with
  | Some vals => Some (<[word i := Z.lor (default 0 (vals !! word i)) (u32 (mask i))]> vals)
  | None => None
  end.

(** Number of words without the zeros at the end. *)
Fixpoint trim (vals : list Z) : list Z :=
  match vals with
  | [] => []
  | w :: vals' =>
      match trim vals' with
      | [] => if w =? 0 then [] else [w]
      | t => w :: t
      end
  end.

Definition nbool_clear (v : nbool_t) (i : Z) : nbool_t :=
  if negb (nbool_valid_index v i) then v
  else
    match v with
    | Some vals =>
        let vals := <[word i := Z.land (default 0 (vals !! word i)) (u32 (Z.lnot (mask i)))]> vals in
        match trim vals with [] => None | t => Some t end
    | None => None
    end.

(** The words of both; the ones [o] does not have are kept. *)
Fixpoint or_words (v o : list Z) : list Z :=
  match v, o with
  | x :: v', y :: o' => Z.lor x y :: or_words v' o'
  | _, _ => v
  end.

Definition nbool_or (v o : nbool_t) : nbool_t :=
  match o with
  | None => v
  | Some ovals =>
      let v := if cnt v <? cnt o then nbool_incease_size v (cnt o) else v in
      match v with
      | Some vals => Some (or_words vals ovals)
      | None => None
      end
  end.

Definition nbool (v : nbool_t) (i : Z) : bool :=
  if negb (nbool_valid_index v i) then false
  else
    match v with
    | Some vals => has (default 0 (vals !! word i)) (u32 (mask i))
    | None => false
    end.

(** The numbers [for_nbool] runs through. *)
Definition for_nbool (v : nbool_t) : list Z := filter (λ i, nbool v i = true) (seqZ 0 (cnt v * NBOOL_N)).

(** [__builtin_popcount] of a word. *)
Definition popcount (w : Z) : Z := Z.of_nat (length (filter (λ i, Z.testbit w i = true) (seqZ 0 32))).

(** The branch for compilers with this builtin; [None] is an access through the [NULL]
    pointer. *)
Definition nbool_nbits (v : nbool_t) : option Z := foldr (λ w n, popcount w + n) 0 <$> v.

(** ** Invariant *)

Definition nbool_wf (v : nbool_t) : Prop :=
  match v with
  | None => True
  | Some vals => Forall (urange 32) vals ∧ ∃ w, last vals = Some w ∧ w ≠ 0
  end.

(** ** Lemmas *)

Lemma mask_u32 i : 0 ≤ i → u32 (mask i) = 2 ^ (i mod 32).
Proof.
  intros Hi. unfold mask, NBOOL_N. rewrite uwrap_swrap, Z.shiftl_mul_pow2, Z.mul_1_l
    by (apply Z.mod_pos_bound; lia).
  apply uwrap_small. unfold urange. pose proof (Z.mod_pos_bound i 32 ltac:(lia)).
  split; [lia|]. apply Z.pow_lt_mono_r; lia.
Qed.

Lemma nmask_u32 i j :
  0 ≤ i → 0 ≤ j < 32 → Z.testbit (u32 (Z.lnot (mask i))) j = negb (j =? i mod 32).
Proof.
  intros Hi Hj. unfold uwrap. rewrite Z.mod_pow2_bits_low, Z.lnot_spec by lia. f_equal.
  pose proof (mask_u32 i Hi) as E. unfold uwrap in E.
  rewrite <-(Z.mod_pow2_bits_low (mask i) 32) by lia. rewrite E. pose proof (Z.mod_pos_bound i 32 ltac:(lia)).
  rewrite Z.pow2_bits_eqb by lia. by rewrite Z.eqb_sym.
Qed.

(** The bit [i] of an array of words, zero outside of it. *)
Definition bit (vals : list Z) (i : Z) : bool := Z.testbit (default 0 (vals !! word i)) (i mod 32).

Lemma nbool_bit v i : 0 ≤ i → nbool v i = bit (default [] v) i.
Proof.
  intros Hi. unfold nbool, bit, nbool_valid_index. destruct v as [vals|]; cbn [default from_option id cnt negb].
  2:{ by rewrite lookup_nil, Z.bits_0. }
  assert (0 ≤ i mod 32) by (apply Z.mod_pos_bound; lia).
  destruct (Z.ltb_spec i (Z.of_nat (length vals) * NBOOL_N)) as [Hlt|Hge]; cbn [negb].
  - rewrite mask_u32, has_pow2 by done. done.
  - rewrite lookup_ge_None_2; [by rewrite Z.bits_0|].
    unfold word, NBOOL_N in *.
    assert (Z.of_nat (length vals) ≤ i / 32) by (apply Z.div_le_lower_bound; lia). lia.
Qed.

Lemma word_eq i j : 0 ≤ i → 0 ≤ j → word i = word j → i mod 32 = j mod 32 → i = j.
Proof.
  unfold word, NBOOL_N. intros Hi Hj Hw Hm.
  pose proof (Z.div_mod i 32). pose proof (Z.div_mod j 32).
  apply Z2Nat.inj in Hw; [lia|apply Z.div_pos; lia|apply Z.div_pos; lia].
Qed.

Lemma bit_zeros vals n i : bit (vals ++ replicate n 0) i = bit vals i.
Proof.
  unfold bit. destruct (decide (word i < length vals)%nat) as [Hlt|Hge].
  - by rewrite lookup_app_l.
  - rewrite lookup_app_r, (lookup_ge_None_2 vals) by lia. cbn [default from_option id].
    destruct (replicate n 0 !! _) eqn:E; [|done]. apply lookup_replicate in E as [-> _]. done.
Qed.

Lemma bit_insert vals n w i :
  (n < length vals)%nat →
  bit (<[n := w]> vals) i = if decide (word i = n) then Z.testbit w (i mod 32) else bit vals i.
Proof.
  intros Hn. unfold bit. destruct (decide (word i = n)) as [->|Hne].
  - by rewrite list_lookup_insert_eq.
  - by rewrite list_lookup_insert_ne.
Qed.

Lemma nbool_incease_length v c :
  cnt v ≤ c → 0 ≤ c → Z.of_nat (length (default [] (nbool_incease_size v c))) = c.
Proof.
  intros Hc H0. unfold nbool_incease_size. cbn [default from_option id]. rewrite length_app, length_replicate.
  destruct v; simpl in *; lia.
Qed.

Lemma nbool_valid_word v i :
  0 ≤ i → nbool_valid_index v i = true ↔ (word i < length (default [] v))%nat.
Proof.
  intros Hi. unfold nbool_valid_index, word, NBOOL_N. destruct v as [vals|]; cbn [default from_option id cnt length].
  - rewrite Z.ltb_lt. split; intros H.
    + assert (i / 32 < Z.of_nat (length vals)) by (apply Z.div_lt_upper_bound; lia).
      pose proof (Z.div_pos i 32). lia.
    + pose proof (Z.div_mod i 32). pose proof (Z.mod_pos_bound i 32). lia.
  - split; [done|lia].
Qed.

(** What the operations do to the set. *)
Lemma nbool_set_spec v i j :
  0 ≤ i → 0 ≤ j → nbool (nbool_set v i) j = (i =? j) || nbool v j.
Proof.
  intros Hi Hj. rewrite !nbool_bit by done. unfold nbool_set.
  set (v' := if nbool_valid_index v i then v else _).
  assert ((word i < length (default [] v'))%nat ∧ ∀ k, bit (default [] v') k = bit (default [] v) k)
    as [Hw Hb].
  { unfold v'. destruct (nbool_valid_index v i) eqn:E; [by rewrite <-nbool_valid_word|].
    split; [|intros k; apply bit_zeros].
    assert (0 ≤ i / NBOOL_N) by (apply Z.div_pos; unfold NBOOL_N; lia).
    assert (cnt v ≤ i / NBOOL_N + 1).
    { apply not_true_iff_false in E. rewrite nbool_valid_word in E by done. unfold word in E.
      destruct v; simpl in *; lia. }
    pose proof (nbool_incease_length v (i / NBOOL_N + 1)) as Hl. unfold word. lia. }
  destruct v' as [vals|]; [|simpl in Hw; lia]. cbn [default from_option id] in *. rewrite <-Hb, bit_insert by done.
  rewrite mask_u32 by done. pose proof (Z.mod_pos_bound i 32 ltac:(lia)).
  pose proof (Z.mod_pos_bound j 32 ltac:(lia)).
  destruct (decide (word j = word i)) as [E|Hne].
  - rewrite Z.lor_spec, Z.pow2_bits_eqb by lia. unfold bit. rewrite E, orb_comm. f_equal.
    destruct (Z.eqb_spec i j) as [->|Hij]; [by apply Z.eqb_eq|]. apply Z.eqb_neq. intros Hm.
    apply Hij. by apply word_eq.
  - destruct (Z.eqb_spec i j) as [->|]; [done|done].
Qed.

Lemma bit_trim vals i : bit (trim vals) i = bit vals i.
Proof.
  unfold bit. generalize (word i). induction vals as [|w vals IH]; intros n; [done|]. simpl.
  destruct (trim vals) as [|t ts] eqn:E.
  - destruct n as [|n]; simpl.
    + by destruct (Z.eqb_spec w 0) as [->|].
    + rewrite <-IH. by destruct (w =? 0).
  - destruct n as [|n]; [done|]. simpl. by rewrite <-IH.
Qed.

Lemma nbool_clear_spec v i j :
  0 ≤ i → 0 ≤ j → nbool (nbool_clear v i) j = negb (i =? j) && nbool v j.
Proof.
  intros Hi Hj. unfold nbool_clear. destruct (nbool_valid_index v i) eqn:E; cbn [negb].
  2:{ destruct (Z.eqb_spec i j) as [->|]; [|done]. cbn [negb andb]. unfold nbool. by rewrite E. }
  apply nbool_valid_word in E as Hw; [|done]. destruct v as [vals|]; [|done]. cbn [default from_option id] in *.
  rewrite (nbool_bit (Some vals)) by done. cbn [default from_option id].
  assert (∀ l, nbool (match trim l with [] => None | t => Some t end) j = bit l j) as ->.
  { intros l. rewrite nbool_bit, <-(bit_trim l) by done. by destruct (trim l). }
  rewrite bit_insert by done. pose proof (Z.mod_pos_bound i 32 ltac:(lia)).
  pose proof (Z.mod_pos_bound j 32 ltac:(lia)).
  destruct (decide (word j = word i)) as [Ew|Hne].
  - rewrite Z.land_spec, nmask_u32 by done. unfold bit. rewrite Ew, andb_comm. f_equal. f_equal.
    destruct (Z.eqb_spec i j) as [->|Hij]; [by apply Z.eqb_eq|]. apply Z.eqb_neq. intros Hm.
    apply Hij. by apply word_eq.
  - destruct (Z.eqb_spec i j) as [->|]; [done|done].
Qed.

Lemma bit_or_words a o i : (length o ≤ length a)%nat → bit (or_words a o) i = bit a i || bit o i.
Proof.
  unfold bit. generalize (word i). revert o. induction a as [|x a IH]; intros [|y o] n Hl; simpl in *.
  - by rewrite Z.bits_0.
  - lia.
  - destruct (_ !! n); simpl; by rewrite ?Z.bits_0, ?orb_false_r.
  - destruct n as [|n]; simpl; [by rewrite Z.lor_spec|]. apply IH. lia.
Qed.

Lemma nbool_or_spec v o i : 0 ≤ i → nbool (nbool_or v o) i = nbool v i || nbool o i.
Proof.
  intros Hi. rewrite !nbool_bit by done. unfold nbool_or. destruct o as [ovals|].
  2:{ cbn [default from_option id]. unfold bit at 3. by rewrite lookup_nil, Z.bits_0, orb_false_r. }
  set (v' := if cnt v <? cnt (Some ovals) then _ else v).
  assert ((length ovals ≤ length (default [] v'))%nat ∧
    (ovals ≠ [] → is_Some v') ∧ bit (default [] v') i = bit (default [] v) i) as (Hl & Hs & Hb).
  { unfold v'. cbn [cnt]. destruct (Z.ltb_spec (cnt v) (Z.of_nat (length ovals))) as [Hlt|Hge].
    - pose proof (nbool_incease_length v (Z.of_nat (length ovals))). split; [lia|].
      split; [by eexists|apply bit_zeros].
    - split; [destruct v; simpl in *; lia|]. split; [|done]. destruct v as [|]; [by eexists|].
      destruct ovals; simpl in *; [done|lia]. }
  rewrite <-Hb. destruct v' as [vals|]; cbn [default from_option id] in *; [by apply bit_or_words|].
  destruct ovals as [|o ov]; [|by destruct (Hs ltac:(done)) as [? [=]]]. unfold bit. by rewrite lookup_nil, Z.bits_0.
Qed.

(** ** The invariant is kept *)

Lemma urange_mask i : 0 ≤ i → urange 32 (u32 (mask i)).
Proof. intros. by apply uwrap_range. Qed.

Lemma urange_word vals n : Forall (urange 32) vals → urange 32 (default 0 (vals !! n)).
Proof.
  intros H. destruct (vals !! n) eqn:E; simpl; [by eapply Forall_lookup_1|].
  unfold urange. lia.
Qed.

Lemma urange_land w a b : 0 ≤ w → urange w a → urange w (Z.land a b).
Proof.
  unfold urange. intros Hw Ha. assert (0 ≤ Z.land a b) by (apply Z.land_nonneg; lia).
  assert (Z.land a b / 2 ^ w = 0) as H0.
  { by rewrite <-Z.shiftr_div_pow2, Z.shiftr_land, Z.shiftr_div_pow2, Z.div_small by lia. }
  apply Z.div_small_iff in H0; lia.
Qed.

Lemma lor_nonzero a b : a ≠ 0 → Z.lor a b ≠ 0.
Proof. intros Ha H. by apply Z.lor_eq_0_iff in H as [-> _]. Qed.

(** Setting a bit of the last word, or of a word before a non-zero last one. *)
Lemma last_insert vals n w :
  vals ≠ [] → (n < length vals)%nat → w ≠ 0 →
  (n = length vals - 1)%nat ∨ (∃ w', last vals = Some w' ∧ w' ≠ 0) →
  ∃ w', last (<[n := w]> vals) = Some w' ∧ w' ≠ 0.
Proof.
  intros Hv Hn Hw Hor. rewrite last_lookup, length_insert.
  destruct (decide (n = Nat.pred (length vals))) as [->|Hne].
  - exists w. by rewrite list_lookup_insert_eq by lia.
  - rewrite list_lookup_insert_ne by lia. destruct Hor as [->|(w' & Hl & ?)]; [lia|].
    rewrite last_lookup in Hl. by exists w'.
Qed.

Lemma nbool_set_wf v i : 0 ≤ i → nbool_wf v → nbool_wf (nbool_set v i).
Proof.
  intros Hi Hwf. unfold nbool_set.
  assert (0 ≤ i / NBOOL_N) as Hd by (apply Z.div_pos; unfold NBOOL_N; lia).
  pose proof (Z.mod_pos_bound i 32 ltac:(lia)).
  assert (∀ a, Z.lor a (u32 (mask i)) ≠ 0) as Hnz.
  { intros a. rewrite Z.lor_comm. apply lor_nonzero. rewrite mask_u32 by done. lia. }
  destruct (nbool_valid_index v i) eqn:E.
  - apply nbool_valid_word in E; [|done]. destruct v as [vals|]; [|done]. simpl in E.
    destruct Hwf as [Hr Hl]. split.
    + apply Forall_insert; [done|]. apply urange_lor; [lia|by apply urange_word|by apply urange_mask].
    + apply last_insert; [by intros ->; simpl in E; lia|done|done|by right].
  - unfold nbool_incease_size. set (vals := default [] v ++ _).
    assert (cnt v ≤ i / NBOOL_N) as Hc.
    { apply not_true_iff_false in E. rewrite nbool_valid_word in E by done. unfold word in E.
      destruct v; simpl in *; lia. }
    assert (length vals = S (word i)) as Hlen.
    { unfold vals, word. rewrite length_app, length_replicate. destruct v; simpl in *; lia. }
    assert (Forall (urange 32) vals) as Hr.
    { apply Forall_app. split; [destruct v; [apply Hwf|constructor]|].
      apply Forall_replicate. unfold urange. lia. }
    split.
    + apply Forall_insert; [done|]. apply urange_lor; [lia|by apply urange_word|by apply urange_mask].
    + apply last_insert; [by intros E0; rewrite E0 in Hlen|lia|done|left; lia].
Qed.

Lemma trim_wf vals :
  Forall (urange 32) vals → nbool_wf (match trim vals with [] => None | t => Some t end).
Proof.
  intros Hr. assert (Forall (urange 32) (trim vals) ∧
    (trim vals = [] ∨ ∃ w, last (trim vals) = Some w ∧ w ≠ 0)) as [Hr' Hl].
  { induction Hr as [|w vals Hw Hr [IHr IHl]]; simpl; [by auto|].
    destruct (trim vals) as [|t ts].
    - destruct (Z.eqb_spec w 0); [by auto|]. split; [by constructor|]. right. by exists w.
    - split; [by constructor|]. right. destruct IHl as [|IHl]; [done|]. by rewrite last_cons_cons. }
  destruct (trim vals) as [|t ts]; [done|]. split; [done|]. by destruct Hl.
Qed.

Lemma nbool_clear_wf v i : nbool_wf v → nbool_wf (nbool_clear v i).
Proof.
  intros Hwf. unfold nbool_clear. destruct (nbool_valid_index v i); [|done]. cbn [negb].
  destruct v as [vals|]; [|done]. destruct Hwf as [Hr _]. apply trim_wf, Forall_insert; [done|].
  apply urange_land; [lia|by apply urange_word].
Qed.

Lemma or_words_range a o :
  Forall (urange 32) a → Forall (urange 32) o → Forall (urange 32) (or_words a o).
Proof.
  intros Ha. revert o. induction Ha as [|x a Hx Ha IH]; intros [|y o] Ho; simpl; try by constructor.
  apply Forall_cons in Ho as [Hy Ho]. constructor; [by apply urange_lor|by apply IH].
Qed.

Lemma last_or_words a o :
  (length o ≤ length a)%nat →
  (∃ w, last a = Some w ∧ w ≠ 0) ∨
  (length o = length a ∧ ∃ w, last o = Some w ∧ w ≠ 0) →
  ∃ w, last (or_words a o) = Some w ∧ w ≠ 0.
Proof.
  revert o. induction a as [|x a IH]; intros [|y o] Hl H; simpl in *; try lia.
  - destruct H as [(? & ? & _)|[_ (? & ? & _)]]; done.
  - destruct H as [(w & Hw & ?)|[[=] _]]. by exists w.
  - destruct a as [|x' a].
    + destruct o; [|simpl in *; lia]. exists (Z.lor x y). split; [done|].
      destruct H as [(w & [= ->] & ?)|[_ (w & [= ->] & ?)]]; [by apply lor_nonzero|].
      rewrite Z.lor_comm. by apply lor_nonzero.
    + destruct (IH o) as (w & Hw & ?); [simpl in *; lia| |].
      { destruct H as [(w & Hw & ?)|[Hlen (w & Hw & ?)]]; [left; by exists w|].
        right. split; [lia|]. exists w. split; [|done].
        destruct o; [simpl in *; lia|]. done. }
      exists w. split; [|done]. by rewrite last_cons, Hw.
Qed.

Lemma nbool_or_wf v o : nbool_wf v → nbool_wf o → nbool_wf (nbool_or v o).
Proof.
  intros Hv Ho. unfold nbool_or. destruct o as [ovals|]; [|done]. destruct Ho as [Hor Hol].
  cbn [cnt]. destruct (Z.ltb_spec (cnt v) (Z.of_nat (length ovals))) as [Hlt|Hge].
  - pose proof (nbool_incease_length v (Z.of_nat (length ovals))) as Hlen.
    unfold nbool_incease_size in *. set (vals := default [] v ++ _) in *. cbn [default from_option id] in Hlen.
    assert (Forall (urange 32) vals) as Hr.
    { apply Forall_app. split; [destruct v; [apply Hv|constructor]|].
      apply Forall_replicate. unfold urange. lia. }
    split; [by apply or_words_range|]. apply last_or_words; [lia|]. right. split; [lia|done].
  - destruct v as [vals|].
    + destruct Hv as [Hr Hl]. split; [by apply or_words_range|].
      apply last_or_words; [simpl in *; lia|by left].
    + destruct Hol as (w & Hw & _). destruct ovals; [done|simpl in *; lia].
Qed.

(** [NULL] is the only empty set. *)
Lemma nbool_empty v : nbool_wf v → v = None ↔ ∀ i, 0 ≤ i → nbool v i = false.
Proof.
  intros Hwf. split; [by intros ->|]. intros H. destruct v as [vals|]; [|done]. exfalso.
  destruct Hwf as [Hr (w & Hl & Hw)]. rewrite last_lookup in Hl.
  assert (urange 32 w) as Hwr by by eapply Forall_lookup_1.
  unfold urange in Hwr. set (b := Z.log2 w).
  assert (0 ≤ b < 32) as Hb by (split; [apply Z.log2_nonneg|apply Z.log2_lt_pow2; lia]).
  assert (Z.testbit w b = true) as Ht by (apply Z.bit_log2; lia).
  set (n := Nat.pred (length vals)) in *.
  specialize (H (Z.of_nat n * 32 + b) ltac:(lia)). rewrite nbool_bit in H by lia.
  unfold bit, word, NBOOL_N in H. cbn [default from_option id] in H.
  rewrite Z.div_add_l, Z.div_small, Z.add_0_r, Nat2Z.id, Hl in H by lia.
  rewrite Z.add_comm, Z.mod_add, Z.mod_small in H by lia. simpl in H. congruence.
Qed.

(** The loop runs through the members. *)
Lemma elem_of_for_nbool v i : i ∈ for_nbool v ↔ 0 ≤ i ∧ nbool v i = true.
Proof.
  unfold for_nbool. rewrite list_elem_of_filter, elem_of_seqZ. split; [intuition lia|].
  intros [Hi Hb]. split; [done|]. split; [lia|]. unfold nbool, nbool_valid_index in Hb.
  destruct v as [vals|]; [|done]. destruct (Z.ltb_spec i (cnt (Some vals) * NBOOL_N)); [lia|done].
Qed.

Lemma for_nbool_NoDup v : NoDup (for_nbool v).
Proof. apply NoDup_filter, NoDup_seqZ. Qed.

Lemma bit_cons w vals i : 0 ≤ i → bit (w :: vals) (32 + i) = bit vals i.
Proof.
  intros Hi. unfold bit, word, NBOOL_N. replace (32 + i) with (i + 1 * 32) by lia.
  rewrite Z.div_add, Z.mod_add by lia. pose proof (Z.div_pos i 32).
  by replace (Z.to_nat (i / 32 + 1)) with (S (Z.to_nat (i / 32))) by lia.
Qed.

Lemma filter_ext_in {A} (P Q : A → Prop) `{∀ x, Decision (P x)} `{∀ x, Decision (Q x)} (l : list A) :
  (∀ x, x ∈ l → P x ↔ Q x) → filter P l = filter Q l.
Proof.
  induction l as [|x l IH]; intros HPQ; [done|]. rewrite !filter_cons, IH
    by (intros y Hy; apply HPQ; by right).
  pose proof (HPQ x ltac:(by left)). destruct (decide (P x)), (decide (Q x)); naive_solver.
Qed.

Lemma length_filter_fmap {A B} (f : A → B) (P : B → Prop) `{∀ x, Decision (P x)} (l : list A) :
  length (filter P (f <$> l)) = length (filter (λ x, P (f x)) l).
Proof.
  induction l as [|x l IH]; [done|]. rewrite fmap_cons, !filter_cons.
  by destruct (decide (P (f x))); simpl; rewrite IH.
Qed.

(** The number of members is the number of bits counted word by word. *)
Lemma nbits_for_nbool vals : nbool_nbits (Some vals) = Some (Z.of_nat (length (for_nbool (Some vals)))).
Proof.
  unfold for_nbool, nbool_nbits. cbn [cnt fmap option_fmap option_map]. f_equal.
  transitivity (Z.of_nat (length (filter (λ i, bit vals i = true)
    (seqZ 0 (Z.of_nat (length vals) * NBOOL_N))))).
  2:{ apply f_equal, (f_equal length), filter_ext_in. intros i Hi%elem_of_seqZ.
      by rewrite nbool_bit by lia. }
  induction vals as [|w vals IH]; [done|]. cbn [foldr length]. rewrite IH. clear IH.
  replace (Z.of_nat (S (length vals)) * NBOOL_N) with (32 + Z.of_nat (length vals) * NBOOL_N)
    by (unfold NBOOL_N; lia).
  set (m := Z.of_nat (length vals) * NBOOL_N). assert (0 ≤ m) by (unfold m, NBOOL_N; lia).
  rewrite (seqZ_app 0 32 m) by lia. rewrite filter_app, length_app, Nat2Z.inj_add.
  apply (f_equal2 Z.add); [unfold popcount|]; apply f_equal.
  - apply (f_equal length), filter_ext_in. intros i Hi%elem_of_seqZ.
    unfold bit, word, NBOOL_N. rewrite Z.div_small, Z.mod_small by lia. done.
  - rewrite Z.add_0_l, <-(Z.add_0_r 32), <-fmap_add_seqZ, length_filter_fmap.
    apply (f_equal length), filter_ext_in. intros i Hi%elem_of_seqZ. simpl.
    by rewrite bit_cons by lia.
Qed.

(** ** Refinement *)

(** The set an array of bits stands for. *)
Definition nset (v : nbool_t) : gset Z := list_to_set (for_nbool v).

Lemma elem_of_nset v i : i ∈ nset v ↔ 0 ≤ i ∧ nbool v i = true.
Proof. unfold nset. by rewrite elem_of_list_to_set, elem_of_for_nbool. Qed.

Lemma nset_nbool v i : 0 ≤ i → nbool v i = bool_decide (i ∈ nset v).
Proof.
  intros Hi. destruct (nbool v i) eqn:E; symmetry.
  - apply bool_decide_eq_true_2. by apply elem_of_nset.
  - apply bool_decide_eq_false_2. rewrite elem_of_nset. intros [_ H]. congruence.
Qed.

Lemma nset_set v i : 0 ≤ i → nset (nbool_set v i) = {[i]} ∪ nset v.
Proof.
  intros Hi. apply set_eq. intros j. rewrite elem_of_union, elem_of_singleton, !elem_of_nset.
  destruct (decide (0 ≤ j)); [|split; [tauto|intros [->|]; tauto]].
  rewrite nbool_set_spec, orb_true_iff, Z.eqb_eq by done. naive_solver.
Qed.

Lemma nset_clear v i : 0 ≤ i → nset (nbool_clear v i) = nset v ∖ {[i]}.
Proof.
  intros Hi. apply set_eq. intros j. rewrite elem_of_difference, elem_of_singleton, !elem_of_nset.
  destruct (decide (0 ≤ j)); [|tauto].
  rewrite nbool_clear_spec, andb_true_iff, negb_true_iff, Z.eqb_neq by done. naive_solver.
Qed.

Lemma nset_or v o : nset (nbool_or v o) = nset v ∪ nset o.
Proof.
  apply set_eq. intros j. rewrite elem_of_union, !elem_of_nset.
  destruct (decide (0 ≤ j)); [|tauto]. rewrite nbool_or_spec, orb_true_iff by done. naive_solver.
Qed.

Lemma nset_empty v : nbool_wf v → v = None ↔ nset v = ∅.
Proof.
  intros Hwf. rewrite nbool_empty by done. split.
  - intros H. apply elem_of_equiv_empty_L. intros i [Hi Hb]%elem_of_nset. by rewrite H in Hb.
  - intros H i Hi. rewrite nset_nbool, H by done. by apply bool_decide_eq_false_2, not_elem_of_empty.
Qed.

Lemma nbool_nonneg v i : i ∈ nset v → 0 ≤ i.
Proof. by intros [? _]%elem_of_nset. Qed.

#[export] Hint Resolve nbool_set_wf nbool_clear_wf nbool_or_wf : shv.

(** C21: the growing bit array implements finite sets of client identifiers:
    testing, setting, clearing and joining are membership, insertion, removal and
    union, the [NULL] pointer is exactly the empty set, the bit count of any other set
    is the number of its members, and every operation keeps the array trimmed. *)
Theorem nbool_refines_set v o i :
  nbool_wf v → nbool_wf o → 0 ≤ i →
  nbool v i = bool_decide (i ∈ nset v) ∧
  (nbool_wf (nbool_set v i) ∧ nset (nbool_set v i) = {[i]} ∪ nset v) ∧
  (nbool_wf (nbool_clear v i) ∧ nset (nbool_clear v i) = nset v ∖ {[i]}) ∧
  (nbool_wf (nbool_or v o) ∧ nset (nbool_or v o) = nset v ∪ nset o) ∧
  (v = None ↔ nset v = ∅) ∧ (v ≠ None → nbool_nbits v = Some (Z.of_nat (size (nset v)))).
Proof.
  intros Hv Ho Hi. split_and!; auto using nset_nbool, nset_set, nset_clear, nset_or with shv.
  - by apply nset_empty.
  - destruct v as [vals|]; [|done]. intros _. rewrite nbits_for_nbool. unfold nset. by rewrite size_list_to_set by apply for_nbool_NoDup.
Qed.

Lemma nbool_refines_set_witness :
  nset (nbool_clear (nbool_set (nbool_set None 3) 40) 40) = nset (nbool_set (nbool_set None 3) 40) ∖ {[40]} ∧
  nbool_nbits (nbool_set (nbool_set None 3) 40) = Some (Z.of_nat (size (nset (nbool_set (nbool_set None 3) 40)))).
Proof.
  assert (nbool_wf (nbool_set (nbool_set None 3) 40)) as Hwf.
  { split; [by_evaluation|]. by exists 256. }
  split; [apply (nbool_refines_set _ None 40 Hwf I); lia|].
  apply (nbool_refines_set _ None 40 Hwf I); [lia|by vm_compute].
Defined.

(** The bits of the empty set are not counted: there is no array to look at. *)
Example nbits_null : nbool_nbits (nbool_clear (nbool_set None 3) 3) = None.
Proof. by vm_compute. Qed.
