(* ===== verification/Rpcri.v ===== *)
(** * Resource identifiers ([libshvrpc/rpcri.c], [include/shv/rpcri.h])

    Matching of paths, methods and signals against patterns.  A pointer into a C
    string is the list of the bytes from there on, the terminator included, so
    that reading through the empty list is reading out of bounds: the functions
    then return [None].

    [globs] says what the patterns mean.  On patterns without bracket expressions the
    matcher is proved to stay in bounds, to hold for all they mean, and to hold for
    nothing else unless they end in [/**]. *)

From stdpp Require Import sets.
From S2P Require Import Prelude Stdio.

(** ** Definitions *)

(** The terminated string. *)
Definition terminated (s : cstr) : list Z := s ++ [0].

Definition STAR : Z := 42.
Definition QMARK : Z := 63.
Definition SLASH : Z := 47.
Definition LBRACKET : Z := 91.
Definition RBRACKET : Z := 93.
Definition BANG : Z := 33.
Definition DASH : Z := 45.
Definition COLON : Z := 58.

(** [*p], [p[i]] *)
Definition deref (p : list Z) : option Z := head p.
Definition deref_at (p : list Z) (i : nat) : option Z := p !! i.

(** [while ( *p != ']' && *p != '\0') p++;] *)
Fixpoint skip_class (p : list Z) : option (list Z) :=
  match p with
  | [] => None
  | c :: p' => if (c =? RBRACKET) || (c =? 0) then Some p else skip_class p'
  end.

(** [Some None] is the [NULL] result.  Characters are compared as [char]. *)
Fixpoint rpcri_match_ranges (p : list Z) (s : Z) : option (option (list Z)) :=
  match p with
  | [] => None
  | first :: p1 =>
      if s =? first then Some <$> skip_class p
      else
        match p1 with
        | [] => None
        | d :: p2 =>
            if d =? DASH then
              match p2 with
              | [] => None
              | l :: _ =>
                  if (i8 first <=? i8 s) && (i8 s <=? i8 l) then Some <$> skip_class p2
                  else if (l =? RBRACKET) || (l =? 0) then Some None
                  else rpcri_match_ranges p2 s
              end
            else if (d =? RBRACKET) || (d =? 0) then Some None
            else rpcri_match_ranges p1 s
        end
  end.

(** The loop of [rpcri_match_negation], after its first [p++]. *)
Fixpoint negation_loop (p : list Z) (s : Z) : option (option (list Z)) :=
  match p with
  | [] => None
  | first :: p1 =>
      if s =? first then Some None
      else
        match p1 with
        | [] => None
        | d :: p2 =>
            if d =? DASH then
              match p2 with
              | [] => None
              | l :: _ =>
                  if (i8 first <=? i8 s) && (i8 s <=? i8 l) then Some None
                  else if (l =? RBRACKET) || (l =? 0) then Some (Some p2)
                  else negation_loop p2 s
              end
            else if (d =? RBRACKET) || (d =? 0) then Some (Some p1)
            else negation_loop p1 s
        end
  end.

Definition rpcri_match_negation (p : list Z) (s : Z) : option (option (list Z)) :=
  negation_loop (tail p) s.

(** [for (; i >= 0; i--) if (f(&string[i])) return true;] *)
Fixpoint try_from (f : list Z → option bool) (string : list Z) (i : nat) : option bool :=
  r ← f (drop i string);
  if (r : bool) then Some true
  else match i with O => Some false | S i' => try_from f string i' end.

(** Length of the part before the first of [stop]: [strlen] and [strcspn(., "/")]. *)
Fixpoint span (stop : Z → bool) (s : list Z) : option nat :=
  match s with
  | [] => None
  | c :: s' => if (c =? 0) || stop c then Some O else S <$> span stop s'
  end.

(** The parts of one round of the loop of [rpcri_match_one]; [n] is what is left of
    the pattern, [n - (p - pattern)], and [rec] goes on with the next round. *)
Section round.
Context (rec : list Z → list Z → Z → option bool).

Definition match_class (p string : list Z) (n : Z) : option bool :=
  c1 ← deref_at p 1;
  d ← deref string;
  let next q := rec (tail q) (tail string) (n - Z.of_nat (length p - length q) - 1) in
  let negation p :=
    r ← rpcri_match_negation (tail p) d;
    match r with None => Some false | Some q => next q end in
  if c1 =? BANG then
    if d =? 0 then
      q ← skip_class p;
      e ← deref q;
      if e =? 0 then Some true
      else
        e1 ← deref_at q 1;
        if e1 =? 0 then Some true else negation q
    else negation p
  else if negb (d =? 0) then
    r ← rpcri_match_ranges (tail p) d;
    match r with None => Some false | Some q => next q end
  else next p.

(** Whether a match was found, and the pattern behind the star. *)
Definition match_star (p string : list Z) (n : Z) : option (bool * list Z * Z) :=
  c1 ← deref_at p 1;
  let '(k, stop) := if c1 =? STAR then (2%nat, λ _, false) else (1%nat, Z.eqb SLASH) in
  i ← span stop string;
  let p := drop k p in
  let n := n - Z.of_nat k in
  found ← try_from (λ s, rec p s n) string i;
  Some (found, p, n).

Definition match_char (p string : list Z) (n : Z) : option bool :=
  c ← deref p;
  below ←
    (if (c =? SLASH) && (n =? 3) then
       c1 ← deref_at p 1;
       if c1 =? STAR then c2 ← deref_at p 2; Some (c2 =? STAR) else Some false
     else Some false);
  if below : bool then Some true
  else
    d ← deref string;
    if negb (c =? d) then Some false else rec (tail p) (tail string) (n - 1).
End round.

Fixpoint match_one (fuel : nat) (p string : list Z) (n : Z) : option bool :=
  match fuel with
  | O => None
  | S fuel' =>
      if n <=? 0 then d ← deref string; Some (d =? 0)
      else
        c ← deref p;
        any ← (if c =? QMARK then d ← deref string; Some (negb (d =? 0)) else Some false);
        if any : bool then match_one fuel' (tail p) (tail string) (n - 1)
        else if c =? LBRACKET then match_class (match_one fuel') p string n
        else if c =? STAR then
          star ← match_star (match_one fuel') p string n;
          let '(found, p, n) := star in
          if found : bool then Some true else match_char (match_one fuel') p string n
        else match_char (match_one fuel') p string n
  end.

(** Every round consumes a byte of the pattern, terminator included. *)
Definition rpcri_match_one (pattern string : list Z) (n : Z) : option bool :=
  match_one (S (length pattern)) pattern string n.

Definition rpcri_match (ri path method : cstr) (signal : option cstr) : option bool :=
  match strchr ri COLON with
  | None => Some false
  | Some ri_path_end =>
      ok ← rpcri_match_one (terminated ri) (terminated path) (strlen ri - strlen ri_path_end);
      if negb ok then Some false
      else
        let ri_path_end := tail ri_path_end in
        match signal, strchr ri_path_end COLON with
        | Some signal, Some ri_method_end =>
            ok ← rpcri_match_one (terminated ri_path_end) (terminated method)
                   (strlen ri_path_end - strlen ri_method_end);
            if negb ok then Some false
            else
              let ri_method_end := tail ri_method_end in
              rpcri_match_one (terminated ri_method_end) (terminated signal) (strlen ri_method_end)
        | _, _ =>
            rpcri_match_one (terminated ri_path_end) (terminated method) (strlen ri_path_end)
        end
  end.

Definition rpcpath_match (pattern path : cstr) : option bool :=
  rpcri_match_one (terminated pattern) (terminated path) (strlen pattern).

Definition rpcstr_match (pattern string : cstr) : option bool :=
  rpcri_match_one (terminated pattern) (terminated string) (strlen pattern).

(** Cases of the unit tests, bracket expressions included. *)
Example rpcri_match_cases :
  Forall (λ t, let '(ri, path, method, signal, res) := t in
               rpcri_match ri path method signal = Some res) [
    (str "**", str ".app", str "name", None, false);
    (str "**:*", str ".app", str "name", None, true);
    (str "**:*", str "sub/device/track", str "get", None, true);
    (str "**:get", str ".app", str "name", None, false);
    (str "test/*:get", str "test", str "get", None, false);
    (str "test/**:get", str "test", str "get", None, true);
    (str "test/e:get", str "teste", str "get", None, false);
    (str "t?st:get", str "test", str "get", None, true);
    (str "test/**/hello:get", str "test/aa/bb/hello", str "get", None, true);
    (str "test/**:get", str "sub/device/track", str "get", None, false);
    (str "**:*:*", str ".app", str "name", None, false);
    (str "[t]est/**:ge[t]", str "test/device", str "get", None, true);
    (str "[a-z]est/**:ge[a-z]", str "test/device", str "get", None, true);
    (str "[a-s]est/**:get", str "test/device", str "get", None, false);
    (str "test/**:ge[!t]", str "test/device", str "get", None, false)].
Proof. repeat constructor. Qed.

(** ** What patterns mean

    [?] is any one character, [*] any sequence without a slash, [**] any sequence,
    other characters stand for themselves.  With a final [/**] the node in front of
    it matches too. *)
Inductive globs : list Z → list Z → Prop :=
  | globs_end : globs [] []
  | globs_any c p s : globs p s → globs (QMARK :: p) (c :: s)
  | globs_star t p s :
      SLASH ∉ t → head p ≠ Some STAR → globs p s → globs (STAR :: p) (t ++ s)
  | globs_stars t p s : globs p s → globs (STAR :: STAR :: p) (t ++ s)
  | globs_char c p s : c ≠ QMARK → c ≠ STAR → globs p s → globs (c :: p) (c :: s)
  | globs_below : globs [SLASH; STAR; STAR] [].

(** The pattern ends with [/**]. *)
Definition ends_below (p : list Z) : Prop := [SLASH; STAR; STAR] `suffix_of` p.

(** What the matcher holds for: a final [/**] is not compared with the string. *)
Inductive accepted : list Z → list Z → Prop :=
  | accepted_end : accepted [] []
  | accepted_any c p s : accepted p s → accepted (QMARK :: p) (c :: s)
  | accepted_star t p s :
      SLASH ∉ t → head p ≠ Some STAR → accepted p s → accepted (STAR :: p) (t ++ s)
  | accepted_stars t p s : accepted p s → accepted (STAR :: STAR :: p) (t ++ s)
  | accepted_char c p s : c ≠ QMARK → c ≠ STAR → accepted p s → accepted (c :: p) (c :: s)
  | accepted_below s : accepted [SLASH; STAR; STAR] s.

(** A pattern without bracket expressions. *)
Definition plain (p : list Z) : Prop := Forall (λ c, c ≠ 0 ∧ c ≠ LBRACKET) p.

(** What may follow a part of a resource identifier. *)
Definition part_end (rest : list Z) : Prop := rest = [] ∨ head rest = Some COLON.

#[export] Instance plain_dec p : Decision (plain p).
Proof. unfold plain. apply _. Defined.
#[export] Instance ends_below_dec p : Decision (ends_below p).
Proof. unfold ends_below. apply _. Defined.
#[export] Instance part_end_dec p : Decision (part_end p).
Proof. unfold part_end. apply _. Defined.

(** ** Lemmas *)

Lemma globs_accepted p s : globs p s → accepted p s.
Proof. induction 1; by constructor. Qed.

Lemma accepted_globs p s : accepted p s → ¬ ends_below p → globs p s.
Proof.
  induction 1 as [|c p s H IH|t p s Ht Hh H IH|t p s H IH|c p s Hq Hs H IH|s]; intros Hb;
    try (constructor; try done; apply IH; intros Hb'; apply Hb; by do 2 (apply suffix_cons_r || done)).
  destruct Hb. by exists [].
Qed.

(** A star in front can be empty. *)
Lemma accepted_add_star p s : accepted p s → accepted (STAR :: p) s.
Proof.
  intros H. induction H as [|c p s H IH|t p s Ht Hh H IH|t p s H IH|c p s Hq Hs H IH|s].
  - by apply (accepted_star []); [set_solver|done|constructor].
  - apply (accepted_star []); [set_solver|done|by constructor].
  - by apply accepted_stars.
  - apply accepted_stars. apply IH.
  - apply (accepted_star []); [set_solver|by intros [= ->]|by constructor].
  - apply (accepted_star []); [set_solver|done|constructor].
Qed.

Lemma accepted_drop_star p s k :
  (k ≤ length s)%nat → SLASH ∉ take k s → head p ≠ Some STAR → accepted p (drop k s) →
  accepted (STAR :: p) s.
Proof. intros Hk Ht Hh H. rewrite <-(take_drop k s). by apply accepted_star. Qed.

Lemma accepted_star_inv p s :
  head p ≠ Some STAR → accepted (STAR :: p) s →
  ∃ k, (k ≤ length s)%nat ∧ SLASH ∉ take k s ∧ accepted p (drop k s).
Proof.
  intros Hh H. inversion H; subst; try done.
  exists (length t). rewrite length_app, take_app_length, drop_app_length. split; [lia|done].
Qed.

Lemma accepted_stars_inv p s :
  accepted (STAR :: STAR :: p) s → ∃ k, (k ≤ length s)%nat ∧ accepted p (drop k s).
Proof.
  intros H. inversion H; subst; try done.
  exists (length t). rewrite length_app, drop_app_length. split; [lia|done].
Qed.

Lemma try_from_spec f string (P : nat → Prop) k :
  (∀ i, (i ≤ k)%nat → ∃ b, f (drop i string) = Some b ∧ (b = true ↔ P i)) →
  ∃ b, try_from f string k = Some b ∧ (b = true ↔ ∃ i, (i ≤ k)%nat ∧ P i).
Proof.
  induction k as [|k IH]; intros H.
  - destruct (H 0%nat) as (b & Hb & HP); [lia|]. simpl. rewrite Hb. simpl. exists b. split; [by destruct b|].
    rewrite HP. split; [by exists 0%nat|]. intros (i & Hi & ?). by replace i with 0%nat in * by lia.
  - destruct (H (S k)) as (b & Hb & HP); [lia|]. cbn [try_from]. rewrite Hb. simpl. destruct b.
    { exists true. split; [done|]. split; [|done]. intros _. exists (S k). split; [lia|]. by apply HP. }
    destruct IH as (b & -> & Hb'); [intros i Hi; apply H; lia|].
    exists b. split; [done|]. rewrite Hb'. split; intros (i & Hi & ?); [exists i; split; [lia|done]|].
    destruct (decide (i = S k)) as [->|]; [by apply HP in H0|]. exists i. split; [lia|done].
Qed.

Lemma span_none s : wf_cstr s → span (λ _, false) (s ++ [0]) = Some (length s).
Proof.
  intros Hs. induction Hs as [|c s Hc Hs IH]; [done|]. simpl.
  rewrite (proj2 (Z.eqb_neq c 0)) by lia. simpl in *. by rewrite IH.
Qed.

(** [strcspn] finds the longest part without a slash. *)
Lemma span_slash s :
  wf_cstr s →
  ∃ k, span (Z.eqb SLASH) (s ++ [0]) = Some k ∧ (k ≤ length s)%nat ∧
    ∀ i, (i ≤ length s)%nat → SLASH ∉ take i s ↔ (i ≤ k)%nat.
Proof.
  intros Hs. induction Hs as [|c s Hc Hs (k & Hk & Hle & IH)].
  - exists 0%nat. split; [done|]. split; [simpl; lia|]. intros i Hi. simpl in Hi.
    replace i with 0%nat by lia. simpl. split; [lia|set_solver].
  - cbn [span app length]. rewrite (proj2 (Z.eqb_neq c 0)) by lia. cbn [orb].
    destruct (Z.eqb_spec SLASH c) as [<-|Hne].
    + exists 0%nat. split; [done|]. split; [lia|]. intros i Hi. destruct i as [|i].
      * split; [lia|set_solver].
      * cbn [take]. split; [set_solver|lia].
    + exists (S k). rewrite Hk. split; [done|]. split; [lia|]. intros i Hi. destruct i as [|i].
      * split; [lia|set_solver].
      * cbn [take]. rewrite not_elem_of_cons, IH by lia. split; [intros [_ ?]; lia|]. split; [done|lia].
Qed.

Lemma drop_terminated s i : (i ≤ length s)%nat → drop i (s ++ [0]) = drop i s ++ [0].
Proof. intros. by rewrite drop_app_le. Qed.

Lemma wf_drop s i : wf_cstr s → wf_cstr (drop i s).
Proof. apply Forall_drop. Qed.

(** ** The matcher decides the meaning *)

Definition decides (r : option bool) (P : Prop) : Prop := ∃ b, r = Some b ∧ (b = true ↔ P).

Lemma decides_iff r P Q : decides r P → (P ↔ Q) → decides r Q.
Proof. intros (b & -> & H) HPQ. exists b. by rewrite H. Qed.

Lemma match_one_end fuel p s n :
  n ≤ 0 → wf_cstr s → decides (match_one (S fuel) p (s ++ [0]) n) (s = []).
Proof.
  intros Hn Hs. cbn [match_one]. rewrite (proj2 (Z.leb_le _ _)) by done.
  destruct Hs as [|c s Hc Hs]; simpl.
  - by exists true.
  - exists false. rewrite (proj2 (Z.eqb_neq _ _)) by lia. done.
Qed.

(** The literal comparison, given that the next round is right. *)
Lemma match_char_spec rec c p rest s :
  c ≠ 0 → wf_cstr s →
  (∀ x s', s = x :: s' → decides (rec (p ++ rest ++ [0]) (s' ++ [0]) (Z.of_nat (length p))) (accepted p s')) →
  decides (match_char rec (c :: p ++ rest ++ [0]) (s ++ [0]) (Z.of_nat (S (length p))))
    (c :: p = [SLASH; STAR; STAR] ∨ ∃ s', s = c :: s' ∧ accepted p s').
Proof.
  intros Hc Hs Hrec. unfold match_char. cbn [deref head mbind option_bind].
  set (below := if (c =? SLASH) && _ then _ else _).
  assert (below = Some (bool_decide (c :: p = [SLASH; STAR; STAR]))) as ->.
  { unfold below. destruct (Z.eqb_spec c SLASH) as [->|Hne]; cbn [andb].
    2:{ rewrite bool_decide_eq_false_2; [done|]. intros [=]. done. }
    destruct (Z.eqb_spec (Z.of_nat (S (length p))) 3) as [E|E].
    2:{ rewrite bool_decide_eq_false_2; [done|]. intros [= ->]. done. }
    destruct p as [|a [|b [|]]]; simpl in E; try lia. unfold deref_at. simpl.
    destruct (Z.eqb_spec a STAR) as [->|Ha]; simpl.
    - destruct (Z.eqb_spec b STAR) as [->|Hb]; [by rewrite bool_decide_eq_true_2|].
      rewrite bool_decide_eq_false_2; [done|]. by intros [= ->].
    - rewrite bool_decide_eq_false_2; [done|]. by intros [= -> _]. }
  cbn [mbind option_bind]. destruct (bool_decide_reflect (c :: p = [SLASH; STAR; STAR])) as [E|E].
  { exists true. split; [done|]. split; [by left|done]. }
  destruct s as [|x s].
  { exists false. simpl. rewrite (proj2 (Z.eqb_neq _ _)) by done. split; [done|].
    split; [done|]. intros [?|(s' & [=] & _)]; done. }
  apply Forall_cons in Hs as [Hx Hs]. cbn [app deref head mbind option_bind tail].
  destruct (Z.eqb_spec c x) as [->|Hne]; cbn [negb].
  - replace (Z.of_nat (S (length p)) - 1) with (Z.of_nat (length p)) by lia.
    eapply decides_iff; [by apply (Hrec x s)|]. split; [by intros ?; right; eauto|].
    intros [?|(s' & [= <-] & ?)]; done.
  - exists false. split; [done|]. split; [done|]. intros [?|(s' & [= <-] & ?)]; done.
Qed.

Lemma decides_false r P : decides r P → ¬ P → r = Some false.
Proof. intros (b & -> & H) HP. destruct b; [|done]. destruct HP. by apply H. Qed.

(** The pattern behind the star or the two stars. *)
Definition behind_star (p : list Z) : list Z := if decide (head p = Some STAR) then tail p else p.

Lemma match_star_spec rec p rest s :
  part_end rest → wf_cstr s →
  (∀ s', wf_cstr s' → decides (rec (behind_star p ++ rest ++ [0]) (s' ++ [0])
     (Z.of_nat (length (behind_star p)))) (accepted (behind_star p) s')) →
  ∃ found, match_star rec (STAR :: p ++ rest ++ [0]) (s ++ [0]) (Z.of_nat (S (length p))) =
      Some (found, behind_star p ++ rest ++ [0], Z.of_nat (length (behind_star p))) ∧
    (found = true ↔ accepted (STAR :: p) s).
Proof.
  intros Hrest Hs Hrec. unfold match_star, deref_at.
  change ((STAR :: p ++ rest ++ [0]) !! 1%nat) with ((p ++ rest ++ [0]) !! 0%nat).
  assert (∃ c1, (p ++ rest ++ [0]) !! 0%nat = Some c1 ∧ (c1 = STAR ↔ head p = Some STAR)) as (c1 & -> & Hc1).
  { destruct p as [|c p]; [|by exists c; split; [|split; [intros ->|intros [= ->]]]].
    destruct Hrest as [->|Hrest]; [by exists 0|]. destruct rest; [done|]. exists COLON.
    by injection Hrest as ->. }
  cbn [mbind option_bind]. unfold behind_star in *.
  destruct (decide (head p = Some STAR)) as [Hh|Hh].
  - rewrite (proj2 (Z.eqb_eq _ _)) by (by apply Hc1). rewrite span_none by done. cbn [mbind option_bind].
    destruct p as [|c p]; [done|]. injection Hh as ->. cbn [tail drop app length] in *. rewrite drop_0.
    replace (Z.of_nat (S (S (length p))) - Z.of_nat 2) with (Z.of_nat (length p)) by lia.
    destruct (try_from_spec (λ s, rec (p ++ rest ++ [0]) s (Z.of_nat (length p))) (s ++ [0])
      (λ i, accepted p (drop i s)) (length s)) as (b & -> & Hb).
    { intros i Hi. rewrite drop_terminated by done. by apply Hrec, wf_drop. }
    exists b. split; [done|]. rewrite Hb. split.
    + intros (i & _ & ?). rewrite <-(take_drop i s). by apply accepted_stars.
    + apply accepted_stars_inv.
  - rewrite (proj2 (Z.eqb_neq _ _)) by (by rewrite Hc1).
    destruct (span_slash s Hs) as (k & -> & Hk & Hspan). cbn [mbind option_bind drop]. rewrite drop_0.
    replace (Z.of_nat (S (length p)) - Z.of_nat 1) with (Z.of_nat (length p)) by lia.
    destruct (try_from_spec (λ s, rec (p ++ rest ++ [0]) s (Z.of_nat (length p))) (s ++ [0])
      (λ i, accepted p (drop i s)) k) as (b & -> & Hb).
    { intros i Hi. rewrite drop_terminated by lia. by apply Hrec, wf_drop. }
    exists b. split; [done|]. rewrite Hb. split.
    + intros (i & Hi & ?). apply (accepted_drop_star _ _ i); [lia|by apply Hspan; lia|done|done].
    + intros H. apply accepted_star_inv in H as (i & Hi & Ht & H); [|done]. exists i.
      split; [by apply Hspan|done].
Qed.

(** When no part of the string matched behind the star, the comparison that
    follows does not match either. *)
Lemma star_no_match fuel p rest s :
  Forall (λ c, c ≠ 0) p → part_end rest → wf_cstr s → ¬ accepted (STAR :: p) s →
  (∀ c q' s', behind_star p = c :: q' → wf_cstr s' →
     decides (match_one (S fuel) (q' ++ rest ++ [0]) (s' ++ [0]) (Z.of_nat (length q'))) (accepted q' s')) →
  match_char (match_one (S fuel)) (behind_star p ++ rest ++ [0]) (s ++ [0])
    (Z.of_nat (length (behind_star p))) = Some false.
Proof.
  intros Hp Hrest Hs Hno Hrec.
  assert (∀ s', accepted (behind_star p) s' → accepted (STAR :: p) s') as Hbehind.
  { intros s' H. unfold behind_star in H. destruct (decide _) as [Hh|Hh]; [|by apply accepted_add_star].
    destruct p as [|c p]; [done|]. injection Hh as ->. by apply (accepted_stars []). }
  destruct (behind_star p) as [|c q] eqn:Eq.
  - unfold match_char. cbn [app length]. change (Z.of_nat 0) with 0.
    assert (p = []) as ->.
    { unfold behind_star in Eq. destruct (decide _) as [Hh|]; [|done]. exfalso.
      destruct p as [|c p]; [done|]. injection Hh as ->. simpl in Eq. subst p. apply Hno.
      rewrite <-(app_nil_r s). apply accepted_stars. constructor. }
    assert (∃ c rest', rest ++ [0] = c :: rest' ∧ (c = 0 ∨ c = COLON)) as (c & rest' & -> & Hc).
    { destruct Hrest as [->|Hr]; [by exists 0, []; auto|]. destruct rest as [|c rest]; [done|].
      injection Hr as ->. by exists COLON, (rest ++ [0]); auto. }
    cbn [deref head mbind option_bind tail].
    rewrite (proj2 (Z.eqb_neq c SLASH)) by (by destruct Hc as [->| ->]). cbn [andb mbind option_bind].
    destruct s as [|x s]; [destruct Hno; by apply (accepted_star []); [set_solver|done|constructor]|].
    apply Forall_cons in Hs as [Hx Hs]. cbn [app deref head mbind option_bind tail].
    destruct (Z.eqb_spec c x) as [->|]; [|done]. cbn [negb].
    apply (decides_false _ (s = [])); [by apply match_one_end|]. intros ->. apply Hno.
    apply (accepted_star [x]); [|done|constructor]. destruct Hc as [->| ->]; [lia|].
    apply not_elem_of_cons. split; [done|set_solver].
  - assert (c ≠ 0) as Hc.
    { unfold behind_star in Eq. destruct (decide _); [destruct p; [done|]; simpl in Eq; subst|subst];
        apply Forall_cons in Hp as [? Hp]; [by apply Forall_cons in Hp as [? _]|done]. }
    eapply decides_false.
    + apply match_char_spec; [done|done|]. intros x s' ->. apply Forall_cons in Hs as [_ Hs].
      by eapply Hrec.
    + intros H. apply Hno. destruct H as [E|(s' & -> & H)].
      { apply Hbehind. rewrite E. constructor. }
      destruct (decide (c = STAR)) as [->|Hst].
      * unfold behind_star in Eq. destruct (decide (head p = Some STAR)) as [Hh|Hh].
        -- destruct p as [|c p]; [done|]. injection Hh as ->. simpl in Eq. subst p.
           apply (accepted_stars [STAR]). by apply accepted_add_star.
        -- subst p. done.
      * apply Hbehind. destruct (decide (c = QMARK)) as [->|]; by constructor.
Qed.

Lemma length_behind_star p : (length (behind_star p) ≤ length p)%nat.
Proof. unfold behind_star. destruct (decide _); [destruct p; simpl; lia|lia]. Qed.

Lemma plain_nonzero p : plain p → Forall (λ c, c ≠ 0) p.
Proof. intros H. eapply Forall_impl; [exact H|]. by intros c [? _]. Qed.

Lemma plain_behind_star p : plain p → plain (behind_star p).
Proof.
  intros H. unfold behind_star. destruct (decide _); [|done].
  destruct H; [constructor|done].
Qed.

(** Patterns without brackets are matched in bounds and as they mean. *)
Lemma match_one_accepted fuel : ∀ p rest s,
  plain p → part_end rest → wf_cstr s → (length p < fuel)%nat →
  decides (match_one fuel (p ++ rest ++ [0]) (s ++ [0]) (Z.of_nat (length p))) (accepted p s).
Proof.
  induction fuel as [|fuel IH]; intros p rest s Hp Hrest Hs Hf; [lia|].
  destruct p as [|c p].
  { eapply decides_iff; [by apply match_one_end|]. split; [intros ->; constructor|].
    by inversion 1. }
  pose proof Hp as [[Hc0 Hcb] Hp']%Forall_cons. cbn [length app] in *.
  cbn [match_one]. rewrite (proj2 (Z.leb_gt _ _)) by lia. cbn [deref head mbind option_bind].
  assert (∀ x s', s = x :: s' →
    decides (match_one fuel (p ++ rest ++ [0]) (s' ++ [0]) (Z.of_nat (length p))) (accepted p s')) as Hnext.
  { intros x s' ->. apply Forall_cons in Hs as [_ Hs]. apply IH; [done|done|done|lia]. }
  assert (c ≠ STAR → (c = QMARK → s = []) →
    decides (match_char (match_one fuel) (c :: p ++ rest ++ [0]) (s ++ [0]) (Z.of_nat (S (length p))))
      (accepted (c :: p) s)) as Hchar.
  { intros Hst Hq. eapply decides_iff; [by apply match_char_spec|]. split.
    - intros [-> |(s' & -> & ?)]; [constructor|]. apply accepted_char; [|done|done].
      intros E. by specialize (Hq E).
    - intros H. inversion H; subst; try done; [by specialize (Hq eq_refl)|right; eauto|by left]. }
  rewrite (proj2 (Z.eqb_neq c LBRACKET)) by done.
  destruct (Z.eqb_spec c QMARK) as [->|Hq].
  - destruct s as [|x s]; [by apply Hchar|].
    pose proof Hs as [Hx _]%Forall_cons. cbn [app deref head mbind option_bind tail].
    rewrite (proj2 (Z.eqb_neq _ _)) by lia. cbn [negb].
    replace (Z.of_nat (S (length p)) - 1) with (Z.of_nat (length p)) by lia.
    eapply decides_iff; [by apply (Hnext x)|]. split; [by constructor|].
    intros H. by inversion H.
  - cbn [mbind option_bind]. destruct (Z.eqb_spec c STAR) as [->|Hst]; [|by apply Hchar].
    pose proof (length_behind_star p) as Hlen.
    destruct (match_star_spec (match_one fuel) p rest s) as (found & -> & Hfound);
      [done|done|intros s' Hs'; apply IH; [by apply plain_behind_star|done|done|lia]|].
    cbn [mbind option_bind]. destruct found.
    { exists true. by rewrite <-Hfound. }
    exists false. split; [|by rewrite <-Hfound]. destruct fuel as [|fuel]; [lia|].
    apply star_no_match; [by apply plain_nonzero|done|done|by rewrite <-Hfound|].
    intros c q s' E Hs'. rewrite E in Hlen. simpl in Hlen.
    pose proof (plain_behind_star _ Hp') as Hq'. rewrite E in Hq'. apply Forall_cons in Hq' as [_ Hq'].
    apply IH; [done|done|done|lia].
Qed.

Lemma wf_plain_app p q : plain p → plain q → plain (p ++ COLON :: q).
Proof. intros ??. apply Forall_app. split; [done|]. by apply Forall_cons. Qed.

(** One part of the resource identifier, delimited by a colon or the end. *)
Lemma rpcri_match_one_accepted p rest s :
  plain p → part_end rest → wf_cstr s →
  decides (rpcri_match_one (terminated (p ++ rest)) (terminated s) (Z.of_nat (length p))) (accepted p s).
Proof.
  intros. unfold rpcri_match_one, terminated. rewrite <-app_assoc. apply match_one_accepted; [done..|].
  rewrite length_app. lia.
Qed.

Lemma decides_and r f P Q :
  decides r P → decides f Q →
  decides (ok ← r; if negb ok then Some false else f) (P ∧ Q).
Proof.
  intros ([] & -> & HP) (b & -> & HQ); simpl; [exists b|exists false]; (split; [done|]).
  - rewrite HQ. naive_solver.
  - naive_solver.
Qed.

(** A colon is not part of the end. *)
Lemma ends_below_colon m ps : ends_below (m ++ COLON :: ps) → ends_below ps.
Proof.
  intros [k E]. symmetry in E. apply app_eq_inv in E as [(l & -> & E)|(l & -> & E)].
  - destruct l as [|c l]; [done|]. injection E as _ ->. by exists l.
  - assert (COLON ∈ l ++ COLON :: ps) as H by set_solver. rewrite <-E in H. revert H. by_evaluation.
Qed.

Lemma rpcri_match_accepted p m sg path method signal :
  plain p → plain m → plain (default [] sg) → COLON ∉ p → COLON ∉ m →
  wf_cstr path → wf_cstr method → wf_cstr (default [] signal) →
  decides (rpcri_match (p ++ COLON :: m ++ from_option (cons COLON) [] sg) path method signal)
    (accepted p path ∧
     match sg, signal with
     | Some ps, Some s => accepted m method ∧ accepted ps s
     | Some ps, None => accepted (m ++ COLON :: ps) method
     | None, _ => accepted m method
     end).
Proof.
  intros Hp Hm Hsg Cp Cm Hpath Hmeth Hsig. unfold rpcri_match. rewrite strchr_first by done.
  unfold strlen. replace (Z.of_nat (length (p ++ _)) - _) with (Z.of_nat (length p))
    by (rewrite length_app; lia).
  apply decides_and; [by apply rpcri_match_one_accepted; [|right|]|]. cbn [tail].
  assert (∀ q, plain q → decides (rpcri_match_one (terminated q) (terminated method)
    (Z.of_nat (length q))) (accepted q method)) as Hwhole.
  { intros q Hq. rewrite <-(app_nil_r q) at 1. apply rpcri_match_one_accepted; [done|by left|done]. }
  destruct sg as [ps|]; cbn [from_option default id] in *.
  - rewrite strchr_first by done. destruct signal as [sig|]; [|by apply Hwhole, wf_plain_app].
    replace (Z.of_nat (length (m ++ _)) - _) with (Z.of_nat (length m))
      by (rewrite length_app; lia).
    apply decides_and; [by apply rpcri_match_one_accepted; [|right|]|].
    cbn [tail]. rewrite <-(app_nil_r ps) at 1. apply rpcri_match_one_accepted; [done|by left|done].
  - rewrite app_nil_r, strchr_notin by done. destruct signal; by apply Hwhole.
Qed.

(** ** Properties *)

(** C12: matching a resource identifier [PATH:METHOD] or [PATH:METHOD:SIGNAL] whose
    parts have no bracket expressions stays inside the strings.  It holds whenever
    every part of the identifier matches its string, and when no part ends in [/**]
    it holds only then.  Without a signal to match, all that follows the first colon
    is the pattern of the method. *)
Theorem rpcri_match_globs p m sg path method signal :
  plain p → plain m → plain (default [] sg) → COLON ∉ p → COLON ∉ m →
  wf_cstr path → wf_cstr method → wf_cstr (default [] signal) →
  ∃ b, rpcri_match (p ++ COLON :: m ++ from_option (cons COLON) [] sg) path method signal = Some b ∧
    let meant := globs p path ∧
      match sg, signal with
      | Some ps, Some s => globs m method ∧ globs ps s
      | Some ps, None => globs (m ++ COLON :: ps) method
      | None, _ => globs m method
      end in
    (meant → b = true) ∧
    (¬ ends_below p → ¬ ends_below m → ¬ ends_below (default [] sg) → b = true → meant).
Proof.
  intros Hp Hm Hsg Cp Cm Hpath Hmeth Hsig.
  destruct (rpcri_match_accepted p m sg path method signal) as (b & E & Hb); [done..|].
  exists b. split; [done|]. cbv zeta. rewrite Hb. split.
  - intros [? Hrest]. split; [by apply globs_accepted|]. destruct sg, signal; naive_solver eauto using globs_accepted.
  - intros Bp Bm Bs [? Hrest]. split; [by apply accepted_globs|].
    destruct sg as [ps|], signal; cbn [default id] in *; try (by apply accepted_globs).
    + destruct Hrest. by split; apply accepted_globs.
    + apply accepted_globs; [done|]. by intros ?%ends_below_colon.
Qed.

Lemma rpcri_match_globs_witness :
  (∃ b, rpcri_match (str "test/**:*:*chng") (str "test/device") (str "get") (Some (str "chng")) = Some b ∧
    (globs (str "test/**") (str "test/device") ∧ globs (str "*") (str "get") ∧ globs (str "*chng") (str "chng") → b = true)) ∧
  globs (str "*/x") (str "a/x") ∧ globs (str "get") (str "get").
Proof.
  split.
  - destruct (rpcri_match_globs (str "test/**") (str "*") (Some (str "*chng")) (str "test/device")
      (str "get") (Some (str "chng"))) as (b & E & H & _); [by_evaluation..|]. by exists b.
  - destruct (rpcri_match_globs (str "*/x") (str "get") None (str "a/x") (str "get") None) as (b & E & _ & H); [by_evaluation..|].
    apply H; [by_evaluation..|]. vm_compute in E. by injection E.
Defined.

(** [rpcpath_match] and [rpcstr_match] stay inside the strings on every pattern
    without bracket expressions and hold whenever the pattern matches; only then if
    it does not end in [/**]. *)
Theorem rpcpath_match_globs pattern string :
  plain pattern → wf_cstr string →
  ∃ b, rpcpath_match pattern string = Some b ∧ rpcstr_match pattern string = Some b ∧
    (globs pattern string → b = true) ∧ (¬ ends_below pattern → b = true → globs pattern string).
Proof.
  intros Hp Hs. destruct (rpcri_match_one_accepted pattern [] string) as (b & E & Hb); [done|by left|done|].
  rewrite app_nil_r in E. exists b. split_and!; [exact E|exact E| |]; rewrite Hb; eauto using globs_accepted, accepted_globs.
Qed.

(** ** Where the code and its description differ *)

(** The case for [foo/**] that should also match [foo] itself does not look at the
    string: it matches everything that starts with [foo]. *)
Example below_matches_siblings :
  rpcpath_match (str "foo/**") (str "foobar") = Some true ∧
  rpcri_match (str "test/**:get") (str "testing/x") (str "get") None = Some true.
Proof. done. Qed.

(** A bracket expression is skipped at the end of the string, and the string is then
    read behind its terminator; an unterminated one makes the pattern overrun. *)
Example bracket_out_of_bounds :
  rpcstr_match (str "[a]") [] = None ∧
  rpcstr_match (str "[a") (str "a") = Some true ∧
  rpcstr_match (str "[") (str "a") = None.
Proof. done. Qed.
