(* ===== verification/Rpcaccess.v ===== *)
(** * Access levels ([libshvrpc/rpcaccess.c], [include/shv/rpcaccess.h])

    The levels and their names of the time before SHV 3.0.  The lookup of names is
    generated by gperf from the table in [rpcaccess.gperf]: it is a parameter, and
    what is relied on is that it finds exactly the keywords of the table
    ([Keywords]). *)

From S2P Require Import Prelude Stdio.

(** ** Keyword tables *)

(** The first entry of a keyword in a table. *)
Fixpoint assoc {A} (table : list (cstr * A)) (s : cstr) : option A :=
  match table with
  | [] => None
  | (k, v) :: table' => if decide (k = s) then Some v else assoc table' s
  end.

(** What gperf promises of the function it generates from a table. *)
Class Keywords {A} (table : list (cstr * A)) (lookup : cstr → option A) :=
  keyword : ∀ s, lookup s = assoc table s.

#[export] Instance assoc_keywords {A} (table : list (cstr * A)) : Keywords table (assoc table).
Proof. done. Qed.

(** ** Definitions *)

Definition RPCACCESS_NONE : Z := 0.
Definition RPCACCESS_BROWSE : Z := 1.
Definition RPCACCESS_READ : Z := 8.
Definition RPCACCESS_WRITE : Z := 16.
Definition RPCACCESS_COMMAND : Z := 24.
Definition RPCACCESS_CONFIG : Z := 32.
Definition RPCACCESS_SERVICE : Z := 40.
Definition RPCACCESS_SUPER_SERVICE : Z := 48.
Definition RPCACCESS_DEVEL : Z := 56.
Definition RPCACCESS_ADMIN : Z := 63.

Definition rpcaccess_granted_str (acc : Z) : cstr :=
  if acc =? RPCACCESS_BROWSE then str "bws"
  else if acc =? RPCACCESS_READ then str "rd"
  else if acc =? RPCACCESS_WRITE then str "wr"
  else if acc =? RPCACCESS_COMMAND then str "cmd"
  else if acc =? RPCACCESS_CONFIG then str "cfg"
  else if acc =? RPCACCESS_SERVICE then str "srv"
  else if acc =? RPCACCESS_SUPER_SERVICE then str "ssrv"
  else if acc =? RPCACCESS_DEVEL then str "dev"
  else if acc =? RPCACCESS_ADMIN then str "su"
  else [].

(** The table of [rpcaccess.gperf]. *)
Definition rpcaccess_table : list (cstr * Z) := [
  (str "bws", RPCACCESS_BROWSE);
  (str "rd", RPCACCESS_READ);
  (str "wr", RPCACCESS_WRITE);
  (str "cmd", RPCACCESS_COMMAND);
  (str "cfg", RPCACCESS_CONFIG);
  (str "srv", RPCACCESS_SERVICE);
  (str "ssrv", RPCACCESS_SUPER_SERVICE);
  (str "dev", RPCACCESS_DEVEL);
  (str "su", RPCACCESS_ADMIN)].

Definition COMMA : Z := 44.

(** The bytes between two pointers into the same string, the second of them a
    suffix of the first. *)
Definition between (start term : cstr) : cstr := take (length start - length term) start.

Section lookup.
Context (gperf_rpcaccess : cstr → option Z).

Definition rpcaccess_granted_access (s : cstr) : Z :=
  match gperf_rpcaccess s with Some acc => acc | None => RPCACCESS_NONE end.

(** One round of the loop: the string is what was passed over already, [kept], and
    what [str] points to. *)
Definition extract_step (st : cstr * cstr * Z) : cstr * cstr * Z + cstr * Z :=
  let '(kept, s, res) := st in
  match s with
  | [] => inr (kept, res)
  | c :: s' =>
      let start := if c =? COMMA then s' else s in
      let term := strchrnul start COMMA in
      match gperf_rpcaccess (between start term) with
      | Some acc =>
          let res := if res <? acc then acc else res in
          let off := negb (c =? COMMA) && negb (bool_decide (term = [])) in
          inl (kept, if off then tail term else term, res)
      | None => inl (kept ++ between s term, term, res)
      end
  end.

(** The string that is left and the level. *)
Definition rpcaccess_granted_extract (s : cstr) : cstr * Z :=
  match cloop extract_step 64 ([], s, RPCACCESS_NONE) with
  | inr r => r
  | inl (kept, s, res) => (kept ++ s, res)
  end.
End lookup.

(** ** What the comma separated string means *)

Fixpoint split (s : cstr) : list cstr :=
  match s with
  | [] => [[]]
  | c :: s' =>
      if c =? COMMA then [] :: split s'
      else match split s' with t :: ts => (c :: t) :: ts | [] => [] end
  end.

Fixpoint join (l : list cstr) : cstr :=
  match l with
  | [] => []
  | [t] => t
  | t :: ts => t ++ COMMA :: join ts
  end.

Definition level (t : cstr) : Z := default RPCACCESS_NONE (assoc rpcaccess_table t).
Definition highest (l : list cstr) : Z := foldr Z.max RPCACCESS_NONE (level <$> l).
Definition others (l : list cstr) : list cstr := filter (λ t, assoc rpcaccess_table t = None) l.

(** ** Lemmas *)

(** The tokens that follow the first one, as they stand in the string. *)
Definition rejoin (ts : list cstr) : cstr := foldr (λ t s, COMMA :: t ++ s) [] ts.

Lemma join_rejoin t ts : join (t :: ts) = t ++ rejoin ts.
Proof.
  revert t. induction ts as [|u ts IH]; intros t; [by rewrite app_nil_r|].
  change (join (t :: u :: ts)) with (t ++ COMMA :: join (u :: ts)). by rewrite IH.
Qed.

Definition token (t : cstr) : Prop := COMMA ∉ t.

Lemma split_tokens s : ∃ t ts, split s = t :: ts ∧ token t ∧ Forall token ts ∧ s = t ++ rejoin ts.
Proof.
  induction s as [|c s (t & ts & E & Ht & Hts & IH)]; simpl.
  - exists [], []. split_and!; [done|apply not_elem_of_nil|constructor|done].
  - destruct (Z.eqb_spec c COMMA) as [->|Hc].
    + exists [], (split s). split_and!; [done|apply not_elem_of_nil| |].
      * rewrite E. by constructor.
      * rewrite E. simpl. by rewrite <-IH.
    + rewrite E. exists (c :: t), ts. split_and!; [done| |done|by rewrite IH].
      apply not_elem_of_cons. split; [congruence|done].
Qed.

Lemma rejoin_head ts : rejoin ts = [] ∨ ∃ t us, ts = t :: us ∧ rejoin ts = COMMA :: t ++ rejoin us.
Proof. destruct ts as [|t us]; [by left|right; eauto]. Qed.

(** The token at the start of a string is found. *)
Lemma strchrnul_token t ts : token t → strchrnul (t ++ rejoin ts) COMMA = rejoin ts.
Proof.
  intros Ht. unfold strchrnul. destruct (rejoin_head ts) as [->|(u & us & _ & ->)].
  - by rewrite app_nil_r, strchr_notin.
  - by rewrite strchr_first.
Qed.

Lemma between_app t s : between (t ++ s) s = t.
Proof.
  unfold between. rewrite length_app. replace (_ - _)%nat with (length t) by lia.
  apply take_app_length.
Qed.

Lemma level_nonneg t : 0 ≤ level t.
Proof.
  unfold level, rpcaccess_table. cbn [assoc].
  repeat (destruct (decide (_ = t)); [by vm_compute|]). done.
Qed.

Lemma highest_nonneg l : 0 ≤ highest l.
Proof. induction l as [|t l IH]; [done|]. change (highest (t :: l)) with (Z.max (level t) (highest l)). lia. Qed.

Lemma level_nil : assoc rpcaccess_table [] = None.
Proof. done. Qed.

Lemma max_if res acc : (if res <? acc then acc else res) = Z.max res acc.
Proof. destruct (Z.ltb_spec res acc); lia. Qed.

Section extract.
Context (gperf_rpcaccess : cstr → option Z) `{!Keywords rpcaccess_table gperf_rpcaccess}.

(** Behind the first token that stays, every token is kept with its comma or
    dropped with it. *)
Lemma extract_rest ts kept res :
  Forall token ts → 0 ≤ res →
  ∃ k, (k ≤ S (length (rejoin ts)))%nat ∧
    steps (extract_step gperf_rpcaccess) k (kept, rejoin ts, res)
      (inr (kept ++ rejoin (others ts), Z.max res (highest ts))).
Proof.
  intros Hts. revert kept res. induction Hts as [|t ts Ht Hts IH]; intros kept res Hres.
  - exists 1%nat. split; [simpl; lia|]. apply steps_stop. simpl. rewrite app_nil_r.
    by rewrite Z.max_l by done.
  - assert (∀ kept' res', extract_step gperf_rpcaccess (kept, COMMA :: t ++ rejoin ts, res) =
      inl (kept', rejoin ts, res') → 0 ≤ res' →
      kept' ++ rejoin (others ts) = kept ++ rejoin (others (t :: ts)) →
      Z.max res' (highest ts) = Z.max res (highest (t :: ts)) →
      ∃ k, (k ≤ S (length (rejoin (t :: ts))))%nat ∧
        steps (extract_step gperf_rpcaccess) k (kept, rejoin (t :: ts), res)
          (inr (kept ++ rejoin (others (t :: ts)), Z.max res (highest (t :: ts))))) as Hstep.
    { intros kept' res' E Hr <- <-. destruct (IH kept' res' Hr) as (k & Hk & H).
      exists (S k). split; [simpl; rewrite length_app; lia|]. by apply (steps_next _ _ _ _ _ E). }
    unfold others. rewrite filter_cons. fold (others ts).
    assert (highest (t :: ts) = Z.max (level t) (highest ts)) as Eh by done.
    unfold level in Eh.
    unfold extract_step in Hstep. rewrite Z.eqb_refl, strchrnul_token, between_app in Hstep by done.
    rewrite (keyword (table := rpcaccess_table)) in Hstep. cbn [negb andb] in Hstep.
    unfold others in Hstep. rewrite filter_cons in Hstep. fold (others ts) in Hstep.
    destruct (assoc rpcaccess_table t) as [acc|] eqn:El.
    + rewrite decide_False in Hstep by done. rewrite decide_False by done.
      eapply Hstep; [done|rewrite max_if; lia|done|]. rewrite Eh, max_if. cbn [default from_option id]. lia.
    + rewrite decide_True in Hstep by done. rewrite decide_True by done.
      eapply Hstep; [done|done| |rewrite Eh; cbn [default from_option]; unfold RPCACCESS_NONE; pose proof (highest_nonneg ts); lia].
      change (COMMA :: t ++ rejoin ts) with ((COMMA :: t) ++ rejoin ts).
      rewrite between_app, <-app_assoc. done.
Qed.

(** The first round at the start of the string. *)
Lemma extract_first t ts res :
  token t → t ≠ [] →
  extract_step gperf_rpcaccess ([], t ++ rejoin ts, res) =
  match assoc rpcaccess_table t with
  | Some acc => inl ([], tail (rejoin ts), Z.max res acc)
  | None => inl (t, rejoin ts, res)
  end.
Proof.
  intros Ht Hne. destruct t as [|c t]; [done|]. pose proof Ht as [Hc _]%not_elem_of_cons.
  unfold extract_step. cbn [app]. rewrite (proj2 (Z.eqb_neq _ _)) by congruence.
  change (c :: t ++ rejoin ts) with ((c :: t) ++ rejoin ts).
  rewrite strchrnul_token, between_app, (keyword (table := rpcaccess_table)) by done. cbn [negb andb].
  destruct (assoc _ _); [|done]. rewrite max_if. by destruct (rejoin ts).
Qed.

Lemma others_cons t ts :
  others (t :: ts) = if decide (assoc rpcaccess_table t = None) then t :: others ts else others ts.
Proof. done. Qed.

Lemma highest_cons t ts : highest (t :: ts) = Z.max (level t) (highest ts).
Proof. done. Qed.

(** The first token stays. *)
Lemma extract_keep t ts res :
  token t → Forall token ts → 0 ≤ res → assoc rpcaccess_table t = None →
  ∃ k, (k ≤ 2 + length (t ++ rejoin ts))%nat ∧
    steps (extract_step gperf_rpcaccess) k ([], t ++ rejoin ts, res)
      (inr (join (others (t :: ts)), Z.max res (highest (t :: ts)))).
Proof.
  intros Ht Hts Hres El. rewrite others_cons, decide_True, join_rejoin, highest_cons by done.
  replace (Z.max res (Z.max (level t) (highest ts))) with (Z.max res (highest ts))
    by (pose proof (highest_nonneg ts); unfold level; rewrite El;
        cbn [default from_option]; unfold RPCACCESS_NONE; lia).
  destruct (extract_rest ts t res Hts Hres) as (k & Hk & H). destruct (decide (t = [])) as [->|Hne].
  - exists k. split; [simpl; lia|done].
  - exists (S k). split; [rewrite length_app; lia|].
    eapply steps_next; [rewrite extract_first, El by done; done|done].
Qed.

(** Levels at the start of the string are dropped with the comma behind them. *)
Lemma extract_all ts t res :
  token t → Forall token ts → 0 ≤ res →
  ∃ k, (k ≤ 2 + length (t ++ rejoin ts))%nat ∧
    steps (extract_step gperf_rpcaccess) k ([], t ++ rejoin ts, res)
      (inr (join (others (t :: ts)), Z.max res (highest (t :: ts)))).
Proof.
  revert t res. induction ts as [|u ts IH]; intros t res Ht Hts Hres.
  all: destruct (assoc rpcaccess_table t) as [acc|] eqn:El; [|by apply extract_keep].
  all: assert (t ≠ []) by (intros ->; by rewrite level_nil in El).
  all: assert (level t = acc) as Elev by (unfold level; by rewrite El).
  all: pose proof (level_nonneg t); rewrite others_cons, decide_False, highest_cons by (by rewrite El).
  all: pose proof (extract_first t) as Hfirst; rewrite El in Hfirst.
  - exists 2%nat. split; [lia|]. eapply steps_next; [by apply Hfirst|].
    apply steps_stop. cbn [rejoin foldr tail extract_step]. f_equal. f_equal.
    change (highest []) with 0. lia.
  - apply Forall_cons in Hts as [Hu Hts].
    destruct (IH u (Z.max res acc)) as (k & Hk & Hs); [done|done|lia|].
    exists (S k). split; [cbn [rejoin foldr]; fold (rejoin ts); rewrite length_app in *; simpl; rewrite length_app; lia|].
    eapply steps_next; [by apply Hfirst|]. rewrite Elev.
    by replace (Z.max res (Z.max acc (highest (u :: ts)))) with (Z.max (Z.max res acc) (highest (u :: ts))) by lia.
Qed.
End extract.

(** ** Properties *)

(** C37: [rpcaccess_granted_extract] returns the highest of the levels named in the
    comma separated string and leaves in it exactly the other tokens, in their
    order and separated as before. *)
Theorem rpcaccess_granted_extract_spec gperf_rpcaccess s :
  Keywords rpcaccess_table gperf_rpcaccess → strlen s < 2 ^ 63 →
  rpcaccess_granted_extract gperf_rpcaccess s = (join (others (split s)), highest (split s)).
Proof.
  intros Hk Hlen. destruct (split_tokens s) as (t & ts & E & Ht & Hts & Es). rewrite E.
  destruct (extract_all gperf_rpcaccess ts t RPCACCESS_NONE Ht Hts) as (k & Hb & H); [done|].
  unfold rpcaccess_granted_extract. rewrite <-Es in Hb, H. unfold strlen in Hlen.
  rewrite (cloop_run _ 64 k _ _ H) by (change (2 ^ Z.of_nat 64) with (2 ^ 64); lia).
  by rewrite Z.max_r by apply highest_nonneg.
Qed.

Lemma rpcaccess_granted_extract_spec_witness :
  rpcaccess_granted_extract (assoc rpcaccess_table) (str "rd,foo,cmd,bar,wr") =
  (str "foo,bar", RPCACCESS_COMMAND).
Proof.
  rewrite (rpcaccess_granted_extract_spec (assoc rpcaccess_table) (str "rd,foo,cmd,bar,wr"));
    [by vm_compute|apply _|by vm_compute].
Defined.

(** The names and the levels agree: the name of every level but none is found
    again as that level, other numbers have the empty name, and every string that
    is not the name of a level has none. *)
Theorem rpcaccess_granted_names gperf_rpcaccess acc s :
  Keywords rpcaccess_table gperf_rpcaccess →
  (acc ∈ rpcaccess_table.*2 →
     rpcaccess_granted_access gperf_rpcaccess (rpcaccess_granted_str acc) = acc) ∧
  (acc ∉ rpcaccess_table.*2 → rpcaccess_granted_str acc = []) ∧
  (rpcaccess_granted_access gperf_rpcaccess s ≠ RPCACCESS_NONE →
     rpcaccess_granted_str (rpcaccess_granted_access gperf_rpcaccess s) = s).
Proof.
  intros Hk. unfold rpcaccess_granted_access. rewrite !(Hk _).
  split_and!.
  - unfold rpcaccess_table at 1. cbn [fmap list_fmap snd]. rewrite !elem_of_cons, elem_of_nil.
    intros Hin. destruct_or! Hin; by subst.
  - unfold rpcaccess_granted_str, rpcaccess_table. cbn [fmap list_fmap snd].
    rewrite !not_elem_of_cons, <-!Z.eqb_neq. intros Hin. destruct_and! Hin.
    repeat match goal with H : (acc =? _) = false |- _ => rewrite H; clear H end. done.
  - unfold rpcaccess_table. cbn [assoc].
    repeat (destruct (decide (_ = s)) as [<-|]; [by intros _; vm_compute|]). done.
Qed.

Lemma rpcaccess_granted_names_witness :
  rpcaccess_granted_access (assoc rpcaccess_table) (rpcaccess_granted_str RPCACCESS_SERVICE) =
  RPCACCESS_SERVICE.
Proof.
  apply (rpcaccess_granted_names (assoc rpcaccess_table) RPCACCESS_SERVICE []); [apply _|by_evaluation].
Defined.
