(* ===== verification/Strset.v ===== *)
(** * Sets of strings ([libshvrpc/strset.c], [libshvrpc/strset.h])

    The names of nodes a listing collects: an array sorted by a hash of the string,
    searched by halving.  [None] stands for a read outside of the array or a failed
    assertion.  Memory is taken to be available: the source does not look at what
    [realloc] and [strdup] return. *)

From stdpp Require Import sorting sets.
From S2P Require Import Prelude Stdio.

(** ** Definitions *)

Record strset_item : Type := Strset_item { hash : Z; str_ : cstr; dyn : bool }.
Record strset : Type := Strset { items : list strset_item; siz : Z }.

Definition cnt_of (set : strset) : Z := Z.of_nat (length (items set)).

Fixpoint strhash_from (res : Z) (s : cstr) : Z :=
  match s with
  | [] => res
  | c :: s' =>
      strhash_from (Z.lxor (Z.lor (u32 (Z.shiftl res 8)) (Z.shiftr res 24)) (u32 (i8 c))) s'
  end.

Definition strhash (s : cstr) : Z := strhash_from 0 s.

(** One round of the search between [min] and [max]; the comparison is unsigned. *)
Definition strpos_step (l : list strset_item) (hsh : Z) (st : nat * nat) :
    nat * nat + option nat :=
  let '(min, max) := st in
  if decide (min = max) then
    inr (it ← l !! min; Some (if hsh <=? hash it then min else S min))
  else
    let i := ((min + max + 1) / 2)%nat in
    match l !! i with
    | None => inr None
    | Some it => inl (if hsh <? hash it then (min, i - 1)%nat else (i, max))
    end.

Definition strpos (set : strset) (hsh : Z) : option nat :=
  match items set with
  | [] => Some 0%nat
  | _ =>
      match cloop (strpos_step (items set) hsh) 64 (0%nat, (length (items set) - 1)%nat) with
      | inr r => r
      | inl _ => None
      end
  end.

(** Adding at a position moves what follows. *)
Definition insert_item {A} (pos : nat) (x : A) (l : list A) : list A := take pos l ++ x :: drop pos l.

(** The string at the position is the one to add. *)
Definition present (set : strset) (s : cstr) (pos : nat) : bool :=
  match items set !! pos with
  | Some it => (hash it =? strhash s) && (strcmp (str_ it) s =? 0)
  | None => false
  end.

(** The capacity after it grew if it had to. *)
Definition capacity (set : strset) : Z :=
  if siz set <=? cnt_of set
  then if u64 (siz set * 2) =? 0 then 2 else u64 (siz set * 2)
  else siz set.

Definition add (set : strset) (s : cstr) (d : bool) : option (strset * bool) :=
  let hsh := strhash s in
  pos ← strpos set hsh;
  if present set s pos then Some (set, false)
  else if Z.of_nat pos <? capacity set
  then Some (Strset (insert_item pos (Strset_item hsh s d) (items set)) (capacity set), true)
  else None.

(** The emptied set and the strings that were freed. *)
Definition shv_strset_free (set : strset) : strset * list cstr :=
  (Strset [] 0, str_ <$> filter (λ it, dyn it = true) (items set)).

(** The duplicate is freed when the string was there already. *)
Definition shv_strset_add (set : strset) (s : cstr) : option (strset * bool * list cstr) :=
  '(set, res) ← add set s true;
  Some (set, res, if (res : bool) then [] else [s]).

Definition shv_strset_add_const (set : strset) (s : cstr) : option (strset * bool) :=
  add set s false.

Definition shv_strset_add_dyn (set : strset) (s : cstr) : option (strset * bool * list cstr) :=
  '(set, res) ← add set s true;
  Some (set, res, if (res : bool) then [] else [s]).

(** ** The invariant *)

Definition by_hash (a b : strset_item) : Prop := hash a ≤ hash b.

Record strset_wf (set : strset) : Prop := {
  wf_sorted : StronglySorted by_hash (items set);
  wf_hash : Forall (λ it, hash it = strhash (str_ it) ∧ wf_cstr (str_ it)) (items set);
  wf_size : cnt_of set ≤ siz set ≤ 2 * cnt_of set }.

Definition strs (set : strset) : list cstr := str_ <$> items set.

(** No other string of the set has the hash of [s]. *)
Definition hash_unique (set : strset) (s : cstr) : Prop :=
  ∀ s', s' ∈ strs set → strhash s' = strhash s → s' = s.

(** ** Lemmas *)

Lemma sorted_lookup (l : list strset_item) i j x y :
  StronglySorted by_hash l → (i ≤ j)%nat → l !! i = Some x → l !! j = Some y → hash x ≤ hash y.
Proof.
  intros Hs. revert i j. induction Hs as [|a l Hs IH Ha]; intros i j Hij Hi Hj; [done|].
  destruct i as [|i], j as [|j]; simplify_eq/=; [done| |lia|].
  - rewrite Forall_lookup in Ha. by apply (Ha j).
  - apply (IH i j); [lia|done|done].
Qed.

(** What the search keeps: everything behind [max] has a greater hash. *)
Definition search_inv (l : list strset_item) (hsh : Z) (st : nat * nat) : Prop :=
  let '(min, max) := st in
  (min ≤ max < length l)%nat ∧
  (min = 0%nat ∨ ∃ it, l !! min = Some it ∧ hash it ≤ hsh) ∧
  (∀ i it, (max < i)%nat → l !! i = Some it → hsh < hash it).

(** Where the hash belongs: smaller ones are before, greater ones behind, and if it
    is in the set then at this position. *)
Definition position (l : list strset_item) (hsh : Z) (pos : nat) : Prop :=
  (pos ≤ length l)%nat ∧
  (∀ i it, (i < pos)%nat → l !! i = Some it → hash it ≤ hsh) ∧
  (∀ i it, (pos ≤ i)%nat → l !! i = Some it → hsh ≤ hash it) ∧
  (∀ it, it ∈ l → hash it = hsh → ∃ it', l !! pos = Some it' ∧ hash it' = hsh).

Lemma search_end l hsh p :
  StronglySorted by_hash l → search_inv l hsh (p, p) →
  ∃ it, l !! p = Some it ∧ position l hsh (if hsh <=? hash it then p else S p).
Proof.
  intros Hs (Hp & Hmin & Hmax). destruct (lookup_lt_is_Some_2 l p) as [it Hit]; [lia|].
  exists it. split; [done|]. destruct (Z.leb_spec hsh (hash it)) as [Hle|Hlt]; split_and!.
  - lia.
  - intros i it' Hi Hit'. destruct Hmin as [->|(it0 & ? & ?)]; [lia|].
    pose proof (sorted_lookup l i p it' it0 Hs ltac:(lia) Hit' H). lia.
  - intros i it' Hi Hit'. pose proof (sorted_lookup l p i it it' Hs Hi Hit Hit'). lia.
  - intros it' [i Hi]%list_elem_of_lookup Heq. exists it. split; [done|].
    destruct (decide (p < i)%nat); [specialize (Hmax i it' ltac:(lia) Hi); lia|].
    pose proof (sorted_lookup l i p it' it Hs ltac:(lia) Hi Hit).
    destruct Hmin as [->|(it0 & ? & ?)]; [|simplify_eq; lia].
    replace i with 0%nat in Hi by lia. by simplify_eq.
  - lia.
  - intros i it' Hi Hit'. pose proof (sorted_lookup l i p it' it Hs ltac:(lia) Hit' Hit). lia.
  - intros i it' Hi Hit'. specialize (Hmax i it' ltac:(lia) Hit'). lia.
  - intros it' [i Hi]%list_elem_of_lookup Heq. exfalso.
    destruct (decide (p < i)%nat); [specialize (Hmax i it' ltac:(lia) Hi); lia|].
    pose proof (sorted_lookup l i p it' it Hs ltac:(lia) Hi Hit). lia.
Qed.

Lemma strpos_position set hsh :
  StronglySorted by_hash (items set) → cnt_of set < 2 ^ 63 →
  ∃ pos, strpos set hsh = Some pos ∧ position (items set) hsh pos.
Proof.
  intros Hs Hlen. unfold strpos. unfold cnt_of in Hlen. destruct (items set) as [|it0 l0] eqn:E.
  { exists 0%nat. split; [done|]. split_and!; try done. by intros it ?%elem_of_nil. }
  rewrite <-E in *. set (l := items set) in *.
  assert (0 < length l)%nat by (rewrite E; simpl; lia).
  destruct (steps_total_inv (strpos_step l hsh) (search_inv l hsh)
    (λ r, ∃ pos, r = Some pos ∧ position l hsh pos) (λ st, st.2 - st.1)%nat) with
    (s := (0%nat, (length l - 1)%nat)) as (k & r & Hk & Hr & pos & -> & Hpos).
  - intros [min max] Hinv. unfold strpos_step. destruct (decide (min = max)) as [<-|Hne].
    { destruct (search_end l hsh min Hs Hinv) as (it & -> & ?). eexists. by split. }
    destruct Hinv as (Hp & Hmin & Hmax). pose proof (Nat.div_mod_eq (min + max + 1) 2).
    pose proof (Nat.mod_upper_bound (min + max + 1) 2 ltac:(lia)).
    set (i := ((min + max + 1) / 2)%nat) in *.
    destruct (lookup_lt_is_Some_2 l i) as [it Hit]; [lia|]. rewrite Hit.
    destruct (Z.ltb_spec hsh (hash it)); (split; [split_and!|simpl; lia]); try lia; try done.
    + intros j it' Hj Hit'. pose proof (sorted_lookup l i j it it' Hs ltac:(lia) Hit Hit'). lia.
    + right. eauto.
  - split_and!; [lia|lia|by left|]. intros i it Hi Hit. apply lookup_lt_Some in Hit. lia.
  - exists pos. split; [|done]. cbn [fst snd] in Hk.
    by rewrite (cloop_run _ 64 k _ _ Hr) by (change (2 ^ Z.of_nat 64) with (2 ^ 64); lia).
Qed.

Lemma insert_sorted_at l hsh pos x :
  StronglySorted by_hash l → position l hsh pos → hash x = hsh →
  StronglySorted by_hash (insert_item pos x l).
Proof.
  intros Hs (Hp & Hlo & Hhi & _) Hx. unfold insert_item. rewrite <-(take_drop pos l) in Hs.
  apply StronglySorted_app in Hs as (Hcross & H1 & H2). apply StronglySorted_app_2; [|done|].
  - intros a b Ha [->|Hb]%elem_of_cons; [|by apply Hcross].
    apply list_elem_of_lookup in Ha as [i Hi]. apply lookup_take_Some in Hi as [Hi Hip].
    unfold by_hash. rewrite Hx. by apply (Hlo i).
  - constructor; [done|]. apply Forall_forall. intros b [i Hi]%list_elem_of_lookup.
    rewrite lookup_drop in Hi. unfold by_hash. rewrite Hx. apply (Hhi (pos + i)%nat); [lia|done].
Qed.

Lemma insert_item_perm {A} pos (x : A) l : insert_item pos x l ≡ₚ x :: l.
Proof. unfold insert_item. by rewrite <-Permutation_middle, take_drop. Qed.

Lemma length_insert_item {A} pos (x : A) l : length (insert_item pos x l) = S (length l).
Proof. by rewrite (insert_item_perm pos x l). Qed.

Lemma capacity_grown set :
  cnt_of set ≤ siz set ≤ 2 * cnt_of set → cnt_of set < 2 ^ 62 →
  cnt_of set + 1 ≤ capacity set ≤ 2 * (cnt_of set + 1).
Proof.
  intros Hs Hc. unfold capacity. assert (0 ≤ cnt_of set) by (unfold cnt_of; lia).
  destruct (Z.leb_spec (siz set) (cnt_of set)); [|lia].
  rewrite uwrap_small by (unfold urange; lia).
  destruct (Z.eqb_spec (siz set * 2) 0); lia.
Qed.

(** A string whose hash is at its position: it is there, or another one collides. *)
Lemma present_spec set s pos :
  strset_wf set → wf_cstr s → position (items set) (strhash s) pos → hash_unique set s →
  present set s pos = bool_decide (s ∈ strs set).
Proof.
  intros [_ Hh _] Hs (_ & _ & _ & Hat) Hu. unfold present. rewrite Forall_forall in Hh.
  destruct (bool_decide_reflect (s ∈ strs set)) as [Hin|Hout].
  - apply list_elem_of_fmap in Hin as (it & -> & Hit).
    destruct (Hat it) as (it' & Hl & Heq); [done|by apply Hh|]. rewrite Hl.
    assert (str_ it' = str_ it) as ->.
    { apply Hu; [apply list_elem_of_fmap_2; by eapply list_elem_of_lookup_2|].
      rewrite <-Heq. symmetry. apply Hh. by eapply list_elem_of_lookup_2. }
    by rewrite Heq, Z.eqb_refl, strcmp_refl.
  - destruct (items set !! pos) as [it|] eqn:Hl; [|done].
    apply list_elem_of_lookup_2 in Hl.
    destruct (Z.eqb_spec (strcmp (str_ it) s) 0) as [E|]; [|apply andb_false_r]. destruct Hout.
    apply strcmp_eq in E; [|by apply Hh|done]. subst. by apply list_elem_of_fmap_2.
Qed.

Lemma strset_add_spec set s d :
  strset_wf set → cnt_of set < 2 ^ 62 → wf_cstr s →
  ∃ set' b, add set s d = Some (set', b) ∧ strset_wf set' ∧ s ∈ strs set' ∧
    (if b then items set' ≡ₚ Strset_item (strhash s) s d :: items set else set' = set) ∧
    (hash_unique set s → b = bool_decide (s ∉ strs set) ∧ (NoDup (strs set) → NoDup (strs set'))).
Proof.
  intros Hwf Hc Hs. pose proof Hwf as [Hsort Hh Hsize]. unfold add.
  destruct (strpos_position set (strhash s) Hsort) as (pos & -> & Hpos); [lia|].
  cbn [mbind option_bind].
  assert (hash_unique set s → present set s pos = bool_decide (s ∈ strs set)) as Hu
    by (intros; by apply present_spec).
  destruct (present set s pos) eqn:Ep.
  - exists set, false. split_and!; [done|done| |done|].
    + unfold present in Ep. destruct (items set !! pos) as [it|] eqn:Hl; [|done].
      apply andb_prop in Ep as [_ Ep%Z.eqb_eq]. rewrite Forall_forall in Hh.
      apply list_elem_of_lookup_2 in Hl. apply strcmp_eq in Ep; [|by apply Hh|done]. subst s.
      by apply list_elem_of_fmap_2.
    + intros H%Hu. split; [|done]. by rewrite bool_decide_not, <-H.
  - destruct (capacity_grown set Hsize Hc) as [Hlo Hhi]. pose proof Hpos as (Hle & _).
    unfold cnt_of in Hlo. rewrite (proj2 (Z.ltb_lt _ _)) by lia.
    set (it := Strset_item (strhash s) s d). pose proof (insert_item_perm pos it (items set)) as Hperm.
    eexists _, true. split; [done|]. split_and!.
    + split; cbn [items siz].
      * by apply (insert_sorted_at _ (strhash s)).
      * rewrite Hperm. by constructor.
      * unfold cnt_of in *. cbn [items]. rewrite length_insert_item. lia.
    + unfold strs. cbn [items]. rewrite Hperm. by left.
    + done.
    + intros H%Hu. split; [by rewrite bool_decide_not, <-H|]. unfold strs. cbn [items]. rewrite Hperm.
      intros Hnd. apply NoDup_cons. split; [|done]. by eapply bool_decide_eq_false_1.
Qed.

(** ** Properties *)

(** Adding to the set stays inside the array and keeps it sorted by the hash
    and with room for all; the string is in the set afterwards, and what else was
    there stays.  As long as no two different strings have the same hash, it is
    added exactly when it was not there, so no string is there twice. *)
Theorem strset_add set s d :
  strset_wf set → cnt_of set < 2 ^ 62 → wf_cstr s →
  ∃ set' b, add set s d = Some (set', b) ∧ strset_wf set' ∧ s ∈ strs set' ∧
    (if b then items set' ≡ₚ Strset_item (strhash s) s d :: items set else set' = set) ∧
    (hash_unique set s → b = bool_decide (s ∉ strs set) ∧ (NoDup (strs set) → NoDup (strs set'))).
Proof. apply strset_add_spec. Qed.

Lemma strset_add_witness :
  let set := Strset [Strset_item 0x61 [0x61] true] 2 in
  ∃ set' b, add set (str "b") false = Some (set', b) ∧ strset_wf set' ∧ str "b" ∈ strs set' ∧
    (if b then items set' ≡ₚ Strset_item (strhash (str "b")) (str "b") false :: items set else set' = set) ∧
    (hash_unique set (str "b") →
     b = bool_decide (str "b" ∉ strs set) ∧ (NoDup (strs set) → NoDup (strs set'))).
Proof.
  apply (strset_add (Strset [Strset_item 0x61 [0x61] true] 2) (str "b") false).
  - split; [repeat constructor|by_evaluation|by_evaluation].
  - by vm_compute.
  - by_evaluation.
Defined.

(** ** Where the code and its description differ *)

(** Strings with the same hash hide each other: the search gives one position of
    the hash, and only the string there is compared. *)
Example strset_collision :
  ('(s1, b1) ← shv_strset_add_const (Strset [] 0) (str "aaaabbbb");
   '(s2, b2) ← shv_strset_add_const s1 (str "bbbbaaaa");
   '(s3, b3) ← shv_strset_add_const s2 (str "bbbbaaaa");
   Some (strs s3, b1, b2, b3)) =
  Some ([str "bbbbaaaa"; str "bbbbaaaa"; str "aaaabbbb"], true, true, true).
Proof. by vm_compute. Qed.
