(* ===== verification/CpObstack.v ===== *)
(** * Duplicates on an obstack ([libshvcp/cp_unpack.c])

    Strings and blobs that are unpacked straight to the growing object of an
    obstack.  Of the obstack the model has the object that grows and the room left
    in the chunk.  How much room a new chunk brings and how much is left after an
    object was finished (objects are aligned) are parameters, [chunks]. *)

From S2P Require Import Prelude Stdio Chainpack CpItem ChainpackPack ChainpackUnpack CpUnpack.
From S2P Require Import CpUnpackChainpack.

(** ** Definitions *)

Record chunks : Type := Chunks {
  more : Z → Z;  (** behind a byte added to an object of the given size in a full chunk *)
  settle : Z → Z (** after an object was finished with the given room behind it *) }.

Definition chunks_wf (ck : chunks) : Prop :=
  ∀ n, 0 < more ck n < 2 ^ 62 ∧ 0 ≤ settle ck n < 2 ^ 62.

Record obstack : Type := Obstack { obj : list Z; room : Z }.

Definition obstack_object_size (o : obstack) : Z := Z.of_nat (length (obj o)).

(** Freeing the object that grows gives its room back. *)
Definition obstack_discard (o : obstack) : obstack := Obstack [] (room o + obstack_object_size o).

(** The object and what is left for the next one. *)
Definition obstack_finish (ck : chunks) (o : obstack) : list Z * obstack :=
  (obj o, Obstack [] (settle ck (room o))).

(** Memory for a structure of [n] bytes. *)
Definition obstack_alloc (ck : chunks) (n : Z) (o : obstack) : obstack :=
  Obstack [] (settle ck (room o - n)).

(** Releasing what was allocated last. *)
Definition obstack_free (ck : chunks) (o : obstack) : obstack :=
  Obstack [] (settle ck (room o + obstack_object_size o)).

Section dupog.
Context {U : Type} (unpack : U → cpitem → U * cpitem).
Context (ck : chunks).

Definition obstack_1grow (c : Z) (o : obstack) : obstack :=
  Obstack (obj o ++ [c]) (if room o <? 1 then more ck (obstack_object_size o) else room o - 1).

Record dupog_state : Type := Dupog {
  du : U; ditem : cpitem; dobs : obstack; zeropad : nat; failed : bool }.

Definition dupog_step (ty : cpitem_type) (len_ : Z) (s : dupog_state) : dupog_state + dupog_state :=
  let '(o, zp) :=
    if room (dobs s) =? 0 then (obstack_1grow 0 (dobs s), 1%nat) else (dobs s, zeropad s) in
  let room_ := room o + Z.of_nat zp in
  let limit := u64 (len_ - obstack_object_size o) in
  let siz := Z.min room_ limit in
  let '(u, it) :=
    unpack (du s) (set_buffer (Some (replicate (Z.to_nat room_) 0)) siz (ditem s)) in
  if negb (bool_decide (type it = ty)) then
    inr (Dupog u (set_bufsiz 0 it) (obstack_discard o) zp true)
  else
    let b := as_Blob (as_ it) in
    let '(o, zp) :=
      if 0 <? len b then
        (Obstack (take (length (obj o) - zp) (obj o) ++ take (Z.to_nat (len b)) (default [] (buf it)))
           (room o - (len b - Z.of_nat zp)), 0%nat)
      else (o, zp) in
    let s := Dupog u it o zp false in
    if (obstack_object_size o <? len_) && negb (has (flags b) CPBI_F_LAST) then inl s else inr s.

Definition cp_unpack_dupog (ty : cpitem_type) (len_ : Z) (u : U) (it : cpitem) (o : obstack) :
    U * cpitem * obstack * bool :=
  let s := while (dupog_step ty len_) (Dupog u it o 0 false) in
  if failed s then (du s, ditem s, dobs s, false)
  else
    let it := set_bufsiz 0 (ditem s) in
    let o := dobs s in
    let text := bool_decide (ty = CPITEM_STRING) in
    let o :=
      if decide (zeropad s ≠ 0%nat)
      then if text then o else Obstack (take (length (obj o) - zeropad s) (obj o)) (room o + 1)
      else if text then obstack_1grow 0 o else o in
    (du s, it, o, true).

Definition cp_unpack_strndupog := cp_unpack_dupog CPITEM_STRING.
Definition cp_unpack_strdupog := cp_unpack_dupog CPITEM_STRING SIZE_MAX.
Definition cp_unpack_memndupog := cp_unpack_dupog CPITEM_BLOB.
Definition cp_unpack_memdupog := cp_unpack_dupog CPITEM_BLOB SIZE_MAX.

(** The finished string with its terminator; [None] is the [NULL] pointer. *)
Definition cp_unpack_strndupo (len_ : Z) (u : U) (it : cpitem) (o : obstack) :
    U * cpitem * obstack * option (list Z) :=
  let '(u, it, o, ok) := cp_unpack_strndupog len_ u it o in
  if (ok : bool) then let '(res, o) := obstack_finish ck o in (u, it, o, Some res)
  else (u, it, o, None).

Definition cp_unpack_strdupo (u : U) (it : cpitem) (o : obstack) :
    U * cpitem * obstack * option (list Z) :=
  let '(u, it, o, ok) := cp_unpack_strdupog u it o in
  if (ok : bool) then let '(res, o) := obstack_finish ck o in (u, it, o, Some res)
  else (u, it, o, None).

(** Whether it was a blob is not looked at. *)
Definition cp_unpack_memndupo (siz : Z) (u : U) (it : cpitem) (o : obstack) :
    U * cpitem * obstack * list Z :=
  let '(u, it, o, _) := cp_unpack_memndupog siz u it o in
  let '(res, o) := obstack_finish ck o in (u, it, o, res).

Definition cp_unpack_memdupo (u : U) (it : cpitem) (o : obstack) :
    U * cpitem * obstack * list Z :=
  let '(u, it, o, _) := cp_unpack_memdupog u it o in
  let '(res, o) := obstack_finish ck o in (u, it, o, res).
End dupog.

(** ** Lemmas *)

Section spec.
Context {U : Type} (unpack : U → cpitem → U * cpitem) `{!UnpackSpec unpack}.
Context (ck : chunks) (ck_wf : chunks_wf ck).

Abbreviation sz o := (obstack_object_size o).

(** One round: the next block of the data is added to the object. *)
Lemma dupog_round blob l u it u' o len_ :
  data_next unpack blob l u it u' → sz o + Z.of_nat (length l) < 2 ^ 62 → sz o < len_ < 2 ^ 64 →
  0 ≤ room o < 2 ^ 62 →
  ∃ l1 l2 u1 it1 o1 zp last,
    l = l1 ++ l2 ∧ obj o1 = obj o ++ l1 ++ replicate zp 0 ∧ 0 ≤ room o1 < 2 ^ 62 ∧
    sz o + Z.of_nat (length l1) ≤ len_ ∧ (zp ≤ 1)%nat ∧
    (zp = 1%nat → l1 = []) ∧ (last = false → l1 = [] → zp = 1%nat ∧ sz o + 1 = len_) ∧
    data_left unpack blob last l2 u1 it1 u' ∧
    dupog_step unpack ck (data_type blob) len_ (Dupog u it o 0 false) =
      let s := Dupog u1 it1 o1 zp false in
      if (sz o1 <? len_) && negb last then inl s else inr s.
Proof.
  intros Hd Hlen Hlim Hroom. destruct (ck_wf (sz o)) as [Hmore _].
  unfold dupog_step. cbn [du ditem dobs zeropad].
  set (pr := if room o =? 0 then _ else _).
  assert (∃ o0 zp, pr = (o0, zp) ∧ obj o0 = obj o ++ replicate zp 0 ∧ (zp ≤ 1)%nat ∧
    0 < room o0 + Z.of_nat zp ∧ 0 ≤ room o0 < 2 ^ 62) as (o0 & zp & Epr & Ho0 & Hzp & Hr0 & Hr0').
  { subst pr. destruct (Z.eqb_spec (room o) 0) as [E|]; eexists _, _; (split; [done|]).
    - unfold obstack_1grow. rewrite E. cbn. split; [done|lia].
    - cbn. rewrite app_nil_r. split; [done|lia]. }
  rewrite Epr. clear pr Epr. set (room_ := room o0 + Z.of_nat zp) in *.
  assert (sz o0 = sz o + Z.of_nat zp) as Hsz
    by (unfold obstack_object_size; rewrite Ho0, length_app, length_replicate; lia).
  assert (0 ≤ sz o) as Hsz0 by (unfold obstack_object_size; lia).
  rewrite uwrap_small by (unfold urange; lia).
  set (siz := Z.min room_ (len_ - sz o0)). assert (0 ≤ siz < 2 ^ 63) as Hsiz by lia.
  destruct (data_next_block unpack blob l u it u' (replicate (Z.to_nat room_) 0) siz Hd)
    as (l1 & l2 & fl & eo & u1 & it1 & m1 & Hu & Hl & Hl1 & Ht & Ha & Hb & Hml & Htk & Hlast & Hleft);
    [rewrite length_replicate; lia|unfold urange; lia|].
  rewrite Hu, Ht, bool_decide_true by done. cbn [negb]. rewrite Ha, Hb. cbn [as_Blob len flags default from_option id].
  destruct (Z.ltb_spec 0 (Z.of_nat (length l1))) as [Hpos|Hnil].
  - eexists l1, l2, u1, it1, _, 0%nat, (has fl CPBI_F_LAST). split; [done|].
    split_and!; [..|cbn [fst snd]; cbv zeta; reflexivity]; cbn [obj room]; try done; try lia.
    + rewrite Ho0, length_app, length_replicate, Nat.add_sub, take_app_length, Nat2Z.id, Htk.
      by rewrite app_nil_r.
    + intros _ ->. simpl in Hpos. lia.
  - assert (l1 = []) as -> by (destruct l1; simpl in *; [done|lia]).
    eexists [], l2, u1, it1, o0, zp, (has fl CPBI_F_LAST). split; [done|].
    split_and!; [..|cbv zeta; reflexivity]; try done; try (simpl; lia).
    intros Hnl _. simpl in Hl1, Hl. subst l2. destruct (decide (siz = 0)) as [|Hne]; [split; lia|].
    rewrite Hlast in Hnl by lia. done.
Qed.

(** The whole loop: all of the data, or as much of it as the limit allows. *)
Lemma dupog_loop blob l u it u' o len_ :
  data_next unpack blob l u it u' → sz o + Z.of_nat (length l) < 2 ^ 62 → sz o < len_ < 2 ^ 64 →
  0 ≤ room o < 2 ^ 62 →
  ∃ k u1 it1 o1 zp n,
    (k ≤ length l + 1)%nat ∧ (n ≤ length l)%nat ∧
    obj o1 = obj o ++ take n l ++ replicate zp 0 ∧ (zp ≤ 1)%nat ∧
    sz o + Z.of_nat n ≤ len_ ∧ at_item unpack u1 it1 u' ∧
    (sz o + Z.of_nat (length l) + 1 < len_ → n = length l ∧ ready it1 = true ∧ u1 = u') ∧
    steps (dupog_step unpack ck (data_type blob) len_) k (Dupog u it o 0 false)
      (inr (Dupog u1 it1 o1 zp false)).
Proof.
  remember (length l) as m eqn:Em. revert l u it o Em.
  induction m as [m IH] using lt_wf_ind. intros l u it o -> Hd Hlen Hlim Hroom.
  destruct (dupog_round blob l u it u' o len_ Hd Hlen Hlim Hroom)
    as (l1 & l2 & u1 & it1 & o1 & zp & last & -> & Ho1 & Hr1 & Hle & Hzp & Hz1 & Hnil & Hleft & Hstep).
  assert (sz o1 = sz o + Z.of_nat (length l1) + Z.of_nat zp) as Hs1
    by (unfold obstack_object_size; rewrite Ho1, !length_app, length_replicate; lia).
  rewrite length_app in *. cbv zeta in Hstep.
  destruct ((sz o1 <? len_) && negb last) eqn:Ego.
  - apply andb_true_iff in Ego as [Hlt%Z.ltb_lt Hnl%negb_true_iff]. subst last. simpl in Hleft.
    assert (l1 ≠ []) as Hne by (intros E; destruct (Hnil eq_refl E) as [-> ?]; rewrite E in *; simpl in *; lia).
    assert (0 < length l1)%nat by (destruct l1; simpl; [done|lia]).
    assert (zp = 0%nat) as -> by (destruct zp as [|[|]]; [done|by specialize (Hz1 eq_refl)|lia]).
    destruct (IH (length l2)) with l2 u1 it1 o1 as
      (k & u2 & it2 & o2 & zp & n & Hk & Hn & Ho2 & Hzp2 & Hle2 & Hat & Hend & Hs);
      [lia|done|by right|lia|lia|lia|].
    exists (S k), u2, it2, o2, zp, (length l1 + n)%nat. rewrite take_app_add. rewrite Ho1 in Ho2.
    cbn [replicate] in Ho2. rewrite app_nil_r in Ho2. rewrite <-!app_assoc in *.
    split_and!; [lia|lia|done|done|lia|done| |by econstructor].
    intros. destruct Hend as (-> & ? & ?); [lia|]. split_and!; [lia|done|done].
  - apply andb_false_iff in Ego.
    exists 1%nat, u1, it1, o1, zp, (length l1). rewrite take_app_length.
    split_and!; [lia|lia|done|done|lia|by eapply data_left_at_item| |by constructor].
    intros Hlt. destruct last.
    + destruct Hleft as (-> & -> & ?). simpl. split_and!; [lia|done|done].
    + exfalso. destruct Ego as [Hge%Z.ltb_ge|?]; [|done]. lia.
Qed.

Lemma dupog_spec blob l u it u' o len_ :
  data_next unpack blob l u it u' → sz o + Z.of_nat (length l) < 2 ^ 62 → sz o < len_ < 2 ^ 64 →
  0 ≤ room o < 2 ^ 62 →
  ∃ u1 it1 o1 n,
    cp_unpack_dupog unpack ck (data_type blob) len_ u it o = (u1, it1, o1, true) ∧
    (n ≤ length l)%nat ∧ obj o1 = obj o ++ take n l ++ (if blob then [] else [0]) ∧
    sz o + Z.of_nat n ≤ len_ ∧ at_item unpack u1 it1 u' ∧
    (sz o + Z.of_nat (length l) + 1 < len_ → n = length l ∧ ready it1 = true ∧ u1 = u') ∧
    bufsiz it1 = 0.
Proof.
  intros Hd Hlen Hlim Hroom.
  destruct (dupog_loop blob l u it u' o len_ Hd Hlen Hlim Hroom) as
    (k & u1 & it1 & o1 & zp & n & Hk & Hn & Ho1 & Hzp & Hle & Hat & Hend & Hs).
  unfold cp_unpack_dupog. assert (0 ≤ sz o) by (unfold obstack_object_size; lia).
  rewrite (while_run _ k _ _ Hs) by lia. cbn [failed du ditem dobs zeropad].
  eexists u1, (set_bufsiz 0 it1), _, n. split; [done|]. split_and!; [done| |done| |done|done].
  - destruct zp as [|[|zp]]; [| |lia].
    + rewrite decide_False by lia. cbn [replicate] in Ho1. rewrite app_nil_r in Ho1.
      destruct blob; cbn [data_type];
        [rewrite bool_decide_eq_false_2 by done|rewrite bool_decide_eq_true_2 by done];
        unfold obstack_1grow; cbn [obj]; rewrite Ho1, ?app_nil_r, <-?app_assoc; done.
    + rewrite decide_True by lia. cbn [replicate] in Ho1.
      destruct blob; cbn [data_type];
        [rewrite bool_decide_eq_false_2 by done|rewrite bool_decide_eq_true_2 by done];
        cbn [obj]; rewrite Ho1; [|done].
      by rewrite !app_assoc, length_app, Nat.add_sub, take_app_length, app_nil_r.
  - destruct Hat as [[? ->]|(b & l' & Hp)]; [by left|]. right. exists b, l'.
    by apply (pending_buffer _ _ _ _ _ (buf it1) 0) in Hp.
Qed.
End spec.

(** ** Properties *)

(** Unpacking a string or blob to the object of an obstack adds its data to what
    the object holds, and a terminator after a string, whatever the room in the
    chunk and however many blocks it takes.  It is never more than the limit; data
    two bytes shorter than the limit are added whole and the reader is behind them,
    otherwise the reader may stand in the middle of them. *)
Theorem cp_unpack_dupog_data {U} (unpack : U → cpitem → U * cpitem) `{!UnpackSpec unpack}
    ck blob l u it u' o len_ :
  chunks_wf ck → 0 ≤ room o < 2 ^ 62 →
  data_next unpack blob l u it u' →
  obstack_object_size o + Z.of_nat (length l) < 2 ^ 62 → obstack_object_size o < len_ < 2 ^ 64 →
  ∃ u1 it1 o1 n,
    cp_unpack_dupog unpack ck (data_type blob) len_ u it o = (u1, it1, o1, true) ∧
    (n ≤ length l)%nat ∧ obj o1 = obj o ++ take n l ++ (if blob then [] else [0]) ∧
    obstack_object_size o + Z.of_nat n ≤ len_ ∧ at_item unpack u1 it1 u' ∧
    (obstack_object_size o + Z.of_nat (length l) + 1 < len_ →
     n = length l ∧ ready it1 = true ∧ u1 = u') ∧
    bufsiz it1 = 0.
Proof. intros. by apply dupog_spec. Qed.

Lemma cp_unpack_dupog_data_witness :
  let f := RFile (tok_bytes (TString (str "a string")) ++ [7]) false in
  ∃ f1 it1 o1 n,
    cp_unpack_dupog cp_unpack_chainpack_func (Chunks (λ _, 5) (λ _, 0)) CPITEM_STRING 100 f
      (Item CPITEM_INVALID (AsError CPERR_NONE) None 0) (Obstack (str "kept:") 2) =
      (f1, it1, o1, true) ∧
    (n ≤ 8)%nat ∧ obj o1 = str "kept:" ++ take n (str "a string") ++ [0] ∧
    5 + Z.of_nat n ≤ 100 ∧ at_item cp_unpack_chainpack_func f1 it1 (RFile [7] false) ∧
    (5 + Z.of_nat 8 + 1 < 100 → n = 8%nat ∧ ready it1 = true ∧ f1 = RFile [7] false) ∧
    bufsiz it1 = 0.
Proof.
  apply (cp_unpack_dupog_data cp_unpack_chainpack_func (Chunks (λ _, 5) (λ _, 0)) false (str "a string") _
    (Item CPITEM_INVALID (AsError CPERR_NONE) None 0) (RFile [7] false) (Obstack (str "kept:") 2) 100).
  - done.
  - done.
  - left. split; [|done]. exists (tok_bytes (TString (str "a string"))).
    split; [left; split; [by_evaluation|done]|done].
  - done.
  - done.
Defined.

(** ** Where the code and its description differ *)

(** With a limit that is used up and a full chunk the byte that makes room is
    counted against the limit, the difference wraps around and the limit is gone. *)
Example dupog_limit_wraps :
  let f := RFile (tok_bytes (TString (str "not limited"))) false in
  (cp_unpack_strndupo cp_unpack_chainpack_func (Chunks (λ _, 64) (λ _, 0)) 0 f
     (Item CPITEM_INVALID (AsError CPERR_NONE) None 0) (Obstack [] 0)).2 =
  Some (str "not limited" ++ [0]).
Proof. by vm_compute. Qed.
