(* ===== verification/CpLoops.v ===== *)
(** * Sequences of packing calls and the unpacking loops ([include/shv/cp_unpack.h])

    The building blocks of the message formats: packing calls one after the other,
    and the loops over the pairs of maps, the items of lists and the fields of
    integer maps.  [outputs] (from [CpPack]) says what a packing function writes;
    [reads f ts Q] says that an unpacking function consumes exactly the tokens [ts]
    and returns what [Q] says.  The loop rules reduce a loop to its body. *)

From stdpp Require Import relations.
From S2P Require Import Prelude Stdio Chainpack CpItem ChainpackPack ChainpackUnpack.
From S2P Require Import CpUnpack CpUnpackChainpack CpPack CpObstack.

(** ** Definitions *)

(** [a; return b;] and [if (!a) return false; return b;] *)
Definition and_then {P} (a b : P → P * bool) (p : P) : P * bool := let '(p, _) := a p in b p.
Definition and_if {P} (a b : P → P * bool) (p : P) : P * bool :=
  let '(p, ok) := a p in if (ok : bool) then b p else (p, false).

Notation "a >>> b" := (and_then a b) (at level 60, right associativity) : shv_scope.
Notation "a >>? b" := (and_if a b) (at level 60, right associativity) : shv_scope.

(** Nothing is packed. *)
Definition nop {P} (p : P) : P * bool := (p, true).

(** [if (c) a;] *)
Definition when {P} (c : bool) (a : P → P * bool) : P → P * bool := if c then a else nop.

(** [for (i = 0; i < cnt; i++) f(x[i]);] *)
Definition for_each {P A} (f : A → P → P * bool) (l : list A) : P → P * bool :=
  foldr (λ x k, f x >>> k) nop l.

(** *** Functions that do nothing but pack

    [packed p p']: [p'] comes from [p] by packing some items. *)
Section packing.
Context {P : Type} (pack : P → cpitem → P * bool).

Definition packed : P → P → Prop := rtc (λ p p', ∃ it, p' = (pack p it).1).

Class OnlyPacks (c : P → P * bool) : Prop := only_packs p : packed p (c p).1.

Lemma packed_refl p : packed p p.
Proof. apply rtc_refl. Qed.

Lemma packed_trans p1 p2 p3 : packed p1 p2 → packed p2 p3 → packed p1 p3.
Proof. apply transitivity. Qed.

#[export] Instance packs_item it : OnlyPacks (λ p, pack p it).
Proof. intros p. apply rtc_once. by exists it. Qed.

#[export] Instance packs_then a b : OnlyPacks a → OnlyPacks b → OnlyPacks (a >>> b).
Proof. intros Ha Hb p. unfold and_then. specialize (Ha p). destruct (a p) as [p1 ok]. by eapply packed_trans. Qed.

#[export] Instance packs_if a b : OnlyPacks a → OnlyPacks b → OnlyPacks (a >>? b).
Proof. intros Ha Hb p. unfold and_if. specialize (Ha p). destruct (a p) as [p1 []]; [by eapply packed_trans|done]. Qed.

Lemma packed_then a b p : OnlyPacks b → packed (a p).1 ((a >>> b) p).1.
Proof. intros Hb. unfold and_then. destruct (a p) as [p1 ok]. apply Hb. Qed.

Lemma packed_if a b p : OnlyPacks b → packed (a p).1 ((a >>? b) p).1.
Proof. intros Hb. unfold and_if. destruct (a p) as [p1 []]; [apply Hb|apply packed_refl]. Qed.

#[export] Instance packs_nop : OnlyPacks nop.
Proof. intros p. apply packed_refl. Qed.

#[export] Instance packs_when c a : OnlyPacks a → OnlyPacks (when c a).
Proof. intros Ha. unfold when. destruct c; [done|apply packs_nop]. Qed.

#[export] Instance packs_each {A} (f : A → P → P * bool) l : (∀ x, OnlyPacks (f x)) → OnlyPacks (for_each f l).
Proof. intros Hf. induction l as [|x l IH]; [apply packs_nop|]. by apply packs_then. Qed.

#[export] Instance packs_null : OnlyPacks (cp_pack_null pack) := packs_item _.
#[export] Instance packs_bool v : OnlyPacks (cp_pack_bool pack v) := packs_item _.
#[export] Instance packs_int v : OnlyPacks (cp_pack_int pack v) := packs_item _.
#[export] Instance packs_uint v : OnlyPacks (cp_pack_uint pack v) := packs_item _.
#[export] Instance packs_double v : OnlyPacks (cp_pack_double pack v) := packs_item _.
#[export] Instance packs_decimal v : OnlyPacks (cp_pack_decimal pack v) := packs_item _.
#[export] Instance packs_datetime v : OnlyPacks (cp_pack_datetime pack v) := packs_item _.
#[export] Instance packs_blob l : OnlyPacks (cp_pack_blob pack l) := packs_item _.
#[export] Instance packs_string l : OnlyPacks (cp_pack_string pack l) := packs_item _.
#[export] Instance packs_str s : OnlyPacks (cp_pack_str pack s).
Proof. destruct s; [apply packs_string|apply packs_null]. Qed.
#[export] Instance packs_list : OnlyPacks (cp_pack_list_begin pack) := packs_item _.
#[export] Instance packs_map : OnlyPacks (cp_pack_map_begin pack) := packs_item _.
#[export] Instance packs_imap : OnlyPacks (cp_pack_imap_begin pack) := packs_item _.
#[export] Instance packs_meta : OnlyPacks (cp_pack_meta_begin pack) := packs_item _.
#[export] Instance packs_end : OnlyPacks (cp_pack_container_end pack) := packs_item _.

Lemma packed_size blob siz it p : packed p (cp_pack_data_size pack blob siz it p).1.1.
Proof. unfold cp_pack_data_size. case_match eqn:E. apply rtc_once. eexists. by rewrite E. Qed.

Lemma packed_part blob l it p r : cp_pack_data_part pack blob l it p = Some r → packed p r.1.1.
Proof.
  unfold cp_pack_data_part. destruct (_ && _); [|done]. destruct (_ =? _); [intros [= <-]; apply packed_refl|].
  destruct (pack _ _) as [p' ok] eqn:E. intros [= <-]. apply rtc_once. eexists. by rewrite E.
Qed.
End packing.

Arguments only_packs {P} pack c {_} p.
#[export] Hint Extern 5 (OnlyPacks _ (match ?x with _ => _ end)) => destruct x : typeclass_instances.

(** What ChainPack wrote stays, whatever is packed after it. *)
Definition extends (f f' : ofile) : Prop :=
  match f, f' with Some w, Some w' => wf_out w `prefix_of` wf_out w' | None, None => True | _, _ => False end.

#[export] Instance extends_preorder : PreOrder extends.
Proof. split; [by intros [w|]; simpl|]. intros [w1|] [w2|] [w3|] H1 H2; try done. simpl in *. by etrans. Qed.

Class Appends (c : cmd) : Prop := appends f res : extends f (c f res).1.

#[export] Instance appends_WRITE l : Appends (WRITE l).
Proof.
  intros [w|] res; [|done]. unfold WRITE, fwrite. destruct (wf_room w); [destruct (_ <=? _)%nat|]; simpl; by eexists.
Qed.

#[export] Instance appends_PUTC v : Appends (PUTC v) := appends_WRITE _.

#[export] Instance appends_skip : Appends skipc.
Proof. intros f res. simpl. reflexivity. Qed.

#[export] Instance appends_seq a b : Appends a → Appends b → Appends (a ;;; b).
Proof.
  intros Ha Hb f res. unfold seqc. specialize (Ha f res). destruct (a f res) as [f1 [r|]]; [|done]. simpl in Ha. by etrans.
Qed.

Lemma appends_body c f : Appends c → extends f (body c f).1.
Proof. intros Hc. unfold body. specialize (Hc f 0). by destruct (c f 0) as [f1 [r|]]. Qed.

#[export] Instance appends_call c : Appends c → Appends (CALL (body c)).
Proof. intros Hc f res. unfold CALL. pose proof (appends_body c f Hc) as H. by destruct (body c f). Qed.

#[export] Hint Extern 5 (Appends (if ?x then _ else _)) => destruct x : typeclass_instances.

#[export] Instance appends_item i : Appends (pack_item i).
Proof.
  unfold pack_item, pack_blob, pack_string, chainpack_pack_uint, chainpack_pack_int. destruct (type i); apply _.
Qed.

Lemma packed_extends f f' : packed cp_pack_chainpack_func f f' → extends f f'.
Proof.
  induction 1 as [|f1 f2 f3 [it ->] _ IH]; [reflexivity|]. etrans; [|exact IH]. clear.
  unfold cp_pack_chainpack_func, chainpack_pack. destruct (common_pack f1 it); [simpl; reflexivity|].
  pose proof (appends_body (pack_item it) f1 _) as H. by destruct (body _ f1).
Qed.

(** What the C functions see of bytes that were unpacked to a string. *)
Fixpoint until_nul (l : list Z) : cstr :=
  match l with
  | [] => []
  | c :: l' => if c =? 0 then [] else c :: until_nul l'
  end.

Lemma until_nul_wf l k : wf_cstr l → until_nul (l ++ 0 :: k) = l ∧ until_nul l = l.
Proof.
  induction 1 as [|c l Hc Hl [IH1 IH2]]; simpl; [done|]. rewrite (proj2 (Z.eqb_neq _ _)) by lia.
  by rewrite IH1, IH2.
Qed.

Section loops.
Context {U : Type} (unpack : U → cpitem → U * cpitem).
Context {S R : Type}.

(** The body goes on with a state of its own or returns from the function. *)
Definition round (r : U * cpitem * (S + R)) : U * cpitem * S + U * cpitem * (S + R) :=
  let '(u, it, x) := r in
  match x with inl s => inl (u, it, s) | inr _ => inr (u, it, x) end.

Definition run (step : U * cpitem * S → U * cpitem * S + U * cpitem * (S + R))
    (st : U * cpitem * S) : U * cpitem * (S + R) :=
  match cloop step 64 st with inr r => r | inl (u, it, s) => (u, it, inl s) end.

Definition imap_step (body : Z → U → cpitem → S → U * cpitem * (S + R)) (st : U * cpitem * S) :
    U * cpitem * S + U * cpitem * (S + R) :=
  let '(u, it, s) := st in
  let '(u, it, ikey) := cp_unpack_int unpack (Signed 64) u it in
  match ikey with
  | None => inr (u, it, inl s)
  | Some ikey => round (body ikey u it s)
  end.

Definition for_cp_unpack_imap (body : Z → U → cpitem → S → U * cpitem * (S + R))
    (u : U) (it : cpitem) (s : S) : U * cpitem * (S + R) := run (imap_step body) (u, it, s).

Definition map_step (siz : Z) (body : cstr → U → cpitem → S → U * cpitem * (S + R))
    (st : U * cpitem * S) : U * cpitem * S + U * cpitem * (S + R) :=
  let '(u, it, s) := st in
  let '(u, it) :=
    unpack u (set_buffer (Some (replicate (Z.to_nat (siz + 2)) 0)) (siz + 1) it) in
  let it := set_bufsiz 0 it in
  if bool_decide (type it = CPITEM_STRING) then
    let key := until_nul (take (Z.to_nat (len (as_Blob (as_ it)))) (default [] (buf it))) in
    round (body key u it s)
  else inr (u, it, inl s).

Definition for_cp_unpack_map (siz : Z) (body : cstr → U → cpitem → S → U * cpitem * (S + R))
    (u : U) (it : cpitem) (s : S) : U * cpitem * (S + R) := run (map_step siz body) (u, it, s).

Definition list_step (body : U → cpitem → S → U * cpitem * (S + R)) (st : U * cpitem * S) :
    U * cpitem * S + U * cpitem * (S + R) :=
  let '(u, it, s) := st in
  let '(u, it) := unpack u it in
  if bool_decide (type it = CPITEM_INVALID) || bool_decide (type it = CPITEM_CONTAINER_END)
  then inr (u, it, inl s)
  else round (body u it s).

Definition for_cp_unpack_list (body : U → cpitem → S → U * cpitem * (S + R))
    (u : U) (it : cpitem) (s : S) : U * cpitem * (S + R) := run (list_step body) (u, it, s).
End loops.

(** ** Packing *)

Section outputs.
Context {P : Type} (pack : P → cpitem → P * bool) `{!PackSpec pack}.

Lemma outputs_nop : outputs pack nop [].
Proof. by intros p p' ->. Qed.

Lemma outputs_then a b ts1 ts2 :
  outputs pack a ts1 → outputs pack b ts2 → outputs pack (a >>> b) (ts1 ++ ts2).
Proof.
  intros Ha Hb p p' (p1 & H1 & H2)%emitted_list_app. unfold and_then.
  rewrite (Ha _ _ H1). by apply Hb.
Qed.

Lemma outputs_if a b ts1 ts2 :
  outputs pack a ts1 → outputs pack b ts2 → outputs pack (a >>? b) (ts1 ++ ts2).
Proof.
  intros Ha Hb p p' (p1 & H1 & H2)%emitted_list_app. unfold and_if.
  rewrite (Ha _ _ H1). by apply Hb.
Qed.

Lemma outputs_when (c : bool) a ts :
  (c = true → outputs pack a ts) → outputs pack (when c a) (if c then ts else []).
Proof. destruct c; [auto|]. intros _. apply outputs_nop. Qed.

Lemma outputs_for_each {A} (f : A → P → P * bool) g l :
  (∀ x, x ∈ l → outputs pack (f x) (g x)) → outputs pack (for_each f l) (flat_map g l).
Proof.
  induction l as [|x l IH]; intros H; simpl; [apply outputs_nop|].
  apply outputs_then; [apply H; left|]. apply IH. intros y Hy. apply H. by right.
Qed.

Lemma outputs_eq c ts ts' : outputs pack c ts → ts = ts' → outputs pack c ts'.
Proof. by intros ? <-. Qed.
End outputs.

#[export] Hint Resolve outputs_nop outputs_then outputs_if outputs_when outputs_for_each : shv.

(** Decide the comparisons of constant keys. *)
Ltac eval_keys :=
  repeat match goal with
  | |- context [?a =? ?b] =>
      let r := eval vm_compute in (a =? b) in
      match r with
      | true => change (a =? b) with true
      | false => change (a =? b) with false
      end
  end; cbn iota.

(** ** Unpacking *)

(** Ready for the next item and without a buffer, the state between the calls. *)
Definition idle_item (it : cpitem) : Prop := ready it = true ∧ bufsiz it = 0.

Lemma idle_wf it : bufsiz it = 0 → buf_wf it.
Proof. intros H. split; [by rewrite H|]. rewrite H. destruct (buf it); [lia|done]. Qed.

Section reads.
Context {U : Type} (unpack : U → cpitem → U * cpitem) `{!UnpackSpec unpack}.

(** [f] reads exactly the tokens [ts] and returns a result [Q] holds of. *)
Definition reads {A} (f : U → cpitem → U * cpitem * A) (ts : list tok) (Q : A → Prop) : Prop :=
  ∀ u u' it, yields_list unpack ts u u' → idle_item it →
  ∃ it' r, f u it = (u', it', r) ∧ idle_item it' ∧ Q r.

Lemma reads_impl {A} (f : U → cpitem → U * cpitem * A) ts (Q Q' : A → Prop) :
  reads f ts Q → (∀ r, Q r → Q' r) → reads f ts Q'.
Proof.
  intros H HQ u u' it Hy Hi. destruct (H u u' it Hy Hi) as (it' & r & ? & ? & ?). eauto 6.
Qed.

(** A token that is not a string or blob. *)
Lemma unpack_idle t u u' it :
  yields t u u' → is_data_tok t = false → idle_item it →
  ∃ it', unpack u it = (u', it') ∧ holds t it' ∧ idle_item it'.
Proof.
  intros Hy Hd [Hr Hb]. destruct (unpack_scalar t u u' it) as (it' & Hu & Hh & _ & Hb' & _);
    [done..|by apply idle_wf|]. exists it'. split; [done|]. split; [done|].
  split; [by eapply holds_ready|]. by rewrite Hb'.
Qed.

(** The head of a string or blob: its data is next. *)
Lemma unpack_head blob l u u' it :
  yields (data_tok blob l) u u' → idle_item it →
  ∃ u1 it', unpack u it = (u1, it') ∧ type it' = data_type blob ∧
    pending blob l u1 it' u' ∧ bufsiz it' = 0.
Proof.
  intros Hy [Hr Hb].
  destruct (unpack_data blob l u u' it Hy Hr (idle_wf it Hb))
    as (l1 & l2 & fl & Hl & Hlen & [Ht _ _ (_ & Hb' & _) _] & [_ Hnl] & Hend).
  rewrite (Hnl Hb) in Hend. rewrite Hb in Hlen.
  assert (l1 = []) as -> by (destruct l1; simpl in *; [done|lia]). simpl in Hl. subst l2.
  destruct (unpack u it) as [u1 it'] eqn:E. exists u1, it'. cbn [fst snd] in *.
  split_and!; [done|done|done|]. by rewrite Hb'.
Qed.

(** A number the destination can hold. *)
Definition fits_ctype (t : ctype) (v : Z) : Prop := fits_int t v = true ∧ conv t v = v.

Lemma reads_int_fits t v : fits_ctype t v → reads (cp_unpack_int unpack t) [TInt v] (λ r, r = Some v).
Proof.
  intros [Hf Hc] u u' it (u1 & Hy & ->) Hi.
  destruct (unpack_idle (TInt v) u u1 it Hy eq_refl Hi) as (it' & Hu & [Ht Ha] & Hi').
  exists it', (Some v). unfold cp_unpack_int. rewrite Hu. split; [|done].
  unfold cpitem_extract_int. rewrite Ht, Ha. cbn [as_Int]. by rewrite bool_decide_true, Hf, Hc.
Qed.

Lemma fits_signed w v : 0 < w ≤ 64 → srange w v → fits_ctype (Signed w) v.
Proof.
  intros Hw Hv. unfold fits_ctype, fits_int, conv. rewrite swrap_small by (done || lia).
  by rewrite Z.eqb_refl.
Qed.

Lemma fits_unsigned w v : 0 < w < 64 → urange w v → fits_ctype (Unsigned w) v.
Proof.
  intros Hw Hv. unfold fits_ctype, fits_int, conv. rewrite uwrap_small by done.
  split; [|done]. destruct w as [|p|p]; try lia.
  repeat (destruct p as [p|p|]; try by rewrite Z.eqb_refl); lia.
Qed.

Lemma reads_int w v :
  0 < w ≤ 64 → srange w v → srange 64 v → reads (cp_unpack_int unpack (Signed w)) [TInt v] (λ r, r = Some v).
Proof. intros. by apply reads_int_fits, fits_signed. Qed.

Lemma reads_int_end w : reads (cp_unpack_int unpack (Signed w)) [TEnd] (λ r, r = None).
Proof.
  intros u u' it (u1 & Hy & ->) Hi.
  destruct (unpack_idle TEnd u u1 it Hy eq_refl Hi) as (it' & Hu & [Ht Ha] & Hi').
  exists it', None. unfold cp_unpack_int. rewrite Hu. unfold cpitem_extract_int. by rewrite Ht.
Qed.

Lemma reads_bool b : reads (cp_unpack_bool unpack) [TBool b] (λ r, r = Some b).
Proof.
  intros u u' it (u1 & Hy & ->) Hi.
  destruct (unpack_idle (TBool b) u u1 it Hy eq_refl Hi) as (it' & Hu & [Ht (hi & Ha)] & Hi').
  exists it', (Some b). unfold cp_unpack_bool. rewrite Hu. unfold cpitem_extract_bool.
  by rewrite Ht, Ha.
Qed.

Lemma reads_datetime d : reads (cp_unpack_datetime unpack) [TDatetime d] (λ r, r = Some d).
Proof.
  intros u u' it (u1 & Hy & ->) Hi.
  destruct (unpack_idle (TDatetime d) u u1 it Hy eq_refl Hi) as (it' & Hu & [Ht Ha] & Hi').
  exists it', (Some d). unfold cp_unpack_datetime. rewrite Hu. unfold cpitem_extract_datetime.
  by rewrite Ht, Ha.
Qed.

Lemma reads_type t : is_data_tok t = false → reads (cp_unpack_type unpack) [t] (λ r, r = tok_type t).
Proof.
  intros Hd u u' it (u1 & Hy & ->) Hi.
  destruct (unpack_idle t u u1 it Hy Hd Hi) as (it' & Hu & [Ht _] & Hi').
  exists it', (tok_type t). unfold cp_unpack_type. by rewrite Hu, Ht.
Qed.

(** *** Loops *)

Section rules.
Context {S R : Type}.
Implicit Types (Q : S → Prop).

(** The body takes a state [Q] holds of through the value [v] to one [Q'] holds of. *)
Definition steps_to (body : U → cpitem → S → U * cpitem * (S + R)) (v : list tok) Q Q' : Prop :=
  ∀ s, Q s → reads (λ u it, body u it s) v (λ r, ∃ s', r = inl s' ∧ Q' s').

(** The pairs of a map one after the other. *)
Inductive chain {K} (body : K → U → cpitem → S → U * cpitem * (S + R)) :
    (S → Prop) → list (K * list tok) → (S → Prop) → Prop :=
  | chain_nil Q Q' : (∀ s, Q s → Q' s) → chain body Q [] Q'
  | chain_cons Q Q1 Q2 k v ps :
      steps_to (body k) v Q Q1 → chain body Q1 ps Q2 → chain body Q ((k, v) :: ps) Q2.

Lemma chain_impl {K} (body : K → U → cpitem → S → U * cpitem * (S + R)) Q Q1 Q2 ps :
  (∀ s, Q s → Q1 s) → chain body Q1 ps Q2 → chain body Q ps Q2.
Proof.
  intros H Hc. destruct Hc as [Q1 Q2 H12|Q1 Q3 Q2 k v ps Hb Hc]; [constructor; auto|].
  econstructor; [|done]. intros s Hs. by apply Hb, H.
Qed.

(** A pair that may be left out. *)
Lemma chain_opt {K} (body : K → U → cpitem → S → U * cpitem * (S + R)) (c : bool) k v Q Q' ps Q2 :
  (c = true → steps_to (body k) v Q Q') → (c = false → ∀ s, Q s → Q' s) →
  chain body Q' ps Q2 → chain body Q ((if c then [(k, v)] else []) ++ ps) Q2.
Proof.
  intros Ht Hf H. destruct c; simpl; [by econstructor; eauto|]. by eapply chain_impl; [apply Hf|].
Qed.

Lemma chain_option {K A} (body : K → U → cpitem → S → U * cpitem * (S + R)) (x : option A) k
    (v : A → list tok) Q Q' ps Q2 :
  (∀ a, x = Some a → steps_to (body k) (v a) Q Q') → (x = None → ∀ s, Q s → Q' s) →
  chain body Q' ps Q2 →
  chain body Q (match x with Some a => [(k, v a)] | None => [] end ++ ps) Q2.
Proof.
  intros Ht Hf H. destruct x; simpl; [by econstructor; eauto|]. by eapply chain_impl; [apply Hf|].
Qed.

Lemma run_steps step k (st : U * cpitem * S) (r : U * cpitem * (S + R)) :
  steps step k st (inr r) → Z.of_nat k ≤ 2 ^ 64 → run step st = r.
Proof. intros Hs Hk. unfold run. by rewrite (cloop_run _ 64 k _ _ Hs). Qed.

Lemma imap_steps body Q ps Q' :
  chain body Q ps Q' → Forall (λ p, srange 64 p.1) ps →
  ∀ u u' it s, Q s → idle_item it →
  yields_list unpack (flat_map (λ p, TInt p.1 :: p.2) ps ++ [TEnd]) u u' →
  ∃ it' s', steps (imap_step unpack body) (length ps + 1) (u, it, s) (inr (u', it', inl s')) ∧
    type it' = CPITEM_CONTAINER_END ∧ idle_item it' ∧ Q' s'.
Proof.
  induction 1 as [Q Q' HQ'|Q Q1 Q2 k v ps Hb Hc IH]; intros Hk u u' it s HQ Hi Hy.
  - simpl in Hy. destruct Hy as (u1 & Hy & ->).
    destruct (unpack_idle TEnd u u1 it Hy eq_refl Hi) as (it' & Hu & [Ht Ha] & Hi').
    exists it', s. split; [|by auto]. apply steps_stop. unfold imap_step, cp_unpack_int.
    rewrite Hu. unfold cpitem_extract_int. by rewrite Ht.
  - apply Forall_cons in Hk as [Hk Hps]. simpl in Hk, Hy. destruct Hy as (u1 & Hy1 & Hy).
    rewrite <-app_assoc in Hy. apply yields_list_app in Hy as (u2 & Hv & Hy).
    destruct (reads_int 64 k ltac:(lia) Hk Hk u u1 it) as (it1 & ? & Hu & Hi1 & ->); [by exists u1|done|].
    destruct (Hb s HQ u1 u2 it1 Hv Hi1) as (it2 & ? & Hbody & Hi2 & s1 & -> & HQ1).
    destruct (IH Hps u2 u' it2 s1 HQ1 Hi2 Hy) as (it' & s' & Hs & ?).
    exists it', s'. split; [|done]. simpl. eapply steps_next; [|done].
    unfold imap_step. by rewrite Hu, Hbody.
Qed.

Lemma reads_imap body Q ps Q' :
  chain body Q ps Q' → Forall (λ p, srange 64 p.1) ps → Z.of_nat (length ps) < 2 ^ 64 →
  steps_to (for_cp_unpack_imap unpack body) (flat_map (λ p, TInt p.1 :: p.2) ps ++ [TEnd]) Q Q'.
Proof.
  intros Hc Hk Hlen s HQ u u' it Hy Hi.
  destruct (imap_steps body Q ps Q' Hc Hk u u' it s HQ Hi Hy) as (it' & s' & Hs & _ & Hi' & HQ').
  exists it', (inl s'). unfold for_cp_unpack_imap. rewrite (run_steps _ _ _ _ Hs) by lia. eauto.
Qed.

(** The key of a pair is unpacked to the buffer of the loop. *)
Lemma map_key siz k u u1 it :
  yields (TString k) u u1 → idle_item it → wf_cstr k → Z.of_nat (length k) ≤ siz < 2 ^ 32 →
  ∃ it1, unpack u (set_buffer (Some (replicate (Z.to_nat (siz + 2)) 0)) (siz + 1) it) = (u1, it1) ∧
    type it1 = CPITEM_STRING ∧ idle_item (set_bufsiz 0 it1) ∧
    until_nul (take (Z.to_nat (len (as_Blob (as_ it1)))) (default [] (buf it1))) = k.
Proof.
  intros Hy [Hr _] Hk Hsiz.
  destruct (unpack_whole unpack (TString k) u u1
    (set_buffer (Some (replicate (Z.to_nat (siz + 2)) 0)) (siz + 1) it)) as (it1 & Hu & Hh & _ & _ & Hb);
    [done|done| |simpl; lia|].
  { split; [unfold urange; simpl; lia|]. simpl. rewrite length_replicate. lia. }
  exists it1. split; [done|]. pose proof (holds_ready _ _ Hh) as Hr1.
  destruct Hh as [Ht (fl & Ha & _ & _ & Hd)]. split; [done|]. split; [by split|].
  rewrite Ha. cbn [as_Blob len]. rewrite Nat2Z.id. simpl in Hb. destruct (buf it1) as [m|]; [|done].
  cbn [default from_option id]. rewrite Hd. by apply (until_nul_wf k []).
Qed.

Lemma map_steps siz body Q ps Q' :
  chain body Q ps Q' → Forall (λ p, wf_cstr p.1 ∧ Z.of_nat (length p.1) ≤ siz < 2 ^ 32) ps →
  ∀ u u' it s, Q s → idle_item it → 0 ≤ siz < 2 ^ 32 →
  yields_list unpack (flat_map (λ p, TString p.1 :: p.2) ps ++ [TEnd]) u u' →
  ∃ it' s', steps (map_step unpack siz body) (length ps + 1) (u, it, s) (inr (u', it', inl s')) ∧
    type it' = CPITEM_CONTAINER_END ∧ idle_item it' ∧ Q' s'.
Proof.
  induction 1 as [Q Q' HQ'|Q Q1 Q2 k v ps Hb Hc IH]; intros Hk u u' it s HQ Hi Hsiz Hy.
  - simpl in Hy. destruct Hy as (u1 & Hy & ->). destruct Hi as [Hr Hb].
    destruct (unpack_scalar TEnd u u1
      (set_buffer (Some (replicate (Z.to_nat (siz + 2)) 0)) (siz + 1) it))
      as (it' & Hu & Hh & _); [done|done|done| |].
    { split; [unfold urange; simpl; lia|]. simpl. rewrite length_replicate. lia. }
    pose proof (holds_ready _ _ Hh) as Hr'. destruct Hh as [Ht _].
    exists (set_bufsiz 0 it'), s. split; [|split_and!; [done|by split|by apply HQ']].
    apply steps_stop. unfold map_step.
    rewrite Hu. cbn [type set_bufsiz]. by rewrite Ht.
  - apply Forall_cons in Hk as [[Hk Hkl] Hps]. simpl in Hy. destruct Hy as (u1 & Hy1 & Hy).
    rewrite <-app_assoc in Hy. apply yields_list_app in Hy as (u2 & Hv & Hy).
    destruct (map_key siz k u u1 it Hy1 Hi Hk Hkl) as (it1 & Hu & Ht1 & Hi1 & Hkey).
    destruct (Hb s HQ u1 u2 _ Hv Hi1) as (it2 & ? & Hbody & Hi2 & s1 & -> & HQ1).
    destruct (IH Hps u2 u' it2 s1 HQ1 Hi2 Hsiz Hy) as (it' & s' & Hs & ?).
    exists it', s'. split; [|done]. simpl. eapply steps_next; [|done].
    unfold map_step. rewrite Hu. cbn [type set_bufsiz as_ buf]. rewrite Ht1, bool_decide_true by done.
    by rewrite Hkey, Hbody.
Qed.

Lemma reads_map siz body Q ps Q' :
  chain body Q ps Q' → Forall (λ p, wf_cstr p.1 ∧ Z.of_nat (length p.1) ≤ siz < 2 ^ 32) ps →
  0 ≤ siz < 2 ^ 32 → Z.of_nat (length ps) < 2 ^ 64 →
  steps_to (for_cp_unpack_map unpack siz body) (flat_map (λ p, TString p.1 :: p.2) ps ++ [TEnd]) Q Q'.
Proof.
  intros Hc Hk Hsiz Hlen s HQ u u' it Hy Hi.
  destruct (map_steps siz body Q ps Q' Hc Hk u u' it s HQ Hi Hsiz Hy) as (it' & s' & Hs & _ & Hi' & HQ').
  exists it', (inl s'). unfold for_cp_unpack_map. rewrite (run_steps _ _ _ _ Hs) by lia. eauto.
Qed.

(** The items of a list, each a single token. *)
Lemma reads_list body (step : tok → S → S) l :
  (∀ t u it s, t ∈ l → holds t it → idle_item it →
     ∃ it', body u it s = (u, it', inl (step t s)) ∧ idle_item it') →
  Forall (λ t, is_data_tok t = false ∧ t ≠ TEnd) l → Z.of_nat (length l) < 2 ^ 64 →
  ∀ s, reads (λ u it, for_cp_unpack_list (R := R) unpack body u it s) (l ++ [TEnd])
    (λ r, r = inl (foldl (λ s t, step t s) s l)).
Proof.
  intros Hb Hl Hlen s u u' it Hy Hi.
  assert (∃ it', steps (list_step unpack body) (length l + 1) (u, it, s)
    (inr (u', it', inl (foldl (λ s t, step t s) s l))) ∧ idle_item it') as (it' & Hs & Hi').
  { clear Hlen. revert u it s Hi Hy. induction l as [|t l IH]; intros u it s Hi Hy.
    - destruct Hy as (u1 & Hy & ->).
      destruct (unpack_idle TEnd u u1 it Hy eq_refl Hi) as (it' & Hu & [Ht Ha] & Hi').
      exists it'. split; [|done]. apply steps_stop. unfold list_step. rewrite Hu, Ht. done.
    - apply Forall_cons in Hl as [[Hd Hne] Hl]. destruct Hy as (u1 & Hy1 & Hy).
      destruct (unpack_idle t u u1 it Hy1 Hd Hi) as (it1 & Hu & Hh & Hi1).
      destruct (Hb t u1 it1 s) as (it2 & Hbody & Hi2); [by left|done|done|].
      destruct (IH (λ t u it s H, Hb t u it s (list_elem_of_further t _ l H)) Hl u1 it2 (step t s) Hi2 Hy)
        as (it' & Hs & ?). exists it'. split; [|done]. simpl. eapply steps_next; [|done].
      unfold list_step. destruct Hh as [Ht _].
      rewrite Hu, Ht, !bool_decide_eq_false_2 by (by destruct t). cbn [orb]. by rewrite Hbody. }
  exists it'. eexists. split; [|done]. unfold for_cp_unpack_list. by apply (run_steps _ _ _ _ Hs); lia.
Qed.
End rules.

(** *** Strings on the obstack *)

Definition obs_ok (o : obstack) : Prop := obj o = [] ∧ 0 ≤ room o < 2 ^ 62.

Lemma dupog_string ck l u it u' o n :
  chunks_wf ck → data_next unpack false l u it u' → obs_ok o →
  Z.of_nat (length l) + 1 < n < 2 ^ 64 → Z.of_nat (length l) < 2 ^ 62 →
  ∃ it' o', cp_unpack_dupog unpack ck CPITEM_STRING n u it o = (u', it', o', true) ∧
    idle_item it' ∧ obj o' = l ++ [0].
Proof.
  intros Hck Hd [Ho Hr] Hn Hl. assert (obstack_object_size o = 0) as Hsz
    by (unfold obstack_object_size; by rewrite Ho).
  destruct (dupog_spec unpack ck Hck false l u it u' o n Hd) as
    (u1 & it1 & o1 & m & Hdup & _ & Ho1 & _ & _ & Hend & Hb); [lia|lia|done|].
  destruct Hend as (-> & Hr1 & ->); [lia|]. exists it1, o1. split; [done|].
  split; [by split|]. by rewrite Ho1, Ho, firstn_all.
Qed.

Lemma strndupo_next ck l u it u' o n :
  chunks_wf ck → data_next unpack false l u it u' → obs_ok o →
  Z.of_nat (length l) + 1 < n < 2 ^ 64 → Z.of_nat (length l) < 2 ^ 62 →
  ∃ it' o', cp_unpack_strndupo unpack ck n u it o = (u', it', o', Some (l ++ [0])) ∧
    idle_item it' ∧ obs_ok o'.
Proof.
  intros Hck Hd Ho Hn Hl. destruct (dupog_string ck l u it u' o n) as (it' & o' & Hdup & Hi & Ho');
    [done..|]. exists it', (Obstack [] (settle ck (room o'))).
  unfold cp_unpack_strndupo, cp_unpack_strndupog. rewrite Hdup. unfold obstack_finish. rewrite Ho'.
  split; [done|]. split; [done|]. split; [done|]. apply Hck.
Qed.

Lemma strdupo_next ck l u it u' o :
  chunks_wf ck → data_next unpack false l u it u' → obs_ok o → Z.of_nat (length l) < 2 ^ 62 →
  ∃ it' o', cp_unpack_strdupo unpack ck u it o = (u', it', o', Some (l ++ [0])) ∧
    idle_item it' ∧ obs_ok o'.
Proof.
  intros Hck Hd Ho Hl. destruct (dupog_string ck l u it u' o SIZE_MAX) as (it' & o' & Hdup & Hi & Ho');
    [done..|unfold SIZE_MAX; lia|done|]. exists it', (Obstack [] (settle ck (room o'))).
  unfold cp_unpack_strdupo, cp_unpack_strdupog. rewrite Hdup. unfold obstack_finish. rewrite Ho'.
  split; [done|]. split; [done|]. split; [done|]. apply Hck.
Qed.

Lemma data_next_string l u it u' :
  yields (TString l) u u' → idle_item it → data_next unpack false l u it u'.
Proof. intros Hy [Hr _]. by left. Qed.
End reads.

(** ** Texts *)

(** Strings that are carried as they are. *)
Definition text (s : cstr) : Prop := wf_cstr s ∧ Z.of_nat (length s) < 2 ^ 62.

#[export] Instance text_dec s : Decision (text s).
Proof. unfold text. apply _. Defined.

Lemma text_bytes s : text s → Z.of_nat (length s) < 2 ^ 63 ∧ bytes s.
Proof.
  intros [Hw Hl]. split; [lia|]. eapply Forall_impl; [exact Hw|]. unfold byte. lia.
Qed.

(** A duplicate on the obstack as a C string. *)
Definition strdupo {U} (unpack : U → cpitem → U * cpitem) (ck : chunks) (u : U) (it : cpitem)
    (o : obstack) : U * cpitem * obstack * option cstr :=
  let '(u, it, o, r) := cp_unpack_strdupo unpack ck u it o in (u, it, o, until_nul <$> r).

(** A record that is filled and an obstack that can take more. *)
Definition kept_as {T} (m : T) (s : T * obstack) : Prop := s.1 = m ∧ obs_ok s.2.

Section strdupo.
Context {U : Type} (unpack : U → cpitem → U * cpitem) `{!UnpackSpec unpack}.
Context (ck : chunks) (ck_wf : chunks_wf ck).

Lemma strdupo_text l u it u' o :
  data_next unpack false l u it u' → obs_ok o → text l →
  ∃ it' o', strdupo unpack ck u it o = (u', it', o', Some l) ∧ idle_item it' ∧ obs_ok o'.
Proof.
  intros Hd Ho [Hw Hl]. destruct (strdupo_next unpack ck l u it u' o ck_wf Hd Ho Hl)
    as (it' & o' & Hs & ?). exists it', o'. split; [|done]. unfold strdupo. rewrite Hs.
  cbn [fmap option_fmap option_map]. by rewrite (proj1 (until_nul_wf l [] Hw)).
Qed.

Lemma steps_string {T R} (body : U → cpitem → T * obstack → U * cpitem * (T * obstack + R))
    l (put : option cstr → T → T) m :
  (∀ u it o u1 it1 o1, strdupo unpack ck u it o = (u1, it1, o1, Some l) →
     body u it (m, o) = (u1, it1, inl (put (Some l) m, o1))) →
  text l → steps_to unpack body [TString l] (kept_as m) (kept_as (put (Some l) m)).
Proof.
  intros Hb Hl [m' o] [Em Ho] u u' it (u1 & Hy & ->) Hi. simpl in Em, Ho. subst m'.
  destruct (strdupo_text l u it u1 o) as (it' & o' & Hs & Hi' & Ho'); [by apply data_next_string|done|done|].
  exists it'. eexists. split; [by apply Hb|]. split; [done|]. eexists. by split.
Qed.
End strdupo.

Lemma outputs_str {P} (pack : P → cpitem → P * bool) `{!PackSpec pack} s :
  text s → outputs pack (cp_pack_str pack (Some s)) [TString s].
Proof. intros [??]%text_bytes. by apply outputs_string. Qed.

#[export] Hint Resolve outputs_str : shv.
#[export] Hint Extern 1 (text (of_string _)) => by_evaluation : shv.

Lemma outputs_key {P} (pack : P → cpitem → P * bool) `{!PackSpec pack} v :
  srange 32 v → outputs pack (cp_pack_int pack v) [TInt v].
Proof.
  unfold srange. intros. apply outputs_int. unfold packable_int, srange. split; lia.
Qed.

#[export] Hint Resolve outputs_key : shv.
#[export] Hint Extern 1 (srange 32 ?v) =>
  (lazymatch eval vm_compute in ((- 2 ^ 31 <=? v) && (v <? 2 ^ 31)) with true => by vm_compute end) : shv.

(** The tokens of a sequence of packing calls. *)
Ltac packs :=
  lazymatch goal with
  | |- outputs _ (_ >>> _) _ => eapply outputs_then; packs
  | |- outputs _ (_ >>? _) _ => eapply outputs_if; packs
  | |- outputs _ (when _ _) _ => eapply outputs_when; intros _; packs
  | H : packable_int ?v |- outputs _ (cp_pack_int _ ?v) _ => exact (outputs_int _ _ H)
  | |- _ => eauto with shv
  end.

Lemma packable_small v : urange 32 v → packable_int v.
Proof. unfold urange, packable_int, srange. intros. split; lia. Qed.

(** ** On the wire *)

(** There are bytes that [c] writes, wherever there is room for them, and that [f]
    reads back, whatever follows them, with a result [Q] holds of. *)
Definition round_trips {A} (c : ofile → ofile * bool) (f : rfile → cpitem → rfile * cpitem * A)
    (Q : A → Prop) : Prop :=
  ∃ bs,
    (∀ w, wf_err w = false → roomy (length bs) w → c (Some w) = (Some (written bs w), true)) ∧
    (∀ d e it, idle_item it →
       ∃ it' r, f (RFile (bs ++ d) e) it = (RFile d e, it', r) ∧ idle_item it' ∧ Q r).

Lemma emitted_list_written ts w :
  wf_err w = false → roomy (length (flat_map tok_bytes ts)) w →
  emitted_list cp_pack_chainpack_func ts (Some w) (Some (written (flat_map tok_bytes ts) w)).
Proof.
  revert w. induction ts as [|t ts IH]; intros w He Hr; simpl.
  - destruct w as [d r e]. unfold written. simpl. rewrite app_nil_r.
    destruct r as [n|]; [|done]. cbn [fmap option_fmap option_map]. by rewrite Nat.sub_0_r.
  - simpl in Hr. rewrite length_app in Hr. destruct (roomy_app _ _ (tok_bytes t) w eq_refl Hr).
    exists (Some (written (tok_bytes t) w)). split; [done|]. rewrite <-written_app. by apply IH.
Qed.

Lemma round_trips_toks {A} c (f : rfile → cpitem → rfile * cpitem * A) ts Q :
  outputs cp_pack_chainpack_func c ts → reads cp_unpack_chainpack_func f ts Q → Forall tok_wf ts →
  round_trips c f Q.
Proof.
  intros Hc Hf Hwf. exists (flat_map tok_bytes ts). split.
  - intros w He Hr. by apply Hc, emitted_list_written.
  - intros d e it Hi. apply Hf; [|done]. by apply yields_tok_bytes.
Qed.

(** Well-formedness of a list of tokens, one by one. *)
Ltac toks_wf :=
  repeat first [apply Forall_nil_2 | apply Forall_cons_2 | apply Forall_app_2];
  try done; try (by apply text_bytes); try (by apply packable_small).
