(* ===== verification/RpcError.v ===== *)
(** * RPC errors ([libshvrpc/rpcerror.c], [include/shv/rpcerror.h])

    Packing and unpacking of errors and the names of their codes. *)

From S2P Require Import Prelude Stdio Chainpack CpItem ChainpackPack ChainpackUnpack.
From S2P Require Import CpUnpack CpUnpackChainpack CpPack CpObstack CpLoops.

(** ** Definitions *)

Definition RPCERR_NO_ERROR : Z := 0.
Definition RPCERR_METHOD_NOT_FOUND : Z := 2.
Definition RPCERR_INVALID_PARAM : Z := 3.
Definition RPCERR_USR1 : Z := 6.
Definition RPCERR_USR2 : Z := 7.
Definition RPCERR_METHOD_CALL_EXCEPTION : Z := 8.
Definition RPCERR_UNKNOWN : Z := 9.
Definition RPCERR_LOGIN_REQUIRED : Z := 10.
Definition RPCERR_USER_ID_REQUIRED : Z := 11.
Definition RPCERR_NOT_IMPLEMENTED : Z := 12.
Definition RPCERR_TRY_AGAIN_LATER : Z := 13.
Definition RPCERR_REQUEST_INVALID : Z := 14.
Definition RPCERR_METHOD_CALL_EXCEPTION_BASE : Z := 32.

Definition RPCMSG_ERR_KEY_CODE : Z := 1.
Definition RPCMSG_ERR_KEY_MESSAGE : Z := 2.

(** The string a duplicate is, if there is one. *)
Definition dup_cstr (d : dup) : option cstr :=
  match d with DupData l => Some (until_nul l) | _ => None end.

Section unpack.
Context {U : Type} (unpack : U → cpitem → U * cpitem) (alloc : Z → bool).

(** [*errnum] and [*errmsg]; [want] says whether the message is asked for. *)
Definition error_key (want : bool) (ikey : Z) (u : U) (it : cpitem) (s : Z * option cstr) :
    U * cpitem * (Z * option cstr + (Z * option cstr)) :=
  let '(errnum, errmsg) := s in
  if ikey =? RPCMSG_ERR_KEY_CODE then
    let '(u, it, ty) := cp_unpack_type unpack u it in
    match ty with
    | CPITEM_UINT => (u, it, inl (default errnum (cpitem_extract_uint (Unsigned 32) it), errmsg))
    | CPITEM_INT => (u, it, inl (default errnum (cpitem_extract_int (Unsigned 32) it), errmsg))
    | _ => (u, it, inr s)
    end
  else if ikey =? RPCMSG_ERR_KEY_MESSAGE then
    let '(u, it, ty) := cp_unpack_type unpack u it in
    if bool_decide (ty = CPITEM_STRING) then
      if want then
        let '(u, it, d) := cp_unpack_strdup unpack alloc u it in (u, it, inl (errnum, dup_cstr d))
      else (u, it, inl s)
    else (u, it, inr s)
  else let '(u, it) := cp_unpack_skip unpack u it in (u, it, inl s).

(** The result, [*errnum] and [*errmsg]. *)
Definition rpcerror_unpack (want : bool) (u : U) (it : cpitem) :
    U * cpitem * (bool * Z * option cstr) :=
  let '(u, it, ty) := cp_unpack_type unpack u it in
  if bool_decide (ty = CPITEM_IMAP) then
    let '(u, it, r) := for_cp_unpack_imap unpack (error_key want) u it (RPCERR_NO_ERROR, None) in
    match r with
    | inl (errnum, errmsg) => (u, it, (negb (errnum =? RPCERR_NO_ERROR), errnum, errmsg))
    | inr (errnum, errmsg) => (u, it, (false, errnum, errmsg))
    end
  else (u, it, (false, RPCERR_NO_ERROR, None)).
End unpack.

Definition rpcerror_pack {P} (pack : P → cpitem → P * bool) (errnum : Z) (errmsg : option cstr) :
    P → P * bool :=
  cp_pack_imap_begin pack >>?
  cp_pack_int pack RPCMSG_ERR_KEY_CODE >>?
  cp_pack_int pack errnum >>?
  (match errmsg with
   | Some msg => cp_pack_int pack RPCMSG_ERR_KEY_MESSAGE >>? cp_pack_str pack (Some msg)
   | None => nop
   end) >>?
  cp_pack_container_end pack.

#[export] Instance packs_error {P} (pack : P → cpitem → P * bool) e t : OnlyPacks pack (rpcerror_pack pack e t).
Proof. unfold rpcerror_pack. apply _. Qed.

Definition sanitize (errnum : Z) : Z :=
  if RPCERR_METHOD_CALL_EXCEPTION_BASE <=? errnum then RPCERR_METHOD_CALL_EXCEPTION
  else if RPCERR_NOT_IMPLEMENTED <? errnum then RPCERR_UNKNOWN
  else errnum.

(** The tables have an entry for every index. *)
Definition errname : list cstr := [
  str "NoError"; str "InvalidRequest"; str "MethodNotFound"; str "InvalidParam";
  str "InternalError"; str "ParseError"; str "ImplementationReserved1";
  str "ImplementationReserved2"; str "MethodCallException"; str "Unknown"; str "LoginRequired";
  str "UserIDRequired"; str "NotImplemented"; str "TryAgainLater"; str "RequestInvalid"].

Definition errdesc : list cstr := [
  str "No error was encountered";
  str "The received value is not a valid RPC Request object";
  str "The requested method does not exist or is not available or not accessible with given access level";
  str "Invalid request parameter";
  str "Invernal RPC error";
  str "Invalid ChainPack was received";
  str "Implementation specific error 1";
  str "Implementation specific error 2";
  str "Method execution exception";
  str "Unknown error";
  str "Method call attempted without previous successful login";
  str "Method call requires UserID to be present";
  str "Method is valid but not implemented";
  str "Try again later";
  str "Request is not known"].

(** [None] is a read outside of the table. *)
Definition rpcerror_str (errnum : Z) : option cstr := errname !! Z.to_nat (sanitize errnum).
Definition rpcerror_desc (errnum : Z) : option cstr := errdesc !! Z.to_nat (sanitize errnum).

(** ** Lemmas *)

Definition error_toks (errnum : Z) (errmsg : option cstr) : list tok :=
  [TIMap; TInt RPCMSG_ERR_KEY_CODE; TInt errnum] ++
  match errmsg with Some m => [TInt RPCMSG_ERR_KEY_MESSAGE; TString m] | None => [] end ++ [TEnd].

Lemma outputs_error {P} (pack : P → cpitem → P * bool) `{!PackSpec pack} errnum errmsg :
  urange 32 errnum → text (default [] errmsg) →
  outputs pack (rpcerror_pack pack errnum errmsg) (error_toks errnum errmsg).
Proof.
  intros He Hm. unfold rpcerror_pack, error_toks.
  apply (outputs_if pack _ _ [TIMap]); [auto with shv|].
  apply (outputs_if pack _ _ [TInt _]); [by apply outputs_int|].
  apply (outputs_if pack _ _ [TInt _]); [by apply outputs_int, packable_small|].
  apply outputs_if; [|auto with shv]. destruct errmsg as [m|]; [|auto with shv].
  apply (outputs_if pack _ _ [TInt _]); [by apply outputs_int|]. by apply outputs_str.
Qed.

Section unpack_spec.
Context {U : Type} (unpack : U → cpitem → U * cpitem) `{!UnpackSpec unpack}.

Lemma strdup_next l u it u' :
  data_next unpack false l u it u' → text l →
  ∃ it', cp_unpack_strdup unpack (λ _, true) u it = (u', it', DupData (l ++ [0])) ∧ idle_item it'.
Proof.
  intros Hd [_ Hl].
  destruct (dup_spec unpack false false l u it u' SIZE_MAX Hd) as (u1 & it1 & Hdup & _ & Hend & Hb);
    [lia|done|]. destruct Hend as [Hr ->]; [unfold SIZE_MAX; lia|]. exists it1.
  unfold cp_unpack_strdup. rewrite take_ge in Hdup by (unfold SIZE_MAX; lia).
  cbn [data_type] in Hdup. by rewrite Hdup.
Qed.

Lemma error_code want errnum :
  urange 32 errnum →
  steps_to unpack (error_key unpack (λ _, true) want RPCMSG_ERR_KEY_CODE) [TInt errnum]
    (λ s, s = (RPCERR_NO_ERROR, None)) (λ s, s = (errnum, None)).
Proof.
  intros He s -> u u' it (u1 & Hy & ->) Hi.
  destruct (unpack_idle unpack (TInt errnum) u u1 it Hy eq_refl Hi) as (it' & Hu & [Ht Ha] & Hi').
  exists it'. eexists. split; [|split; [done|by eexists]]. unfold error_key, cp_unpack_type.
  eval_keys. rewrite Hu, Ht. cbn [tok_type]. unfold cpitem_extract_int.
  rewrite Ht, Ha. cbn [as_Int]. rewrite bool_decide_true by done. unfold fits_int, conv.
  rewrite uwrap_small by done. by rewrite Z.eqb_refl.
Qed.

Lemma error_message msg errnum :
  text msg →
  steps_to unpack (error_key unpack (λ _, true) true RPCMSG_ERR_KEY_MESSAGE) [TString msg]
    (λ s, s = (errnum, None)) (λ s, s = (errnum, Some msg)).
Proof.
  intros Hm s -> u u' it (u1 & Hy & ->) Hi.
  destruct (unpack_head unpack false msg u u1 it Hy Hi) as (u2 & it2 & Hu & Ht & Hp & _).
  destruct (strdup_next msg u2 it2 u1) as (it' & Hd & Hi'); [by right|done|].
  exists it'. eexists. split; [|split; [done|by eexists]]. unfold error_key, cp_unpack_type.
  eval_keys. rewrite Hu, Ht.
  cbn [data_type]. rewrite bool_decide_true by done. rewrite Hd. unfold dup_cstr.
  by rewrite (proj1 (until_nul_wf msg [] (proj1 Hm))).
Qed.

Lemma reads_error errnum errmsg :
  urange 32 errnum → text (default [] errmsg) →
  reads unpack (rpcerror_unpack unpack (λ _, true) true) (error_toks errnum errmsg)
    (λ r, r = (negb (errnum =? RPCERR_NO_ERROR), errnum, errmsg)).
Proof.
  intros He Hm u u' it (u1 & Hy1 & Hy) Hi.
  destruct (unpack_idle unpack TIMap u u1 it Hy1 eq_refl Hi) as (it1 & Hu & [Ht _] & Hi1).
  set (ps := (RPCMSG_ERR_KEY_CODE, [TInt errnum]) ::
    match errmsg with Some m => [(RPCMSG_ERR_KEY_MESSAGE, [TString m])] | None => [] end).
  destruct (reads_imap unpack (error_key unpack (λ _, true) true) (λ s, s = (RPCERR_NO_ERROR, None))
    ps (λ s, s = (errnum, errmsg))) with (s := (RPCERR_NO_ERROR, @None cstr)) (u := u1) (u' := u') (it := it1)
    as (it' & r & Hr & Hi' & s' & -> & ->); [| | |done| |done|].
  - econstructor; [by apply error_code|]. destruct errmsg as [m|]; [|by constructor].
    econstructor; [by apply error_message|by constructor].
  - unfold ps. destruct errmsg; repeat constructor; done.
  - unfold ps. destruct errmsg; done.
  - unfold ps. by destruct errmsg.
  - exists it'. eexists. split; [|done]. unfold rpcerror_unpack, cp_unpack_type. rewrite Hu, Ht.
    cbn [tok_type]. rewrite bool_decide_true by done. by rewrite Hr.
Qed.
End unpack_spec.

(** ** Properties *)

Lemma error_toks_wf errnum errmsg :
  urange 32 errnum → text (default [] errmsg) → Forall tok_wf (error_toks errnum errmsg).
Proof.
  intros He Hm. unfold error_toks. destruct errmsg as [m|]; toks_wf.
Qed.

(** An error that is packed is unpacked as it was, its code and its message
    whether there is one or not, and whatever follows is left alone; the unpacking
    succeeds exactly for codes that are errors. *)
Theorem rpcerror_roundtrip errnum errmsg :
  urange 32 errnum → text (default [] errmsg) →
  round_trips (rpcerror_pack cp_pack_chainpack_func errnum errmsg)
    (rpcerror_unpack cp_unpack_chainpack_func (λ _, true) true)
    (λ r, r = (negb (errnum =? RPCERR_NO_ERROR), errnum, errmsg)).
Proof.
  intros. eapply round_trips_toks; [by apply outputs_error|by apply reads_error|by apply error_toks_wf].
Qed.

Lemma rpcerror_roundtrip_witness :
  round_trips (rpcerror_pack cp_pack_chainpack_func 3 (Some (str "Wrong parameter")))
    (rpcerror_unpack cp_unpack_chainpack_func (λ _, true) true)
    (λ r, r = (true, 3, Some (str "Wrong parameter"))).
Proof. apply (rpcerror_roundtrip 3 (Some (str "Wrong parameter"))); by_evaluation. Defined.

(** ** Where the code and its description differ *)

(** The names of two codes are in the table and are never returned. *)
Example rpcerror_str_unknown :
  rpcerror_str RPCERR_TRY_AGAIN_LATER = Some (str "Unknown") ∧
  rpcerror_str RPCERR_REQUEST_INVALID = Some (str "Unknown") ∧
  errname !! Z.to_nat RPCERR_TRY_AGAIN_LATER = Some (str "TryAgainLater").
Proof. done. Qed.
