(* ===== verification/RpcFile.v ===== *)
(** * File statistics and alerts ([libshvrpc/rpcfile.c], [libshvrpc/rpcalerts.c])

    The two records devices exchange about files and alerts: integer maps whose
    fields are read in any order, unknown ones skipped. *)

From S2P Require Import Prelude Stdio Chainpack CpItem ChainpackPack ChainpackUnpack.
From S2P Require Import CpUnpack CpUnpackChainpack CpPack CpObstack CpLoops.

(** ** Definitions *)

Definition RPCFILE_STAT_KEY_TYPE : Z := 0.
Definition RPCFILE_STAT_KEY_SIZE : Z := 1.
Definition RPCFILE_STAT_KEY_PAGESIZE : Z := 2.
Definition RPCFILE_STAT_KEY_ACCESSTIME : Z := 3.
Definition RPCFILE_STAT_KEY_MODTIME : Z := 4.
Definition RPCFILE_STAT_KEY_MAXWRITE : Z := 5.
Definition RPCFILE_STAT_KEY_MAXREAD : Z := 6.
Definition RPCFILE_STAT_KEY_ERASESIZE : Z := 7.

Record rpcfile_stat_s : Type := Stat {
  type_ : Z; size : Z; page_size : Z; max_write : Z; max_read : Z; erase_size : Z;
  access_time : cpdatetime; mod_time : cpdatetime }.

Definition rpcfile_stat_pack {P} (pack : P → cpitem → P * bool) (stats : rpcfile_stat_s) :
    P → P * bool :=
  cp_pack_imap_begin pack >>>
  cp_pack_int pack RPCFILE_STAT_KEY_TYPE >>> cp_pack_int pack (type_ stats) >>>
  cp_pack_int pack RPCFILE_STAT_KEY_SIZE >>> cp_pack_int pack (size stats) >>>
  cp_pack_int pack RPCFILE_STAT_KEY_PAGESIZE >>> cp_pack_int pack (page_size stats) >>>
  cp_pack_int pack RPCFILE_STAT_KEY_ACCESSTIME >>> cp_pack_datetime pack (access_time stats) >>>
  cp_pack_int pack RPCFILE_STAT_KEY_MODTIME >>> cp_pack_datetime pack (mod_time stats) >>>
  cp_pack_int pack RPCFILE_STAT_KEY_MAXWRITE >>> cp_pack_int pack (max_write stats) >>>
  when (negb (max_read stats =? 0))
    (cp_pack_int pack RPCFILE_STAT_KEY_MAXREAD >>> cp_pack_int pack (max_read stats)) >>>
  when (negb (erase_size stats =? 0))
    (cp_pack_int pack RPCFILE_STAT_KEY_ERASESIZE >>> cp_pack_int pack (erase_size stats)) >>>
  cp_pack_container_end pack >>> nop.

#[export] Instance packs_stat {P} (pack : P → cpitem → P * bool) v : OnlyPacks pack (rpcfile_stat_pack pack v).
Proof. unfold rpcfile_stat_pack. apply _. Qed.

Definition RPCALERTS_KEY_DATE : Z := 0.
Definition RPCALERTS_KEY_LEVEL : Z := 1.
Definition RPCALERTS_KEY_ID : Z := 2.

(** [id] is [None] when it could not be unpacked. *)
Record rpcalerts : Type := Alert { time : Z; level : Z; id : option cstr }.

Definition rpcalerts_pack {P} (pack : P → cpitem → P * bool) (alert : rpcalerts) : P → P * bool :=
  cp_pack_imap_begin pack >>>
  cp_pack_int pack RPCALERTS_KEY_DATE >>>
  cp_pack_datetime pack (Datetime (i64 (time alert)) 0) >>>
  cp_pack_int pack RPCALERTS_KEY_LEVEL >>> cp_pack_int pack (level alert) >>>
  cp_pack_int pack RPCALERTS_KEY_ID >>> cp_pack_str pack (id alert) >>>
  cp_pack_container_end pack >>> nop.

#[export] Instance packs_alert {P} (pack : P → cpitem → P * bool) v : OnlyPacks pack (rpcalerts_pack pack v).
Proof. unfold rpcalerts_pack. apply _. Qed.

Section unpack.
Context {U : Type} (unpack : U → cpitem → U * cpitem) (ck : chunks).

(** Unpack a number into a field; when that fails the field is left alone. *)
Definition int_field {S R} (t : ctype) (old : S → Z) (put : Z → S → S) (u : U) (it : cpitem) (s : S) :
    U * cpitem * (S + R) :=
  let '(u, it, v) := cp_unpack_int unpack t u it in (u, it, inl (put (default (old s) v) s)).

Definition datetime_field {S R} (put : cpdatetime → S → S) (u : U) (it : cpitem) (s : S) :
    U * cpitem * (S + R) :=
  let '(u, it, v) := cp_unpack_datetime unpack u it in
  (u, it, inl (match v with Some d => put d s | None => s end)).

Definition skip_field {S R} (u : U) (it : cpitem) (s : S) : U * cpitem * (S + R) :=
  let '(u, it) := cp_unpack_skip unpack u it in (u, it, inl s).

Definition stat_key (ikey : Z) (u : U) (it : cpitem) (s : rpcfile_stat_s) :
    U * cpitem * (rpcfile_stat_s + unit) :=
  let '(Stat ty sz pg mw mr er at_ mt) := s in
  if ikey =? RPCFILE_STAT_KEY_TYPE then
    int_field (Signed 32) type_ (λ v _, Stat v sz pg mw mr er at_ mt) u it s
  else if ikey =? RPCFILE_STAT_KEY_SIZE then
    int_field (Signed 32) size (λ v _, Stat ty v pg mw mr er at_ mt) u it s
  else if ikey =? RPCFILE_STAT_KEY_PAGESIZE then
    int_field (Signed 32) page_size (λ v _, Stat ty sz v mw mr er at_ mt) u it s
  else if ikey =? RPCFILE_STAT_KEY_ACCESSTIME then
    datetime_field (λ d _, Stat ty sz pg mw mr er d mt) u it s
  else if ikey =? RPCFILE_STAT_KEY_MODTIME then
    datetime_field (λ d _, Stat ty sz pg mw mr er at_ d) u it s
  else if ikey =? RPCFILE_STAT_KEY_MAXWRITE then
    int_field (Signed 32) max_write (λ v _, Stat ty sz pg v mr er at_ mt) u it s
  else if ikey =? RPCFILE_STAT_KEY_MAXREAD then
    int_field (Signed 32) max_read (λ v _, Stat ty sz pg mw v er at_ mt) u it s
  else if ikey =? RPCFILE_STAT_KEY_ERASESIZE then
    int_field (Signed 32) erase_size (λ v _, Stat ty sz pg mw mr v at_ mt) u it s
  else skip_field u it s.

Definition stat_init : rpcfile_stat_s := Stat 0 0 0 0 0 0 (Datetime 0 0) (Datetime 0 0).

(** [None] is the [NULL] result. *)
Definition rpcfile_stat_unpack (u : U) (it : cpitem) : U * cpitem * option rpcfile_stat_s :=
  let '(u, it, ty) := cp_unpack_type unpack u it in
  if bool_decide (ty = CPITEM_IMAP) then
    let '(u, it, r) := for_cp_unpack_imap unpack stat_key u it stat_init in
    (u, it, match r with inl s => Some s | inr _ => None end)
  else (u, it, None).

(** The alert and the obstack its identifier is unpacked to. *)
Definition alert_key (ikey : Z) (u : U) (it : cpitem) (s : rpcalerts * obstack) :
    U * cpitem * (rpcalerts * obstack + unit) :=
  let '(Alert ti lv i, o) := s in
  if ikey =? RPCALERTS_KEY_DATE then
    datetime_field (λ d _, (Alert (u64 (msecs d)) lv i, o)) u it s
  else if ikey =? RPCALERTS_KEY_LEVEL then
    int_field (Unsigned 8) (λ s, level s.1) (λ v _, (Alert ti v i, o)) u it s
  else if ikey =? RPCALERTS_KEY_ID then
    let '(u, it, o, r) := cp_unpack_strdupo unpack ck u it o in
    (u, it, inl (Alert ti lv (until_nul <$> r), o))
  else skip_field u it s.

Definition rpcalerts_unpack (u : U) (it : cpitem) (o : obstack) :
    U * cpitem * (option rpcalerts * obstack) :=
  let '(u, it, ty) := cp_unpack_type unpack u it in
  if bool_decide (ty = CPITEM_IMAP) then
    let o := obstack_alloc ck 24 o in
    let '(u, it, r) := for_cp_unpack_imap unpack alert_key u it (Alert 0 0 (Some []), o) in
    (u, it, match r with inl (a, o) => (Some a, o) | inr _ => (None, o) end)
  else (u, it, (None, o)).
End unpack.

(** ** Lemmas *)

Section fields.
Context {U : Type} (unpack : U → cpitem → U * cpitem) `{!UnpackSpec unpack}.
Context {S R : Type}.

Lemma steps_int_field (body : U → cpitem → S → U * cpitem * (S + R)) t v old put s0 s1 :
  (∀ u it, body u it s0 = int_field unpack t old put u it s0) → put v s0 = s1 → fits_ctype t v →
  steps_to unpack body [TInt v] (λ s, s = s0) (λ s, s = s1).
Proof.
  intros Hb <- Hv s -> u u' it Hy Hi.
  destruct (reads_int_fits unpack t v Hv u u' it Hy Hi) as (it' & r & Hr & Hi' & ->).
  exists it'. eexists. split; [rewrite Hb; unfold int_field; by rewrite Hr|]. eauto.
Qed.

Lemma steps_datetime_field (body : U → cpitem → S → U * cpitem * (S + R)) d put s0 s1 :
  (∀ u it, body u it s0 = datetime_field unpack put u it s0) → put d s0 = s1 →
  steps_to unpack body [TDatetime d] (λ s, s = s0) (λ s, s = s1).
Proof.
  intros Hb <- s -> u u' it Hy Hi.
  destruct (reads_datetime unpack d u u' it Hy Hi) as (it' & r & Hr & Hi' & ->).
  exists it'. eexists. split; [rewrite Hb; unfold datetime_field; by rewrite Hr|]. eauto.
Qed.

(** From one state after the other to a set of states. *)
Lemma steps_each (body : U → cpitem → S → U * cpitem * (S + R)) v (Q Q1 : S → Prop) :
  (∀ s0, Q s0 → ∃ s1, Q1 s1 ∧ steps_to unpack body v (λ s, s = s0) (λ s, s = s1)) →
  steps_to unpack body v Q Q1.
Proof.
  intros H s Hs. destruct (H s Hs) as (s1 & HQ1 & Hb). eapply reads_impl; [by apply Hb|].
  intros r (s' & -> & ->). eauto.
Qed.
End fields.

Definition small (v : Z) : Prop := srange 32 v.

Lemma small_packable v : small v → packable_int v ∧ srange 64 v.
Proof. unfold small, packable_int, srange. intros. repeat split; lia. Qed.

(** The pairs of the map, in the order they are packed. *)
Definition stat_pairs (s : rpcfile_stat_s) : list (Z * list tok) :=
  [(RPCFILE_STAT_KEY_TYPE, [TInt (type_ s)]); (RPCFILE_STAT_KEY_SIZE, [TInt (size s)]);
   (RPCFILE_STAT_KEY_PAGESIZE, [TInt (page_size s)]);
   (RPCFILE_STAT_KEY_ACCESSTIME, [TDatetime (access_time s)]);
   (RPCFILE_STAT_KEY_MODTIME, [TDatetime (mod_time s)]);
   (RPCFILE_STAT_KEY_MAXWRITE, [TInt (max_write s)])] ++
  (if negb (max_read s =? 0) then [(RPCFILE_STAT_KEY_MAXREAD, [TInt (max_read s)])] else []) ++
  (if negb (erase_size s =? 0) then [(RPCFILE_STAT_KEY_ERASESIZE, [TInt (erase_size s)])] else []).

Definition imap_toks (ps : list (Z * list tok)) : list tok :=
  TIMap :: flat_map (λ p, TInt p.1 :: p.2) ps ++ [TEnd].

Lemma imap_toks_wf ps :
  Forall (λ p, packable_int p.1 ∧ Forall tok_wf p.2) ps → Forall tok_wf (imap_toks ps).
Proof.
  intros H. apply Forall_cons. split; [done|]. apply Forall_app. split; [|by apply Forall_singleton].
  induction H as [|[k v] ps [Hk Hv] Hps IH]; [constructor|]. simpl. apply Forall_cons.
  split; [done|]. by apply Forall_app.
Qed.

(** What fits the fields: C integers, and dates as far as ChainPack carries them. *)
Definition stat_wf (s : rpcfile_stat_s) : Prop :=
  small (type_ s) ∧ small (size s) ∧ small (page_size s) ∧ small (max_write s) ∧
  small (max_read s) ∧ small (erase_size s) ∧ datetime_ok (access_time s) ∧ datetime_ok (mod_time s).

Lemma outputs_stat {P} (pack : P → cpitem → P * bool) `{!PackSpec pack} s :
  stat_wf s → outputs pack (rpcfile_stat_pack pack s) (imap_toks (stat_pairs s)).
Proof.
  intros (?&?&?&?&?&?&?&?). unfold rpcfile_stat_pack. eapply outputs_eq.
  - packs.
  - unfold imap_toks, stat_pairs. by destruct (max_read s =? 0), (erase_size s =? 0).
Qed.

Section unpack_spec.
Context {U : Type} (unpack : U → cpitem → U * cpitem) `{!UnpackSpec unpack}.

(** A map with known pairs is read through its chain. *)
Lemma reads_fields {S R} (body : Z → U → cpitem → S → U * cpitem * (S + R)) Q ps Q' u u' it s :
  chain unpack body Q ps Q' → Forall (λ p, srange 64 p.1) ps → Z.of_nat (length ps) < 2 ^ 64 →
  Q s → yields_list unpack (imap_toks ps) u u' → idle_item it →
  ∃ u1 it1 it' s',
    cp_unpack_type unpack u it = (u1, it1, CPITEM_IMAP) ∧
    for_cp_unpack_imap unpack body u1 it1 s = (u', it', inl s') ∧ idle_item it' ∧ Q' s'.
Proof.
  intros Hc Hk Hlen HQ (u1 & Hy1 & Hy) Hi.
  destruct (reads_type unpack TIMap eq_refl u u1 it) as (it1 & ? & Hu & Hi1 & ->); [by exists u1|done|].
  destruct (reads_imap unpack body Q ps Q' Hc Hk Hlen s HQ u1 u' it1 Hy Hi1)
    as (it' & r & Hr & Hi' & s' & -> & HQ').
  by exists u1, it1, it', s'.
Qed.

Ltac stat_int v H :=
  eapply (steps_int_field _ _ (Signed 32) v); [reflexivity|reflexivity|apply fits_signed; [lia|exact H]].

Lemma stat_chain s :
  stat_wf s → chain unpack (stat_key unpack) (λ x, x = stat_init) (stat_pairs s) (λ x, x = s).
Proof.
  intros (Hty & Hsz & Hpg & Hmw & Hmr & Her & _ & _). destruct s as [ty sz pg mw mr er at_ mt].
  cbn [type_ size page_size max_write max_read erase_size] in *.
  unfold stat_pairs.
  cbn [app type_ size page_size max_write max_read erase_size access_time mod_time].
  econstructor; [stat_int ty Hty|].
  econstructor; [stat_int sz Hsz|].
  econstructor; [stat_int pg Hpg|].
  econstructor; [by eapply steps_datetime_field|].
  econstructor; [by eapply steps_datetime_field|].
  econstructor; [stat_int mw Hmw|].
  eapply (chain_opt _ _ _ _ _ _ (λ x, x = Stat ty sz pg mw mr 0 at_ mt));
    [intros _; stat_int mr Hmr|by intros ->%negb_false_iff%Z.eqb_eq|].
  rewrite <-(app_nil_r (if negb (er =? 0) then _ else _)).
  eapply (chain_opt _ _ _ _ _ _ (λ x, x = Stat ty sz pg mw mr er at_ mt));
    [intros _; stat_int er Her|by intros ->%negb_false_iff%Z.eqb_eq|].
  by constructor.
Qed.

Lemma stat_keys s : Forall (λ p, srange 64 p.1) (stat_pairs s) ∧ Z.of_nat (length (stat_pairs s)) < 2 ^ 64.
Proof.
  unfold stat_pairs. destruct (max_read s =? 0), (erase_size s =? 0); split; try done;
    repeat constructor; done.
Qed.

Lemma reads_stat s :
  stat_wf s → reads unpack (rpcfile_stat_unpack unpack) (imap_toks (stat_pairs s)) (λ r, r = Some s).
Proof.
  intros Hwf u u' it Hy Hi. destruct (stat_keys s) as [Hk Hl].
  destruct (reads_fields (stat_key unpack) _ _ _ u u' it stat_init (stat_chain s Hwf) Hk Hl eq_refl Hy Hi)
    as (u1 & it1 & it' & s' & Ht & Hr & Hi' & ->).
  exists it'. eexists. split; [|done]. unfold rpcfile_stat_unpack. rewrite Ht.
  rewrite bool_decide_true by done. by rewrite Hr.
Qed.

(** *** Alerts *)

Context (ck : chunks) (ck_wf : chunks_wf ck).

Definition alert_wf (a : rpcalerts) : Prop :=
  0 ≤ time a < 2 ^ 63 ∧ datetime_ok (Datetime (time a) 0) ∧ urange 8 (level a) ∧
  is_Some (id a) ∧ text (default [] (id a)).

Definition alert_pairs (a : rpcalerts) : list (Z * list tok) :=
  [(RPCALERTS_KEY_DATE, [TDatetime (Datetime (time a) 0)]); (RPCALERTS_KEY_LEVEL, [TInt (level a)]);
   (RPCALERTS_KEY_ID, [TString (default [] (id a))])].

(** The alert so far and an obstack that can take more. *)
Definition alert_state (a : rpcalerts) (s : rpcalerts * obstack) : Prop := s.1 = a ∧ obs_ok s.2.

Lemma alert_chain a :
  alert_wf a →
  chain unpack (alert_key unpack ck) (alert_state (Alert 0 0 (Some []))) (alert_pairs a) (alert_state a).
Proof.
  intros (Ht & _ & Hl & [i Hi] & Htx). destruct a as [t l i']. simpl in *. subst i'. simpl in Htx.
  unfold alert_pairs. cbn [time level id default from_option].
  econstructor; [|econstructor; [|econstructor; [|by constructor]]].
  - apply (steps_each _ _ _ _ (alert_state (Alert t 0 (Some [])))). intros [a0 o] [Ea Ho]. simpl in Ea. subst a0.
    exists (Alert t 0 (Some []), o). split; [done|]. eapply steps_datetime_field; [reflexivity|].
    cbn [msecs time]. by rewrite uwrap_small by (unfold urange; lia).
  - apply (steps_each _ _ _ _ (alert_state (Alert t l (Some [])))). intros [a0 o] [Ea Ho]. simpl in Ea. subst a0.
    exists (Alert t l (Some []), o). split; [done|].
    eapply (steps_int_field _ _ (Unsigned 8) l); [reflexivity|reflexivity|by apply fits_unsigned].
  - intros [a0 o] [Ea Ho] u u' it (u1 & Hy & ->) Hid. simpl in Ea. subst a0.
    destruct (strdupo_next unpack ck i u it u1 o ck_wf) as (it' & o' & Hd & Hid' & Ho');
      [by apply data_next_string|done|apply Htx|]. exists it'. eexists. split; [|split; [done|]].
    { unfold alert_key. eval_keys. by rewrite Hd. }
    eexists. split; [done|]. split; [|done]. cbn [fst fmap option_fmap option_map].
    by rewrite (proj1 (until_nul_wf i [] (proj1 Htx))).
Qed.

Lemma reads_alert a o :
  alert_wf a → obs_ok o →
  reads unpack (λ u it, rpcalerts_unpack unpack ck u it o) (imap_toks (alert_pairs a))
    (λ r, r.1 = Some a ∧ obs_ok r.2).
Proof.
  intros Hwf [_ Ho] u u' it Hy Hi.
  destruct (reads_fields (alert_key unpack ck) _ _ _ u u' it
    (Alert 0 0 (Some []), obstack_alloc ck 24 o) (alert_chain a Hwf))
    as (u1 & it1 & it' & [a' o'] & Ht & Hr & Hi' & [? Ho']);
    [by repeat constructor|done|split; [done|split; [done|apply ck_wf]]|done|done|].
  simpl in *. subst a'. exists it'. eexists. split; [|split; [done|]].
  { unfold rpcalerts_unpack. rewrite Ht. rewrite bool_decide_true by done. by rewrite Hr. }
  done.
Qed.
End unpack_spec.

Lemma outputs_alert {P} (pack : P → cpitem → P * bool) `{!PackSpec pack} a :
  alert_wf a → outputs pack (rpcalerts_pack pack a) (imap_toks (alert_pairs a)).
Proof.
  intros (Ht & Hd & Hl & [i Hi] & Htx). destruct a as [t l i']. simpl in *. subst i'. simpl in Htx.
  unfold rpcalerts_pack. cbn [time level id]. rewrite swrap_small by (unfold srange; lia).
  assert (srange 32 l) by (unfold urange, srange in *; lia).
  eapply outputs_eq; [packs|done].
Qed.

(** ** Properties *)

(** File statistics and alerts that are packed are unpacked as they were, with
    the optional fields there or not, and whatever follows them is left alone. *)
Theorem records_roundtrip stats alert ck o :
  stat_wf stats → alert_wf alert → chunks_wf ck → obs_ok o →
  round_trips (rpcfile_stat_pack cp_pack_chainpack_func stats)
    (rpcfile_stat_unpack cp_unpack_chainpack_func) (λ r, r = Some stats) ∧
  round_trips (rpcalerts_pack cp_pack_chainpack_func alert)
    (λ f it, rpcalerts_unpack cp_unpack_chainpack_func ck f it o) (λ r, r.1 = Some alert).
Proof.
  intros Hs Ha Hck Ho. split.
  - eapply round_trips_toks; [by apply outputs_stat|by apply reads_stat|].
    destruct Hs as (?&?&?&?&?&?&?&?). unfold imap_toks, stat_pairs.
    destruct (max_read stats =? 0), (erase_size stats =? 0); simpl; toks_wf; by apply small_packable.
  - eapply round_trips_toks;
      [by apply outputs_alert|eapply reads_impl; [by apply reads_alert|by intros r []]|].
    destruct Ha as (?&?&Hl&?&?). unfold imap_toks, alert_pairs. simpl. toks_wf.
    apply packable_small. unfold urange in *. lia.
Qed.

Lemma records_roundtrip_witness :
  let s := Stat 0 1000 512 128 0 4096 (Datetime 1700000000000 0) (Datetime 1700000000000 60) in
  let a := Alert 1700000000000 43 (Some (str "OverTemperature")) in
  round_trips (rpcfile_stat_pack cp_pack_chainpack_func s)
    (rpcfile_stat_unpack cp_unpack_chainpack_func) (λ r, r = Some s) ∧
  round_trips (rpcalerts_pack cp_pack_chainpack_func a)
    (λ f it, rpcalerts_unpack cp_unpack_chainpack_func (Chunks (λ _, 8) (λ _, 0)) f it (Obstack [] 4))
    (λ r, r.1 = Some a).
Proof.
  apply records_roundtrip; [by_evaluation| |done|done].
  split; [done|]. split; [by_evaluation|]. split; [by_evaluation|]. split; [by eexists|by_evaluation].
Defined.
