(* ===== verification/RpcDir.v ===== *)
(** * Method descriptions ([libshvrpc/rpcdir.c], [include/shv/rpcdir.h])

    What the [dir] method returns of a method: its name, types, flags, access level
    and signals.  Descriptions are packed as integer maps and unpacked from these and
    from the string maps of older implementations; the lookup of the string keys is
    generated by gperf and a parameter, like that of the access levels. *)

From S2P Require Import Prelude Stdio Chainpack CpItem ChainpackPack ChainpackUnpack.
From S2P Require Import CpUnpack CpUnpackChainpack CpPack CpObstack CpLoops Rpcaccess RpcFile.

(** ** Definitions *)

Definition RPCDIR_F_NOT_CALLABLE : Z := 1.
Definition RPCDIR_F_GETTER : Z := 2.
Definition RPCDIR_F_SETTER : Z := 4.
Definition RPCDIR_F_LARGE_RESULT : Z := 8.
Definition RPCDIR_F_NOT_IDEMPOTENT : Z := 16.
Definition RPCDIR_F_USERID_REQUIRED : Z := 32.
Definition RPCDIR_F_ISUPDATABLE : Z := 64.
Definition RPCDIR_F_LONG_EXECUTION : Z := 128.

Definition RPCDIR_KEY_NAME : Z := 1.
Definition RPCDIR_KEY_FLAGS : Z := 2.
Definition RPCDIR_KEY_PARAM : Z := 3.
Definition RPCDIR_KEY_RESULT : Z := 4.
Definition RPCDIR_KEY_ACCESS : Z := 5.
Definition RPCDIR_KEY_SIGNALS : Z := 6.
Definition RPCDIR_KEY_EXTRA : Z := 63.

(** [None] is [NULL]. *)
Record rpcdirsig : Type := Sig { sig_name : option cstr; sig_param : option cstr }.

Record rpcdir : Type := Dir {
  name : option cstr; param : option cstr; result : option cstr;
  dflags : Z; access : Z; signals : list rpcdirsig }.

Definition rpcdir_ls : rpcdir :=
  Dir (Some (str "ls")) (Some (str "s|n")) (Some (str "[s]|b")) 0 RPCACCESS_BROWSE
    [Sig (Some (str "lsmod")) (Some (str "{b}"))].

Definition rpcdir_dir : rpcdir :=
  Dir (Some (str "dir")) (Some (str "n|b|s")) (Some (str "[!dir]|b")) 0 RPCACCESS_BROWSE [].

(** The methods of file nodes ([libshvrpc/rpcfile.c]). *)
Definition rpcfile_stat : rpcdir :=
  Dir (Some (str "stat")) None (Some (str "!stat")) RPCDIR_F_GETTER RPCACCESS_READ [].
Definition rpcfile_size : rpcdir :=
  Dir (Some (str "size")) None (Some (str "i(0,)")) RPCDIR_F_GETTER RPCACCESS_READ [].
Definition rpcfile_crc : rpcdir :=
  Dir (Some (str "crc")) (Some (str "[i(0,):offset,i(0,)|n:size]|n")) (Some (str "u(>32)")) 0
    RPCACCESS_READ [].
Definition rpcfile_sha1 : rpcdir :=
  Dir (Some (str "sha1")) (Some (str "[i(0,):offset,i(0,)|n:size]|n")) (Some (str "b(20)")) 0
    RPCACCESS_READ [].
Definition rpcfile_read : rpcdir :=
  Dir (Some (str "read")) (Some (str "[i(0,):offset,i(0,)size]")) (Some (str "b"))
    RPCDIR_F_LARGE_RESULT RPCACCESS_READ [].
Definition rpcfile_write : rpcdir :=
  Dir (Some (str "write")) (Some (str "[i(0,):offset,b:data]")) None 0 RPCACCESS_WRITE [].
Definition rpcfile_truncate : rpcdir :=
  Dir (Some (str "truncate")) (Some (str "i(0,)")) None 0 RPCACCESS_WRITE [].
Definition rpcfile_append : rpcdir :=
  Dir (Some (str "append")) (Some (str "b")) None 0 RPCACCESS_WRITE [].

Definition pack_sig {P} (pack : P → cpitem → P * bool) (s : rpcdirsig) : P → P * bool :=
  cp_pack_str pack (sig_name s) >>>
  match sig_param s with Some p => cp_pack_str pack (Some p) | None => cp_pack_null pack end.

Definition rpcdir_pack {P} (pack : P → cpitem → P * bool) (m : rpcdir) : P → P * bool :=
  cp_pack_imap_begin pack >>>
  cp_pack_int pack RPCDIR_KEY_NAME >>> cp_pack_str pack (name m) >>>
  when (negb (dflags m =? 0))
    (cp_pack_int pack RPCDIR_KEY_FLAGS >>> cp_pack_int pack (dflags m)) >>>
  (match param m with
   | Some p => cp_pack_int pack RPCDIR_KEY_PARAM >>> cp_pack_str pack (Some p)
   | None => nop
   end) >>>
  (match result m with
   | Some r => cp_pack_int pack RPCDIR_KEY_RESULT >>> cp_pack_str pack (Some r)
   | None => nop
   end) >>>
  cp_pack_int pack RPCDIR_KEY_ACCESS >>> cp_pack_int pack (access m) >>>
  (match signals m with
   | [] => nop
   | _ =>
       cp_pack_int pack RPCDIR_KEY_SIGNALS >>> cp_pack_map_begin pack >>>
       for_each (pack_sig pack) (signals m) >>> cp_pack_container_end pack
   end) >>>
  cp_pack_container_end pack >>> nop.

#[export] Instance packs_dir {P} (pack : P → cpitem → P * bool) m : OnlyPacks pack (rpcdir_pack pack m).
Proof. unfold rpcdir_pack, pack_sig. apply _. Qed.

(** The table of [rpcdir_key.gperf]. *)
Definition rpcdir_key_table : list (cstr * Z) := [
  (str "name", RPCDIR_KEY_NAME);
  (str "flags", RPCDIR_KEY_FLAGS);
  (str "param", RPCDIR_KEY_PARAM);
  (str "result", RPCDIR_KEY_RESULT);
  (str "access", RPCDIR_KEY_ACCESS);
  (str "accessGrant", RPCDIR_KEY_ACCESS);
  (str "signals", RPCDIR_KEY_SIGNALS);
  (str "tags", RPCDIR_KEY_EXTRA)].

Definition set_name (v : option cstr) (m : rpcdir) : rpcdir :=
  Dir v (param m) (result m) (dflags m) (access m) (signals m).
Definition set_param (v : option cstr) (m : rpcdir) : rpcdir :=
  Dir (name m) v (result m) (dflags m) (access m) (signals m).
Definition set_result (v : option cstr) (m : rpcdir) : rpcdir :=
  Dir (name m) (param m) v (dflags m) (access m) (signals m).
Definition set_dflags (v : Z) (m : rpcdir) : rpcdir :=
  Dir (name m) (param m) (result m) v (access m) (signals m).
Definition set_access (v : Z) (m : rpcdir) : rpcdir :=
  Dir (name m) (param m) (result m) (dflags m) v (signals m).
Definition set_signals (v : list rpcdirsig) (m : rpcdir) : rpcdir :=
  Dir (name m) (param m) (result m) (dflags m) (access m) v.

Section unpack.
Context {U : Type} (unpack : U → cpitem → U * cpitem) (ck : chunks) (alloc : Z → bool).
Context (gperf_rpcaccess : cstr → option Z) (gperf_rpcdir_key : cstr → option Z).

(** One round of the loop over the signals; [inr false] when memory is short. *)
Definition sigs_step (st : U * cpitem * (list rpcdirsig * obstack)) :
    U * cpitem * (list rpcdirsig * obstack) + U * cpitem * (list rpcdirsig * obstack + unit) :=
  let '(u, it, (sigs, o)) := st in
  let '(u, it, ty) := cp_unpack_type unpack u it in
  if bool_decide (ty = CPITEM_STRING) then
    if alloc (16 * (Z.of_nat (length sigs) + 1)) then
      let '(u, it, o, nm) := strdupo unpack ck u it o in
      let '(u, it, ty) := cp_unpack_type unpack u it in
      if bool_decide (ty = CPITEM_STRING) then
        let '(u, it, o, pr) := strdupo unpack ck u it o in inl (u, it, (sigs ++ [Sig nm pr], o))
      else
        let '(u, it) := cp_unpack_drop unpack u it in inl (u, it, (sigs ++ [Sig nm None], o))
    else inr (u, it, inr tt)
  else inr (u, it, inl (sigs, o)).

(** [unpack_value]: [inr] is the [false] result.  The key is an enumeration. *)
Definition unpack_value (key : Z) (u : U) (it : cpitem) (s : rpcdir * obstack) :
    U * cpitem * (rpcdir * obstack + obstack) :=
  let '(res, o) := s in
  let key := u32 key in
  if key =? RPCDIR_KEY_NAME then
    let '(u, it, o, v) := strdupo unpack ck u it o in
    (u, it, match v with Some _ => inl (set_name v res, o) | None => inr o end)
  else if key =? RPCDIR_KEY_FLAGS then
    let '(u, it, v) := cp_unpack_int unpack (Signed 32) u it in
    (u, it, match v with Some f => inl (set_dflags f res, o) | None => inr o end)
  else if key =? RPCDIR_KEY_PARAM then
    let '(u, it, o, v) := strdupo unpack ck u it o in (u, it, inl (set_param v res, o))
  else if key =? RPCDIR_KEY_RESULT then
    let '(u, it, o, v) := strdupo unpack ck u it o in (u, it, inl (set_result v res, o))
  else if key =? RPCDIR_KEY_ACCESS then
    let '(u, it, ty) := cp_unpack_type unpack u it in
    match ty with
    | CPITEM_INT =>
        (u, it, match cpitem_extract_int (Unsigned 8) it with
                | Some a => inl (set_access a res, o)
                | None => inr o
                end)
    | CPITEM_STRING =>
        let '(u, it, n) := cp_unpack_strncpy unpack u it (Some (replicate 6 0)) 6 in
        let buf := until_nul (default [] (buf it)) in
        let '(u, it) := cp_unpack_drop unpack u it in
        if n <? 6
        then (u, it, inl (set_access (rpcaccess_granted_extract gperf_rpcaccess buf).2 res, o))
        else (u, it, inr o)
    | _ => (u, it, inr o)
    end
  else if key =? RPCDIR_KEY_SIGNALS then
    let '(u, it, ty) := cp_unpack_type unpack u it in
    if bool_decide (ty = CPITEM_MAP) then
      let '(u, it, r) := run sigs_step (u, it, ([], o)) in
      match r with
      | inl ([], o) => (u, it, inl (res, o))
      | inl (sigs, o) =>
          (u, it, inl (set_signals sigs res, obstack_alloc ck (16 * Z.of_nat (length sigs)) o))
      | inr _ => (u, it, inr (obstack_free ck o))
      end
    else (u, it, inr o)
  else let '(u, it) := cp_unpack_skip unpack u it in (u, it, inl s).

Definition map_value (key : cstr) (u : U) (it : cpitem) (s : rpcdir * obstack) :
    U * cpitem * (rpcdir * obstack + obstack) :=
  match gperf_rpcdir_key key with
  | None => let '(u, it) := cp_unpack_skip unpack u it in (u, it, inl s)
  | Some key => unpack_value key u it s
  end.

Definition dir_init : rpcdir := Dir None None None 0 RPCACCESS_NONE [].

(** [None] is the [NULL] result. *)
Definition rpcdir_unpack (u : U) (it : cpitem) (o : obstack) : U * cpitem * (option rpcdir * obstack) :=
  let o := obstack_alloc ck 48 o in
  let '(u, it, ty) := cp_unpack_type unpack u it in
  let '(u, it, r) :=
    match ty with
    | CPITEM_IMAP => for_cp_unpack_imap unpack unpack_value u it (dir_init, o)
    | CPITEM_MAP => for_cp_unpack_map unpack 11 map_value u it (dir_init, o)
    | _ => (u, it, inl (dir_init, o))
    end in
  match r with
  | inl (res, o) =>
      if bool_decide (name res = None) || (access res =? RPCACCESS_NONE)
      then (u, it, (None, obstack_free ck o))
      else (u, it, (Some res, o))
  | inr o => (u, it, (None, obstack_free ck o))
  end.
End unpack.

(** ** Lemmas *)

Definition opt_text (s : option cstr) : Prop := text (default [] s).

Definition sig_wf (s : rpcdirsig) : Prop :=
  is_Some (sig_name s) ∧ opt_text (sig_name s) ∧ opt_text (sig_param s).

Definition dir_wf (m : rpcdir) : Prop :=
  is_Some (name m) ∧ opt_text (name m) ∧ opt_text (param m) ∧ opt_text (result m) ∧
  srange 32 (dflags m) ∧ urange 8 (access m) ∧ access m ≠ RPCACCESS_NONE ∧
  Forall sig_wf (signals m) ∧ Z.of_nat (length (signals m)) < 2 ^ 60.

Definition sig_toks (s : rpcdirsig) : list tok :=
  [TString (default [] (sig_name s)); match sig_param s with Some p => TString p | None => TNull end].

Definition dir_pairs (m : rpcdir) : list (Z * list tok) :=
  [(RPCDIR_KEY_NAME, [TString (default [] (name m))])] ++
  (if negb (dflags m =? 0) then [(RPCDIR_KEY_FLAGS, [TInt (dflags m)])] else []) ++
  (match param m with Some p => [(RPCDIR_KEY_PARAM, [TString p])] | None => [] end) ++
  (match result m with Some p => [(RPCDIR_KEY_RESULT, [TString p])] | None => [] end) ++
  [(RPCDIR_KEY_ACCESS, [TInt (access m)])] ++
  (match signals m with
   | [] => []
   | l => [(RPCDIR_KEY_SIGNALS, TMap :: flat_map sig_toks l ++ [TEnd])]
   end).

Lemma outputs_sig {P} (pack : P → cpitem → P * bool) `{!PackSpec pack} s :
  sig_wf s → outputs pack (pack_sig pack s) (sig_toks s).
Proof.
  intros ([n Hn] & Htn & Htp). destruct s as [n' p]. simpl in *. subst n'. simpl in Htn.
  unfold pack_sig, sig_toks. cbn [sig_name sig_param].
  apply (outputs_then _ _ _ [TString _]); [by apply outputs_str|].
  destruct p as [p|]; [by apply outputs_str|apply outputs_null].
Qed.

Lemma outputs_dir {P} (pack : P → cpitem → P * bool) `{!PackSpec pack} m :
  dir_wf m → outputs pack (rpcdir_pack pack m) (imap_toks (dir_pairs m)).
Proof.
  intros ([n Hn] & Hn' & Hp & Hr & Hf & Ha & _ & Hs & _).
  destruct m as [n' p r f a sg]. cbn [name param result dflags access signals] in *. subst n'.
  assert (srange 32 a) by (unfold urange, srange in *; lia).
  unfold rpcdir_pack. cbn [name param result dflags access signals]. eapply outputs_eq.
  - eapply outputs_then; [packs|]. eapply outputs_then; [packs|]. eapply outputs_then; [packs|].
    eapply outputs_then; [packs|].
    eapply (outputs_then _ _ _ (match p with Some q => [TInt RPCDIR_KEY_PARAM; TString q] | None => [] end));
      [destruct p; [eapply outputs_eq; [packs|done]|packs]|].
    eapply (outputs_then _ _ _ (match r with Some q => [TInt RPCDIR_KEY_RESULT; TString q] | None => [] end));
      [destruct r; [eapply outputs_eq; [packs|done]|packs]|].
    eapply outputs_then; [packs|]. eapply outputs_then; [packs|].
    eapply (outputs_then _ _ _ (match sg with [] => [] | _ => TInt RPCDIR_KEY_SIGNALS :: TMap ::
      flat_map sig_toks sg ++ [TEnd] end)); [|packs].
    destruct sg as [|s sg]; [packs|]. eapply outputs_eq.
    + eapply outputs_then; [packs|]. eapply outputs_then; [packs|]. eapply outputs_then; [|packs].
      apply (outputs_for_each _ _ sig_toks). intros x Hx. apply outputs_sig.
      rewrite Forall_forall in Hs. by apply Hs.
    + done.
  - unfold imap_toks, dir_pairs. cbn [name param result dflags access signals].
    destruct (f =? 0), p, r, sg; simpl; rewrite ?app_nil_r, <-?app_assoc; done.
Qed.

Section unpack_spec.
Context {U : Type} (unpack : U → cpitem → U * cpitem) `{!UnpackSpec unpack}.
Context (ck : chunks) (ck_wf : chunks_wf ck).
Context (gperf_rpcaccess : cstr → option Z) (gperf_rpcdir_key : cstr → option Z).

Abbreviation value := (unpack_value unpack ck (λ _, true) gperf_rpcaccess).

Lemma sigs_loop l sigs u u' it o :
  Forall sig_wf l → yields_list unpack (flat_map sig_toks l ++ [TEnd]) u u' → idle_item it → obs_ok o →
  ∃ it' o', steps (sigs_step unpack ck (λ _, true)) (length l + 1) (u, it, (sigs, o))
    (inr (u', it', inl (sigs ++ l, o'))) ∧ idle_item it' ∧ obs_ok o'.
Proof.
  intros Hl. revert sigs u it o. induction Hl as [|s l Hs Hl IH]; intros sigs u it o Hy Hi Ho.
  - destruct Hy as (u1 & Hy & ->).
    destruct (unpack_idle unpack TEnd u u1 it Hy eq_refl Hi) as (it' & Hu & [Ht _] & Hi').
    exists it', o. split; [|done]. apply steps_stop. unfold sigs_step, cp_unpack_type.
    rewrite Hu, Ht. by rewrite app_nil_r.
  - destruct Hs as ([n Hn] & Htn & Htp). destruct s as [n' p]. simpl in Hn, Htn, Htp. subst n'.
    cbn [flat_map app sig_toks sig_name sig_param default from_option] in Hy.
    destruct Hy as (u1 & Hy1 & u2 & Hy2 & Hy).
    destruct (unpack_head unpack false n u u1 it Hy1 Hi) as (v1 & it1 & Hu1 & Ht1 & Hp1 & _).
    destruct (strdupo_text unpack ck ck_wf n v1 it1 u1 o) as (it2 & o2 & Hs2 & Hi2 & Ho2); [by right|done|done|].
    assert (∃ it3 o3, sigs_step unpack ck (λ _, true) (u, it, (sigs, o)) =
      inl (u2, it3, (sigs ++ [Sig (Some n) p], o3)) ∧ idle_item it3 ∧ obs_ok o3) as (it3 & o3 & Hst & Hi3 & Ho3).
    { unfold sigs_step, cp_unpack_type. rewrite Hu1, Ht1. cbn [data_type].
      rewrite bool_decide_true by done. rewrite Hs2. destruct p as [p|].
      - destruct (unpack_head unpack false p u1 u2 it2 Hy2 Hi2) as (v3 & it3 & Hu3 & Ht3 & Hp3 & _).
        destruct (strdupo_text unpack ck ck_wf p v3 it3 u2 o2) as (it4 & o4 & Hs4 & ? & ?); [by right|done|done|].
        rewrite Hu3, Ht3. cbn [data_type]. rewrite bool_decide_true by done. rewrite Hs4. eauto.
      - destruct (unpack_idle unpack TNull u1 u2 it2 Hy2 eq_refl Hi2) as (it3 & Hu3 & [Ht3 _] & Hi3).
        rewrite Hu3, Ht3. cbn [tok_type]. rewrite bool_decide_false by done.
        unfold cp_unpack_drop. rewrite Ht3. cbn [tok_type].
        destruct (drop1_at_item unpack u2 it3 u2) as (it4 & Hd & Hr4 & _ & Hb4); [left; split; [apply Hi3|done]|].
        rewrite Hd. exists it4, o2. by split_and!. }
    destruct (IH (sigs ++ [Sig (Some n) p]) u2 it3 o3 Hy Hi3 Ho3) as (it' & o' & Hloop & ?).
    exists it', o'. split; [|done]. simpl. eapply steps_next; [done|].
    by rewrite <-app_assoc in Hloop.
Qed.

Lemma steps_signals l m :
  Forall sig_wf l → l ≠ [] → Z.of_nat (length l) < 2 ^ 60 →
  steps_to unpack (value RPCDIR_KEY_SIGNALS) (TMap :: flat_map sig_toks l ++ [TEnd])
    (kept_as m) (kept_as (set_signals l m)).
Proof.
  intros Hl Hne Hlen [m' o] [Em Ho] u u' it (u1 & Hy1 & Hy) Hi. simpl in Em, Ho. subst m'.
  destruct (unpack_idle unpack TMap u u1 it Hy1 eq_refl Hi) as (it1 & Hu & [Ht _] & Hi1).
  destruct (sigs_loop l [] u1 u' it1 o Hl Hy Hi1 Ho) as (it' & o' & Hs & Hi' & Ho').
  destruct l as [|s l]; [done|].
  exists it', (inl (set_signals (s :: l) m, obstack_alloc ck (16 * Z.of_nat (length (s :: l))) o')).
  split; [|split; [done|]].
  - unfold unpack_value, cp_unpack_type. change (u32 RPCDIR_KEY_SIGNALS) with RPCDIR_KEY_SIGNALS.
    eval_keys.
    rewrite Hu, Ht. cbn [tok_type]. rewrite bool_decide_true by done.
    by rewrite (run_steps _ _ _ _ Hs) by lia.
  - eexists. split; [done|]. split; [done|]. split; [done|apply ck_wf].
Qed.

Lemma steps_access a m :
  urange 8 a →
  steps_to unpack (value RPCDIR_KEY_ACCESS) [TInt a] (kept_as m) (kept_as (set_access a m)).
Proof.
  intros Ha [m' o] [Em Ho] u u' it (u1 & Hy & ->) Hi. simpl in Em, Ho. subst m'.
  destruct (unpack_idle unpack (TInt a) u u1 it Hy eq_refl Hi) as (it' & Hu & [Ht Hv] & Hi').
  exists it', (inl (set_access a m, o)). split; [|split; [done|eexists; by split]].
  unfold unpack_value, cp_unpack_type. change (u32 RPCDIR_KEY_ACCESS) with RPCDIR_KEY_ACCESS.
  eval_keys. rewrite Hu, Ht. cbn [tok_type]. destruct (fits_unsigned 8 a) as [Hf Hc]; [lia|done|].
  unfold cpitem_extract_int. rewrite Ht, Hv. cbn [as_Int]. by rewrite bool_decide_true, Hf, Hc by done.
Qed.

Lemma steps_flags f m :
  srange 32 f →
  steps_to unpack (value RPCDIR_KEY_FLAGS) [TInt f] (kept_as m) (kept_as (set_dflags f m)).
Proof.
  intros Hf [m' o] [Em Ho] u u' it Hy Hi. simpl in Em, Ho. subst m'.
  destruct (reads_int_fits unpack (Signed 32) f (fits_signed 32 f ltac:(lia) Hf) u u' it Hy Hi)
    as (it' & r & Hu & Hi' & ->).
  exists it', (inl (set_dflags f m, o)). split; [|split; [done|eexists; by split]].
  unfold unpack_value. change (u32 RPCDIR_KEY_FLAGS) with RPCDIR_KEY_FLAGS. eval_keys. by rewrite Hu.
Qed.

Ltac string_field :=
  intros; unfold unpack_value;
  match goal with |- context [u32 ?k] => change (u32 k) with k end; eval_keys;
  match goal with H : strdupo _ _ _ _ _ = _ |- _ => by rewrite H end.

Lemma dir_chain m :
  dir_wf m → chain unpack value (kept_as dir_init) (dir_pairs m) (kept_as m).
Proof.
  intros ([n Hn] & Hn' & Hp & Hr & Hf & Ha & _ & Hs & Hl). unfold opt_text in *.
  destruct m as [n' p r f a sg]. cbn [name param result dflags access signals] in *. subst n'.
  unfold dir_pairs. cbn [name param result dflags access signals default from_option id] in *. cbn [app].
  econstructor; [apply (steps_string unpack ck ck_wf _ n set_name); [string_field|done]|].
  eapply (chain_opt _ _ _ _ _ _ (kept_as (Dir (Some n) None None f 0 [])));
    [intros _; by apply (steps_flags f (Dir (Some n) None None 0 0 []))
    |by intros ->%negb_false_iff%Z.eqb_eq|].
  eapply (chain_option _ _ p _ _ _ (kept_as (Dir (Some n) p None f 0 []))).
  { intros q ->. apply (steps_string unpack ck ck_wf _ q set_param); [string_field|done]. }
  { by intros ->. }
  eapply (chain_option _ _ r _ _ _ (kept_as (Dir (Some n) p r f 0 []))).
  { intros q ->. apply (steps_string unpack ck ck_wf _ q set_result); [string_field|done]. }
  { by intros ->. }
  econstructor; [by apply steps_access|]. destruct sg as [|s sg]; [by constructor|].
  econstructor; [by apply steps_signals|by constructor].
Qed.

Lemma dir_keys m :
  Forall (λ p, srange 64 p.1) (dir_pairs m) ∧ Z.of_nat (length (dir_pairs m)) < 2 ^ 64.
Proof.
  unfold dir_pairs. destruct (dflags m =? 0), (param m), (result m), (signals m); split; try done;
    repeat constructor; done.
Qed.

Lemma reads_dir m o :
  dir_wf m → obs_ok o →
  reads unpack (λ u it, rpcdir_unpack unpack ck (λ _, true) gperf_rpcaccess gperf_rpcdir_key u it o)
    (imap_toks (dir_pairs m)) (λ r, r.1 = Some m ∧ obs_ok r.2).
Proof.
  intros Hwf Ho u u' it Hy Hi. destruct (dir_keys m) as [Hk Hl].
  destruct (reads_fields unpack value _ _ _ u u' it (dir_init, obstack_alloc ck 48 o) (dir_chain m Hwf) Hk Hl)
    as (u1 & it1 & it' & [m' o'] & Ht & Hr & Hi' & [Em Ho']); [|done|done|].
  { split; [done|]. split; [done|apply ck_wf]. }
  simpl in Em, Ho'. subst m'. exists it', (Some m, o'). split; [|done].
  unfold rpcdir_unpack. rewrite Ht, Hr. destruct Hwf as ([n Hn] & _ & _ & _ & _ & _ & Ha & _).
  rewrite Hn. rewrite bool_decide_false by done. by rewrite (proj2 (Z.eqb_neq _ _)).
Qed.
End unpack_spec.

Lemma sig_toks_wf l : Forall sig_wf l → Forall tok_wf (flat_map sig_toks l).
Proof.
  induction 1 as [|s l ([k Hk] & Hk' & Hp) Hl IH]; [constructor|]. simpl.
  unfold opt_text in *. rewrite Hk in *. simpl in Hk'. destruct (sig_param s); simpl in Hp; toks_wf.
Qed.

Lemma dir_toks_wf m : dir_wf m → Forall tok_wf (imap_toks (dir_pairs m)).
Proof.
  intros ([n Hn] & Hn' & Hp & Hr & Hf & Ha & _ & Hs%sig_toks_wf & _). unfold opt_text in *.
  apply imap_toks_wf. unfold dir_pairs. rewrite Hn in *. simpl in Hn'.
  assert (packable_int (dflags m)) by (unfold packable_int, srange in *; lia).
  assert (packable_int (access m)) by (unfold packable_int, srange, urange in *; lia).
  repeat (apply Forall_app; split).
  - apply Forall_singleton. split; [done|]. toks_wf.
  - destruct (dflags m =? 0); simpl; [constructor|]. apply Forall_singleton. split; [done|]. toks_wf.
  - destruct (param m); [|constructor]. apply Forall_singleton. split; [done|]. toks_wf.
  - destruct (result m); [|constructor]. apply Forall_singleton. split; [done|]. toks_wf.
  - apply Forall_singleton. split; [done|]. toks_wf.
  - destruct (signals m) as [|s l]; [constructor|]. apply Forall_singleton. split; [done|].
    apply Forall_cons. split; [done|]. apply Forall_app. split; [done|]. by apply Forall_singleton.
Qed.

(** ** Properties *)

(** The description of a method that is packed is unpacked as it was: its name,
    the types of parameter and result where there are any, its flags and access
    level, and its signals in their order, with or without a type. *)
Theorem rpcdir_roundtrip m ck o gperf_rpcaccess gperf_rpcdir_key :
  dir_wf m → chunks_wf ck → obs_ok o →
  round_trips (rpcdir_pack cp_pack_chainpack_func m)
    (λ f it, rpcdir_unpack cp_unpack_chainpack_func ck (λ _, true) gperf_rpcaccess gperf_rpcdir_key f it o)
    (λ r, r.1 = Some m).
Proof.
  intros Hm Hck Ho. eapply round_trips_toks;
    [by apply outputs_dir|eapply reads_impl; [by apply reads_dir|by intros r []]|by apply dir_toks_wf].
Qed.

Lemma rpcdir_roundtrip_witness :
  round_trips (rpcdir_pack cp_pack_chainpack_func rpcdir_ls)
    (λ f it, rpcdir_unpack cp_unpack_chainpack_func (Chunks (λ _, 8) (λ _, 0)) (λ _, true)
       (assoc rpcaccess_table) (assoc rpcdir_key_table) f it (Obstack [] 4))
    (λ r, r.1 = Some rpcdir_ls).
Proof.
  apply rpcdir_roundtrip; [|done|done]. split_and!; by_evaluation.
Defined.
