(* ===== verification/RpcMsg.v ===== *)
(** * RPC messages: metadata and packing ([include/shv/rpcmsg.h], [libshvrpc/rpcmsg_pack.c])

    A message is a map of metadata followed by an integer map with at most one
    value.  This file has the metadata as the code keeps it and the functions that
    pack the head of requests, signals, responses and errors; [RpcHead] unpacks
    them. *)

From S2P Require Import Prelude Stdio Chainpack CpItem ChainpackPack ChainpackUnpack.
From S2P Require Import CpUnpack CpUnpackChainpack CpPack CpObstack CpLoops Rpcaccess RpcError RpcFile.

(** ** Definitions *)

Definition RPCMSG_TAG_META_TYPE_ID : Z := 1.
Definition RPCMSG_TAG_META_TYPE_NAMESPACE_ID : Z := 2.
Definition RPCMSG_TAG_REQUEST_ID : Z := 8.
Definition RPCMSG_TAG_SHV_PATH : Z := 9.
Definition RPCMSG_TAG_METHOD : Z := 10.
Definition RPCMSG_TAG_SIGNAL : Z := 10.
Definition RPCMSG_TAG_CALLER_IDS : Z := 11.
Definition RPCMSG_TAG_ACCESS : Z := 14.
Definition RPCMSG_TAG_USER_ID : Z := 16.
Definition RPCMSG_TAG_ACCESS_LEVEL : Z := 17.
Definition RPCMSG_TAG_SOURCE : Z := 19.
Definition RPCMSG_TAG_REPEAT : Z := 20.

Definition RPCMSG_KEY_PARAM : Z := 1.
Definition RPCMSG_KEY_RESULT : Z := 2.
Definition RPCMSG_KEY_ERROR : Z := 3.
Definition RPCMSG_KEY_DELAY : Z := 4.
Definition RPCMSG_KEY_ABORT : Z := 5.

Inductive rpcmsg_type :=
  | RPCMSG_T_INVALID | RPCMSG_T_REQUEST | RPCMSG_T_REQUEST_ABORT | RPCMSG_T_RESPONSE
  | RPCMSG_T_RESPONSE_DELAY | RPCMSG_T_ERROR | RPCMSG_T_SIGNAL.

#[export] Instance rpcmsg_type_eq_dec : EqDecision rpcmsg_type.
Proof. solve_decision. Defined.

(** [method] is also [signal], the two are a union; [request_progress] is the
    pattern of a [double]; [extra] are keys and ChainPack bytes. *)
Record rpcmsg_meta : Type := Meta {
  mtype : rpcmsg_type;
  request_id : Z;
  maccess : Z;
  access_granted : option cstr;
  path : option cstr;
  method : option cstr;
  source : option cstr;
  repeat : bool;
  user_id : option cstr;
  request_abort : bool;
  request_progress : Z;
  cids : list Z;
  extra : list (Z * list Z) }.

#[export] Instance rpcmsg_meta_eq_dec : EqDecision rpcmsg_meta.
Proof. solve_decision. Defined.

(** Negative limits are no limits. *)
Record rpcmsg_meta_limits : Type := Limits {
  path_limit : Z; name_limit : Z; user_id_limit : Z; extra_kept : bool }.

Definition rpcmsg_has_value (it : cpitem) : bool := negb (bool_decide (type it = CPITEM_CONTAINER_END)).

Section pack.
Context {P : Type} (pack : P → cpitem → P * bool).

Definition meta_begin : P → P * bool :=
  cp_pack_meta_begin pack >>> cp_pack_int pack RPCMSG_TAG_META_TYPE_ID >>> cp_pack_int pack 1.

(** A tag and its value. *)
Definition tag_int (tag v : Z) : P → P * bool := cp_pack_int pack tag >>> cp_pack_int pack v.
Definition tag_str (tag : Z) (s : cstr) : P → P * bool :=
  cp_pack_int pack tag >>> cp_pack_str pack (Some s).

(** [if (s) { cp_pack_int(pack, tag); cp_pack_str(pack, s); }] *)
Definition tag_opt (tag : Z) (s : option cstr) : P → P * bool :=
  match s with Some s => tag_str tag s | None => nop end.

Definition _rpcmsg_pack_request (path : option cstr) (method : cstr) (uid : option cstr) (rid : Z) :
    P → P * bool :=
  meta_begin >>>
  tag_int RPCMSG_TAG_REQUEST_ID rid >>>
  tag_str RPCMSG_TAG_SHV_PATH (default [] path) >>>
  tag_str RPCMSG_TAG_METHOD method >>>
  tag_opt RPCMSG_TAG_USER_ID uid >>>
  cp_pack_container_end pack >>>
  cp_pack_imap_begin pack.

Definition rpcmsg_pack_request path method uid rid : P → P * bool :=
  _rpcmsg_pack_request path method uid rid >>> cp_pack_int pack RPCMSG_KEY_PARAM.

Definition rpcmsg_pack_request_void path method uid rid : P → P * bool :=
  _rpcmsg_pack_request path method uid rid >>> cp_pack_container_end pack.

Definition _rpcmsg_pack_signal (path : option cstr) (source signal : cstr) (uid : option cstr)
    (access : Z) (repeat : bool) : P → P * bool :=
  meta_begin >>>
  tag_str RPCMSG_TAG_SHV_PATH (default [] path) >>>
  cp_pack_int pack RPCMSG_TAG_SIGNAL >>>
  cp_pack_str pack (Some signal) >>?
  when (negb (strcmp source (str "get") =? 0)) (tag_str RPCMSG_TAG_SOURCE source) >>>
  tag_opt RPCMSG_TAG_USER_ID uid >>>
  when (negb (access =? RPCACCESS_READ)) (tag_int RPCMSG_TAG_ACCESS_LEVEL access) >>>
  when repeat (cp_pack_int pack RPCMSG_TAG_REPEAT >>> cp_pack_bool pack true) >>>
  cp_pack_container_end pack >>>
  cp_pack_imap_begin pack.

Definition rpcmsg_pack_signal path source signal uid access repeat : P → P * bool :=
  _rpcmsg_pack_signal path source signal uid access repeat >>> cp_pack_int pack RPCMSG_KEY_PARAM.

Definition rpcmsg_pack_signal_void path source signal uid access repeat : P → P * bool :=
  _rpcmsg_pack_signal path source signal uid access repeat >>> cp_pack_container_end pack.

(** The identifiers of the callers: a list of more than one, or the one. *)
Definition pack_cids (l : list Z) : P → P * bool :=
  match l with
  | [] => nop
  | [c] => cp_pack_int pack RPCMSG_TAG_CALLER_IDS >>> cp_pack_int pack c
  | _ =>
      cp_pack_int pack RPCMSG_TAG_CALLER_IDS >>> cp_pack_list_begin pack >>>
      for_each (cp_pack_int pack) l >>> cp_pack_container_end pack
  end.

Definition _pack_response (meta : rpcmsg_meta) : P → P * bool :=
  meta_begin >>>
  tag_int RPCMSG_TAG_REQUEST_ID (request_id meta) >>>
  pack_cids (cids meta) >>>
  cp_pack_container_end pack >>>
  cp_pack_imap_begin pack.

Definition rpcmsg_pack_response (meta : rpcmsg_meta) : P → P * bool :=
  _pack_response meta >>> cp_pack_int pack RPCMSG_KEY_RESULT.

Definition rpcmsg_pack_response_void (meta : rpcmsg_meta) : P → P * bool :=
  _pack_response meta >>> cp_pack_container_end pack.

Definition rpcmsg_pack_error (meta : rpcmsg_meta) (errnum : Z) (msg : option cstr) : P → P * bool :=
  _pack_response meta >>>
  cp_pack_int pack RPCMSG_KEY_ERROR >>>
  rpcerror_pack pack errnum msg >>>
  cp_pack_container_end pack.

(** [msg] is what [vsnprintf] makes of the format and its arguments. *)
Definition rpcmsg_pack_vferror (meta : rpcmsg_meta) (errnum : Z) (msg : cstr) : P → P * bool :=
  _pack_response meta >>>
  cp_pack_int pack RPCMSG_KEY_ERROR >>?
  rpcerror_pack pack errnum (Some msg) >>>
  cp_pack_container_end pack.

Definition rpcmsg_pack_ferror := rpcmsg_pack_vferror.

Definition is_type (meta : rpcmsg_meta) (t : rpcmsg_type) : bool := bool_decide (mtype meta = t).

(** [false] without a call of the packer. *)
Definition invalid : P → P * bool := λ p, (p, false).

Definition _rpcmsg_pack_meta (meta : rpcmsg_meta) : P → P * bool :=
  let is_rre := is_type meta RPCMSG_T_REQUEST || is_type meta RPCMSG_T_RESPONSE ||
                is_type meta RPCMSG_T_ERROR in
  let is_rs := is_type meta RPCMSG_T_REQUEST || is_type meta RPCMSG_T_SIGNAL in
  let has s := match s with Some (_ :: _) => true | _ => false end in
  meta_begin >>>
  when is_rre (tag_int RPCMSG_TAG_REQUEST_ID (request_id meta)) >>>
  when (is_rs && has (path meta)) (tag_str RPCMSG_TAG_SHV_PATH (default [] (path meta))) >>>
  if is_rs && negb (has (method meta)) then invalid
  else
    when is_rs (tag_str RPCMSG_TAG_METHOD (default [] (method meta))) >>>
    when is_rre (pack_cids (cids meta)) >>>
    when is_rs (tag_opt RPCMSG_TAG_USER_ID (user_id meta)) >>>
    when is_rs (tag_int RPCMSG_TAG_ACCESS_LEVEL (maccess meta)) >>>
    when (is_type meta RPCMSG_T_SIGNAL)
      (cp_pack_int pack RPCMSG_TAG_SOURCE >>> cp_pack_str pack (source meta)) >>>
    when (is_type meta RPCMSG_T_SIGNAL && repeat meta)
      (cp_pack_int pack RPCMSG_TAG_REPEAT >>> cp_pack_bool pack true) >>>
    cp_pack_container_end pack >>>
    cp_pack_imap_begin pack.

Definition rpcmsg_pack_meta (meta : rpcmsg_meta) : P → P * bool :=
  _rpcmsg_pack_meta meta >>>
  match mtype meta with
  | RPCMSG_T_REQUEST | RPCMSG_T_SIGNAL => cp_pack_int pack RPCMSG_KEY_PARAM
  | RPCMSG_T_RESPONSE => cp_pack_int pack RPCMSG_KEY_RESULT
  | RPCMSG_T_ERROR => cp_pack_int pack RPCMSG_KEY_ERROR
  | _ => invalid
  end.

Definition rpcmsg_pack_meta_void (meta : rpcmsg_meta) : P → P * bool :=
  if is_type meta RPCMSG_T_ERROR then invalid
  else _rpcmsg_pack_meta meta >>> cp_pack_container_end pack.
End pack.
