(* ===== verification/RpcHead.v ===== *)
(** * RPC messages: unpacking of the head ([libshvrpc/rpcmsg_head.c])

    [rpcmsg_head_unpack] reads the metadata and the opening of the value map.  What
    it returns is one of [head_res]: the metadata, a refusal, or [Crash] where the
    code dereferences [NULL]. *)

From S2P Require Import Prelude Stdio Chainpack CpItem ChainpackPack ChainpackUnpack.
From S2P Require Import CpUnpack CpUnpackChainpack CpPack CpObstack CpLoops.
From S2P Require Import Rpcaccess RpcError RpcFile RpcMsg.

(** ** Definitions *)

(** The defaults of [meson_options.txt]. *)
Definition rpcmsg_meta_limits_default : rpcmsg_meta_limits := Limits 1024 256 256 false.

Inductive refusal := Failure | Crash.

(** What the loop over the tags keeps. *)
Record head_state : Type := Head {
  meta : rpcmsg_meta; has_rid : bool; has_access : bool; obs : obstack }.

Definition set_meta (f : rpcmsg_meta → rpcmsg_meta) (s : head_state) : head_state :=
  Head (f (meta s)) (has_rid s) (has_access s) (obs s).
Definition set_obs (o : obstack) (s : head_state) : head_state :=
  Head (meta s) (has_rid s) (has_access s) o.

Definition with_path (v : option cstr) (m : rpcmsg_meta) : rpcmsg_meta :=
  Meta (mtype m) (request_id m) (maccess m) (access_granted m) v (method m) (source m) (repeat m)
    (user_id m) (request_abort m) (request_progress m) (cids m) (extra m).
Definition with_method (v : option cstr) (m : rpcmsg_meta) : rpcmsg_meta :=
  Meta (mtype m) (request_id m) (maccess m) (access_granted m) (path m) v (source m) (repeat m)
    (user_id m) (request_abort m) (request_progress m) (cids m) (extra m).
Definition with_source (v : option cstr) (m : rpcmsg_meta) : rpcmsg_meta :=
  Meta (mtype m) (request_id m) (maccess m) (access_granted m) (path m) (method m) v (repeat m)
    (user_id m) (request_abort m) (request_progress m) (cids m) (extra m).
Definition with_user_id (v : option cstr) (m : rpcmsg_meta) : rpcmsg_meta :=
  Meta (mtype m) (request_id m) (maccess m) (access_granted m) (path m) (method m) (source m) (repeat m)
    v (request_abort m) (request_progress m) (cids m) (extra m).
Definition with_request_id (v : Z) (m : rpcmsg_meta) : rpcmsg_meta :=
  Meta (mtype m) v (maccess m) (access_granted m) (path m) (method m) (source m) (repeat m)
    (user_id m) (request_abort m) (request_progress m) (cids m) (extra m).
Definition with_access (v : Z) (m : rpcmsg_meta) : rpcmsg_meta :=
  Meta (mtype m) (request_id m) v (access_granted m) (path m) (method m) (source m) (repeat m)
    (user_id m) (request_abort m) (request_progress m) (cids m) (extra m).
Definition with_access_granted (v : option cstr) (m : rpcmsg_meta) : rpcmsg_meta :=
  Meta (mtype m) (request_id m) (maccess m) v (path m) (method m) (source m) (repeat m)
    (user_id m) (request_abort m) (request_progress m) (cids m) (extra m).
Definition with_repeat (v : bool) (m : rpcmsg_meta) : rpcmsg_meta :=
  Meta (mtype m) (request_id m) (maccess m) (access_granted m) (path m) (method m) (source m) v
    (user_id m) (request_abort m) (request_progress m) (cids m) (extra m).
Definition with_cids (v : list Z) (m : rpcmsg_meta) : rpcmsg_meta :=
  Meta (mtype m) (request_id m) (maccess m) (access_granted m) (path m) (method m) (source m) (repeat m)
    (user_id m) (request_abort m) (request_progress m) v (extra m).
Definition with_extra (v : list (Z * list Z)) (m : rpcmsg_meta) : rpcmsg_meta :=
  Meta (mtype m) (request_id m) (maccess m) (access_granted m) (path m) (method m) (source m) (repeat m)
    (user_id m) (request_abort m) (request_progress m) (cids m) v.
Definition with_type (v : rpcmsg_type) (m : rpcmsg_meta) : rpcmsg_meta :=
  Meta v (request_id m) (maccess m) (access_granted m) (path m) (method m) (source m) (repeat m)
    (user_id m) (request_abort m) (request_progress m) (cids m) (extra m).
Definition with_abort (v : bool) (m : rpcmsg_meta) : rpcmsg_meta :=
  Meta (mtype m) (request_id m) (maccess m) (access_granted m) (path m) (method m) (source m) (repeat m)
    (user_id m) v (request_progress m) (cids m) (extra m).
Definition with_progress (v : Z) (m : rpcmsg_meta) : rpcmsg_meta :=
  Meta (mtype m) (request_id m) (maccess m) (access_granted m) (path m) (method m) (source m) (repeat m)
    (user_id m) (request_abort m) v (cids m) (extra m).

Definition meta_init : rpcmsg_meta :=
  Meta RPCMSG_T_INVALID 0 RPCACCESS_NONE None None None None false None false 0 [] [].

(** The separator of the parts of a user identifier. *)
Definition COLON_ : Z := 58.

(** [v == (double)v] is false for the patterns that are not a number. *)
Definition is_nan (bits : Z) : bool :=
  (Z.land (Z.shiftr bits 52) 0x7ff =? 0x7ff) && negb (bits mod 2 ^ 52 =? 0).

Section unpack.
Context {U : Type} (unpack : U → cpitem → U * cpitem) (ck : chunks) (alloc : Z → bool).
Context (gperf_rpcaccess : cstr → option Z).

(** One round of [for_cp_unpack_item] that packs every item; [w] is what the
    obstack has of the value. *)
Definition extra_step (s : U * cpitem * ofile * Z) : U * cpitem * ofile * Z + U * cpitem * ofile :=
  let '(u, it, w, depth) := s in
  if (0 <=? depth) && negb (bool_decide (type it = CPITEM_INVALID)) then
    let '(w, _) := chainpack_pack w it in
    let depth := item_depth it depth in
    if 0 <? depth then let '(u, it) := unpack u it in inl (u, it, w, depth)
    else inl (u, it, w, -1)
  else inr (u, it, w).

(** The key and the bytes of its value. *)
Definition unpack_extra (u : U) (it : cpitem) (o : obstack) : U * cpitem * obstack * (Z * list Z) :=
  let key := i32 (as_Int (as_ it)) in
  let it := set_buffer (Some (replicate (Z.to_nat BUFSIZ) 0)) BUFSIZ it in
  let '(u, it) := unpack u it in
  let '(u, it, w) :=
    match cloop extra_step 65 (u, it, Some (WFile [] None false), 0) with
    | inr r => r
    | inl (u, it, w, _) => (u, it, w)
    end in
  let data := match w with Some f => wf_out f | None => [] end in
  (u, set_bufsiz 0 it, obstack_alloc ck (Z.of_nat (length data)) o, (key, data)).

(** [brokerId], [shvUser] and the limit that is left. *)
Definition compat_key (key : cstr) (u : U) (it : cpitem) (s : option cstr * option cstr * Z) :
    U * cpitem * (option cstr * option cstr * Z + refusal) :=
  let '(broker, user, limit) := s in
  let extra (other : option cstr) := match other with Some _ => 1 | None => 0 end in
  if bool_decide (key = str "brokerId") then
    let '(u, it, d) := cp_unpack_strndup unpack alloc (u64 limit) u it in
    match dup_cstr d with
    | Some b => (u, it, inl (Some b, user, i64 (limit - (strlen b + extra user))))
    | None => (u, it, inr Crash)
    end
  else if bool_decide (key = str "shvUser") then
    let '(u, it, d) := cp_unpack_strndup unpack alloc (u64 limit) u it in
    match dup_cstr d with
    | Some v => (u, it, inl (broker, Some v, i64 (limit - (strlen v + extra broker))))
    | None => (u, it, inr Crash)
    end
  else (u, it, inl s).

Definition unpack_user_id_compat (limit : Z) (u : U) (it : cpitem) (o : obstack) :
    U * cpitem * (cstr * obstack + refusal) :=
  let '(u, it, r) := for_cp_unpack_map unpack 8 compat_key u it (None, None, limit) in
  match r with
  | inr e => (u, it, inr e)
  | inl (broker, user, _) =>
      let id :=
        default [] broker ++
        match user with Some v => (if broker then [COLON_] else []) ++ v | None => [] end in
      (u, it, inl (id, obstack_alloc ck (strlen id + 1) o))
  end.

(** [STRDUPO]: [None] is the failure. *)
Definition STRDUPO (limit : Z) (u : U) (it : cpitem) (o : obstack) :
    U * cpitem * obstack * option cstr :=
  let '(u, it, o, r) :=
    if 0 <=? limit then cp_unpack_strndupo unpack ck limit u it o
    else cp_unpack_strdupo unpack ck u it o in
  (u, it, o, until_nul <$> r).

Definition cid_item (u : U) (it : cpitem) (l : list Z) : U * cpitem * (list Z + refusal) :=
  if bool_decide (type it = CPITEM_INT) then (u, it, inl (l ++ [as_Int (as_ it)]))
  else (u, it, inr Failure).

Definition outcome : Type := U * cpitem * (head_state + refusal).

(** A string is put to its field or the head is refused. *)
Definition string_tag (limit : Z) (put : option cstr → rpcmsg_meta → rpcmsg_meta)
    (u : U) (it : cpitem) (s : head_state) : outcome :=
  let '(u, it, o, v) := STRDUPO limit u it (obs s) in
  match v with
  | Some _ => (u, it, inl (set_obs o (set_meta (put v) s)))
  | None => (u, it, inr Failure)
  end.

Definition tag_caller_ids (u : U) (it : cpitem) (s : head_state) : outcome :=
  let '(u, it) := unpack u it in
  match type it with
  | CPITEM_INT =>
      (u, it, inl (set_obs (obstack_alloc ck 8 (obs s)) (set_meta (with_cids [as_Int (as_ it)]) s)))
  | CPITEM_LIST =>
      let '(u, it, r) := for_cp_unpack_list unpack cid_item u it [] in
      match r with
      | inl l =>
          (u, it, inl (set_obs (obstack_alloc ck (8 * Z.of_nat (length l)) (obs s))
                         (set_meta (with_cids l) s)))
      | inr e => (u, it, inr e)
      end
  | _ => (u, it, inr Failure)
  end.

Definition tag_access (u : U) (it : cpitem) (s : head_state) : outcome :=
  let '(u, it, o, v) := STRDUPO 128 u it (obs s) in
  match v with
  | None => (u, it, inr Failure)
  | Some granted =>
      let '(rest, acc) := rpcaccess_granted_extract gperf_rpcaccess granted in
      let '(rest, o) := match rest with [] => (None, obstack_free ck o) | _ => (Some rest, o) end in
      let m := with_access_granted rest (meta s) in
      let m := if has_access s then m else with_access acc m in
      (u, it, inl (Head m (has_rid s) true o))
  end.

Definition tag_user_id (limits : rpcmsg_meta_limits) (u : U) (it : cpitem) (s : head_state) : outcome :=
  let '(u, it, ty) := cp_unpack_type unpack u it in
  match ty with
  | CPITEM_MAP =>
      let '(u, it, r) := unpack_user_id_compat (user_id_limit limits - 1) u it (obs s) in
      match r with
      | inl (id, o) => (u, it, inl (set_obs o (set_meta (with_user_id (Some id)) s)))
      | inr e => (u, it, inr e)
      end
  | CPITEM_STRING => string_tag (user_id_limit limits) with_user_id u it s
  | _ => (u, it, inr Failure)
  end.

(** A number of the given value, of which nothing is kept. *)
Definition tag_constant (v : Z) (u : U) (it : cpitem) (s : head_state) : outcome :=
  let '(u, it) := unpack u it in
  if bool_decide (type it = CPITEM_INT) && (as_Int (as_ it) =? v) then (u, it, inl s)
  else (u, it, inr Failure).

(** The [switch] over the tags. *)
Definition head_tag (limits : rpcmsg_meta_limits) (tag : Z) (u : U) (it : cpitem) (s : head_state) :
    outcome :=
  if tag =? RPCMSG_TAG_META_TYPE_ID then tag_constant 1 u it s
  else if tag =? RPCMSG_TAG_META_TYPE_NAMESPACE_ID then tag_constant 0 u it s
  else if tag =? RPCMSG_TAG_REQUEST_ID then
    let '(u, it, v) := cp_unpack_int unpack (Signed 64) u it in
    match v with
    | Some id => (u, it, inl (Head (with_request_id id (meta s)) true (has_access s) (obs s)))
    | None => (u, it, inr Failure)
    end
  else if tag =? RPCMSG_TAG_SHV_PATH then string_tag (path_limit limits) with_path u it s
  else if tag =? RPCMSG_TAG_METHOD then string_tag (name_limit limits) with_method u it s
  else if tag =? RPCMSG_TAG_CALLER_IDS then tag_caller_ids u it s
  else if tag =? RPCMSG_TAG_ACCESS then tag_access u it s
  else if tag =? RPCMSG_TAG_USER_ID then tag_user_id limits u it s
  else if tag =? RPCMSG_TAG_ACCESS_LEVEL then
    let '(u, it) := unpack u it in
    if bool_decide (type it = CPITEM_INT)
    then (u, it, inl (Head (with_access (u8 (as_Int (as_ it))) (meta s)) (has_rid s) true (obs s)))
    else (u, it, inr Failure)
  else if tag =? RPCMSG_TAG_SOURCE then string_tag (name_limit limits) with_source u it s
  else if tag =? RPCMSG_TAG_REPEAT then
    let '(u, it) := unpack u it in
    if bool_decide (type it = CPITEM_BOOL)
    then (u, it, inl (set_meta (with_repeat (as_Bool (as_ it))) s))
    else (u, it, inr Failure)
  else if extra_kept limits then
    let '(u, it, o, e) := unpack_extra u it (obs s) in
    (u, it, inl (set_obs o (set_meta (with_extra (extra (meta s) ++ [e])) s)))
  else let '(u, it) := cp_unpack_skip unpack u it in (u, it, inl s).

(** One round of the loop over the metadata. *)
Definition head_step (limits : rpcmsg_meta_limits) (st : U * cpitem * head_state) :
    U * cpitem * head_state + outcome :=
  let '(u, it, s) := st in
  let '(u, it) := unpack u it in
  match type it with
  | CPITEM_CONTAINER_END => inr (u, it, inl s)
  | CPITEM_STRING => let '(u, it) := cp_unpack_skip unpack u it in inl (u, it, s)
  | CPITEM_INT => round (head_tag limits (as_Int (as_ it)) u it s)
  | _ => inr (u, it, inr Failure)
  end.

(** [cp_unpack_double] *)
Definition cp_unpack_double (u : U) (it : cpitem) : U * cpitem * option Z :=
  let '(u, it) := unpack u it in
  (u, it, if bool_decide (type it = CPITEM_DOUBLE) && negb (is_nan (as_Double (as_ it)))
          then Some (as_Double (as_ it)) else None).

(** The value map ends here. *)
Definition value_end (u : U) (it : cpitem) (m : rpcmsg_meta) : U * cpitem * option rpcmsg_meta :=
  let '(u, it, ty) := cp_unpack_type unpack u it in
  (u, it, if bool_decide (ty = CPITEM_CONTAINER_END) then Some m else None).

(** The kind of the message from the metadata and the first key of the value map. *)
Definition head_kind (key : Z) (s : head_state) (u : U) (it : cpitem) :
    U * cpitem * option rpcmsg_meta :=
  let m := meta s in
  let defaults level m :=
    let m := match path m with None => with_path (Some []) m | Some _ => m end in
    if has_access s then m else with_access level m in
  if has_rid s then
    match method m with
    | Some _ =>
        if (key =? 0) || (key =? RPCMSG_KEY_PARAM) then
          (u, it, Some (defaults RPCACCESS_ADMIN (with_type RPCMSG_T_REQUEST m)))
        else if key =? RPCMSG_KEY_ABORT then
          let '(u, it, v) := cp_unpack_bool unpack u it in
          match v with
          | Some a =>
              value_end u it (defaults RPCACCESS_ADMIN (with_abort a (with_type RPCMSG_T_REQUEST_ABORT m)))
          | None => (u, it, None)
          end
        else (u, it, None)
    | None =>
        if (key =? 0) || (key =? RPCMSG_KEY_RESULT) then (u, it, Some (with_type RPCMSG_T_RESPONSE m))
        else if key =? RPCMSG_KEY_ERROR then (u, it, Some (with_type RPCMSG_T_ERROR m))
        else if key =? RPCMSG_KEY_DELAY then
          let '(u, it, v) := cp_unpack_double u it in
          match v with
          | Some d => value_end u it (with_progress d (with_type RPCMSG_T_RESPONSE_DELAY m))
          | None => (u, it, None)
          end
        else (u, it, None)
    end
  else if negb (key =? 0) && negb (key =? RPCMSG_KEY_PARAM) then (u, it, None)
  else
    let m := defaults RPCACCESS_READ (with_type RPCMSG_T_SIGNAL m) in
    let m := match method m with None => with_method (Some (str "chng")) m | Some _ => m end in
    let m := match source m with None => with_source (Some (str "get")) m | Some _ => m end in
    (u, it, Some m).

Inductive head_res := HeadOk (m : rpcmsg_meta) | HeadRefused | HeadCrash.

(** The result and the obstack; a refusal releases what was allocated. *)
Definition rpcmsg_head_unpack (limits : option rpcmsg_meta_limits) (u : U) (it : cpitem) (o : obstack) :
    U * cpitem * (head_res * obstack) :=
  let limits := default rpcmsg_meta_limits_default limits in
  let '(u, it, ty) := cp_unpack_type unpack u it in
  if negb (bool_decide (ty = CPITEM_META)) then (u, it, (HeadRefused, o))
  else
    let '(u, it, r) := run (head_step limits) (u, it, Head meta_init false false o) in
    match r with
    | inr Crash => (u, it, (HeadCrash, o))
    | inr Failure => (u, it, (HeadRefused, obstack_free ck o))
    | inl s =>
        let '(u, it, ty) := cp_unpack_type unpack u it in
        if negb (bool_decide (ty = CPITEM_IMAP)) then (u, it, (HeadRefused, obstack_free ck (obs s)))
        else
          let '(u, it, key) := cp_unpack_int unpack (Signed 32) u it in
          if bool_decide (key = None) && negb (bool_decide (type it = CPITEM_CONTAINER_END))
          then (u, it, (HeadRefused, obstack_free ck (obs s)))
          else
            let '(u, it, m) := head_kind (default 0 key) s u it in
            match m with
            | Some m => (u, it, (HeadOk m, obs s))
            | None => (u, it, (HeadRefused, obstack_free ck (obs s)))
            end
    end.
End unpack.

(** The head with whether a value follows. *)
Definition head_of {U} (unpack : U → cpitem → U * cpitem) ck alloc gperf_rpcaccess limits o
    (u : U) (it : cpitem) : U * cpitem * (head_res * bool) :=
  let '(u, it, (r, _)) := rpcmsg_head_unpack unpack ck alloc gperf_rpcaccess limits u it o in
  (u, it, (r, rpcmsg_has_value it)).

(** ** Lemmas *)

(** Strings short enough to be kept whole. *)
Definition within (limit : Z) (s : cstr) : Prop :=
  text s ∧ (limit < 0 ∨ Z.of_nat (length s) + 1 < limit) ∧ limit < 2 ^ 63.

#[export] Instance within_dec limit s : Decision (within limit s).
Proof. unfold within. apply _. Defined.

(** The fields of a head with their tags. *)
Inductive field :=
  | FType | FRequestId (v : Z) | FPath (s : cstr) | FMethod (s : cstr) | FCids (l : list Z)
  | FUserId (s : cstr) | FAccess (a : Z) | FSource (s : cstr) | FRepeat.

(** The identifiers as they are packed. *)
Definition cids_toks (l : list Z) : list tok :=
  match l with [c] => [TInt c] | _ => TList :: map TInt l ++ [TEnd] end.

Definition field_pair (f : field) : Z * list tok :=
  match f with
  | FType => (RPCMSG_TAG_META_TYPE_ID, [TInt 1])
  | FRequestId v => (RPCMSG_TAG_REQUEST_ID, [TInt v])
  | FPath s => (RPCMSG_TAG_SHV_PATH, [TString s])
  | FMethod s => (RPCMSG_TAG_METHOD, [TString s])
  | FCids l => (RPCMSG_TAG_CALLER_IDS, cids_toks l)
  | FUserId s => (RPCMSG_TAG_USER_ID, [TString s])
  | FAccess a => (RPCMSG_TAG_ACCESS_LEVEL, [TInt a])
  | FSource s => (RPCMSG_TAG_SOURCE, [TString s])
  | FRepeat => (RPCMSG_TAG_REPEAT, [TBool true])
  end.

(** What a field leaves in the metadata and in [has_rid] and [has_access]. *)
Definition field_put (x : rpcmsg_meta * bool * bool) (f : field) : rpcmsg_meta * bool * bool :=
  let '(m, rid, acc) := x in
  match f with
  | FType => (m, rid, acc)
  | FRequestId v => (with_request_id v m, true, acc)
  | FPath s => (with_path (Some s) m, rid, acc)
  | FMethod s => (with_method (Some s) m, rid, acc)
  | FCids l => (with_cids l m, rid, acc)
  | FUserId s => (with_user_id (Some s) m, rid, acc)
  | FAccess a => (with_access a m, rid, true)
  | FSource s => (with_source (Some s) m, rid, acc)
  | FRepeat => (with_repeat true m, rid, acc)
  end.

(** The fields that are carried as they are. *)
Definition field_ok (limits : rpcmsg_meta_limits) (f : field) : Prop :=
  match f with
  | FType | FRepeat => True
  | FRequestId v => packable_int v
  | FPath s => within (path_limit limits) s
  | FMethod s | FSource s => within (name_limit limits) s
  | FCids l => l ≠ [] ∧ Forall packable_int l ∧ Z.of_nat (length l) < 2 ^ 62
  | FUserId s => within (user_id_limit limits) s
  | FAccess a => urange 8 a
  end.

(** The metadata, the opening of the value map and what is next in it. *)
Definition head_toks (fs : list field) (next : tok) : list tok :=
  TMeta :: flat_map (λ p, TInt p.1 :: p.2) (map field_pair fs) ++ [TEnd; TIMap; next].

(** The key of the value that follows, or the end of the map. *)
Definition next_tok (key : Z) : tok := if key =? 0 then TEnd else TInt key.

Section spec.
Context {U : Type} (unpack : U → cpitem → U * cpitem) `{!UnpackSpec unpack}.
Context (ck : chunks) (ck_wf : chunks_wf ck) (gperf_rpcaccess : cstr → option Z).
Context (limits : rpcmsg_meta_limits).

Abbreviation tag := (head_tag unpack ck (λ _, true) gperf_rpcaccess limits).
Abbreviation step := (head_step unpack ck (λ _, true) gperf_rpcaccess limits).

(** What was read so far. *)
Definition head_is (m : rpcmsg_meta) (rid acc : bool) (s : head_state) : Prop :=
  meta s = m ∧ has_rid s = rid ∧ has_access s = acc ∧ obs_ok (obs s).

Lemma head_steps Q ps Q' :
  chain unpack tag Q ps Q' → Forall (λ p, srange 64 p.1) ps →
  ∀ u u' it s, Q s → idle_item it →
  yields_list unpack (flat_map (λ p, TInt p.1 :: p.2) ps ++ [TEnd]) u u' →
  ∃ it' s', steps step (length ps + 1) (u, it, s) (inr (u', it', inl s')) ∧ idle_item it' ∧ Q' s'.
Proof.
  induction 1 as [Q Q' HQ'|Q Q1 Q2 k v ps Hb Hc IH]; intros Hk u u' it s HQ Hi Hy.
  - destruct Hy as (u1 & Hy & ->).
    destruct (unpack_idle unpack TEnd u u1 it Hy eq_refl Hi) as (it' & Hu & [Ht Ha] & Hi').
    exists it', s. split; [|by auto]. apply steps_stop. unfold head_step. by rewrite Hu, Ht.
  - apply Forall_cons in Hk as [Hk Hps]. simpl in Hk, Hy. destruct Hy as (u1 & Hy1 & Hy).
    rewrite <-app_assoc in Hy. apply yields_list_app in Hy as (u2 & Hv & Hy).
    destruct (unpack_idle unpack (TInt k) u u1 it Hy1 eq_refl Hi) as (it1 & Hu & [Ht Ha] & Hi1).
    destruct (Hb s HQ u1 u2 it1 Hv Hi1) as (it2 & ? & Hbody & Hi2 & s1 & -> & HQ1).
    destruct (IH Hps u2 u' it2 s1 HQ1 Hi2 Hy) as (it' & s' & Hs & ?).
    exists it', s'. split; [|done]. simpl. eapply steps_next; [|done].
    unfold head_step. rewrite Hu, Ht. cbn [tok_type]. rewrite Ha. cbn [as_Int]. by rewrite Hbody.
Qed.

Lemma strdupo_within l u it u' o limit :
  data_next unpack false l u it u' → obs_ok o → within limit l →
  ∃ it' o', STRDUPO unpack ck limit u it o = (u', it', o', Some l) ∧ idle_item it' ∧ obs_ok o'.
Proof.
  intros Hd Ho ([Hw Hl] & Hlim & Hmax).
  assert (∃ it' o', (if 0 <=? limit then cp_unpack_strndupo unpack ck limit u it o
    else cp_unpack_strdupo unpack ck u it o) = (u', it', o', Some (l ++ [0])) ∧
    idle_item it' ∧ obs_ok o') as (it' & o' & Hs & ?).
  { destruct (Z.leb_spec 0 limit).
    - apply (strndupo_next unpack); [done..|lia|done].
    - by apply (strdupo_next unpack). }
  exists it', o'. split; [|done]. unfold STRDUPO. rewrite Hs. cbn [fmap option_fmap option_map].
  by rewrite (proj1 (until_nul_wf l [] Hw)).
Qed.

(** *** The tags *)

(** From a state to the one after the tag. *)
Ltac head_tag_intro :=
  let s := fresh "s" in
  intros s (Hm & Hrid & Hacc & Ho) u u' it Hy Hi; destruct s as [m0 r0 a0 o]; simpl in *; subst m0 r0 a0.

Lemma step_constant k v m rid acc :
  (∀ u it s, tag k u it s = tag_constant unpack v u it s) →
  steps_to unpack (tag k) [TInt v] (head_is m rid acc) (head_is m rid acc).
Proof.
  intros Hk. head_tag_intro. destruct Hy as (u1 & Hy & ->).
  destruct (unpack_idle unpack (TInt v) u u1 it Hy eq_refl Hi) as (it' & Hu & [Ht Ha] & Hi').
  exists it', (inl (Head m rid acc o)). split; [|split; [done|by eexists]].
  rewrite Hk. unfold tag_constant. rewrite Hu, Ht, Ha. cbn [tok_type as_Int].
  by rewrite bool_decide_true, Z.eqb_refl by done.
Qed.

Lemma step_request_id v m rid acc :
  srange 64 v →
  steps_to unpack (tag RPCMSG_TAG_REQUEST_ID) [TInt v] (head_is m rid acc)
    (head_is (with_request_id v m) true acc).
Proof.
  intros Hv. head_tag_intro.
  destruct (reads_int unpack 64 v ltac:(lia) Hv Hv u u' it Hy Hi) as (it' & r & Hu & Hi' & ->).
  exists it', (inl (Head (with_request_id v m) true acc o)). split; [|split; [done|by eexists]].
  unfold head_tag. eval_keys. by rewrite Hu.
Qed.

Lemma step_string k limit l put m rid acc :
  (∀ u it s, tag k u it s = string_tag unpack ck limit put u it s) → within limit l →
  steps_to unpack (tag k) [TString l] (head_is m rid acc) (head_is (put (Some l) m) rid acc).
Proof.
  intros Hk Hl. head_tag_intro. destruct Hy as (u1 & Hy & ->).
  destruct (strdupo_within l u it u1 o limit) as (it' & o' & Hs & Hi' & Ho');
    [by apply data_next_string|done|done|].
  exists it', (inl (Head (put (Some l) m) rid acc o')). split; [|split; [done|by eexists]].
  rewrite Hk. unfold string_tag. cbn [obs]. by rewrite Hs.
Qed.

Lemma step_user_id l m rid acc :
  within (user_id_limit limits) l →
  steps_to unpack (tag RPCMSG_TAG_USER_ID) [TString l] (head_is m rid acc)
    (head_is (with_user_id (Some l) m) rid acc).
Proof.
  intros Hl. head_tag_intro. destruct Hy as (u1 & Hy & ->).
  destruct (unpack_head unpack false l u u1 it Hy Hi) as (u2 & it2 & Hu & Ht & Hp & _).
  destruct (strdupo_within l u2 it2 u1 o (user_id_limit limits)) as (it' & o' & Hs & Hi' & Ho');
    [by right|done|done|].
  exists it', (inl (Head (with_user_id (Some l) m) rid acc o')). split; [|split; [done|by eexists]].
  unfold head_tag. eval_keys. unfold tag_user_id, cp_unpack_type. rewrite Hu, Ht. cbn [data_type].
  unfold string_tag. cbn [obs]. by rewrite Hs.
Qed.

Lemma step_access_level a m rid acc :
  urange 8 a →
  steps_to unpack (tag RPCMSG_TAG_ACCESS_LEVEL) [TInt a] (head_is m rid acc)
    (head_is (with_access a m) rid true).
Proof.
  intros Hv. head_tag_intro. destruct Hy as (u1 & Hy & ->).
  destruct (unpack_idle unpack (TInt a) u u1 it Hy eq_refl Hi) as (it' & Hu & [Ht Ha] & Hi').
  exists it', (inl (Head (with_access a m) rid true o)). split; [|split; [done|by eexists]].
  unfold head_tag. eval_keys. rewrite Hu, Ht, Ha. cbn [tok_type as_Int].
  rewrite bool_decide_true, uwrap_small by done. done.
Qed.

Lemma step_repeat b m rid acc :
  steps_to unpack (tag RPCMSG_TAG_REPEAT) [TBool b] (head_is m rid acc)
    (head_is (with_repeat b m) rid acc).
Proof.
  head_tag_intro. destruct Hy as (u1 & Hy & ->).
  destruct (unpack_idle unpack (TBool b) u u1 it Hy eq_refl Hi) as (it' & Hu & [Ht (hi & Ha)] & Hi').
  exists it', (inl (Head (with_repeat b m) rid acc o)). split; [|split; [done|by eexists]].
  unfold head_tag. eval_keys. rewrite Hu, Ht, Ha. cbn [tok_type as_Bool].
  by rewrite bool_decide_true by done.
Qed.

Lemma foldl_ids l acc :
  foldl (λ s t, s ++ [match t with TInt v => v | _ => 0 end]) acc (map TInt l) = acc ++ l.
Proof.
  revert acc. induction l as [|c l IH]; intros acc; simpl; [by rewrite app_nil_r|].
  by rewrite IH, <-app_assoc.
Qed.

Lemma step_cids l m rid acc :
  l ≠ [] → Z.of_nat (length l) < 2 ^ 62 →
  steps_to unpack (tag RPCMSG_TAG_CALLER_IDS) (cids_toks l) (head_is m rid acc)
    (head_is (with_cids l m) rid acc).
Proof.
  intros Hne Hlen. head_tag_intro.
  unfold head_tag. eval_keys. unfold tag_caller_ids.
  destruct l as [|c [|c' l]]; [done| |].
  - destruct Hy as (u1 & Hy & ->).
    destruct (unpack_idle unpack (TInt c) u u1 it Hy eq_refl Hi) as (it' & Hu & [Ht Ha] & Hi').
    eexists it', _. rewrite Hu, Ht, Ha. cbn [tok_type as_Int]. split; [done|]. split; [done|].
    eexists. split; [done|]. split_and!; [done..|]. split; [done|apply ck_wf].
  - destruct Hy as (u1 & Hy1 & Hy). set (ids := c :: c' :: l) in *.
    destruct (unpack_idle unpack TList u u1 it Hy1 eq_refl Hi) as (it1 & Hu & [Ht _] & Hi1).
    destruct (reads_list (R := refusal) unpack (cid_item (U := U)) (λ t l, l ++ [match t with TInt v => v | _ => 0 end])
      (map TInt ids)) with (s := @nil Z) (u := u1) (u' := u') (it := it1)
      as (it' & r & Hr & Hi' & ->); [| |by rewrite length_map; lia|done|done|].
    + intros t u2 it2 s (v & -> & _)%list_elem_of_fmap [Ht2 Ha2] Hi2. exists it2.
      unfold cid_item. by rewrite Ht2, Ha2.
    + by apply Forall_fmap, Forall_true.
    + eexists it', _. rewrite Hu, Ht. cbn [tok_type]. rewrite Hr. split; [done|]. split; [done|].
      eexists. split; [done|]. cbn [set_obs set_meta meta has_rid has_access obs].
      rewrite foldl_ids. split_and!; [done..|]. split; [done|apply ck_wf].
Qed.

(** *** The head *)

Lemma fields_chain fs m rid acc :
  Forall (field_ok limits) fs →
  chain unpack tag (head_is m rid acc) (map field_pair fs)
    (let '(m, rid, acc) := foldl field_put (m, rid, acc) fs in head_is m rid acc).
Proof.
  intros Hfs. revert m rid acc. induction Hfs as [|f fs Hf Hfs IH]; intros m rid acc; [by constructor|].
  cbn [map foldl]. destruct (field_pair f) as [k v] eqn:Ep.
  destruct (field_put (m, rid, acc) f) as [[m1 rid1] acc1] eqn:Ef.
  econstructor; [|apply IH]. destruct f; simplify_eq/=.
  - by apply step_constant.
  - apply step_request_id, Hf.
  - by apply (step_string _ (path_limit limits) _ with_path).
  - by apply (step_string _ (name_limit limits) _ with_method).
  - destruct Hf as (? & _ & ?). by apply step_cids.
  - by apply step_user_id.
  - by apply step_access_level.
  - by apply (step_string _ (name_limit limits) _ with_source).
  - by apply step_repeat.
Qed.

Lemma field_keys fs : Forall (λ p, srange 64 p.1) (map field_pair fs).
Proof. apply Forall_fmap, Forall_true. by intros []. Qed.
End spec.

(** The same with the obstack, which can be used further. *)
Definition head_obs {U} (unpack : U → cpitem → U * cpitem) ck gperf_rpcaccess limits o
    (u : U) (it : cpitem) : U * cpitem * (head_res * bool * obstack) :=
  let '(u, it, (r, o)) := rpcmsg_head_unpack unpack ck (λ _, true) gperf_rpcaccess limits u it o in
  (u, it, (r, rpcmsg_has_value it, o)).

Lemma reads_head_obs {U} (unpack : U → cpitem → U * cpitem) `{!UnpackSpec unpack} ck gperf_rpcaccess
    lim o fs key m rid acc m' :
  chunks_wf ck → obs_ok o → Forall (field_ok (default rpcmsg_meta_limits_default lim)) fs →
  Z.of_nat (length fs) < 2 ^ 32 → srange 32 key →
  foldl field_put (meta_init, false, false) fs = (m, rid, acc) →
  (∀ o u it, head_kind unpack key (Head m rid acc o) u it = (u, it, Some m')) →
  reads unpack (head_obs unpack ck gperf_rpcaccess lim o) (head_toks fs (next_tok key))
    (λ r, r.1 = (HeadOk m', negb (key =? 0)) ∧ obs_ok r.2).
Proof.
  intros Hck Ho Hfs Hlen Hkey Hput Hkind u u' it (u1 & Hy1 & Hy) Hi.
  destruct (reads_type unpack TMeta eq_refl u u1 it) as (it1 & ? & Hu1 & Hi1 & ->); [by exists u1|done|].
  change [TEnd; TIMap; next_tok key] with ([TEnd] ++ [TIMap] ++ [next_tok key]) in Hy.
  rewrite app_assoc in Hy. apply yields_list_app in Hy as (u2 & Hy2 & Hy).
  apply yields_list_app in Hy as (u3 & Hy3 & Hy4).
  pose proof (fields_chain unpack ck Hck gperf_rpcaccess _ fs meta_init false false Hfs) as Hc.
  rewrite Hput in Hc.
  destruct (head_steps unpack ck gperf_rpcaccess _ _ _ _ Hc (field_keys fs) u1 u2 it1
    (Head meta_init false false o)) as (it2 & s & Hs & Hi2 & HQ); [done..|].
  destruct (reads_type unpack TIMap eq_refl u2 u3 it2 Hy3 Hi2) as (it3 & ? & Hu3 & Hi3 & ->).
  assert (∃ it4, cp_unpack_int unpack (Signed 32) u3 it3 =
    (u', it4, if key =? 0 then None else Some key) ∧ idle_item it4 ∧
    bool_decide (type it4 = CPITEM_CONTAINER_END) = (key =? 0)) as (it4 & Hu4 & Hi4 & He).
  { unfold next_tok in Hy4. destruct Hy4 as (u4 & Hy4 & ->). destruct (Z.eqb_spec key 0).
    - destruct (unpack_idle unpack TEnd u3 u4 it3 Hy4 eq_refl Hi3) as (it4 & Hu & [Ht _] & Hi4).
      exists it4. unfold cp_unpack_int, cpitem_extract_int. by rewrite Hu, Ht.
    - destruct (unpack_idle unpack (TInt key) u3 u4 it3 Hy4 eq_refl Hi3) as (it4 & Hu & [Ht Ha] & Hi4).
      destruct (fits_signed 32 key) as [Hf Hcv]; [lia|done|].
      exists it4. unfold cp_unpack_int, cpitem_extract_int. rewrite Hu, Ht, Ha. cbn [as_Int tok_type].
      by rewrite bool_decide_true, Hf, Hcv by done. }
  destruct s as [m0 r0 a0 o0]. destruct HQ as (Em & Er & Ea & Ho'). simpl in Em, Er, Ea. subst m0 r0 a0.
  exists it4, (HeadOk m', negb (key =? 0), o0). split; [|done].
  unfold head_obs, rpcmsg_head_unpack. rewrite Hu1. cbn [tok_type].
  rewrite bool_decide_true by done. cbn [negb]. rewrite (run_steps _ _ _ _ Hs) by (rewrite length_map; lia).
  rewrite Hu3. cbn [tok_type]. rewrite bool_decide_true by done. cbn [negb]. rewrite Hu4.
  rewrite He.
  unfold rpcmsg_has_value. destruct (Z.eqb_spec key 0) as [->|Hk]; cbn [default from_option id negb andb].
  - rewrite bool_decide_true by done. cbn [andb]. rewrite Hkind. by rewrite He.
  - rewrite bool_decide_false by done. cbn [andb]. rewrite Hkind. by rewrite He.
Qed.

Lemma reads_head {U} (unpack : U → cpitem → U * cpitem) `{!UnpackSpec unpack} ck gperf_rpcaccess
    lim o fs key m rid acc m' :
  chunks_wf ck → obs_ok o → Forall (field_ok (default rpcmsg_meta_limits_default lim)) fs →
  Z.of_nat (length fs) < 2 ^ 32 → srange 32 key →
  foldl field_put (meta_init, false, false) fs = (m, rid, acc) →
  (∀ o u it, head_kind unpack key (Head m rid acc o) u it = (u, it, Some m')) →
  reads unpack (head_of unpack ck (λ _, true) gperf_rpcaccess lim o) (head_toks fs (next_tok key))
    (λ r, r = (HeadOk m', negb (key =? 0))).
Proof.
  intros Hck Ho Hfs Hlen Hkey Hput Hkind u u' it Hy Hi.
  destruct (reads_head_obs unpack ck gperf_rpcaccess lim o fs key m rid acc m' Hck Ho Hfs Hlen Hkey Hput Hkind
    u u' it Hy Hi) as (it' & [r o'] & E & Hi' & [Er _]). exists it', r. split; [|done].
  unfold head_obs in E. unfold head_of. destruct (rpcmsg_head_unpack _ _ _ _ _ _ _ _) as [[u1 it1] [r1 o1]].
  by simplify_eq.
Qed.

(** *** What the packers write *)

Definition opt_field {A} (x : option A) (f : A → field) : list field :=
  match x with Some a => [f a] | None => [] end.

Definition if_field (c : bool) (f : field) : list field := if c then [f] else [].

Definition request_fields (path : option cstr) (method : cstr) (uid : option cstr) (rid : Z) :
    list field :=
  [FType; FRequestId rid; FPath (default [] path); FMethod method] ++ opt_field uid FUserId.

Definition signal_fields (path : option cstr) (source signal : cstr) (uid : option cstr) (access : Z)
    (repeat : bool) : list field :=
  [FType; FPath (default [] path); FMethod signal] ++
  if_field (negb (strcmp source (str "get") =? 0)) (FSource source) ++ opt_field uid FUserId ++
  if_field (negb (access =? RPCACCESS_READ)) (FAccess access) ++ if_field repeat FRepeat.

Definition cids_fields (l : list Z) : list field := match l with [] => [] | _ => [FCids l] end.

Definition response_fields (rid : Z) (cids : list Z) : list field :=
  [FType; FRequestId rid] ++ cids_fields cids.

Lemma field_ok_wf limits f : field_ok limits f → Forall tok_wf (field_pair f).2.
Proof.
  assert (∀ l n, within n l → tok_wf (TString l)) as Hs by (intros l n [??]; by apply text_bytes).
  destruct f as [|v|s|s|l|s|a|s|]; simpl; intros Hf; try (by constructor; eauto).
  - destruct Hf as (_ & Hf & _). assert (Forall tok_wf (map TInt l)) by (by apply Forall_fmap).
    destruct l as [|c [|c' l]]; simpl; [by repeat constructor|done|].
    apply Forall_cons. split; [done|]. apply (Forall_app_2 _ (map TInt (c :: c' :: l))); [done|by constructor].
  - apply Forall_singleton, packable_small. unfold urange in *. lia.
Qed.

Lemma head_toks_wf limits fs key :
  Forall (field_ok limits) fs → srange 32 key → Forall tok_wf (head_toks fs (next_tok key)).
Proof.
  intros Hfs Hk. apply packable_int_32 in Hk. unfold head_toks.
  apply Forall_cons_2; [done|]. apply Forall_app_2.
  - induction Hfs as [|f fs Hf Hfs IH]; simpl; [constructor|]. apply Forall_cons.
    split; [destruct f; apply packable_small; done|]. apply Forall_app. split; [|done].
    by eapply field_ok_wf.
  - unfold next_tok. destruct (key =? 0); toks_wf.
Qed.

Section outputs.
Context {P : Type} (pack : P → cpitem → P * bool) `{!PackSpec pack}.

(** The value key or the end of the map. *)
Definition pack_next (key : Z) : P → P * bool :=
  if key =? 0 then cp_pack_container_end pack else cp_pack_int pack key.

Lemma outputs_next key : srange 32 key → outputs pack (pack_next key) [next_tok key].
Proof. intros Hk. unfold next_tok, pack_next. destruct (key =? 0); eauto with shv. Qed.

Lemma outputs_cids l :
  Forall packable_int l →
  outputs pack (pack_cids pack l)
    (flat_map (λ p, TInt p.1 :: p.2) (map field_pair (cids_fields l))).
Proof.
  intros Hl. destruct l as [|c [|c' l]]; [exact (outputs_nop pack)| |].
  - apply Forall_inv in Hl. unfold pack_cids.
    eapply outputs_eq; [eapply outputs_then; [packs|by apply outputs_int]|done].
  - unfold pack_cids. eapply outputs_eq.
    + eapply outputs_then; [packs|]. eapply outputs_then; [packs|].
      eapply outputs_then; [|packs]. apply (outputs_for_each _ _ (λ c, [TInt c])).
      intros x Hx. rewrite Forall_forall in Hl. apply outputs_int. by apply Hl.
    + assert (∀ l, flat_map (λ c, [TInt c]) l = map TInt l) as -> by (intros k; by induction k; simpl; f_equal).
      simpl. by rewrite app_nil_r.
Qed.

Lemma outputs_opt tag s :
  srange 32 tag → text (default [] s) →
  outputs pack (tag_opt pack tag s) (match s with Some s => [TInt tag; TString s] | None => [] end).
Proof.
  intros Ht Hs. destruct s as [s|]; [|exact (outputs_nop pack)].
  apply (outputs_then _ _ _ [_]); [by apply outputs_key|by apply outputs_str].
Qed.

Lemma outputs_request path method uid rid key :
  text (default [] path) → text method → text (default [] uid) → packable_int rid → srange 32 key →
  outputs pack (_rpcmsg_pack_request pack path method uid rid >>> pack_next key)
    (head_toks (request_fields path method uid rid) (next_tok key)).
Proof.
  intros Hp Hm Hu Hr Hk%outputs_next. unfold _rpcmsg_pack_request, meta_begin, tag_int, tag_str.
  eapply outputs_eq.
  - eapply outputs_then; [|exact Hk]. do 4 (eapply outputs_then; [packs|]).
    eapply outputs_then; [by apply outputs_opt|]. packs.
  - unfold request_fields. destruct uid; done.
Qed.

Lemma outputs_signal path source signal uid access repeat key :
  text (default [] path) → text source → text signal → text (default [] uid) → urange 8 access →
  srange 32 key →
  outputs pack (_rpcmsg_pack_signal pack path source signal uid access repeat >>> pack_next key)
    (head_toks (signal_fields path source signal uid access repeat) (next_tok key)).
Proof.
  intros Hp Hso Hsi Hu Ha Hk%outputs_next. unfold _rpcmsg_pack_signal, meta_begin, tag_int, tag_str.
  assert (packable_int access) by (apply packable_small; unfold urange in *; lia).
  eapply outputs_eq.
  - eapply outputs_then; [|exact Hk]. do 3 (eapply outputs_then; [packs|]). eapply outputs_if; [packs|].
    eapply outputs_then; [packs|]. eapply outputs_then; [by apply outputs_opt|]. packs.
  - unfold signal_fields. destruct uid, (_ =? 0), (_ =? _), repeat; done.
Qed.

Lemma outputs_response m key :
  packable_int (request_id m) → Forall packable_int (cids m) → srange 32 key →
  outputs pack (_pack_response pack m >>> pack_next key)
    (head_toks (response_fields (request_id m) (cids m)) (next_tok key)).
Proof.
  intros Hr Hc Hk%outputs_next. unfold _pack_response, meta_begin, tag_int. eapply outputs_eq.
  - eapply outputs_then; [|exact Hk]. do 2 (eapply outputs_then; [packs|]).
    eapply outputs_then; [by apply outputs_cids|]. packs.
  - unfold response_fields, head_toks. rewrite map_app, flat_map_app. by list_simplifier.
Qed.

(** The fields [_rpcmsg_pack_meta] writes for the kinds of messages it knows. *)
Definition meta_fields (m : rpcmsg_meta) : list field :=
  let path := if_field (negb (bool_decide (default [] (path m) = []))) (FPath (default [] (path m))) in
  match mtype m with
  | RPCMSG_T_REQUEST =>
      [FType; FRequestId (request_id m)] ++ path ++ [FMethod (default [] (method m))] ++
      cids_fields (cids m) ++ opt_field (user_id m) FUserId ++ [FAccess (maccess m)]
  | RPCMSG_T_SIGNAL =>
      [FType] ++ path ++ [FMethod (default [] (method m))] ++ opt_field (user_id m) FUserId ++
      [FAccess (maccess m); FSource (default [] (source m))] ++ if_field (repeat m) FRepeat
  | _ => response_fields (request_id m) (cids m)
  end.

(** [if (meta->path && *meta->path != '\0')] *)
Lemma outputs_path p :
  text (default [] p) →
  outputs pack (if match p with Some (_ :: _) => true | _ => false end
                then cp_pack_int pack RPCMSG_TAG_SHV_PATH >>> cp_pack_str pack (Some (default [] p))
                else nop)
    (flat_map (λ p, TInt p.1 :: p.2)
       (map field_pair (if_field (negb (bool_decide (default [] p = []))) (FPath (default [] p))))).
Proof.
  intros Hp. destruct p as [[|x l]|]; [exact (outputs_nop pack)| |exact (outputs_nop pack)].
  eapply outputs_eq; [packs|done].
Qed.

Ltac pack_parts :=
  lazymatch goal with
  | |- outputs _ (_ >>> _) _ => eapply outputs_then; [pack_parts|pack_parts]
  | |- outputs _ (pack_cids _ _) _ => by apply outputs_cids
  | |- outputs _ (tag_opt _ _ _) _ => by apply outputs_opt
  | |- outputs _ (pack_next _) _ => eassumption
  | |- outputs _ (if match _ with Some _ => _ | None => _ end then _ else _) _ => by apply outputs_path
  | |- outputs _ (if ?c then _ else nop) _ =>
      eapply (outputs_when pack c (cp_pack_int pack RPCMSG_TAG_REPEAT >>> cp_pack_bool pack true)); intros _; packs
  | |- _ => packs
  end.

Lemma outputs_meta m key :
  mtype m ∈ [RPCMSG_T_REQUEST; RPCMSG_T_SIGNAL; RPCMSG_T_RESPONSE; RPCMSG_T_ERROR] →
  packable_int (request_id m) → Forall packable_int (cids m) → text (default [] (path m)) →
  text (default [] (method m)) → text (default [] (user_id m)) → urange 8 (maccess m) →
  (is_type m RPCMSG_T_REQUEST || is_type m RPCMSG_T_SIGNAL → default [] (method m) ≠ []) →
  (is_type m RPCMSG_T_SIGNAL → is_Some (source m) ∧ text (default [] (source m))) → srange 32 key →
  outputs pack (_rpcmsg_pack_meta pack m >>> pack_next key) (head_toks (meta_fields m) (next_tok key)).
Proof.
  intros Ht Hr Hc Hp Hm Hu Ha Hme Hso Hk%outputs_next.
  assert (packable_int (maccess m)) by (apply packable_small; unfold urange in *; lia).
  destruct m as [t rid acc gr p me so re ui ab pr ci ex].
  cbn [mtype request_id maccess path method source repeat user_id cids] in *.
  unfold _rpcmsg_pack_meta, meta_fields, meta_begin, tag_int, tag_str, is_type in *.
  cbn [mtype request_id maccess path method source repeat user_id cids] in *.
  unfold when. rewrite !elem_of_cons, elem_of_nil in Ht.
  destruct Ht as [->|[->|[->|[->|[]]]]]; simpl in Hme, Hso |- *.
  - assert (∃ x l, me = Some (x :: l)) as (x & l & ->)
      by (destruct me as [[|x l]|]; naive_solver). cbn [negb].
    eapply outputs_eq; [pack_parts|]. unfold head_toks.
    repeat (progress (cbn [map flat_map]; rewrite ?map_app, ?flat_map_app)).
    destruct ui; by list_simplifier.
  - assert (∃ x l, me = Some (x :: l)) as (x & l & ->)
      by (destruct me as [[|x l]|]; naive_solver). cbn [negb].
    destruct Hso as [[sr ->] Hso]; [done|]. eapply outputs_eq; [pack_parts|]. unfold head_toks.
    repeat (progress (cbn [map flat_map]; rewrite ?map_app, ?flat_map_app)).
    destruct ui, re; by list_simplifier.
  - eapply outputs_eq; [pack_parts|]. unfold response_fields, head_toks.
    rewrite map_app, flat_map_app. by list_simplifier.
  - eapply outputs_eq; [pack_parts|]. unfold response_fields, head_toks.
    rewrite map_app, flat_map_app. by list_simplifier.
Qed.
End outputs.

(** *** Round trips *)

Lemma head_round_trips c ck gperf_rpcaccess lim o fs key m rid acc m' :
  outputs cp_pack_chainpack_func c (head_toks fs (next_tok key)) →
  chunks_wf ck → obs_ok o → Forall (field_ok (default rpcmsg_meta_limits_default lim)) fs →
  Z.of_nat (length fs) < 2 ^ 32 → srange 32 key →
  foldl field_put (meta_init, false, false) fs = (m, rid, acc) →
  (∀ o u it, head_kind cp_unpack_chainpack_func key (Head m rid acc o) u it = (u, it, Some m')) →
  round_trips c (head_of cp_unpack_chainpack_func ck (λ _, true) gperf_rpcaccess lim o)
    (λ r, r = (HeadOk m', negb (key =? 0))).
Proof.
  intros Hc ? ? Hfs ? ? ? ?. eapply round_trips_toks; [exact Hc|by eapply reads_head|by eapply head_toks_wf].
Qed.

Definition opt_within (limit : Z) (s : option cstr) : Prop :=
  match s with Some s => within limit s | None => True end.

Lemma opt_within_text limit s : opt_within limit s → text (default [] s).
Proof. by destruct s as [s|]; [intros []|split; [constructor|]]. Qed.

(** The metadata of a request as it is received. *)
Definition request_meta (path : option cstr) (method : cstr) (uid : option cstr) (rid : Z) : rpcmsg_meta :=
  Meta RPCMSG_T_REQUEST rid RPCACCESS_ADMIN None (Some (default [] path)) (Some method) None false uid
    false 0 [] [].

Definition signal_meta (path : option cstr) (source signal : cstr) (uid : option cstr) (access : Z)
    (repeat : bool) : rpcmsg_meta :=
  Meta RPCMSG_T_SIGNAL 0 access None (Some (default [] path)) (Some signal) (Some source) repeat uid
    false 0 [] [].

Definition response_meta (t : rpcmsg_type) (rid : Z) (cids : list Z) : rpcmsg_meta :=
  Meta t rid RPCACCESS_NONE None None None None false None false 0 cids [].

Ltac fields_ok :=
  repeat first [apply Forall_nil_2 | apply Forall_cons_2 | apply Forall_app_2]; try done.

Section roundtrip.
Context (ck : chunks) (ck_wf : chunks_wf ck) (gperf_rpcaccess : cstr → option Z).
Context (lim : option rpcmsg_meta_limits) (o : obstack) (o_ok : obs_ok o).

Abbreviation limits := (default rpcmsg_meta_limits_default lim).
Abbreviation received := (head_of cp_unpack_chainpack_func ck (λ _, true) gperf_rpcaccess lim o).

Lemma request_round_trips path method uid rid key :
  packable_int rid → within (path_limit limits) (default [] path) → within (name_limit limits) method →
  opt_within (user_id_limit limits) uid → key = 0 ∨ key = RPCMSG_KEY_PARAM →
  round_trips (_rpcmsg_pack_request cp_pack_chainpack_func path method uid rid >>>
               pack_next cp_pack_chainpack_func key)
    received (λ r, r = (HeadOk (request_meta path method uid rid), negb (key =? 0))).
Proof.
  intros Hr Hp Hm Hu Hk. assert (srange 32 key) by (by destruct Hk as [->| ->]).
  eapply (head_round_trips _ _ _ _ _ (request_fields path method uid rid)); [|done|done| | |done| |].
  - apply outputs_request; [apply Hp|apply Hm|by eapply opt_within_text|done|done].
  - unfold request_fields. destruct uid; fields_ok.
  - by destruct uid.
  - destruct uid; done.
  - intros. destruct Hk as [->| ->], uid; done.
Qed.

Lemma signal_round_trips path source signal uid access repeat key :
  within (path_limit limits) (default [] path) → within (name_limit limits) source →
  within (name_limit limits) signal → opt_within (user_id_limit limits) uid → urange 8 access →
  key = 0 ∨ key = RPCMSG_KEY_PARAM →
  round_trips (_rpcmsg_pack_signal cp_pack_chainpack_func path source signal uid access repeat >>>
               pack_next cp_pack_chainpack_func key)
    received (λ r, r = (HeadOk (signal_meta path source signal uid access repeat), negb (key =? 0))).
Proof.
  intros Hp Hso Hsi Hu Ha Hk. assert (srange 32 key) by (by destruct Hk as [->| ->]).
  assert (strcmp source (str "get") = 0 → source = str "get") as Hget
    by (apply strcmp_eq; [apply Hso|by_evaluation]).
  destruct (foldl field_put (meta_init, false, false)
    (signal_fields path source signal uid access repeat)) as [[m rid] acc] eqn:Ef.
  eapply (head_round_trips _ _ _ _ _ (signal_fields path source signal uid access repeat) key m rid acc);
    [|done|done| | |done|done|].
  - apply outputs_signal; [apply Hp|apply Hso|apply Hsi|by eapply opt_within_text|done|done].
  - unfold signal_fields. destruct (_ =? 0), uid, (_ =? _), repeat; fields_ok.
  - unfold signal_fields. by destruct (_ =? 0), uid, (_ =? _), repeat.
  - intros. unfold signal_fields in Ef.
    destruct Hk as [->| ->], (Z.eqb_spec (strcmp source (str "get")) 0) as [->%Hget|], uid,
      (Z.eqb_spec access RPCACCESS_READ) as [->|], repeat; simplify_eq/=; done.
Qed.

Lemma response_kind t rid cids key u it o' :
  (t, key) ∈ [(RPCMSG_T_RESPONSE, 0); (RPCMSG_T_RESPONSE, RPCMSG_KEY_RESULT);
              (RPCMSG_T_ERROR, RPCMSG_KEY_ERROR)] →
  head_kind cp_unpack_chainpack_func key
    (Head (foldl field_put (meta_init, false, false) (response_fields rid cids)).1.1 true false o') u it =
  (u, it, Some (response_meta t rid cids)).
Proof.
  rewrite !elem_of_cons, elem_of_nil. intros [|[|[|[]]]]; simplify_eq; by destruct cids.
Qed.

Definition cids_ok (l : list Z) : Prop := Forall packable_int l ∧ Z.of_nat (length l) < 2 ^ 62.

Lemma response_fields_ok rid cids :
  packable_int rid → cids_ok cids → Forall (field_ok limits) (response_fields rid cids).
Proof. intros Hr [??]. unfold response_fields. destruct cids; fields_ok. Qed.

Lemma response_round_trips c t rid cids key :
  outputs cp_pack_chainpack_func c (head_toks (response_fields rid cids) (next_tok key)) →
  packable_int rid → cids_ok cids →
  (t, key) ∈ [(RPCMSG_T_RESPONSE, 0); (RPCMSG_T_RESPONSE, RPCMSG_KEY_RESULT);
              (RPCMSG_T_ERROR, RPCMSG_KEY_ERROR)] →
  round_trips c received (λ r, r = (HeadOk (response_meta t rid cids), negb (key =? 0))).
Proof.
  intros Hc Hr Hci Hk. eapply (head_round_trips _ _ _ _ _ (response_fields rid cids) key
    (foldl field_put (meta_init, false, false) (response_fields rid cids)).1.1 true false); try done.
  - by apply response_fields_ok.
  - by destruct cids.
  - rewrite !elem_of_cons, elem_of_nil in Hk. by destruct Hk as [|[|[|[]]]]; simplify_eq.
  - by destruct cids.
  - intros. by apply response_kind.
Qed.
(** *** Messages that are passed on *)

(** The metadata that [rpcmsg_pack_meta] can carry. *)
Definition meta_ok (m : rpcmsg_meta) : Prop :=
  mtype m ∈ [RPCMSG_T_REQUEST; RPCMSG_T_SIGNAL; RPCMSG_T_RESPONSE; RPCMSG_T_ERROR] ∧
  packable_int (request_id m) ∧ cids_ok (cids m) ∧ urange 8 (maccess m) ∧
  opt_within (path_limit limits) (path m) ∧ opt_within (name_limit limits) (method m) ∧
  opt_within (name_limit limits) (source m) ∧ opt_within (user_id_limit limits) (user_id m) ∧
  (is_type m RPCMSG_T_REQUEST || is_type m RPCMSG_T_SIGNAL → default [] (method m) ≠ []) ∧
  (is_type m RPCMSG_T_SIGNAL → is_Some (source m)).

(** What of it arrives. *)
Definition forwarded (m : rpcmsg_meta) : rpcmsg_meta :=
  let p := Some (default [] (path m)) in
  match mtype m with
  | RPCMSG_T_REQUEST =>
      Meta RPCMSG_T_REQUEST (request_id m) (maccess m) None p (method m) None false (user_id m)
        false 0 (cids m) []
  | RPCMSG_T_SIGNAL =>
      Meta RPCMSG_T_SIGNAL 0 (maccess m) None p (method m) (source m) (repeat m) (user_id m)
        false 0 [] []
  | t => response_meta t (request_id m) (cids m)
  end.

Lemma meta_fields_ok m : meta_ok m → Forall (field_ok limits) (meta_fields m) ∧ (length (meta_fields m) < 10)%nat.
Proof.
  intros (Ht & Hr & Hc & Ha & Hp & Hm & Hs & Hu & Hm' & Hs').
  pose proof (response_fields_ok _ _ Hr Hc) as Hre. destruct Hc as [Hc Hcl].
  destruct m as [t rid acc gr p me so re ui ab pr ci ex].
  cbn [mtype request_id maccess path method source repeat user_id cids] in *.
  unfold meta_fields, is_type in *. cbn [mtype request_id maccess path method source repeat user_id cids] in *.
  rewrite !elem_of_cons, elem_of_nil in Ht. destruct Ht as [->|[->|[->|[->|[]]]]]; simpl in Hm', Hs'.
  - destruct me as [[|x l]|]; [naive_solver| |naive_solver].
    destruct p as [[|y p]|], ui, ci; (split; [fields_ok|simpl; lia]).
  - destruct me as [[|x l]|]; [naive_solver| |naive_solver]. destruct Hs' as [sr ->]; [done|].
    destruct p as [[|y p]|], ui, re; (split; [fields_ok|simpl; lia]).
  - split; [done|]. destruct ci; simpl; lia.
  - split; [done|]. destruct ci; simpl; lia.
Qed.

Definition key_of (m : rpcmsg_meta) (value : bool) : Z :=
  if value then
    match mtype m with
    | RPCMSG_T_RESPONSE => RPCMSG_KEY_RESULT
    | RPCMSG_T_ERROR => RPCMSG_KEY_ERROR
    | _ => RPCMSG_KEY_PARAM
    end
  else 0.

Lemma meta_round_trips m value :
  meta_ok m → value || negb (is_type m RPCMSG_T_ERROR) →
  round_trips (_rpcmsg_pack_meta cp_pack_chainpack_func m >>>
               pack_next cp_pack_chainpack_func (key_of m value))
    received (λ r, r = (HeadOk (forwarded m), value)).
Proof.
  intros Hok Hv. pose proof (meta_fields_ok m Hok) as [Hfs Hlen].
  destruct Hok as (Ht & Hr & Hc & Ha & Hp & Hm & Hs & Hu & Hm' & Hs').
  assert (srange 32 (key_of m value) ∧ negb (key_of m value =? 0) = value) as [Hk Ek]
    by (unfold key_of; destruct value, (mtype m); done).
  destruct (foldl field_put (meta_init, false, false) (meta_fields m)) as [[m0 rid0] acc0] eqn:Ef.
  assert (∀ o u it, head_kind cp_unpack_chainpack_func (key_of m value) (Head m0 rid0 acc0 o) u it =
    (u, it, Some (forwarded m))) as Hkind.
  { clear Hfs Hlen Ek Hk Hp Hu. intros o' u it.
    destruct m as [t rid acc gr p me so re ui ab pr ci ex].
    unfold meta_fields, is_type, key_of in *.
    cbn [mtype request_id maccess path method source repeat user_id cids] in *.
    rewrite !elem_of_cons, elem_of_nil in Ht. destruct Ht as [->|[->|[->|[->|[]]]]]; simpl in Hm', Hs', Hv.
    - destruct me as [[|x l]|]; [naive_solver| |naive_solver].
      destruct value, p as [[|y p]|], ui, ci; simplify_eq/=; done.
    - destruct me as [[|x l]|]; [naive_solver| |naive_solver]. destruct Hs' as [sr ->]; [done|].
      destruct value, p as [[|y p]|], ui, re; simplify_eq/=; done.
    - destruct value, ci; simplify_eq/=; done.
    - destruct value, ci; simplify_eq/=; done. }
  replace (HeadOk (forwarded m), value) with (HeadOk (forwarded m), negb (key_of m value =? 0))
    by (by rewrite Ek).
  eapply (head_round_trips _ _ _ _ _ (meta_fields m) (key_of m value)); try done; [|lia].
  apply outputs_meta; try done; try (by eapply opt_within_text); [apply Hc|].
  intros Hsig. split; [by apply Hs'|by eapply opt_within_text].
Qed.
End roundtrip.

(** ** Properties *)

(** C28: a request packed with or without a parameter is received as the same request:
    identifier, path (the empty one for [NULL]), method and user, the access level of
    an administrator since the sender gives none, and whether a parameter follows, with
    any limits on the metadata the strings are within. *)
Theorem rpcmsg_request_roundtrip path method uid rid ck gperf_rpcaccess lim o :
  let limits := default rpcmsg_meta_limits_default lim in
  let received := head_of cp_unpack_chainpack_func ck (λ _, true) gperf_rpcaccess lim o in
  let m := request_meta path method uid rid in
  chunks_wf ck → obs_ok o → packable_int rid → within (path_limit limits) (default [] path) →
  within (name_limit limits) method → opt_within (user_id_limit limits) uid →
  round_trips (rpcmsg_pack_request cp_pack_chainpack_func path method uid rid) received
    (λ r, r = (HeadOk m, true)) ∧
  round_trips (rpcmsg_pack_request_void cp_pack_chainpack_func path method uid rid) received
    (λ r, r = (HeadOk m, false)).
Proof.
  intros limits received m Hck Ho Hr Hp Hm Hu. split.
  - apply (request_round_trips ck Hck gperf_rpcaccess lim o Ho path method uid rid RPCMSG_KEY_PARAM); auto.
  - apply (request_round_trips ck Hck gperf_rpcaccess lim o Ho path method uid rid 0); auto.
Qed.

Lemma rpcmsg_request_roundtrip_witness :
  let received := head_of cp_unpack_chainpack_func (Chunks (λ _, 8) (λ _, 0)) (λ _, true)
    (assoc rpcaccess_table) None (Obstack [] 4) in
  let m := request_meta None (str "get") (Some (str "john")) 42 in
  round_trips (rpcmsg_pack_request cp_pack_chainpack_func None (str "get") (Some (str "john")) 42) received
    (λ r, r = (HeadOk m, true)) ∧
  round_trips (rpcmsg_pack_request_void cp_pack_chainpack_func None (str "get") (Some (str "john")) 42)
    received (λ r, r = (HeadOk m, false)).
Proof. apply rpcmsg_request_roundtrip; [done|done|..]; by_evaluation. Defined.

(** C31: a signal packed with or without a parameter is received as the same signal:
    path, source and name, user, access level and repetition, those that are left out
    because they are the default included. *)
Theorem rpcmsg_signal_roundtrip path source signal uid access repeat ck gperf_rpcaccess lim o :
  let limits := default rpcmsg_meta_limits_default lim in
  let received := head_of cp_unpack_chainpack_func ck (λ _, true) gperf_rpcaccess lim o in
  let m := signal_meta path source signal uid access repeat in
  chunks_wf ck → obs_ok o → within (path_limit limits) (default [] path) →
  within (name_limit limits) source → within (name_limit limits) signal →
  opt_within (user_id_limit limits) uid → urange 8 access →
  round_trips (rpcmsg_pack_signal cp_pack_chainpack_func path source signal uid access repeat) received
    (λ r, r = (HeadOk m, true)) ∧
  round_trips (rpcmsg_pack_signal_void cp_pack_chainpack_func path source signal uid access repeat) received
    (λ r, r = (HeadOk m, false)).
Proof.
  intros limits received m Hck Ho Hp Hso Hsi Hu Ha. split.
  - apply (signal_round_trips ck Hck gperf_rpcaccess lim o Ho path source signal uid access repeat
      RPCMSG_KEY_PARAM); auto.
  - apply (signal_round_trips ck Hck gperf_rpcaccess lim o Ho path source signal uid access repeat 0); auto.
Qed.

Lemma rpcmsg_signal_roundtrip_witness :
  let received := head_of cp_unpack_chainpack_func (Chunks (λ _, 8) (λ _, 0)) (λ _, true)
    (assoc rpcaccess_table) None (Obstack [] 4) in
  let m := signal_meta (Some (str "test/prop")) (str "get") (str "chng") None RPCACCESS_WRITE true in
  round_trips (rpcmsg_pack_signal cp_pack_chainpack_func (Some (str "test/prop")) (str "get")
    (str "chng") None RPCACCESS_WRITE true) received (λ r, r = (HeadOk m, true)) ∧
  round_trips (rpcmsg_pack_signal_void cp_pack_chainpack_func (Some (str "test/prop")) (str "get")
    (str "chng") None RPCACCESS_WRITE true) received (λ r, r = (HeadOk m, false)).
Proof. apply rpcmsg_signal_roundtrip; [done|done|..]; try done; by_evaluation. Defined.



(** An error as a caller reads it: the head, the error and the end of the message. *)
Definition error_of {U} (unpack : U → cpitem → U * cpitem) ck gperf_rpcaccess lim o (u : U) (it : cpitem) :=
  let '(u, it, h) := head_of unpack ck (λ _, true) gperf_rpcaccess lim o u it in
  let '(u, it, e) := rpcerror_unpack unpack (λ _, true) true u it in
  let '(u, it, ty) := cp_unpack_type unpack u it in
  (u, it, (h, e, ty)).

Lemma reads_error_of {U} (unpack : U → cpitem → U * cpitem) `{!UnpackSpec unpack} ck gperf_rpcaccess lim o
    ts h errnum errmsg :
  reads unpack (head_of unpack ck (λ _, true) gperf_rpcaccess lim o) ts (λ r, r = h) →
  urange 32 errnum → text (default [] errmsg) →
  reads unpack (error_of unpack ck gperf_rpcaccess lim o) (ts ++ error_toks errnum errmsg ++ [TEnd])
    (λ r, r = (h, (negb (errnum =? RPCERR_NO_ERROR), errnum, errmsg), CPITEM_CONTAINER_END)).
Proof.
  intros Hh He Hm u u' it (u1 & Hy1 & (u2 & Hy2 & Hy3)%yields_list_app)%yields_list_app Hi.
  destruct (Hh u u1 it Hy1 Hi) as (it1 & ? & Hu1 & Hi1 & ->).
  destruct (reads_error unpack errnum errmsg He Hm u1 u2 it1 Hy2 Hi1) as (it2 & ? & Hu2 & Hi2 & ->).
  destruct (reads_type unpack TEnd eq_refl u2 u' it2 Hy3 Hi2) as (it3 & ? & Hu3 & Hi3 & ->).
  exists it3. eexists. split; [|done]. unfold error_of. by rewrite Hu1, Hu2, Hu3.
Qed.

Lemma error_round_trips m errnum errmsg ck gperf_rpcaccess lim o :
  let fs := response_fields (request_id m) (cids m) in
  outputs cp_pack_chainpack_func (_pack_response cp_pack_chainpack_func m >>>
    cp_pack_int cp_pack_chainpack_func RPCMSG_KEY_ERROR) (head_toks fs (next_tok RPCMSG_KEY_ERROR)) →
  chunks_wf ck → obs_ok o → packable_int (request_id m) → cids_ok (cids m) →
  urange 32 errnum → text (default [] errmsg) →
  round_trips (rpcmsg_pack_error cp_pack_chainpack_func m errnum errmsg)
    (error_of cp_unpack_chainpack_func ck gperf_rpcaccess lim o)
    (λ r, r = ((HeadOk (response_meta RPCMSG_T_ERROR (request_id m) (cids m)), true),
               (negb (errnum =? RPCERR_NO_ERROR), errnum, errmsg), CPITEM_CONTAINER_END)).
Proof.
  intros fs Hout Hck Ho Hr Hc He Hm.
  apply (round_trips_toks _ _ (head_toks fs (next_tok RPCMSG_KEY_ERROR) ++ error_toks errnum errmsg ++ [TEnd])).
  - intros p p' (p1 & H1 & (p2 & H2 & H3)%emitted_list_app)%emitted_list_app.
    apply Hout in H1. unfold rpcmsg_pack_error, and_then in *.
    destruct (_pack_response cp_pack_chainpack_func m p) as [q ?]. rewrite H1.
    rewrite (outputs_error cp_pack_chainpack_func errnum errmsg He Hm _ _ H2).
    by apply (outputs_container_end cp_pack_chainpack_func).
  - apply reads_error_of; [|done|done].
    apply (reads_head cp_unpack_chainpack_func ck gperf_rpcaccess lim o fs RPCMSG_KEY_ERROR
      (foldl field_put (meta_init, false, false) fs).1.1 true false);
      [done|done|by apply response_fields_ok|by unfold fs; destruct (cids m)|done
      |by unfold fs; destruct (cids m)|].
    intros. apply response_kind. by_evaluation.
  - apply Forall_app_2; [by eapply head_toks_wf; [apply (response_fields_ok lim)|]|].
    apply Forall_app_2; [by apply error_toks_wf|toks_wf].
Qed.

(** C30: what answers a request is received as the answer to that request: a response
    with or without a result carries its identifier and callers, and an error does so
    with the code and the text of the error and nothing after them. *)
Theorem rpcmsg_response_roundtrip m errnum errmsg ck gperf_rpcaccess lim o :
  let received := head_of cp_unpack_chainpack_func ck (λ _, true) gperf_rpcaccess lim o in
  let head t := HeadOk (response_meta t (request_id m) (cids m)) in
  chunks_wf ck → obs_ok o → packable_int (request_id m) → cids_ok (cids m) →
  urange 32 errnum → text (default [] errmsg) →
  round_trips (rpcmsg_pack_response cp_pack_chainpack_func m) received
    (λ r, r = (head RPCMSG_T_RESPONSE, true)) ∧
  round_trips (rpcmsg_pack_response_void cp_pack_chainpack_func m) received
    (λ r, r = (head RPCMSG_T_RESPONSE, false)) ∧
  round_trips (rpcmsg_pack_error cp_pack_chainpack_func m errnum errmsg)
    (error_of cp_unpack_chainpack_func ck gperf_rpcaccess lim o)
    (λ r, r = ((head RPCMSG_T_ERROR, true), (negb (errnum =? RPCERR_NO_ERROR), errnum, errmsg),
               CPITEM_CONTAINER_END)).
Proof.
  intros received head Hck Ho Hr Hc He Hm.
  assert (∀ key, srange 32 key → outputs cp_pack_chainpack_func (_pack_response cp_pack_chainpack_func m >>>
    pack_next cp_pack_chainpack_func key) (head_toks (response_fields (request_id m) (cids m)) (next_tok key)))
    as Hout by (intros key ?; apply outputs_response; [done|apply Hc|done]).
  split_and!.
  - apply (response_round_trips ck Hck gperf_rpcaccess lim o Ho _ RPCMSG_T_RESPONSE _ _ RPCMSG_KEY_RESULT);
      [by apply Hout|done|done|by_evaluation].
  - apply (response_round_trips ck Hck gperf_rpcaccess lim o Ho _ RPCMSG_T_RESPONSE _ _ 0);
      [by apply Hout|done|done|by_evaluation].
  - apply error_round_trips; [by apply (Hout RPCMSG_KEY_ERROR)|done..].
Qed.

Lemma rpcmsg_response_roundtrip_witness :
  let m := Meta RPCMSG_T_REQUEST 7 RPCACCESS_READ None None (Some (str "ls")) None false
    None false 0 [3; 4] [] in
  let ck := Chunks (λ _, 8) (λ _, 0) in
  let head t := HeadOk (response_meta t 7 [3; 4]) in
  round_trips (rpcmsg_pack_error cp_pack_chainpack_func m RPCERR_METHOD_NOT_FOUND (Some (str "No such method")))
    (error_of cp_unpack_chainpack_func ck (assoc rpcaccess_table) None (Obstack [] 4))
    (λ r, r = ((head RPCMSG_T_ERROR, true), (true, RPCERR_METHOD_NOT_FOUND, Some (str "No such method")),
               CPITEM_CONTAINER_END)).
Proof.
  intros m ck head. apply (rpcmsg_response_roundtrip m RPCERR_METHOD_NOT_FOUND (Some (str "No such method"))
    ck (assoc rpcaccess_table) None (Obstack [] 4)); try done; try by_evaluation.
Defined.

(** ** Where the code and its description differ *)

(** The head of a message given as tokens and the bytes that are left. *)
Definition head_in (ts : list tok) (lim : option rpcmsg_meta_limits) : head_res * list Z :=
  let '(u, _, (r, _)) :=
    rpcmsg_head_unpack cp_unpack_chainpack_func (Chunks (λ _, 64) (λ _, 32)) (λ _, true)
      (assoc rpcaccess_table) lim (RFile (flat_map tok_bytes ts) false)
      (Item CPITEM_INVALID (AsError CPERR_NONE) None 0) (Obstack [] 32) in
  (r, rf_data u).

(** A path over the limit is not only cut: the rest of it is then read as the next
    tag, and the whole request is refused. *)
Example head_truncated_path :
  let ts := head_toks (request_fields (Some (str "test/path")) (str "get") None 42) TEnd in
  (head_in ts (Some (Limits 5 256 256 false))).1 = HeadRefused ∧
  (head_in ts (Some (Limits 16 256 256 false))).1 =
    HeadOk (request_meta (Some (str "test/path")) (str "get") None 42).
Proof. by vm_compute. Qed.

(** A broker identifier that is not a string ends in [strlen(NULL)]. *)
Example head_user_id_crash :
  (head_in [TMeta; TInt 1; TInt 1; TInt 8; TInt 3; TInt 16; TMap; TString (str "brokerId"); TInt 5; TEnd;
            TEnd; TIMap; TEnd] None).1 = HeadCrash.
Proof. by vm_compute. Qed.

(** The value of another key is read as a key, so such a user is refused. *)
Example head_user_id_other_key :
  (head_in [TMeta; TInt 1; TInt 1; TInt 8; TInt 3; TInt 10; TString (str "get"); TInt 16;
            TMap; TString (str "x"); TInt 5; TString (str "brokerId"); TString (str "b"); TEnd;
            TEnd; TIMap; TEnd] None).1 = HeadRefused.
Proof. by vm_compute. Qed.

(** A request to abort that is passed on arrives as a signal. *)
Example pack_meta_abort :
  let m := Meta RPCMSG_T_REQUEST_ABORT 42 63 None (Some (str "x")) (Some (str "get")) None false None true
    0 [3] [] in
  let bs := match (rpcmsg_pack_meta_void cp_pack_chainpack_func m (Some (WFile [] None false))).1 with
            | Some w => wf_out w | None => [] end in
  bs = flat_map tok_bytes (head_toks [FType] TEnd) ∧
  (head_in (head_toks [FType] TEnd) None).1 =
    HeadOk (signal_meta None (str "get") (str "chng") None RPCACCESS_READ false).
Proof. by vm_compute. Qed.

(** Metadata without a method are reported as packed. *)
Example pack_meta_no_method :
  let m := Meta RPCMSG_T_REQUEST 42 63 None None None None false None false 0 [] [] in
  (rpcmsg_pack_meta cp_pack_chainpack_func m (Some (WFile [] None false))) =
  (Some (WFile (flat_map tok_bytes [TMeta; TInt 1; TInt 1; TInt 8; TInt 42; TInt 1]) None false), true).
Proof. by vm_compute. Qed.
