(* ===== verification/RpcLogin.v ===== *)
(** * Login ([libshvrpc/rpclogin.c], [include/shv/rpclogin.h], [include/shv/sha1.h])

    Packing and unpacking of the login parameter and the check of the password.
    SHA-1 itself is not part of the library and is a parameter here. *)

From S2P Require Import Prelude Stdio Chainpack CpItem ChainpackPack ChainpackUnpack.
From S2P Require Import CpUnpack CpUnpackChainpack CpPack CpObstack CpLoops RpcError.

(** ** Definitions *)

Inductive rpclogin_type := RPC_LOGIN_PLAIN | RPC_LOGIN_SHA1.

#[export] Instance rpclogin_type_eq_dec : EqDecision rpclogin_type.
Proof. solve_decision. Defined.

Record rpclogin : Type := Login {
  username : option cstr;
  password : option cstr;
  login_type : rpclogin_type;
  idle_timeout : Z;
  device_id : option cstr;
  device_mountpoint : option cstr }.

Definition SHA1_SIZ : Z := 20.
Definition SHA1_HEX_SIZ : Z := SHA1_SIZ * 2.

(** [hex[x]] *)
Definition hex (x : Z) : Z := default 0 (str "0123456789abcdef" !! Z.to_nat x).

Definition type_eqb (a b : rpclogin_type) : bool :=
  match a, b with
  | RPC_LOGIN_PLAIN, RPC_LOGIN_PLAIN | RPC_LOGIN_SHA1, RPC_LOGIN_SHA1 => true
  | _, _ => false
  end.

Section login.
(** The digest of the bytes of all the updates. *)
Context (sha1 : list Z → list Z).

(** [sha1_hex_digest] after updates with these bytes. *)
Definition sha1_hex (l : list Z) : cstr :=
  flat_map (λ b, [hex (Z.land (Z.shiftr b 4) 0xf); hex (Z.land b 0xf)]) (sha1 l).

(** *** [rpclogin_pack] *)

Section pack.
Context {P : Type} (pack : P → cpitem → P * bool).

(** [cp_pack_str] of a constant and of a field that may be [NULL]. *)
Definition key_opt (key : cstr) (v : option cstr) : P → P * bool :=
  match v with Some v => cp_pack_str pack (Some key) >>> cp_pack_str pack (Some v) | None => nop end.

(** The [password] to send and how. *)
Definition pack_password (login : rpclogin) (nonce : cstr) (trusted : bool) : P → P * bool :=
  let password := default [] (password login) in
  let '(password, login_type) :=
    if type_eqb (login_type login) RPC_LOGIN_PLAIN && negb trusted
    then (sha1_hex password, RPC_LOGIN_SHA1) else (password, login_type login) in
  match login_type with
  | RPC_LOGIN_PLAIN => cp_pack_str pack (Some password)
  | RPC_LOGIN_SHA1 => cp_pack_string pack (sha1_hex (nonce ++ password))
  end >>>
  cp_pack_str pack (Some (str "type")) >>>
  cp_pack_str pack (Some (if type_eqb login_type RPC_LOGIN_PLAIN then str "PLAIN" else str "SHA1")).

(** [false] is the early return. *)
Definition pack_user (login : rpclogin) (nonce : cstr) (trusted : bool) : P → P * bool :=
  match username login with
  | None => nop
  | Some user =>
      cp_pack_str pack (Some (str "login")) >>>
      cp_pack_map_begin pack >>>
      cp_pack_str pack (Some (str "user")) >>>
      cp_pack_str pack (Some user) >>>
      cp_pack_str pack (Some (str "password")) >>?
      pack_password login nonce trusted >>>
      cp_pack_container_end pack >>>
      nop
  end.

Definition pack_options (login : rpclogin) : P → P * bool :=
  let device := bool_decide (device_id login ≠ None) || bool_decide (device_mountpoint login ≠ None) in
  when ((0 <? idle_timeout login) || device)
    (cp_pack_str pack (Some (str "options")) >>>
     cp_pack_map_begin pack >>>
     when device
       (cp_pack_str pack (Some (str "device")) >>>
        cp_pack_map_begin pack >>>
        key_opt (str "deviceId") (device_id login) >>>
        key_opt (str "mountPoint") (device_mountpoint login) >>>
        cp_pack_container_end pack) >>>
     when (negb (idle_timeout login =? 0))
       (cp_pack_str pack (Some (str "idleWatchDogTimeOut")) >>> cp_pack_int pack (idle_timeout login)) >>>
     cp_pack_container_end pack).

Definition rpclogin_pack (login : rpclogin) (nonce : cstr) (trusted : bool) : P → P * bool :=
  cp_pack_map_begin pack >>>
  pack_user login nonce trusted >>?
  pack_options login >>>
  cp_pack_container_end pack.
End pack.

(** *** [rpclogin_unpack] *)

Definition set_username (v : option cstr) (l : rpclogin) : rpclogin :=
  Login v (password l) (login_type l) (idle_timeout l) (device_id l) (device_mountpoint l).
Definition set_password (v : option cstr) (l : rpclogin) : rpclogin :=
  Login (username l) v (login_type l) (idle_timeout l) (device_id l) (device_mountpoint l).
Definition set_login_type (v : rpclogin_type) (l : rpclogin) : rpclogin :=
  Login (username l) (password l) v (idle_timeout l) (device_id l) (device_mountpoint l).
Definition set_idle_timeout (v : Z) (l : rpclogin) : rpclogin :=
  Login (username l) (password l) (login_type l) v (device_id l) (device_mountpoint l).
Definition set_device_id (v : option cstr) (l : rpclogin) : rpclogin :=
  Login (username l) (password l) (login_type l) (idle_timeout l) v (device_mountpoint l).
Definition set_device_mountpoint (v : option cstr) (l : rpclogin) : rpclogin :=
  Login (username l) (password l) (login_type l) (idle_timeout l) (device_id l) v.

Section unpack.
Context {U : Type} (unpack : U → cpitem → U * cpitem) (ck : chunks) (alloc : Z → bool).

(** [FAIL] leaves with what is on the obstack. *)
Definition outcome : Type := U * cpitem * (rpclogin * obstack + obstack).

(** A string is put to its field or the login is refused. *)
Definition string_key (put : option cstr → rpclogin → rpclogin) (u : U) (it : cpitem)
    (s : rpclogin * obstack) : outcome :=
  let '(res, o) := s in
  let '(u, it, o, v) := strdupo unpack ck u it o in
  match v with Some _ => (u, it, inl (put v res, o)) | None => (u, it, inr o) end.

Definition skip_key (u : U) (it : cpitem) (s : rpclogin * obstack) : outcome :=
  let '(u, it) := cp_unpack_skip unpack u it in (u, it, inl s).

Definition type_key (u : U) (it : cpitem) (s : rpclogin * obstack) : outcome :=
  let '(u, it, d) := cp_unpack_strndup unpack alloc 6 u it in
  match dup_cstr d with
  | None => (u, it, inr s.2)
  | Some type =>
      let '(u, it) := cp_unpack_drop1 unpack u it in
      if strcmp type (str "PLAIN") =? 0 then (u, it, inl (set_login_type RPC_LOGIN_PLAIN s.1, s.2))
      else if strcmp type (str "SHA1") =? 0 then (u, it, inl (set_login_type RPC_LOGIN_SHA1 s.1, s.2))
      else (u, it, inr s.2)
  end.

Definition login_key (lkey : cstr) (u : U) (it : cpitem) (s : rpclogin * obstack) : outcome :=
  if strcmp lkey (str "user") =? 0 then string_key set_username u it s
  else if strcmp lkey (str "password") =? 0 then string_key set_password u it s
  else if strcmp lkey (str "type") =? 0 then type_key u it s
  else skip_key u it s.

Definition device_key (odkey : cstr) (u : U) (it : cpitem) (s : rpclogin * obstack) : outcome :=
  if strcmp odkey (str "deviceId") =? 0 then string_key set_device_id u it s
  else if strcmp odkey (str "mountPoint") =? 0 then string_key set_device_mountpoint u it s
  else skip_key u it s.

Definition option_key (okey : cstr) (u : U) (it : cpitem) (s : rpclogin * obstack) : outcome :=
  if strcmp okey (str "device") =? 0 then
    let '(u, it, ty) := cp_unpack_type unpack u it in
    if bool_decide (ty = CPITEM_MAP) then for_cp_unpack_map unpack 11 device_key u it s
    else (u, it, inr s.2)
  else if strcmp okey (str "idleWatchDogTimeOut") =? 0 then
    let '(u, it, v) := cp_unpack_int unpack (Unsigned 32) u it in
    match v with
    | Some v => (u, it, inl (set_idle_timeout v s.1, s.2))
    | None => (u, it, inr s.2)
    end
  else skip_key u it s.

(** A map, which may also be null. *)
Definition map_key_value (siz : Z) (body : cstr → U → cpitem → rpclogin * obstack → outcome)
    (u : U) (it : cpitem) (s : rpclogin * obstack) : outcome :=
  let '(u, it, ty) := cp_unpack_type unpack u it in
  match ty with
  | CPITEM_MAP => for_cp_unpack_map unpack siz body u it s
  | CPITEM_NULL => (u, it, inl s)
  | _ => (u, it, inr s.2)
  end.

Definition top_key (key : cstr) (u : U) (it : cpitem) (s : rpclogin * obstack) : outcome :=
  if strcmp key (str "login") =? 0 then map_key_value 8 login_key u it s
  else if strcmp key (str "options") =? 0 then map_key_value 20 option_key u it s
  else skip_key u it s.

Definition login_init : rpclogin := Login None None RPC_LOGIN_PLAIN 0 None None.

(** [None] is the [NULL] result. *)
Definition rpclogin_unpack (u : U) (it : cpitem) (o : obstack) : U * cpitem * (option rpclogin * obstack) :=
  let '(u, it, ty) := cp_unpack_type unpack u it in
  if bool_decide (ty = CPITEM_MAP) then
    let '(u, it, r) := for_cp_unpack_map unpack 8 top_key u it (login_init, obstack_alloc ck 48 o) in
    match r with
    | inl (res, o) => (u, it, (Some res, o))
    | inr o => (u, it, (None, obstack_free ck o))
    end
  else (u, it, (None, o)).
End unpack.

(** *** [rpclogin_validate_password] *)

Definition rpclogin_validate_password (login : rpclogin) (password_ : cstr) (nonce : option cstr)
    (type : rpclogin_type) : bool :=
  let lpassword := default [] (password login) in
  let '(lpassword, password_, type) :=
    match login_type login, type with
    | RPC_LOGIN_PLAIN, RPC_LOGIN_SHA1 => (sha1_hex lpassword, password_, RPC_LOGIN_PLAIN)
    | RPC_LOGIN_SHA1, RPC_LOGIN_PLAIN => (lpassword, sha1_hex password_, RPC_LOGIN_SHA1)
    | _, _ => (lpassword, password_, type)
    end in
  match type with
  | RPC_LOGIN_PLAIN => strcmp password_ lpassword =? 0
  | RPC_LOGIN_SHA1 =>
      match nonce with
      | None | Some [] => false
      | Some nonce => strcmp (sha1_hex (nonce ++ password_)) lpassword =? 0
      end
  end.
End login.

(** ** Lemmas *)

(** A map as it is on the wire. *)
Definition map_toks (ps : list (cstr * list tok)) : list tok :=
  TMap :: flat_map (λ p, TString p.1 :: p.2) ps ++ [TEnd].

Definition opt_pair (key : cstr) (v : option cstr) : list (cstr * list tok) :=
  match v with Some v => [(key, [TString v])] | None => [] end.

(** Digits are characters. *)
Lemma hex_text x : 0 < hex (Z.land x 0xf) < 256.
Proof.
  change 0xf with (Z.ones 4). rewrite Z.land_ones by lia.
  pose proof (Z.mod_pos_bound x (2 ^ 4) ltac:(lia)) as Hb.
  pose proof (forall_below 16 (λ y, (0 <? hex y) && (hex y <? 256)) eq_refl (x mod 2 ^ 4) Hb) as H.
  cbv beta in H. apply andb_true_iff in H. lia.
Qed.

Section toks.
Context (sha1 : list Z → list Z).

(** What is sent for the password. *)
Definition sent_type (login : rpclogin) (trusted : bool) : rpclogin_type :=
  if type_eqb (login_type login) RPC_LOGIN_PLAIN && negb trusted then RPC_LOGIN_SHA1 else login_type login.

Definition sent_password (login : rpclogin) (nonce : cstr) (trusted : bool) : cstr :=
  let p := default [] (password login) in
  match login_type login, trusted with
  | RPC_LOGIN_PLAIN, true => p
  | RPC_LOGIN_PLAIN, false => sha1_hex sha1 (nonce ++ sha1_hex sha1 p)
  | RPC_LOGIN_SHA1, _ => sha1_hex sha1 (nonce ++ p)
  end.

Definition type_name (t : rpclogin_type) : cstr :=
  if type_eqb t RPC_LOGIN_PLAIN then str "PLAIN" else str "SHA1".

Definition user_pairs (login : rpclogin) (nonce : cstr) (trusted : bool) (user : cstr) :
    list (cstr * list tok) :=
  [(str "user", [TString user]);
   (str "password", [TString (sent_password login nonce trusted)]);
   (str "type", [TString (type_name (sent_type login trusted))])].

Definition device_pairs (login : rpclogin) : list (cstr * list tok) :=
  opt_pair (str "deviceId") (device_id login) ++ opt_pair (str "mountPoint") (device_mountpoint login).

Definition option_pairs (login : rpclogin) : list (cstr * list tok) :=
  (match device_pairs login with [] => [] | ps => [(str "device", map_toks ps)] end) ++
  (if negb (idle_timeout login =? 0) then [(str "idleWatchDogTimeOut", [TInt (idle_timeout login)])] else []).

Definition login_pairs (login : rpclogin) (nonce : cstr) (trusted : bool) : list (cstr * list tok) :=
  (match username login with
   | Some user => [(str "login", map_toks (user_pairs login nonce trusted user))]
   | None => []
   end) ++
  (match option_pairs login with [] => [] | ps => [(str "options", map_toks ps)] end).

Definition login_wf (login : rpclogin) : Prop :=
  text (default [] (username login)) ∧ text (default [] (password login)) ∧
  text (default [] (device_id login)) ∧ text (default [] (device_mountpoint login)) ∧
  urange 32 (idle_timeout login).

(** SHA-1 gives twenty bytes. *)
Definition sha1_ok : Prop := ∀ l, bytes (sha1 l) ∧ Z.of_nat (length (sha1 l)) = SHA1_SIZ.

Lemma sha1_hex_text l : sha1_ok → text (sha1_hex sha1 l).
Proof.
  intros Hok. destruct (Hok l) as [_ Hl]. unfold sha1_hex.
  pose proof hex_text as Hhex.
  split.
  - clear Hl. induction (sha1 l) as [|b k IH]; simpl; [constructor|]. do 2 (apply Forall_cons_2; [done|]). done.
  - assert (∀ k, length (flat_map (λ b, [hex (Z.land (Z.shiftr b 4) 0xf); hex (Z.land b 0xf)]) k) =
      (2 * length k)%nat) as -> by (induction k; simpl; lia).
    unfold SHA1_SIZ in Hl. lia.
Qed.

Lemma sent_text login nonce trusted :
  sha1_ok → text (default [] (password login)) → text (sent_password login nonce trusted).
Proof.
  intros Hok Hp. unfold sent_password. destruct (login_type login), trusted; [done|..]; by apply sha1_hex_text.
Qed.
End toks.

Section outputs.
Context (sha1 : list Z → list Z) (Hsha1 : sha1_ok sha1).
Context {P : Type} (pack : P → cpitem → P * bool) `{!PackSpec pack}.

Lemma outputs_password login nonce trusted :
  text (default [] (password login)) →
  outputs pack (pack_password sha1 pack login nonce trusted)
    [TString (sent_password sha1 login nonce trusted); TString (str "type");
     TString (type_name (sent_type login trusted))].
Proof.
  intros Hp. unfold pack_password, sent_type.
  assert (∀ l, outputs pack (cp_pack_string pack (sha1_hex sha1 l)) [TString (sha1_hex sha1 l)]) as Hsha.
  { intros l. destruct (text_bytes _ (sha1_hex_text sha1 l Hsha1)). by apply outputs_string. }
  destruct login as [u p t i d m]. cbn [password login_type] in *. unfold sent_password. cbn [login_type password].
  destruct t, trusted; cbn [type_eqb andb negb];
    (apply (outputs_then _ _ _ [_]); [first [exact (Hsha _)|by apply outputs_str]|]);
    (apply (outputs_then _ _ _ [_]); apply outputs_str; by_evaluation).
Qed.

Lemma outputs_user login nonce trusted :
  login_wf login →
  outputs pack (pack_user sha1 pack login nonce trusted)
    (match username login with
     | Some user => TString (str "login") :: map_toks (user_pairs sha1 login nonce trusted user)
     | None => []
     end).
Proof.
  intros (Hu & Hp & _). unfold pack_user. destruct (username login) as [user|]; [|exact (outputs_nop pack)].
  eapply outputs_eq.
  - do 4 (eapply outputs_then; [packs|]). eapply outputs_if; [packs|].
    eapply outputs_then; [by apply outputs_password|]. eapply outputs_then; [auto with shv|exact (outputs_nop pack)].
  - done.
Qed.

Lemma outputs_key_opt key v :
  text key → text (default [] v) →
  outputs pack (key_opt pack key v) (flat_map (λ p, TString p.1 :: p.2) (opt_pair key v)).
Proof.
  intros Hk Hv. destruct v as [v|]; [|exact (outputs_nop pack)].
  apply (outputs_then _ _ _ [_]); by apply outputs_str.
Qed.

Lemma outputs_options login :
  login_wf login →
  outputs pack (pack_options pack login)
    (match option_pairs login with [] => [] | ps => TString (str "options") :: map_toks ps end).
Proof.
  intros (_ & _ & Hd & Hm & Hi). unfold pack_options, option_pairs, device_pairs.
  assert (packable_int (idle_timeout login)) by (by apply packable_small).
  destruct login as [u p t i d m]. cbn [idle_timeout device_id device_mountpoint] in *.
  eapply outputs_eq.
  - eapply outputs_when. intros _. eapply outputs_then; [packs|]. eapply outputs_then; [packs|].
    eapply outputs_then; [|packs]. eapply outputs_when. intros _.
    eapply outputs_then; [packs|]. eapply outputs_then; [packs|].
    eapply outputs_then; [apply outputs_key_opt; [by_evaluation|done]|].
    eapply outputs_then; [apply outputs_key_opt; [by_evaluation|done]|]. packs.
  - assert (negb (i =? 0) = (0 <? i)) as -> by (unfold urange in Hi; destruct (Z.eqb_spec i 0), (Z.ltb_spec 0 i); done || lia).
    destruct d, m, (0 <? i); done.
Qed.
End outputs.

Section reads.
Context (sha1 : list Z → list Z) (Hsha1 : sha1_ok sha1).
Context {U : Type} (unpack : U → cpitem → U * cpitem) `{!UnpackSpec unpack}.
Context (ck : chunks) (ck_wf : chunks_wf ck).

Lemma steps_string_key (body : U → cpitem → rpclogin * obstack → outcome) put l m :
  (∀ u it s, body u it s = string_key unpack ck put u it s) → text l →
  steps_to unpack body [TString l] (kept_as m) (kept_as (put (Some l) m)).
Proof.
  intros Hb Hl. apply (steps_string unpack ck ck_wf _ l put); [|done].
  intros u it o u1 it1 o1 Hs. rewrite Hb. unfold string_key. by rewrite Hs.
Qed.

Lemma steps_type_key (body : U → cpitem → rpclogin * obstack → outcome) t m :
  (∀ u it s, body u it s = type_key unpack (λ _, true) u it s) →
  steps_to unpack body [TString (type_name t)] (kept_as m) (kept_as (set_login_type t m)).
Proof.
  intros Hb [m' o] [Em Ho] u u' it (u1 & Hy & ->) Hi. simpl in Em, Ho. subst m'.
  destruct (dup_spec unpack false false (type_name t) u it u1 6) as (u2 & it2 & Hdup & _ & Hend & Hbs);
    [by apply data_next_string|by destruct t|by_evaluation|].
  destruct Hend as [Hr ->]; [by destruct t|].
  destruct (drop1_at_item unpack u1 it2 u1) as (it' & Hd & Hr' & _ & Hb'); [by left|].
  exists it', (inl (set_login_type t m, o)). split; [|split; [done|by eexists]].
  rewrite Hb. unfold type_key, cp_unpack_strndup. cbn [data_type] in Hdup. rewrite Hdup. cbn [dup_cstr].
  destruct t; cbn [fst snd]; rewrite Hd; done.
Qed.

Lemma steps_map_value (f : U → cpitem → rpclogin * obstack → outcome) siz body ps Q Q' :
  (∀ u it s u1 it1, unpack u it = (u1, it1) → type it1 = CPITEM_MAP →
     f u it s = for_cp_unpack_map unpack siz body u1 it1 s) →
  chain unpack body Q ps Q' → Forall (λ p, wf_cstr p.1 ∧ Z.of_nat (length p.1) ≤ siz < 2 ^ 32) ps →
  0 ≤ siz < 2 ^ 32 → Z.of_nat (length ps) < 2 ^ 64 → steps_to unpack f (map_toks ps) Q Q'.
Proof.
  intros Hf Hc Hk Hsiz Hlen s HQ u u' it (u1 & Hy1 & Hy) Hi.
  destruct (unpack_idle unpack TMap u u1 it Hy1 eq_refl Hi) as (it1 & Hu & [Ht _] & Hi1).
  destruct (reads_map unpack siz body Q ps Q' Hc Hk Hsiz Hlen s HQ u1 u' it1 Hy Hi1)
    as (it' & r & Hr & ? & ?). exists it', r. split; [|done]. by rewrite (Hf _ _ _ u1 it1).
Qed.

Abbreviation user_key := (login_key unpack ck (λ _, true)).

Lemma user_chain login nonce trusted user m :
  text user → text (default [] (password login)) →
  chain unpack user_key (kept_as m) (user_pairs sha1 login nonce trusted user)
    (kept_as (set_login_type (sent_type login trusted)
       (set_password (Some (sent_password sha1 login nonce trusted)) (set_username (Some user) m)))).
Proof.
  intros Hu Hp. pose proof (sent_text sha1 login nonce trusted Hsha1 Hp) as Hs.
  econstructor; [by apply (steps_string_key _ set_username)|].
  econstructor; [by apply (steps_string_key _ set_password)|].
  econstructor; [by apply steps_type_key|by constructor].
Qed.

Lemma device_chain login m :
  login_wf login → device_id m = None → device_mountpoint m = None →
  chain unpack (device_key unpack ck) (kept_as m) (device_pairs login)
    (kept_as (set_device_mountpoint (device_mountpoint login) (set_device_id (device_id login) m))).
Proof.
  intros (_ & _ & Hd & Hm & _) Ed Em. unfold device_pairs, opt_pair.
  apply (chain_option _ _ _ _ _ _ (kept_as (set_device_id (device_id login) m))).
  { intros d E. rewrite E in *. by apply (steps_string_key _ set_device_id). }
  { intros E s. rewrite E. destruct m. simpl in *. by subst. }
  rewrite <-(app_nil_r (match device_mountpoint login with Some _ => _ | None => _ end)).
  apply (chain_option _ _ _ _ _ _ (kept_as (set_device_mountpoint (device_mountpoint login)
    (set_device_id (device_id login) m)))).
  { intros d E. rewrite E in *. by apply (steps_string_key _ set_device_mountpoint). }
  { intros E s. rewrite E. destruct m. simpl in *. by subst. }
  by constructor.
Qed.

Lemma steps_idle_timeout v m :
  urange 32 v →
  steps_to unpack (option_key unpack ck (str "idleWatchDogTimeOut")) [TInt v] (kept_as m)
    (kept_as (set_idle_timeout v m)).
Proof.
  intros Hv [m' o] [Em Ho] u u' it Hy Hi. simpl in Em, Ho. subst m'.
  destruct (reads_int_fits unpack (Unsigned 32) v (fits_unsigned 32 v ltac:(lia) Hv) u u' it Hy Hi)
    as (it' & r & Hu & Hi' & ->).
  exists it', (inl (set_idle_timeout v m, o)). split; [|split; [done|by eexists]].
  unfold option_key. eval_keys. by rewrite Hu.
Qed.

Lemma option_chain login m :
  login_wf login → device_id m = None → device_mountpoint m = None → idle_timeout m = 0 →
  chain unpack (option_key unpack ck) (kept_as m) (option_pairs login)
    (kept_as (set_idle_timeout (idle_timeout login)
       (set_device_mountpoint (device_mountpoint login) (set_device_id (device_id login) m)))).
Proof.
  intros Hwf Ed Em Ei. pose proof (device_chain login m Hwf Ed Em) as Hc. unfold option_pairs.
  set (m1 := set_device_mountpoint _ _) in *.
  assert (chain unpack (option_key unpack ck) (kept_as m1)
    (if negb (idle_timeout login =? 0) then [(str "idleWatchDogTimeOut", [TInt (idle_timeout login)])] else [])
    (kept_as (set_idle_timeout (idle_timeout login) m1))) as Hi.
  { destruct (Z.eqb_spec (idle_timeout login) 0) as [E|]; cbn [negb].
    - constructor. intros s. rewrite E. assert (idle_timeout m1 = 0) as <- by done. by destruct m1.
    - econstructor; [apply steps_idle_timeout, Hwf|by constructor]. }
  destruct (device_pairs login) as [|p ps] eqn:Eps.
  - inversion Hc; subst. by eapply chain_impl.
  - econstructor; [|done]. eapply (steps_map_value _ 11 (device_key unpack ck)); [|done|..].
    + intros u it s u1 it1 Hu Ht. unfold option_key, cp_unpack_type. eval_keys. rewrite Hu, Ht. done.
    + rewrite <-Eps. unfold device_pairs, opt_pair.
      destruct (device_id login), (device_mountpoint login); repeat constructor; by_evaluation.
    + lia.
    + rewrite <-Eps. unfold device_pairs, opt_pair. by destruct (device_id login), (device_mountpoint login).
Qed.

(** The login as the broker has it. *)
Definition received (login : rpclogin) (nonce : cstr) (trusted : bool) : rpclogin :=
  match username login with
  | Some user =>
      Login (Some user) (Some (sent_password sha1 login nonce trusted)) (sent_type login trusted)
        (idle_timeout login) (device_id login) (device_mountpoint login)
  | None => Login None None RPC_LOGIN_PLAIN (idle_timeout login) (device_id login) (device_mountpoint login)
  end.

Lemma map_value_map body siz u it (s : rpclogin * obstack) u1 it1 :
  unpack u it = (u1, it1) → type it1 = CPITEM_MAP →
  map_key_value unpack siz body u it s = for_cp_unpack_map unpack siz body u1 it1 s.
Proof. intros Hu Ht. unfold map_key_value, cp_unpack_type. by rewrite Hu, Ht. Qed.

Lemma login_chain login nonce trusted :
  login_wf login →
  chain unpack (top_key unpack ck (λ _, true)) (kept_as login_init) (login_pairs sha1 login nonce trusted)
    (kept_as (received login nonce trusted)).
Proof.
  intros Hwf. pose proof Hwf as (Hu & Hp & _). unfold login_pairs.
  set (m1 := match username login with
             | Some user => Login (Some user) (Some (sent_password sha1 login nonce trusted))
                              (sent_type login trusted) 0 None None
             | None => login_init
             end).
  apply (chain_option _ _ _ _ _ _ (kept_as m1)).
  { intros user E. unfold m1. rewrite E in *.
    eapply (steps_map_value _ 8 user_key); [intros; by apply map_value_map|by apply user_chain|..]; [|lia|by_evaluation].
    repeat constructor; by_evaluation. }
  { intros E s. unfold m1. by rewrite E. }
  pose proof (option_chain login m1 Hwf) as Hc. destruct (option_pairs login) as [|p ps] eqn:Eps.
  - assert (idle_timeout login = 0 ∧ device_id login = None ∧ device_mountpoint login = None) as (Ei & Ed & Em).
    { unfold option_pairs, device_pairs, opt_pair in Eps.
      destruct (device_id login), (device_mountpoint login), (Z.eqb_spec (idle_timeout login) 0); done. }
    constructor. intros s. unfold m1, received. rewrite Ei, Ed, Em. by destruct (username login).
  - econstructor; [|constructor; intros s Hs; exact Hs].
    eapply (steps_map_value _ 20 (option_key unpack ck)); [intros; by apply map_value_map| |..].
    + unfold received, m1 in *. destruct (username login); by apply Hc.
    + rewrite <-Eps. unfold option_pairs, device_pairs, opt_pair.
      destruct (device_id login), (device_mountpoint login), (idle_timeout login =? 0); repeat constructor; by_evaluation.
    + lia.
    + rewrite <-Eps. unfold option_pairs, device_pairs, opt_pair.
      by destruct (device_id login), (device_mountpoint login), (idle_timeout login =? 0).
Qed.

Lemma reads_login login nonce trusted o :
  login_wf login → obs_ok o →
  reads unpack (λ u it, rpclogin_unpack unpack ck (λ _, true) u it o)
    (map_toks (login_pairs sha1 login nonce trusted))
    (λ r, r.1 = Some (received login nonce trusted)).
Proof.
  intros Hwf Ho u u' it (u1 & Hy1 & Hy) Hi.
  destruct (unpack_idle unpack TMap u u1 it Hy1 eq_refl Hi) as (it1 & Hu & [Ht _] & Hi1).
  destruct (reads_map unpack 8 (top_key unpack ck (λ _, true)) (kept_as login_init)
    (login_pairs sha1 login nonce trusted) (kept_as (received login nonce trusted)))
    with (s := (login_init, obstack_alloc ck 48 o)) (u := u1) (u' := u') (it := it1)
    as (it' & r & Hr & Hi' & [m o'] & -> & [Em _]); [by apply login_chain| |lia| | |done|done|].
  - unfold login_pairs. destruct (username login), (option_pairs login); repeat constructor; by_evaluation.
  - unfold login_pairs. by destruct (username login), (option_pairs login).
  - split; [done|]. split; [done|apply ck_wf].
  - simpl in Em. subst m. exists it'. eexists. split; [|split; [done|]].
    + unfold rpclogin_unpack, cp_unpack_type. rewrite Hu, Ht. cbn [tok_type].
      rewrite bool_decide_true by done. by rewrite Hr.
    + done.
Qed.
End reads.

Lemma outputs_login sha1 {P} (pack : P → cpitem → P * bool) `{!PackSpec pack} login nonce trusted :
  sha1_ok sha1 → login_wf login →
  outputs pack (rpclogin_pack sha1 pack login nonce trusted)
    (map_toks (login_pairs sha1 login nonce trusted)).
Proof.
  intros Hok Hwf. unfold rpclogin_pack. eapply outputs_eq.
  - eapply outputs_then; [packs|]. eapply outputs_if; [by apply outputs_user|].
    eapply outputs_then; [by apply outputs_options|packs].
  - unfold map_toks, login_pairs. destruct (username login), (option_pairs login); simpl; by rewrite ?app_nil_r.
Qed.

Lemma map_toks_wf ps :
  Forall (λ p, text p.1 ∧ Forall tok_wf p.2) ps → Forall tok_wf (map_toks ps).
Proof.
  intros H. apply Forall_cons_2; [done|]. apply Forall_app_2; [|by apply Forall_cons_2].
  induction H as [|[k v] ps [Hk Hv] Hps IH]; [constructor|]. simpl.
  apply Forall_cons_2; [by apply text_bytes|]. by apply Forall_app_2.
Qed.

Lemma login_toks_wf sha1 login nonce trusted :
  sha1_ok sha1 → login_wf login → Forall tok_wf (map_toks (login_pairs sha1 login nonce trusted)).
Proof.
  intros Hok (Hu & Hp & Hd & Hm & Hi). pose proof (sent_text sha1 login nonce trusted Hok Hp).
  assert (∀ key v, text key → text (default [] v) → Forall (λ p, text p.1 ∧ Forall tok_wf p.2) (opt_pair key v)) as Hopt.
  { intros key [v|] Hk Hv; [|constructor]. apply Forall_singleton. split; [done|]. toks_wf. }
  assert (∀ key ps, text key → Forall (λ p, text p.1 ∧ Forall tok_wf p.2) ps →
    Forall (λ p, text p.1 ∧ Forall tok_wf p.2) (match ps with [] => [] | q :: l => [(key, map_toks (q :: l))] end)) as Hsub.
  { intros key ps Hk Hps. destruct ps; [constructor|]. apply Forall_singleton. split; [done|]. by apply map_toks_wf. }
  apply map_toks_wf. unfold login_pairs. apply Forall_app_2.
  - destruct (username login) as [user|]; [|constructor]. apply Forall_singleton. split; [by_evaluation|].
    apply map_toks_wf. unfold user_pairs.
    repeat (apply Forall_cons_2; [split; [by_evaluation|toks_wf]|]); [|constructor].
    simpl. destruct (sent_type login trusted); by apply text_bytes; by_evaluation.
  - apply Hsub; [by_evaluation|]. unfold option_pairs. apply Forall_app_2.
    + apply Hsub; [by_evaluation|]. unfold device_pairs. apply Forall_app_2; apply Hopt; done || by_evaluation.
    + destruct (idle_timeout login =? 0); [constructor|]. apply Forall_singleton. split; [by_evaluation|].
      toks_wf.
Qed.

(** ** Properties *)

(** The digest both sides derive from the password: that of a plain one, and the
    stored one otherwise. *)
Definition secret (sha1 : list Z → list Z) (type : rpclogin_type) (password : cstr) : cstr :=
  match type with RPC_LOGIN_PLAIN => sha1_hex sha1 password | RPC_LOGIN_SHA1 => password end.

(** The password of the login is that of the record. *)
Definition same_password (sha1 : list Z → list Z) (login : rpclogin) (stored : cstr) (type : rpclogin_type) :
    Prop :=
  if type_eqb (login_type login) type then default [] (password login) = stored
  else secret sha1 (login_type login) (default [] (password login)) = secret sha1 type stored.

Lemma validate_iff sha1 login stored nonce type trusted :
  let l := Login (username login) (Some (sent_password sha1 login nonce trusted)) (sent_type login trusted)
    (idle_timeout login) (device_id login) (device_mountpoint login) in
  let p := default [] (password login) in
  sha1_ok sha1 → wf_cstr p → wf_cstr stored → nonce ≠ [] →
  rpclogin_validate_password sha1 l stored (Some nonce) type = true ↔
  match sent_type login trusted, type with
  | RPC_LOGIN_PLAIN, RPC_LOGIN_PLAIN => p = stored
  | RPC_LOGIN_PLAIN, RPC_LOGIN_SHA1 => sha1_hex sha1 p = stored
  | RPC_LOGIN_SHA1, _ =>
      sha1_hex sha1 (nonce ++ secret sha1 (login_type login) p) = sha1_hex sha1 (nonce ++ secret sha1 type stored)
  end.
Proof.
  intros l p Hok Hp Hs Hn. assert (∀ x, wf_cstr (sha1_hex sha1 x)) as Hw by (intros x; by apply sha1_hex_text).
  destruct nonce as [|c nonce]; [done|]. unfold l, rpclogin_validate_password, sent_password, sent_type.
  destruct login as [u pw t i d m]. cbn [password login_type default from_option] in *. fold p.
  destruct t, type, trusted; cbn [type_eqb andb negb secret default from_option id];
    rewrite Z.eqb_eq, strcmp_eq by done; split; congruence.
Qed.

(** C26: a login that is packed for a trusted or an untrusted link is unpacked with the
    same user, device, mount point and timeout, and its password is accepted against
    the record of the user, kept plain or hashed, whenever it is the one of the
    record; it is accepted only if both sides have the same secret, or two different
    strings with the same SHA-1 are at hand. *)
Theorem rpclogin_authenticates sha1 login user stored type nonce trusted ck o :
  sha1_ok sha1 → login_wf login → username login = Some user → wf_cstr stored → nonce ≠ [] →
  chunks_wf ck → obs_ok o →
  let own := secret sha1 (login_type login) (default [] (password login)) in
  let other := secret sha1 type stored in
  round_trips (rpclogin_pack sha1 cp_pack_chainpack_func login nonce trusted)
    (λ f it, rpclogin_unpack cp_unpack_chainpack_func ck (λ _, true) f it o)
    (λ r, ∃ l, r.1 = Some l ∧ username l = Some user ∧ idle_timeout l = idle_timeout login ∧
       device_id l = device_id login ∧ device_mountpoint l = device_mountpoint login ∧
       let accepted := rpclogin_validate_password sha1 l stored (Some nonce) type = true in
       (same_password sha1 login stored type → accepted) ∧
       (accepted → own = other ∨ own ≠ other ∧ sha1_hex sha1 (nonce ++ own) = sha1_hex sha1 (nonce ++ other))).
Proof.
  intros Hok Hwf Huser Hst Hn Hck Ho own other. pose proof Hwf as (_ & [Hp _] & _).
  eapply round_trips_toks; [by apply outputs_login| |by apply login_toks_wf].
  eapply reads_impl; [by apply reads_login|]. intros r Hr. exists (received sha1 login nonce trusted).
  split; [done|]. unfold received. rewrite Huser, <-Huser. cbn [username idle_timeout device_id device_mountpoint].
  split_and!; [done..| |]; rewrite validate_iff by done; subst own other; unfold same_password;
    destruct login as [u pw t i d m]; cbn [password login_type] in *; unfold sent_type; cbn [login_type];
    destruct t, type, trusted; cbn [type_eqb andb negb secret];
    try (by intros ->); try (by intros <-); intros E; try (left; congruence);
    match goal with |- ?a = ?b ∨ _ => destruct (decide (a = b)); auto end.
Qed.

(** A digest for the example. *)
Definition sum_digest (l : list Z) : list Z := map (λ i, (foldr Z.add 0 l + i) mod 256) (seqZ 0 20).

Lemma sum_digest_ok : sha1_ok sum_digest.
Proof.
  intros l. split; [|done]. apply Forall_fmap, Forall_true. intros i.
  pose proof (Z.mod_pos_bound (foldr Z.add 0 l + i) 256). unfold byte. simpl. lia.
Qed.

Lemma rpclogin_authenticates_witness :
  let login := Login (Some (str "john")) (Some (str "secret")) RPC_LOGIN_PLAIN 60 (Some (str "dev")) None in
  round_trips (rpclogin_pack sum_digest cp_pack_chainpack_func login (str "0123456789") false)
    (λ f it, rpclogin_unpack cp_unpack_chainpack_func (Chunks (λ _, 8) (λ _, 0)) (λ _, true) f it (Obstack [] 4))
    (λ r, ∃ l, r.1 = Some l ∧ username l = Some (str "john") ∧
       rpclogin_validate_password sum_digest l (str "secret") (Some (str "0123456789")) RPC_LOGIN_PLAIN = true).
Proof.
  intros login. destruct (rpclogin_authenticates sum_digest login (str "john") (str "secret") RPC_LOGIN_PLAIN
    (str "0123456789") false (Chunks (λ _, 8) (λ _, 0)) (Obstack [] 4)) as (bs & Hw & Hr);
    [apply sum_digest_ok|split_and!; by_evaluation|done|by_evaluation|done|done|done|].
  exists bs. split; [exact Hw|]. intros d e it Hi. destruct (Hr d e it Hi) as (it' & r & Hu & Hi' & l & Hl & Hn & _ & _ & _ & Ha & _).
  exists it', r. split; [exact Hu|]. split; [exact Hi'|]. exists l. split; [exact Hl|]. split; [exact Hn|]. by apply Ha.
Defined.

(** A hashed password is accepted only with a nonce. *)
Example validate_without_nonce sha1 login stored type :
  login_type login = RPC_LOGIN_SHA1 →
  rpclogin_validate_password sha1 login stored None type = false ∧
  rpclogin_validate_password sha1 login stored (Some []) type = false.
Proof. intros H. unfold rpclogin_validate_password. by rewrite H; destruct type. Qed.
