(* ===== verification/Arr.v ===== *)
(** * Arrays of the broker ([libshvbroker/arr.h])

    Arrays with their count are lists.  [bsearch] and [qsort] of the C library are
    here as well: the former halves the range as the library does, the latter sorts,
    and leaves elements that compare equal in their order, which the standard leaves
    open. *)

From stdpp Require Import sorting.
From S2P Require Import Prelude Stdio.

(** ** Definitions *)

Section arr.
Context {A : Type}.
Implicit Types (l : list A).

Definition ARR_ADD l (x : A) : list A := l ++ [x].
Definition ARR_DEL l (i : nat) : list A := delete i l.
Definition ARR_DROP l (n : nat) : list A := drop n l.

(** One round: the element in the middle or the half that is left. *)
Definition bsearch_step (cmp : A → Z) l (s : nat * nat) : nat * nat + option nat :=
  let '(lo, hi) := s in
  if (lo <? hi)%nat then
    let idx := ((lo + hi) / 2)%nat in
    match l !! idx with
    | Some x =>
        if cmp x <? 0 then inl (lo, idx)
        else if 0 <? cmp x then inl (S idx, hi)
        else inr (Some idx)
    | None => inr None
    end
  else inr None.

(** The index of an element the key compares equal to. *)
Definition bsearch (cmp : A → Z) l : option nat :=
  match cloop (bsearch_step cmp l) 64 (0%nat, length l) with inr r => r | inl _ => None end.

Definition not_above (cmp : A → A → Z) (x y : A) : Prop := cmp x y ≤ 0.

#[export] Instance not_above_dec cmp x y : Decision (not_above cmp x y).
Proof. unfold not_above. apply _. Defined.

Definition qsort (cmp : A → A → Z) l : list A := merge_sort (not_above cmp) l.
End arr.

(** ** Lemmas *)

Section bsearch.
Context {A : Type} (cmp : A → Z) (l : list A).

(** The elements before one that is not smaller than the key are smaller, and the
    ones behind one that is not greater are greater. *)
Definition ordered : Prop :=
  ∀ i j x y, (i < j)%nat → l !! i = Some x → l !! j = Some y →
  (cmp x ≤ 0 → cmp y < 0) ∧ (0 ≤ cmp y → 0 < cmp x).

(** Only the elements of the range can still be equal to the key. *)
Definition confined (lo hi : nat) : Prop :=
  ∀ i x, l !! i = Some x → cmp x = 0 → (lo ≤ i < hi)%nat.

Definition bsearch_result (r : option nat) : Prop :=
  match r with
  | Some i => ∃ x, l !! i = Some x ∧ cmp x = 0
  | None => ∀ x, x ∈ l → cmp x ≠ 0
  end.

Lemma bsearch_steps lo hi :
  ordered → (hi ≤ length l)%nat → confined lo hi →
  ∃ k r, (k ≤ hi - lo + 1)%nat ∧ steps (bsearch_step cmp l) k (lo, hi) (inr r) ∧ bsearch_result r.
Proof.
  intros Ho. remember (hi - lo)%nat as n eqn:En. revert lo hi En.
  induction (lt_wf n) as [n _ IH]. intros lo hi En Hhi Hc.
  assert (∀ s, bsearch_step cmp l (lo, hi) = inr s → bsearch_result s →
    ∃ k r, (k ≤ n + 1)%nat ∧ steps (bsearch_step cmp l) k (lo, hi) (inr r) ∧ bsearch_result r) as Hstop.
  { intros s Hs Hr. exists 1%nat, s. split; [lia|]. split; [by apply steps_stop|done]. }
  destruct (Nat.ltb_spec lo hi) as [Hlt|Hge].
  2:{ apply (Hstop None).
      - unfold bsearch_step. by rewrite (proj2 (Nat.ltb_ge _ _)).
      - intros x [i Hi]%list_elem_of_lookup_1 Hx. specialize (Hc i x Hi Hx). lia. }
  set (idx := ((lo + hi) / 2)%nat).
  assert (lo ≤ idx < hi)%nat as Hidx.
  { unfold idx. split; [apply Nat.div_le_lower_bound; lia|apply Nat.div_lt_upper_bound; lia]. }
  destruct (lookup_lt_is_Some_2 l idx) as [x Hx]; [lia|].
  assert (bsearch_step cmp l (lo, hi) = if cmp x <? 0 then inl (lo, idx)
    else if 0 <? cmp x then inl (S idx, hi) else inr (Some idx)) as Hstep.
  { unfold bsearch_step. rewrite (proj2 (Nat.ltb_lt _ _)) by done. fold idx. by rewrite Hx. }
  destruct (Z.ltb_spec (cmp x) 0); [|destruct (Z.ltb_spec 0 (cmp x))].
  - destruct (IH (idx - lo)%nat ltac:(lia) lo idx eq_refl) as (k & r & Hk & Hs & Hr); [lia| |].
    + intros i y Hi Hy. specialize (Hc i y Hi Hy). split; [lia|].
      destruct (Nat.lt_trichotomy i idx) as [|[->|Hgt]]; [done|simplify_eq; lia|].
      pose proof (Ho idx i x y Hgt Hx Hi) as [? ?]. lia.
    + exists (S k), r. split; [lia|]. split; [by eapply steps_next|done].
  - destruct (IH (hi - S idx)%nat ltac:(lia) (S idx) hi eq_refl) as (k & r & Hk & Hs & Hr); [lia| |].
    + intros i y Hi Hy. specialize (Hc i y Hi Hy). split; [|lia].
      destruct (Nat.lt_trichotomy i idx) as [Hlt'|[->|]]; [|simplify_eq; lia|lia].
      pose proof (Ho i idx y x Hlt' Hi Hx) as [? ?]. lia.
    + exists (S k), r. split; [lia|]. split; [by eapply steps_next|done].
  - apply (Hstop (Some idx) Hstep). exists x. split; [done|lia].
Qed.

Lemma bsearch_spec :
  ordered → Z.of_nat (length l) < 2 ^ 64 → bsearch_result (bsearch cmp l).
Proof.
  intros Ho Hlen. destruct (bsearch_steps 0 (length l) Ho) as (k & r & Hk & Hs & Hr); [done| |].
  - intros i x Hi _. apply lookup_lt_Some in Hi. lia.
  - unfold bsearch. by rewrite (cloop_run _ 64 k _ _ Hs) by lia.
Qed.
End bsearch.

Lemma qsort_permutation {A} (cmp : A → A → Z) l : qsort cmp l ≡ₚ l.
Proof. apply merge_sort_Permutation. Qed.

(** Sorted by a key whose order [strcmp] is. *)
Section keys.
Context {A : Type} (key : A → cstr).

Abbreviation key_cmp := (λ x y, strcmp (key x) (key y)).

Definition by_key (x y : A) : Prop := strcmp (key x) (key y) < 0.

(** Well-formed keys in strictly increasing order. *)
Definition keyed (l : list A) : Prop := Forall (λ x, wf_cstr (key x)) l ∧ StronglySorted by_key l.

Lemma keyed_lookup l i j x y :
  keyed l → (i < j)%nat → l !! i = Some x → l !! j = Some y → by_key x y.
Proof.
  intros [_ Hs]. revert i j. induction Hs as [|z l Hs IH Hz]; intros i j Hij Hi Hj; [done|].
  destruct i as [|i], j as [|j]; simplify_eq/=; [lia| |lia|].
  - rewrite Forall_lookup in Hz. by eapply Hz.
  - apply (IH i j); [lia|done..].
Qed.

Lemma keyed_inj l i j x y :
  keyed l → l !! i = Some x → l !! j = Some y → key x = key y → i = j.
Proof.
  intros Hl Hi Hj E. destruct (Nat.lt_trichotomy i j) as [H|[H|H]]; [|done|].
  - pose proof (keyed_lookup l i j x y Hl H Hi Hj) as Hlt. unfold by_key in Hlt.
    rewrite E, strcmp_refl in Hlt. lia.
  - pose proof (keyed_lookup l j i y x Hl H Hj Hi) as Hlt. unfold by_key in Hlt.
    rewrite E, strcmp_refl in Hlt. lia.
Qed.

Lemma keyed_ordered l k : wf_cstr k → keyed l → ordered (λ x, strcmp k (key x)) l.
Proof.
  intros Hk Hl i j x y Hij Hi Hj. pose proof (keyed_lookup l i j x y Hl Hij Hi Hj) as Hxy.
  destruct Hl as [Hw _]. rewrite Forall_lookup in Hw. pose proof (Hw i x Hi) as Hx. pose proof (Hw j y Hj) as Hy.
  unfold by_key in Hxy. split; intros H.
  - destruct (Z.eq_dec (strcmp k (key x)) 0) as [E|]; [apply strcmp_eq in E; [by subst k|done..]|].
    apply (strcmp_trans k (key x) (key y)); [done..|lia|done].
  - rewrite strcmp_opp. enough (strcmp (key x) k < 0) by lia.
    destruct (Z.eq_dec (strcmp k (key y)) 0) as [E|]; [apply strcmp_eq in E; [by subst k|done..]|].
    apply (strcmp_trans (key x) (key y) k); [done..|]. rewrite strcmp_opp. lia.
Qed.

(** The element of a key, if there is one. *)
Lemma keyed_bsearch l k :
  wf_cstr k → keyed l → Z.of_nat (length l) < 2 ^ 64 →
  match bsearch (λ x, strcmp k (key x)) l with
  | Some i => ∃ x, l !! i = Some x ∧ key x = k
  | None => ∀ x, x ∈ l → key x ≠ k
  end.
Proof.
  intros Hk Hl Hlen. pose proof (bsearch_spec _ l (keyed_ordered l k Hk Hl) Hlen) as H.
  destruct (bsearch _ l) as [i|]; simpl in H.
  - destruct H as (x & Hx & E). exists x. split; [done|]. symmetry. apply strcmp_eq; [done| |done].
    destruct Hl as [Hw _]. rewrite Forall_lookup in Hw. by eapply Hw.
  - intros x Hx <-. apply (H x Hx). apply strcmp_refl.
Qed.

Lemma keyed_delete l i : keyed l → keyed (ARR_DEL l i).
Proof.
  unfold ARR_DEL. intros [Hw Hs]. split; [by apply Forall_delete|].
  clear Hw. revert i. induction Hs as [|x l Hs IH Hx]; intros [|i]; simpl; [constructor..|done|].
  constructor; [apply IH|by apply Forall_delete].
Qed.

(** Without the element of a key. *)
Lemma keyed_del l i x y :
  keyed l → l !! i = Some x → y ∈ ARR_DEL l i ↔ y ∈ l ∧ key y ≠ key x.
Proof.
  intros Hk Hi. unfold ARR_DEL. rewrite (delete_take_drop l i), elem_of_app. split.
  - intros Hy. assert (∃ j, j ≠ i ∧ l !! j = Some y) as (j & Hne & Hj).
    { destruct Hy as [(j & Hj)%list_elem_of_lookup_1|(j & Hj)%list_elem_of_lookup_1].
      - apply lookup_take_Some in Hj as [Hj ?]. exists j. split; [lia|done].
      - rewrite lookup_drop in Hj. exists (S i + j)%nat. split; [lia|done]. }
    split; [by eapply list_elem_of_lookup_2|]. intros E. destruct Hne. by eapply (keyed_inj l j i y x).
  - intros [(j & Hj)%list_elem_of_lookup_1 Hne].
    destruct (Nat.lt_trichotomy j i) as [|[->|]]; [left| |right].
    + apply (list_elem_of_lookup_2 _ j). by rewrite lookup_take_lt.
    + congruence.
    + apply (list_elem_of_lookup_2 _ (j - S i)). rewrite lookup_drop. by replace (S i + (j - S i))%nat with j by lia.
Qed.

Lemma keyed_update l i x y :
  keyed l → l !! i = Some x → key y = key x → keyed (<[i := y]> l).
Proof.
  intros [Hw Hs] Hi E. split.
  - apply Forall_insert; [done|]. rewrite E. rewrite Forall_lookup in Hw. by eapply Hw.
  - clear Hw. revert i Hi. induction Hs as [|z l Hs IH Hz]; intros [|i] Hi; simplify_eq/=.
    + constructor; [done|]. eapply Forall_impl; [exact Hz|]. intros w Hw. unfold by_key in *. by rewrite E.
    + constructor; [by apply IH|]. apply Forall_insert; [done|].
      rewrite Forall_lookup in Hz. pose proof (Hz i x Hi) as Hzx. unfold by_key in *. by rewrite E.
Qed.

Lemma sorted_strictly l :
  Forall (λ x, wf_cstr (key x)) l → NoDup (key <$> l) → Sorted (not_above key_cmp) l → StronglySorted by_key l.
Proof.
  induction l as [|x l IH]; intros Hw Hnd Hs; [constructor|]. apply Forall_cons in Hw as [Hx Hw].
  rewrite fmap_cons in Hnd. apply NoDup_cons in Hnd as [Hni Hnd].
  apply Sorted_inv in Hs as [Hs Hh]. constructor; [by apply IH|].
  specialize (IH Hw Hnd Hs). destruct Hh as [|y l Hxy]; [constructor|].
  assert (by_key x y) as Hlt.
  { unfold by_key, not_above in *. destruct (Z.eq_dec (strcmp (key x) (key y)) 0) as [E|]; [|lia].
    apply strcmp_eq in E; [|done|by apply Forall_cons in Hw as []]. destruct Hni. rewrite E, fmap_cons. left. }
  apply Forall_cons. split; [done|]. apply Forall_cons in Hw as [Hy Hw]. inversion IH; subst.
  rewrite !Forall_forall in *. intros z Hz. unfold by_key in *.
  apply (strcmp_trans (key x) (key y) (key z)); [done|done|by apply Hw|done|by auto].
Qed.

(** One more element with a key of its own. *)
Lemma keyed_qsort l x :
  keyed l → wf_cstr (key x) → (∀ y, y ∈ l → key y ≠ key x) → keyed (qsort key_cmp (ARR_ADD l x)).
Proof.
  intros [Hw Hs] Hx Hnew. unfold ARR_ADD.
  assert (Forall (λ y, wf_cstr (key y)) (qsort key_cmp (l ++ [x]))) as Hwf.
  { rewrite (qsort_permutation key_cmp). apply Forall_app. split; [done|by apply Forall_singleton]. }
  split; [done|].
  assert (NoDup (key <$> qsort key_cmp (l ++ [x]))) as Hnd.
  { rewrite (qsort_permutation key_cmp), fmap_app. apply NoDup_app. split_and!.
    - clear Hnew Hwf. induction Hs as [|y l Hs IH Hy]; simpl; [constructor|]. apply Forall_cons in Hw as [_ Hw].
      constructor; [|by apply IH]. intros (z & E & Hz)%list_elem_of_fmap. rewrite Forall_forall in Hy.
      pose proof (Hy z Hz) as Hlt. unfold by_key in Hlt. rewrite E, strcmp_refl in Hlt. lia.
    - intros k (y & -> & Hy)%list_elem_of_fmap Hk%list_elem_of_singleton. by apply (Hnew y).
    - apply NoDup_singleton. }
  assert (Sorted (not_above key_cmp) (qsort key_cmp (l ++ [x]))) as Hsort.
  { apply Sorted_merge_sort. intros a b. unfold not_above. rewrite (strcmp_opp (key a) (key b)). lia. }
  by apply sorted_strictly.
Qed.
End keys.
