(* ===== verification/Subscription.v ===== *)
(** * Subscriptions of the broker ([libshvbroker/subscription.c])

    The array of resource identifiers and the clients that want their signals, sorted
    by the identifier.  It represents the set of pairs of an identifier and a client. *)

From stdpp Require Import sorting gmap.
From S2P Require Import Prelude Stdio Arr Nbool.

(** ** Definitions *)

Record subscription : Type := Sub { ri : cstr; sclients : nbool_t }.

Definition subcmp (a b : subscription) : Z := strcmp (ri a) (ri b).

(** [ARR_BSEARCH(&ref, broker->subscriptions, subcmp)] *)
Definition find_sub (subs : list subscription) (r : cstr) : option nat :=
  bsearch (subcmp (Sub r None)) subs.

Definition subscription_ri (subs : list subscription) (r : cstr) : option cstr :=
  i ← find_sub subs r; s ← subs !! i; Some (ri s).

Definition subscribe (subs : list subscription) (r : cstr) (cid : Z) : list subscription * bool :=
  match i ← find_sub subs r; s ← subs !! i; Some (i, s) with
  | Some (i, s) =>
      if nbool (sclients s) cid then (subs, false)
      else (<[i := Sub (ri s) (nbool_set (sclients s) cid)]> subs, true)
  | None => (qsort subcmp (ARR_ADD subs (Sub r (nbool_set None cid))), true)
  end.

(** The clients of an entry without one; the entry goes with the last of them. *)
Definition clear_sub (subs : list subscription) (i : nat) (s : subscription) (cid : Z) : list subscription :=
  match nbool_clear (sclients s) cid with
  | None => ARR_DEL subs i
  | c => <[i := Sub (ri s) c]> subs
  end.

Definition unsubscribe (subs : list subscription) (r : cstr) (cid : Z) : list subscription * bool :=
  match i ← find_sub subs r; s ← subs !! i; Some (i, s) with
  | Some (i, s) =>
      if nbool (sclients s) cid then (clear_sub subs i s cid, true) else (subs, false)
  | None => (subs, false)
  end.

(** One round of the loop over the index. *)
Definition unsubscribe_step (cid : Z) (st : nat * list subscription) :
    nat * list subscription + list subscription :=
  let '(i, subs) := st in
  match subs !! i with
  | None => inr subs
  | Some s =>
      inl (if nbool_clear (sclients s) cid then S i else i, clear_sub subs i s cid)
  end.

Definition unsubscribe_all (subs : list subscription) (cid : Z) : list subscription :=
  match cloop (unsubscribe_step cid) 64 (0%nat, subs) with inr r => r | inl (_, subs) => subs end.

(** ** What it represents *)

(** Everything is kept sorted, and without entries of nobody. *)
Definition subs_wf (subs : list subscription) : Prop :=
  keyed ri subs ∧ Forall (λ s, nbool_wf (sclients s) ∧ sclients s ≠ None) subs ∧
  Z.of_nat (length subs) < 2 ^ 63.

Definition wants (subs : list subscription) (r : cstr) (cid : Z) : Prop :=
  ∃ s, s ∈ subs ∧ ri s = r ∧ cid ∈ nset (sclients s).

(** ** Lemmas *)

Lemma find_sub_spec subs r :
  subs_wf subs → wf_cstr r →
  match i ← find_sub subs r; s ← subs !! i; Some (i, s) with
  | Some (i, s) => subs !! i = Some s ∧ ri s = r
  | None => ∀ s, s ∈ subs → ri s ≠ r
  end.
Proof.
  intros (Hk & _ & Hlen) Hr. pose proof (keyed_bsearch ri subs r Hr Hk ltac:(lia)) as H.
  unfold find_sub, subcmp. cbn [ri]. destruct (bsearch _ subs) as [i|]; simpl; [|done].
  destruct H as (s & Hs & ?). by rewrite Hs.
Qed.

Lemma wants_insert subs i s s' r c :
  keyed ri subs → subs !! i = Some s → ri s' = ri s →
  wants (<[i := s']> subs) r c ↔
  if decide (r = ri s) then c ∈ nset (sclients s') else wants subs r c.
Proof.
  intros Hk Hi Er. pose proof (lookup_lt_Some _ _ _ Hi) as Hlt. split.
  - intros (x & (j & Hj)%list_elem_of_lookup_1 & <- & Hc).
    destruct (decide (i = j)) as [<-|Hne].
    + rewrite list_lookup_insert_eq in Hj by done. simplify_eq. by rewrite decide_True.
    + rewrite list_lookup_insert_ne in Hj by done. destruct (decide (ri x = ri s)) as [E|].
      * destruct Hne. by eapply (keyed_inj ri subs i j s x).
      * exists x. split; [by eapply list_elem_of_lookup_2|done].
  - destruct (decide (r = ri s)) as [->|Hne].
    + intros Hc. exists s'. split; [by eapply list_elem_of_lookup_2, list_lookup_insert_eq|done].
    + intros (x & (j & Hj)%list_elem_of_lookup_1 & <- & Hc). exists x. split; [|done].
      eapply list_elem_of_lookup_2. rewrite list_lookup_insert_ne; [exact Hj|]. intros <-. congruence.
Qed.

Lemma wants_delete subs i s r c :
  keyed ri subs → subs !! i = Some s → wants (ARR_DEL subs i) r c ↔ r ≠ ri s ∧ wants subs r c.
Proof.
  intros Hk Hi. unfold wants. setoid_rewrite (keyed_del ri subs i s _ Hk Hi). naive_solver.
Qed.

Lemma wants_at subs i s c :
  keyed ri subs → subs !! i = Some s → wants subs (ri s) c ↔ c ∈ nset (sclients s).
Proof.
  intros Hk Hi. split.
  - intros (x & (j & Hj)%list_elem_of_lookup_1 & E & Hc).
    assert (i = j) as <- by (by eapply (keyed_inj ri subs i j s x)). by simplify_eq.
  - intros Hc. exists s. split; [by eapply list_elem_of_lookup_2|done].
Qed.

Lemma subs_wf_lookup subs i s :
  subs_wf subs → subs !! i = Some s → nbool_wf (sclients s) ∧ sclients s ≠ None.
Proof. intros (_ & H & _). rewrite Forall_lookup in H. apply H. Qed.

Lemma clear_sub_spec subs i s cid :
  subs_wf subs → subs !! i = Some s → 0 ≤ cid →
  subs_wf (clear_sub subs i s cid) ∧
  ∀ r c, wants (clear_sub subs i s cid) r c ↔ wants subs r c ∧ ¬ (r = ri s ∧ c = cid).
Proof.
  intros Hwf Hi Hc. pose proof (subs_wf_lookup _ _ _ Hwf Hi) as [Hn _]. destruct Hwf as (Hk & Hf & Hlen).
  pose proof (nset_clear (sclients s) cid Hc) as Hcl. pose proof (nbool_clear_wf (sclients s) cid Hn) as Hcw.
  unfold clear_sub. destruct (nbool_clear (sclients s) cid) as [vals|] eqn:E.
  - split.
    + split_and!; [by eapply keyed_update|by apply Forall_insert|by rewrite length_insert].
    + intros r c. rewrite (wants_insert _ _ s) by done. cbn [sclients]. destruct (decide (r = ri s)) as [->|].
      * rewrite (wants_at _ i) by done. rewrite Hcl, elem_of_difference, elem_of_singleton. naive_solver.
      * naive_solver.
  - assert (nset (sclients s) ∖ {[cid]} = ∅) as He by (rewrite <-Hcl; by apply nset_empty).
    split.
    + split_and!; [by apply keyed_delete|by apply Forall_delete|].
      unfold ARR_DEL. rewrite length_delete by (by eexists). lia.
    + intros r c. rewrite wants_delete by done. split.
      * intros [Hne Hw]. split; [done|]. naive_solver.
      * intros [Hw Hne]. split; [|done]. intros ->. apply Hne. split; [done|].
        apply (wants_at subs i s) in Hw; [|done..].
        destruct (decide (c = cid)) as [|Hcc]; [done|]. exfalso.
        assert (c ∈ nset (sclients s) ∖ {[cid]}) as Hin by (apply elem_of_difference; split; [done|by rewrite elem_of_singleton]).
        rewrite He in Hin. by apply not_elem_of_empty in Hin.
Qed.

Lemma subscribe_spec subs r cid :
  subs_wf subs → wf_cstr r → 0 ≤ cid → Z.of_nat (length subs) < 2 ^ 62 →
  let '(subs', ok) := subscribe subs r cid in
  subs_wf subs' ∧ (ok = true ↔ ¬ wants subs r cid) ∧
  ∀ r' c, wants subs' r' c ↔ wants subs r' c ∨ r' = r ∧ c = cid.
Proof.
  intros Hwf Hr Hc Hlen. pose proof (find_sub_spec subs r Hwf Hr) as Hfind. unfold subscribe.
  destruct (i ← find_sub subs r; s ← subs !! i; Some (i, s)) as [[i s]|].
  - destruct Hfind as [Hi <-]. pose proof (subs_wf_lookup _ _ _ Hwf Hi) as [Hn _]. pose proof Hwf as (Hk & Hf & _).
    pose proof (wants_at subs i s cid Hk Hi) as Hat. pose proof (elem_of_nset (sclients s) cid) as Hel.
    destruct (nbool (sclients s) cid) eqn:E.
    + split; [done|]. split; [rewrite Hat, Hel; naive_solver|]. intros r' c. split; [by left|].
      intros [?|[-> ->]]; [done|]. by apply Hat, Hel.
    + split; [|split; [rewrite Hat, Hel; naive_solver|]].
      * split_and!; [by eapply keyed_update| |rewrite length_insert; lia].
        apply Forall_insert; [done|]. cbn [sclients]. split; [by apply nbool_set_wf|].
        intros H. apply nset_empty in H; [|by apply nbool_set_wf]. rewrite nset_set in H by done.
        apply (non_empty_union_L {[cid]} (nset (sclients s))); [left|done]. apply non_empty_singleton_L.
      * intros r' c. rewrite (wants_insert _ _ s) by done. cbn [sclients].
        destruct (decide (r' = ri s)) as [->|]; [|naive_solver].
        rewrite (wants_at _ i) by done. rewrite nset_set, elem_of_union, elem_of_singleton by done. naive_solver.
  - pose proof Hwf as (Hk & Hf & _). set (s := Sub r (nbool_set None cid)).
    assert (nset (sclients s) = {[cid]}) as Hs.
    { unfold s. cbn [sclients]. rewrite nset_set by done.
      rewrite (proj1 (nset_empty None I) eq_refl). apply union_empty_r_L. }
    assert (qsort subcmp (ARR_ADD subs s) ≡ₚ subs ++ [s]) as Hp by apply qsort_permutation.
    split; [|split].
    + split_and!; [by apply (keyed_qsort ri)| |].
      * rewrite Hp. apply Forall_app. split; [done|]. apply Forall_singleton. split; [by apply (nbool_set_wf None)|].
        intros H. assert (nset (sclients s) = ∅) as He by (by rewrite H). rewrite Hs in He.
        by apply non_empty_singleton_L in He.
      * rewrite Hp, length_app. simpl. lia.
    + split; [|done]. intros _ (x & Hx & E & _). by apply (Hfind x).
    + intros r' c. unfold wants. setoid_rewrite Hp. setoid_rewrite elem_of_app. setoid_rewrite list_elem_of_singleton.
      split.
      * intros (x & [Hx| ->] & <- & Hx'); [left; by exists x|]. right. rewrite Hs, elem_of_singleton in Hx'. done.
      * intros [(x & ? & ? & ?)|[-> ->]]; [exists x; by auto|]. exists s. rewrite Hs, elem_of_singleton. auto.
Qed.

Lemma unsubscribe_spec subs r cid :
  subs_wf subs → wf_cstr r → 0 ≤ cid →
  let '(subs', ok) := unsubscribe subs r cid in
  subs_wf subs' ∧ (ok = true ↔ wants subs r cid) ∧
  ∀ r' c, wants subs' r' c ↔ wants subs r' c ∧ ¬ (r' = r ∧ c = cid).
Proof.
  intros Hwf Hr Hc. pose proof (find_sub_spec subs r Hwf Hr) as Hfind. unfold unsubscribe.
  destruct (i ← find_sub subs r; s ← subs !! i; Some (i, s)) as [[i s]|].
  - destruct Hfind as [Hi <-]. pose proof Hwf as (Hk & Hf & _).
    pose proof (wants_at subs i s cid Hk Hi) as Hat. pose proof (elem_of_nset (sclients s) cid) as Hel.
    destruct (nbool (sclients s) cid) eqn:E.
    + destruct (clear_sub_spec subs i s cid Hwf Hi Hc) as [Hw Hwants]. split; [done|]. split; [|done].
      rewrite Hat, Hel. naive_solver.
    + split; [done|]. split; [rewrite Hat, Hel; naive_solver|]. intros r' c. split; [|naive_solver].
      intros Hw. split; [done|]. intros [-> ->]. apply Hat, Hel in Hw. naive_solver.
  - split; [done|]. split; [split; [done|]|].
    + intros (x & Hx & E & _). by destruct (Hfind x).
    + intros r' c. split; [|naive_solver]. intros Hw. split; [done|]. intros [-> ->].
      destruct Hw as (x & Hx & E & _). by destruct (Hfind x).
Qed.

(** What holds of the array when the loop is at index [i]. *)
Definition leaving (subs : list subscription) (cid : Z) (i : nat) (subs' : list subscription) : Prop :=
  subs_wf subs' ∧ (∀ r c, wants subs' r c → wants subs r c) ∧
  (∀ r c, c ≠ cid → wants subs r c → wants subs' r c) ∧
  (∀ j s, (j < i)%nat → subs' !! j = Some s → cid ∉ nset (sclients s)).

Lemma unsubscribe_round subs cid i subs' s :
  0 ≤ cid → leaving subs cid i subs' → subs' !! i = Some s →
  leaving subs cid (if nbool_clear (sclients s) cid then S i else i) (clear_sub subs' i s cid) ∧
  (length (clear_sub subs' i s cid) - (if nbool_clear (sclients s) cid then S i else i) <
   length subs' - i)%nat.
Proof.
  intros Hc (Hwf & Hback & Hkeep & Hdone) Hi.
  destruct (clear_sub_spec subs' i s cid Hwf Hi Hc) as [Hw Hwants].
  pose proof (lookup_lt_Some _ _ _ Hi) as Hlt. pose proof (nset_clear (sclients s) cid Hc) as Hcl.
  split; [split_and!; [done|intros r c Hr; apply Hback; by apply Hwants| |]|].
  - intros r c Hne Hr. apply Hwants. split; [by apply Hkeep|]. naive_solver.
  - unfold clear_sub, ARR_DEL. intros j x. destruct (nbool_clear (sclients s) cid) as [vals|].
    + intros Hj Hx. destruct (decide (j = i)) as [->|].
      * rewrite list_lookup_insert_eq in Hx by done. simplify_eq. cbn [sclients]. rewrite Hcl.
        intros [_ H]%elem_of_difference. by rewrite elem_of_singleton in H.
      * rewrite list_lookup_insert_ne in Hx by done. apply (Hdone j); [lia|done].
    + intros Hj Hx. rewrite delete_take_drop, lookup_app_l in Hx by (rewrite length_take; lia).
      apply lookup_take_Some in Hx as [Hx _]. by apply (Hdone j).
  - unfold clear_sub, ARR_DEL. destruct (nbool_clear (sclients s) cid).
    + rewrite length_insert. lia.
    + rewrite length_delete by (by eexists). lia.
Qed.

Lemma unsubscribe_all_spec subs cid :
  subs_wf subs → 0 ≤ cid →
  subs_wf (unsubscribe_all subs cid) ∧
  ∀ r c, wants (unsubscribe_all subs cid) r c ↔ wants subs r c ∧ c ≠ cid.
Proof.
  intros Hwf Hc.
  assert (∀ i subs', leaving subs cid i subs' → ∃ k r, (k ≤ length subs' - i + 1)%nat ∧
    steps (unsubscribe_step cid) k (i, subs') (inr r) ∧ leaving subs cid (length r) r) as Hloop.
  { intros i subs'. remember (length subs' - i)%nat as n eqn:En. revert i subs' En.
    induction (lt_wf n) as [n _ IH]. intros i subs' En Hl. destruct (subs' !! i) as [s|] eqn:Hi.
    - destruct (unsubscribe_round subs cid i subs' s Hc Hl Hi) as [Hl' Hlt].
      destruct (IH _ ltac:(rewrite En; exact Hlt) _ _ eq_refl Hl') as (k & r & Hk & Hs & Hr).
      exists (S k), r. split; [lia|]. split; [|done]. eapply steps_next; [|exact Hs].
      unfold unsubscribe_step. by rewrite Hi.
    - exists 1%nat, subs'. split; [lia|]. split; [apply steps_stop; unfold unsubscribe_step; by rewrite Hi|].
      destruct Hl as (Hw & Hb & Hk & Hd). split_and!; [done..|]. intros j s _ Hj. apply (Hd j); [|done].
      apply lookup_ge_None in Hi. apply lookup_lt_Some in Hj. lia. }
  destruct (Hloop 0%nat subs) as (k & r & Hk & Hs & Hw & Hb & Hkeep & Hd).
  { split_and!; [done|auto|auto|lia]. }
  destruct Hwf as (Hkd & Hf & Hlen). unfold unsubscribe_all. rewrite (cloop_run _ 64 k _ _ Hs) by lia.
  split; [done|]. intros r' c. split; [|by intros [? ?]; apply Hkeep]. intros Hr. split; [by apply Hb|].
  intros ->. destruct Hr as (s & (j & Hj)%list_elem_of_lookup_1 & _ & Hin).
  apply (Hd j s); [by eapply lookup_lt_Some|done..].
Qed.

Lemma subscription_ri_spec subs r :
  subs_wf subs → wf_cstr r →
  subscription_ri subs r = Some r ∧ (∃ c, wants subs r c) ∨
  subscription_ri subs r = None ∧ ∀ c, ¬ wants subs r c.
Proof.
  intros Hwf Hr. pose proof (find_sub_spec subs r Hwf Hr) as Hfind. unfold subscription_ri.
  destruct (find_sub subs r) as [i|]; simpl in *.
  - destruct (subs !! i) as [s|] eqn:Hi; simpl in *.
    + left. destruct Hfind as [_ <-]. split; [done|]. destruct (subs_wf_lookup _ _ _ Hwf Hi) as [Hw Hne].
      destruct (set_choose_or_empty (nset (sclients s))) as [[c Hc]|He].
      * exists c, s. split; [by eapply list_elem_of_lookup_2|done].
      * destruct Hne. apply nset_empty; [done|]. by apply leibniz_equiv.
    + right. split; [done|]. intros c (x & Hx & E & _). by apply (Hfind x).
  - right. split; [done|]. intros c (x & Hx & E & _). by apply (Hfind x).
Qed.

Lemma subscribe_length subs r cid : (length (subscribe subs r cid).1 ≤ S (length subs))%nat.
Proof.
  unfold subscribe. destruct (i ← _; _) as [[i s]|]; [destruct (nbool _ _)|]; simpl; rewrite ?length_insert; [lia|lia|].
  rewrite (qsort_permutation subcmp). unfold ARR_ADD. rewrite length_app. simpl. lia.
Qed.

(** ** Properties *)

(** C22: the array of subscriptions implements the set of pairs of an identifier and a
    client.  Subscribing adds the pair and says whether it is new, unsubscribing
    takes it away and says whether it was there, a client that leaves takes all of
    its own and nobody else's; the array stays sorted, and has no entries without
    clients. *)
Theorem subscriptions_refine_set subs r cid :
  subs_wf subs → wf_cstr r → 0 ≤ cid → Z.of_nat (length subs) < 2 ^ 62 →
  (let '(subs', ok) := subscribe subs r cid in
   subs_wf subs' ∧ (ok = true ↔ ¬ wants subs r cid) ∧
   ∀ r' c, wants subs' r' c ↔ wants subs r' c ∨ r' = r ∧ c = cid) ∧
  (let '(subs', ok) := unsubscribe subs r cid in
   subs_wf subs' ∧ (ok = true ↔ wants subs r cid) ∧
   ∀ r' c, wants subs' r' c ↔ wants subs r' c ∧ ¬ (r' = r ∧ c = cid)) ∧
  (subs_wf (unsubscribe_all subs cid) ∧
   ∀ r' c, wants (unsubscribe_all subs cid) r' c ↔ wants subs r' c ∧ c ≠ cid) ∧
  (subscription_ri subs r = Some r ∧ (∃ c, wants subs r c) ∨
   subscription_ri subs r = None ∧ ∀ c, ¬ wants subs r c).
Proof.
  intros Hwf Hr Hc Hlen. split_and!.
  - by apply subscribe_spec.
  - by apply unsubscribe_spec.
  - by apply unsubscribe_all_spec.
  - by apply unsubscribe_all_spec.
  - by apply subscription_ri_spec.
Qed.

Lemma subscriptions_refine_set_witness :
  let subs := [Sub (str "**:*:*") (Some [5]); Sub (str "test/**:*:chng") (Some [2])] in
  let '(subs', ok) := subscribe subs (str "**:*:lsmod") 4 in
  ok = true ∧ length subs' = 3%nat ∧ wants subs' (str "**:*:lsmod") 4 ∧ wants subs' (str "**:*:*") 2.
Proof.
  intros subs. assert (subs_wf subs) as Hwf.
  { split_and!; [split|..].
    - by_evaluation.
    - repeat constructor; by vm_compute.
    - repeat constructor; try done; try (by_evaluation). 1-2: eexists; split; [done|lia].
    - done. }
  destruct (subscriptions_refine_set subs (str "**:*:lsmod") 4 Hwf) as [Hs _]; [by_evaluation|lia|done|].
  assert (∀ c, wants subs (str "**:*:*") c ↔ c ∈ nset (Some [5])) as Hw.
  { intros c. destruct Hwf as [Hk _]. by apply (wants_at subs 0 (Sub (str "**:*:*") (Some [5]))). }
  destruct (subscribe subs (str "**:*:lsmod") 4) as [subs' ok] eqn:E. destruct Hs as (_ & _ & Hs).
  assert (ok = true ∧ length subs' = 3%nat) as [-> ->].
  { assert ((subscribe subs (str "**:*:lsmod") 4).2 = true ∧
      length (subscribe subs (str "**:*:lsmod") 4).1 = 3%nat) as H by (by vm_compute). by rewrite E in H. }
  split_and!; [done|done|apply Hs; by right|]. apply Hs. left. apply Hw. by apply elem_of_nset.
Defined.
