(* ===== verification/Mount.v ===== *)
(** * Mount points of the broker ([libshvbroker/mount.c], [libshvbroker/broker.h])

    The array of mount points, sorted by the path, and the search for the client a
    path belongs to. *)

From stdpp Require Import sorting.
From S2P Require Import Prelude Stdio CponSpec Arr Rpcri.

(** ** Definitions *)

Record mount : Type := Mount { mpath : cstr; mcid : Z }.

Definition mntcmp (a b : mount) : Z := strcmp (mpath a) (mpath b).

Definition is_path_prefix (path prefix : cstr) : bool :=
  let len := strlen prefix in
  if len =? 0 then true
  else
    (strncmp path prefix (length prefix) =? 0) && ((cget path len =? SLASH) || (cget path len =? 0)).

(** [strtol] with base ten: the number and where it ends.  Without digits nothing
    is taken. *)
Definition is_space (c : Z) : bool := (c =? 32) || ((9 <=? c) && (c <=? 13)).
Definition is_digit (c : Z) : bool := (48 <=? c) && (c <=? 57).

Fixpoint skip_spaces (s : cstr) : cstr :=
  match s with c :: s' => if is_space c then skip_spaces s' else s | [] => [] end.

Fixpoint digits (acc : Z) (s : cstr) : Z * cstr :=
  match s with
  | c :: s' => if is_digit c then digits (10 * acc + (c - 48)) s' else (acc, s)
  | [] => (acc, [])
  end.

Definition strtol (s : cstr) : Z * cstr :=
  let s1 := skip_spaces s in
  let '(neg, s2) :=
    match s1 with
    | c :: s' => if c =? 45 then (true, s') else if c =? 43 then (false, s') else (false, s1)
    | [] => (false, s1)
    end in
  match s2 with
  | c :: _ =>
      if is_digit c then
        let '(v, e) := digits 0 s2 in
        (Z.max (- 2 ^ 63) (Z.min (2 ^ 63 - 1) (if neg : bool then - v else v)), e)
      else (0, s)
  | [] => (0, s)
  end.

(** [broker->clients[i]] of a search: the client and the rest of the path, nobody, or
    a read of memory that is not there. *)
Inductive found := Found (cid : Z) (rpath : cstr) | NotFound | OutOfBounds.

Definition clientmnt : cstr := str ".broker/client/".

(** One round of the search between [l] and [u], both inclusive. *)
Definition mount_step (mounts : list mount) (path : cstr) (s : Z * Z) : Z * Z + found :=
  let '(l, u) := s in
  if l <=? u then
    let p := (u + l) / 2 in
    match mounts !! Z.to_nat p with
    | None => inr OutOfBounds
    | Some m =>
        let mnt := mpath m in
        let r := strncmp path mnt (length mnt) in
        if (r =? 0) && is_path_prefix path mnt then
          let mntlen := strlen mnt in
          inr (Found (mcid m) (drop (Z.to_nat (mntlen + (if cget path mntlen =? SLASH then 1 else 0))) path))
        else if r <? 0 then inl (l, p - 1)
        else inl (p + 1, u)
    end
  else inr NotFound.

Definition search_mounts (mounts : list mount) (path : cstr) : found :=
  match cloop (mount_step mounts path) 64 (0, Z.of_nat (length mounts) - 1) with
  | inr r => r
  | inl _ => NotFound
  end.

(** [active] is [cid_active], which takes an [int] and cannot be asked about a client
    that was freed; [siz] is the size of the array. *)
Definition mounted_client (mounts : list mount) (active : Z → option bool) (siz : Z) (path : cstr) : found :=
  if strncmp path clientmnt (length clientmnt) =? 0 then
    let '(cid, e) := strtol (drop (length clientmnt) path) in
    if negb (cget e 0 =? SLASH) && negb (cget e 0 =? 0) then NotFound
    else
      match active (i32 cid) with
      | None => OutOfBounds
      | Some false => NotFound
      | Some true =>
          if (0 <=? cid) && (cid <? siz) then Found cid (if cget e 0 =? 0 then e else drop 1 e)
          else OutOfBounds
      end
  else if Z.of_nat (length mounts) =? 0 then NotFound
  else search_mounts mounts path.

(** The checks of [mount_register]: [None] is a read outside of the array. *)
Definition mount_allowed (mounts : list mount) (active : Z → option bool) (siz : Z) (path : cstr) : option bool :=
  if existsb (λ m, is_path_prefix (mpath m) path) mounts then Some false
  else
    match mounted_client mounts active siz path with
    | Found _ _ => Some false
    | NotFound => Some true
    | OutOfBounds => None
    end.

Definition add_mount (mounts : list mount) (m : mount) : list mount := qsort mntcmp (ARR_ADD mounts m).

(** [None] when there is no such mount point. *)
Definition del_mount (mounts : list mount) (path : cstr) : option (list mount) :=
  ARR_DEL mounts <$> bsearch (mntcmp (Mount path 0)) mounts.

(** ** What it means *)

(** The path is the mount point or below it. *)
Definition below (path mnt : cstr) : Prop := path = mnt ∨ ∃ rest, path = mnt ++ SLASH :: rest.

(** The path as the client sees it. *)
Definition relative (path mnt : cstr) : cstr := drop (length mnt + 1) path.

(** The extensions of a mount point sort behind everything below it. *)
Definition apart (mnt other : cstr) : Prop := ∀ c rest, other = mnt ++ c :: rest → SLASH < c.

(** Sorted, not empty, and no mount point below another one. *)
Definition mounts_wf (mounts : list mount) : Prop :=
  keyed mpath mounts ∧ Z.of_nat (length mounts) < 2 ^ 62 ∧ Forall (λ m, mpath m ≠ []) mounts ∧
  ∀ m m', m ∈ mounts → m' ∈ mounts → below (mpath m) (mpath m') → m = m'.

Definition mounts_apart (mounts : list mount) : Prop :=
  ∀ m m', m ∈ mounts → m' ∈ mounts → apart (mpath m) (mpath m').

(** ** Lemmas *)

Lemma strcmp_app_same p a b : strcmp (p ++ a) (p ++ b) = strcmp a b.
Proof. induction p as [|x p IH]; simpl; [done|]. by rewrite Z.eqb_refl. Qed.

Lemma strncmp_app_same p a b n : strncmp (p ++ a) (p ++ b) (length p + n) = strncmp a b n.
Proof. induction p as [|x p IH]; simpl; [done|]. by rewrite Z.eqb_refl. Qed.

Lemma strncmp_prefix a b :
  wf_cstr a → wf_cstr b → strncmp a b (length b) = 0 ↔ ∃ r, a = b ++ r.
Proof.
  intros Ha Hb. revert a Ha. induction Hb as [|y b Hy Hb IH]; intros a Ha; simpl.
  - split; [|by destruct a]. intros _. by exists a.
  - destruct Ha as [|x a Hx Ha]; simpl; [split; [intros ?; exfalso; lia|by intros [r ?]]|].
    destruct (Z.eqb_spec x y) as [->|Hne].
    + rewrite IH by done. split; intros [r E]; exists r; simpl in *; congruence.
    + split; [intros ?; exfalso; lia|]. intros [r E]. simpl in E. congruence.
Qed.

(** A string before another one is its beginning or has a smaller character first. *)
Lemma strcmp_less a b :
  wf_cstr a → wf_cstr b → strcmp a b < 0 →
  (∃ c r, b = a ++ c :: r) ∨ ∃ p x y a' b', a = p ++ x :: a' ∧ b = p ++ y :: b' ∧ x < y.
Proof.
  intros Ha. revert b. induction Ha as [|x a Hx Ha IH]; intros b Hb; destruct Hb as [|y b Hy Hb]; simpl;
    [lia|by left; exists y, b|lia|].
  destruct (Z.eqb_spec x y) as [->|Hne].
  - intros [(c & r & ->)|(p & x' & y' & a' & b' & -> & -> & Hlt)]%IH; [left; by exists c, r| |done].
    right. by exists (y :: p), x', y', a', b'.
  - intros Hlt. right. exists [], x, y, a, b. split_and!; [done..|lia].
Qed.

Lemma strncmp_diff p x y a b n : x < y → (length p < n)%nat → strncmp (p ++ x :: a) (p ++ y :: b) n < 0.
Proof.
  intros Hxy Hn. replace n with (length p + S (n - S (length p)))%nat by lia. rewrite strncmp_app_same. simpl.
  rewrite (proj2 (Z.eqb_neq x y)) by lia. lia.
Qed.

Lemma strncmp_short p y b n : 0 < y → (length p < n)%nat → strncmp p (p ++ y :: b) n < 0.
Proof.
  intros Hy Hn. replace n with (length p + S (n - S (length p)))%nat by lia.
  rewrite <-(app_nil_r p) at 1. rewrite strncmp_app_same. simpl. lia.
Qed.

Lemma is_path_prefix_spec path mnt :
  wf_cstr path → wf_cstr mnt → is_path_prefix path mnt = true ↔ mnt = [] ∨ below path mnt.
Proof.
  intros Hp Hm. unfold is_path_prefix, strlen, below. destruct mnt as [|x m] eqn:E; [split; [by left|done]|].
  rewrite <-E in *. assert (mnt ≠ []) by (by subst). rewrite (proj2 (Z.eqb_neq _ _)) by (subst; simpl; lia).
  rewrite andb_true_iff, orb_true_iff, !Z.eqb_eq, strncmp_prefix by done. unfold cget. rewrite Nat2Z.id. split.
  - intros [[r ->] Hc]. right. rewrite lookup_app_r, Nat.sub_diag in Hc by done.
    destruct r as [|c r]; [left; by rewrite app_nil_r|]. simpl in Hc. destruct Hc as [->| ->]; [right; by exists r|].
    apply Forall_app in Hp as [_ [? _]%Forall_cons]. lia.
  - intros [?|[->|[r ->]]]; [done| |].
    + split; [exists []; by rewrite app_nil_r|]. right. by rewrite lookup_ge_None_2.
    + split; [by eexists|]. left. by rewrite lookup_app_r, Nat.sub_diag.
Qed.

Lemma below_app path mnt : below path mnt → ∃ r, path = mnt ++ r.
Proof. intros [->|[r ->]]; [exists []; by rewrite app_nil_r|by eexists]. Qed.

(** A path before a mount point is below none that sorts behind. *)
Lemma search_left path m t :
  wf_cstr path → wf_cstr m → wf_cstr t → strncmp path m (length m) < 0 → below path t → strcmp t m < 0.
Proof.
  intros Hp Hm Ht Hr [r ->]%below_app. destruct (Z.lt_ge_cases (strcmp t m) 0) as [|Hge]; [done|exfalso].
  assert (∀ q, t ≠ m ++ q) as Hpre.
  { intros q ->. assert (strncmp ((m ++ q) ++ r) m (length m) = 0); [|lia].
    apply strncmp_prefix; [done..|]. exists (q ++ r). by rewrite app_assoc. }
  assert (strcmp m t < 0) as Hlt.
  { rewrite strcmp_opp. enough (strcmp t m ≠ 0) by lia. intros E. apply strcmp_eq in E; [|done..].
    apply (Hpre []). by rewrite app_nil_r. }
  destruct (strcmp_less m t Hm Ht Hlt) as [(c & q & E)|(p & x & y & m' & t' & -> & -> & Hxy)];
    [by eapply Hpre|].
  rewrite <-app_assoc, length_app in Hr. rewrite strncmp_app_same in Hr. simpl in Hr.
  rewrite (proj2 (Z.eqb_neq y x)) in Hr by lia. lia.
Qed.

(** A path not before a mount point is below none that sorts before it. *)
Lemma search_right path m t :
  wf_cstr path → wf_cstr m → wf_cstr t → 0 ≤ strncmp path m (length m) → below path t →
  ¬ below m t → apart t m → ¬ strcmp t m < 0.
Proof.
  intros Hp Hm Ht Hr Hb Hnb Ha Hlt.
  destruct (strcmp_less t m Ht Hm Hlt) as [(c & q & ->)|(p & x & y & t' & m' & -> & -> & Hxy)].
  - apply Forall_app in Hm as [_ [Hc _]%Forall_cons]. destruct Hb as [->|[r ->]].
    + pose proof (strncmp_short t c q (length (t ++ c :: q))) as H. rewrite length_app in *. simpl in *. lia.
    + pose proof (Ha c q eq_refl) as Hs.
      pose proof (strncmp_diff t SLASH c r q (length (t ++ c :: q)) Hs) as H. rewrite length_app in *. simpl in *. lia.
  - apply below_app in Hb as [r ->]. rewrite <-app_assoc in Hr. simpl in Hr.
    pose proof (strncmp_diff p x y (t' ++ r) m' (length (p ++ y :: m')) Hxy) as H. rewrite length_app in *. simpl in *. lia.
Qed.

Lemma below_both path m t : below path m → below path t → below m t ∨ below t m.
Proof.
  intros [->|[r ->]] [E|[q E]]; unfold below.
  - by left; left.
  - left. right. by exists q.
  - right. right. by exists r.
  - apply app_eq_inv in E as [(k & -> & E)|(k & -> & E)]; destruct k as [|c k]; simplify_eq/=.
    + left. left. by rewrite app_nil_r.
    + left. right. by exists k.
    + left. left. by rewrite app_nil_r.
    + right. right. by exists k.
Qed.

Lemma relative_eq path mnt :
  wf_cstr path → below path mnt →
  drop (Z.to_nat (strlen mnt + (if cget path (strlen mnt) =? SLASH then 1 else 0))) path = relative path mnt.
Proof.
  intros Hp Hb. unfold relative, strlen, cget. rewrite Nat2Z.id. destruct Hb as [->|[r ->]].
  - rewrite lookup_ge_None_2 by done. simpl. rewrite !drop_ge; [done|lia|lia].
  - rewrite lookup_app_r, Nat.sub_diag by done. cbn [lookup list_lookup default from_option id]. f_equal.
    rewrite Z.eqb_refl. lia.
Qed.

Section search.
Context (mounts : list mount) (path : cstr).
Context (Hne : Forall (λ m, mpath m ≠ []) mounts) (Hmw : Forall (λ m, wf_cstr (mpath m)) mounts).
Context (Hlen : Z.of_nat (length mounts) < 2 ^ 62) (Hpath : wf_cstr path).

Lemma mount_wf_at i m : mounts !! i = Some m → wf_cstr (mpath m) ∧ mpath m ≠ [].
Proof. intros Hi. rewrite Forall_lookup in Hne, Hmw. split; [by eapply Hmw|by eapply Hne]. Qed.

(** A round of the search narrows the range where it does not end. *)
Definition narrows (range : Z → Z → Prop) : Prop :=
  (∀ l u, range l u → 0 ≤ l ∧ l ≤ u + 1 ≤ Z.of_nat (length mounts)) ∧
  ∀ l u m, range l u → l ≤ u → mounts !! Z.to_nat ((u + l) / 2) = Some m → ¬ below path (mpath m) →
    let r := strncmp path (mpath m) (length (mpath m)) in
    (r < 0 → range l ((u + l) / 2 - 1)) ∧ (0 ≤ r → range ((u + l) / 2 + 1) u).

(** What is found is a mount point of the path; nothing is found in an empty range. *)
Definition mount_result (range : Z → Z → Prop) (r : found) : Prop :=
  match r with
  | Found cid rpath => ∃ m, m ∈ mounts ∧ below path (mpath m) ∧ cid = mcid m ∧ rpath = relative path (mpath m)
  | NotFound => ∃ l u, range l u ∧ u < l
  | OutOfBounds => False
  end.

Lemma mount_steps range l u :
  narrows range → range l u →
  ∃ k r, Z.of_nat k ≤ u - l + 2 ∧ steps (mount_step mounts path) k (l, u) (inr r) ∧ mount_result range r.
Proof.
  intros [Hbound Hnarrow]. remember (Z.to_nat (u - l + 1)) as n eqn:En. revert l u En.
  induction (lt_wf n) as [n _ IH]. intros l u En Hr. destruct (Hbound l u Hr) as [Hl Hlu].
  destruct (Z.leb_spec l u) as [Hle|Hgt].
  2:{ exists 1%nat, NotFound. split; [lia|]. split; [|by exists l, u].
      apply steps_stop. unfold mount_step. by rewrite (proj2 (Z.leb_gt _ _)). }
  set (p := (u + l) / 2).
  assert (l ≤ p ≤ u) as Hp by (split; [apply Z.div_le_lower_bound|apply Z.div_le_upper_bound]; lia).
  destruct (lookup_lt_is_Some_2 mounts (Z.to_nat p)) as [m Hm]; [lia|].
  destruct (mount_wf_at _ _ Hm) as [Hw Hn]. set (r := strncmp path (mpath m) (length (mpath m))).
  assert ((r =? 0) && is_path_prefix path (mpath m) = true ↔ below path (mpath m)) as Hhit.
  { rewrite andb_true_iff, is_path_prefix_spec, Z.eqb_eq by done. unfold r. rewrite strncmp_prefix by done.
    split; [by intros [_ [?|?]]|]. intros Hb. split; [by apply below_app|by right]. }
  destruct ((r =? 0) && is_path_prefix path (mpath m)) eqn:Eh.
  - exists 1%nat. eexists. split; [lia|]. split.
    + apply steps_stop. unfold mount_step. rewrite (proj2 (Z.leb_le _ _)) by done. fold p. rewrite Hm. cbv zeta. fold r.
      rewrite Eh. done.
    + exists m. split; [by eapply list_elem_of_lookup_2|]. split; [by apply Hhit|]. split; [done|].
      by apply relative_eq, Hhit.
  - destruct (Hnarrow l u m Hr Hle Hm) as [Hlo Hhi]; [by rewrite <-Hhit|].
    fold p r in Hlo, Hhi. destruct (Z.ltb_spec r 0).
    + destruct (IH (Z.to_nat (p - 1 - l + 1)) ltac:(lia) l (p - 1) eq_refl (Hlo ltac:(done))) as (k & res & Hk & Hs & Hres).
      exists (S k), res. split; [lia|]. split; [|done]. eapply steps_next; [|exact Hs].
      unfold mount_step. rewrite (proj2 (Z.leb_le _ _)) by done. fold p. rewrite Hm. cbv zeta. fold r. rewrite Eh.
      by rewrite (proj2 (Z.ltb_lt _ _)).
    + destruct (IH (Z.to_nat (u - (p + 1) + 1)) ltac:(lia) (p + 1) u eq_refl (Hhi ltac:(done))) as (k & res & Hk & Hs & Hres).
      exists (S k), res. split; [lia|]. split; [|done]. eapply steps_next; [|exact Hs].
      unfold mount_step. rewrite (proj2 (Z.leb_le _ _)) by done. fold p. rewrite Hm. cbv zeta. fold r. rewrite Eh.
      by rewrite (proj2 (Z.ltb_ge _ _)).
Qed.

Lemma search_mounts_spec range :
  narrows range → range 0 (Z.of_nat (length mounts) - 1) → mount_result range (search_mounts mounts path).
Proof.
  intros Hn Hr. destruct (mount_steps range 0 (Z.of_nat (length mounts) - 1) Hn Hr) as (k & r & Hk & Hs & Hres).
  unfold search_mounts. by rewrite (cloop_run _ 64 k _ _ Hs) by lia.
Qed.

(** In any array the search stays inside and finds only what the path is below of. *)
Lemma search_mounts_sound :
  match search_mounts mounts path with
  | Found cid rpath => ∃ m, m ∈ mounts ∧ below path (mpath m) ∧ cid = mcid m ∧ rpath = relative path (mpath m)
  | NotFound => True
  | OutOfBounds => False
  end.
Proof.
  assert (mount_result (λ l u, 0 ≤ l ∧ l ≤ u + 1 ≤ Z.of_nat (length mounts)) (search_mounts mounts path)) as H.
  { apply search_mounts_spec; [|lia]. split; [done|]. intros l u m Hr Hle _ _ r.
    assert (l ≤ (u + l) / 2 ≤ u) by (split; [apply Z.div_le_lower_bound|apply Z.div_le_upper_bound]; lia).
    split; intros; lia. }
  by destruct (search_mounts mounts path).
Qed.
End search.

Section complete.
Context (mounts : list mount) (path : cstr).
Context (Hwf : mounts_wf mounts) (Hapart : mounts_apart mounts) (Hpath : wf_cstr path).

(** The mount points the path can be below of are in the range. *)
Definition mount_range (l u : Z) : Prop :=
  0 ≤ l ∧ l ≤ u + 1 ≤ Z.of_nat (length mounts) ∧
  ∀ i m, mounts !! i = Some m → below path (mpath m) → l ≤ Z.of_nat i ≤ u.

Lemma mount_range_narrows : narrows mounts path mount_range.
Proof.
  pose proof Hwf as (Hk & _ & Hne & Hnest). pose proof (proj1 Hk) as Hmw0. split; [by intros l u (? & ? & _)|].
  intros l u m (Hl & Hlu & Hin) Hle Hm Hnb r. assert (l ≤ (u + l) / 2 ≤ u) as Hp by (split; [apply Z.div_le_lower_bound|apply Z.div_le_upper_bound]; lia).
  destruct (mount_wf_at mounts Hne Hmw0 _ _ Hm) as [Hmw _].
  split; intros Hr; (split_and!; [lia..|]); intros i t Hi Hb; specialize (Hin i t Hi Hb);
    destruct (mount_wf_at mounts Hne Hmw0 _ _ Hi) as [Htw _];
    destruct (Nat.lt_trichotomy i (Z.to_nat ((u + l) / 2))) as [Hlt|[->|Hgt]]; simplify_eq; try lia; try done.
  - pose proof (keyed_lookup mpath mounts _ _ _ _ Hk Hgt Hm Hi) as Ho. unfold by_key in Ho.
    pose proof (search_left path (mpath m) (mpath t) Hpath Hmw Htw Hr Hb) as Ho'.
    rewrite strcmp_opp in Ho. lia.
  - pose proof (keyed_lookup mpath mounts _ _ _ _ Hk Hlt Hi Hm) as Ho. unfold by_key in Ho. exfalso.
    apply (search_right path (mpath m) (mpath t)); [done..| | |done].
    + intros Hmt. assert (m = t) as -> by (apply Hnest; [by eapply list_elem_of_lookup_2..|done]).
      rewrite strcmp_refl in Ho. lia.
    + apply Hapart; by eapply list_elem_of_lookup_2.
Qed.


Lemma search_mounts_complete :
  match search_mounts mounts path with
  | Found cid rpath => ∃ m, m ∈ mounts ∧ below path (mpath m) ∧ cid = mcid m ∧ rpath = relative path (mpath m)
  | NotFound => ∀ m, m ∈ mounts → ¬ below path (mpath m)
  | OutOfBounds => False
  end.
Proof.
  pose proof Hwf as (Hk & Hlen & Hne & _).
  pose proof (search_mounts_spec mounts path Hne (proj1 Hk) Hlen Hpath mount_range mount_range_narrows) as H.
  destruct (search_mounts mounts path); [apply H| |apply H];
    try (split_and!; [lia|lia|lia|]; intros i m Hi _; apply lookup_lt_Some in Hi; lia).
  destruct H as (l & u & (_ & _ & Hin) & Hlt).
  { split_and!; [lia|lia|lia|]. intros i m Hi _. apply lookup_lt_Some in Hi. lia. }
  intros m [i Hi]%list_elem_of_lookup_1 Hb. specialize (Hin i m Hi Hb). lia.
Qed.
End complete.

(** Paths of the broker itself are never looked up among the mount points. *)
Definition outside (path : cstr) : Prop := strncmp path clientmnt (length clientmnt) ≠ 0.

Lemma mounted_client_search mounts active siz path :
  outside path → mounted_client mounts active siz path = search_mounts mounts path.
Proof.
  intros Ho. unfold mounted_client. rewrite (proj2 (Z.eqb_neq _ _)) by done.
  destruct (Z.eqb_spec (Z.of_nat (length mounts)) 0); [|done]. by destruct mounts; [|simpl in *; lia].
Qed.

Lemma mounted_client_outside mounts active siz path :
  mounts_wf mounts → mounts_apart mounts → wf_cstr path → outside path →
  match mounted_client mounts active siz path with
  | Found cid rpath => ∃ m, m ∈ mounts ∧ below path (mpath m) ∧ cid = mcid m ∧ rpath = relative path (mpath m)
  | NotFound => ∀ m, m ∈ mounts → ¬ below path (mpath m)
  | OutOfBounds => False
  end.
Proof.
  intros Hwf Ha Hp Ho. rewrite mounted_client_search by done. by apply search_mounts_complete.
Qed.

(** The client of a mount point gets what is below it. *)
Lemma mounted_client_at mounts active siz path m :
  mounts_wf mounts → mounts_apart mounts → wf_cstr path → outside path → m ∈ mounts → below path (mpath m) →
  mounted_client mounts active siz path = Found (mcid m) (relative path (mpath m)).
Proof.
  intros Hwf Ha Hp Ho Hm Hb. pose proof (mounted_client_outside mounts active siz path Hwf Ha Hp Ho) as H.
  destruct (mounted_client mounts active siz path) as [cid rpath| |]; [|by destruct (H m)|done].
  destruct H as (m' & Hm' & Hb' & -> & ->). destruct Hwf as (_ & _ & _ & Hnest).
  by destruct (below_both path (mpath m) (mpath m') Hb Hb') as [H|H]; apply Hnest in H as ->.
Qed.

Lemma add_mount_keyed mounts path cid :
  keyed mpath mounts → wf_cstr path → (∀ m, m ∈ mounts → mpath m ≠ path) →
  keyed mpath (add_mount mounts (Mount path cid)) ∧
  ∀ m, m ∈ add_mount mounts (Mount path cid) ↔ m = Mount path cid ∨ m ∈ mounts.
Proof.
  intros Hk Hp Hfree. split.
  - apply (keyed_qsort mpath); [done|done|]. intros y Hy E. by apply (Hfree y Hy).
  - intros x. unfold add_mount. rewrite (qsort_permutation mntcmp). unfold ARR_ADD.
    rewrite elem_of_app, list_elem_of_singleton. tauto.
Qed.

Lemma del_mount_keyed mounts path :
  keyed mpath mounts → Z.of_nat (length mounts) < 2 ^ 62 → wf_cstr path →
  match del_mount mounts path with
  | Some mounts' =>
      keyed mpath mounts' ∧ (length mounts' < length mounts)%nat ∧
      ∀ m, m ∈ mounts' ↔ m ∈ mounts ∧ mpath m ≠ path
  | None => ∀ m, m ∈ mounts → mpath m ≠ path
  end.
Proof.
  intros Hk Hlen Hp. unfold del_mount, mntcmp. cbn [mpath].
  pose proof (keyed_bsearch mpath mounts path Hp Hk ltac:(lia)) as H.
  destruct (bsearch _ mounts) as [i|]; simpl; [|done]. destruct H as (m & Hi & E).
  split_and!; [by apply keyed_delete| |].
  - unfold ARR_DEL. rewrite length_delete by (by eexists). apply lookup_lt_Some in Hi. lia.
  - intros x. rewrite <-E. by apply keyed_del.
Qed.

Lemma add_mount_wf mounts path cid :
  mounts_wf mounts → wf_cstr path → path ≠ [] → Z.of_nat (length mounts) + 1 < 2 ^ 62 →
  (∀ m, m ∈ mounts → ¬ below (mpath m) path ∧ ¬ below path (mpath m)) →
  mounts_wf (add_mount mounts (Mount path cid)) ∧
  ∀ m, m ∈ add_mount mounts (Mount path cid) ↔ m = Mount path cid ∨ m ∈ mounts.
Proof.
  intros (Hk & Hlen & Hne & Hnest) Hp Hpne Hl Hfree.
  destruct (add_mount_keyed mounts path cid) as [Hk' Hin]; [done..| |].
  { intros m Hm E. destruct (Hfree m Hm) as [Hn _]. apply Hn. by left. }
  split; [|done]. split_and!; [done|..].
  - unfold add_mount. rewrite (qsort_permutation mntcmp). unfold ARR_ADD. rewrite length_app. simpl. lia.
  - apply Forall_forall. intros x [->|Hx]%Hin; [done|]. rewrite Forall_forall in Hne. by apply Hne.
  - intros x y [->|Hx]%Hin [->|Hy]%Hin Hb; [done| | |by apply Hnest].
    + by destruct (Hfree y Hy) as [_ []].
    + by destruct (Hfree x Hx) as [[] _].
Qed.

Lemma del_mount_wf mounts path :
  mounts_wf mounts → wf_cstr path →
  match del_mount mounts path with
  | Some mounts' => mounts_wf mounts' ∧ ∀ m, m ∈ mounts' ↔ m ∈ mounts ∧ mpath m ≠ path
  | None => ∀ m, m ∈ mounts → mpath m ≠ path
  end.
Proof.
  intros (Hk & Hlen & Hne & Hnest) Hp. pose proof (del_mount_keyed mounts path Hk Hlen Hp) as H.
  destruct (del_mount mounts path) as [mounts'|]; [|done]. destruct H as (Hk' & Hl & Hin).
  split; [|done]. split_and!; [done|lia| |].
  - apply Forall_forall. intros x [Hx _]%Hin. rewrite Forall_forall in Hne. by apply Hne.
  - intros x y [Hx _]%Hin [Hy _]%Hin. by apply Hnest.
Qed.

(** What extends a path goes on with a slash or a character above it. *)
Definition extends_above (path other : cstr) : Prop := ∀ c rest, other = path ++ c :: rest → SLASH ≤ c.

Lemma apart_extends path other : ¬ below other path → extends_above path other → apart path other.
Proof.
  intros Hb He c rest E. specialize (He c rest E). destruct (decide (c = SLASH)) as [->|?]; [|lia].
  destruct Hb. right. by exists rest.
Qed.

Lemma apart_added mounts path cid :
  mounts_apart mounts → (∀ m, m ∈ mounts → ¬ below (mpath m) path ∧ ¬ below path (mpath m)) →
  (∀ m, m ∈ mounts → extends_above path (mpath m) ∧ extends_above (mpath m) path) →
  (∀ m, m ∈ add_mount mounts (Mount path cid) ↔ m = Mount path cid ∨ m ∈ mounts) →
  mounts_apart (add_mount mounts (Mount path cid)).
Proof.
  intros Ha Hfree Hext Hin m m' [->|Hm]%Hin [->|Hm']%Hin; cbn [mpath].
  - intros c rest E. apply (f_equal length) in E. rewrite length_app in E. simpl in E. lia.
  - apply apart_extends; [by apply Hfree|by apply Hext].
  - apply apart_extends; [by apply Hfree|by apply Hext].
  - by apply Ha.
Qed.

(** *** Nodes of clients *)

(** No digit follows. *)
Definition number_ends (r : cstr) : Prop := match r with c :: _ => is_digit c = false | [] => True end.

Lemma digits_read acc d r :
  Forall CponSpec.is_digit d → number_ends r → digits acc (d ++ r) = (dec_value acc d, r).
Proof.
  intros Hd Hr. revert acc. induction Hd as [|c d Hc Hd IH]; intros acc.
  - destruct r as [|c r]; [done|]. cbn [app digits]. cbn [number_ends] in Hr. by rewrite Hr.
  - cbn [app digits]. unfold CponSpec.is_digit in Hc. unfold is_digit at 1.
    rewrite (proj2 (Z.leb_le 48 c)), (proj2 (Z.leb_le c 57)) by lia. cbn [andb]. rewrite IH.
    unfold dec_value. cbn [foldl]. do 3 f_equal. lia.
Qed.

Lemma strtol_number v r : - 2 ^ 63 < v < 2 ^ 63 → number_ends r → strtol (signed v ++ r) = (v, r).
Proof.
  intros Hv Hr. unfold strtol, signed. destruct (digits_spec (Z.abs v)) as (Hd & Hval & Hhead); [lia|].
  set (d := CponSpec.digits (Z.abs v)) in *. clearbody d. destruct d as [|c d]; [done|].
  pose proof Hd as [Hc _]%Forall_cons. unfold CponSpec.is_digit in Hc.
  assert (is_digit c = true) as Hdig
    by (unfold is_digit; rewrite (proj2 (Z.leb_le 48 c)), (proj2 (Z.leb_le c 57)) by lia; done).
  assert (is_space c = false) as Hsp by (unfold is_space; lia).
  pose proof (digits_read 0 (c :: d) r Hd Hr) as Hread. rewrite Hval in Hread. cbn [app] in Hread.
  destruct (Z.ltb_spec v 0) as [Hn|Hn]; cbn [app skip_spaces].
  - change (is_space 45) with false. cbn iota. rewrite Z.eqb_refl, Hdig, Hread. f_equal. lia.
  - rewrite Hsp. rewrite (proj2 (Z.eqb_neq c 45)), (proj2 (Z.eqb_neq c 43)), Hdig, Hread by lia. f_equal. lia.
Qed.

(** The node of the client with the number. *)
Definition client_node (n : Z) : cstr := clientmnt ++ signed n.

Lemma mounted_client_node mounts active siz path n :
  0 ≤ n < 2 ^ 31 → (active n = Some true → n < siz) → below path (client_node n) →
  mounted_client mounts active siz path =
    match active n with
    | Some true => Found n (relative path (client_node n))
    | Some false => NotFound
    | None => OutOfBounds
    end.
Proof.
  intros Hn Ha Hb. assert (∃ r, path = clientmnt ++ (signed n ++ r) ∧ (r = [] ∨ ∃ q, r = SLASH :: q) ∧
      relative path (client_node n) = drop 1 r) as (r & -> & Hr & Hrel).
  { unfold relative, client_node in *. destruct Hb as [->|[q ->]].
    - exists []. rewrite app_nil_r. split_and!; [done|by left|]. by rewrite drop_ge by lia.
    - exists (SLASH :: q). rewrite <-app_assoc. split_and!; [done|right; by exists q|].
      rewrite app_assoc, <-drop_drop. by rewrite drop_app_length. }
  unfold mounted_client. rewrite <-(Nat.add_0_r (length clientmnt)) at 1.
  rewrite <-(app_nil_r clientmnt) at 2. rewrite strncmp_app_same, drop_app_length.
  replace (strncmp (signed n ++ r) [] 0) with 0 by (by destruct (signed n ++ r)). change (0 =? 0) with true. cbn iota.
  rewrite strtol_number; [|lia|by destruct Hr as [->|[q ->]]]. rewrite Hrel.
  replace (i32 n) with n by (symmetry; apply swrap_small; [done|unfold srange; lia]).
  assert (cget r 0 = 0 ∧ drop 1 r = r ∨ cget r 0 = SLASH) as Hc.
  { destruct Hr as [->|[q ->]]; [by left|by right]. }
  destruct (active n) as [[]|]; destruct Hc as [[-> Ed]| ->]; rewrite ?Z.eqb_refl; cbn; try done;
    specialize (Ha eq_refl); rewrite (proj2 (Z.leb_le 0 n)), (proj2 (Z.ltb_lt n siz)) by lia; cbn; congruence.
Qed.

(** ** Properties *)

(** C23: the search finds the client of the mount point a path is at or below, which is
    the only one, and gives the rest of the path; without such a mount point it
    finds nobody, and it stays inside of the array.  This holds for paths outside of
    the nodes of clients, as long as the mount points that extend another one go on
    with a character above the slash.  A path at or below the node of a client, which
    is [.broker/client/] and its number, leads to that client if it is active, and to
    nobody otherwise. *)
Theorem mounted_client_finds mounts active siz path :
  wf_cstr path →
  (mounts_wf mounts → mounts_apart mounts → outside path →
   match mounted_client mounts active siz path with
   | Found cid rpath =>
       ∃ m, m ∈ mounts ∧ below path (mpath m) ∧ cid = mcid m ∧ rpath = relative path (mpath m) ∧
       ∀ m', m' ∈ mounts → below path (mpath m') → m' = m
   | NotFound => ∀ m, m ∈ mounts → ¬ below path (mpath m)
   | OutOfBounds => False
   end) ∧
  ∀ n a, 0 ≤ n < 2 ^ 31 → active n = Some a → (a = true → n < siz) → below path (client_node n) →
    mounted_client mounts active siz path = if a then Found n (relative path (client_node n)) else NotFound.
Proof.
  intros Hp. split.
  - intros Hwf Ha Ho. pose proof (mounted_client_outside mounts active siz path Hwf Ha Hp Ho) as H.
    destruct (mounted_client mounts active siz path) as [cid rpath| |]; [|done|done].
    destruct H as (m & Hm & Hb & -> & ->). exists m. split_and!; [done..|]. intros m' Hm' Hb'.
    destruct Hwf as (_ & _ & _ & Hnest). destruct (below_both path (mpath m) (mpath m') Hb Hb') as [H|H];
      [symmetry|]; by apply Hnest.
  - intros n a Hn Ea Ha Hb. rewrite (mounted_client_node mounts active siz path n), Ea by (done || naive_solver).
    by destruct a.
Qed.

Lemma mounted_client_finds_witness :
  mounted_client [Mount (str "a") 1; Mount (str "foo") 2; Mount (str "foobar") 3] (λ _, Some false) 4 (str "foo/x/y") =
    Found 2 (str "x/y") ∧ below (str "foo/x/y") (str "foo") ∧
  mounted_client [] (λ _, Some true) 4 (str ".broker/client/3/x") = Found 3 (str "x").
Proof.
  set (mounts := [Mount (str "a") 1; Mount (str "foo") 2; Mount (str "foobar") 3]).
  assert (mounts_wf mounts ∧ mounts_apart mounts) as [Hwf Ha].
  { split; [split_and!|].
    - split; [by_evaluation|]. repeat constructor; by vm_compute.
    - done.
    - repeat constructor; done.
    - intros m m' Hm Hm'. unfold mounts in Hm, Hm'. rewrite !elem_of_cons, elem_of_nil in Hm, Hm'.
      destruct Hm as [->|[->|[->|[]]]], Hm' as [->|[->|[->|[]]]]; intros [E|[r E]]; done.
    - intros m m' Hm Hm' c r E. unfold mounts in Hm, Hm'. rewrite !elem_of_cons, elem_of_nil in Hm, Hm'. unfold SLASH.
      destruct Hm as [->|[->|[->|[]]]], Hm' as [->|[->|[->|[]]]]; simplify_eq/=; lia. }
  destruct (mounted_client_finds mounts (λ _, Some false) 4 (str "foo/x/y")) as [H _]; [by_evaluation|].
  assert (mounted_client mounts (λ _, Some false) 4 (str "foo/x/y") = Found 2 (str "x/y")) as E by (by vm_compute).
  rewrite E in *. split_and!; [done| |].
  - destruct H as (m & Hm & Hb & Hc & _); [done|done|by vm_compute|].
    unfold mounts in Hm. rewrite !elem_of_cons, elem_of_nil in Hm. by destruct Hm as [->|[->|[->|[]]]].
  - destruct (mounted_client_finds [] (λ _, Some true) 4 (str ".broker/client/3/x")) as [_ H']; [by_evaluation|].
    rewrite (H' 3 true); [by vm_compute|lia|done|lia|]. right. by exists (str "x").
Defined.

(** C24: among mount points where those that extend another one go on with a character
    above the slash, one is accepted exactly when it is not at, above or below one
    that is there; this is for paths that are not nodes of clients.  Adding it keeps
    the array sorted and without mount points below each other, and so does removing
    one, and they change nothing else.  What the search relies on is kept too, when
    the new mount point and the others do not go on from each other with a character
    below the slash. *)
Theorem mount_points_invariant mounts active siz path cid :
  mounts_wf mounts → mounts_apart mounts → wf_cstr path → path ≠ [] → outside path →
  Z.of_nat (length mounts) + 1 < 2 ^ 62 →
  (∃ ok, mount_allowed mounts active siz path = Some ok ∧
     (ok = true ↔ ∀ m, m ∈ mounts → ¬ below (mpath m) path ∧ ¬ below path (mpath m)) ∧
     (ok = true → mounts_wf (add_mount mounts (Mount path cid)) ∧
        (∀ m, m ∈ add_mount mounts (Mount path cid) ↔ m = Mount path cid ∨ m ∈ mounts) ∧
        ((∀ m, m ∈ mounts → extends_above path (mpath m) ∧ extends_above (mpath m) path) →
         mounts_apart (add_mount mounts (Mount path cid))))) ∧
  match del_mount mounts path with
  | Some mounts' => mounts_wf mounts' ∧ mounts_apart mounts' ∧ ∀ m, m ∈ mounts' ↔ m ∈ mounts ∧ mpath m ≠ path
  | None => ∀ m, m ∈ mounts → mpath m ≠ path
  end.
Proof.
  intros Hwf Ha Hp Hne Ho Hlen. split.
  2:{ pose proof (del_mount_wf mounts path Hwf Hp) as H. destruct (del_mount mounts path) as [mounts'|]; [|done].
      destruct H as [? Hin]. split_and!; [done| |done]. intros m m' [? _]%Hin [? _]%Hin. by apply Ha. }
  pose proof (mounted_client_outside mounts active siz path Hwf Ha Hp Ho) as H. unfold mount_allowed.
  pose proof (add_mount_wf mounts path cid Hwf Hp Hne Hlen) as Hadd.
  assert (existsb (λ m, is_path_prefix (mpath m) path) mounts = true ↔ ∃ m, m ∈ mounts ∧ below (mpath m) path) as Hex.
  { rewrite existsb_exists. split; intros (m & Hm & Hb); exists m; rewrite <-list_elem_of_In in *; (split; [done|]);
      destruct Hwf as ([Hw _] & _); rewrite Forall_forall in Hw.
    - apply is_path_prefix_spec in Hb as [|]; [done..|by apply Hw|done].
    - apply is_path_prefix_spec; [by apply Hw|done|by right]. }
  destruct (existsb _ mounts).
  - exists false. split; [done|]. split; [|done]. split; [done|]. intros Hf.
    destruct (proj1 Hex eq_refl) as (m & Hm & Hb). by destruct (Hf m Hm).
  - assert (∀ m, m ∈ mounts → ¬ below (mpath m) path) as Hno.
    { intros m Hm Hb. by assert (false = true) by (apply Hex; eauto). }
    destruct (mounted_client mounts active siz path) as [c rp| |]; [| |done].
    + exists false. split; [done|]. split; [|done]. split; [done|]. intros Hf.
      destruct H as (m & Hm & Hb & _). by destruct (Hf m Hm).
    + exists true. split; [done|]. split; [naive_solver|]. intros _.
      assert (∀ m, m ∈ mounts → ¬ below (mpath m) path ∧ ¬ below path (mpath m)) as Hfree by naive_solver.
      destruct (Hadd Hfree) as [? Hin]. split_and!; [done..|]. intros Hext. by apply (apart_added mounts path cid).
Qed.

Lemma mount_points_invariant_witness :
  mount_allowed [Mount (str "foo") 2] (λ _, Some false) 4 (str "foo/bar") = Some false ∧
  mounts_wf (add_mount [Mount (str "foo") 2] (Mount (str "bar") 3)).
Proof.
  set (mounts := [Mount (str "foo") 2]).
  assert (mounts_wf mounts ∧ mounts_apart mounts) as [Hwf Ha].
  { split; [split_and!|].
    - split; [by_evaluation|]. repeat constructor.
    - done.
    - repeat constructor; done.
    - by intros m m' ->%list_elem_of_singleton ->%list_elem_of_singleton.
    - intros m m' ->%list_elem_of_singleton ->%list_elem_of_singleton c r E. simplify_eq/=. }
  split.
  - destruct (mount_points_invariant mounts (λ _, Some false) 4 (str "foo/bar") 3 Hwf Ha) as [(ok & E & _) _];
      [by_evaluation|done|by vm_compute|done|]. rewrite E. by vm_compute in E.
  - destruct (mount_points_invariant mounts (λ _, Some false) 4 (str "bar") 3 Hwf Ha) as [(ok & E & _ & Hok) _];
      [by_evaluation|done|by vm_compute|done|]. apply Hok. by vm_compute in E; simplify_eq.
Defined.

(** ** Where the code does not do what it means to *)

(** With a mount point that goes on with a character below the slash, the search goes
    to the wrong half: the client mounted at [foo] is not found. *)
Example mounted_client_missed :
  let mounts := [Mount (str "foo") 1; Mount (str "foo-a") 2; Mount (str "foo-b") 3] in
  mounted_client mounts (λ _, Some false) 4 (str "foo/x") = NotFound ∧
  mount_allowed mounts (λ _, Some false) 4 (str "foo/x") = Some true.
Proof. by vm_compute. Qed.

(** The number is only looked at as an [int] before it is the index. *)
Example mounted_client_overflow :
  mounted_client [] (λ cid, Some (cid =? 1)) 4 (str ".broker/client/4294967297") = OutOfBounds.
Proof. by vm_compute. Qed.

(** Without a number it is the client zero. *)
Example mounted_client_no_number :
  mounted_client [] (λ cid, Some (cid =? 0)) 4 (str ".broker/client/") = Found 0 [] ∧
  mounted_client [] (λ cid, Some (cid =? 0)) 4 (str ".broker/client//x") = Found 0 (str "x").
Proof. by vm_compute. Qed.
