(* ===== verification/Effects.v ===== *)
(** * Effects of handlers

    The operations of the message handler, its stages and the broker change a state
    and give a result, or they do something that has none. *)

From S2P Require Import Prelude.

(** Waiting for a lock that is held, reading memory that is not there or was freed,
    following [NULL], a failed assertion, and freeing what was not allocated. *)
Inductive fault := Deadlock | ReadOutside | UseAfterFree | NullPointer | Assertion | InvalidFree.

Definition M (S A : Type) : Type := S → S * A + fault.

#[export] Instance eff_ret {S} : MRet (M S) := λ A x s, inl (s, x).
#[export] Instance eff_bind {S} : MBind (M S) := λ A B k m s,
  match m s with inl (s, x) => k x s | inr f => inr f end.

Section effects.
Context {S : Type}.

Definition fails {A} (f : fault) : M S A := λ s, inr f.
Definition gets {A} (f : S → A) : M S A := λ s, inl (s, f s).
Definition modify (f : S → S) : M S unit := λ s, inl (f s, tt).

(** A value that is not there is a fault. *)
Definition need {A} (f : fault) (x : option A) : M S A :=
  match x with Some x => mret x | None => fails f end.

Fixpoint each {A} (f : A → M S unit) (l : list A) : M S unit :=
  match l with [] => mret tt | x :: l => f x;; each f l end.

Fixpoint fold {A B} (f : B → A → M S B) (b : B) (l : list A) : M S B :=
  match l with [] => mret b | x :: l => b ← f b x; fold f b l end.

Lemma bind_run {A B} (m : M S A) (k : A → M S B) s s' x :
  m s = inl (s', x) → (m ≫= k) s = k x s'.
Proof. intros E. unfold mbind, eff_bind. by rewrite E. Qed.

Lemma bind_inv {A B} (m : M S A) (k : A → M S B) s s' y :
  (m ≫= k) s = inl (s', y) → ∃ s1 x, m s = inl (s1, x) ∧ k x s1 = inl (s', y).
Proof. unfold mbind, eff_bind. destruct (m s) as [[s1 x]|f]; [|done]. by exists s1, x. Qed.
End effects.
