(* ===== verification/Broker.v ===== *)
(** * The broker ([libshvbroker/rpcbroker.c], [libshvbroker/role.c],
      [libshvbroker/mount.c], [libshvbroker/multipack.c], [libshvbroker/broker.h])

    The state of the broker, the registration of clients, their roles and mount
    points, and the delivery of signals to all the clients that subscribed. *)

From stdpp Require Import sorting.
From S2P Require Import Prelude Effects Stdio CpItem CpPack CpLoops Arr Nbool Rpcri Rpcaccess RpcMsg.
From S2P Require Import Subscription Mount.

(** ** The state *)

Definition REUSE_TIMEOUT : Z := 600.
Definition NONCE_LEN : Z := 10.
Definition IDLE_TIMEOUT_LOGIN : Z := 5.

(** [access] is the callback with its cookie; [rfree] says that there is a callback
    that frees the role. *)
Record rpcbroker_role : Type := Role {
  rname : option cstr;
  access : option cstr → option cstr → Z;
  mount_point : option cstr;
  subscriptions : list cstr;
  rfree : bool }.

Record ttlsub : Type := Ttlsub { tri : cstr; ttl : Z }.

Record clientctx : Type := Client {
  cid : Z;
  role : option rpcbroker_role;
  login : bool;
  nonce : cstr;
  username : option cstr;
  activity_timeout : Z;
  last_activity : Z;
  ttlsubs : list ttlsub }.

(** A pointer of the array of clients: [NULL], to a client or to one that was freed. *)
Inductive slot := Empty | Live (c : clientctx) | Freed.

(** What the rest of the program sees, in the order it happens: a message [p] sent to
    a client, the request to disconnect it, the role of a client given back. *)
Inductive event (P : Type) := Sent (cid : Z) (p : P) | Disconnected (cid : Z) | Released (cid : Z).
Arguments Sent {P} _ _.
Arguments Disconnected {P} _.
Arguments Released {P} _.

Record rpcbroker (P : Type) : Type := Broker {
  bname : option cstr;
  nolock : bool;
  clients : list slot;
  clients_lastuse : list Z;
  mounts : list mount;
  subs : list subscription;
  locked : bool;
  events : list (event P) }.
Arguments Broker {P} _ _ _ _ _ _ _ _.
Arguments bname {P} _.
Arguments nolock {P} _.
Arguments clients {P} _.
Arguments clients_lastuse {P} _.
Arguments mounts {P} _.
Arguments subs {P} _.
Arguments locked {P} _.
Arguments events {P} _.

Definition set_clients {P} (v : list slot) (b : rpcbroker P) : rpcbroker P :=
  Broker (bname b) (nolock b) v (clients_lastuse b) (mounts b) (subs b) (locked b) (events b).
Definition set_lastuse {P} (v : list Z) (b : rpcbroker P) : rpcbroker P :=
  Broker (bname b) (nolock b) (clients b) v (mounts b) (subs b) (locked b) (events b).
Definition set_mounts {P} (v : list mount) (b : rpcbroker P) : rpcbroker P :=
  Broker (bname b) (nolock b) (clients b) (clients_lastuse b) v (subs b) (locked b) (events b).
Definition set_subs {P} (v : list subscription) (b : rpcbroker P) : rpcbroker P :=
  Broker (bname b) (nolock b) (clients b) (clients_lastuse b) (mounts b) v (locked b) (events b).
Definition set_locked {P} (v : bool) (b : rpcbroker P) : rpcbroker P :=
  Broker (bname b) (nolock b) (clients b) (clients_lastuse b) (mounts b) (subs b) v (events b).
Definition set_events {P} (v : list (event P)) (b : rpcbroker P) : rpcbroker P :=
  Broker (bname b) (nolock b) (clients b) (clients_lastuse b) (mounts b) (subs b) (locked b) v.

Definition set_role (v : option rpcbroker_role) (c : clientctx) : clientctx :=
  Client (cid c) v (login c) (nonce c) (username c) (activity_timeout c) (last_activity c) (ttlsubs c).
Definition set_nonce (v : cstr) (c : clientctx) : clientctx :=
  Client (cid c) (role c) (login c) v (username c) (activity_timeout c) (last_activity c) (ttlsubs c).
Definition set_user (v : option cstr) (c : clientctx) : clientctx :=
  Client (cid c) (role c) (login c) (nonce c) v (activity_timeout c) (last_activity c) (ttlsubs c).
Definition set_timeout (v : Z) (c : clientctx) : clientctx :=
  Client (cid c) (role c) (login c) (nonce c) (username c) v (last_activity c) (ttlsubs c).
Definition set_activity (v : Z) (c : clientctx) : clientctx :=
  Client (cid c) (role c) (login c) (nonce c) (username c) (activity_timeout c) v (ttlsubs c).
Definition set_ttlsubs (v : list ttlsub) (c : clientctx) : clientctx :=
  Client (cid c) (role c) (login c) (nonce c) (username c) (activity_timeout c) (last_activity c) v.

Definition emit {P} (e : event P) : M (rpcbroker P) unit := modify (λ b, set_events (events b ++ [e]) b).

Section broker.
Context {P : Type}.
Notation M := (M (rpcbroker P)).

Definition broker_lock : M unit := λ b,
  if nolock b then inl (b, tt)
  else if locked b then inr Deadlock else inl (set_locked true b, tt).

Definition broker_unlock : M unit := λ b,
  if nolock b then inl (b, tt) else inl (set_locked false b, tt).

(** [broker->clients[cid]] where [cid] is in the array. *)
Definition slot_at (b : rpcbroker P) (cid : Z) : option slot :=
  if 0 <=? cid then clients b !! Z.to_nat cid else None.

Definition cid_valid (b : rpcbroker P) (cid : Z) : bool :=
  match slot_at b cid with Some (Live _) | Some Freed => true | _ => false end.

(** [None] when the role of a client that was freed is read. *)
Definition cid_active (b : rpcbroker P) (cid : Z) : option bool :=
  match slot_at b cid with
  | Some (Live c) => Some (match role c with Some _ => true | None => false end)
  | Some Freed => None
  | _ => Some false
  end.

(** [*broker->clients[cid]] *)
Definition client_at (cid : Z) : M clientctx := λ b,
  match slot_at b cid with
  | Some (Live c) => inl (b, c)
  | Some Freed => inr UseAfterFree
  | Some Empty => inr NullPointer
  | None => inr ReadOutside
  end.

Definition put_slot (cid : Z) (s : slot) : M unit := modify (λ b,
  set_clients (<[Z.to_nat cid := s]> (clients b)) b).

(** A change of the structure a client points to. *)
Definition update_client (cid : Z) (f : clientctx → clientctx) : M unit :=
  c ← client_at cid; put_slot cid (Live (f c)).

Definition siz (b : rpcbroker P) : Z := Z.of_nat (length (clients b)).

(** ** Signals ([multipack.c]) *)

Context (pack : P → cpitem → P * bool) (fresh : P).

(** The clients of the subscriptions that match. *)
Definition matching (path source : cstr) (signal : option cstr) (res : nbool_t) (s : subscription) : M nbool_t :=
  m ← need ReadOutside (rpcri_match (ri s) path source signal);
  mret (if m : bool then nbool_or res (sclients s) else res).

(** The loop over [for_nbool] clears only the number it is at. *)
Definition allowed (path source : cstr) (access_ : Z) (res : nbool_t) (cid : Z) : M nbool_t :=
  b ← gets id;
  a ← need UseAfterFree (cid_active b cid);
  if negb a then mret (nbool_clear res cid)
  else
    c ← client_at cid;
    r ← need NullPointer (role c);
    mret (if access r (Some path) (Some source) <? access_ then nbool_clear res cid else res).

Definition signal_destinations (path source : cstr) (signal : option cstr) (access_ : Z) : M nbool_t :=
  subs ← gets subs;
  res ← fold (matching path source signal) None subs;
  fold (allowed path source access_) res (for_nbool res).

(** The packers of the destinations; the ones that failed are [NULL]. *)
Fixpoint pack_func (packs : list (option P)) (item : cpitem) : list (option P) * bool :=
  match packs with
  | [] => ([], false)
  | Some p :: packs =>
      let '(p, ok) := pack p item in
      let '(packs, res) := pack_func packs item in
      ((if ok : bool then Some p else None) :: packs, ok || res)
  | None :: packs => let '(packs, res) := pack_func packs item in (None :: packs, res)
  end.

(** [fresh] is the packer of a new message. *)
Definition multipack_init (destinations : nbool_t) : M (list (option P)) :=
  mapM (λ cid, client_at cid;; mret (Some fresh)) (for_nbool destinations).

(** A message that is not sent is dropped. *)
Definition multipack_done (packs : list (option P)) (destinations : nbool_t) (send : bool) : M unit :=
  each (λ x : Z * option P, client_at x.1;;
      match x.2 with Some p => if send then emit (Sent x.1 p) else mret tt | None => mret tt end)
    (zip (for_nbool destinations) packs).

(** ** Mount points ([mount.c]) *)

(** One round of the loop over the slashes of a mount point: where the search goes on
    and the longest common path so far. *)
Definition common_step (path point : cstr) (s : nat * nat) : nat * nat + nat :=
  let '(pos, plen) := s in
  match strchr (drop pos path) SLASH with
  | None => inr plen
  | Some rest =>
      let siz := (length path - length rest)%nat in
      if (strncmp path point siz =? 0) && (cget point (Z.of_nat siz) =? SLASH)
      then inl (S siz, Nat.max plen siz) else inr plen
  end.

Definition common (point : cstr) (plen : nat) (m : mount) : nat :=
  match cloop (common_step (mpath m) point) 64 (0%nat, plen) with inr r => r | inl (_, r) => r end.

Definition before_slash (s : cstr) : cstr := take (length s - length (strchrnul s SLASH)) s.

(** The node with the change and the name of what changed there. *)
Definition lsmod_at (mounts : list mount) (point : cstr) : cstr * cstr :=
  match foldl (common point) 0%nat mounts with
  | O => ([], before_slash point)
  | plen => (take plen point, before_slash (drop (S plen) point))
  end.

Definition pack_lsmod {Q} (pack : Q → cpitem → Q * bool) (prefix node : cstr) (val : bool) : Q → Q * bool :=
  rpcmsg_pack_signal pack (Some prefix) (str "ls") (str "lsmod") None RPCACCESS_BROWSE false >>>
  cp_pack_map_begin pack >>>
  cp_pack_str pack (Some node) >>>
  cp_pack_bool pack val >>>
  cp_pack_container_end pack >>>
  cp_pack_container_end pack.

Definition lsmod (point : cstr) (val : bool) : M unit :=
  mounts ← gets mounts;
  let '(prefix, node) := lsmod_at mounts point in
  dest ← signal_destinations prefix (str "ls") (Some (str "lsmod")) RPCACCESS_BROWSE;
  match dest with
  | None => mret tt
  | Some _ =>
      packs ← multipack_init dest;
      multipack_done (pack_lsmod pack_func prefix node val packs).1 dest true
  end.

Definition mount_register (cid : Z) (point : cstr) : M bool :=
  b ← gets id;
  ok ← need ReadOutside (mount_allowed (mounts b) (cid_active b) (siz b) point);
  if negb ok then mret false
  else
    lsmod point true;;
    modify (λ b, set_mounts (add_mount (mounts b) (Mount point cid)) b);;
    mret true.

Definition mount_unregister (point : cstr) : M unit :=
  mounts ← gets mounts;
  match del_mount mounts point with
  | None => mret tt
  | Some mounts => modify (set_mounts mounts);; lsmod point false
  end.

(** ** Roles ([role.c]) *)

Inductive role_res := ROLE_RES_OK | ROLE_RES_MNT_INVALID | ROLE_RES_MNT_EXISTS.

Definition mount_invalid (point : cstr) : bool :=
  (cget point 0 =? 0) || is_path_prefix point (str ".app") || is_path_prefix point (str ".broker").

(** The role does not go to the client: it is given back. *)
Definition role_refused (cid : Z) (r : rpcbroker_role) (res : role_res) : M role_res :=
  update_client cid (set_role None);;
  (if rfree r then emit (Released cid) else mret tt);;
  mret res.

Definition role_subscribe (cid : Z) (r : rpcbroker_role) : M role_res :=
  each (λ ri, modify (λ b, set_subs (subscribe (subs b) ri cid).1 b)) (subscriptions r);;
  mret ROLE_RES_OK.

Definition role_assign (cid : Z) (r : rpcbroker_role) : M role_res :=
  update_client cid (set_role (Some r));;
  match mount_point r with
  | None => role_subscribe cid r
  | Some point =>
      if mount_invalid point then role_refused cid r ROLE_RES_MNT_INVALID
      else
        ok ← mount_register cid point;
        if negb ok then role_refused cid r ROLE_RES_MNT_EXISTS
        else role_subscribe cid r
  end.

(** What becomes of the client, which may not be in the array any more. *)
Definition role_unassign (c : clientctx) : M clientctx :=
  match role c with
  | None => mret c
  | Some r =>
      (match mount_point r with Some point => mount_unregister point | None => mret tt end);;
      (if rfree r then emit (Released (cid c)) else mret tt);;
      mret (set_role None c)
  end.

(** ** Clients ([rpcbroker.c]) *)

(** The number of the first client that is not there and was not there lately. *)
Fixpoint free_cid (now : Z) (l : list slot) (use : list Z) : nat :=
  match l, use with
  | Empty :: l, t :: use => if t >=? now - REUSE_TIMEOUT then S (free_cid now l use) else O
  | _ :: l, _ :: use => S (free_cid now l use)
  | _, _ => O
  end.

(** The arrays double when there is none. *)
Definition grow (b : rpcbroker P) (cid : nat) : rpcbroker P :=
  if (cid =? length (clients b))%nat
  then set_clients (clients b ++ replicate cid Empty)
         (set_lastuse (clients_lastuse b ++ replicate cid 0) b)
  else b.

Definition client_new (cid now : Z) (contrack : bool) (r : option rpcbroker_role) : clientctx :=
  Client cid r (match r with None => true | Some _ => false end) [] None
    (match r with
     | Some _ => u32 (-1)
     | None => if contrack then IDLE_TIMEOUT_LOGIN else u32 (-1)
     end) now [].

(** [contrack] is [rpcclient_contrack] of the client. *)
Definition rpcbroker_client_register (now : Z) (contrack : bool) (r : option rpcbroker_role) : M Z :=
  broker_lock;;
  b ← gets id;
  let n := free_cid now (clients b) (clients_lastuse b) in
  modify (λ b, grow b n);;
  let cid := Z.of_nat n in
  put_slot cid (Live (client_new cid now contrack r));;
  res ← match r with Some r => role_assign cid r | None => mret ROLE_RES_OK end;
  match res with
  | ROLE_RES_OK => broker_unlock;; mret cid
  | _ =>
      modify (λ b, set_lastuse (<[n := 0]> (clients_lastuse b)) b);;
      put_slot cid Freed;;
      mret (-1)
  end.

Definition rpcbroker_client_unregister (now client_id : Z) : M unit :=
  broker_lock;;
  b ← gets id;
  s ← need ReadOutside (slot_at b client_id);
  put_slot client_id Empty;;
  modify (λ b, set_lastuse (<[Z.to_nat client_id := now]> (clients_lastuse b)) b);;
  c ← match s with Live c => mret c | Empty => fails NullPointer | Freed => fails UseAfterFree end;
  role_unassign c;;
  modify (λ b, set_subs (unsubscribe_all (subs b) client_id) b);;
  broker_unlock.

(** Whose handler is given. *)
Definition rpcbroker_client_handler (client_id : Z) : M (option Z) :=
  b ← gets id;
  if cid_valid b client_id then c ← client_at client_id; mret (Some (cid c)) else mret None.

Definition rpcbroker_new (name : option cstr) (nolock : bool) : rpcbroker P :=
  Broker name nolock (replicate 4 Empty) (replicate 4 0) [] [] false [].
End broker.

#[export] Instance role_res_eq_dec : EqDecision role_res.
Proof. solve_decision. Defined.
