(* ===== verification/BrokerSpec.v ===== *)
(** * What the broker keeps true

    The parts of the state agree with each other: the mount points are those of the
    roles of the clients that are there, only clients that are there have
    subscriptions, and none that was freed can be reached.  Signals go exactly to
    the clients that subscribed and have the access. *)

From stdpp Require Import sorting gmap.
From S2P Require Import Prelude Effects Stdio CpItem CpUnpack CpPack CpLoops Arr Nbool Rpcri Rpcaccess RpcMsg.
From S2P Require Import Subscription Mount Broker.

#[local] Opaque unsubscribe_all unsubscribe subscribe add_mount del_mount search_mounts.

(** ** Running operations *)

(** The state with more events. *)
Definition emits {P} (l : list (event P)) (b : rpcbroker P) : rpcbroker P := set_events (events b ++ l) b.

Lemma emits_nil {P} (b : rpcbroker P) : emits [] b = b.
Proof. unfold emits, set_events. rewrite app_nil_r. by destruct b. Qed.

Lemma emits_app {P} l l' (b : rpcbroker P) : emits l' (emits l b) = emits (l ++ l') b.
Proof. unfold emits, set_events. simpl. by rewrite app_assoc. Qed.

(** ** Resource identifiers that are safe to match *)

Definition safe_ri (r : cstr) : Prop :=
  wf_cstr r ∧
  ∀ path method signal, wf_cstr path → wf_cstr method → wf_cstr (default [] signal) →
    is_Some (rpcri_match r path method signal).

Lemma strchr_split s c s' : strchr s c = Some s' → ∃ p, s = p ++ s' ∧ head s' = Some c ∧ c ∉ p.
Proof.
  induction s as [|x s IH]; simpl; [done|]. destruct (Z.eqb_spec x c) as [->|Hne]; intros E.
  - simplify_eq. exists []. split_and!; [done..|by apply not_elem_of_nil].
  - destruct (IH E) as (p & -> & Hh & Hp). exists (x :: p). split_and!; [done..|].
    apply not_elem_of_cons. naive_solver.
Qed.

Lemma plain_safe r : plain r → wf_cstr r → safe_ri r.
Proof.
  intros Hr Hw. split; [done|]. intros path method signal Hp Hm Hs. unfold rpcri_match.
  destruct (strchr r COLON) as [e|] eqn:E; [|by eexists].
  destruct (strchr_split _ _ _ E) as (p & -> & Hh & _). destruct e as [|c e]; [done|]. simplify_eq/=.
  apply Forall_app in Hr as [Hrp [_ Hre]%Forall_cons].
  assert (∀ q e s, plain q → e = [] ∨ head e = Some COLON → wf_cstr s →
    is_Some (rpcri_match_one (terminated (q ++ e)) (terminated s) (strlen (q ++ e) - strlen e))) as Hone.
  { intros q e' s Hq He' Hs'. unfold strlen. rewrite length_app.
    replace (Z.of_nat (length q + length e') - Z.of_nat (length e')) with (Z.of_nat (length q)) by lia.
    destruct (rpcri_match_one_accepted q e' s) as (x & -> & _); by eauto. }
  assert (∀ q s, plain q → wf_cstr s → is_Some (rpcri_match_one (terminated q) (terminated s) (strlen q))) as Hall.
  { intros q s Hq Hs'. specialize (Hone q [] s Hq (or_introl eq_refl) Hs'). rewrite app_nil_r in Hone.
    by replace (strlen q) with (strlen q - strlen []) by (unfold strlen; simpl; lia). }
  destruct (Hone p (COLON :: e) path) as [x Hx]; [done|by right|done|]. rewrite Hx. simpl.
  destruct x; simpl; [|by eexists]. destruct signal as [s|]; [|by apply Hall].
  destruct (strchr e COLON) as [e'|] eqn:E'; [|by apply Hall].
  destruct (strchr_split _ _ _ E') as (q & -> & Hh' & _). apply Forall_app in Hre as [Hq Hqe].
  destruct (Hone q e' method) as [y Hy]; [done|by right|done|]. rewrite Hy. simpl. destruct y; simpl; [|by eexists].
  apply Hall; [|done]. by destruct e'; [|apply Forall_cons in Hqe as [_ ?]].
Qed.

(** ** Signals *)

Section signals.
Context {P : Type}.
Implicit Types b : rpcbroker P.

(** Every pointer is to a client that is there, and to the one of that number. *)
Definition clients_ok b : Prop :=
  length (clients_lastuse b) = length (clients b) ∧ (0 < length (clients b))%nat ∧
  ∀ i s, clients b !! i = Some s → s ≠ Freed ∧ ∀ c, s = Live c → cid c = Z.of_nat i.

(** The subscriptions can be matched, and are those of clients that are there. *)
Definition subs_match b : Prop := subs_wf (subs b) ∧ ∀ r i, wants (subs b) r i → safe_ri r.

Definition subs_ok b : Prop :=
  subs_match b ∧ ∀ r i, wants (subs b) r i → ∃ c, slot_at b i = Some (Live c).

(** A client may get what needs the access level. *)
Definition may_receive b (path source : cstr) (acc i : Z) : Prop :=
  ∃ c r, slot_at b i = Some (Live c) ∧ role c = Some r ∧ acc ≤ access r (Some path) (Some source).

(** A client is to get the signal. *)
Definition receives b (path source : cstr) (signal : option cstr) (acc i : Z) : Prop :=
  (∃ r, wants (subs b) r i ∧ rpcri_match r path source signal = Some true) ∧ may_receive b path source acc i.

Lemma slot_live b i s : clients_ok b → slot_at b i = Some s → s ≠ Freed ∧ ∀ c, s = Live c → cid c = i.
Proof.
  intros (_ & _ & H). unfold slot_at. destruct (Z.leb_spec 0 i); [|done]. intros [? Hc]%H. split; [done|].
  intros c E. rewrite (Hc c E). lia.
Qed.

Lemma live_cid b i c : clients_ok b → slot_at b i = Some (Live c) → cid c = i.
Proof. intros Hc Hi. by apply (slot_live b i (Live c) Hc Hi). Qed.

Lemma subs_safe b s : subs_match b → s ∈ subs b → safe_ri (ri s) ∧ nbool_wf (sclients s).
Proof.
  intros [(_ & Hf & _) Hw] Hs. rewrite Forall_forall in Hf. destruct (Hf s Hs) as [Hb Hne].
  split; [|done]. destruct (decide (nset (sclients s) = ∅)) as [E|E].
  - by apply nset_empty in E.
  - apply set_choose_L in E as [i Hi]. by apply (Hw (ri s) i); exists s.
Qed.

Lemma matching_fold b path source signal l v :
  nbool_wf v →
  (∀ s, s ∈ l → nbool_wf (sclients s) ∧ is_Some (rpcri_match (ri s) path source signal)) →
  ∃ v', fold (matching path source signal) v l b = inl (b, v') ∧ nbool_wf v' ∧
    ∀ i, i ∈ nset v' ↔ i ∈ nset v ∨
      ∃ s, s ∈ l ∧ rpcri_match (ri s) path source signal = Some true ∧ i ∈ nset (sclients s).
Proof.
  revert v. induction l as [|s l IH]; intros v Hv Hl.
  - exists v. split_and!; [done..|]. intros i. split; [by left|]. by intros [|(s & ?%not_elem_of_nil & _)].
  - destruct (Hl s) as [Hs [m Hm]]; [by left|]. simpl.
    rewrite (bind_run _ _ b b (if m : bool then nbool_or v (sclients s) else v));
      [|unfold matching; by rewrite Hm].
    destruct (IH (if m : bool then nbool_or v (sclients s) else v)) as (v' & -> & Hw & Hi).
    + destruct m; auto with shv.
    + intros s' Hs'. apply Hl. by right.
    + exists v'. split_and!; [done..|]. intros i. rewrite Hi. setoid_rewrite elem_of_cons. destruct m.
      * rewrite nset_or, elem_of_union. naive_solver.
      * naive_solver congruence.
Qed.

Lemma allowed_fold b path source acc l v :
  clients_ok b → nbool_wf v → (∀ i, i ∈ l → 0 ≤ i) →
  ∃ v', fold (allowed path source acc) v l b = inl (b, v') ∧ nbool_wf v' ∧
    ∀ i, i ∈ nset v' ↔ i ∈ nset v ∧ (i ∈ l → may_receive b path source acc i).
Proof.
  intros Hb. revert v. induction l as [|i l IH]; intros v Hv Hl.
  - exists v. split_and!; [done..|]. intros i. split; [|tauto]. intros Hi. split; [done|]. by intros ?%not_elem_of_nil.
  - assert (∃ keep, allowed path source acc v i b = inl (b, if keep : bool then v else nbool_clear v i) ∧
      (keep = true ↔ may_receive b path source acc i)) as (keep & E & Hk).
    { unfold allowed, may_receive, cid_active, client_at, gets, need, mbind, eff_bind, mret, eff_ret. simpl.
      destruct (slot_at b i) as [[|c|]|] eqn:Es; simpl.
      - exists false. split; [done|]. split; [done|]. naive_solver.
      - destruct (role c) as [r|] eqn:Er; simpl.
        + rewrite Es. simpl. rewrite Er. destruct (Z.ltb_spec (access r (Some path) (Some source)) acc).
          * exists false. split; [done|]. split; [done|]. intros (c1 & r1 & ? & ? & ?). simplify_eq. lia.
          * exists true. split; [done|]. split; [|done]. intros _. by exists c, r.
        + exists false. split; [done|]. split; [done|]. intros (c' & r' & ? & ? & ?). congruence.
      - destruct (slot_live b i Freed Hb Es) as [[] _]. done.
      - exists false. split; [done|]. split; [done|]. naive_solver. }
    simpl. rewrite (bind_run _ _ _ _ _ E).
    destruct (IH (if keep : bool then v else nbool_clear v i)) as (v' & -> & Hw & Hi).
    + destruct keep; auto with shv.
    + intros j Hj. apply Hl. by right.
    + exists v'. split_and!; [done..|]. intros j. rewrite Hi, elem_of_cons. destruct keep.
      * naive_solver.
      * rewrite nset_clear by (apply Hl; by left). rewrite elem_of_difference, elem_of_singleton.
        naive_solver.
Qed.

Lemma destinations_spec b path source signal acc :
  clients_ok b → subs_match b → wf_cstr path → wf_cstr source → wf_cstr (default [] signal) →
  ∃ v, signal_destinations path source signal acc b = inl (b, v) ∧ nbool_wf v ∧
    ∀ i, i ∈ nset v ↔ receives b path source signal acc i.
Proof.
  intros Hb Hs Hp Hso Hsi. unfold signal_destinations. rewrite (bind_run _ _ _ _ _ eq_refl).
  destruct (matching_fold b path source signal (subs b) None) as (v & E & Hv & Hi); [done| |].
  { intros s Hin. destruct (subs_safe b s Hs Hin) as [[_ Hsafe] Hw]. split; [done|by apply Hsafe]. }
  rewrite (bind_run _ _ _ _ _ E).
  destruct (allowed_fold b path source acc (for_nbool v) v Hb Hv) as (v' & -> & Hw & Hj).
  { intros i Hin. by apply elem_of_for_nbool in Hin as [? _]. }
  exists v'. split_and!; [done..|]. intros i. rewrite Hj.
  assert (i ∈ for_nbool v ↔ i ∈ nset v) as -> by (unfold nset; by rewrite elem_of_list_to_set).
  rewrite Hi. unfold receives, wants. split.
  - intros [[?|(s & ? & ? & ?)] Hm]; [done|]. split; [naive_solver|]. apply Hm. naive_solver.
  - intros [(r & (s & ? & <- & ?) & ?) ?]. naive_solver.
Qed.

(** ** Packing for more clients at once *)

Context (pack : P → cpitem → P * bool) (fresh : P).

Lemma multipack_init_spec b v :
  (∀ i, i ∈ nset v → ∃ c, slot_at b i = Some (Live c)) →
  multipack_init fresh v b = inl (b, replicate (length (for_nbool v)) (Some fresh)).
Proof.
  intros Hv. unfold multipack_init. assert (∀ i, i ∈ for_nbool v → ∃ c, slot_at b i = Some (Live c)) as Hl.
  { intros i Hi. apply Hv. unfold nset. by rewrite elem_of_list_to_set. }
  clear Hv. induction (for_nbool v) as [|i l IH]; [done|]. destruct (Hl i) as [c Hc]; [by left|]. simpl.
  erewrite bind_run; [|erewrite bind_run; [done|unfold client_at; by rewrite Hc]].
  erewrite bind_run; [|apply IH; intros j Hj; apply Hl; by right]. done.
Qed.

(** The messages that go out. *)
Definition delivered (v : nbool_t) (packs : list (option P)) : list (event P) :=
  omap (λ x : Z * option P, Sent x.1 <$> x.2) (zip (for_nbool v) packs).

Lemma multipack_done_spec b v packs (send : bool) :
  (∀ i, i ∈ nset v → ∃ c, slot_at b i = Some (Live c)) →
  multipack_done packs v send b = inl (emits (if send then delivered v packs else []) b, tt).
Proof.
  intros Hv. unfold multipack_done, delivered.
  assert (∀ i, i ∈ for_nbool v → ∃ c, slot_at b i = Some (Live c)) as Hl.
  { intros i Hi. apply Hv. unfold nset. by rewrite elem_of_list_to_set. }
  clear Hv. revert packs b Hl. induction (for_nbool v) as [|i l IH]; intros packs b Hl.
  { simpl; destruct send; by rewrite emits_nil. }
  destruct packs as [|p packs]; [by simpl; destruct send; rewrite emits_nil|].
  destruct (Hl i) as [c Hc]; [by left|]. simpl. erewrite (bind_run _ _ b).
  2:{ rewrite (bind_run _ _ b b c) by (unfold client_at; by rewrite Hc).
      instantiate (1 := tt).
      instantiate (1 := emits (if send then match p with Some p => [Sent i p] | None => [] end else []) b).
      destruct p, send; by rewrite ?emits_nil. }
  rewrite IH by (intros j Hj; destruct send; apply Hl; by right). rewrite emits_app.
  by destruct p, send.
Qed.
End signals.

#[export] Program Instance multipack_PackSpec {P} (pack : P → cpitem → P * bool) `{!PackSpec pack} :
    PackSpec (pack_func pack) := {
  emitted t ps ps' :=
    ps ≠ [] ∧ Forall2 (λ x x', ∃ p p', x = Some p ∧ x' = Some p' ∧ emitted t p p') ps ps'
}.
Next Obligation.
  intros P pack HP t it ps ps' Hwf Hh Hw Hb [Hne Hf].
  assert (pack_func pack ps it = (ps', match ps with [] => false | _ => true end)) as ->.
  2:{ by destruct ps. }
  clear Hne. induction Hf as [|x x' ps ps' (p & p' & -> & -> & He) Hf IH]; [done|]. simpl.
  rewrite (pack_emitted t it p p') by done. by rewrite IH.
Qed.

Lemma emitted_everywhere {P} (pack : P → cpitem → P * bool) `{!PackSpec pack} ts p p' n :
  emitted_list pack ts p p' → n ≠ 0%nat →
  emitted_list (pack_func pack) ts (replicate n (Some p)) (replicate n (Some p')).
Proof.
  intros He Hn. revert p He. induction ts as [|t ts IH]; intros p He; simpl in *; [by subst|].
  destruct He as (p1 & He & Hl). exists (replicate n (Some p1)). split; [|by apply IH]. split; [by destruct n|].
  clear Hn IH. induction n; simpl; constructor; [by exists p, p1|done].
Qed.

Lemma delivered_everywhere {P} v (p : P) :
  delivered v (replicate (length (for_nbool v)) (Some p)) = (λ i, Sent i p) <$> for_nbool v.
Proof. unfold delivered. induction (for_nbool v) as [|i l IH]; simpl; [done|]. apply (f_equal (cons _)), IH. Qed.

(** ** The invariant *)

Section invariant.
Context {P : Type} (pack : P → cpitem → P * bool) (fresh : P).
Implicit Types b : rpcbroker P.

Definition mounts_ok b : Prop :=
  keyed mpath (mounts b) ∧ Forall (λ m, mpath m ≠ []) (mounts b).

(** The client [i] has a role with the mount point. *)
Definition has_mount b (i : Z) (point : cstr) : Prop :=
  ∃ c r, slot_at b i = Some (Live c) ∧ role c = Some r ∧ mount_point r = Some point.

(** The mount points are those of the clients. *)
Definition mounted b : Prop := ∀ m, m ∈ mounts b ↔ has_mount b (mcid m) (mpath m).

(** The same while the role of [i] is not settled. *)
Definition mounted_but (i : Z) b : Prop := ∀ m, m ∈ mounts b ↔ mcid m ≠ i ∧ has_mount b (mcid m) (mpath m).

(** Clients that subscribed for a time are subscribed, and have one entry for it. *)
Definition ttl_ok b : Prop :=
  ∀ i c, slot_at b i = Some (Live c) →
    NoDup (tri <$> ttlsubs c) ∧ ∀ t, t ∈ ttlsubs c → wants (subs b) (tri t) i.

Definition broker_inv b : Prop :=
  clients_ok b ∧ subs_ok b ∧ mounts_ok b ∧ mounted b ∧ ttl_ok b ∧ locked b = false.

(** The arrays are not longer than memory is. *)
Definition fits b (n : nat) : Prop :=
  Z.of_nat (length (mounts b)) < 2 ^ 61 ∧ Z.of_nat (length (subs b) + n) < 2 ^ 61.

(** What a role promises: strings, and identifiers that can be matched. *)
Definition role_ok (r : rpcbroker_role) : Prop :=
  wf_cstr (default [] (mount_point r)) ∧ Forall safe_ri (subscriptions r).

(** What most operations leave alone. *)
Definition frame b b' : Prop :=
  bname b' = bname b ∧ nolock b' = nolock b ∧ locked b' = locked b ∧ clients_lastuse b' = clients_lastuse b.

Lemma slot_insert b i j s :
  0 ≤ i < siz b →
  slot_at (set_clients (<[Z.to_nat i := s]> (clients b)) b) j = if decide (i = j) then Some s else slot_at b j.
Proof.
  unfold siz, slot_at. intros Hi. simpl. destruct (decide (i = j)) as [<-|Hne].
  - rewrite (proj2 (Z.leb_le _ _)) by lia. apply list_lookup_insert_eq. lia.
  - destruct (Z.leb_spec 0 j); [|done]. apply list_lookup_insert_ne. lia.
Qed.

Lemma slot_range b i s : slot_at b i = Some s → 0 ≤ i < siz b.
Proof.
  unfold slot_at, siz. destruct (Z.leb_spec 0 i); [|done]. intros ?%lookup_lt_Some. lia.
Qed.

Lemma clients_ok_put b i s :
  clients_ok b → 0 ≤ i → s ≠ Freed → (∀ c, s = Live c → cid c = i) →
  clients_ok (set_clients (<[Z.to_nat i := s]> (clients b)) b).
Proof.
  intros (Hl & Hne & Hc) Hi Hf Hs. split_and!; simpl; [by rewrite length_insert..|].
  intros j t [(<- & <- & _)|[? ?]]%list_lookup_insert_Some; [|by apply Hc].
  split; [done|]. intros c E. rewrite (Hs c E). lia.
Qed.

(** *** Changes of the mount points *)

Lemma wf_take n s : wf_cstr s → wf_cstr (take n s).
Proof. apply Forall_take. Qed.

Lemma lsmod_spec b point val :
  clients_ok b → subs_match b → wf_cstr point →
  ∃ v, (∀ i, i ∈ nset v ↔
      receives b (lsmod_at (mounts b) point).1 (str "ls") (Some (str "lsmod")) RPCACCESS_BROWSE i) ∧
    lsmod pack fresh point val b = inl (emits (delivered v
      (pack_lsmod (pack_func pack) (lsmod_at (mounts b) point).1 (lsmod_at (mounts b) point).2 val
        (replicate (length (for_nbool v)) (Some fresh))).1) b, tt).
Proof.
  intros Hc Hs Hp. unfold lsmod. rewrite (bind_run _ _ _ _ _ eq_refl).
  assert (wf_cstr (lsmod_at (mounts b) point).1) as Hpre.
  { unfold lsmod_at. destruct (foldl _ _ _); simpl; [constructor|by apply wf_take]. }
  destruct (lsmod_at (mounts b) point) as [prefix node]; cbn [fst snd] in *.
  destruct (destinations_spec b prefix (str "ls") (Some (str "lsmod")) RPCACCESS_BROWSE) as (v & E & Hv & Hi);
    [done..|by_evaluation|by_evaluation|]. exists v. split; [done|]. rewrite (bind_run _ _ _ _ _ E).
  assert (∀ i, i ∈ nset v → ∃ c, slot_at b i = Some (Live c)) as Hlive.
  { intros i [_ (c & r & ? & _)]%Hi. by exists c. }
  destruct v as [w|]; [|unfold delivered; simpl; by rewrite emits_nil].
  rewrite (bind_run _ _ _ _ _ (multipack_init_spec fresh b _ Hlive)). by rewrite multipack_done_spec.
Qed.

(** The state with more events, as far as the other parts go. *)
Lemma emits_ok l b :
  (clients_ok b → clients_ok (emits l b)) ∧ (subs_match b → subs_match (emits l b)) ∧ (subs_ok b → subs_ok (emits l b)) ∧
  (mounts_ok b → mounts_ok (emits l b)) ∧ (∀ i, slot_at (emits l b) i = slot_at b i) ∧ frame b (emits l b).
Proof. by split_and!. Qed.

Lemma mount_invalid_spec point :
  wf_cstr point → mount_invalid point = false → point ≠ [] ∧ outside point.
Proof.
  intros Hp. unfold mount_invalid. rewrite !orb_false_iff. intros [[Hne _] Hb]. split.
  - intros ->. done.
  - intros E. apply strncmp_prefix in E as [r ->]; [|done|by_evaluation].
    assert (is_path_prefix (clientmnt ++ r) (str ".broker") = true); [|congruence].
    apply is_path_prefix_spec; [done|by_evaluation|]. right. right. by exists (str "client/" ++ r).
Qed.

Lemma mount_register_spec b i point :
  clients_ok b → subs_match b → mounts_ok b → wf_cstr point → point ≠ [] → outside point →
  Z.of_nat (length (mounts b)) < 2 ^ 61 →
  (∃ evs, mount_register pack fresh i point b =
      inl (set_mounts (add_mount (mounts b) (Mount point i)) (emits evs b), true) ∧
    ∀ m, m ∈ mounts b → mpath m ≠ point) ∨
  mount_register pack fresh i point b = inl (b, false).
Proof.
  intros Hc Hs [Hk Hn] Hp Hne Ho Hlen. unfold mount_register. rewrite (bind_run _ _ _ _ _ eq_refl).
  unfold mount_allowed. simpl. rewrite mounted_client_search by done.
  pose proof (search_mounts_sound (mounts b) point Hn (proj1 Hk) ltac:(lia) Hp) as Hf.
  destruct (existsb _ (mounts b)) eqn:Ex; [by right|].
  destruct (search_mounts (mounts b) point); [by right| |done]. left.
  destruct (lsmod_spec b point true Hc Hs Hp) as (v & _ & E).
  eexists. split.
  { rewrite (bind_run _ _ b b true eq_refl). cbn [negb].
    rewrite (bind_run _ _ _ _ _ E). done. }
  intros m Hm <-. rewrite <-not_true_iff_false in Ex. apply Ex. apply existsb_exists.
  exists m. split; [by apply list_elem_of_In|]. apply is_path_prefix_spec; [done..|]. right. by left.
Qed.

Lemma mount_unregister_spec b point :
  clients_ok b → subs_match b → mounts_ok b → wf_cstr point → Z.of_nat (length (mounts b)) < 2 ^ 61 →
  ∃ ms evs, mount_unregister pack fresh point b = inl (set_mounts ms (emits evs b), tt) ∧
    mounts_ok (set_mounts ms b) ∧ ∀ m, m ∈ ms ↔ m ∈ mounts b ∧ mpath m ≠ point.
Proof.
  intros Hc Hs [Hk Hn] Hp Hlen. unfold mount_unregister. rewrite (bind_run _ _ _ _ _ eq_refl).
  pose proof (del_mount_keyed (mounts b) point Hk ltac:(lia) Hp) as H.
  destruct (del_mount (mounts b) point) as [ms|].
  - destruct H as (Hk' & _ & Hin). exists ms.
    destruct (lsmod_spec (set_mounts ms b) point false Hc Hs Hp) as (v & _ & E). eexists. split_and!.
    + rewrite (bind_run _ _ _ _ _ eq_refl). exact E.
    + split; [done|]. apply Forall_forall. intros x [Hx _]%Hin. rewrite Forall_forall in Hn. by apply Hn.
    + done.
  - exists (mounts b), []. rewrite emits_nil. split_and!; [by destruct b|done|]. intros m. split; [|tauto].
    intros Hm. split; [done|by apply H].
Qed.

(** *** Roles *)

Lemma role_subscribe_spec b i r :
  subs_ok b → Forall safe_ri (subscriptions r) → (∃ c, slot_at b i = Some (Live c)) →
  Z.of_nat (length (subs b) + length (subscriptions r)) < 2 ^ 61 →
  ∃ ss, role_subscribe i r b = inl (set_subs ss b, ROLE_RES_OK) ∧ subs_ok (set_subs ss b) ∧
    ∀ r' j, wants ss r' j ↔ wants (subs b) r' j ∨ r' ∈ subscriptions r ∧ j = i.
Proof.
  intros Hs Hr Hi Hfit. unfold role_subscribe.
  assert (∃ ss, each (λ ri, modify (λ b, set_subs (subscribe (subs b) ri i).1 b)) (subscriptions r) b =
      inl (set_subs ss b, tt) ∧ subs_ok (set_subs ss b) ∧
      ∀ r' j, wants ss r' j ↔ wants (subs b) r' j ∨ r' ∈ subscriptions r ∧ j = i) as (ss & E & Hok & Hw).
  2:{ exists ss. split_and!; [|done..]. by rewrite (bind_run _ _ _ _ _ E). }
  revert b Hs Hi Hfit. induction Hr as [|x l Hx Hl IH]; intros b Hs Hi Hfit.
  - exists (subs b). split_and!; [by destruct b|by destruct b|]. intros r' j. split; [by left|].
    by intros [?|[?%not_elem_of_nil _]].
  - destruct Hi as [c Hi]. pose proof (slot_range _ _ _ Hi) as Hrange. simpl in Hfit.
    pose proof (subscribe_spec (subs b) x i (proj1 (proj1 Hs)) (proj1 Hx) ltac:(lia) ltac:(lia)) as H.
    pose proof (subscribe_length (subs b) x i) as Hlen.
    destruct (subscribe (subs b) x i) as [ss1 ok] eqn:E1. destruct H as (Hwf & _ & Hw1). simpl in Hlen.
    destruct (IH (set_subs ss1 b)) as (ss & E & Hok & Hw).
    + split; [split; [done|]|]; intros r' j [Hj|[-> ->]]%Hw1; [by eapply Hs|done|by eapply Hs|by exists c].
    + by exists c.
    + simpl. lia.
    + exists ss. split_and!.
      * simpl. rewrite (bind_run _ _ _ (set_subs ss1 b) tt) by (unfold modify; by rewrite E1). done.
      * done.
      * intros r' j. rewrite Hw. simpl. rewrite Hw1, elem_of_cons. naive_solver.
Qed.

(** The state with another client at [i]. *)
Definition put b (i : Z) (s : slot) : rpcbroker P := set_clients (<[Z.to_nat i := s]> (clients b)) b.

Lemma update_client_run b i c f :
  slot_at b i = Some (Live c) → update_client i f b = inl (put b i (Live (f c)), tt).
Proof.
  intros Hi. unfold update_client. rewrite (bind_run _ _ b b c); [done|]. unfold client_at. by rewrite Hi.
Qed.

Lemma slot_put b i s t : slot_at b i = Some t → slot_at (put b i s) i = Some s.
Proof. intros Hi. unfold put. rewrite slot_insert by (by eapply slot_range). by rewrite decide_True. Qed.

Lemma slot_put_ne b i j s t : slot_at b i = Some t → j ≠ i → slot_at (put b i s) j = slot_at b j.
Proof. intros Hi Hj. unfold put. rewrite slot_insert by (by eapply slot_range). by rewrite decide_False. Qed.

Lemma put_put b i s s' : put (put b i s) i s' = put b i s'.
Proof. unfold put, set_clients. simpl. by rewrite list_insert_insert_eq. Qed.

Lemma put_same b i s : slot_at b i = Some s → put b i s = b.
Proof.
  unfold slot_at, put. destruct (Z.leb_spec 0 i); [|done]. intros E. rewrite list_insert_id by done. by destruct b.
Qed.

Lemma subs_ok_put b i c c' : subs_ok b → slot_at b i = Some (Live c) → subs_ok (put b i (Live c')).
Proof.
  intros [Hm Hw] Hi. split; [done|]. intros r j [d Hd]%Hw.
  unfold put. rewrite slot_insert by (by eapply slot_range). destruct (decide (i = j)); [by exists c'|by exists d].
Qed.

(** The mount points agree with the clients again. *)
Lemma mounted_settled b b' i c' :
  mounted_but i b → (∀ j, j ≠ i → slot_at b' j = slot_at b j) → slot_at b' i = Some (Live c') →
  (∀ m, m ∈ mounts b' ↔ m ∈ mounts b ∨
     mcid m = i ∧ ∃ r, role c' = Some r ∧ mount_point r = Some (mpath m)) →
  mounted b'.
Proof.
  intros Hm Hj Hi Hin m. rewrite Hin, (Hm m). unfold has_mount. destruct (decide (mcid m = i)) as [->|Hne].
  - rewrite Hi. naive_solver.
  - rewrite Hj by done. naive_solver.
Qed.

Definition settled (res : role_res) (r : rpcbroker_role) : option rpcbroker_role :=
  match res with ROLE_RES_OK => Some r | _ => None end.

(** What the assignment of a role comes to. *)
Definition assigned b i c r (b' : rpcbroker P) (res : role_res) : Prop :=
  frame b b' ∧ clients b' = clients (put b i (Live (set_role (settled res r) c))) ∧
  subs_ok b' ∧ mounts_ok b' ∧ mounted b' ∧ (∀ r' j, wants (subs b) r' j → wants (subs b') r' j) ∧
  (∃ evs, events b' = events b ++ evs) ∧
  (res ≠ ROLE_RES_OK →
    b' = emits (if rfree r then [Released i] else []) (put b i (Live (set_role None c)))).

Lemma role_refused_spec b i c r res :
  subs_ok b → mounts_ok b → mounted_but i b → slot_at b i = Some (Live c) → res ≠ ROLE_RES_OK →
  ∃ b', role_refused i r res (put b i (Live (set_role (Some r) c))) = inl (b', res) ∧ assigned b i c r b' res.
Proof.
  intros Hs Hm Hb Hi Hres.
  exists (emits (if rfree r then [Released i] else []) (put b i (Live (set_role None c)))). split.
  - unfold role_refused. rewrite (bind_run _ _ _ _ _ (update_client_run _ i _ _ (slot_put _ _ _ _ Hi))).
    rewrite put_put. destruct (rfree r); [done|]. by rewrite emits_nil.
  - assert (settled res r = None) as E by (by destruct res). unfold assigned. rewrite E.
    split_and!; try done; [by apply (subs_ok_put b i c)| |by eexists].
    apply (mounted_settled b _ i (set_role None c) Hb).
    + intros j Hj. by apply (slot_put_ne b i j _ (Live c)).
    + by apply (slot_put b i _ (Live c)).
    + intros m. simpl. split; [by left|]. by intros [?|(_ & r' & ? & _)].
Qed.

(** The role and the mount point are there, the subscriptions are still to be made. *)
Lemma role_accepted_spec b i c r ms evs :
  subs_ok b → mounted_but i b → slot_at b i = Some (Live c) → role_ok r → fits b (length (subscriptions r)) →
  mounts_ok (set_mounts ms b) →
  (∀ m, m ∈ ms ↔ m ∈ mounts b ∨ mcid m = i ∧ mount_point r = Some (mpath m)) →
  ∃ b', role_subscribe i r (set_mounts ms (emits evs (put b i (Live (set_role (Some r) c))))) =
    inl (b', ROLE_RES_OK) ∧ assigned b i c r b' ROLE_RES_OK.
Proof.
  intros Hs Hb Hi [_ Hr] Hfit Hms Hin. set (b1 := set_mounts ms _).
  destruct (role_subscribe_spec b1 i r) as (ss & E & Hss & Hw).
  - by apply (subs_ok_put b i c).
  - done.
  - eexists. by apply (slot_put b i _ (Live c)).
  - apply Hfit.
  - exists (set_subs ss b1). split; [done|]. split_and!; try done.
    + apply (mounted_settled b _ i (set_role (Some r) c) Hb).
      * intros j Hj. by apply (slot_put_ne b i j _ (Live c)).
      * by apply (slot_put b i _ (Live c)).
      * intros m. simpl. rewrite Hin. naive_solver.
    + intros r' j Hj. apply Hw. by left.
    + by eexists.
Qed.

Lemma role_assign_spec b i c r :
  clients_ok b → subs_ok b → mounts_ok b → mounted_but i b → slot_at b i = Some (Live c) → role_ok r →
  fits b (length (subscriptions r)) →
  ∃ b' res, role_assign pack fresh i r b = inl (b', res) ∧ assigned b i c r b' res ∧
    (mount_point r = None → res = ROLE_RES_OK).
Proof.
  intros Hc Hs Hm Hb Hi Hr Hfit. unfold role_assign. rewrite (bind_run _ _ _ _ _ (update_client_run _ _ _ _ Hi)).
  set (b1 := put b i (Live (set_role (Some r) c))).
  destruct (mount_point r) as [point|] eqn:Ep.
  2:{ destruct (role_accepted_spec b i c r (mounts b) []) as (b' & E & Ha); [done..|by destruct b| |].
      - rewrite Ep. intros m. split; [by left|]. by intros [?|[_ ?]].
      - exists b', ROLE_RES_OK. rewrite emits_nil in E. by destruct b. }
  assert (wf_cstr point) as Hp by (destruct Hr as [Hr _]; by rewrite Ep in Hr).
  destruct (mount_invalid point) eqn:Ei.
  { destruct (role_refused_spec b i c r ROLE_RES_MNT_INVALID) as (b' & E & Ha); [done..|].
    by exists b', ROLE_RES_MNT_INVALID. }
  destruct (mount_invalid_spec point Hp Ei) as [Hne Ho].
  destruct (mount_register_spec b1 i point) as [(evs & E & Hfree)|E]; try done.
  - apply clients_ok_put; [done|by eapply slot_range|done|]. intros ? [= <-]. exact (live_cid b i c Hc Hi).
  - apply Hs.
  - apply Hfit.
  - rewrite (bind_run _ _ _ _ _ E). cbn [negb].
    destruct (add_mount_keyed (mounts b) point i (proj1 Hm) Hp Hfree) as [Hk Hin].
    destruct (role_accepted_spec b i c r (add_mount (mounts b) (Mount point i)) evs) as (b' & E' & Ha); try done.
    + split; [done|]. apply Forall_forall. intros m [->|Hx]%Hin; [done|]. destruct Hm as [_ Hn].
      rewrite Forall_forall in Hn. by apply Hn.
    + intros m. rewrite Hin, Ep. destruct m. naive_solver.
    + by exists b', ROLE_RES_OK.
  - rewrite (bind_run _ _ _ _ _ E). cbn [negb].
    destruct (role_refused_spec b i c r ROLE_RES_MNT_EXISTS) as (b' & E' & Ha); [done..|].
    by exists b', ROLE_RES_MNT_EXISTS.
Qed.

(** The client has the mount point by its role. *)
Definition points_at (c : clientctx) (point : cstr) : Prop :=
  ∃ r, role c = Some r ∧ mount_point r = Some point.

Lemma role_unassign_spec b c :
  clients_ok b → subs_match b → mounts_ok b → fits b 0 → (∀ p, points_at c p → wf_cstr p) →
  ∃ ms evs, role_unassign pack fresh c b = inl (set_mounts ms (emits evs b), set_role None c) ∧
    mounts_ok (set_mounts ms b) ∧ ∀ m, m ∈ ms ↔ m ∈ mounts b ∧ ¬ points_at c (mpath m).
Proof.
  intros Hc Hs Hm [Hfit _] Hp. unfold role_unassign, points_at in *. destruct (role c) as [r|] eqn:Er.
  2:{ exists (mounts b), []. rewrite emits_nil. split_and!; [by destruct b, c; simplify_eq/=|by destruct b|naive_solver]. }
  destruct (mount_point r) as [p|] eqn:Ep.
  - destruct (mount_unregister_spec b p Hc Hs Hm) as (ms & evs & E & Hms & Hin); [naive_solver|done|].
    rewrite (bind_run _ _ _ _ _ E). exists ms, (evs ++ if rfree r then [Released (cid c)] else []).
    split_and!; [|done|naive_solver]. rewrite <-emits_app. by destruct (rfree r); rewrite ?emits_nil.
  - rewrite (bind_run _ _ b b tt eq_refl). exists (mounts b), (if rfree r then [Released (cid c)] else []).
    split_and!; [|by destruct b|naive_solver]. by destruct (rfree r); rewrite ?emits_nil; destruct b.
Qed.

(** The mount point of a client is the one with its number. *)
Lemma mounted_points b i c m :
  mounts_ok b → mounted b → slot_at b i = Some (Live c) → m ∈ mounts b →
  points_at c (mpath m) ↔ mcid m = i.
Proof.
  intros [Hk _] Hm Hi Hin. split.
  - intros (r & Hr & Hp). assert (Mount (mpath m) i ∈ mounts b) as Hin' by (apply Hm; by exists c, r).
    apply list_elem_of_lookup_1 in Hin as [x Hx], Hin' as [y Hy].
    assert (x = y) as -> by (by eapply (keyed_inj mpath (mounts b))). destruct m. by simplify_eq/=.
  - intros <-. apply Hm in Hin as (c' & r & Hc' & ? & ?). simplify_eq. by exists r.
Qed.

Lemma mounted_wf b i c p : mounts_ok b → mounted b → slot_at b i = Some (Live c) → points_at c p → wf_cstr p.
Proof.
  intros [[Hw _] _] Hm Hi (r & Hr & Hp). rewrite Forall_forall in Hw.
  apply (Hw (Mount p i)). apply Hm. by exists c, r.
Qed.

(** *** Locks *)

Lemma lock_run b : locked b = false → broker_lock b = inl (set_locked (negb (nolock b)) b, tt).
Proof. intros E. unfold broker_lock. rewrite E. destruct b as [? [] ? ? ? ? [] ?]; by simplify_eq/=. Qed.

Lemma unlock_run b : (nolock b = true → locked b = false) → broker_unlock b = inl (set_locked false b, tt).
Proof.
  unfold broker_unlock. intros H. destruct (nolock b) eqn:E; [|done]. specialize (H eq_refl).
  destruct b. by simplify_eq/=.
Qed.

(** *** Registration *)

Lemma free_cid_spec now l use :
  length use = length l →
  let n := free_cid now l use in
  (n ≤ length l)%nat ∧
  ((n < length l)%nat → l !! n = Some Empty ∧ ∃ t, use !! n = Some t ∧ t < now - REUSE_TIMEOUT).
Proof.
  revert use. induction l as [|s l IH]; intros [|t use] Hl; simplify_eq/=; [lia|].
  destruct (IH use Hl) as [Hle Hlt]. destruct s as [|c|]; simpl.
  - destruct (Z.geb_spec t (now - REUSE_TIMEOUT)); simpl; [split; [lia|intros; apply Hlt; lia]|].
    split; [lia|]. intros _. split; [done|]. by exists t.
  - split; [lia|intros; apply Hlt; lia].
  - split; [lia|intros; apply Hlt; lia].
Qed.

Lemma grow_spec b n :
  clients_ok b → (n ≤ length (clients b))%nat → ((n < length (clients b))%nat → clients b !! n = Some Empty) →
  clients_ok (grow b n) ∧ slot_at (grow b n) (Z.of_nat n) = Some Empty ∧
  (∀ j c, slot_at (grow b n) j = Some (Live c) ↔ slot_at b j = Some (Live c)).
Proof.
  intros (Hl & Hne & Hc) Hn Hfree. unfold grow, slot_at. destruct (Nat.eqb_spec n (length (clients b))) as [->|Hlt].
  - split; [split_and!|split].
    + simpl. rewrite !length_app, !length_replicate. lia.
    + simpl. rewrite length_app. lia.
    + intros i s. simpl. intros [?|[_ [-> _]%lookup_replicate_1]]%lookup_app_Some; [by apply Hc|done].
    + rewrite (proj2 (Z.leb_le _ _)) by lia. simpl. rewrite Nat2Z.id, lookup_app_r, Nat.sub_diag by lia.
      by apply lookup_replicate_2.
    + intros j c. destruct (Z.leb_spec 0 j); [|done]. simpl. rewrite lookup_app_Some. split; [|by left].
      by intros [?|[_ [? _]%lookup_replicate_1]].
  - split_and!; [done..| |done]. rewrite (proj2 (Z.leb_le _ _)) by lia. rewrite Nat2Z.id. apply Hfree. lia.
Qed.

(** States with the same clients, mount points and subscriptions. *)
Lemma live_transport b b' :
  (∀ j c, slot_at b' j = Some (Live c) ↔ slot_at b j = Some (Live c)) →
  mounts b' = mounts b → subs b' = subs b →
  (subs_ok b → subs_ok b') ∧ (mounted b → mounted b') ∧ (ttl_ok b → ttl_ok b').
Proof.
  intros Hl Hm Hs. unfold subs_ok, subs_match, mounted, has_mount, ttl_ok. rewrite Hm, Hs. split_and!.
  - intros [? Hw]. split; [done|]. intros r i [c Hc]%Hw. exists c. by apply Hl.
  - intros H m. rewrite H. by setoid_rewrite Hl.
  - intros H i c Hi%Hl. by apply H.
Qed.

Lemma mounted_but_empty b i : mounted b → (∀ c, slot_at b i ≠ Some (Live c)) → mounted_but i b.
Proof.
  intros Hm Hi m. rewrite (Hm m). split; [|tauto]. intros Hh. split; [|done].
  intros E. destruct Hh as (c & r & Hc & _). rewrite E in Hc. by apply Hi in Hc.
Qed.

Lemma mounted_but_put b i s t : mounted_but i b → slot_at b i = Some t → mounted_but i (put b i s).
Proof.
  intros Hm Hi m. rewrite (Hm m). unfold has_mount.
  split; intros [Hne Hh]; (split; [done|]); [by rewrite (slot_put_ne b i _ _ t)|by rewrite (slot_put_ne b i _ _ t) in Hh].
Qed.

(** The state in the middle of a registration. *)
Definition registering b now contrack r : rpcbroker P :=
  let n := free_cid now (clients b) (clients_lastuse b) in
  put (grow (set_locked (negb (nolock b)) b) n) (Z.of_nat n) (Live (client_new (Z.of_nat n) now contrack r)).

Lemma registering_spec b now contrack r :
  broker_inv b →
  let b1 := registering b now contrack r in
  let i := Z.of_nat (free_cid now (clients b) (clients_lastuse b)) in
  clients_ok b1 ∧ subs_ok b1 ∧ mounts_ok b1 ∧ mounted_but i b1 ∧ ttl_ok b1 ∧
  slot_at b1 i = Some (Live (client_new i now contrack r)) ∧ (∀ c, slot_at b i ≠ Some (Live c)) ∧
  (∀ j c, j ≠ i → slot_at b1 j = Some (Live c) ↔ slot_at b j = Some (Live c)) ∧
  (nolock b1 = true → locked b1 = false) ∧ nolock b1 = nolock b ∧ mounts b1 = mounts b ∧ subs b1 = subs b.
Proof.
  intros (Hc & Hs & Hm & Hmt & Ht & Hl) b1 i. pose proof Hc as (Hlen & _ & _).
  destruct (free_cid_spec now (clients b) (clients_lastuse b) Hlen) as [Hn Hfree].
  set (n := free_cid now (clients b) (clients_lastuse b)) in *. set (b0 := set_locked (negb (nolock b)) b).
  destruct (grow_spec b0 n Hc Hn (λ H, proj1 (Hfree H))) as (Hc' & He & Hlive).
  assert (mounts (grow b0 n) = mounts b ∧ subs (grow b0 n) = subs b ∧ nolock (grow b0 n) = nolock b ∧
    locked (grow b0 n) = negb (nolock b)) as (Emt & Esb & Enl & Elk).
  { unfold grow. by destruct (_ =? _)%nat. }
  destruct (live_transport b (grow b0 n) Hlive Emt Esb) as (Hs' & Hmt' & Ht').
  specialize (Hs' Hs). specialize (Hmt' Hmt). specialize (Ht' Ht).
  assert (∀ c, slot_at b i ≠ Some (Live c)) as Hno by (intros c Hi%Hlive; fold i in He; congruence).
  assert (∀ j c, j ≠ i → slot_at b1 j = Some (Live c) ↔ slot_at b j = Some (Live c)) as Hoth.
  { intros j c Hj. unfold b1, registering. fold n b0. rewrite (slot_put_ne _ i j _ Empty) by done. by apply Hlive. }
  assert (slot_at b1 i = Some (Live (client_new i now contrack r))) as Hi by (by apply (slot_put _ _ _ Empty)).
  split_and!; try done.
  - apply clients_ok_put; [done|lia|done|]. by intros c [= <-].
  - destruct Hs' as [? Hw]. split; [done|]. intros r' j [d Hd]%Hw. destruct (decide (j = i)) as [->|Hj]; [by eexists|].
    exists d. apply Hoth; [done|]. by apply Hlive.
  - unfold mounts_ok. change (mounts b1) with (mounts (grow b0 n)). by rewrite Emt.
  - apply (mounted_but_put (grow b0 n) i _ Empty); [|done]. apply mounted_but_empty; [done|]. intros c. unfold i. fold n. by rewrite He.
  - intros j c Hj. destruct (decide (j = i)) as [->|Hne].
    + rewrite Hi in Hj. simplify_eq/=. split; [constructor|]. by intros t ?%not_elem_of_nil.
    + apply (Ht' j c). by apply Hlive, Hoth.
  - change (nolock (grow b0 n) = true → locked (grow b0 n) = false). rewrite Enl, Elk. by intros ->.
Qed.

Lemma register_unfold b now contrack r :
  locked b = false →
  let n := free_cid now (clients b) (clients_lastuse b) in
  let i := Z.of_nat n in
  rpcbroker_client_register pack fresh now contrack r b =
  (res ← match r with Some r => role_assign pack fresh i r | None => mret ROLE_RES_OK end;
   match res with
   | ROLE_RES_OK => broker_unlock;; mret i
   | _ =>
       modify (λ b, set_lastuse (<[n := 0]> (clients_lastuse b)) b);;
       put_slot i Freed;;
       mret (-1)
   end) (registering b now contrack r).
Proof. intros Hl n i. unfold rpcbroker_client_register. by rewrite (bind_run _ _ _ _ _ (lock_run b Hl)). Qed.

(** The invariant with the lock released. *)
Lemma unlocked_inv b :
  clients_ok b → subs_ok b → mounts_ok b → mounted b → ttl_ok b → broker_inv (set_locked false b).
Proof. by intros. Qed.

(** Another client at [i], others as they were. *)
Definition others b b' (i : Z) : Prop :=
  ∀ j c, j ≠ i → slot_at b' j = Some (Live c) ↔ slot_at b j = Some (Live c).

Lemma register_spec b now contrack r :
  broker_inv b → (∀ r', r = Some r' → role_ok r' ∧ fits b (length (subscriptions r'))) →
  let i := Z.of_nat (free_cid now (clients b) (clients_lastuse b)) in
  ∃ b', (rpcbroker_client_register pack fresh now contrack r b = inl (b', i) ∧ broker_inv b' ∧
      slot_at b' i = Some (Live (client_new i now contrack r)) ∧ others b b' i) ∨
    (rpcbroker_client_register pack fresh now contrack r b = inl (b', -1) ∧
      (∃ r' p, r = Some r' ∧ mount_point r' = Some p) ∧ locked b' = negb (nolock b') ∧ slot_at b' i = Some Freed).
Proof.
  intros Hinv Hr i. destruct (registering_spec b now contrack r Hinv) as
    (Hc & Hs & Hm & Hmt & Ht & Hi & _ & Hoth & Hlk & Enl & Emt & Esb). fold i in Hmt, Hi, Hoth.
  set (b1 := registering b now contrack r) in *. rewrite register_unfold by apply Hinv. fold i b1.
  destruct r as [r|].
  2:{ exists (set_locked false b1). left. rewrite (bind_run _ _ b1 b1 ROLE_RES_OK eq_refl).
      rewrite (bind_run _ _ _ _ _ (unlock_run b1 Hlk)). split_and!; try done.
      apply unlocked_inv; try done. apply (mounted_settled b1 b1 i (client_new i now contrack None) Hmt); [done|done|].
      intros m. split; [by left|]. by intros [?|(_ & r' & ? & _)]. }
  destruct (Hr r eq_refl) as [Hok Hfit].
  destruct (role_assign_spec b1 i _ r Hc Hs Hm Hmt Hi Hok) as (b' & res & E & Ha & Hno).
  { unfold fits. by rewrite Emt, Esb. }
  rewrite (bind_run _ _ _ _ _ E). destruct Ha as ((_ & Enl' & Elk' & Elu) & Ecl & Hs' & Hm' & Hmt' & Hmono & _ & _).
  assert (∀ j, slot_at b' j = slot_at (put b1 i (Live (set_role (settled res r) (client_new i now contrack (Some r))))) j)
    as Hslot by (intros j; unfold slot_at; by rewrite Ecl).
  destruct (decide (res = ROLE_RES_OK)) as [->|Hres].
  - exists (set_locked false b'). left. rewrite (bind_run _ _ _ _ _ (unlock_run b' ltac:(by rewrite Enl', Elk'))).
    simpl settled in Hslot, Ecl.
    change (set_role (Some r) (client_new i now contrack (Some r))) with (client_new i now contrack (Some r)) in Hslot, Ecl.
    rewrite put_same in Hslot, Ecl by done.
    split_and!; [done| |by change (slot_at b' i = Some (Live (client_new i now contrack (Some r)))); rewrite Hslot|
      intros j c Hj; change (slot_at b' j = Some (Live c) ↔ slot_at b j = Some (Live c)); rewrite Hslot; by apply Hoth].
    apply unlocked_inv; try done.
    + destruct Hc as (Hl1 & Hl2 & Hl3). unfold clients_ok. by rewrite Ecl, Elu.
    + intros j c Hj. rewrite Hslot in Hj. destruct (Ht j c Hj) as [Hnd Hin]. split; [done|]. naive_solver.
  - exists (put (set_lastuse (<[Z.to_nat i := 0]> (clients_lastuse b')) b') i Freed). right. split_and!.
    + unfold i. rewrite Nat2Z.id. by destruct res.
    + destruct (mount_point r) as [p|] eqn:Ep; [by exists r, p|]. by destruct Hres; apply Hno.
    + simpl. rewrite Elk', Enl', Enl. unfold b1, registering. simpl. unfold grow. by destruct (_ =? _)%nat.
    + apply (slot_put _ i _ (Live (set_role (settled res r) (client_new i now contrack (Some r))))).
      change (slot_at b' i = Some (Live (set_role (settled res r) (client_new i now contrack (Some r))))).
      rewrite Hslot. by apply (slot_put b1 i _ (Live (client_new i now contrack (Some r)))).
Qed.

Lemma unregister_spec b now i c :
  broker_inv b → slot_at b i = Some (Live c) → fits b 0 →
  ∃ b', rpcbroker_client_unregister pack fresh now i b = inl (b', tt) ∧ broker_inv b' ∧
    slot_at b' i = Some Empty ∧ others b b' i ∧ ∀ r j, wants (subs b') r j ↔ wants (subs b) r j ∧ j ≠ i.
Proof.
  intros (Hc & Hs & Hm & Hmt & Ht & Hl) Hi Hfit. pose proof (slot_range _ _ _ Hi) as [Hi0 _].
  set (b0 := set_locked (negb (nolock b)) b).
  set (b1 := set_lastuse (<[Z.to_nat i := now]> (clients_lastuse b)) (put b0 i Empty)).
  assert (clients_ok b1) as Hc1.
  { destruct (clients_ok_put b i Empty Hc Hi0) as (? & ? & ?); [done..|]. split_and!; [|done..].
    simpl in *. by rewrite length_insert. }
  destruct (role_unassign_spec b1 c Hc1 (proj1 Hs) Hm Hfit) as (ms & evs & E & Hms & Hin).
  { intros p. by apply (mounted_wf b i c p). }
  destruct (unsubscribe_all_spec (subs b) i) as [Hwf Hw]; [apply Hs|done|].
  assert (∀ j, j ≠ i → slot_at b1 j = slot_at b j) as Hj by (intros j Hj; by apply (slot_put_ne b i j _ (Live c))).
  assert (slot_at b1 i = Some Empty) as Hi1 by (by apply (slot_put b i _ (Live c))).
  set (b3 := set_subs (unsubscribe_all (subs b) i) (set_mounts ms (emits evs b1))).
  exists (set_locked false b3). split_and!.
  - unfold rpcbroker_client_unregister. rewrite (bind_run _ _ _ _ _ (lock_run b Hl)). fold b0.
    rewrite (bind_run _ _ b0 b0 b0 eq_refl), (bind_run _ _ b0 b0 (Live c)).
    2:{ unfold need. change (slot_at b0 i) with (slot_at b i). by rewrite Hi. }
    rewrite (bind_run _ _ b0 (put b0 i Empty) tt eq_refl), (bind_run _ _ _ b1 tt eq_refl).
    rewrite (bind_run _ _ b1 b1 c eq_refl), (bind_run _ _ _ _ _ E), (bind_run _ _ _ b3 tt eq_refl).
    apply unlock_run. simpl. by intros ->.
  - apply unlocked_inv; [done| |done| |].
    + split; [split; [done|]|]; intros r j [Hwj Hne]%Hw; [by apply (proj2 (proj1 Hs) r j)|].
      destruct (proj2 Hs r j Hwj) as [d Hd]. exists d. change (slot_at b1 j = Some (Live d)). by rewrite Hj.
    + intros m. change (m ∈ ms ↔ has_mount b1 (mcid m) (mpath m)). rewrite Hin. simpl.
      destruct (decide (mcid m = i)) as [E'|Hne].
      * split; [|intros (d & r & Hd & _); congruence]. intros [Hmm Hp]. exfalso. apply Hp. by apply (mounted_points b i).
      * unfold has_mount. rewrite (Hj _ Hne). rewrite <-(Hmt m). split; [tauto|]. intros Hmm.
        split; [done|]. by rewrite (mounted_points b i).
    + intros j d Hd. change (slot_at b1 j = Some (Live d)) in Hd.
      assert (j ≠ i) by (intros ->; congruence). rewrite Hj in Hd by done. destruct (Ht j d Hd) as [Hnd Hin'].
      split; [done|]. intros t Ht'. apply Hw. auto.
  - done.
  - intros j d Hne. change (slot_at b1 j = Some (Live d) ↔ slot_at b j = Some (Live d)). by rewrite Hj.
  - done.
Qed.
End invariant.
