(* ===== verification/Handler.v ===== *)
(** * The message handler ([libshvrpc/rpchandler.c], [include/shv/rpchandler.h],
      [include/shv/rpchandler_impl.h])

    Received messages go through the stages of the handler until one of them deals
    with it; [ls] and [dir] are answered from all of them.  The state the stages
    share is a parameter, and so is the client the handler works with: what sending
    and ignoring a message does to that state. *)

From stdpp Require Import pretty.
From S2P Require Import Prelude Effects Stdio CpItem CpUnpack CpPack CpObstack CpLoops.
From S2P Require Import Rpcri Rpcaccess Strset RpcError RpcDir RpcMsg RpcHead.

(** ** Messages *)

Inductive rpchandler_msg_res := RPCHANDLER_MSG_SKIP | RPCHANDLER_MSG_DONE | RPCHANDLER_MSG_STOP.

#[export] Instance msg_res_eq_dec : EqDecision rpchandler_msg_res.
Proof. solve_decision. Defined.

(** [hunpack] is [NULL] once the message was validated; [hvalid] is what
    [rpcclient_validmsg] says of it.  The obstack is the one of the handler. *)
Record rpchandler_msg (U : Type) : Type := Msg {
  hmeta : rpcmsg_meta;
  hunpack : option U;
  hitem : cpitem;
  hobs : obstack;
  hvalid : bool }.
Arguments Msg {U} _ _ _ _ _.
Arguments hmeta {U} _.
Arguments hunpack {U} _.
Arguments hitem {U} _.
Arguments hobs {U} _.
Arguments hvalid {U} _.

(** [rpchandler_ls] and [rpchandler_dir] with what the handler adds to them. *)
Record ls_ctx (P U : Type) : Type := LsCtx {
  lpath : cstr;
  lname : option cstr;
  lmctx : option (rpchandler_msg U);
  lpack : option P;
  lstrset : strset;
  llocated : bool }.
Arguments LsCtx {P U} _ _ _ _ _ _.
Arguments lpath {P U} _.
Arguments lname {P U} _.
Arguments lmctx {P U} _.
Arguments lpack {P U} _.
Arguments lstrset {P U} _.
Arguments llocated {P U} _.

Record dir_ctx (P : Type) : Type := DirCtx {
  dpath : cstr; dname : option cstr; dpack : P; dlocated : bool }.
Arguments DirCtx {P} _ _ _ _.
Arguments dpath {P} _.
Arguments dname {P} _.
Arguments dpack {P} _.
Arguments dlocated {P} _.

Record idle_ctx : Type := IdleCtx { last_send : Z; msg_sent : bool }.

Definition RPCHANDLER_IDLE_SKIP : Z := 2 ^ 31 - 1.
Definition RPCHANDLER_IDLE_STOP : Z := - 2 ^ 31.
Definition RPCHANDLER_IDLE_AGAIN : Z := 0.
Definition RPCHANDLER_IDLE_LAST (v : Z) : Z := - v.

(** The functions of a stage, each with the cookie it is called with. *)
Record rpchandler_funcs (S P U : Type) : Type := Funcs {
  fmsg : option (rpchandler_msg U → M S (rpchandler_msg U * rpchandler_msg_res));
  fls : option (ls_ctx P U → M S (ls_ctx P U));
  fdir : option (dir_ctx P → M S (dir_ctx P));
  fidle : option (idle_ctx → M S (idle_ctx * Z));
  freset : option (M S unit) }.
Arguments Funcs {S P U} _ _ _ _ _.
Arguments fmsg {S P U} _.
Arguments fls {S P U} _.
Arguments fdir {S P U} _.
Arguments fidle {S P U} _.
Arguments freset {S P U} _.

(** What [rpcclient_nextmsg] gives: a message with its unpacker. *)
Inductive nextmsg_res (U : Type) := RPCC_MESSAGE (u : U) (valid : bool) | RPCC_RESET | RPCC_ERROR | RPCC_NOTHING.
Arguments RPCC_MESSAGE {U} _ _.
Arguments RPCC_RESET {U}.
Arguments RPCC_ERROR {U}.
Arguments RPCC_NOTHING {U}.

(** The suffix from the last occurrence. *)
Fixpoint strrchr (s : cstr) (c : Z) : option cstr :=
  match s with
  | [] => None
  | x :: s' => match strrchr s' c with Some t => Some t | None => if x =? c then Some s else None end
  end.

(** What [printf] prints for [%s]. *)
Definition print_s (s : option cstr) : cstr := default (str "(null)") s.

(** And for [%d]. *)
Definition print_d (i : Z) : cstr := of_string (pretty i).

Section handler.
Context {S P U : Type} (unpack : U → cpitem → U * cpitem) (ck : chunks) (alloc : Z → bool).
Context (gperf_rpcaccess : cstr → option Z).
Context (pack : P → cpitem → P * bool) (fresh : P).
Context (sendmsg : P → M S bool) (ignoremsg : M S unit) (connected : M S bool).
Notation M := (M S).
Notation msg := (rpchandler_msg U).
Notation funcs := (rpchandler_funcs S P U).

(** ** Unpacking *)

Definition set_read (u : U) (it : cpitem) (ctx : msg) : msg :=
  Msg (hmeta ctx) (Some u) it (hobs ctx) (hvalid ctx).
Definition set_hmeta (m : rpcmsg_meta) (ctx : msg) : msg :=
  Msg m (hunpack ctx) (hitem ctx) (hobs ctx) (hvalid ctx).
Definition set_hobs (o : obstack) (ctx : msg) : msg :=
  Msg (hmeta ctx) (hunpack ctx) (hitem ctx) o (hvalid ctx).

(** An unpacking function applied to [ctx->unpack] and [ctx->item]. *)
Definition reading {A} (f : U → cpitem → U * cpitem * A) (ctx : msg) : M (msg * A) :=
  u ← need NullPointer (hunpack ctx);
  let '(u, it, x) := f u (hitem ctx) in mret (set_read u it ctx, x).

(** [cp_unpack_strdupo] to the obstack of the handler. *)
Definition reading_str (ctx : msg) : M (msg * option cstr) :=
  u ← need NullPointer (hunpack ctx);
  let '(u, it, o, x) := strdupo unpack ck u (hitem ctx) (hobs ctx) in mret (set_hobs o (set_read u it ctx), x).

Definition rpchandler_msg_valid (ctx : msg) : msg * bool :=
  (Msg (hmeta ctx) None (hitem ctx) (hobs ctx) (hvalid ctx), hvalid ctx).

(** ** Sending *)

Definition answers (ctx : msg) : bool :=
  is_type (hmeta ctx) RPCMSG_T_REQUEST || is_type (hmeta ctx) RPCMSG_T_REQUEST_ABORT.

Definition rpchandler_msg_new (ctx : msg) : option P :=
  match hunpack ctx with Some _ => None | None => if answers ctx then Some fresh else None end.

Definition rpchandler_msg_send (ctx : msg) (p : P) : M bool := if answers ctx then sendmsg p else mret false.

Definition rpchandler_msg_new_response (ctx : msg) : option P :=
  (λ p, (rpcmsg_pack_response pack (hmeta ctx) p).1) <$> rpchandler_msg_new ctx.

Definition rpchandler_msg_send_response (ctx : msg) (p : option P) : M bool :=
  match p with
  | None => mret false
  | Some p => rpchandler_msg_send ctx (cp_pack_container_end pack p).1
  end.

(** A response with the value [body] packs. *)
Definition respond (ctx : msg) (body : P → P * bool) : M bool :=
  p ← need NullPointer (rpchandler_msg_new_response ctx);
  rpchandler_msg_send_response ctx (Some (body p).1).

(** A message packed by [c] where one can be sent. *)
Definition send_packed (ctx : msg) (c : P → P * bool) : M bool :=
  match rpchandler_msg_new ctx with None => mret false | Some p => rpchandler_msg_send ctx (c p).1 end.

Definition rpchandler_msg_send_response_void (ctx : msg) : M bool :=
  send_packed ctx (rpcmsg_pack_response_void pack (hmeta ctx)).

Definition rpchandler_msg_send_error (ctx : msg) (error : Z) (text : option cstr) : M bool :=
  send_packed ctx (rpcmsg_pack_error pack (hmeta ctx) error text).

(** [text] is the formatted message. *)
Definition rpchandler_msg_send_vferror (ctx : msg) (error : Z) (text : cstr) : M bool :=
  send_packed ctx (rpcmsg_pack_vferror pack (hmeta ctx) error text).

Definition rpchandler_msg_send_ferror := rpchandler_msg_send_vferror.

Definition rpchandler_msg_send_method_not_found (ctx : msg) : M bool :=
  p ← need NullPointer (rpchandler_msg_new ctx);
  rpchandler_msg_send ctx (rpcmsg_pack_ferror pack (hmeta ctx) RPCERR_METHOD_NOT_FOUND
    (str "No such method '" ++ print_s (method (hmeta ctx)) ++ str "' on path '" ++ print_s (path (hmeta ctx)) ++
     str "' or not accessible with given access level.") p).1.

Definition rpchandler_msg_new_signal (ctx : msg) (source signal : cstr) (access_ : Z) (repeat_ : bool) : option P :=
  (λ p, (rpcmsg_pack_signal pack (path (hmeta ctx)) source signal (user_id (hmeta ctx)) access_ repeat_ p).1) <$>
    rpchandler_msg_new ctx.

Definition rpchandler_msg_send_signal := rpchandler_msg_send_response.

Definition rpchandler_msg_new_signal_void (ctx : msg) (source signal : cstr) (access_ : Z) (repeat_ : bool) : M bool :=
  send_packed ctx (rpcmsg_pack_signal_void pack (path (hmeta ctx)) source signal (user_id (hmeta ctx)) access_ repeat_).

Definition rpchandler_msg_valid_nullparam (ctx : msg) : M (msg * bool) :=
  '(ctx, is_null) ← (if negb (rpcmsg_has_value (hitem ctx)) then mret (ctx, true)
    else '(ctx, ty) ← reading (cp_unpack_type unpack) ctx; mret (ctx, bool_decide (ty = CPITEM_NULL)));
  let '(ctx, valid) := rpchandler_msg_valid ctx in
  if valid : bool then
    if is_null : bool then mret (ctx, true)
    else
      rpchandler_msg_send_error ctx RPCERR_INVALID_PARAM (Some (str "No parameter expected"));;
      mret (ctx, false)
  else mret (ctx, false).

(** The result is the age, where one is given, of a request to be handled. *)
Definition rpchandler_msg_valid_getparam (ctx : msg) : M (msg * option (option Z)) :=
  '(ctx, ok, oldness) ← (if negb (rpcmsg_has_value (hitem ctx)) then mret (ctx, true, None)
    else
      '(ctx, _) ← reading (cp_unpack unpack) ctx;
      let ty := type (hitem ctx) in
      mret (ctx, bool_decide (ty = CPITEM_NULL) || bool_decide (ty = CPITEM_INT),
        if bool_decide (ty = CPITEM_INT) then Some (as_Int (as_ (hitem ctx))) else None));
  let '(ctx, valid) := rpchandler_msg_valid ctx in
  if valid : bool then
    if ok : bool then mret (ctx, Some oldness)
    else
      rpchandler_msg_send_error ctx RPCERR_INVALID_PARAM (Some (str "No parameter or Int expected"));;
      mret (ctx, None)
  else mret (ctx, None).

(** ** Results of [ls] and [dir] *)

Notation ls := (ls_ctx P U).
Notation dir := (dir_ctx P).

Definition set_lpack (p : option P) (ctx : ls) : ls :=
  LsCtx (lpath ctx) (lname ctx) (lmctx ctx) p (lstrset ctx) (llocated ctx).
Definition set_lstrset (v : strset) (ctx : ls) : ls :=
  LsCtx (lpath ctx) (lname ctx) (lmctx ctx) (lpack ctx) v (llocated ctx).
Definition set_llocated (v : bool) (ctx : ls) : ls :=
  LsCtx (lpath ctx) (lname ctx) (lmctx ctx) (lpack ctx) (lstrset ctx) v.
Definition set_dpack (p : P) (ctx : dir) : dir := DirCtx (dpath ctx) (dname ctx) p (dlocated ctx).
Definition set_dlocated (v : bool) (ctx : dir) : dir := DirCtx (dpath ctx) (dname ctx) (dpack ctx) v.

(** The response is started with the first name. *)
Definition pack_ls_result (name : cstr) (ctx : ls) : M ls :=
  p ← match lpack ctx with
      | Some p => mret p
      | None =>
          mctx ← need NullPointer (lmctx ctx);
          p ← need NullPointer (rpchandler_msg_new_response mctx);
          mret (cp_pack_list_begin pack p).1
      end;
  mret (set_lpack (Some (cp_pack_str pack (Some name) p).1) ctx).

(** A name is compared or, when it is new, packed; [add] adds it to the set. *)
Definition ls_name (add : strset → option (strset * bool)) (name : cstr) (ctx : ls) : M ls :=
  match lname ctx with
  | Some n => mret (set_llocated (llocated ctx || (strcmp n name =? 0)) ctx)
  | None =>
      '(set, new) ← need ReadOutside (add (lstrset ctx));
      if new : bool then pack_ls_result name (set_lstrset set ctx) else mret (set_lstrset set ctx)
  end.

Definition rpchandler_ls_result (name : cstr) (ctx : ls) : M ls :=
  ls_name (λ set, fst <$> shv_strset_add set name) name ctx.

Definition rpchandler_ls_result_const (name : cstr) (ctx : ls) : M ls :=
  ls_name (λ set, shv_strset_add_const set name) name ctx.

(** [name] is the formatted name; an assertion wants it not to be empty. *)
Definition rpchandler_ls_result_vfmt (name : cstr) (ctx : ls) : M ls :=
  if match lname ctx with Some _ => llocated ctx | None => false end then mret ctx
  else if strlen name >? 0 then
    match lname ctx with
    | Some n => mret (set_llocated (strcmp n name =? 0) ctx)
    | None => ls_name (λ set, fst <$> shv_strset_add_dyn set name) name ctx
    end
  else fails Assertion.

Definition rpchandler_ls_result_fmt := rpchandler_ls_result_vfmt.

Definition rpchandler_ls_exists (ctx : ls) : ls :=
  match lname ctx with Some _ => set_llocated true ctx | None => ctx end.

Definition rpchandler_dir_result (m : rpcdir) (ctx : dir) : M dir :=
  match dname ctx with
  | Some n =>
      if dlocated ctx then mret ctx
      else dn ← need NullPointer (RpcDir.name m); mret (set_dlocated (strcmp n dn =? 0) ctx)
  | None => mret (set_dpack (rpcdir_pack pack m (dpack ctx)).1 ctx)
  end.

Definition rpchandler_dir_exists (ctx : dir) : dir :=
  match dname ctx with Some _ => set_dlocated true ctx | None => ctx end.

(** ** Requests the handler answers itself *)

(** The name asked for and whether to go on. *)
Definition common_ls_dir (ctx : msg) : M (msg * option cstr * bool) :=
  '(ctx, name, invalid_param) ← (if rpcmsg_has_value (hitem ctx) then
      '(ctx, ty) ← reading (cp_unpack_type unpack) ctx;
      match ty with
      | CPITEM_NULL | CPITEM_LIST => mret (ctx, None, false)
      | CPITEM_STRING => '(ctx, name) ← reading_str ctx; mret (ctx, name, false)
      | _ => mret (ctx, None, true)
      end
    else mret (ctx, None, false));
  let '(ctx, valid) := rpchandler_msg_valid ctx in
  if negb valid then mret (ctx, name, false)
  else if negb invalid_param then mret (ctx, name, true)
  else
    rpchandler_msg_send_error ctx RPCERR_INVALID_PARAM (Some (str "Use Null or String with node name"));;
    mret (ctx, name, false).

(** The stages are asked until one has the name. *)
Fixpoint ask_ls (stages : list funcs) (ctx : ls) : M ls :=
  match stages with
  | [] => mret ctx
  | s :: stages =>
      if llocated ctx then mret ctx
      else ctx ← match fls s with Some f => f ctx | None => mret ctx end; ask_ls stages ctx
  end.

Fixpoint ask_dir (stages : list funcs) (ctx : dir) : M dir :=
  match stages with
  | [] => mret ctx
  | s :: stages =>
      if dlocated ctx then mret ctx
      else ctx ← match fdir s with Some f => f ctx | None => mret ctx end; ask_dir stages ctx
  end.

Definition ls_start (path : cstr) (name : option cstr) (mctx : option msg) : ls :=
  LsCtx path name mctx None (Strset [] 0) false.

(** The name is behind the last slash; the slash is put back. *)
Definition valid_path (stages : list funcs) (path : option cstr) : M bool :=
  match path with
  | None | Some [] => mret true
  | Some path =>
      let '(dir, name) :=
        match strrchr path SLASH with
        | Some slash => (take (length path - length slash) path, drop 1 slash)
        | None => ([], path)
        end in
      ctx ← ask_ls stages (ls_start dir (Some name) None);
      mret (llocated ctx)
  end.

Definition no_such_node (ctx : msg) : M unit :=
  rpchandler_msg_send_ferror ctx RPCERR_METHOD_NOT_FOUND
    (str "No such node: " ++ default [] (path (hmeta ctx)));;
  mret tt.

Definition handle_ls (stages : list funcs) (ctx : msg) : M unit :=
  '(ctx, name, go) ← common_ls_dir ctx;
  if negb go then mret tt
  else
    l ← ask_ls stages (ls_start (default [] (path (hmeta ctx))) name (Some ctx));
    found ← (if negb (llocated l) && (cnt_of (lstrset l) =? 0) then valid_path stages (path (hmeta ctx))
             else mret true);
    if negb found then no_such_node ctx
    else
      p ← match lname l with
          | None =>
              p ← match lpack l with
                  | Some p => mret p
                  | None => p ← need NullPointer (rpchandler_msg_new_response ctx); mret (cp_pack_list_begin pack p).1
                  end;
              mret (cp_pack_container_end pack p).1
          | Some _ =>
              p ← need NullPointer (rpchandler_msg_new_response ctx);
              mret (cp_pack_bool pack (llocated l) p).1
          end;
      rpchandler_msg_send ctx (cp_pack_container_end pack p).1;;
      mret tt.

Definition handle_dir (stages : list funcs) (ctx : msg) : M unit :=
  '(ctx, name, go) ← common_ls_dir ctx;
  if negb go then mret tt
  else
    found ← valid_path stages (path (hmeta ctx));
    if negb found then no_such_node ctx
    else
      match rpchandler_msg_new_response ctx with
      | None => mret tt
      | Some p =>
          (* the path of a request is never [NULL] *)
          dpath_ ← need NullPointer (path (hmeta ctx));
          let d := DirCtx dpath_ name (match name with None => (cp_pack_list_begin pack p).1 | Some _ => p end) false in
          d ← rpchandler_dir_result rpcdir_dir d;
          d ← rpchandler_dir_result rpcdir_ls d;
          d ← ask_dir stages d;
          let p := match dname d with
                   | None => (cp_pack_container_end pack (dpack d)).1
                   | Some _ => (cp_pack_bool pack (dlocated d) (dpack d)).1
                   end in
          rpchandler_msg_send ctx (cp_pack_container_end pack p).1;;
          mret tt
      end.

(** ** Messages *)

(** The verification was not done: there was no response. *)
Definition not_validated (ctx : msg) : M bool :=
  (if is_type (hmeta ctx) RPCMSG_T_REQUEST then
     let '(ctx, valid) := rpchandler_msg_valid ctx in
     if valid : bool then
       rpchandler_msg_send_error ctx RPCERR_METHOD_CALL_EXCEPTION (Some (str "No response was generated"));;
       mret tt
     else mret tt
   else ignoremsg);;
  mret true.

(** No stage wanted the message; [all] are the stages for [ls] and [dir]. *)
Definition handle_rest (all : list funcs) (ctx : msg) : M bool :=
  (match mtype (hmeta ctx) with
   | RPCMSG_T_REQUEST =>
       m ← need NullPointer (method (hmeta ctx));
       if strcmp m (str "ls") =? 0 then handle_ls all ctx
       else if strcmp m (str "dir") =? 0 then handle_dir all ctx
       else
         let '(ctx, valid) := rpchandler_msg_valid ctx in
         if valid : bool then rpchandler_msg_send_method_not_found ctx;; mret tt else mret tt
   | RPCMSG_T_REQUEST_ABORT =>
       let '(ctx, valid) := rpchandler_msg_valid ctx in
       if valid : bool then rpchandler_msg_send_error ctx RPCERR_REQUEST_INVALID None;; mret tt else mret tt
   | _ => ignoremsg
   end);;
  mret true.

Fixpoint handle_stages (all stages : list funcs) (ctx : msg) : M bool :=
  match stages with
  | [] => handle_rest all ctx
  | s :: stages =>
      match fmsg s with
      | None => handle_stages all stages ctx
      | Some f =>
          '(ctx, res) ← f ctx;
          if decide (res = RPCHANDLER_MSG_SKIP) then handle_stages all stages ctx
          else
            match hunpack ctx with
            | None => mret (bool_decide (res = RPCHANDLER_MSG_DONE))
            | Some _ => not_validated ctx
            end
      end
  end.

Definition handle_msg (stages : list funcs) (ctx : msg) : M bool := handle_stages stages stages ctx.

(** [o] is the obstack after [obstack_init] and [it] the item on the stack; the limits are not those of the handler. *)
Definition rpchandler_next (stages : list funcs) (o : obstack) (it : cpitem) (nextmsg : M (nextmsg_res U)) : M bool :=
  next ← nextmsg;
  res ← match next with
        | RPCC_MESSAGE u valid =>
            let '(u, it, (head, o)) := rpcmsg_head_unpack unpack ck alloc gperf_rpcaccess None u
              (cpitem_unpack_init it) o in
            match head with
            | HeadOk m => handle_msg stages (Msg m (Some u) it o valid)
            | HeadRefused => ignoremsg;; mret true
            | HeadCrash => fails NullPointer
            end
        | RPCC_RESET =>
            each (λ s : funcs, match freset s with Some f => f | None => mret tt end) stages;; mret true
        | RPCC_ERROR | RPCC_NOTHING => mret true
        end;
  if res : bool then connected else mret false.

(** ** Idle *)

Definition rpchandler_idle_msg_new (ctx : idle_ctx) : option P := if msg_sent ctx then None else Some fresh.

Definition rpchandler_idle_msg_send (ctx : idle_ctx) (p : P) : M (idle_ctx * bool) :=
  if msg_sent ctx then mret (ctx, false)
  else
    ok ← sendmsg p;
    mret (if ok : bool then IdleCtx (last_send ctx) true else ctx, ok).

Fixpoint idle_stages (stages : list funcs) (ctx : idle_ctx) (res : Z) : M Z :=
  match stages with
  | [] => mret res
  | s :: stages =>
      if res >? 0 then
        match fidle s with
        | None => idle_stages stages ctx res
        | Some f => '(ctx, t) ← f ctx; idle_stages stages ctx (if res >? t then t else res)
        end
      else mret res
  end.

Definition rpchandler_idling (stages : list funcs) (last : Z) : M Z :=
  res ← idle_stages stages (IdleCtx last false) RPCHANDLER_IDLE_SKIP;
  mret (if res =? RPCHANDLER_IDLE_STOP then -1 else Z.abs res).
End handler.
