(* ===== verification/HandlerSpec.v ===== *)
(** * Requests are answered once

    A request that a handler receives is answered exactly once if it is valid, and
    not at all if it is not, whatever stages there are, as long as every stage keeps
    its part: it skips the message without sending anything, or it takes it. *)

From S2P Require Import Prelude Effects Stdio CpItem ChainpackPack CpUnpack CpUnpackChainpack CpPack CpObstack CpLoops.
From S2P Require Import Rpcri Rpcaccess Strset RpcError RpcDir RpcMsg RpcHead Handler.

(** ** The client *)

(** What the handler relies on: messages are sent one after the other, with success
    or not. *)
Class ClientSpec {S P : Type} (sendmsg : P → M S bool) (ignoremsg : M S unit) := {
  sent : S → list P;
  sendmsg_sent p s : ∃ s' ok, sendmsg p s = inl (s', ok) ∧ sent s' = sent s ++ [p];
  ignoremsg_sent s : ∃ s', ignoremsg s = inl (s', tt) ∧ sent s' = sent s
}.

(** ** Sets of names *)

Lemma strcmp_is x name : wf_cstr x → wf_cstr name → (strcmp x name =? 0) = bool_decide (x ∈ [name]).
Proof.
  intros Hx Hn. apply eq_bool_prop_intro. rewrite bool_decide_spec, list_elem_of_singleton. rewrite Is_true_true, Z.eqb_eq.
  by apply strcmp_eq.
Qed.

Lemma add_grows set s d :
  strset_wf set → cnt_of set < 2 ^ 62 → wf_cstr s →
  ∃ set' new, add set s d = Some (set', new) ∧ strset_wf set' ∧ cnt_of set' ≤ cnt_of set + 1 ∧
    ∀ x, x ∈ strs set' ↔ x ∈ strs set ∨ x ∈ [s].
Proof.
  intros Hset Hc Hs. destruct (strset_add_spec set s d Hset Hc Hs) as (set' & new & E & Hset' & Hin & Hitems & _).
  exists set', new. split; [done|]. split; [done|]. unfold cnt_of, strs in *. destruct new.
  - rewrite Hitems. split; [simpl; lia|]. intros x. rewrite Hitems. simpl. rewrite elem_of_cons, list_elem_of_singleton. tauto.
  - subst set'. split; [lia|]. intros x. rewrite list_elem_of_singleton. naive_solver.
Qed.

Section spec.
Context {S P U : Type} (unpack : U → cpitem → U * cpitem) (ck : chunks).
Context (pack : P → cpitem → P * bool) (fresh : P).
Context (sendmsg : P → M S bool) (ignoremsg : M S unit) (connected : M S bool).
Context `{!ClientSpec sendmsg ignoremsg}.
Notation msg := (rpchandler_msg U).
Notation funcs := (rpchandler_funcs S P U).
Notation ls := (ls_ctx P U).
Notation dir := (dir_ctx P).
Implicit Types ctx : msg.

(** *** What an answer is *)

(** The response that is started: the head with the identifiers of the request was
    packed, and after it nothing but items. *)
Definition started (m : rpcmsg_meta) (p : P) : Prop := packed pack (rpcmsg_pack_response pack m fresh).1 p.

(** The messages that answer the request with the metadata. *)
Inductive answer (m : rpcmsg_meta) : P → Prop :=
  | answer_value p : started m p → answer m (cp_pack_container_end pack p).1
  | answer_void : answer m (rpcmsg_pack_response_void pack m fresh).1
  | answer_error e t : answer m (rpcmsg_pack_error pack m e t fresh).1
  | answer_ferror e t : answer m (rpcmsg_pack_vferror pack m e t fresh).1.

(** The request can be answered: it was validated. *)
Definition answerable (ctx : msg) : Prop := hunpack ctx = None ∧ answers ctx = true.

(** An operation answers the request once. *)
Definition answered {A} (m : rpcmsg_meta) (c : M S A) : Prop :=
  ∀ s, ∃ s' x p, c s = inl (s', x) ∧ sent s' = sent s ++ [p] ∧ answer m p.

(** An operation ends and sends nothing. *)
Definition silent {A} (c : M S A) (Q : A → Prop) : Prop :=
  ∀ s, ∃ s' x, c s = inl (s', x) ∧ sent s' = sent s ∧ Q x.

Lemma silent_bind {A B} (c : M S A) (k : A → M S B) Q R :
  silent c Q → (∀ x, Q x → silent (k x) R) → silent (c ≫= k) R.
Proof.
  intros Hc Hk s. destruct (Hc s) as (s1 & x & E & Hs & Hq). destruct (Hk x Hq s1) as (s2 & y & E' & Hs' & Hr).
  exists s2, y. rewrite (bind_run _ _ _ _ _ E). split; [done|]. split; [congruence|done].
Qed.

Lemma silent_answered {A B} (c : M S A) (k : A → M S B) Q m :
  silent c Q → (∀ x, Q x → answered m (k x)) → answered m (c ≫= k).
Proof.
  intros Hc Hk s. destruct (Hc s) as (s1 & x & E & Hs & Hq). destruct (Hk x Hq s1) as (s2 & y & p & E' & Hs' & Ha).
  exists s2, y, p. rewrite (bind_run _ _ _ _ _ E). split; [done|]. split; [congruence|done].
Qed.

Lemma answered_then {A B} (c : M S A) (x : B) m : answered m c → answered m (c;; mret x).
Proof. intros Hc s. destruct (Hc s) as (s1 & y & p & E & ?). exists s1, x, p. by rewrite (bind_run _ _ _ _ _ E). Qed.

Lemma silent_ret {A} (x : A) (Q : A → Prop) : Q x → silent (mret x) Q.
Proof. intros Hx s. by exists s, x. Qed.

Lemma silent_need {A} f (x : A) (Q : A → Prop) : Q x → silent (need f (Some x)) Q.
Proof. apply silent_ret. Qed.

Lemma answered_need {A B} f (x : A) (k : A → M S B) m : answered m (k x) → answered m (need f (Some x) ≫= k).
Proof. intros Hk s. by rewrite (bind_run _ _ s s x eq_refl). Qed.

Lemma silent_impl {A} (c : M S A) (Q R : A → Prop) : silent c Q → (∀ x, Q x → R x) → silent c R.
Proof. intros Hc HR s. destruct (Hc s) as (s1 & x & ? & ? & ?). exists s1, x. auto. Qed.

Lemma send_answered ctx p : answers ctx = true → answer (hmeta ctx) p → answered (hmeta ctx) (rpchandler_msg_send sendmsg ctx p).
Proof.
  intros Ha Hp s. unfold rpchandler_msg_send. rewrite Ha.
  destruct (sendmsg_sent p s) as (s' & ok & E & Hs). by exists s', ok, p.
Qed.

Lemma started_new m : started m (rpcmsg_pack_response pack m fresh).1.
Proof. apply packed_refl. Qed.

Lemma started_next m p c `{!OnlyPacks pack c} : started m p → started m (c p).1.
Proof. intros Hp. eapply packed_trans; [exact Hp|]. by apply only_packs. Qed.

Lemma respond_answered ctx body `{!OnlyPacks pack body} :
  answerable ctx → answered (hmeta ctx) (respond pack fresh sendmsg ctx body).
Proof.
  intros [Hu Ha]. unfold respond, rpchandler_msg_new_response, rpchandler_msg_new. rewrite Hu, Ha.
  apply answered_need. simpl. apply send_answered; [done|]. by apply answer_value, started_next, started_new.
Qed.

Lemma send_packed_answered ctx c :
  answerable ctx → answer (hmeta ctx) (c fresh).1 → answered (hmeta ctx) (send_packed fresh sendmsg ctx c).
Proof.
  intros [Hu Ha] Hc. unfold send_packed, rpchandler_msg_new. rewrite Hu, Ha. by apply send_answered.
Qed.

Lemma send_error_answered ctx e t : answerable ctx → answered (hmeta ctx) (rpchandler_msg_send_error pack fresh sendmsg ctx e t).
Proof. intros Ha. apply send_packed_answered; [done|constructor]. Qed.

Lemma send_void_answered ctx : answerable ctx → answered (hmeta ctx) (rpchandler_msg_send_response_void pack fresh sendmsg ctx).
Proof. intros Ha. apply send_packed_answered; [done|constructor]. Qed.

Lemma send_ferror_answered ctx e t : answerable ctx → answered (hmeta ctx) (rpchandler_msg_send_ferror pack fresh sendmsg ctx e t).
Proof. intros Ha. apply send_packed_answered; [done|constructor]. Qed.

Lemma not_found_answered ctx :
  answerable ctx → answered (hmeta ctx) (rpchandler_msg_send_method_not_found pack fresh sendmsg ctx).
Proof.
  intros [Hu Ha]. unfold rpchandler_msg_send_method_not_found, rpchandler_msg_new. rewrite Hu, Ha.
  apply answered_need.
  apply send_answered; [done|]. unfold rpcmsg_pack_ferror. constructor.
Qed.

(** One answer to a valid message, none to an invalid one. *)
Definition settled_with (valid : bool) (m : rpcmsg_meta) (s s' : S) : Prop :=
  if valid then ∃ p, sent s' = sent s ++ [p] ∧ answer m p else sent s' = sent s.

Definition settles {A} (valid : bool) (m : rpcmsg_meta) (c : M S A) : Prop :=
  ∀ s, ∃ s' x, c s = inl (s', x) ∧ settled_with valid m s s'.

Lemma answered_settles {A} m (c : M S A) : answered m c → settles true m c.
Proof. intros Hc s. destruct (Hc s) as (s' & x & p & ? & ? & ?). exists s', x. split; [done|]. by exists p. Qed.

Lemma silent_settles {A} m (c : M S A) Q : silent c Q → settles false m c.
Proof. intros Hc s. destruct (Hc s) as (s' & x & ? & ? & ?). by exists s', x. Qed.

Lemma settles_then {A B} v m (c : M S A) (x : B) : settles v m c → settles v m (c;; mret x).
Proof. intros Hc s. destruct (Hc s) as (s' & y & E & ?). exists s', x. by rewrite (bind_run _ _ _ _ _ E). Qed.

(** *** What stages promise *)

(** The parts of the metadata an answer depends on, and what the stages look at. *)
Definition same_request ctx ctx' : Prop :=
  mtype (hmeta ctx') = mtype (hmeta ctx) ∧ request_id (hmeta ctx') = request_id (hmeta ctx) ∧
  cids (hmeta ctx') = cids (hmeta ctx) ∧ method (hmeta ctx') = method (hmeta ctx) ∧
  path (hmeta ctx') = path (hmeta ctx) ∧ hvalid ctx' = hvalid ctx.

(** A request as it is received. *)
Definition request ctx : Prop :=
  mtype (hmeta ctx) = RPCMSG_T_REQUEST ∧ is_Some (method (hmeta ctx)) ∧ is_Some (path (hmeta ctx)) ∧
  is_Some (hunpack ctx).

(** What a stage is to do with a request, in one state: it skips it and leaves it as it
    is, or takes it: then it settles it or leaves that to the handler. *)
Definition taken_at ctx (c : M S (msg * rpchandler_msg_res)) (s : S) : Prop :=
  ∃ s' ctx' res, c s = inl (s', (ctx', res)) ∧ same_request ctx ctx' ∧
    match hunpack ctx' with
    | Some _ => sent s' = sent s
    | None => res ≠ RPCHANDLER_MSG_SKIP ∧ settled_with (hvalid ctx) (hmeta ctx) s s'
    end.

Definition takes (f : msg → M S (msg * rpchandler_msg_res)) : Prop := ∀ ctx s, request ctx → taken_at ctx (f ctx) s.

Record ls_ok (m : rpcmsg_meta) (l : ls) : Prop := {
  ls_msg : match lmctx l with Some ctx => answerable ctx ∧ hmeta ctx = m | None => is_Some (lname l) end;
  ls_pack : match lpack l with Some p => started m p ∧ lname l = None | None => True end;
  ls_set : strset_wf (lstrset l) }.

Definition same_ls (l l' : ls) : Prop := lpath l' = lpath l ∧ lname l' = lname l ∧ lmctx l' = lmctx l.

(** A stage adds names, not more of them than an [int] counts. *)
Definition lists (f : ls → M S ls) : Prop :=
  ∀ m l, ls_ok m l → cnt_of (lstrset l) + 2 ^ 31 ≤ 2 ^ 62 →
  silent (f l) (λ l', ls_ok m l' ∧ same_ls l l' ∧ cnt_of (lstrset l') ≤ cnt_of (lstrset l) + 2 ^ 31).

(** A stage adds methods. *)
Definition describes (f : dir → M S dir) : Prop :=
  ∀ m d, started m (dpack d) →
  silent (f d) (λ d', started m (dpack d') ∧ dname d' = dname d ∧ dpath d' = dpath d).

Record stage_ok (s : funcs) : Prop := {
  stage_msg : ∀ f, fmsg s = Some f → takes f;
  stage_ls : ∀ f, fls s = Some f → lists f;
  stage_dir : ∀ f, fdir s = Some f → describes f }.

Lemma answer_same m m' p : request_id m' = request_id m → cids m' = cids m → answer m' p → answer m p.
Proof.
  intros Hr Hc Ha. assert (_pack_response pack m' = _pack_response pack m) as E
    by (unfold _pack_response; by rewrite Hr, Hc).
  destruct Ha as [q Hq| |e t|e t]; unfold rpcmsg_pack_response_void, rpcmsg_pack_error, rpcmsg_pack_vferror;
    rewrite ?E; [|exact (answer_void m)|exact (answer_error m e t)|exact (answer_ferror m e t)].
  apply answer_value. revert Hq. unfold started, rpcmsg_pack_response. by rewrite E.
Qed.

Lemma settled_same v ctx ctx' s s' :
  same_request ctx ctx' → settled_with v (hmeta ctx') s s' → settled_with v (hmeta ctx) s s'.
Proof.
  intros (_ & Hr & Hc & _). unfold settled_with. destruct v; [|done]. intros (p & ? & ?). exists p. split; [done|].
  by eapply answer_same.
Qed.

Lemma same_request_trans ctx1 ctx2 ctx3 : same_request ctx1 ctx2 → same_request ctx2 ctx3 → same_request ctx1 ctx3.
Proof. unfold same_request. intuition congruence. Qed.

(** *** Names and methods *)

Lemma reading_silent {A} (f : U → cpitem → U * cpitem * A) ctx :
  is_Some (hunpack ctx) →
  silent (reading f ctx) (λ r, hmeta r.1 = hmeta ctx ∧ hvalid r.1 = hvalid ctx ∧ is_Some (hunpack r.1)).
Proof.
  intros [u Hu] s. unfold reading. rewrite Hu, (bind_run _ _ s s u eq_refl). destruct (f u (hitem ctx)) as [[u' it] x].
  by exists s, (set_read u' it ctx, x).
Qed.

Lemma reading_str_silent ctx :
  is_Some (hunpack ctx) →
  silent (reading_str unpack ck ctx) (λ r, hmeta r.1 = hmeta ctx ∧ hvalid r.1 = hvalid ctx ∧ is_Some (hunpack r.1)).
Proof.
  intros [u Hu] s. unfold reading_str. rewrite Hu, (bind_run _ _ s s u eq_refl).
  destruct (strdupo unpack ck u (hitem ctx) (hobs ctx)) as [[[u' it] o] x].
  by exists s, (set_hobs o (set_read u' it ctx), x).
Qed.

Lemma new_response_some ctx :
  answerable ctx → rpchandler_msg_new_response pack fresh ctx = Some (rpcmsg_pack_response pack (hmeta ctx) fresh).1.
Proof. intros [Hu Ha]. unfold rpchandler_msg_new_response, rpchandler_msg_new. by rewrite Hu, Ha. Qed.

(** What became of names that are listed: the one that is asked for is found, or all of
    them are in the set. *)
Definition named (names : list cstr) (l l' : ls) : Prop :=
  match lname l with
  | Some x => wf_cstr x → llocated l' = llocated l || bool_decide (x ∈ names)
  | None => ∀ x, x ∈ strs (lstrset l') ↔ x ∈ strs (lstrset l) ∨ x ∈ names
  end.

(** The names that a part of a stage lists at a path. *)
Definition lists_names (path : cstr) (names : list cstr) (f : ls → M S ls) : Prop :=
  ∀ m l, lpath l = path → ls_ok m l → cnt_of (lstrset l) + Z.of_nat (length names) ≤ 2 ^ 62 →
  silent (f l) (λ l', ls_ok m l' ∧ same_ls l l' ∧
    cnt_of (lstrset l') ≤ cnt_of (lstrset l) + Z.of_nat (length names) ∧ named names l l').

Lemma ls_name_names path add name :
  wf_cstr name → (∀ set, strset_wf set → cnt_of set < 2 ^ 62 →
    ∃ set' new, add set = Some (set', new) ∧ strset_wf set' ∧ cnt_of set' ≤ cnt_of set + 1 ∧
      ∀ x, x ∈ strs set' ↔ x ∈ strs set ∨ x ∈ [name]) →
  lists_names path [name] (ls_name pack fresh add name).
Proof.
  intros Hn Hadd m l _ [Hmsg Hpack Hset] Hcnt. cbn [length] in Hcnt. unfold ls_name, named. destruct (lname l) as [n|] eqn:En.
  { apply silent_ret. split_and!; try done; [|simpl; lia|].
    - split; simpl; by rewrite ?En.
    - intros Hx. simpl. by rewrite strcmp_is. }
  destruct (Hadd (lstrset l) Hset ltac:(lia)) as (set' & new & -> & Hset' & Hc & Hin).
  eapply silent_bind; [by apply (silent_need _ (set', new) (eq (set', new)))|]. intros ? <-.
  destruct new.
  2:{ apply silent_ret. split_and!; try done. split; simpl; by rewrite ?En. }
  unfold pack_ls_result. simpl. destruct (lmctx l) as [ctx|] eqn:Ec; [|by destruct Hmsg].
  eapply silent_bind with (Q := started m).
  - destruct (lpack l) as [p|]; [apply silent_ret, Hpack|]. destruct Hmsg as [Ha <-].
    eapply silent_bind; [by apply (silent_need _ ctx (eq ctx))|]. intros ? <-. rewrite new_response_some by done.
    eapply silent_bind; [by apply (silent_need _ _ (started (hmeta ctx))), started_new|].
    intros p Hp. apply silent_ret. by apply (started_next _ _ (cp_pack_list_begin pack)).
  - intros p Hp. apply silent_ret. split_and!; try done. split; simpl; rewrite ?En, ?Ec; try done.
    split; [|done]. by apply (started_next _ _ (cp_pack_str pack (Some name))).
Qed.

Lemma ls_result_const_names path name : wf_cstr name → lists_names path [name] (rpchandler_ls_result_const pack fresh name).
Proof. intros Hn. apply ls_name_names; [done|]. intros set Hs Hlt. by apply add_grows. Qed.

Lemma ls_result_names path name : wf_cstr name → lists_names path [name] (rpchandler_ls_result pack fresh name).
Proof.
  intros Hn. apply ls_name_names; [done|]. intros set Hs Hlt. unfold shv_strset_add.
  destruct (add_grows set name true Hs Hlt Hn) as (set' & new & -> & ?). by exists set', new.
Qed.

(** Every stage may list [2 ^ 31]. *)
Lemma lists_names_lists names f l m :
  Z.of_nat (length names) ≤ 2 ^ 31 → lists_names (lpath l) names f → ls_ok m l → cnt_of (lstrset l) + 2 ^ 31 ≤ 2 ^ 62 →
  silent (f l) (λ l', ls_ok m l' ∧ same_ls l l' ∧ cnt_of (lstrset l') ≤ cnt_of (lstrset l) + 2 ^ 31).
Proof.
  intros Hn Hf Hl Hc. eapply silent_impl; [apply (Hf m l eq_refl Hl); lia|]. intros l' (? & ? & ? & _). split_and!; [done..|lia].
Qed.

Lemma ls_result_const_lists name : wf_cstr name → lists (rpchandler_ls_result_const pack fresh name).
Proof. intros Hn m l Hl Hc. apply (lists_names_lists [name]); [done|by apply ls_result_const_names|done..]. Qed.

Lemma ls_result_lists name : wf_cstr name → lists (rpchandler_ls_result pack fresh name).
Proof. intros Hn m l Hl Hc. apply (lists_names_lists [name]); [done|by apply ls_result_names|done..]. Qed.

Lemma lists_ret : lists mret.
Proof. intros m l Hl Hc. apply silent_ret. split_and!; [done..|lia]. Qed.

Lemma dir_result_describes d : is_Some (RpcDir.name d) → describes (rpchandler_dir_result pack d).
Proof.
  intros [n Hn] m ctx Hs. unfold rpchandler_dir_result. destruct (dname ctx) as [x|] eqn:En.
  - destruct (dlocated ctx); [apply silent_ret; by rewrite En|]. rewrite Hn.
    eapply silent_bind; [by apply (silent_need _ n (eq n))|]. intros ? <-. apply silent_ret. simpl. by rewrite En.
  - apply silent_ret. simpl. rewrite En. split; [|done]. by apply (started_next _ _ (rpcdir_pack pack d)).
Qed.

Lemma describes_ret : describes mret.
Proof. intros m d Hd. by apply silent_ret. Qed.

Lemma describes_bind f g : describes f → describes g → describes (λ d, f d ≫= g).
Proof.
  intros Hf Hg m d Hd. eapply silent_bind; [by apply Hf|]. intros d1 (Hd1 & En & Ep).
  eapply silent_impl; [by apply Hg|]. intros d2 (? & ? & ?). split_and!; [done|congruence..].
Qed.

Lemma ask_ls_silent stages m l :
  Forall stage_ok stages → ls_ok m l → cnt_of (lstrset l) + 2 ^ 31 * Z.of_nat (length stages) ≤ 2 ^ 62 →
  silent (ask_ls stages l) (λ l', ls_ok m l' ∧ same_ls l l').
Proof.
  intros Hst. revert l. induction Hst as [|s stages Hs Hst IH]; intros l Hl Hc; simpl; [by apply silent_ret|].
  destruct (llocated l); [by apply silent_ret|]. simpl in Hc.
  eapply silent_bind with (Q := λ l', ls_ok m l' ∧ same_ls l l' ∧ cnt_of (lstrset l') ≤ cnt_of (lstrset l) + 2 ^ 31).
  - destruct (fls s) as [f|] eqn:Ef; [|by apply lists_ret; [|lia]]. by apply (stage_ls s Hs f Ef); [|lia].
  - intros l1 (Hl1 & (E1 & E2 & E3) & Hc1). eapply silent_impl; [apply IH; [done|lia]|].
    intros l2 (Hl2 & E4 & E5 & E6). split; [done|]. split_and!; congruence.
Qed.

Lemma ask_dir_silent stages : Forall stage_ok stages → describes (ask_dir stages).
Proof.
  induction 1 as [|s stages Hs Hst IH]; intros m d Hd; simpl; [by apply silent_ret|].
  destruct (dlocated d); [by apply silent_ret|].
  apply (describes_bind (λ d, match fdir s with Some f => f d | None => mret d end)); [|done|done].
  destruct (fdir s) as [f|] eqn:Ef; [by apply (stage_dir s Hs)|apply describes_ret].
Qed.

Context (stages : list funcs) (stages_ok : Forall stage_ok stages) (few : Z.of_nat (length stages) < 2 ^ 30).

Lemma strset_empty_wf : strset_wf (Strset [] 0).
Proof. split; [constructor|constructor|done]. Qed.

Lemma valid_path_silent path : silent (valid_path stages path) (λ _, True).
Proof.
  unfold valid_path. destruct path as [[|x path]|]; [by apply silent_ret| |by apply silent_ret].
  set (p := match strrchr _ _ with Some _ => _ | None => _ end). destruct p as [dir name].
  eapply silent_bind with (Q := λ _, True); [|intros l _; by apply silent_ret].
  eapply silent_impl; [apply (ask_ls_silent stages meta_init)|done]; [done| |unfold cnt_of; simpl; lia].
  split; [by eexists|done|apply strset_empty_wf].
Qed.

(** *** The handler itself *)

(** A message that was read from is validated. *)
Lemma validated ctx ctx1 :
  request ctx → hmeta ctx1 = hmeta ctx → answerable (rpchandler_msg_valid ctx1).1 ∧ hmeta (rpchandler_msg_valid ctx1).1 = hmeta ctx.
Proof. intros (Ht & _) E. split; [|done]. split; [done|]. unfold answers, is_type. simpl. rewrite E, Ht. done. Qed.

Lemma common_ls_dir_settles ctx s :
  request ctx →
  ∃ s' ctx' name go, common_ls_dir unpack ck pack fresh sendmsg ctx s = inl (s', (ctx', name, go)) ∧
    answerable ctx' ∧ hmeta ctx' = hmeta ctx ∧
    if go : bool then hvalid ctx = true ∧ sent s' = sent s else settled_with (hvalid ctx) (hmeta ctx) s s'.
Proof.
  intros Hr. unfold common_ls_dir.
  match goal with |- context [mbind _ ?c] =>
    assert (silent c (λ r, hmeta r.1.1 = hmeta ctx ∧ hvalid r.1.1 = hvalid ctx)) as Hc end.
  { destruct (rpcmsg_has_value (hitem ctx)); [|by apply silent_ret].
    eapply silent_bind; [apply reading_silent, Hr|]. intros [ctx1 ty] (E1 & E2 & Hu). simpl in E1, E2, Hu.
    destruct ty; try (by apply silent_ret).
    eapply silent_bind; [by apply reading_str_silent|]. intros [ctx2 name] (E3 & E4 & _). simpl in E3, E4.
    apply silent_ret. simpl. split; congruence. }
  destruct (Hc s) as (s1 & [[ctx1 name] inv] & E & Hs & Em & Ev). simpl in Em, Ev.
  rewrite (bind_run _ _ _ _ _ E). destruct (validated ctx ctx1 Hr Em) as [Ha Em'].
  unfold rpchandler_msg_valid in *. simpl in Ha, Em'. rewrite Ev in *. destruct (hvalid ctx) eqn:Hv; simpl.
  - destruct inv; simpl.
    + destruct (send_error_answered _ RPCERR_INVALID_PARAM (Some (str "Use Null or String with node name")) Ha s1)
        as (s2 & x & p & E2 & Hs2 & Hp). rewrite (bind_run _ _ _ _ _ E2). do 4 eexists. split_and!; [done..|].
      exists p. simpl in Hp. rewrite Em in Hp. split; [congruence|done].
    + do 4 eexists. by split_and!.
  - do 4 eexists. split_and!; [done..|]. by rewrite Hs.
Qed.

(** What follows when the handler goes on. *)
Lemma common_then (k : msg → option cstr → M S unit) ctx :
  request ctx → (∀ ctx' name, answerable ctx' → hmeta ctx' = hmeta ctx → answered (hmeta ctx) (k ctx' name)) →
  settles (hvalid ctx) (hmeta ctx)
    ('(ctx, name, go) ← common_ls_dir unpack ck pack fresh sendmsg ctx; if negb go then mret tt else k ctx name).
Proof.
  intros Hr Hk s. destruct (common_ls_dir_settles ctx s Hr) as (s1 & ctx' & name & go & E & Ha & Em & Hgo).
  rewrite (bind_run _ _ _ _ _ E). destruct go; simpl; [|by exists s1, tt].
  destruct Hgo as [-> Hs]. destruct (Hk ctx' name Ha Em s1) as (s2 & x & p & E2 & Hs2 & Hp).
  exists s2, x. split; [done|]. exists p. split; [congruence|done].
Qed.

Lemma no_such_node_answered ctx : answerable ctx → answered (hmeta ctx) (no_such_node pack fresh sendmsg ctx).
Proof. intros Ha. by apply answered_then, send_ferror_answered. Qed.

Lemma handle_ls_settles ctx :
  request ctx → settles (hvalid ctx) (hmeta ctx) (handle_ls unpack ck pack fresh sendmsg stages ctx).
Proof.
  intros Hr. apply (common_then _ ctx Hr). intros ctx' name Ha <-.
  eapply silent_answered.
  - apply (ask_ls_silent stages (hmeta ctx')); [done| |unfold cnt_of; simpl; lia].
    split; [done|done|apply strset_empty_wf].
  - intros l [[_ Hpack _] _]. eapply silent_answered with (Q := λ _, True).
    + destruct (_ && _); [apply valid_path_silent|by apply silent_ret].
    + intros found _. destruct found; [|by apply no_such_node_answered]. simpl.
      eapply silent_answered with (Q := started (hmeta ctx')).
      2:{ intros p Hp. apply answered_then, send_answered; [apply Ha|by apply answer_value]. }
      rewrite new_response_some by done. destruct (lname l).
      * eapply silent_bind; [by apply (silent_need _ _ (started (hmeta ctx'))), started_new|].
        intros p Hp. apply silent_ret. by apply (started_next _ _ (cp_pack_bool pack (llocated l))).
      * eapply silent_bind with (Q := started (hmeta ctx')).
        2:{ intros p Hp. apply silent_ret. by apply (started_next _ _ (cp_pack_container_end pack)). }
        destruct (lpack l) as [p|]; [apply silent_ret, Hpack|].
        eapply silent_bind; [by apply (silent_need _ _ (started (hmeta ctx'))), started_new|].
        intros p Hp. apply silent_ret. by apply (started_next _ _ (cp_pack_list_begin pack)).
Qed.

Lemma handle_dir_settles ctx :
  request ctx → settles (hvalid ctx) (hmeta ctx) (handle_dir unpack ck pack fresh sendmsg stages ctx).
Proof.
  intros Hr. apply (common_then _ ctx Hr). intros ctx' name Ha Em. rewrite <-Em.
  eapply silent_answered; [apply valid_path_silent|]. intros found _.
  destruct found; [|by apply no_such_node_answered]. simpl. rewrite new_response_some by done.
  destruct Hr as (_ & _ & [q Hq] & _). rewrite Em, Hq. apply answered_need. rewrite <-Em.
  set (d0 := DirCtx q name _ false).
  assert (describes (λ d, (rpchandler_dir_result pack rpcdir_dir d ≫= rpchandler_dir_result pack rpcdir_ls)
    ≫= ask_dir stages)) as Hd.
  { apply (describes_bind (λ d, rpchandler_dir_result pack rpcdir_dir d ≫= rpchandler_dir_result pack rpcdir_ls));
      [|by apply ask_dir_silent]. apply describes_bind; apply dir_result_describes; by eexists. }
  assert (started (hmeta ctx') (dpack d0)) as H0.
  { unfold d0. simpl. destruct name; [apply started_new|]. apply (started_next _ _ (cp_pack_list_begin pack)), started_new. }
  intros s. destruct (Hd _ _ H0 s) as (s1 & d & E & Hs & Hst & _).
  apply bind_inv in E as (s2 & d2 & E & E2). apply bind_inv in E as (s3 & d3 & E3 & E4).
  rewrite (bind_run _ _ _ _ _ E3), (bind_run _ _ _ _ _ E4), (bind_run _ _ _ _ _ E2). rewrite <-Hs.
  apply answered_then, send_answered; [apply Ha|]. apply answer_value.
  destruct (dname d); [by apply (started_next _ _ (cp_pack_bool pack (dlocated d)))|].
  by apply (started_next _ _ (cp_pack_container_end pack)).
Qed.

Lemma validate_answer {A} ctx (c : msg → M S A) :
  request ctx → answered (hmeta ctx) (c (rpchandler_msg_valid ctx).1) →
  settles (hvalid ctx) (hmeta ctx)
    (let '(ctx, valid) := rpchandler_msg_valid ctx in if valid : bool then c ctx;; mret tt else mret tt).
Proof.
  intros Hr Hc. unfold rpchandler_msg_valid in *. simpl in Hc. destruct (hvalid ctx).
  - by apply answered_settles, answered_then.
  - by apply (silent_settles _ _ (λ _, True)), silent_ret.
Qed.

(** A method that the handler does not answer itself. *)
Definition not_own (m : cstr) : Prop := strcmp m (str "ls") ≠ 0 ∧ strcmp m (str "dir") ≠ 0.

Lemma method_rest_settles ctx m :
  request ctx → method (hmeta ctx) = Some m → not_own m →
  settles (hvalid ctx) (hmeta ctx) (handle_rest unpack ck pack fresh sendmsg ignoremsg stages ctx).
Proof.
  intros Hr Hm [Hl Hd]. apply settles_then. pose proof Hr as (-> & _). rewrite Hm.
  intros s. rewrite (bind_run _ _ s s m eq_refl). revert s. rewrite !(proj2 (Z.eqb_neq _ _)) by done.
  apply (validate_answer ctx (rpchandler_msg_send_method_not_found pack fresh sendmsg)); [done|].
  destruct (validated ctx ctx Hr eq_refl) as [Ha E]. rewrite <-E. by apply not_found_answered.
Qed.

Lemma handle_rest_settles ctx :
  request ctx →
  settles (hvalid ctx) (hmeta ctx) (handle_rest unpack ck pack fresh sendmsg ignoremsg stages ctx).
Proof.
  intros Hr. pose proof Hr as (Ht & [m Hm] & _).
  destruct (decide (strcmp m (str "ls") = 0)) as [El|El]; [|destruct (decide (strcmp m (str "dir") = 0)) as [Ed|Ed]].
  - apply settles_then. rewrite Ht, Hm. intros s. rewrite (bind_run _ _ s s m eq_refl), El. by apply handle_ls_settles.
  - apply settles_then. rewrite Ht, Hm. intros s. rewrite (bind_run _ _ s s m eq_refl), (proj2 (Z.eqb_neq _ _)), Ed by done.
    by apply handle_dir_settles.
  - by apply (method_rest_settles ctx m).
Qed.

Lemma not_validated_settles ctx :
  request ctx → settles (hvalid ctx) (hmeta ctx) (not_validated pack fresh sendmsg ignoremsg ctx).
Proof.
  intros Hr. apply settles_then. unfold is_type. rewrite bool_decide_eq_true_2 by apply Hr.
  apply (validate_answer ctx (λ ctx, rpchandler_msg_send_error pack fresh sendmsg ctx _ _)); [done|].
  destruct (validated ctx ctx Hr eq_refl) as [Ha E]. rewrite <-E. by apply send_error_answered.
Qed.

Lemma settled_before v ctx ctx' s s1 s' :
  same_request ctx ctx' → sent s1 = sent s → settled_with v (hmeta ctx') s1 s' → settled_with v (hmeta ctx) s s'.
Proof.
  intros Hsame Hs H. apply (settled_same v ctx ctx' s s' Hsame). unfold settled_with in *. by rewrite Hs in H.
Qed.

(** One stage, and what the stages behind it do. *)
Lemma stage_settles st f l ctx s :
  fmsg st = Some f → request ctx → taken_at ctx (f ctx) s →
  (∀ ctx1, request ctx1 → method (hmeta ctx1) = method (hmeta ctx) →
     settles (hvalid ctx1) (hmeta ctx1) (handle_stages unpack ck pack fresh sendmsg ignoremsg stages l ctx1)) →
  ∃ s' res, handle_stages unpack ck pack fresh sendmsg ignoremsg stages (st :: l) ctx s = inl (s', res) ∧
    settled_with (hvalid ctx) (hmeta ctx) s s'.
Proof.
  intros Ef Hr (s1 & ctx1 & res & E & Hsame & H) IH. simpl. rewrite Ef, (bind_run _ _ _ _ _ E).
  pose proof Hsame as (Et & _ & _ & Em & Ep & Ev). destruct (hunpack ctx1) as [u|] eqn:Eu.
  - assert (request ctx1) as Hr1.
    { destruct Hr as (? & ? & ? & _). split_and!; [congruence|by rewrite Em|by rewrite Ep|by rewrite Eu]. }
    destruct (decide (res = RPCHANDLER_MSG_SKIP)).
    + destruct (IH ctx1 Hr1 Em s1) as (s2 & x & E2 & H2). exists s2, x. split; [done|].
      rewrite Ev in H2. by eapply settled_before.
    + destruct (not_validated_settles ctx1 Hr1 s1) as (s2 & x & E2 & H2). exists s2, x. split; [done|].
      rewrite Ev in H2. by eapply settled_before.
  - destruct H as [Hne H]. rewrite decide_False by done. by exists s1, (bool_decide (res = RPCHANDLER_MSG_DONE)).
Qed.

(** Such a method depends on how the stages take requests alone. *)
Lemma method_stages_settle l ctx m :
  Forall (λ st, ∀ f, fmsg st = Some f → takes f) l → request ctx → method (hmeta ctx) = Some m → not_own m →
  settles (hvalid ctx) (hmeta ctx) (handle_stages unpack ck pack fresh sendmsg ignoremsg stages l ctx).
Proof.
  intros Hl. revert ctx. induction Hl as [|st l Hst Hl IH]; intros ctx Hr Hm Hno; [by eapply method_rest_settles|].
  destruct (fmsg st) as [f|] eqn:Ef; [|simpl; rewrite Ef; by apply IH].
  intros s. apply (stage_settles st f); [done..|by apply Hst|]. intros ctx1 Hr1 Em. apply IH; [done|congruence|done].
Qed.

Lemma handle_stages_settles l ctx :
  Forall stage_ok l → request ctx →
  settles (hvalid ctx) (hmeta ctx) (handle_stages unpack ck pack fresh sendmsg ignoremsg stages l ctx).
Proof.
  intros Hl. revert ctx. induction Hl as [|st l Hst Hl IH]; intros ctx Hr; [by apply handle_rest_settles|].
  destruct (fmsg st) as [f|] eqn:Ef; [|simpl; rewrite Ef; by apply IH].
  intros s. apply (stage_settles st f); [done..|by apply (stage_msg st Hst f Ef)|]. intros ctx1 Hr1 _. by apply IH.
Qed.
End spec.

(** ** What the caller reads *)

Section received.
Context (ck : chunks) (ck_wf : chunks_wf ck) (gperf_rpcaccess : cstr → option Z).
Context (lim : option rpcmsg_meta_limits) (o : obstack) (o_ok : obs_ok o).
Notation pack := cp_pack_chainpack_func.
Notation received := (head_of cp_unpack_chainpack_func ck (λ _, true) gperf_rpcaccess lim o).

(** The stream of a message that is started. *)
Definition empty_file : ofile := Some (WFile [] None false).

(** The message is received with the metadata. *)
Definition received_as (m : rpcmsg_meta) (p : ofile) : Prop :=
  ∃ w, p = Some w ∧ ∀ e it, idle_item it →
    ∃ f it' v, received (RFile (wf_out w) e) it = (f, it', (HeadOk m, v)).

Lemma head_received c m v p :
  round_trips c received (λ r, r = (HeadOk m, v)) → packed pack (c empty_file).1 p → received_as m p.
Proof.
  intros (bs & Hw & Hr) Hp%packed_extends. unfold empty_file in Hp. rewrite Hw in Hp by done. destruct p as [w|]; [|done].
  destruct Hp as [d Hd]. exists w. split; [done|]. intros e it Hi.
  destruct (Hr d e it Hi) as (it' & r & E & _ & ->). rewrite Hd. by do 3 eexists.
Qed.

Lemma head_response_received c m t key p :
  outputs pack c (head_toks (response_fields (request_id m) (cids m)) (next_tok key)) →
  packable_int (request_id m) → cids_ok (cids m) →
  (t, key) ∈ [(RPCMSG_T_RESPONSE, 0); (RPCMSG_T_RESPONSE, RPCMSG_KEY_RESULT); (RPCMSG_T_ERROR, RPCMSG_KEY_ERROR)] →
  packed pack (c empty_file).1 p → received_as (response_meta t (request_id m) (cids m)) p.
Proof. intros Ho Hr Hc Hk Hp. eapply head_received; [|exact Hp]. by apply response_round_trips. Qed.
End received.

(** The head of an answer: whatever is packed after it, it tells a response or an error
    from the key that follows. *)
Lemma answer_head m p :
  answer cp_pack_chainpack_func empty_file m p →
  ∃ t key, t ∈ [RPCMSG_T_RESPONSE; RPCMSG_T_ERROR] ∧ srange 32 key ∧
    (t, key) ∈ [(RPCMSG_T_RESPONSE, 0); (RPCMSG_T_RESPONSE, RPCMSG_KEY_RESULT); (RPCMSG_T_ERROR, RPCMSG_KEY_ERROR)] ∧
    packed cp_pack_chainpack_func
      ((_pack_response cp_pack_chainpack_func m >>> pack_next cp_pack_chainpack_func key) empty_file).1 p.
Proof.
  intros [q Hq| |e t|e t].
  - exists RPCMSG_T_RESPONSE, RPCMSG_KEY_RESULT. split_and!; [by_evaluation..|].
    eapply packed_trans; [exact Hq|]. apply only_packs, _.
  - exists RPCMSG_T_RESPONSE, 0. split_and!; [by_evaluation..|]. apply packed_refl.
  - exists RPCMSG_T_ERROR, RPCMSG_KEY_ERROR. split_and!; [by_evaluation..|].
    unfold rpcmsg_pack_error, pack_next, and_then at 1 2. destruct (_pack_response _ m empty_file) as [q ok].
    apply (packed_then _ (cp_pack_int _ RPCMSG_KEY_ERROR)), _.
  - exists RPCMSG_T_ERROR, RPCMSG_KEY_ERROR. split_and!; [by_evaluation..|].
    unfold rpcmsg_pack_vferror, pack_next, and_then at 1 2. destruct (_pack_response _ m empty_file) as [q ok].
    apply (packed_if _ (cp_pack_int _ RPCMSG_KEY_ERROR)), _.
Qed.

(** Whatever answers a request is received as a response or an error with the identifier
    and the callers of the request. *)
Lemma answer_received m p :
  packable_int (request_id m) → cids_ok (cids m) → answer cp_pack_chainpack_func empty_file m p →
  ∃ t, t ∈ [RPCMSG_T_RESPONSE; RPCMSG_T_ERROR] ∧ ∀ ck gperf_rpcaccess lim o, chunks_wf ck → obs_ok o →
    received_as ck gperf_rpcaccess lim o (response_meta t (request_id m) (cids m)) p.
Proof.
  intros Hr Hc (t & key & Ht & Hs & Hk & Hp)%answer_head. exists t. split; [done|]. intros ck gp lim o Hck Ho.
  eapply head_response_received; [done|done|apply outputs_response; [done|apply Hc|exact Hs]|done..].
Qed.

(** ** Properties *)

(** C25: a request is answered exactly once: whatever stages there are, as long as each
    of them skips requests it does not take and settles or leaves open those it
    takes, the handler ends, and it sends one message if the request is valid and none if
    it is not.  Packed with ChainPack, this message is received as a response or an error
    with the identifier and the callers of the request. *)
Theorem request_answered_once {S U} (unpack : U → cpitem → U * cpitem) ck
    (sendmsg : ofile → M S bool) ignoremsg `{!ClientSpec sendmsg ignoremsg} stages ctx s :
  let pack := cp_pack_chainpack_func in
  let m := hmeta ctx in
  Forall (stage_ok pack empty_file sendmsg ignoremsg) stages → Z.of_nat (length stages) < 2 ^ 30 → request ctx →
  packable_int (request_id m) → cids_ok (cids m) →
  ∃ s' res, handle_msg unpack ck pack empty_file sendmsg ignoremsg stages ctx s = inl (s', res) ∧
    if hvalid ctx then
      ∃ p t, sent s' = sent s ++ [p] ∧ t ∈ [RPCMSG_T_RESPONSE; RPCMSG_T_ERROR] ∧
        ∀ ck gperf_rpcaccess lim o, chunks_wf ck → obs_ok o →
          received_as ck gperf_rpcaccess lim o (response_meta t (request_id m) (cids m)) p
    else sent s' = sent s.
Proof.
  intros pack m Hst Hlen Hr Hid Hc.
  destruct (handle_stages_settles unpack ck pack empty_file sendmsg ignoremsg stages Hst Hlen stages ctx Hst Hr s)
    as (s' & res & E & H). exists s', res. split; [done|]. unfold settled_with in H. destruct (hvalid ctx); [|done].
  destruct H as (p & Hs & Ha). destruct (answer_received m p Hid Hc Ha) as (t & Ht & Hk). by exists p, t.
Qed.

(** A client that keeps what it is to send. *)
Definition log_send {P} (p : P) : M (list P) bool := λ s, inl (s ++ [p], true).

#[export] Program Instance log_client {P} : ClientSpec (@log_send P) (mret tt) := { sent s := s }.
Next Obligation. intros P p s. by exists (s ++ [p]), true. Qed.
Next Obligation. intros P s. by exists s. Qed.

Lemma request_answered_once_witness :
  let meta := request_meta None (str "ls") None 3 in
  let ctx := Msg (with_path (Some []) (with_type RPCMSG_T_REQUEST meta)) (Some (RFile [] false))
    (Item CPITEM_CONTAINER_END (AsError CPERR_NONE) None 0) (Obstack [] 4064) true in
  ∃ s' res p, handle_msg cp_unpack_chainpack_func (Chunks (λ _, 4064) (λ _, 4064)) cp_pack_chainpack_func empty_file
      log_send (mret tt) [] ctx [] = inl (s', res) ∧ s' = [p] ∧
    ∃ t, t ∈ [RPCMSG_T_RESPONSE; RPCMSG_T_ERROR] ∧
      received_as (Chunks (λ _, 8) (λ _, 0)) (assoc rpcaccess_table) None (Obstack [] 4) (response_meta t 3 []) p.
Proof.
  intros meta ctx. destruct (request_answered_once cp_unpack_chainpack_func (Chunks (λ _, 4064) (λ _, 4064))
    log_send (mret tt) [] ctx []) as (s' & res & E & H).
  - constructor.
  - done.
  - split_and!; [done|by eexists..].
  - by_evaluation.
  - split; [constructor|done].
  - destruct H as (p & t & Hs & Ht & Hr). exists s', res, p. split_and!; [done..|]. exists t. split; [done|].
    by apply Hr.
Defined.
