(* ===== verification/HandlerApp.v ===== *)
(** * The application and device stages ([libshvrpc/rpchandler/app.c],
      [libshvrpc/rpchandler/device.c])

    The methods of [.app] and [.device] every SHV application and device has.  The
    lookup of methods is generated by gperf from the tables in [app_method.gperf] and
    [device_method.gperf]. *)

From S2P Require Import Prelude Effects Stdio CpItem CpUnpack CpPack CpObstack CpLoops.
From S2P Require Import Rpcri Rpcaccess Strset RpcError RpcFile RpcDir RpcMsg RpcHead Handler HandlerSpec.

(** ** Definitions *)

Definition SHV_VERSION_MAJOR : Z := 3.
Definition SHV_VERSION_MINOR : Z := 0.

Inductive app_methods :=
  | APP_SHV_VERSION_MAJOR | APP_SHV_VERSION_MINOR | APP_NAME | APP_VERSION | APP_PING | APP_DATE.

Definition app_method_table : list (cstr * app_methods) := [
  (str "shvVersionMajor", APP_SHV_VERSION_MAJOR);
  (str "shvVersionMinor", APP_SHV_VERSION_MINOR);
  (str "name", APP_NAME);
  (str "version", APP_VERSION);
  (str "ping", APP_PING);
  (str "date", APP_DATE)].

Inductive device_methods := DEV_NAME | DEV_VERSION | DEV_SERIAL_NUMBER | DEV_UPTIME | DEV_RESET.

Definition device_method_table : list (cstr * device_methods) := [
  (str "name", DEV_NAME);
  (str "version", DEV_VERSION);
  (str "serialNumber", DEV_SERIAL_NUMBER);
  (str "uptime", DEV_UPTIME);
  (str "reset", DEV_RESET)].

Record rpchandler_app_conf : Type := AppConf {
  app_name : option cstr; app_version : option cstr; disable_date : bool }.

(** [dev_alerts] are the alerts the callback packs, if there is one; [dev_reset] is
    the callback. *)
Record rpchandler_device_conf (S : Type) : Type := DeviceConf {
  dev_name : option cstr;
  dev_version : option cstr;
  serial_number : option cstr;
  dev_alerts : option (list rpcalerts);
  dev_reset : option (M S unit) }.
Arguments DeviceConf {S} _ _ _ _ _.
Arguments dev_name {S} _.
Arguments dev_version {S} _.
Arguments serial_number {S} _.
Arguments dev_alerts {S} _.
Arguments dev_reset {S} _.

(** A method with only a name, a result, flags and an access level. *)
Definition plain_method (name : cstr) (res : option cstr) (fl acc : Z) : rpcdir :=
  Dir (Some name) None res fl acc [].

Definition app_dirs (conf : rpchandler_app_conf) : list rpcdir := [
  plain_method (str "shvVersionMajor") (Some (str "i")) RPCDIR_F_GETTER RPCACCESS_BROWSE;
  plain_method (str "shvVersionMinor") (Some (str "i")) RPCDIR_F_GETTER RPCACCESS_BROWSE;
  plain_method (str "name") (Some (str "s")) RPCDIR_F_GETTER RPCACCESS_BROWSE;
  plain_method (str "version") (Some (str "s")) RPCDIR_F_GETTER RPCACCESS_BROWSE;
  plain_method (str "ping") None 0 RPCACCESS_BROWSE] ++
  if disable_date conf then []
  else [plain_method (str "date") (Some (str "t")) RPCDIR_F_GETTER RPCACCESS_BROWSE].

Definition device_dirs : list rpcdir := [
  plain_method (str "name") (Some (str "s")) RPCDIR_F_GETTER RPCACCESS_BROWSE;
  plain_method (str "version") (Some (str "s")) RPCDIR_F_GETTER RPCACCESS_BROWSE;
  plain_method (str "serialNumber") (Some (str "s")) RPCDIR_F_GETTER RPCACCESS_BROWSE;
  plain_method (str "uptime") (Some (str "u|n")) RPCDIR_F_GETTER RPCACCESS_READ;
  plain_method (str "reset") None 0 RPCACCESS_COMMAND].

Definition alerts_dir : rpcdir :=
  Dir (Some (str "get")) (Some (str "i(0,)|n")) (Some (str "[!alert]")) RPCDIR_F_GETTER RPCACCESS_READ
    [Sig (Some (str "chng")) None].

Section stages.
Context {S P U : Type} (unpack : U → cpitem → U * cpitem).
Context (pack : P → cpitem → P * bool) (fresh : P) (sendmsg : P → M S bool).
Notation M := (M S).
Notation msg := (rpchandler_msg U).
Notation respond := (respond pack fresh sendmsg).

(** [rpchandler_dir_result] for each. *)
Definition dir_results (l : list rpcdir) (ctx : dir_ctx P) : M (dir_ctx P) :=
  fold (λ ctx m, rpchandler_dir_result pack m ctx) ctx l.

(** A path compared with one of the stage. *)
Definition at_path (p : option cstr) (node : cstr) : M bool :=
  p ← need NullPointer p; mret (strcmp p node =? 0).

(** *** [.app]

    [version] is [PROJECT_VERSION] of the build, [now] what [clock_cpdatetime] gives. *)
Context (gperf_app : cstr → option app_methods) (version : cstr) (now : cpdatetime).

Definition app_ls (ctx : ls_ctx P U) : M (ls_ctx P U) :=
  if cget (lpath ctx) 0 =? 0 then rpchandler_ls_result_const pack fresh (str ".app") ctx else mret ctx.

Definition app_dir (conf : rpchandler_app_conf) (ctx : dir_ctx P) : M (dir_ctx P) :=
  if negb (strcmp (dpath ctx) (str ".app") =? 0) then mret ctx
  else
    match dname ctx with
    | Some n =>
        match gperf_app n with
        | Some APP_DATE => mret (if disable_date conf then ctx else rpchandler_dir_exists ctx)
        | Some _ => mret (rpchandler_dir_exists ctx)
        | None => mret ctx
        end
    | None => dir_results (app_dirs conf) ctx
    end.

(** The method of a valid request; [false] is [RPCHANDLER_MSG_SKIP]. *)
Definition app_call (conf : rpchandler_app_conf) (ctx : msg) (m : app_methods) : M bool :=
  match m with
  | APP_SHV_VERSION_MAJOR => respond ctx (cp_pack_int pack SHV_VERSION_MAJOR);; mret true
  | APP_SHV_VERSION_MINOR => respond ctx (cp_pack_int pack SHV_VERSION_MINOR);; mret true
  | APP_NAME => respond ctx (cp_pack_str pack (Some (default (str "shvc") (app_name conf))));; mret true
  | APP_VERSION => respond ctx (cp_pack_str pack (Some (default version (app_version conf))));; mret true
  | APP_PING => rpchandler_msg_send_response_void pack fresh sendmsg ctx;; mret true
  | APP_DATE => if disable_date conf then mret false else respond ctx (cp_pack_datetime pack now);; mret true
  end.

Definition app_msg (conf : rpchandler_app_conf) (ctx : msg) : M (msg * rpchandler_msg_res) :=
  if negb (is_type (hmeta ctx) RPCMSG_T_REQUEST) then mret (ctx, RPCHANDLER_MSG_SKIP)
  else
    here ← at_path (path (hmeta ctx)) (str ".app");
    if negb here then mret (ctx, RPCHANDLER_MSG_SKIP)
    else
      name ← need NullPointer (method (hmeta ctx));
      match gperf_app name with
      | None => mret (ctx, RPCHANDLER_MSG_SKIP)
      | Some m =>
          '(ctx, ok) ← rpchandler_msg_valid_nullparam unpack pack fresh sendmsg ctx;
          if ok : bool then
            took ← app_call conf ctx m;
            mret (ctx, if took : bool then RPCHANDLER_MSG_DONE else RPCHANDLER_MSG_SKIP)
          else mret (ctx, RPCHANDLER_MSG_DONE)
      end.

Definition rpchandler_app_stage (conf : rpchandler_app_conf) : rpchandler_funcs S P U :=
  Funcs (Some (app_msg conf)) (Some app_ls) (Some (app_dir conf)) None None.

(** *** [.device]

    [uptime] is what [sysinfo] says. *)
Context (gperf_device : cstr → option device_methods) (uptime : Z).

Definition device_ls (conf : rpchandler_device_conf S) (ctx : ls_ctx P U) : M (ls_ctx P U) :=
  if cget (lpath ctx) 0 =? 0 then rpchandler_ls_result_const pack fresh (str ".device") ctx
  else if (strcmp (lpath ctx) (str ".device") =? 0) && bool_decide (is_Some (dev_alerts conf))
  then rpchandler_ls_result_const pack fresh (str "alerts") ctx
  else mret ctx.

Definition device_dir (conf : rpchandler_device_conf S) (ctx : dir_ctx P) : M (dir_ctx P) :=
  if strcmp (dpath ctx) (str ".device") =? 0 then
    match dname ctx with
    | Some n => mret (if bool_decide (is_Some (gperf_device n)) then rpchandler_dir_exists ctx else ctx)
    | None => dir_results device_dirs ctx
    end
  else if (strcmp (dpath ctx) (str ".device/alerts") =? 0) && bool_decide (is_Some (dev_alerts conf))
  then rpchandler_dir_result pack alerts_dir ctx
  else mret ctx.

Definition str_or_null (s : option cstr) : P → P * bool :=
  match s with Some _ => cp_pack_str pack s | None => cp_pack_null pack end.

(** A method without a parameter. *)
Definition null_method (ctx : msg) (ok : msg → M unit) (refused : msg → M unit) : M (msg * rpchandler_msg_res) :=
  '(ctx, valid) ← rpchandler_msg_valid_nullparam unpack pack fresh sendmsg ctx;
  (if valid : bool then ok ctx else refused ctx);;
  mret (ctx, RPCHANDLER_MSG_DONE).

Definition nothing (ctx : msg) : M unit := mret tt.
Definition answer_with (body : P → P * bool) (ctx : msg) : M unit := respond ctx body;; mret tt.

(** [None] where the [switch] is left by [break]. *)
Definition device_call (conf : rpchandler_device_conf S) (ctx : msg) (m : device_methods) :
    option (M (msg * rpchandler_msg_res)) :=
  match m with
  | DEV_NAME =>
      Some (null_method ctx (answer_with (cp_pack_str pack (Some (default (str "UNKNOWN") (dev_name conf))))) nothing)
  | DEV_VERSION => Some (null_method ctx (answer_with (str_or_null (dev_version conf))) nothing)
  | DEV_SERIAL_NUMBER => Some (null_method ctx (answer_with (str_or_null (serial_number conf))) nothing)
  | DEV_UPTIME =>
      if maccess (hmeta ctx) <? RPCACCESS_READ then None
      else Some (null_method ctx (answer_with (cp_pack_int pack uptime))
             (λ ctx, rpchandler_msg_send_method_not_found pack fresh sendmsg ctx;; mret tt))
  | DEV_RESET =>
      if maccess (hmeta ctx) <? RPCACCESS_COMMAND then None
      else Some (null_method ctx (λ ctx,
             match dev_reset conf with
             | Some reset => rpchandler_msg_send_response_void pack fresh sendmsg ctx;; reset
             | None =>
                 rpchandler_msg_send_error pack fresh sendmsg ctx RPCERR_NOT_IMPLEMENTED
                   (Some (str "Reset is not available"));; mret tt
             end) nothing)
  end.

Definition pack_alerts (l : list rpcalerts) : P → P * bool :=
  cp_pack_list_begin pack >>> for_each (rpcalerts_pack pack) l >>> cp_pack_container_end pack.

Definition alerts_get (l : list rpcalerts) (ctx : msg) : M (msg * rpchandler_msg_res) :=
  if maccess (hmeta ctx) <? RPCACCESS_READ then mret (ctx, RPCHANDLER_MSG_DONE)
  else
    '(ctx, ok) ← rpchandler_msg_valid_getparam unpack pack fresh sendmsg ctx;
    match ok with
    | Some _ => respond ctx (pack_alerts l);; mret (ctx, RPCHANDLER_MSG_DONE)
    | None => mret (ctx, RPCHANDLER_MSG_DONE)
    end.

Definition device_msg (conf : rpchandler_device_conf S) (ctx : msg) : M (msg * rpchandler_msg_res) :=
  if negb (is_type (hmeta ctx) RPCMSG_T_REQUEST) then mret (ctx, RPCHANDLER_MSG_SKIP)
  else
    here ← at_path (path (hmeta ctx)) (str ".device");
    name ← need NullPointer (method (hmeta ctx));
    if here : bool then
      default (mret (ctx, RPCHANDLER_MSG_SKIP)) (gperf_device name ≫= device_call conf ctx)
    else
      alerts ← at_path (path (hmeta ctx)) (str ".device/alerts");
      match dev_alerts conf with
      | Some l =>
          if alerts && (strcmp name (str "get") =? 0) then alerts_get l ctx else mret (ctx, RPCHANDLER_MSG_SKIP)
      | None => mret (ctx, RPCHANDLER_MSG_SKIP)
      end.

Definition rpchandler_device_stage (conf : rpchandler_device_conf S) : rpchandler_funcs S P U :=
  Funcs (Some (device_msg conf)) (Some (device_ls conf)) (Some (device_dir conf)) None None.
End stages.

(** ** The stages keep their part *)

Section proofs.
Context {S P U : Type} (unpack : U → cpitem → U * cpitem).
Context (pack : P → cpitem → P * bool) (fresh : P).
Context (sendmsg : P → M S bool) (ignoremsg : M S unit) `{!ClientSpec sendmsg ignoremsg}.
Notation msg := (rpchandler_msg U).
Implicit Types ctx : msg.

(** After the check of the parameter the request is settled or can be answered. *)
Lemma nullparam_settles ctx s :
  request ctx →
  ∃ s' ctx' ok, rpchandler_msg_valid_nullparam unpack pack fresh sendmsg ctx s = inl (s', (ctx', ok)) ∧
    answerable ctx' ∧ hmeta ctx' = hmeta ctx ∧ hvalid ctx' = hvalid ctx ∧
    if ok : bool then hvalid ctx = true ∧ sent s' = sent s
    else settled_with pack fresh sendmsg ignoremsg (hvalid ctx) (hmeta ctx) s s'.
Proof.
  intros Hr. unfold rpchandler_msg_valid_nullparam.
  match goal with |- context [mbind _ ?c] =>
    assert (silent sendmsg ignoremsg c (λ r, hmeta r.1 = hmeta ctx ∧ hvalid r.1 = hvalid ctx)) as Hc end.
  { destruct (rpcmsg_has_value (hitem ctx)); [|by apply silent_ret].
    eapply silent_bind; [apply reading_silent, Hr|]. intros [ctx1 ty] (E1 & E2 & _). by apply silent_ret. }
  destruct (Hc s) as (s1 & [ctx1 null] & E & Hs & Em & Ev). simpl in Em, Ev.
  rewrite (bind_run _ _ _ _ _ E). destruct (validated ctx ctx1 Hr Em) as [Ha Em'].
  unfold rpchandler_msg_valid in *. simpl in Ha, Em'. rewrite Ev in *. destruct (hvalid ctx) eqn:Hv; simpl.
  - destruct null; [do 3 eexists; by split_and!|].
    destruct (send_error_answered pack fresh sendmsg ignoremsg _ RPCERR_INVALID_PARAM (Some (str "No parameter expected")) Ha s1)
      as (s2 & x & p & E2 & Hs2 & Hp). rewrite (bind_run _ _ _ _ _ E2). do 3 eexists. split_and!; [done..|].
    exists p. simpl in Hp. rewrite Em in Hp. split; [congruence|done].
  - do 3 eexists. split_and!; [done..|]. by rewrite Hs.
Qed.

Lemma same_request_meta ctx ctx' : hmeta ctx' = hmeta ctx → hvalid ctx' = hvalid ctx → same_request ctx ctx'.
Proof. intros E1 E2. unfold same_request. by rewrite E1, E2. Qed.

Lemma lists_if (c : ls_ctx P U → bool) f g :
  lists pack fresh sendmsg ignoremsg f → lists pack fresh sendmsg ignoremsg g →
  lists pack fresh sendmsg ignoremsg (λ l, if c l then f l else g l).
Proof. intros Hf Hg m l. destruct (c l); [apply Hf|apply Hg]. Qed.

Lemma dir_results_describe l :
  Forall (λ m, is_Some (RpcDir.name m)) l → describes pack fresh sendmsg ignoremsg (dir_results pack l).
Proof.
  induction 1 as [|m l Hm Hl IH]; [apply describes_ret|].
  apply (describes_bind pack fresh sendmsg ignoremsg (rpchandler_dir_result pack m)); [by apply dir_result_describes|done].
Qed.

Lemma dir_exists_describes :
  describes pack fresh sendmsg ignoremsg (λ d, mret (rpchandler_dir_exists d)).
Proof.
  intros m d Hd. apply silent_ret. unfold rpchandler_dir_exists. by destruct (dname d) eqn:E; rewrite ?E.
Qed.

Context (gperf_app : cstr → option app_methods) (version : cstr) (now : cpdatetime).

Lemma app_call_answered conf ctx m :
  disable_date conf = false → answerable ctx →
  ∀ s, ∃ s' p, app_call pack fresh sendmsg version now conf ctx m s = inl (s', true) ∧
    sent s' = sent s ++ [p] ∧ answer pack fresh (hmeta ctx) p.
Proof.
  intros Hd Ha s.
  assert (∃ (c : M S bool), app_call pack fresh sendmsg version now conf ctx m = (c;; mret true) ∧
    answered pack fresh sendmsg ignoremsg (hmeta ctx) c) as (c & -> & Hc).
  { destruct m; simpl; rewrite ?Hd; eexists; (split; [done|]);
      first [apply respond_answered; [apply _|done] | by apply send_void_answered]. }
  destruct (Hc s) as (s' & x & p & E & ? & ?). exists s', p. by rewrite (bind_run _ _ _ _ _ E).
Qed.

Lemma app_msg_takes conf :
  disable_date conf = false →
  takes pack fresh sendmsg ignoremsg (app_msg unpack pack fresh sendmsg gperf_app version now conf).
Proof.
  intros Hd ctx s Hr. pose proof Hr as (Ht & [name Hn] & [p Hp] & [u Hu]). unfold taken_at, app_msg, is_type.
  rewrite bool_decide_eq_true_2 by done. cbn [negb]. unfold at_path. rewrite Hp. rewrite (bind_run _ _ s s (strcmp p (str ".app") =? 0) eq_refl).
  assert (∃ s' ctx' res, (inl (s, (ctx, RPCHANDLER_MSG_SKIP)) : S * (msg * rpchandler_msg_res) + fault) =
      inl (s', (ctx', res)) ∧ same_request ctx ctx' ∧
      match hunpack ctx' with
      | Some _ => sent s' = sent s
      | None => res ≠ RPCHANDLER_MSG_SKIP ∧ settled_with pack fresh sendmsg ignoremsg (hvalid ctx) (hmeta ctx) s s'
      end) as Hskip.
  { exists s, ctx, RPCHANDLER_MSG_SKIP. split; [done|]. split; [done|]. by rewrite Hu. }
  destruct (strcmp p (str ".app") =? 0); [|exact Hskip]. cbn [negb]. rewrite Hn, (bind_run _ _ s s name eq_refl).
  destruct (gperf_app name) as [m|]; [|exact Hskip]. clear Hskip.
  destruct (nullparam_settles ctx s Hr) as (s1 & ctx1 & ok & E & Ha & Em & Ev & Hok).
  rewrite (bind_run _ _ _ _ _ E). destruct ok.
  - destruct Hok as [Hv Hs]. destruct (app_call_answered conf ctx1 m Hd Ha s1) as (s2 & q & E2 & Hs2 & Hq).
    rewrite (bind_run _ _ _ _ _ E2). exists s2, ctx1, RPCHANDLER_MSG_DONE. split; [done|].
    split; [by apply same_request_meta|]. rewrite (proj1 Ha), Hv. split; [done|]. exists q. rewrite <-Em.
    split; [congruence|done].
  - exists s1, ctx1, RPCHANDLER_MSG_DONE. split; [done|]. split; [by apply same_request_meta|].
    by rewrite (proj1 Ha).
Qed.

Lemma app_keeps conf :
  disable_date conf = false →
  stage_ok pack fresh sendmsg ignoremsg (rpchandler_app_stage unpack pack fresh sendmsg gperf_app version now conf).
Proof.
  intros Hd. split; intros f [= <-].
  - by apply app_msg_takes.
  - apply (lists_if (λ l, cget (lpath l) 0 =? 0)); [apply ls_result_const_lists; by_evaluation|apply lists_ret].
  - intros m d Hs. unfold app_dir. destruct (strcmp (dpath d) (str ".app") =? 0); simpl; [|by apply silent_ret].
    destruct (dname d) as [n|] eqn:En.
    + assert (silent sendmsg ignoremsg (mret (rpchandler_dir_exists d))
        (λ d', started pack fresh m (dpack d') ∧ dname d' = Some n ∧ dpath d' = dpath d)) as Hex
        by (rewrite <-En; by apply dir_exists_describes).
      destruct (gperf_app n) as [[]|]; try exact Hex; [|by apply silent_ret]. by rewrite Hd.
    + rewrite <-En. apply dir_results_describe; [|done]. unfold app_dirs. rewrite Hd. repeat constructor; by eexists.
Qed.
End proofs.

(** ** Properties *)

(** What a method of [.app] is answered with. *)
Definition app_answer {P} (pack : P → cpitem → P * bool) (version : cstr) (now : cpdatetime)
    (conf : rpchandler_app_conf) (meta : rpcmsg_meta) (m : app_methods) : P → P * bool :=
  match m with
  | APP_PING => rpcmsg_pack_response_void pack meta
  | _ =>
      rpcmsg_pack_response pack meta >>>
      match m with
      | APP_SHV_VERSION_MAJOR => cp_pack_int pack SHV_VERSION_MAJOR
      | APP_SHV_VERSION_MINOR => cp_pack_int pack SHV_VERSION_MINOR
      | APP_NAME => cp_pack_str pack (Some (default (str "shvc") (app_name conf)))
      | APP_VERSION => cp_pack_str pack (Some (default version (app_version conf)))
      | _ => cp_pack_datetime pack now
      end >>>
      cp_pack_container_end pack
  end.

Lemma respond_run {S P U} (pack : P → cpitem → P * bool) fresh (sendmsg : P → M S bool) ignoremsg
    `{!ClientSpec sendmsg ignoremsg} (ctx : rpchandler_msg U) body s :
  answerable ctx →
  ∃ s' ok, respond pack fresh sendmsg ctx body s = inl (s', ok) ∧
    sent s' = sent s ++ [((rpcmsg_pack_response pack (hmeta ctx) >>> body >>> cp_pack_container_end pack) fresh).1].
Proof.
  intros Ha. unfold respond. rewrite new_response_some by done. rewrite (bind_run _ _ s s _ eq_refl). simpl.
  unfold rpchandler_msg_send. rewrite (proj2 Ha).
  replace (cp_pack_container_end _ _).1 with
    ((rpcmsg_pack_response pack (hmeta ctx) >>> body >>> cp_pack_container_end pack) fresh).1; [apply sendmsg_sent|].
  unfold and_then. destruct (rpcmsg_pack_response pack (hmeta ctx) fresh) as [p ?]; simpl. by destruct (body p).
Qed.

Lemma send_packed_run {S P U} fresh (sendmsg : P → M S bool) ignoremsg
    `{!ClientSpec sendmsg ignoremsg} (ctx : rpchandler_msg U) c s :
  answerable ctx →
  ∃ s' ok, send_packed fresh sendmsg ctx c s = inl (s', ok) ∧ sent s' = sent s ++ [(c fresh).1].
Proof.
  intros [Hu Ha]. unfold send_packed, rpchandler_msg_new, rpchandler_msg_send. rewrite Hu, Ha. apply sendmsg_sent.
Qed.

(** C32: a valid request without a parameter for a method of [.app] is answered with the
    value of that method, the method [date] where it is not disabled; and where [date] is
    not disabled, the application stage keeps its part of the contract of stages. *)
Theorem app_stage_answers {S P U} (unpack : U → cpitem → U * cpitem) ck (pack : P → cpitem → P * bool) fresh
    (sendmsg : P → M S bool) ignoremsg `{!ClientSpec sendmsg ignoremsg} gperf_app version now conf rest :
  Keywords app_method_table gperf_app →
  let stage := rpchandler_app_stage unpack pack fresh sendmsg gperf_app version now conf in
  (disable_date conf = false → stage_ok pack fresh sendmsg ignoremsg stage) ∧
  ∀ name m ctx s, (name, m) ∈ app_method_table → (m = APP_DATE → disable_date conf = false) → request ctx → path (hmeta ctx) = Some (str ".app") →
    method (hmeta ctx) = Some name → rpcmsg_has_value (hitem ctx) = false → hvalid ctx = true →
    ∃ s', handle_msg unpack ck pack fresh sendmsg ignoremsg (stage :: rest) ctx s = inl (s', true) ∧
      sent s' = sent s ++ [(app_answer pack version now conf (hmeta ctx) m fresh).1].
Proof.
  intros Hk stage. split; [by apply app_keeps|].
  intros name m ctx s Hin Hd Hr Hp Hm Hv Hval. unfold handle_msg. simpl. unfold app_msg, is_type, at_path.
  rewrite bool_decide_eq_true_2 by apply Hr. rewrite Hp, Hm. cbn [negb].
  assert (gperf_app name = Some m) as Hg.
  { rewrite Hk. unfold app_method_table in Hin. rewrite !elem_of_cons, elem_of_nil in Hin. by destruct_or! Hin; simplify_eq. }
  set (ctx1 := (rpchandler_msg_valid ctx).1).
  destruct (validated ctx ctx Hr eq_refl) as [Ha Em]. fold ctx1 in Ha, Em.
  assert (∃ s', app_call pack fresh sendmsg version now conf ctx1 m s = inl (s', true) ∧
    sent s' = sent s ++ [(app_answer pack version now conf (hmeta ctx) m fresh).1]) as (s' & E & Hs).
  { rewrite <-Em. destruct m; simpl; rewrite ?(Hd eq_refl);
      match goal with
      | |- context [respond pack fresh sendmsg ctx1 ?c] =>
          destruct (respond_run pack fresh sendmsg ignoremsg ctx1 c s Ha) as (s' & ok & E & Hs)
      | _ =>
          destruct (send_packed_run fresh sendmsg ignoremsg ctx1 (rpcmsg_pack_response_void pack (hmeta ctx1)) s Ha)
            as (s' & ok & E & Hs)
      end; exists s'; (split; [by rewrite (bind_run _ _ _ _ _ E)|done]). }
  exists s'. split; [|done].
  rewrite (bind_run _ _ s s' (ctx1, RPCHANDLER_MSG_DONE)).
  - rewrite decide_False by done. by rewrite (proj1 Ha).
  - rewrite (bind_run _ _ s s true eq_refl). cbn [negb]. rewrite (bind_run _ _ s s name eq_refl), Hg.
    rewrite (bind_run _ _ s s (ctx1, true)); [by rewrite (bind_run _ _ _ _ _ E)|].
    unfold rpchandler_msg_valid_nullparam. rewrite Hv. cbn [negb]. rewrite (bind_run _ _ s s (ctx, true) eq_refl).
    unfold ctx1, rpchandler_msg_valid. simpl. by rewrite Hval.
Qed.

(** A request as the handler gets it: nothing is in its obstack. *)
Definition received_request (node name : cstr) (acc : Z) (u : rfile) (it : cpitem) (valid : bool) : rpchandler_msg rfile :=
  Msg (with_access acc (with_type RPCMSG_T_REQUEST (request_meta (Some node) name None 3))) (Some u) it
    (Obstack [] 4064) valid.

Definition no_value : cpitem := Item CPITEM_CONTAINER_END (AsError CPERR_NONE) None 0.
Definition int_key : cpitem := Item CPITEM_INT (AsInt RPCMSG_KEY_PARAM) None 0.
Definition out : ofile := Some (WFile [] None false).

Lemma app_stage_answers_witness :
  let conf := AppConf (Some (str "demo")) None false in
  let ctx := received_request (str ".app") (str "name") RPCACCESS_BROWSE (RFile [] false) no_value true in
  ∃ s', handle_msg cp_unpack_chainpack_func (Chunks (λ _, 4064) (λ _, 4064)) cp_pack_chainpack_func out log_send (mret tt)
      [rpchandler_app_stage cp_unpack_chainpack_func cp_pack_chainpack_func out log_send (assoc app_method_table)
        (str "0.1") (Datetime 0 0) conf] ctx [] = inl (s', true) ∧
    s' = [] ++ [(app_answer cp_pack_chainpack_func (str "0.1") (Datetime 0 0) conf (hmeta ctx) APP_NAME out).1].
Proof.
  intros conf ctx. pose proof (app_stage_answers cp_unpack_chainpack_func (Chunks (λ _, 4064) (λ _, 4064))
    cp_pack_chainpack_func out log_send (mret tt) (assoc app_method_table) (str "0.1") (Datetime 0 0) conf []
    _) as [_ H]. apply (H (str "name") APP_NAME); try done.
  unfold app_method_table. rewrite !elem_of_cons. by right; right; left.
Defined.

(** ** Examples *)

(** How many messages a stage sends for the request. *)
Definition sent_count (f : rpchandler_msg rfile → M (list ofile) (rpchandler_msg rfile * rpchandler_msg_res))
    (ctx : rpchandler_msg rfile) : option nat :=
  match f ctx [] with inl (s, _) => Some (length s) | inr _ => None end.

Definition device_msg_of (conf : rpchandler_device_conf (list ofile)) :=
  device_msg cp_unpack_chainpack_func cp_pack_chainpack_func out log_send (assoc device_method_table) 100 conf.

(** The request for [uptime] with a parameter gets two answers, and the one that is not
    valid gets one. *)
Example uptime_answers_twice :
  sent_count (device_msg_of (DeviceConf None None None None None))
    (received_request (str ".device") (str "uptime") RPCACCESS_READ (RFile [0x41; 0xff] false) int_key true) = Some 2%nat ∧
  sent_count (device_msg_of (DeviceConf None None None None None))
    (received_request (str ".device") (str "uptime") RPCACCESS_READ (RFile [] false) no_value false) = Some 1%nat.
Proof. by vm_compute. Qed.

(** A disabled [date] is skipped although the message was validated: a stage behind that
    reads the parameter finds no unpacker. *)
Example date_skipped_validated :
  let conf := AppConf None None true in
  match app_msg cp_unpack_chainpack_func cp_pack_chainpack_func out log_send (assoc app_method_table) (str "0.1")
      (Datetime 0 0) conf (received_request (str ".app") (str "date") RPCACCESS_BROWSE (RFile [] false) no_value true) [] with
  | inl (_, (ctx, res)) => hunpack ctx = None ∧ res = RPCHANDLER_MSG_SKIP
  | inr _ => False
  end.
Proof. by vm_compute. Qed.

(** The time of a stage that ends the round replaces a shorter one of a stage before. *)
Example idling_last_overrides :
  let stage t := Funcs (S := unit) (P := ofile) (U := rfile) None None None (Some (λ ctx, mret (ctx, t))) None in
  rpchandler_idling [stage 500; stage (RPCHANDLER_IDLE_LAST 1000)] 0 tt = inl (tt, 1000).
Proof. by vm_compute. Qed.
