(* ===== verification/BrokerApi.v ===== *)
(** * The methods of the broker ([libshvbroker/api.c], [libshvbroker/api_login.c])

    What the broker answers itself: the login, [.broker] and
    [.broker/currentClient].  The lookup of methods is generated by gperf from the
    tables in [api_broker_method.gperf] and [api_current_client_method.gperf]. *)

From stdpp Require Import pretty sorting.
From S2P Require Import Prelude Effects Stdio CpItem CpUnpack CpPack CpObstack CpLoops Arr Nbool Rpcri Rpcaccess.
From S2P Require Import RpcError RpcDir RpcMsg RpcHead RpcLogin Strset Subscription Mount Broker Handler.

(** ** Definitions *)

Definition SHV_IDLE_TIMEOUT_DEFAULT : Z := 180.

Inductive api_broker_methods :=
  | M_NAME | M_CLIENT_INFO | M_MOUNTED_CLIENT_INFO | M_CLIENTS | M_MOUNTS | M_DISCONNECT_CLIENT.

Definition api_broker_method_table : list (cstr * api_broker_methods) := [
  (str "name", M_NAME);
  (str "clientInfo", M_CLIENT_INFO);
  (str "mountedClientInfo", M_MOUNTED_CLIENT_INFO);
  (str "clients", M_CLIENTS);
  (str "mounts", M_MOUNTS);
  (str "disconnectClient", M_DISCONNECT_CLIENT)].

Inductive current_client_methods := M_INFO | M_SUBSCRIPTIONS | M_SUBSCRIBE | M_UNSUBSCRIBE.

Definition api_current_client_method_table : list (cstr * current_client_methods) := [
  (str "info", M_INFO);
  (str "subscriptions", M_SUBSCRIPTIONS);
  (str "subscribe", M_SUBSCRIBE);
  (str "unsubscribe", M_UNSUBSCRIBE)].

Definition broker_dirs : list rpcdir := [
  Dir (Some (str "name")) None (Some (str "s")) RPCDIR_F_GETTER RPCACCESS_BROWSE [];
  Dir (Some (str "clientInfo")) (Some (str "i")) (Some (str "!clientInfo|n")) 0 RPCACCESS_SUPER_SERVICE [];
  Dir (Some (str "mountedClientInfo")) (Some (str "s")) (Some (str "!clientInfo|n")) 0 RPCACCESS_SUPER_SERVICE [];
  Dir (Some (str "clients")) None (Some (str "[i]")) 0 RPCACCESS_SUPER_SERVICE [];
  Dir (Some (str "mounts")) None (Some (str "[s]")) 0 RPCACCESS_SUPER_SERVICE [];
  Dir (Some (str "disconnectClient")) (Some (str "i")) None 0 RPCACCESS_SUPER_SERVICE []].

Definition current_client_dirs : list rpcdir := [
  Dir (Some (str "info")) None (Some (str "!clientInfo")) RPCDIR_F_GETTER RPCACCESS_BROWSE [];
  Dir (Some (str "subscribe")) (Some (str "s|[s:RPCRI,i:TTL]")) (Some (str "b")) 0 RPCACCESS_BROWSE [];
  Dir (Some (str "unsubscribe")) (Some (str "s")) (Some (str "b")) 0 RPCACCESS_BROWSE [];
  Dir (Some (str "subscriptions")) None (Some (str "{i|n}")) 0 RPCACCESS_BROWSE []].

(** [rpcbroker_login_res] *)
Inductive rpcbroker_login_res := LoginOk (r : rpcbroker_role) | LoginFailed (errmsg : option cstr).

(** The random bytes as digits, the lower half of each first. *)
Definition generate_nonce (buf : list Z) : cstr :=
  flat_map (λ b, [hex (Z.land b 0xf); hex (Z.land (Z.shiftr b 4) 0xf)]) (take (Z.to_nat (NONCE_LEN / 2)) buf).

Definition subttlcmp (a b : ttlsub) : Z := i32 (ttl a - ttl b).

(** The first entry with the identifier. *)
Fixpoint find_ttl (ri : cstr) (l : list ttlsub) : option nat :=
  match l with
  | [] => None
  | t :: l => if strcmp ri (tri t) =? 0 then Some O else S <$> find_ttl ri l
  end.

Section api.
Context {P U : Type} (unpack : U → cpitem → U * cpitem) (ck : chunks) (alloc : Z → bool).
Context (pack : P → cpitem → P * bool) (fresh : P).
Notation M := (M (rpcbroker P)).
Notation msg := (rpchandler_msg U).

(** The handler of a client sends to that client. *)
Definition sendto (i : Z) (p : P) : M bool := emit (Sent i p);; mret true.

Notation respond i := (respond pack fresh (sendto i)).
Notation send_error i := (rpchandler_msg_send_error pack fresh (sendto i)).
Notation send_void i := (rpchandler_msg_send_response_void pack fresh (sendto i)).

(** ** Login

    [random] are the bytes of a nonce, [login_] is the callback with its cookie. *)
Context (random : list Z) (login_ : rpclogin → cstr → rpcbroker_login_res).

Definition login_hello (i : Z) (ctx : msg) : M msg :=
  let '(ctx, valid) := rpchandler_msg_valid ctx in
  if negb valid then mret ctx
  else
    c ← client_at i;
    (if cget (nonce c) 0 =? 0 then update_client i (set_nonce (generate_nonce random)) else mret tt);;
    c ← client_at i;
    p ← need NullPointer (rpchandler_msg_new fresh ctx);
    rpchandler_msg_send (sendto i) ctx
      ((rpcmsg_pack_response pack (hmeta ctx) >>> cp_pack_map_begin pack >>> cp_pack_str pack (Some (str "nonce")) >>>
        cp_pack_string pack (nonce c) >>> cp_pack_container_end pack >>> cp_pack_container_end pack) p).1;;
    mret ctx.

Definition login_fails (i : Z) (ctx : msg) (text : cstr) : M msg :=
  send_error i ctx RPCERR_METHOD_CALL_EXCEPTION (Some text);; mret ctx.

(** A login the callback accepted. *)
Definition login_accept (i : Z) (ctx : msg) (l : rpclogin) (r : rpcbroker_role) : M msg :=
  broker_lock;;
  res ← role_assign pack fresh i r;
  broker_unlock;;
  match res with
  | ROLE_RES_MNT_INVALID => login_fails i ctx (str "Mount point not allowed")
  | ROLE_RES_MNT_EXISTS => login_fails i ctx (str "Mount point already exists")
  | ROLE_RES_OK =>
      match RpcLogin.username l with Some u => update_client i (set_user (Some u)) | None => mret tt end;;
      update_client i (set_timeout (if idle_timeout l =? 0 then SHV_IDLE_TIMEOUT_DEFAULT else idle_timeout l));;
      send_void i ctx;;
      mret ctx
  end.

Definition login_login (i : Z) (ctx : msg) : M msg :=
  u ← need NullPointer (hunpack ctx);
  let '(u, it, (l, o)) := rpclogin_unpack unpack ck alloc u (hitem ctx) (hobs ctx) in
  let '(ctx, valid) := rpchandler_msg_valid (set_hobs o (set_read u it ctx)) in
  if negb valid then mret ctx
  else
    match l with
    | None => send_error i ctx RPCERR_INVALID_PARAM None;; mret ctx
    | Some l =>
        c ← client_at i;
        match login_ l (nonce c) with
        | LoginFailed errmsg => login_fails i ctx (default (str "Invalid login") errmsg)
        | LoginOk r => login_accept i ctx l r
        end
    end.

Definition login_required (i : Z) (ctx : msg) : M msg :=
  let '(ctx, valid) := rpchandler_msg_valid ctx in
  if valid : bool then
    c ← client_at i;
    send_error i ctx RPCERR_LOGIN_REQUIRED
      (Some (if cget (nonce c) 0 =? 0 then str "Only method 'hello' is allowed"
             else str "Only methods 'hello' and 'login' are allowed"));;
    mret ctx
  else mret ctx.

Definition rpcbroker_api_login_msg (i : Z) (ctx : msg) : M msg :=
  match default [] (path (hmeta ctx)) with
  | [] =>
      m ← need NullPointer (method (hmeta ctx));
      if strcmp m (str "hello") =? 0 then login_hello i ctx
      else if strcmp m (str "login") =? 0 then login_login i ctx
      else login_required i ctx
  | _ => login_required i ctx
  end.

(** ** [ls] and [dir] *)

Notation ls := (ls_ctx P U).
Notation ls_fmt := (rpchandler_ls_result_fmt pack fresh).
Notation ls_const := (rpchandler_ls_result_const pack fresh).

Definition ls_client (ctx : ls) (i : nat) : M ls :=
  b ← gets id;
  active ← need UseAfterFree (cid_active b (Z.of_nat i));
  if active : bool then ls_fmt (print_d (Z.of_nat i)) ctx else mret ctx.

(** The name of the mount point on the path.  A mount point that is the path has no
    name: the string is read behind its end. *)
Definition ls_mount (ctx : ls) (m : mount) : M ls :=
  if is_path_prefix (mpath m) (lpath ctx) then
    let off := (length (lpath ctx) + (if Z.eqb (cget (lpath ctx) 0) 0 then 0 else 1))%nat in
    if (length (mpath m) <? off)%nat then fails ReadOutside
    else
      let name := before_slash (drop off (mpath m)) in
      if strlen name =? 0 then fails Assertion else ls_fmt name ctx
  else mret ctx.

Definition ls_mounts (ctx : ls) : M ls :=
  broker_lock;;
  ms ← gets mounts;
  ctx ← fold ls_mount ctx ms;
  broker_unlock;;
  mret ctx.

Definition rpcbroker_api_ls (ctx : ls) : M ls :=
  if cget (lpath ctx) 0 =? 0 then ctx ← ls_const (str ".broker") ctx; ls_mounts ctx
  else if strcmp (lpath ctx) (str ".broker") =? 0 then
    ctx ← ls_const (str "currentClient") ctx; ls_const (str "client") ctx
  else if strcmp (lpath ctx) (str ".broker/client") =? 0 then
    broker_lock;;
    l ← gets clients;
    ctx ← fold ls_client ctx (seq 0 (length l));
    broker_unlock;;
    mret ctx
  else ls_mounts ctx.

Context (gperf_broker : cstr → option api_broker_methods).
Context (gperf_current_client : cstr → option current_client_methods).

(** The methods of a node, or whether the one asked for is known. *)
Definition api_node_dir (known : cstr → bool) (l : list rpcdir) (ctx : dir_ctx P) : M (dir_ctx P) :=
  match dname ctx with
  | Some n => mret (if known n then rpchandler_dir_exists ctx else ctx)
  | None => fold (λ ctx m, rpchandler_dir_result pack m ctx) ctx l
  end.

Definition rpcbroker_api_dir (ctx : dir_ctx P) : M (dir_ctx P) :=
  if strcmp (dpath ctx) (str ".broker") =? 0 then
    api_node_dir (λ n, bool_decide (is_Some (gperf_broker n))) broker_dirs ctx
  else if strcmp (dpath ctx) (str ".broker/currentClient") =? 0 then
    api_node_dir (λ n, bool_decide (is_Some (gperf_current_client n))) current_client_dirs ctx
  else mret ctx.

(** ** [.broker] *)

(** Identifiers are compared as pointers; those of a client's own entries point to
    the ones of the subscriptions. *)
Definition pack_ttl (now : Z) (c : clientctx) (s : subscription) : P → P * bool :=
  match list_find (λ t, tri t = ri s) (ttlsubs c) with
  | Some (_, t) => cp_pack_int pack (ttl t - now)
  | None => cp_pack_null pack
  end.

Definition pack_subscriptions (now : Z) (l : list subscription) (c : clientctx) : P → P * bool :=
  cp_pack_map_begin pack >>>
  for_each (λ s, when (nbool (sclients s) (cid c)) (cp_pack_str pack (Some (ri s)) >>> pack_ttl now c s)) l >>>
  cp_pack_container_end pack.

Definition pack_field (name : cstr) (v : option cstr) : P → P * bool :=
  match v with
  | Some v => cp_pack_str pack (Some name) >>> cp_pack_str pack (Some v)
  | None => nop
  end.

Definition pack_client_info (now : Z) (l : list subscription) (c : clientctx) : P → P * bool :=
  cp_pack_map_begin pack >>>
  cp_pack_str pack (Some (str "clientId")) >>> cp_pack_int pack (cid c) >>>
  match role c with
  | Some r =>
      pack_field (str "userName") (username c) >>>
      pack_field (str "mountPoint") (mount_point r) >>>
      pack_field (str "role") (rname r) >>>
      cp_pack_str pack (Some (str "subscriptions")) >>>
      pack_subscriptions now l c
  | None => nop
  end >>>
  cp_pack_container_end pack.

(** [i] is who asks for the client [j]. *)
Definition send_client_info (now i j : Z) (ctx : msg) : M unit :=
  c ← client_at j;
  l ← gets subs;
  respond i ctx (pack_client_info now l c);;
  mret tt.

(** A method without a parameter: what to do with a valid request. *)
Definition no_param (i : Z) (ctx : msg) (k : msg → M unit) : M (msg * bool) :=
  let has_param := rpcmsg_has_value (hitem ctx) in
  let '(ctx, valid) := rpchandler_msg_valid ctx in
  if negb valid then mret (ctx, true)
  else if has_param then
    send_error i ctx RPCERR_INVALID_PARAM (Some (str "Must be 'null'"));; mret (ctx, true)
  else k ctx;; mret (ctx, true).

(** A method with a parameter that is read by [f]. *)
Definition with_param {A} (i : Z) (ctx : msg) (f : msg → M (msg * option A)) (want : cstr) (k : msg → A → M unit) :
    M (msg * bool) :=
  '(ctx, x) ← f ctx;
  let '(ctx, valid) := rpchandler_msg_valid ctx in
  if negb valid then mret (ctx, true)
  else
    match x with
    | None => send_error i ctx RPCERR_INVALID_PARAM (Some want);; mret (ctx, true)
    | Some x => k ctx x;; mret (ctx, true)
    end.

Definition locked_do (k : M unit) : M unit := broker_lock;; k;; broker_unlock.

(** The methods that need the level of super service are passed over without it. *)
Definition super (ctx : msg) (k : M (msg * bool)) : M (msg * bool) :=
  if maccess (hmeta ctx) <? RPCACCESS_SUPER_SERVICE then mret (ctx, false) else k.

(** What is packed while the lock is held. *)
Definition respond_locked (i : Z) (ctx : msg) (f : rpcbroker P → P → P * bool) : M unit :=
  broker_lock;;
  b ← gets id;
  broker_unlock;;
  respond i ctx (f b);;
  mret tt.

Definition disconnect_client (i : Z) (ctx : msg) (j : Z) : M unit :=
  broker_lock;;
  b ← gets id;
  let valid := cid_valid b j in
  (if valid then c ← client_at j; emit (Disconnected j) else mret tt);;
  broker_unlock;;
  (if valid then send_void i ctx
   else send_error i ctx RPCERR_METHOD_CALL_EXCEPTION (Some (str "No such client")));;
  mret tt.

Definition mounted_client_info (now i : Z) (ctx : msg) (p : cstr) : M unit :=
  b ← gets id;
  match mounted_client (mounts b) (cid_active b) (siz b) p with
  | Found j _ => send_client_info now i j ctx
  | NotFound => send_void i ctx;; mret tt
  | OutOfBounds => fails ReadOutside
  end.

(** The second result is whether the request was handled. *)
Definition rpc_msg_request_broker (now i : Z) (ctx : msg) : M (msg * bool) :=
  name ← need NullPointer (method (hmeta ctx));
  match gperf_broker name with
  | None => mret (ctx, false)
  | Some M_NAME => no_param i ctx (λ ctx, respond_locked i ctx (λ b, cp_pack_str pack (bname b)))
  | Some M_CLIENT_INFO =>
      super ctx (with_param i ctx (reading (cp_unpack_int unpack (Signed 32))) (str "Expected Int") (λ ctx j,
        locked_do (b ← gets id; if cid_valid b j then send_client_info now i j ctx else send_void i ctx;; mret tt)))
  | Some M_MOUNTED_CLIENT_INFO =>
      super ctx (with_param i ctx (reading_str unpack ck) (str "Expected String") (λ ctx p,
        locked_do (mounted_client_info now i ctx p)))
  | Some M_CLIENTS =>
      super ctx (no_param i ctx (λ ctx, respond_locked i ctx (λ b,
        cp_pack_list_begin pack >>>
        for_each (λ j, when (cid_valid b j) (cp_pack_int pack j)) (seqZ 0 (siz b)) >>>
        cp_pack_container_end pack)))
  | Some M_MOUNTS =>
      super ctx (no_param i ctx (λ ctx, respond_locked i ctx (λ b,
        cp_pack_list_begin pack >>>
        for_each (λ m, cp_pack_str pack (Some (mpath m))) (mounts b) >>>
        cp_pack_container_end pack)))
  | Some M_DISCONNECT_CLIENT =>
      super ctx (with_param i ctx (reading (cp_unpack_int unpack (Signed 32))) (str "Expected Int") (disconnect_client i))
  end.

(** ** [.broker/currentClient] *)

(** The identifier and the time of a subscription; the time is [-1] without one. *)
Definition subscribe_param (ctx : msg) : M (msg * option (cstr * Z)) :=
  '(ctx, ty) ← reading (cp_unpack_type unpack) ctx;
  match ty with
  | CPITEM_STRING => '(ctx, ri) ← reading_str unpack ck ctx; mret (ctx, (., -1) <$> ri)
  | CPITEM_LIST =>
      '(ctx, ri) ← reading_str unpack ck ctx;
      match ri with
      | None => mret (ctx, None)
      | Some ri => '(ctx, t) ← reading (cp_unpack_int unpack (Signed 32)) ctx; mret (ctx, Some (ri, default (-1) t))
      end
  | _ => mret (ctx, None)
  end.

(** The entry with the time, new or the one that is there, and the entries sorted. *)
Definition subscribe_ttl (now i : Z) (ri : cstr) (t : Z) (new : bool) : M unit :=
  b ← gets id;
  c ← client_at i;
  l ← (if new then r ← need NullPointer (subscription_ri (subs b) ri); mret (ARR_ADD (ttlsubs c) (Ttlsub r (now + t)))
       else
         n ← need Assertion (find_ttl ri (ttlsubs c));
         mret (alter (λ x, Ttlsub (tri x) (now + t)) n (ttlsubs c)));
  update_client i (set_ttlsubs (qsort subttlcmp l)).

Definition api_subscribe (now i : Z) (ctx : msg) (x : cstr * Z) : M unit :=
  let '(ri, t) := x in
  broker_lock;;
  b ← gets id;
  let '(ss, res) := subscribe (subs b) ri i in
  modify (set_subs ss);;
  (if t >? 0 then subscribe_ttl now i ri t res else mret tt);;
  broker_unlock;;
  respond i ctx (cp_pack_bool pack res);;
  mret tt.

(** The value is followed by the end of a container that was not started. *)
Definition api_unsubscribe (i : Z) (ctx : msg) (ri : cstr) : M unit :=
  broker_lock;;
  c ← client_at i;
  (match find_ttl ri (ttlsubs c) with
   | Some n => update_client i (set_ttlsubs (ARR_DEL (ttlsubs c) n))
   | None => mret tt
   end);;
  b ← gets id;
  let '(ss, res) := unsubscribe (subs b) ri i in
  modify (set_subs ss);;
  broker_unlock;;
  respond i ctx (cp_pack_bool pack res >>> cp_pack_container_end pack);;
  mret tt.

Definition rpc_msg_request_broker_current_client (now i : Z) (ctx : msg) : M (msg * bool) :=
  name ← need NullPointer (method (hmeta ctx));
  match gperf_current_client name with
  | None => mret (ctx, false)
  | Some M_INFO => no_param i ctx (λ ctx, locked_do (send_client_info now i i ctx))
  | Some M_SUBSCRIBE =>
      with_param i ctx subscribe_param (str "Expected String or List") (api_subscribe now i)
  | Some M_UNSUBSCRIBE => with_param i ctx (reading_str unpack ck) (str "Expected String") (api_unsubscribe i)
  | Some M_SUBSCRIPTIONS =>
      no_param i ctx (λ ctx, c ← client_at i; respond_locked i ctx (λ b, pack_subscriptions now (subs b) c))
  end.

Definition rpcbroker_api_msg (now i : Z) (ctx : msg) : M (msg * bool) :=
  p ← need NullPointer (path (hmeta ctx));
  if strcmp p (str ".broker") =? 0 then rpc_msg_request_broker now i ctx
  else if strcmp p (str ".broker/currentClient") =? 0 then rpc_msg_request_broker_current_client now i ctx
  else mret (ctx, false).
End api.
