(* ===== verification/BrokerStage.v ===== *)
(** * The stages of the broker ([libshvbroker/access_stage.c],
      [libshvbroker/rpc_stage.c], [libshvbroker/signal.c])

    The access stage is the first of every client's handler: it has the client log in
    and limits the access level of its requests.  The other stage answers for the
    broker and passes messages on between clients. *)

From stdpp Require Import sorting.
From S2P Require Import Prelude Effects Stdio CpItem CpUnpack CpPack CpTools CpObstack CpLoops Arr Nbool Rpcri Rpcaccess.
From S2P Require Import RpcError RpcDir RpcMsg RpcHead RpcLogin Strset Subscription Mount Broker Handler BrokerApi.

Section stages.
Context {P U : Type} (unpack : U → cpitem → U * cpitem) (ck : chunks) (alloc : Z → bool).
Context (pack : P → cpitem → P * bool) (fresh : P).
Context (random : list Z) (login_ : rpclogin → cstr → rpcbroker_login_res).
Context (gperf_broker : cstr → option api_broker_methods).
Context (gperf_current_client : cstr → option current_client_methods).
Notation M := (M (rpcbroker P)).
Notation msg := (rpchandler_msg U).

(** ** Access *)

Definition access_msg (now i : Z) (ctx : msg) : M (msg * rpchandler_msg_res) :=
  update_client i (set_activity now);;
  c ← client_at i;
  match role c with
  | None =>
      ctx ← (if is_type (hmeta ctx) RPCMSG_T_REQUEST
             then rpcbroker_api_login_msg unpack ck alloc pack fresh random login_ i ctx else mret ctx);
      mret (ctx, RPCHANDLER_MSG_DONE)
  | Some r =>
      let m := hmeta ctx in
      let m := if is_type m RPCMSG_T_REQUEST || is_type m RPCMSG_T_REQUEST_ABORT then
          let newaccess := access r (path m) (method m) in
          with_access (if maccess m <? newaccess then maccess m else newaccess) m
        else m in
      mret (set_hmeta m ctx, RPCHANDLER_MSG_SKIP)
  end.

(** The times are in seconds. *)
Definition access_idle (now i : Z) : M Z :=
  broker_lock;;
  c ← client_at i;
  let res :=
    if negb (activity_timeout c =? u32 (-1)) then
      let timeout := i32 (last_activity c + activity_timeout c - now) in
      if timeout >=? 0 then timeout else RPCHANDLER_IDLE_STOP
    else RPCHANDLER_IDLE_SKIP in
  broker_unlock;;
  mret res.

Definition access_reset (i : Z) : M unit :=
  broker_lock;;
  c ← client_at i;
  (if login c then
     c ← role_unassign pack fresh c;
     update_client i (λ _, set_user None (set_nonce [] c))
   else mret tt);;
  broker_unlock.

(** ** Passing messages on *)

(** The message as it goes on, with its value where it has one. *)
Definition repacked (ctx : msg) {Q} (qpack : Q → cpitem → Q * bool) (q : Q) : M (msg * Q) :=
  if rpcmsg_has_value (hitem ctx) then
    u ← need NullPointer (hunpack ctx);
    let '(q, _) := rpcmsg_pack_meta qpack (hmeta ctx) q in
    let '(u, it, q, _) := cp_repack unpack qpack u (hitem ctx) q in
    let '(q, _) := cp_pack_container_end qpack q in
    mret (set_read u it ctx, q)
  else mret (ctx, (rpcmsg_pack_meta_void qpack (hmeta ctx) q).1).

(** To the client [j]; the lock is released as soon as the message is started. *)
Definition propagate_msg (ctx : msg) (j : Z) : M msg :=
  c ← client_at j;
  broker_unlock;;
  '(ctx, p) ← repacked ctx pack fresh;
  let '(ctx, valid) := rpchandler_msg_valid ctx in
  (if valid : bool then emit (Sent j p) else mret tt);;
  mret ctx.

(** The user and the broker the request came through are added. *)
Definition extend_user_id (user broker : option cstr) (uid : cstr) : cstr :=
  (match uid with [] => [] | _ => uid ++ [59] end) ++ default [] user ++
  (match user, broker with Some _, Some _ => [58] | _, _ => [] end) ++ default [] broker.

(** The request on its way to the client with the path, from the client [c]. *)
Definition forwarded_request (m : rpcmsg_meta) (rpath : cstr) (c : clientctx) (broker : option cstr) : rpcmsg_meta :=
  let m := with_cids (cids m ++ [cid c]) (with_path (Some rpath) m) in
  with_user_id (extend_user_id (username c) broker <$> user_id m) m.

Definition rpc_msg_request (now i : Z) (ctx : msg) : M (msg * rpchandler_msg_res) :=
  '(ctx, handled) ← (if is_type (hmeta ctx) RPCMSG_T_REQUEST
    then rpcbroker_api_msg unpack ck pack fresh gperf_broker gperf_current_client now i ctx else mret (ctx, false));
  if handled : bool then mret (ctx, RPCHANDLER_MSG_DONE)
  else
    broker_lock;;
    b ← gets id;
    p ← need NullPointer (path (hmeta ctx));
    match mounted_client (mounts b) (cid_active b) (siz b) p with
    | OutOfBounds => fails ReadOutside
    | NotFound => broker_unlock;; mret (ctx, RPCHANDLER_MSG_SKIP)
    | Found j rpath =>
        c ← client_at i;
        ctx ← propagate_msg (set_hmeta (forwarded_request (hmeta ctx) rpath c (bname b)) ctx) j;
        mret (ctx, RPCHANDLER_MSG_DONE)
    end.

(** The last of the callers is checked as an [int] and used as it is. *)
Definition rpc_msg_response (ctx : msg) : M (msg * rpchandler_msg_res) :=
  broker_lock;;
  b ← gets id;
  match last (cids (hmeta ctx)) with
  | None => broker_unlock;; mret (ctx, RPCHANDLER_MSG_SKIP)
  | Some j =>
      if negb (cid_valid b (i32 j)) then broker_unlock;; mret (ctx, RPCHANDLER_MSG_SKIP)
      else
        let m := hmeta ctx in
        ctx ← propagate_msg (set_hmeta (with_cids (take (length (cids m) - 1) (cids m)) m) ctx) j;
        mret (ctx, RPCHANDLER_MSG_DONE)
  end.

(** Where a signal of a client comes from, seen by others. *)
Definition signal_path (point : cstr) (p : option cstr) : cstr :=
  match p with Some (x :: q) => point ++ SLASH :: x :: q | _ => point end.

(** The lock is not released. *)
Definition rpc_msg_signal (i : Z) (ctx : msg) : M (msg * rpchandler_msg_res) :=
  broker_lock;;
  c ← client_at i;
  match role c ≫= mount_point with
  | None => mret (ctx, RPCHANDLER_MSG_SKIP)
  | Some point =>
      let p := signal_path point (path (hmeta ctx)) in
      let ctx := set_hmeta (with_path (Some p) (hmeta ctx)) ctx in
      so ← need NullPointer (source (hmeta ctx));
      dest ← signal_destinations p so (method (hmeta ctx)) (maccess (hmeta ctx));
      match dest with
      | None => mret (ctx, RPCHANDLER_MSG_SKIP)
      | Some _ =>
          packs ← multipack_init fresh dest;
          '(ctx, packs) ← repacked ctx (pack_func pack) packs;
          let '(ctx, valid) := rpchandler_msg_valid ctx in
          multipack_done packs dest valid;;
          mret (ctx, RPCHANDLER_MSG_SKIP)
      end
  end.

Definition rpc_msg (now i : Z) (ctx : msg) : M (msg * rpchandler_msg_res) :=
  match mtype (hmeta ctx) with
  | RPCMSG_T_REQUEST | RPCMSG_T_REQUEST_ABORT => rpc_msg_request now i ctx
  | RPCMSG_T_RESPONSE | RPCMSG_T_ERROR | RPCMSG_T_RESPONSE_DELAY => rpc_msg_response ctx
  | RPCMSG_T_SIGNAL => rpc_msg_signal i ctx
  | RPCMSG_T_INVALID => mret (ctx, RPCHANDLER_MSG_SKIP)
  end.

(** ** Idle and reset *)

(** The entries whose time has come: they are in front. *)
Fixpoint expired (now : Z) (l : list ttlsub) : nat :=
  match l with
  | t :: l => if ttl t <=? now then S (expired now l) else O
  | [] => O
  end.

Definition rpc_idle (now i : Z) : M Z :=
  broker_lock;;
  c ← client_at i;
  let n := expired now (ttlsubs c) in
  each (λ t, modify (λ b, set_subs (unsubscribe (subs b) (tri t) (cid c)).1 b)) (take n (ttlsubs c));;
  update_client i (set_ttlsubs (ARR_DROP (ttlsubs c) n));;
  broker_unlock;;
  mret (match drop n (ttlsubs c) with
        | t :: _ => Z.min RPCHANDLER_IDLE_SKIP (i32 ((ttl t - now) * 1000))
        | [] => RPCHANDLER_IDLE_SKIP
        end).

Definition rpc_reset (i : Z) : M unit :=
  broker_lock;;
  c ← client_at i;
  modify (λ b, set_subs (unsubscribe_all (subs b) (cid c)) b);;
  update_client i (set_ttlsubs []);;
  broker_unlock.

(** [now] is what the clock says in each of the calls. *)
Definition access_funcs (now i : Z) : rpchandler_funcs (rpcbroker P) P U :=
  Funcs (Some (access_msg now i)) None None
    (Some (λ ctx, t ← access_idle now i; mret (ctx, t))) (Some (access_reset i)).

Definition rpc_funcs (now i : Z) : rpchandler_funcs (rpcbroker P) P U :=
  Funcs (Some (rpc_msg now i)) (Some (rpcbroker_api_ls pack fresh))
    (Some (rpcbroker_api_dir pack gperf_broker gperf_current_client))
    (Some (λ ctx, t ← rpc_idle now i; mret (ctx, t))) (Some (rpc_reset i)).

(** ** Signals of the application *)

Definition sigctx : Type := nbool_t * list (option P).

Definition init (p so : cstr) (sg : option cstr) (acc : Z) : M (option sigctx) :=
  dest ← signal_destinations p so sg acc;
  match dest with
  | None => mret None
  | Some _ => packs ← multipack_init fresh dest; mret (Some (dest, packs))
  end.

Definition rpcbroker_new_signal (p so sg : cstr) (uid : option cstr) (acc : Z) (rep : bool) : M (option sigctx) :=
  broker_lock;;
  s ← init p so (Some sg) acc;
  broker_unlock;;
  mret (prod_map id (λ packs, (rpcmsg_pack_signal (pack_func pack) (Some p) so sg uid acc rep packs).1) <$> s).

Definition done (s : sigctx) (val : bool) : M bool :=
  broker_lock;;
  multipack_done s.2 s.1 val;;
  broker_unlock;;
  mret true.

Definition rpcbroker_send_signal (s : sigctx) : M bool :=
  done (s.1, (cp_pack_container_end (pack_func pack) s.2).1) true.

Definition rpcbroker_drop_signal (s : sigctx) : M bool := done s false.

Definition rpcbroker_send_signal_void (p so sg : cstr) (uid : option cstr) (acc : Z) (rep : bool) : M bool :=
  broker_lock;;
  s ← init p so (Some sg) acc;
  res ← match s with
        | Some (dest, packs) =>
            done (dest, (rpcmsg_pack_signal_void (pack_func pack) (Some p) so sg uid acc rep packs).1) true
        | None => mret true
        end;
  broker_unlock;;
  mret res.
End stages.
