(* ===== verification/BrokerStageSpec.v ===== *)
(** * What the stages of the broker keep true

    The operations of connected clients keep the invariant of the broker, a client
    that did not log in reaches nobody, requests and responses find their way there
    and back, and signals get to those who may have them. *)

From stdpp Require Import sorting gmap.
From S2P Require Import Prelude Effects Stdio CpItem CpUnpack CpPack CpTools CpObstack CpLoops Arr Nbool Rpcri Rpcaccess.
From S2P Require Import RpcError RpcDir RpcMsg RpcHead RpcLogin Strset Subscription Mount Broker BrokerSpec.
From S2P Require Import Handler HandlerSpec BrokerApi BrokerStage.

#[local] Opaque unsubscribe_all unsubscribe subscribe add_mount del_mount search_mounts.

(** ** Changes of one client *)

Section changes.
Context {P : Type}.
Implicit Types b : rpcbroker P.

(** Only the client [i] is not as it was. *)
Definition changed b (i : Z) (c' : clientctx) b' : Prop :=
  broker_inv b' ∧ slot_at b' i = Some (Live c') ∧ ∀ j, j ≠ i → slot_at b' j = slot_at b j.

Lemma changed_slots b b' i c c' :
  slot_at b i = Some (Live c) → clients b' = clients (put b i (Live c')) →
  slot_at b' i = Some (Live c') ∧ ∀ j, j ≠ i → slot_at b' j = slot_at b j.
Proof.
  intros Hi E. assert (∀ j, slot_at b' j = slot_at (put b i (Live c')) j) as Hj by (intros j; unfold slot_at; by rewrite E).
  split; [rewrite Hj; by apply (slot_put b i _ (Live c))|]. intros j Hne. rewrite Hj. by apply (slot_put_ne b i j _ (Live c)).
Qed.

(** A client with the same role and other subscriptions. *)
Lemma inv_change b b' i c c' :
  broker_inv b → slot_at b i = Some (Live c) → clients b' = clients (put b i (Live c')) →
  clients_lastuse b' = clients_lastuse b → mounts b' = mounts b → locked b' = false →
  cid c' = cid c → role c' = role c → subs_wf (subs b') →
  (∀ r j, wants (subs b') r j → wants (subs b) r j ∨ safe_ri r ∧ j = i) →
  (∀ r j, j ≠ i → wants (subs b) r j → wants (subs b') r j) →
  NoDup (tri <$> ttlsubs c') → (∀ t, t ∈ ttlsubs c' → wants (subs b') (tri t) i) →
  changed b i c' b'.
Proof.
  intros (Hc & Hs & Hm & Hmt & Ht & Hl) Hi Ecl Elu Em Elk Ec Er Hwf Hback Hkeep Hnd Hin.
  pose proof (slot_range _ _ _ Hi) as [Hi0 _]. destruct (changed_slots b b' i c c' Hi Ecl) as [Hi' Hj].
  split; [split_and!|done]; try done.
  - unfold clients_ok. rewrite Ecl, Elu. apply clients_ok_put; [done..|]. intros d [= <-]. rewrite Ec. by apply (live_cid b).
  - split; [split; [done|]|]; intros r j [Hw|[Hr ->]]%Hback; [by eapply Hs|done| |by exists c'].
    destruct (decide (j = i)) as [->|Hne]; [by exists c'|]. rewrite Hj by done. by eapply Hs.
  - unfold mounts_ok. by rewrite Em.
  - intros m. rewrite Em, (Hmt m). unfold has_mount. destruct (decide (mcid m = i)) as [->|Hne].
    + rewrite Hi, Hi'. split; intros (d & r & [= <-] & Hr & Hp); eexists _, r; (split; [done|]); split; congruence.
    + by rewrite Hj.
  - intros j d Hd. destruct (decide (j = i)) as [->|Hne].
    + rewrite Hi' in Hd. by simplify_eq.
    + rewrite Hj in Hd by done. destruct (Ht j d Hd) as [? Hin']. split; [done|]. auto.
Qed.

Lemma unlock_after b b1 :
  nolock b1 = nolock b → locked b1 = negb (nolock b) → broker_unlock b1 = inl (set_locked false b1, tt).
Proof.
  intros E El. apply unlock_run.
  rewrite E, El. by intros ->.
Qed.

Lemma rpc_reset_spec b i c :
  broker_inv b → slot_at b i = Some (Live c) →
  ∃ b', rpc_reset i b = inl (b', tt) ∧ changed b i (set_ttlsubs [] c) b' ∧
    ∀ r j, wants (subs b') r j ↔ wants (subs b) r j ∧ j ≠ i.
Proof.
  intros Hinv Hi. pose proof Hinv as (Hc & Hs & _ & _ & _ & Hl). pose proof (slot_range _ _ _ Hi) as [Hi0 _].
  pose proof (live_cid b i c Hc Hi) as Ecid. destruct (unsubscribe_all_spec (subs b) i) as [Hwf Hw]; [apply Hs|done|].
  unfold rpc_reset. rewrite (bind_run _ _ _ _ _ (lock_run b Hl)). set (b0 := set_locked _ b).
  rewrite (bind_run _ _ b0 b0 c) by (unfold client_at; change (slot_at b0 i) with (slot_at b i); by rewrite Hi).
  rewrite (bind_run _ _ _ _ _ eq_refl), Ecid. set (b1 := set_subs _ b0).
  rewrite (bind_run _ _ _ _ _ (update_client_run b1 i c _ Hi)), (unlock_after b) by done.
  eexists. split_and!; [done| |done]. apply (inv_change b _ i c); try done; [naive_solver..|constructor|].
  by intros t ?%not_elem_of_nil.
Qed.

(** Where the identifier is among the entries with a time. *)
Lemma find_ttl_spec ri l :
  wf_cstr ri → Forall (λ t, wf_cstr (tri t)) l →
  match find_ttl ri l with
  | Some n => ∃ t, l !! n = Some t ∧ tri t = ri
  | None => ∀ t, t ∈ l → tri t ≠ ri
  end.
Proof.
  intros Hr Hl. induction Hl as [|t l Ht Hl IH]; simpl; [by intros t ?%not_elem_of_nil|].
  pose proof (strcmp_eq ri (tri t) Hr Ht) as Heq. destruct (Z.eqb_spec (strcmp ri (tri t)) 0) as [E|E].
  - exists t. split; [done|]. symmetry. by apply Heq.
  - destruct (find_ttl ri l) as [n|]; simpl; [done|]. intros x [->|Hx]%elem_of_cons; [|by apply IH].
    intros <-. apply E, strcmp_refl.
Qed.

Lemma ttl_delete l n x :
  NoDup (tri <$> l) → l !! n = Some x →
  NoDup (tri <$> delete n l) ∧ ∀ t, t ∈ delete n l ↔ t ∈ l ∧ tri t ≠ tri x.
Proof.
  intros Hnd Hx. rewrite <-(take_drop_middle l n x Hx) in Hnd.
  rewrite fmap_app, fmap_cons in Hnd. apply NoDup_app in Hnd as (H1 & H2 & [H3 H4]%NoDup_cons).
  rewrite delete_take_drop. split.
  - rewrite fmap_app. apply NoDup_app. split_and!; [done| |done]. intros y Hy Hy'. apply (H2 y Hy). by right.
  - intros t. rewrite <-(take_drop_middle l n x Hx) at 3. rewrite !elem_of_app, elem_of_cons. split; [|naive_solver].
    intros [Ht|Ht]; (split; [by auto|]); intros E; [apply (H2 (tri t)); [by apply list_elem_of_fmap_2|rewrite E; by left]|].
    apply H3. rewrite <-E. by apply list_elem_of_fmap_2.
Qed.

Lemma ttl_wf b i c :
  broker_inv b → slot_at b i = Some (Live c) → Forall (λ t, wf_cstr (tri t)) (ttlsubs c).
Proof.
  intros (_ & Hs & _ & _ & Ht & _) Hi. apply Forall_forall. intros t Hin. destruct (Ht i c Hi) as [_ Hw].
  by apply (proj2 (proj1 Hs) _ _ (Hw t Hin)).
Qed.

Lemma unsubscribe_each b i l :
  subs_wf (subs b) → 0 ≤ i → Forall (λ t, wf_cstr (tri t)) l →
  ∃ ss, each (λ t, modify (λ b, set_subs (unsubscribe (subs b) (tri t) i).1 b)) l b = inl (set_subs ss b, tt) ∧
    subs_wf ss ∧ ∀ r j, wants ss r j ↔ wants (subs b) r j ∧ ¬ (j = i ∧ r ∈ tri <$> l).
Proof.
  intros Hwf Hi Hl. revert b Hwf. induction Hl as [|t l Ht Hl IH]; intros b Hwf.
  - exists (subs b). split_and!; [by destruct b|done|]. intros r j. simpl. rewrite elem_of_nil. tauto.
  - pose proof (unsubscribe_spec (subs b) (tri t) i Hwf Ht Hi) as H.
    destruct (unsubscribe (subs b) (tri t) i) as [ss1 ok] eqn:E1. destruct H as (Hwf1 & _ & Hw1).
    destruct (IH (set_subs ss1 b) Hwf1) as (ss & E & Hwf2 & Hw2). exists ss. split_and!; [|done|].
    + simpl. rewrite (bind_run _ _ _ (set_subs ss1 b) tt) by (unfold modify; by rewrite E1). done.
    + intros r j. rewrite Hw2. simpl. rewrite Hw1, elem_of_cons. naive_solver.
Qed.

Lemma rpc_idle_spec b now i c :
  broker_inv b → slot_at b i = Some (Live c) →
  let n := expired now (ttlsubs c) in
  ∃ b' t, rpc_idle now i b = inl (b', t) ∧ changed b i (set_ttlsubs (drop n (ttlsubs c)) c) b' ∧
    ∀ r j, wants (subs b') r j ↔ wants (subs b) r j ∧ ¬ (j = i ∧ r ∈ tri <$> take n (ttlsubs c)).
Proof.
  intros Hinv Hi n. pose proof Hinv as (Hc & Hs & _ & _ & Ht & Hl). pose proof (slot_range _ _ _ Hi) as [Hi0 _].
  destruct (unsubscribe_each (set_locked (negb (nolock b)) b) i (take n (ttlsubs c))) as (ss & E & Hwf & Hw);
    [apply Hs|done|by eapply Forall_take, ttl_wf|].
  destruct (Ht i c Hi) as [Hnd Hin]. rewrite <-(take_drop n (ttlsubs c)), fmap_app in Hnd.
  apply NoDup_app in Hnd as (_ & Hdis & Hnd).
  unfold rpc_idle. rewrite (bind_run _ _ _ _ _ (lock_run b Hl)). set (b0 := set_locked _ b) in *.
  rewrite (bind_run _ _ b0 b0 c) by (unfold client_at; change (slot_at b0 i) with (slot_at b i); by rewrite Hi).
  rewrite (live_cid b i c Hc Hi). fold n. rewrite (bind_run _ _ _ _ _ E).
  rewrite (bind_run _ _ _ _ _ (update_client_run (set_subs ss b0) i c _ Hi)).
  rewrite (bind_run _ _ _ _ _ (unlock_after b (put (set_subs ss b0) i _) eq_refl eq_refl)).
  eexists _, _. split_and!; [done| |done]. apply (inv_change b _ i c); try done.
  - intros r j Hwj. left. by apply Hw in Hwj as [? _].
  - intros r j Hne Hwj. apply Hw. split; [done|]. by intros [? _].
  - intros t Hd. apply Hw. split; [apply Hin; rewrite <-(take_drop n (ttlsubs c)); by apply elem_of_app; right|].
    intros [_ Hx]. apply (Hdis _ Hx). by apply list_elem_of_fmap_2.
Qed.

Lemma subscribe_ttl_run b i c now ri t (new : bool) :
  slot_at b i = Some (Live c) → wf_cstr ri → Forall (λ t, wf_cstr (tri t)) (ttlsubs c) →
  subs_wf (subs b) → wants (subs b) ri i → (new = false → ri ∈ tri <$> ttlsubs c) →
  ∃ l, subscribe_ttl now i ri t new b = inl (put b i (Live (set_ttlsubs l c)), tt) ∧
    tri <$> l ≡ₚ if new then ri :: (tri <$> ttlsubs c) else tri <$> ttlsubs c.
Proof.
  intros Hi Hr Hl Hwf Hw Hnew. unfold subscribe_ttl. rewrite (bind_run _ _ b b b eq_refl).
  rewrite (bind_run _ _ b b c) by (unfold client_at; by rewrite Hi). destruct new.
  - destruct (subscription_ri_spec (subs b) ri Hwf Hr) as [[-> _]|[_ Hno]]; [|by destruct (Hno i)].
    rewrite (bind_run _ _ b b _ eq_refl). rewrite (update_client_run b i c _ Hi). eexists. split; [done|].
    rewrite (qsort_permutation subttlcmp). unfold ARR_ADD. rewrite fmap_app. simpl. symmetry. apply Permutation_cons_append.
  - pose proof (find_ttl_spec ri (ttlsubs c) Hr Hl) as Hf. destruct (find_ttl ri (ttlsubs c)) as [n|].
    + rewrite (bind_run _ _ b b _ eq_refl). rewrite (update_client_run b i c _ Hi). eexists. split; [done|].
      rewrite (qsort_permutation subttlcmp). destruct Hf as (x & Hx & _). apply reflexive_eq. apply list_eq. intros m.
      rewrite !list_lookup_fmap. destruct (decide (m = n)) as [->|Hne].
      * rewrite list_lookup_alter_eq, Hx. done.
      * by rewrite list_lookup_alter_ne.
    + specialize (Hnew eq_refl). apply list_elem_of_fmap in Hnew as (x & -> & Hx). by destruct (Hf x Hx).
Qed.

Lemma changed_refl b i c : broker_inv b → slot_at b i = Some (Live c) → changed b i c b.
Proof. done. Qed.

Lemma changed_trans b i c' b1 c'' b2 : changed b i c' b1 → changed b1 i c'' b2 → changed b i c'' b2.
Proof. intros (_ & _ & H1) (? & ? & H2). split_and!; [done..|]. intros j Hj. by rewrite H2, H1. Qed.

(** A client with the same role, subscriptions and entries. *)
Lemma update_changed b i c f :
  broker_inv b → slot_at b i = Some (Live c) → cid (f c) = cid c → role (f c) = role c → ttlsubs (f c) = ttlsubs c →
  update_client i f b = inl (put b i (Live (f c)), tt) ∧ changed b i (f c) (put b i (Live (f c))).
Proof.
  intros Hinv Hi Ec Er Et. pose proof Hinv as (_ & Hs & _ & _ & Ht & Hl). destruct (Ht i c Hi) as [Hnd Hin].
  split; [by apply update_client_run|]. apply (inv_change b _ i c); try done; rewrite ?Et; try done; [apply Hs|by left].
Qed.

Lemma mounted_but_none b i c : mounted b → slot_at b i = Some (Live c) → role c = None → mounted_but i b.
Proof.
  intros Hm Hi Er m. rewrite (Hm m). split; [|by intros [_ ?]]. intros Hh. split; [|done]. intros E.
  destruct Hh as (d & r & Hd & Hr & _). rewrite E, Hi in Hd. by simplify_eq.
Qed.

(** The clients after a role was assigned. *)
Lemma assigned_changed b i c r b1 res :
  broker_inv b → slot_at b i = Some (Live c) → assigned (set_locked (negb (nolock b)) b) i c r b1 res →
  broker_unlock b1 = inl (set_locked false b1, tt) ∧ changed b i (set_role (settled res r) c) (set_locked false b1).
Proof.
  intros (Hc & _ & _ & _ & Ht & _) Hi ((_ & Enl & Elk & Elu) & Ecl & Hs & Hm & Hmt & Hmono & _).
  pose proof (slot_range _ _ _ Hi) as [Hi0 _]. split; [by apply (unlock_after b)|].
  destruct (changed_slots b (set_locked false b1) i c (set_role (settled res r) c) Hi Ecl) as [Hi' Hj].
  split; [|done]. apply unlocked_inv; try done.
  - unfold clients_ok. rewrite Ecl, Elu. apply (clients_ok_put b); [done..|]. intros d [= <-]. exact (live_cid b i c Hc Hi).
  - intros j d Hd. change (slot_at (set_locked false b1) j = Some (Live d)) in Hd. destruct (decide (j = i)) as [->|Hne].
    + rewrite Hi' in Hd. injection Hd as <-. destruct (Ht i c Hi) as [Hnd Hin]. split; [done|].
      intros t Hx. by apply Hmono, Hin.
    + rewrite Hj in Hd by done. destruct (Ht j d Hd) as [Hnd Hin]. split; [done|]. intros t Hx. by apply Hmono, Hin.
Qed.
End changes.

(** ** Answers *)

Section answers.
Context {P U : Type} (pack : P → cpitem → P * bool) (fresh : P).
Implicit Types ctx : rpchandler_msg U.
Implicit Types b : rpcbroker P.

Lemma respond_emits i ctx body b `{!OnlyPacks pack body} :
  answerable ctx →
  ∃ p, respond pack fresh (sendto i) ctx body b = inl (emits [Sent i p] b, true) ∧ answer pack fresh (hmeta ctx) p.
Proof.
  intros Ha. unfold respond. rewrite new_response_some by done. eexists. rewrite (bind_run _ _ b b _ eq_refl).
  unfold rpchandler_msg_send_response, rpchandler_msg_send. rewrite (proj2 Ha). split; [done|].
  by apply answer_value, started_next, started_new.
Qed.

Lemma send_packed_emits i ctx c b :
  answerable ctx → send_packed fresh (sendto i) ctx c b = inl (emits [Sent i (c fresh).1] b, true).
Proof. intros [Hu Ha]. unfold send_packed, rpchandler_msg_new, rpchandler_msg_send. by rewrite Hu, Ha. Qed.

(** ** Logout *)

Lemma access_reset_spec b i c :
  broker_inv b → slot_at b i = Some (Live c) → fits b 0 →
  ∃ b' c', access_reset pack fresh i b = inl (b', tt) ∧ changed b i c' b' ∧
    (login c = false → c' = c) ∧ (login c = true → role c' = None ∧ nonce c' = [] ∧ username c' = None).
Proof.
  intros Hinv Hi Hf. pose proof Hinv as (Hc & Hs & Hm & Hmt & Ht & Hl). pose proof (slot_range _ _ _ Hi) as [Hi0 _].
  unfold access_reset. rewrite (bind_run _ _ _ _ _ (lock_run b Hl)). set (b0 := set_locked _ b).
  rewrite (bind_run _ _ b0 b0 c) by (unfold client_at; change (slot_at b0 i) with (slot_at b i); by rewrite Hi).
  destruct (login c) eqn:Elog.
  2:{ rewrite (bind_run _ _ b0 b0 tt eq_refl), (unlock_after b) by done. eexists _, c. split_and!; [done| |done|done].
      split; [by apply unlocked_inv|done]. }
  destruct (role_unassign_spec pack fresh b0 c Hc (proj1 Hs) Hm Hf) as (ms & evs & E & Hms & Hin).
  { intros p. by apply (mounted_wf b i c p). }
  set (b1 := set_mounts ms (emits evs b0)) in *. set (c' := set_user None (set_nonce [] (set_role None c))).
  assert ((c ← role_unassign pack fresh c; update_client i (λ _, set_user None (set_nonce [] c))) b0 =
    inl (put b1 i (Live c'), tt)) as E1 by (rewrite (bind_run _ _ _ _ _ E); by apply (update_client_run b1 i c)).
  rewrite (bind_run _ _ _ _ _ E1), (unlock_after b) by done. eexists _, c'. split_and!; [done| |done|done].
  destruct (changed_slots b (set_locked false (put b1 i (Live c'))) i c c' Hi eq_refl) as [Hi' Hj].
  split; [|done]. apply unlocked_inv; [|by apply (subs_ok_put b i c)|done| |].
  - apply (clients_ok_put b); [done..|]. intros d [= <-]. exact (live_cid b i c Hc Hi).
  - intros m. change (m ∈ ms ↔ has_mount (set_locked false (put b1 i (Live c'))) (mcid m) (mpath m)). rewrite Hin. unfold has_mount.
    destruct (decide (mcid m = i)) as [Em|Hne].
    + rewrite Em, Hi'. split; [|intros (d & r & [= <-] & ? & _); done]. intros [Hmm Hp]. exfalso. apply Hp. by apply (mounted_points b i).
    + rewrite (Hj _ Hne). change (m ∈ mounts b ∧ ¬ points_at c (mpath m) ↔ has_mount b (mcid m) (mpath m)).
      rewrite <-(Hmt m). split; [tauto|]. intros Hmm. split; [done|]. by rewrite (mounted_points b i).
  - intros j d Hd. change (slot_at (set_locked false (put b1 i (Live c'))) j = Some (Live d)) in Hd.
    destruct (decide (j = i)) as [->|Hne]; [rewrite Hi' in Hd; injection Hd as <-; by apply (Ht i c)|].
    rewrite Hj in Hd by done. by apply (Ht j d).
Qed.

(** ** Subscriptions of clients *)

Lemma api_subscribe_spec b now i c ctx ri t :
  broker_inv b → slot_at b i = Some (Live c) → answerable ctx → safe_ri ri → Z.of_nat (length (subs b)) < 2 ^ 62 →
  (0 < t → ¬ wants (subs b) ri i ∨ ri ∈ tri <$> ttlsubs c) →
  ∃ b' l, api_subscribe pack fresh now i ctx (ri, t) b = inl (b', tt) ∧ changed b i (set_ttlsubs l c) b' ∧
    (∀ r j, wants (subs b') r j ↔ wants (subs b) r j ∨ r = ri ∧ j = i) ∧
    (0 < t → ri ∈ tri <$> l).
Proof.
  intros Hinv Hi Ha Hr Hlen Hbug. pose proof Hinv as (Hc & Hs & _ & _ & Ht & Hl).
  pose proof (slot_range _ _ _ Hi) as [Hi0 _]. destruct (Ht i c Hi) as [Hnd Hin].
  unfold api_subscribe. rewrite (bind_run _ _ _ _ _ (lock_run b Hl)). set (b0 := set_locked _ b).
  rewrite (bind_run _ _ b0 b0 b0 eq_refl). change (subs b0) with (subs b).
  pose proof (subscribe_spec (subs b) ri i (proj1 (proj1 Hs)) (proj1 Hr) Hi0 Hlen) as H.
  destruct (subscribe (subs b) ri i) as [ss ok]. destruct H as (Hwf & Hok & Hw).
  rewrite (bind_run _ _ b0 (set_subs ss b0) tt eq_refl).
  assert (∃ l, (if t >? 0 then subscribe_ttl now i ri t ok else mret tt) (set_subs ss b0) =
      inl (put (set_subs ss b0) i (Live (set_ttlsubs l c)), tt) ∧
    ((0 < t ∧ tri <$> l ≡ₚ if ok then ri :: (tri <$> ttlsubs c) else tri <$> ttlsubs c) ∨
     ¬ 0 < t ∧ l = ttlsubs c)) as (l & E & Hl').
  { destruct (Z.gtb_spec t 0) as [Hgt|Hle].
    - destruct (subscribe_ttl_run (set_subs ss b0) i c now ri t ok) as (l & E & Hp); try done.
      + apply Hr.
      + by apply (ttl_wf b i).
      + apply Hw. by right.
      + intros ->. destruct Hbug as [?%Hok|?]; [lia|done|done].
      + exists l. split; [done|]. left. split; [lia|done].
    - exists (ttlsubs c). split; [|right; split; [lia|done]]. rewrite put_same; [done|]. by destruct c. }
  rewrite (bind_run _ _ _ _ _ E).
  rewrite (bind_run _ _ _ _ _ (unlock_after b (put (set_subs ss b0) i _) eq_refl eq_refl)).
  destruct (respond_emits i ctx (cp_pack_bool pack ok) (set_locked false (put (set_subs ss b0) i (Live (set_ttlsubs l c)))) Ha)
    as (p & Ep & _). rewrite (bind_run _ _ _ _ _ Ep). eexists _, l. split_and!; [done| |done|].
  - apply (inv_change b _ i c); try done; [intros r j [?|[-> ->]]%Hw; [by left|by right]|intros r j _ ?; apply Hw; by left| |].
    + destruct Hl' as [[_ Hp]|[_ ->]]; [|done]. simpl. rewrite Hp. destruct ok; [|done]. constructor; [|done].
      intros (x & -> & Hx)%list_elem_of_fmap. apply Hok; [done|]. by apply Hin.
    + intros x Hx. apply Hw. destruct Hl' as [[_ Hp]|[_ ->]]; [|left; by apply Hin]. simpl in Hx.
      apply (list_elem_of_fmap_2 tri) in Hx. rewrite Hp in Hx. assert (tri x = ri ∨ tri x ∈ tri <$> ttlsubs c) as [->|Hy].
      { destruct ok; [by apply elem_of_cons in Hx|by right]. }
      * by right.
      * left. apply list_elem_of_fmap in Hy as (y & -> & Hy). by apply Hin.
  - intros Hgt. destruct Hl' as [[_ Hp]|[? _]]; [|done]. rewrite Hp. destruct ok eqn:Eok; [by left|].
    destruct (Hbug Hgt) as [?%Hok|?]; done.
Qed.

Lemma api_unsubscribe_spec b i c ctx ri :
  broker_inv b → slot_at b i = Some (Live c) → answerable ctx → wf_cstr ri →
  ∃ b' l, api_unsubscribe pack fresh i ctx ri b = inl (b', tt) ∧ changed b i (set_ttlsubs l c) b' ∧
    (∀ r j, wants (subs b') r j ↔ wants (subs b) r j ∧ ¬ (r = ri ∧ j = i)) ∧
    ∀ t, t ∈ l ↔ t ∈ ttlsubs c ∧ tri t ≠ ri.
Proof.
  intros Hinv Hi Ha Hr. pose proof Hinv as (Hc & Hs & _ & _ & Ht & Hl).
  pose proof (slot_range _ _ _ Hi) as [Hi0 _]. destruct (Ht i c Hi) as [Hnd Hin].
  unfold api_unsubscribe. rewrite (bind_run _ _ _ _ _ (lock_run b Hl)). set (b0 := set_locked _ b).
  rewrite (bind_run _ _ b0 b0 c) by (unfold client_at; change (slot_at b0 i) with (slot_at b i); by rewrite Hi).
  assert (∃ l, (match find_ttl ri (ttlsubs c) with
      | Some n => update_client i (set_ttlsubs (ARR_DEL (ttlsubs c) n)) | None => mret tt end) b0 =
      inl (put b0 i (Live (set_ttlsubs l c)), tt) ∧ NoDup (tri <$> l) ∧ ∀ t, t ∈ l ↔ t ∈ ttlsubs c ∧ tri t ≠ ri)
    as (l & E & Hnd' & Hin').
  { pose proof (find_ttl_spec ri (ttlsubs c) Hr (ttl_wf b i c Hinv Hi)) as Hf.
    destruct (find_ttl ri (ttlsubs c)) as [n|].
    - eexists. split; [by apply update_client_run|]. unfold ARR_DEL. destruct Hf as (x & Hx & Ex).
      apply (ttl_delete (ttlsubs c) n x) in Hnd as [? Hd]; [|done]. split; [done|]. by rewrite <-Ex.
    - exists (ttlsubs c). split_and!; [|done|naive_solver]. rewrite put_same; [done|]. by destruct c. }
  rewrite (bind_run _ _ _ _ _ E). set (b1 := put b0 i _). rewrite (bind_run _ _ b1 b1 b1 eq_refl).
  change (subs b1) with (subs b). pose proof (unsubscribe_spec (subs b) ri i (proj1 (proj1 Hs)) Hr Hi0) as H.
  destruct (unsubscribe (subs b) ri i) as [ss ok]. destruct H as (Hwf & Hok & Hw).
  rewrite (bind_run _ _ b1 (set_subs ss b1) tt eq_refl).
  rewrite (bind_run _ _ _ _ _ (unlock_after b (set_subs ss b1) eq_refl eq_refl)).
  destruct (respond_emits i ctx (cp_pack_bool pack ok >>> cp_pack_container_end pack)
    (set_locked false (set_subs ss b1)) Ha) as (p & Ep & _). rewrite (bind_run _ _ _ _ _ Ep).
  eexists _, l. split_and!; [done| |done|done]. apply (inv_change b _ i c); try done.
  - intros r j Hwj. left. by apply Hw in Hwj as [? _].
  - intros r j Hne Hwj. apply Hw. split; [done|]. by intros [_ ?].
  - intros t [Hx Hne]%Hin'. apply Hw. split; [by apply Hin|]. by intros [? _].
Qed.

(** ** Login *)

Context (unpack : U → cpitem → U * cpitem) (ck : chunks) (alloc : Z → bool).
Context (random : list Z) (login_ : rpclogin → cstr → rpcbroker_login_res).

(** What comes of a request of the client [c] that did not log in.  A valid one is
    answered.  Either the login was accepted, or nothing changed for anybody else. *)
Definition login_outcome b i c ctx b' : Prop :=
  ∃ c' evs ans, changed b i c' b' ∧ events b' = events b ++ evs ++ ans ∧
    (if hvalid ctx then ∃ p, ans = [Sent i p] ∧ answer pack fresh (hmeta ctx) p else ans = []) ∧
    ((role c' = None ∧ mounts b' = mounts b ∧ subs b' = subs b ∧ Forall (eq (Released i)) evs) ∨
     ∃ l r, login_ l (nonce c) = LoginOk r ∧ role c' = Some r).

(** The client itself may have changed before the answer. *)
Lemma outcome_answered b i c c' ctx b1 p :
  role c' = None → hvalid ctx = true → changed b i c' b1 → mounts b1 = mounts b → subs b1 = subs b →
  events b1 = events b → answer pack fresh (hmeta ctx) p → login_outcome b i c ctx (emits [Sent i p] b1).
Proof.
  intros Er Hv Hc Em Es Ee Ha. exists c', [], [Sent i p]. split_and!; [done| | |by left].
  - simpl. by rewrite Ee.
  - rewrite Hv. by exists p.
Qed.

Lemma outcome_invalid b i c ctx :
  broker_inv b → slot_at b i = Some (Live c) → role c = None → hvalid ctx = false → login_outcome b i c ctx b.
Proof.
  intros Hinv Hi Er Hv. exists c, [], []. rewrite Hv. simpl. rewrite app_nil_r. split_and!; [by apply changed_refl|done..|].
  by left.
Qed.

Lemma validated_answerable ctx ctx' :
  is_type (hmeta ctx) RPCMSG_T_REQUEST = true → hmeta ctx' = hmeta ctx → answerable (rpchandler_msg_valid ctx').1.
Proof. intros Hr E. split; [done|]. unfold answers. simpl. by rewrite E, Hr. Qed.

Lemma login_required_spec b i c ctx :
  broker_inv b → slot_at b i = Some (Live c) → role c = None → is_type (hmeta ctx) RPCMSG_T_REQUEST = true →
  ∃ b' ctx', login_required pack fresh i ctx b = inl (b', ctx') ∧ login_outcome b i c ctx b'.
Proof.
  intros Hinv Hi Er Hr. pose proof (validated_answerable ctx ctx Hr eq_refl) as Hv'. unfold login_required, rpchandler_msg_valid in *.
  destruct (hvalid ctx) eqn:Hv; simpl in *.
  2:{ eexists _, _. split; [done|by apply outcome_invalid]. }
  rewrite (bind_run _ _ b b c) by (unfold client_at; by rewrite Hi).
  unfold rpchandler_msg_send_error. rewrite (bind_run _ _ _ _ _ (send_packed_emits i _ _ b Hv')).
  eexists _, _. split; [done|]. apply (outcome_answered b i c c ctx b); try done. constructor.
Qed.

Lemma and_then_fst (f g : P → P * bool) p : ((f >>> g) p).1 = (g (f p).1).1.
Proof. unfold and_then. by destruct (f p). Qed.

Lemma login_hello_spec b i c ctx :
  broker_inv b → slot_at b i = Some (Live c) → role c = None → is_type (hmeta ctx) RPCMSG_T_REQUEST = true →
  ∃ b' ctx', login_hello pack fresh random i ctx b = inl (b', ctx') ∧ login_outcome b i c ctx b'.
Proof.
  intros Hinv Hi Er Hr. pose proof (validated_answerable ctx ctx Hr eq_refl) as [_ Ha]. unfold login_hello, rpchandler_msg_valid in *.
  destruct (hvalid ctx) eqn:Hv; simpl in *.
  2:{ eexists _, _. split; [done|by apply outcome_invalid]. }
  rewrite (bind_run _ _ b b c) by (unfold client_at; by rewrite Hi).
  set (c' := if cget (nonce c) 0 =? 0 then set_nonce (generate_nonce random) c else c).
  assert (role c' = None) as Er' by (unfold c'; by destruct (_ =? 0)).
  assert ((if cget (nonce c) 0 =? 0 then update_client i (set_nonce (generate_nonce random)) else mret tt) b =
    inl (put b i (Live c'), tt) ∧ changed b i c' (put b i (Live c'))) as [E Hch].
  { unfold c'. destruct (_ =? 0); [by apply update_changed|]. rewrite put_same by done. split; [done|by apply changed_refl]. }
  rewrite (bind_run _ _ _ _ _ E). pose proof Hch as (_ & Hi' & _).
  rewrite (bind_run _ _ _ (put b i (Live c')) c') by (unfold client_at; by rewrite Hi').
  unfold rpchandler_msg_new, rpchandler_msg_send. simpl. rewrite Ha. rewrite (bind_run _ _ _ _ _ eq_refl).
  eexists _, _. split; [done|]. apply (outcome_answered b i c c' ctx); [done..|].
  rewrite !and_then_fst. apply answer_value. do 4 (apply started_next; [apply _|]). apply started_new.
Qed.

Lemma login_fails_spec b i c c' ctx ctx' b1 text :
  role c' = None → hvalid ctx = true → hmeta ctx' = hmeta ctx → answerable ctx' → changed b i c' b1 →
  mounts b1 = mounts b → subs b1 = subs b → (∃ evs, events b1 = events b ++ evs ∧ Forall (eq (Released i)) evs) →
  ∃ b', login_fails pack fresh i ctx' text b1 = inl (b', ctx') ∧ login_outcome b i c ctx b'.
Proof.
  intros Er Hv E Ha Hc Em Es (evs & Ee & Hf). unfold login_fails, rpchandler_msg_send_error.
  rewrite (bind_run _ _ _ _ _ (send_packed_emits i _ _ b1 Ha)). eexists. split; [done|].
  exists c', evs, [Sent i (rpcmsg_pack_error pack (hmeta ctx') RPCERR_METHOD_CALL_EXCEPTION (Some text) fresh).1].
  rewrite Hv, E. split_and!; [done| |by eexists; split; [|constructor]|by left]. simpl. by rewrite Ee, <-app_assoc, ?E.
Qed.

(** The answer to a login that was accepted, with the fields of the client filled in. *)
Lemma login_welcome b i c c1 ctx ctx' b1 l r :
  hvalid ctx = true → hmeta ctx' = hmeta ctx → answerable ctx' → changed b i c1 b1 → role c1 = Some r →
  login_ l (nonce c) = LoginOk r → (∃ evs, events b1 = events b ++ evs) →
  ∃ b', (match RpcLogin.username l with Some u => update_client i (set_user (Some u)) | None => mret tt end;;
      update_client i (set_timeout (if idle_timeout l =? 0 then SHV_IDLE_TIMEOUT_DEFAULT else idle_timeout l));;
      rpchandler_msg_send_response_void pack fresh (sendto i) ctx';; mret ctx') b1 = inl (b', ctx') ∧
    login_outcome b i c ctx b'.
Proof.
  intros Hv E Ha Hc Er El (evs & Ee). pose proof Hc as (Hinv1 & Hi1 & _).
  set (c2 := match RpcLogin.username l with Some u => set_user (Some u) c1 | None => c1 end).
  assert ((match RpcLogin.username l with Some u => update_client i (set_user (Some u)) | None => mret tt end) b1 =
    inl (put b1 i (Live c2), tt) ∧ changed b1 i c2 (put b1 i (Live c2))) as [E2 Hc2].
  { unfold c2. destruct (RpcLogin.username l); [by apply update_changed|]. rewrite put_same by done. by split. }
  rewrite (bind_run _ _ _ _ _ E2). pose proof Hc2 as (Hinv2 & Hi2 & _).
  destruct (update_changed (put b1 i (Live c2)) i c2
    (set_timeout (if idle_timeout l =? 0 then SHV_IDLE_TIMEOUT_DEFAULT else idle_timeout l))) as [E3 Hc3]; [done..|].
  rewrite (bind_run _ _ _ _ _ E3). unfold rpchandler_msg_send_response_void.
  rewrite (bind_run _ _ _ _ _ (send_packed_emits i _ _ _ Ha)). eexists. split; [done|].
  eexists _, evs, _. split_and!; [exact (changed_trans _ _ _ _ _ _ Hc (changed_trans _ _ _ _ _ _ Hc2 Hc3))| | |].
  - simpl. rewrite Ee, <-app_assoc. done.
  - rewrite Hv, E. eexists. split; [done|constructor].
  - right. exists l, r. split; [done|]. unfold c2. simpl. by destruct (RpcLogin.username l).
Qed.

Lemma role_assign_login b i c r :
  broker_inv b → slot_at b i = Some (Live c) → role c = None → role_ok r → fits b (length (subscriptions r)) →
  ∃ b1 res, role_assign pack fresh i r (set_locked (negb (nolock b)) b) = inl (b1, res) ∧
    assigned (set_locked (negb (nolock b)) b) i c r b1 res.
Proof.
  intros (Hc & Hs & Hm & Hmt & _) Hi Er Hr Hf.
  destruct (role_assign_spec pack fresh (set_locked (negb (nolock b)) b) i c r) as (b1 & res & E & Ha & _); try done.
  - by apply (mounted_but_none b i c).
  - by exists b1, res.
Qed.
Lemma login_accept_spec b i c ctx ctx' l r :
  broker_inv b → slot_at b i = Some (Live c) → role c = None → hvalid ctx = true → hmeta ctx' = hmeta ctx →
  answerable ctx' → login_ l (nonce c) = LoginOk r → role_ok r → fits b (length (subscriptions r)) →
  ∃ b', login_accept pack fresh i ctx' l r b = inl (b', ctx') ∧ login_outcome b i c ctx b'.
Proof.
  intros Hinv Hi Er Hv E Ha El Hr Hf. pose proof Hinv as (_ & _ & _ & _ & _ & Hl).
  destruct (role_assign_login b i c r Hinv Hi Er Hr Hf) as (b1 & res & Eb & Has).
  destruct (assigned_changed b i c r b1 res Hinv Hi Has) as [Eu Hch]. destruct Has as (_ & _ & _ & _ & _ & _ & [evs Ee] & Href).
  unfold login_accept. rewrite (bind_run _ _ _ _ _ (lock_run b Hl)), (bind_run _ _ _ _ _ Eb), (bind_run _ _ _ _ _ Eu).
  destruct (decide (res = ROLE_RES_OK)) as [->|Hres].
  - apply (login_welcome b i c (set_role (Some r) c) ctx ctx' _ l r); try done. by exists evs.
  - specialize (Href Hres).
    assert (∀ text, ∃ b', login_fails pack fresh i ctx' text (set_locked false b1) = inl (b', ctx') ∧
      login_outcome b i c ctx b') as Hfail.
    { intros text. apply (login_fails_spec b i c (set_role None c)); try done.
      - by destruct res.
      - by rewrite Href.
      - by rewrite Href.
      - exists (if rfree r then [Released i] else []). rewrite Href. split; [done|]. by destruct (rfree r); repeat constructor. }
    destruct res; [done|apply Hfail..].
Qed.

Lemma login_login_spec b i c ctx :
  broker_inv b → slot_at b i = Some (Live c) → role c = None → is_type (hmeta ctx) RPCMSG_T_REQUEST = true →
  is_Some (hunpack ctx) → (∀ l n r, login_ l n = LoginOk r → role_ok r ∧ fits b (length (subscriptions r))) →
  ∃ b' ctx', login_login unpack ck alloc pack fresh login_ i ctx b = inl (b', ctx') ∧ login_outcome b i c ctx b'.
Proof.
  intros Hinv Hi Er Hr [u Hu] Hlog. unfold login_login. rewrite Hu, (bind_run _ _ b b u eq_refl).
  destruct (rpclogin_unpack unpack ck alloc u (hitem ctx) (hobs ctx)) as [[u' it] [l o]].
  set (ctx1 := set_hobs o (set_read u' it ctx)). pose proof (validated_answerable ctx ctx1 Hr eq_refl) as Ha.
  unfold rpchandler_msg_valid in *. change (hvalid ctx1) with (hvalid ctx) in *.
  destruct (hvalid ctx) eqn:Hv; cbn [negb fst] in *; [|eexists _, _; split; [done|by apply outcome_invalid]].
  set (ctx2 := Msg _ _ _ _ _) in *. destruct l as [l|].
  - rewrite (bind_run _ _ b b c) by (unfold client_at; by rewrite Hi). destruct (login_ l (nonce c)) as [r|errmsg] eqn:El.
    + destruct (login_accept_spec b i c ctx ctx2 l r) as (b' & E & Ho); try done; [by apply (Hlog l (nonce c))..|].
      by exists b', ctx2.
    + destruct (login_fails_spec b i c c ctx ctx2 b (default (str "Invalid login") errmsg)) as (b' & E & Ho); try done.
      * exists []. by rewrite app_nil_r.
      * by exists b', ctx2.
  - unfold rpchandler_msg_send_error. rewrite (bind_run _ _ _ _ _ (send_packed_emits i _ _ b Ha)).
    eexists _, _. split; [done|]. apply (outcome_answered b i c c ctx b); try done. constructor.
Qed.

(** The first stage of a client that did not log in. *)
Lemma access_login_spec b now i c ctx :
  broker_inv b → slot_at b i = Some (Live c) → role c = None →
  (is_type (hmeta ctx) RPCMSG_T_REQUEST = true → is_Some (method (hmeta ctx)) ∧ is_Some (hunpack ctx)) →
  (∀ l n r, login_ l n = LoginOk r → role_ok r ∧ fits b (length (subscriptions r))) →
  ∃ b' ctx', access_msg unpack ck alloc pack fresh random login_ now i ctx b = inl (b', (ctx', RPCHANDLER_MSG_DONE)) ∧
    if is_type (hmeta ctx) RPCMSG_T_REQUEST then login_outcome (put b i (Live (set_activity now c))) i (set_activity now c) ctx b'
    else b' = put b i (Live (set_activity now c)).
Proof.
  intros Hinv Hi Er Hreq Hlog. unfold access_msg.
  destruct (update_changed b i c (set_activity now)) as [E (Hinv1 & Hi1 & _)]; [done..|]. rewrite (bind_run _ _ _ _ _ E).
  set (b1 := put _ _ _) in *. rewrite (bind_run _ _ b1 b1 (set_activity now c)) by (unfold client_at; by rewrite Hi1).
  change (role (set_activity now c)) with (role c). rewrite Er. destruct (is_type (hmeta ctx) RPCMSG_T_REQUEST) eqn:Hr.
  2:{ eexists _, _. split; done. }
  destruct (Hreq eq_refl) as [[m Hm] Hu].
  assert (∃ b' ctx', rpcbroker_api_login_msg unpack ck alloc pack fresh random login_ i ctx b1 = inl (b', ctx') ∧
    login_outcome b1 i (set_activity now c) ctx b') as (b' & ctx' & E1 & Ho).
  { unfold rpcbroker_api_login_msg. destruct (default [] (path (hmeta ctx))); [|by apply login_required_spec].
    rewrite Hm, (bind_run _ _ b1 b1 m eq_refl). destruct (_ =? 0); [by apply login_hello_spec|].
    destruct (_ =? 0); [by apply login_login_spec|by apply login_required_spec]. }
  rewrite (bind_run _ _ _ _ _ E1). by exists b', ctx'.
Qed.
End answers.
