(* ===== verification/BrokerMessages.v ===== *)
(** * Messages keep the broker consistent

    Whatever message a client sends to the stage of the broker, the stage ends without
    a fault and keeps the invariant: methods of the broker itself with their
    parameters, requests for other clients, responses, and signals where the broker
    has no locks.  The messages this does not hold for are left out by the conditions
    in [message_ok]. *)

From stdpp Require Import sorting gmap.
From S2P Require Import Prelude Effects Stdio CpItem CpUnpack CpPack CpTools CpObstack CpLoops Arr Nbool Rpcri Rpcaccess.
From S2P Require Import RpcError RpcDir RpcMsg RpcHead RpcLogin Strset Subscription Mount Broker BrokerSpec.
From S2P Require Import Handler HandlerSpec BrokerApi BrokerStage BrokerStageSpec.

#[local] Opaque unsubscribe_all unsubscribe subscribe add_mount del_mount search_mounts.

Section messages.
Context {P U : Type} (unpack : U → cpitem → U * cpitem) (ck : chunks).
Context (pack : P → cpitem → P * bool) (fresh : P).
Context (gperf_broker : cstr → option api_broker_methods).
Context (gperf_current_client : cstr → option current_client_methods).
Implicit Types b : rpcbroker P.
Implicit Types ctx : rpchandler_msg U.

(** ** The messages *)

(** The number of a client in a path is an [int]. *)
Definition small_number (p : cstr) : Prop :=
  ¬ outside p → srange 32 (strtol (drop (length clientmnt) p)).1.

(** A time is only given to a subscription that is new or has one. *)
Definition subscribable b (i : Z) (c : clientctx) (ri : cstr) (t : Z) : Prop :=
  safe_ri ri ∧ (0 < t → ¬ wants (subs b) ri i ∨ ri ∈ tri <$> ttlsubs c).

(** The parameters the methods of the broker read. *)
Definition param_ok b (i : Z) (c : clientctx) ctx (p name : cstr) : Prop :=
  (p = str ".broker" → gperf_broker name = Some M_MOUNTED_CLIENT_INFO → ∀ ctx' x,
    reading_str unpack ck ctx b = inl (b, (ctx', Some x)) → wf_cstr x ∧ small_number x) ∧
  (p = str ".broker/currentClient" → gperf_current_client name = Some M_UNSUBSCRIBE → ∀ ctx' x,
    reading_str unpack ck ctx b = inl (b, (ctx', Some x)) → wf_cstr x) ∧
  (p = str ".broker/currentClient" → gperf_current_client name = Some M_SUBSCRIBE → ∀ ctx' ri t,
    subscribe_param unpack ck ctx b = inl (b, (ctx', Some (ri, t))) → subscribable b i c ri t).

Definition opt_wf (s : option cstr) : Prop := wf_cstr (default [] s).

(** The messages that are safe: those received have a path and a method where their
    type asks for it, as the head is not accepted otherwise. *)
Definition message_ok b (i : Z) (c : clientctx) ctx : Prop :=
  is_Some (hunpack ctx) ∧
  match mtype (hmeta ctx) with
  | RPCMSG_T_REQUEST | RPCMSG_T_REQUEST_ABORT =>
      ∃ p name, path (hmeta ctx) = Some p ∧ method (hmeta ctx) = Some name ∧
        wf_cstr p ∧ small_number p ∧ param_ok b i c ctx p name
  | RPCMSG_T_RESPONSE | RPCMSG_T_ERROR | RPCMSG_T_RESPONSE_DELAY =>
      ∀ j, last (cids (hmeta ctx)) = Some j → srange 32 j
  | RPCMSG_T_SIGNAL =>
      nolock b = true ∧ is_Some (source (hmeta ctx)) ∧ opt_wf (source (hmeta ctx)) ∧
      opt_wf (path (hmeta ctx)) ∧ opt_wf (method (hmeta ctx))
  | RPCMSG_T_INVALID => True
  end.

(** ** Operations that only send *)

Definition only_sends {A} b (c : M (rpcbroker P) A) : Prop := ∃ l x, c b = inl (emits l b, x).

Definition keeps {A} b (c : M (rpcbroker P) A) : Prop := ∃ b' x, c b = inl (b', x) ∧ broker_inv b'.

(** What is passed over is as it was. *)
Definition handles b ctx (c : M (rpcbroker P) (rpchandler_msg U * bool)) : Prop :=
  ∃ b' ctx' h, c b = inl (b', (ctx', h)) ∧ broker_inv b' ∧ (h = false → b' = b ∧ ctx' = ctx).

Lemma only_sends_ret {A} b (x : A) : only_sends b (mret x).
Proof. exists [], x. by rewrite emits_nil. Qed.

Lemma only_sends_bind {A B} b (c : M (rpcbroker P) A) (k : A → M (rpcbroker P) B) :
  only_sends b c → (∀ l x, only_sends (emits l b) (k x)) → only_sends b (c ≫= k).
Proof.
  intros (l & x & E) Hk. destruct (Hk l x) as (l' & y & E'). exists (l ++ l'), y.
  rewrite (bind_run _ _ _ _ _ E), E'. by rewrite emits_app.
Qed.

Lemma only_sends_seq {A B} b (c : M (rpcbroker P) A) (y : B) : only_sends b c → only_sends b (c;; mret y).
Proof. intros H. apply (only_sends_bind b c (λ _, mret y)); [done|]. intros l x. apply only_sends_ret. Qed.

Lemma only_sends_keeps {A} b (c : M (rpcbroker P) A) : broker_inv b → only_sends b c → keeps b c.
Proof. intros Hinv (l & x & E). exists (emits l b), x. by split. Qed.

Lemma respond_sends b i ctx body : answerable ctx → only_sends b (respond pack fresh (sendto i) ctx body).
Proof.
  intros Ha. unfold respond. rewrite new_response_some by done. eexists _, _. rewrite (bind_run _ _ b b _ eq_refl).
  unfold rpchandler_msg_send_response, rpchandler_msg_send. by rewrite (proj2 Ha).
Qed.

Lemma send_packed_sends b i ctx c : answerable ctx → only_sends b (send_packed fresh (sendto i) ctx c).
Proof. intros Ha. eexists _, _. by apply send_packed_emits. Qed.

Lemma relocked l b : locked b = false → set_locked false (emits l (set_locked (negb (nolock b)) b)) = emits l b.
Proof. intros E. destruct b. by simplify_eq/=. Qed.

Lemma locked_do_sends b k :
  locked b = false → only_sends (set_locked (negb (nolock b)) b) k → only_sends b (locked_do k).
Proof.
  intros Hl (l & x & E). exists l, tt. unfold locked_do. rewrite (bind_run _ _ _ _ _ (lock_run b Hl)).
  rewrite (bind_run _ _ _ _ _ E), (unlock_after b) by done. by rewrite relocked.
Qed.

Lemma respond_locked_sends b i ctx f :
  locked b = false → answerable ctx → only_sends b (respond_locked pack fresh i ctx f).
Proof.
  intros Hl Ha. unfold respond_locked, only_sends. rewrite (bind_run _ _ _ _ _ (lock_run b Hl)). set (b0 := set_locked _ b).
  rewrite (bind_run _ _ b0 b0 b0 eq_refl), (bind_run _ _ _ _ _ (unlock_after b b0 eq_refl eq_refl)).
  replace (set_locked false b0) with b by (unfold b0; destruct b; by simplify_eq/=).
  by apply only_sends_seq, respond_sends.
Qed.

Lemma client_sends {A} b i c (k : clientctx → M (rpcbroker P) A) :
  slot_at b i = Some (Live c) → only_sends b (k c) → only_sends b (client_at i ≫= k).
Proof.
  intros Hi Hk. unfold only_sends. rewrite (bind_run _ _ b b c); [done|]. unfold client_at. by rewrite Hi.
Qed.

Lemma client_info_sends b now i j c ctx :
  slot_at b j = Some (Live c) → answerable ctx → only_sends b (send_client_info pack fresh now i j ctx).
Proof.
  intros Hj Ha. unfold send_client_info. apply (client_sends b j c); [done|].
  unfold only_sends. rewrite (bind_run _ _ b b (subs b) eq_refl). by apply only_sends_seq, respond_sends.
Qed.

(** Clients with a number that is in use are there. *)
Lemma valid_live b j : clients_ok b → cid_valid b j = true → ∃ c, slot_at b j = Some (Live c).
Proof.
  unfold cid_valid. intros (_ & _ & Hc). destruct (slot_at b j) as [[|c|]|] eqn:Es; try done; [by exists c|].
  unfold slot_at in Es. destruct (0 <=? j); [|done]. by apply Hc in Es as [? _].
Qed.

(** The search for a client stays inside, and clients that are found are there. *)
Lemma mounted_client_live b p :
  broker_inv b → siz b ≤ 2 ^ 31 → Z.of_nat (length (mounts b)) < 2 ^ 62 → wf_cstr p → small_number p →
  match mounted_client (mounts b) (cid_active b) (siz b) p with
  | Found j _ => ∃ cj r, slot_at b j = Some (Live cj) ∧ role cj = Some r
  | NotFound => True
  | OutOfBounds => False
  end.
Proof.
  intros (Hc & _ & [[Hw _] Hn] & Hmt & _) Hsiz Hlen Hp Hsmall. unfold mounted_client.
  destruct (Z.eqb_spec (strncmp p clientmnt (length clientmnt)) 0) as [Ho|Ho].
  - specialize (Hsmall (λ H, H Ho)). destruct (strtol _) as [n e]. cbn [fst] in Hsmall. destruct (_ && _); [done|].
    replace (i32 n) with n by (symmetry; by apply swrap_small). unfold cid_active.
    destruct (slot_at b n) as [s|] eqn:Hs; [|done]. pose proof (slot_range _ _ _ Hs) as [H0 H1].
    rewrite (proj2 (Z.leb_le _ _) H0), (proj2 (Z.ltb_lt _ _) H1). cbn [andb].
    destruct s as [|c|]; [done| |].
    + destruct (role c) as [r|] eqn:Hr; [|done]. by exists c, r.
    + destruct (valid_live b n Hc) as [c Hl]; [unfold cid_valid; by rewrite Hs|congruence].
  - destruct (_ =? 0); [done|]. pose proof (search_mounts_sound (mounts b) p Hn Hw Hlen Hp) as H.
    destruct (search_mounts (mounts b) p); [|done|done]. destruct H as (m & Hin & _ & -> & _).
    apply Hmt in Hin as (cj & r & ? & ? & _). by exists cj, r.
Qed.

(** ** Methods of the broker *)

Lemma handles_keeps {A} b ctx ctx' (k : M (rpcbroker P) A) : keeps b k → handles b ctx (k;; mret (ctx', true)).
Proof. intros (b' & x & E & Hinv). exists b', ctx', true. by rewrite (bind_run _ _ _ _ _ E). Qed.

Lemma handles_ret b ctx : broker_inv b → handles b ctx (mret (ctx, false)).
Proof. intros Hinv. by exists b, ctx, false. Qed.

Lemma no_param_handles b i ctx k :
  broker_inv b → is_type (hmeta ctx) RPCMSG_T_REQUEST = true → (∀ ctx', answerable ctx' → keeps b (k ctx')) →
  handles b ctx (no_param pack fresh i ctx k).
Proof.
  intros Hinv Hr Hk. pose proof (validated_answerable ctx ctx Hr eq_refl) as Ha. unfold no_param, rpchandler_msg_valid in *.
  cbn [fst] in Ha. set (ctx1 := Msg _ _ _ _ _) in *. destruct (hvalid ctx); cbn [negb]; [|by exists b, ctx1, true].
  destruct (rpcmsg_has_value (hitem ctx)); apply handles_keeps; [|by apply Hk].
  by apply only_sends_keeps, send_packed_sends.
Qed.

Lemma with_param_handles {A} b i ctx (f : rpchandler_msg U → M (rpcbroker P) (rpchandler_msg U * option A)) want k ctx1 x :
  broker_inv b → is_type (hmeta ctx) RPCMSG_T_REQUEST = true → f ctx b = inl (b, (ctx1, x)) → hmeta ctx1 = hmeta ctx →
  (∀ ctx' y, x = Some y → answerable ctx' → keeps b (k ctx' y)) →
  handles b ctx (with_param pack fresh i ctx f want k).
Proof.
  intros Hinv Hr Ef Em Hk. pose proof (validated_answerable ctx ctx1 Hr Em) as Ha. unfold handles, with_param.
  rewrite (bind_run _ _ _ _ _ Ef). unfold rpchandler_msg_valid in *. cbn [fst] in Ha. set (ctx2 := Msg _ _ _ _ _) in *.
  destruct (hvalid ctx1); cbn [negb]; [|by exists b, ctx2, true].
  destruct x as [y|]; (apply handles_keeps; [..]); [by apply Hk|]. by apply only_sends_keeps, send_packed_sends.
Qed.

(** Reading changes nothing of the broker. *)
Lemma reading_run {A} (f : U → cpitem → U * cpitem * A) ctx b :
  is_Some (hunpack ctx) →
  ∃ ctx1 x, reading f ctx b = inl (b, (ctx1, x)) ∧ hmeta ctx1 = hmeta ctx ∧ is_Some (hunpack ctx1).
Proof.
  intros [u Hu]. unfold reading. rewrite Hu, (bind_run _ _ b b u eq_refl). destruct (f u (hitem ctx)) as [[u' it] x].
  by eexists _, x.
Qed.

Lemma reading_str_run ctx b :
  is_Some (hunpack ctx) →
  ∃ ctx1 x, reading_str unpack ck ctx b = inl (b, (ctx1, x)) ∧ hmeta ctx1 = hmeta ctx ∧ is_Some (hunpack ctx1).
Proof.
  intros [u Hu]. unfold reading_str. rewrite Hu, (bind_run _ _ b b u eq_refl).
  destruct (strdupo unpack ck u (hitem ctx) (hobs ctx)) as [[[u' it] o] x]. by eexists _, x.
Qed.

Lemma subscribe_param_run ctx b :
  is_Some (hunpack ctx) →
  ∃ ctx1 x, subscribe_param unpack ck ctx b = inl (b, (ctx1, x)) ∧ hmeta ctx1 = hmeta ctx.
Proof.
  intros Hu. unfold subscribe_param. destruct (reading_run (cp_unpack_type unpack) ctx b Hu) as (ctx1 & ty & E & Em & Hu1).
  rewrite (bind_run _ _ _ _ _ E). destruct (reading_str_run ctx1 b Hu1) as (ctx2 & x & E2 & Em2 & Hu2).
  destruct ty; try (by eexists _, _; split).
  - rewrite (bind_run _ _ _ _ _ E2). eexists _, _. split; [done|congruence].
  - rewrite (bind_run _ _ _ _ _ E2). destruct x as [ri|]; [|eexists _, _; split; [done|congruence]].
    destruct (reading_run (cp_unpack_int unpack (Signed 32)) ctx2 b Hu2) as (ctx3 & t & E3 & Em3 & _).
    rewrite (bind_run _ _ _ _ _ E3). eexists _, _. split; [done|congruence].
Qed.

Lemma client_info_keeps b now i j ctx :
  broker_inv b → answerable ctx →
  keeps b (locked_do (b ← gets id;
    if cid_valid b j then send_client_info pack fresh now i j ctx
    else rpchandler_msg_send_response_void pack fresh (sendto i) ctx;; mret tt)).
Proof.
  intros Hinv Ha. pose proof Hinv as (Hc & _ & _ & _ & _ & Hl). apply only_sends_keeps, locked_do_sends; [done..|].
  set (b0 := set_locked _ b). unfold only_sends. rewrite (bind_run _ _ b0 b0 b0 eq_refl). destruct (cid_valid b0 j) eqn:Hv.
  - destruct (valid_live b0 j Hc Hv) as [c Hj]. by apply (client_info_sends b0 now i j c).
  - by apply only_sends_seq, send_packed_sends.
Qed.

Lemma mounted_info_keeps b now i p ctx :
  broker_inv b → siz b ≤ 2 ^ 31 → Z.of_nat (length (mounts b)) < 2 ^ 62 → wf_cstr p → small_number p → answerable ctx →
  keeps b (locked_do (mounted_client_info pack fresh now i ctx p)).
Proof.
  intros Hinv Hsiz Hlen Hp Hsmall Ha. pose proof Hinv as (_ & _ & _ & _ & _ & Hl).
  apply only_sends_keeps, locked_do_sends; [done..|]. pose proof (mounted_client_live b p Hinv Hsiz Hlen Hp Hsmall) as H.
  set (b0 := set_locked _ b). unfold only_sends, mounted_client_info. rewrite (bind_run _ _ b0 b0 b0 eq_refl).
  change (mounted_client (mounts b0) (cid_active b0) (siz b0) p) with (mounted_client (mounts b) (cid_active b) (siz b) p).
  destruct (mounted_client _ _ _ p) as [j rpath| |]; [| |done].
  - destruct H as (cj & r & Hj & _). by apply (client_info_sends b0 now i j cj).
  - by apply only_sends_seq, send_packed_sends.
Qed.

Lemma disconnect_keeps b i j ctx : broker_inv b → answerable ctx → keeps b (disconnect_client pack fresh i ctx j).
Proof.
  intros Hinv Ha. pose proof Hinv as (Hc & _ & _ & _ & _ & Hl). apply only_sends_keeps; [done|].
  unfold only_sends, disconnect_client. rewrite (bind_run _ _ _ _ _ (lock_run b Hl)). set (b0 := set_locked _ b).
  rewrite (bind_run _ _ b0 b0 b0 eq_refl). destruct (cid_valid b0 j) eqn:Hv; cbn zeta.
  - destruct (valid_live b0 j Hc Hv) as [c Hj].
    assert ((c ← client_at j; emit (Disconnected j)) b0 = inl (emits [Disconnected j] b0, tt)) as E.
    { rewrite (bind_run _ _ b0 b0 c); [done|]. unfold client_at. by rewrite Hj. }
    rewrite (bind_run _ _ _ _ _ E), (bind_run _ _ _ _ _ (unlock_after b (emits _ b0) eq_refl eq_refl)).
    unfold b0. rewrite relocked by done.
    destruct (only_sends_seq (emits [Disconnected j] b) _ tt
      (send_packed_sends (emits [Disconnected j] b) i ctx (rpcmsg_pack_response_void pack (hmeta ctx)) Ha)) as (l & x & E').
    exists ([Disconnected j] ++ l), x. rewrite <-emits_app. exact E'.
  - rewrite (bind_run _ _ b0 b0 tt eq_refl), (bind_run _ _ _ _ _ (unlock_after b b0 eq_refl eq_refl)).
    replace (set_locked false b0) with b by (unfold b0; destruct b; by simplify_eq/=).
    by apply only_sends_seq, send_packed_sends.
Qed.

Lemma super_handles b ctx k : broker_inv b → handles b ctx k → handles b ctx (super ctx k).
Proof. intros Hinv Hk. unfold super. destruct (_ <? _); [by apply handles_ret|done]. Qed.

Lemma with_int_handles b i ctx want k :
  broker_inv b → is_type (hmeta ctx) RPCMSG_T_REQUEST = true → is_Some (hunpack ctx) →
  (∀ ctx' j, answerable ctx' → keeps b (k ctx' j)) →
  handles b ctx (with_param pack fresh i ctx (reading (cp_unpack_int unpack (Signed 32))) want k).
Proof.
  intros Hinv Hr Hu Hk. destruct (reading_run (cp_unpack_int unpack (Signed 32)) ctx b Hu) as (ctx1 & x & E & Em & _).
  eapply with_param_handles; [done..|]. auto.
Qed.

Lemma request_broker_handles b now i c ctx name :
  broker_inv b → siz b ≤ 2 ^ 31 → Z.of_nat (length (mounts b)) < 2 ^ 62 →
  is_type (hmeta ctx) RPCMSG_T_REQUEST = true → is_Some (hunpack ctx) → method (hmeta ctx) = Some name →
  param_ok b i c ctx (str ".broker") name →
  handles b ctx (rpc_msg_request_broker unpack ck pack fresh gperf_broker now i ctx).
Proof.
  intros Hinv Hsiz Hlen Hr Hu Hm (Hp & _). pose proof Hinv as (_ & _ & _ & _ & _ & Hl).
  unfold rpc_msg_request_broker, handles. rewrite Hm, (bind_run _ _ b b name eq_refl). specialize (Hp eq_refl).
  destruct (gperf_broker name) as [[]|]; try apply super_handles; try done; try (apply no_param_handles; [done..|]; intros ctx' Ha;
    by apply only_sends_keeps, respond_locked_sends).
  - apply with_int_handles; [done..|]. intros ctx' j Ha. by apply client_info_keeps.
  - destruct (reading_str_run ctx b Hu) as (ctx1 & x & E & Em & _). eapply with_param_handles; [done..|].
    intros ctx' y -> Ha. destruct (Hp eq_refl _ _ E). by apply mounted_info_keeps.
  - apply with_int_handles; [done..|]. intros ctx' j Ha. by apply disconnect_keeps.
  - by apply handles_ret.
Qed.

Lemma request_current_handles b now i c ctx name :
  broker_inv b → slot_at b i = Some (Live c) → Z.of_nat (length (subs b)) < 2 ^ 62 →
  is_type (hmeta ctx) RPCMSG_T_REQUEST = true → is_Some (hunpack ctx) → method (hmeta ctx) = Some name →
  param_ok b i c ctx (str ".broker/currentClient") name →
  handles b ctx (rpc_msg_request_broker_current_client unpack ck pack fresh gperf_current_client now i ctx).
Proof.
  intros Hinv Hi Hlen Hr Hu Hm (_ & Hun & Hsub). pose proof Hinv as (_ & _ & _ & _ & _ & Hl).
  unfold rpc_msg_request_broker_current_client, handles. rewrite Hm, (bind_run _ _ b b name eq_refl).
  specialize (Hun eq_refl). specialize (Hsub eq_refl). destruct (gperf_current_client name) as [[]|]; [..|by apply handles_ret].
  - apply no_param_handles; [done..|]. intros ctx' Ha. apply only_sends_keeps, locked_do_sends; [done..|].
    by apply (client_info_sends _ now i i c).
  - apply no_param_handles; [done..|]. intros ctx' Ha. apply only_sends_keeps; [done|].
    apply (client_sends b i c); [done|]. by apply respond_locked_sends.
  - destruct (subscribe_param_run ctx b Hu) as (ctx1 & x & E & Em). eapply with_param_handles; [done..|].
    intros ctx' [ri t] -> Ha. destruct (Hsub eq_refl _ _ _ E) as [Hs Ht].
    destruct (api_subscribe_spec pack fresh b now i c ctx' ri t Hinv Hi Ha Hs Hlen Ht) as (b' & l & E' & [? _] & _).
    by exists b', tt.
  - destruct (reading_str_run ctx b Hu) as (ctx1 & x & E & Em & _). eapply with_param_handles; [done..|].
    intros ctx' ri -> Ha. destruct (api_unsubscribe_spec pack fresh b i c ctx' ri Hinv Hi Ha (Hun eq_refl _ _ E))
      as (b' & l & E' & [? _] & _). by exists b', tt.
Qed.

Lemma api_handles b now i c ctx p name :
  broker_inv b → slot_at b i = Some (Live c) → siz b ≤ 2 ^ 31 → Z.of_nat (length (mounts b)) < 2 ^ 62 →
  Z.of_nat (length (subs b)) < 2 ^ 62 → is_type (hmeta ctx) RPCMSG_T_REQUEST = true → is_Some (hunpack ctx) →
  path (hmeta ctx) = Some p → method (hmeta ctx) = Some name → wf_cstr p → param_ok b i c ctx p name →
  handles b ctx (rpcbroker_api_msg unpack ck pack fresh gperf_broker gperf_current_client now i ctx).
Proof.
  intros Hinv Hi Hsiz Hlen Hlen' Hr Hu Hp Hm Hw Hpar. unfold rpcbroker_api_msg, handles.
  rewrite Hp, (bind_run _ _ b b p eq_refl).
  destruct (Z.eqb_spec (strcmp p (str ".broker")) 0) as [E|_].
  { apply strcmp_eq in E as ->; [|done|by_evaluation]. by eapply request_broker_handles. }
  destruct (Z.eqb_spec (strcmp p (str ".broker/currentClient")) 0) as [E|_]; [|by apply handles_ret].
  apply strcmp_eq in E as ->; [|done|by_evaluation]. by eapply request_current_handles.
Qed.

(** ** Passing on *)

Lemma repacked_run {Q} (qpack : Q → cpitem → Q * bool) q ctx b :
  is_Some (hunpack ctx) → ∃ r, repacked unpack ctx qpack q b = inl (b, r).
Proof.
  intros [u Hu]. unfold repacked. destruct (rpcmsg_has_value (hitem ctx)); [|by eexists].
  rewrite Hu, (bind_run _ _ b b u eq_refl). destruct (rpcmsg_pack_meta _ _ _) as [q1 ?].
  destruct (cp_repack _ _ _ _ _) as [[[u' it] q2] ?]. destruct (cp_pack_container_end qpack q2) as [q3 ?]. by eexists.
Qed.

Lemma propagate_keeps b ctx j cj :
  broker_inv b → slot_at b j = Some (Live cj) → is_Some (hunpack ctx) →
  ∃ b' ctx', propagate_msg unpack pack fresh ctx j (set_locked (negb (nolock b)) b) = inl (b', ctx') ∧ broker_inv b'.
Proof.
  intros Hinv Hj Hu. pose proof Hinv as (_ & _ & _ & _ & _ & Hl). unfold propagate_msg. set (b0 := set_locked _ b).
  rewrite (bind_run _ _ b0 b0 cj) by (unfold client_at; change (slot_at b0 j) with (slot_at b j); by rewrite Hj).
  rewrite (bind_run _ _ _ _ _ (unlock_after b b0 eq_refl eq_refl)).
  replace (set_locked false b0) with b by (unfold b0; destruct b; by simplify_eq/=).
  destruct (repacked_run pack fresh ctx b Hu) as [[ctx1 p] E]. rewrite (bind_run _ _ _ _ _ E). unfold rpchandler_msg_valid.
  by destruct (hvalid ctx1); eexists _, _.
Qed.

(** Where nothing is done with the lock held. *)
Lemma skip_keeps {A} b (x : A) :
  broker_inv b → ∃ b', (broker_unlock;; mret x) (set_locked (negb (nolock b)) b) = inl (b', x) ∧ broker_inv b'.
Proof.
  intros (? & ? & ? & ? & ? & _).
  rewrite (bind_run _ _ _ _ _ (unlock_after b (set_locked (negb (nolock b)) b) eq_refl eq_refl)).
  eexists. split; [done|by apply unlocked_inv].
Qed.

Lemma request_keeps b now i c ctx p name :
  broker_inv b → slot_at b i = Some (Live c) → siz b ≤ 2 ^ 31 → Z.of_nat (length (mounts b)) < 2 ^ 62 →
  Z.of_nat (length (subs b)) < 2 ^ 62 → is_Some (hunpack ctx) → path (hmeta ctx) = Some p →
  method (hmeta ctx) = Some name → wf_cstr p → small_number p → param_ok b i c ctx p name →
  keeps b (rpc_msg_request unpack ck pack fresh gperf_broker gperf_current_client now i ctx).
Proof.
  intros Hinv Hi Hsiz Hlen Hlen' Hu Hp Hm Hw Hsmall Hpar.
  assert (handles b ctx (if is_type (hmeta ctx) RPCMSG_T_REQUEST
    then rpcbroker_api_msg unpack ck pack fresh gperf_broker gperf_current_client now i ctx else mret (ctx, false)))
    as (b1 & ctx1 & h & E & Hinv1 & Hh).
  { destruct (is_type _ _) eqn:Hr; [by eapply api_handles|by apply handles_ret]. }
  unfold rpc_msg_request, keeps. rewrite (bind_run _ _ _ _ _ E). destruct h; [by eexists _, _|].
  destruct (Hh eq_refl) as [-> ->]. pose proof Hinv as (_ & _ & _ & _ & _ & Hl).
  rewrite (bind_run _ _ _ _ _ (lock_run b Hl)). pose proof (mounted_client_live b p Hinv Hsiz Hlen Hw Hsmall) as H.
  set (b0 := set_locked _ b). rewrite (bind_run _ _ b0 b0 b0 eq_refl), Hp, (bind_run _ _ b0 b0 p eq_refl).
  change (mounted_client (mounts b0) (cid_active b0) (siz b0) p) with (mounted_client (mounts b) (cid_active b) (siz b) p).
  destruct (mounted_client _ _ _ p) as [j rpath| |]; [| |done].
  - destruct H as (cj & r & Hj & _).
    rewrite (bind_run _ _ b0 b0 c) by (unfold client_at; change (slot_at b0 i) with (slot_at b i); by rewrite Hi).
    destruct (propagate_keeps b (set_hmeta (forwarded_request (hmeta ctx) rpath c (bname b)) ctx) j cj Hinv Hj Hu)
      as (b' & ctx' & E' & Hinv'). rewrite (bind_run _ _ _ _ _ E'). by eexists _, _.
  - destruct (skip_keeps b (ctx, RPCHANDLER_MSG_SKIP) Hinv) as (b' & E' & ?). by eexists _, _.
Qed.

Lemma response_keeps b ctx :
  broker_inv b → is_Some (hunpack ctx) → (∀ j, last (cids (hmeta ctx)) = Some j → srange 32 j) →
  keeps b (rpc_msg_response unpack pack fresh ctx).
Proof.
  intros Hinv Hu Hj. pose proof Hinv as (Hc & _ & _ & _ & _ & Hl). unfold rpc_msg_response, keeps.
  rewrite (bind_run _ _ _ _ _ (lock_run b Hl)). set (b0 := set_locked _ b). rewrite (bind_run _ _ b0 b0 b0 eq_refl).
  destruct (skip_keeps b (ctx, RPCHANDLER_MSG_SKIP) Hinv) as (b' & Es & ?).
  destruct (last (cids (hmeta ctx))) as [j|]; [|by eexists _, _].
  replace (i32 j) with j by (symmetry; by apply swrap_small, Hj).
  destruct (cid_valid b0 j) eqn:Hv; cbn [negb]; [|by eexists _, _]. destruct (valid_live b0 j Hc Hv) as [cj Hcj].
  set (ctx1 := set_hmeta _ ctx). destruct (propagate_keeps b ctx1 j cj Hinv Hcj Hu) as (b1 & ctx2 & E & ?).
  rewrite (bind_run _ _ _ _ _ E). by eexists _, _.
Qed.

Lemma signal_path_wf point p : wf_cstr point → opt_wf p → wf_cstr (signal_path point p).
Proof.
  intros Hpt Hp. unfold signal_path. destruct p as [[|x q]|]; [done| |done]. apply Forall_app. split; [done|].
  constructor; [done|exact Hp].
Qed.

(** Without locks: the one that is taken is not released. *)
Lemma signal_keeps b i c ctx :
  broker_inv b → slot_at b i = Some (Live c) → nolock b = true → is_Some (hunpack ctx) → is_Some (source (hmeta ctx)) →
  opt_wf (source (hmeta ctx)) → opt_wf (path (hmeta ctx)) → opt_wf (method (hmeta ctx)) →
  keeps b (rpc_msg_signal unpack pack fresh i ctx).
Proof.
  intros Hinv Hi Hnl Hu [so Hso] Hwso Hwp Hwm. pose proof Hinv as (Hc & [Hs _] & [[Hmw _] _] & Hmt & _).
  unfold rpc_msg_signal, keeps. rewrite (bind_run _ _ b b tt) by (unfold broker_lock; by rewrite Hnl).
  rewrite (bind_run _ _ b b c) by (unfold client_at; by rewrite Hi).
  destruct (role c ≫= mount_point) as [point|] eqn:Ept; [|by eexists _, _]. cbn zeta.
  assert (wf_cstr point) as Hpt.
  { destruct (role c) as [r|] eqn:Er; [|done]. rewrite Forall_forall in Hmw. apply (Hmw (Mount point i)), Hmt. by exists c, r. }
  set (ctx1 := set_hmeta _ ctx). change (source (hmeta ctx1)) with (source (hmeta ctx)). rewrite Hso in *.
  rewrite (bind_run _ _ b b so eq_refl).
  destruct (destinations_spec b (signal_path point (path (hmeta ctx))) so (method (hmeta ctx1)) (maccess (hmeta ctx1)) Hc Hs)
    as (d & E & Hd & Hin); [by apply signal_path_wf|exact Hwso|exact Hwm|]. rewrite (bind_run _ _ _ _ _ E).
  destruct d as [vals|]; [|by eexists _, _].
  assert (∀ j, j ∈ nset (Some vals) → ∃ c, slot_at b j = Some (Live c)) as Hlive.
  { intros j (_ & c' & r' & ? & _)%Hin. by exists c'. }
  rewrite (bind_run _ _ _ _ _ (multipack_init_spec fresh b (Some vals) Hlive)).
  destruct (repacked_run (pack_func pack) (replicate (length (for_nbool (Some vals))) (Some fresh)) ctx1 b Hu) as [[ctx2 packs] E2].
  rewrite (bind_run _ _ _ _ _ E2). unfold rpchandler_msg_valid.
  rewrite (bind_run _ _ _ _ _ (multipack_done_spec b (Some vals) packs (hvalid ctx2) Hlive)). by eexists _, _.
Qed.

(** The stage of the broker with any message. *)
Lemma message_keeps b now i c ctx :
  broker_inv b → slot_at b i = Some (Live c) → siz b ≤ 2 ^ 31 → Z.of_nat (length (mounts b)) < 2 ^ 62 →
  Z.of_nat (length (subs b)) < 2 ^ 62 → message_ok b i c ctx →
  keeps b (rpc_msg unpack ck pack fresh gperf_broker gperf_current_client now i ctx).
Proof.
  intros Hinv Hi Hsiz Hlen Hlen' [Hu Hok]. unfold rpc_msg. destruct (mtype (hmeta ctx)).
  - by exists b, (ctx, RPCHANDLER_MSG_SKIP).
  - destruct Hok as (p & name & ? & ? & ? & ? & ?). by eapply request_keeps.
  - destruct Hok as (p & name & ? & ? & ? & ? & ?). by eapply request_keeps.
  - by apply response_keeps.
  - by apply response_keeps.
  - by apply response_keeps.
  - destruct Hok as (? & ? & ? & ? & ?). by eapply signal_keeps.
Qed.
End messages.
