(* ===== verification/BrokerRouting.v ===== *)
(** * Messages on their way through the broker

    The broker reads the head of a message of one client and writes it to another,
    with the value behind it.  With ChainPack on both sides, the other client
    receives what the broker meant to pass on and the value byte for byte: requests
    get to the client that is mounted on the path, and responses back to the client
    that asked. *)

From stdpp Require Import sorting gmap.
From S2P Require Import Prelude Effects Stdio Chainpack CpItem ChainpackPack ChainpackUnpack ChainpackRoundtrip.
From S2P Require Import CpUnpack CpUnpackChainpack CpPack CpTools CpObstack CpLoops Arr Nbool Rpcri Rpcaccess.
From S2P Require Import RpcError RpcDir RpcMsg RpcHead RpcLogin Strset Subscription Mount Broker BrokerSpec.
From S2P Require Import Handler HandlerSpec BrokerApi BrokerStage BrokerStageSpec BrokerMessages.

#[local] Opaque unsubscribe_all unsubscribe subscribe add_mount del_mount search_mounts.

(** ** Messages *)

(** A message that is started. *)
Definition new_file : ofile := Some (WFile [] None false).

(** What follows the head. *)
Definition tail_of (v : option (list Z)) : list Z :=
  match v with Some l => l ++ [CPS_TERM] | None => [] end.

(** Whoever reads the message gets the metadata, and is in front of the value. *)
Definition arrives (lim : option rpcmsg_meta_limits) (p : ofile) (m : rpcmsg_meta) (v : option (list Z)) : Prop :=
  ∃ bs, p = Some (WFile (bs ++ tail_of v) None false) ∧
  ∀ ck gperf o d e it, chunks_wf ck → obs_ok o → idle_item it →
    ∃ it', head_of cp_unpack_chainpack_func ck (λ _, true) gperf lim o (RFile (bs ++ d) e) it =
      (RFile d e, it', (HeadOk m, bool_decide (is_Some v))).

(** The value of a received message, where its head was read. *)
Definition carries (ctx : rpchandler_msg rfile) (v : option (list Z)) : Prop :=
  match v with
  | None => rpcmsg_has_value (hitem ctx) = false
  | Some bs => rpcmsg_has_value (hitem ctx) = true ∧ ready (hitem ctx) = true ∧
      ∃ n f f', hunpack ctx = Some f ∧ node_wf n = true ∧ height n ≤ DEPTH_MAX ∧
        yields_list cp_unpack_chainpack_func (toks n) f f' ∧ rf_data f = bs ++ rf_data f' ∧
        Z.of_nat (length (rf_data f)) < 2 ^ 64
  end.

Lemma written_new bs : written bs (WFile [] None false) = WFile bs None false.
Proof. done. Qed.

(** The head of a message that is passed on. *)
Lemma meta_arrives lim m (value : bool) :
  meta_ok lim m → value || negb (is_type m RPCMSG_T_ERROR) = true →
  ∃ bs, (if value then rpcmsg_pack_meta cp_pack_chainpack_func m else rpcmsg_pack_meta_void cp_pack_chainpack_func m) new_file =
      (Some (WFile bs None false), true) ∧
    ∀ ck gperf o d e it, chunks_wf ck → obs_ok o → idle_item it →
      ∃ it', head_of cp_unpack_chainpack_func ck (λ _, true) gperf lim o (RFile (bs ++ d) e) it =
        (RFile d e, it', (HeadOk (forwarded m), value)).
Proof.
  intros Hm Hv. set (c := _rpcmsg_pack_meta cp_pack_chainpack_func m >>> pack_next cp_pack_chainpack_func (key_of m value)).
  assert ((if value then rpcmsg_pack_meta cp_pack_chainpack_func m else rpcmsg_pack_meta_void cp_pack_chainpack_func m) = c) as ->.
  { unfold c, rpcmsg_pack_meta, rpcmsg_pack_meta_void, key_of, is_type in *. destruct Hm as [Ht _].
    rewrite !elem_of_cons, elem_of_nil in Ht. destruct Ht as [Ht|[Ht|[Ht|[Ht|[]]]]]; rewrite Ht in *; by destruct value. }
  assert (∀ ck gperf o, chunks_wf ck → obs_ok o →
    round_trips c (head_of cp_unpack_chainpack_func ck (λ _, true) gperf lim o) (λ r, r = (HeadOk (forwarded m), value))) as Hrt
    by (intros; apply meta_round_trips; [done..|by rewrite Hv]).
  destruct (Hrt (Chunks (λ _, 8) (λ _, 0)) (λ _, None) (Obstack [] 4)) as (bs & Hw & _); [done..|].
  specialize (Hw (WFile [] None false) eq_refl I). rewrite written_new in Hw. exists bs. split; [done|].
  intros ck gperf o d e it Hck Ho Hit. destruct (Hrt ck gperf o Hck Ho) as (bs' & Hw' & Hr).
  specialize (Hw' (WFile [] None false) eq_refl I). rewrite written_new in Hw'. unfold new_file in *.
  rewrite Hw in Hw'. injection Hw' as <-. destruct (Hr d e it Hit) as (it' & r & E & _ & ->). by exists it'.
Qed.

(** The message written anew, up to the end. *)
Lemma repacked_arrives lim ctx v (b : rpcbroker ofile) :
  carries ctx v → meta_ok lim (hmeta ctx) → (v = None → mtype (hmeta ctx) ≠ RPCMSG_T_ERROR) →
  ∃ ctx' p, repacked cp_unpack_chainpack_func ctx cp_pack_chainpack_func new_file b = inl (b, (ctx', p)) ∧
    hmeta ctx' = hmeta ctx ∧ hvalid ctx' = hvalid ctx ∧ arrives lim p (forwarded (hmeta ctx)) v.
Proof.
  intros Hc Hm Hv.
  destruct (meta_arrives lim (hmeta ctx) (bool_decide (is_Some v)) Hm) as (bs & Hw & Hr).
  { destruct v; [done|]. unfold is_type. by rewrite (bool_decide_false (mtype _ = _)) by auto. }
  unfold repacked. destruct v as [l|]; cbn [carries] in Hc; simpl in Hw.
  - destruct Hc as (-> & Hready & n & f & f' & Hu & Hwf & Hh & Hy & Hd & Hlen). rewrite Hu, (bind_run _ _ b b f eq_refl), Hw.
    destruct (repack_node n f (hitem ctx) f' (WFile bs None false) Hwf Hh Hy Hready eq_refl Hlen) as (l' & it' & Hd' & Hrun & _).
    rewrite Hd in Hd'. apply app_inv_tail in Hd' as <-. rewrite (Hrun I).
    eexists _, _. split; [done|]. split_and!; [done..|]. exists bs. split; [|done].
    simpl. by rewrite app_assoc.
  - rewrite Hc. eexists _, _. split; [done|]. split_and!; [done..|]. exists bs. rewrite Hw, app_nil_r. by split.
Qed.

(** ** The same message for many *)

(** The packer of many packs as the one of each. *)
Lemma pack_func_replicate {P} (pack : P → cpitem → P * bool) n p it :
  pack_func pack (replicate (S n) (Some p)) it =
    (replicate (S n) (if (pack p it).2 then Some (pack p it).1 else None), (pack p it).2).
Proof.
  induction n as [|n IH]; [simpl; destruct (pack p it) as [q []]; done|].
  change (replicate (S (S n)) (Some p)) with (Some p :: replicate (S n) (Some p)). cbn [pack_func].
  rewrite IH. by destruct (pack p it) as [q []].
Qed.

(** A loop over related states. *)
Lemma cloop_sim {St R St' R'} (step : St → St + R) (step' : St' → St' + R') (f : St → St') (Q : R → R' → Prop) :
  (∀ s, match step s with inl s1 => step' (f s) = inl (f s1) | inr r => ∃ r', step' (f s) = inr r' ∧ Q r r' end) →
  ∀ n s, match cloop step n s with
         | inl s1 => cloop step' n (f s) = inl (f s1)
         | inr r => ∃ r', cloop step' n (f s) = inr r' ∧ Q r r'
         end.
Proof.
  intros Hstep n. induction n as [|n IH]; intros s; simpl; [apply Hstep|].
  specialize (IH s) as H. destruct (cloop step n s) as [s1|r]; [rewrite H; apply IH|].
  destruct H as (r' & -> & ?). by exists r'.
Qed.

Lemma repack_everywhere {U P} (unpack : U → cpitem → U * cpitem) (pack : P → cpitem → P * bool) n u it p u' it' p' :
  cp_repack unpack pack u it p = (u', it', p', true) →
  cp_repack unpack (pack_func pack) u it (replicate (S n) (Some p)) = (u', it', replicate (S n) (Some p'), true).
Proof.
  set (f := λ s : U * cpitem * P * Z, let '(u, it, p, d) := s in (u, it, replicate (S n) (Some p), d)).
  unfold cp_repack. set (it0 := set_buffer _ _ it). intros H.
  pose proof (cloop_sim (repack_step unpack pack) (repack_step unpack (pack_func pack)) f
    (λ r r', let '(u, it, p, ok) := r in ok = true → r' = (u, it, replicate (S n) (Some p), true))) as Hsim.
  specialize (λ H, Hsim H 65%nat (u, it0, p, 0)). change (f (u, it0, p, 0)) with (u, it0, replicate (S n) (Some p), 0) in Hsim.
  destruct (cloop (repack_step unpack pack) 65 (u, it0, p, 0)) as [[[[? ?] ?] ?]|[[[u1 it1] p1] ok1]]; [done|].
  injection H as -> <- -> ->. destruct Hsim as (r' & -> & ->); [|done|done].
  clear. intros [[[u it] p] d]. unfold f, repack_step. destruct (unpack u it) as [u1 it1].
  destruct (bool_decide _); [by eexists|]. rewrite pack_func_replicate. destruct (pack p it1) as [p1 []]; simpl; [|by eexists].
  destruct (_ =? 0); [|done]. eexists. split; [done|]. by intros _.
Qed.

Lemma meta_outputs {P} (pack : P → cpitem → P * bool) `{!PackSpec pack} lim m (value : bool) :
  meta_ok lim m → value || negb (is_type m RPCMSG_T_ERROR) = true →
  outputs pack (if value then rpcmsg_pack_meta pack m else rpcmsg_pack_meta_void pack m)
    (head_toks (meta_fields m) (next_tok (key_of m value))).
Proof.
  intros (Ht & Hr & Hc & Ha & Hp & Hm & Hs & Hu & Hm' & Hs') Hv.
  assert ((if value then rpcmsg_pack_meta pack m else rpcmsg_pack_meta_void pack m) =
    _rpcmsg_pack_meta pack m >>> pack_next pack (key_of m value)) as ->.
  { unfold rpcmsg_pack_meta, rpcmsg_pack_meta_void, key_of, is_type in *. rewrite !elem_of_cons, elem_of_nil in Ht.
    destruct Ht as [Ht|[Ht|[Ht|[Ht|[]]]]]; rewrite Ht in *; by destruct value. }
  apply outputs_meta; try done; try (by eapply opt_within_text); [apply Hc| |].
  - intros Hsig. split; [by apply Hs'|by eapply opt_within_text].
  - unfold key_of. by destruct value, (mtype m).
Qed.

(** What is packed for one is packed for all. *)
Lemma outputs_everywhere (c : ofile → ofile * bool) (c' : list (option ofile) → list (option ofile) * bool) ts n bs bs' :
  outputs cp_pack_chainpack_func c ts → outputs (pack_func cp_pack_chainpack_func) c' ts →
  c (Some (WFile bs None false)) = (Some (WFile bs' None false), true) →
  c' (replicate (S n) (Some (Some (WFile bs None false)))) = (replicate (S n) (Some (Some (WFile bs' None false))), true).
Proof.
  intros Hc Hc' E. pose proof (emitted_list_written ts (WFile bs None false) eq_refl I) as He.
  rewrite (Hc _ _ He) in E. injection E as E. apply Hc'. apply emitted_everywhere; [|done].
  replace (Some (WFile bs' None false)) with (Some (written (flat_map tok_bytes ts) (WFile bs None false))); [done|].
  unfold written. simpl. by rewrite <-E.
Qed.

Lemma repacked_everywhere lim ctx v n (b : rpcbroker ofile) :
  carries ctx v → meta_ok lim (hmeta ctx) → (v = None → mtype (hmeta ctx) ≠ RPCMSG_T_ERROR) →
  ∃ ctx' p, repacked cp_unpack_chainpack_func ctx (pack_func cp_pack_chainpack_func) (replicate (S n) (Some new_file)) b =
      inl (b, (ctx', replicate (S n) (Some p))) ∧
    hmeta ctx' = hmeta ctx ∧ hvalid ctx' = hvalid ctx ∧ arrives lim p (forwarded (hmeta ctx)) v.
Proof.
  intros Hc Hm Hv.
  assert (bool_decide (is_Some v) || negb (is_type (hmeta ctx) RPCMSG_T_ERROR) = true) as Hv'.
  { destruct v; [done|]. unfold is_type. by rewrite (bool_decide_false (mtype _ = _)) by auto. }
  destruct (meta_arrives lim (hmeta ctx) (bool_decide (is_Some v)) Hm Hv') as (bs & Hw & Hr).
  pose proof (outputs_everywhere _ _ _ n _ _ (meta_outputs cp_pack_chainpack_func lim _ _ Hm Hv')
    (meta_outputs (pack_func cp_pack_chainpack_func) lim _ _ Hm Hv') Hw) as Hw'.
  unfold repacked, new_file in *. fold ofile in *.
  destruct v as [l|]; cbn [carries] in Hc;
    [change (bool_decide (is_Some (Some l))) with true in *|change (bool_decide (is_Some None)) with false in *].
  - destruct Hc as (-> & Hready & n' & f & f' & Hu & Hwf & Hh & Hy & Hd & Hlen). rewrite Hu, (bind_run _ _ b b f eq_refl).
    rewrite Hw'.
    destruct (repack_node n' f (hitem ctx) f' (WFile bs None false) Hwf Hh Hy Hready eq_refl Hlen) as (l' & it' & Hd' & Hrun & _).
    rewrite Hd in Hd'. apply app_inv_tail in Hd' as <-.
    apply (repack_everywhere _ _ n) in Hrun; [|done]. unfold ofile in *. rewrite Hrun.
    rewrite (outputs_everywhere (cp_pack_container_end cp_pack_chainpack_func) _ [TEnd] n (bs ++ l) (bs ++ l ++ [CPS_TERM])).
    + eexists _, _. split; [done|]. split_and!; [done..|]. by exists bs.
    + eauto with shv.
    + eauto with shv.
    + by rewrite app_assoc.
  - rewrite Hc, Hw'. eexists _, _. split; [done|]. split_and!; [done..|]. exists bs. by rewrite app_nil_r.
Qed.

(** ** Passing on *)

Section routing.
Context (ck : chunks) (alloc : Z → bool) (random : list Z) (login_ : rpclogin → cstr → rpcbroker_login_res).
Context (gperf_broker : cstr → option api_broker_methods).
Context (gperf_current_client : cstr → option current_client_methods).
Implicit Types b : rpcbroker ofile.
Implicit Types ctx : rpchandler_msg rfile.
Abbreviation propagate := (propagate_msg cp_unpack_chainpack_func cp_pack_chainpack_func new_file).
Abbreviation request := (rpc_msg cp_unpack_chainpack_func ck cp_pack_chainpack_func new_file
  gperf_broker gperf_current_client).

Lemma unlocked_again b : locked b = false → set_locked false (set_locked (negb (nolock b)) b) = b.
Proof. intros E. destruct b. by simplify_eq/=. Qed.

Lemma propagate_arrives lim b ctx v j cj :
  broker_inv b → slot_at b j = Some (Live cj) → carries ctx v → meta_ok lim (hmeta ctx) →
  (v = None → mtype (hmeta ctx) ≠ RPCMSG_T_ERROR) → hvalid ctx = true →
  ∃ ctx' p, propagate ctx j (set_locked (negb (nolock b)) b) = inl (emits [Sent j p] b, ctx') ∧
    arrives lim p (forwarded (hmeta ctx)) v.
Proof.
  intros (_ & _ & _ & _ & _ & Hl) Hj Hc Hm Hv Hval. destruct (repacked_arrives lim ctx v b Hc Hm Hv) as (ctx' & p & E & _ & Ev & Ha).
  unfold propagate_msg. set (b0 := set_locked _ b).
  rewrite (bind_run _ _ b0 b0 cj) by (unfold client_at; change (slot_at b0 j) with (slot_at b j); by rewrite Hj).
  rewrite (bind_run _ _ _ _ _ (unlock_after b b0 eq_refl eq_refl)). unfold b0. rewrite unlocked_again by done.
  rewrite (bind_run _ _ _ _ _ E). unfold rpchandler_msg_valid. rewrite Ev, Hval. eexists _, p. by split.
Qed.

Lemma carries_meta m ctx v : carries ctx v → carries (set_hmeta m ctx) v.
Proof. by destruct v. Qed.

Lemma request_forwarded lim b now i j c ctx v p rpath :
  broker_inv b → slot_at b i = Some (Live c) → siz b ≤ 2 ^ 31 → Z.of_nat (length (mounts b)) < 2 ^ 62 →
  mtype (hmeta ctx) = RPCMSG_T_REQUEST → path (hmeta ctx) = Some p → wf_cstr p → small_number p →
  p ≠ str ".broker" → p ≠ str ".broker/currentClient" →
  mounted_client (mounts b) (cid_active b) (siz b) p = Found j rpath →
  hvalid ctx = true → carries ctx v → meta_ok lim (forwarded_request (hmeta ctx) rpath c (bname b)) →
  ∃ ctx' q, request now i ctx b = inl (emits [Sent j q] b, (ctx', RPCHANDLER_MSG_DONE)) ∧
    arrives lim q (forwarded (forwarded_request (hmeta ctx) rpath c (bname b))) v.
Proof.
  intros Hinv Hi Hsiz Hlen Ht Hp Hwp Hsm Hb Hcc Hf Hval Hc Hm. pose proof Hinv as (_ & _ & _ & _ & _ & Hl).
  pose proof (mounted_client_live b p Hinv Hsiz Hlen Hwp Hsm) as H. rewrite Hf in H. destruct H as (cj & r & Hj & _).
  set (ctx1 := set_hmeta (forwarded_request (hmeta ctx) rpath c (bname b)) ctx).
  destruct (propagate_arrives lim b ctx1 v j cj) as (ctx' & q & E & Ha); [done|done|by apply carries_meta|done| |done|].
  { intros _. simpl. by rewrite Ht. }
  exists ctx', q. split; [|done]. unfold rpc_msg, rpc_msg_request, is_type. rewrite Ht, bool_decide_true by done.
  rewrite (bind_run _ _ b b (ctx, false)).
  2:{ unfold rpcbroker_api_msg. rewrite Hp, (bind_run _ _ b b p eq_refl).
      by rewrite !(proj2 (Z.eqb_neq _ _)) by (intros ?%strcmp_eq; [done|done|by_evaluation]). }
  cbn beta iota. rewrite (bind_run _ _ _ _ _ (lock_run b Hl)). set (b0 := set_locked _ b) in *.
  rewrite (bind_run _ _ b0 b0 b0 eq_refl), Hp, (bind_run _ _ b0 b0 p eq_refl).
  change (mounted_client (mounts b0) (cid_active b0) (siz b0) p) with (mounted_client (mounts b) (cid_active b) (siz b) p).
  rewrite Hf, (bind_run _ _ b0 b0 c) by (unfold client_at; change (slot_at b0 i) with (slot_at b i); by rewrite Hi).
  by rewrite (bind_run _ _ _ _ _ E).
Qed.

Lemma response_returned lim b now i j c ctx v callers :
  broker_inv b → slot_at b i = Some (Live c) → siz b ≤ 2 ^ 31 →
  mtype (hmeta ctx) = RPCMSG_T_RESPONSE ∨ mtype (hmeta ctx) = RPCMSG_T_ERROR ∧ is_Some v →
  cids (hmeta ctx) = callers ++ [i] → hvalid ctx = true → carries ctx v → meta_ok lim (with_cids callers (hmeta ctx)) →
  ∃ ctx' q, request now j ctx b = inl (emits [Sent i q] b, (ctx', RPCHANDLER_MSG_DONE)) ∧
    arrives lim q (response_meta (mtype (hmeta ctx)) (request_id (hmeta ctx)) callers) v.
Proof.
  intros Hinv Hi Hsiz Ht Hcids Hval Hc Hm. pose proof Hinv as (_ & _ & _ & _ & _ & Hl).
  pose proof (slot_range _ _ _ Hi) as [Hi0 Hi1]. set (ctx1 := set_hmeta (with_cids callers (hmeta ctx)) ctx).
  destruct (propagate_arrives lim b ctx1 v i c) as (ctx' & q & E & Ha); [done|done|by apply carries_meta|done| |done|].
  { intros ->. simpl. destruct Ht as [->|[_ [? ?]]]; done. }
  exists ctx', q. split.
  - assert (request now j ctx = rpc_msg_response cp_unpack_chainpack_func cp_pack_chainpack_func new_file ctx) as ->
      by (unfold rpc_msg; by destruct Ht as [->|[-> _]]).
    unfold rpc_msg_response. rewrite (bind_run _ _ _ _ _ (lock_run b Hl)). set (b0 := set_locked _ b) in *.
    rewrite (bind_run _ _ b0 b0 b0 eq_refl), Hcids, last_snoc.
    replace (i32 i) with i by (symmetry; apply swrap_small; [done|unfold srange; lia]).
    assert (cid_valid b0 i = true) as -> by (unfold cid_valid; change (slot_at b0 i) with (slot_at b i); by rewrite Hi).
    cbn [negb]. rewrite length_app. simpl. rewrite Nat.add_sub, take_app_length. by rewrite (bind_run _ _ _ _ _ E).
  - unfold ctx1, forwarded in Ha. simpl in Ha. by destruct Ht as [E'|[E' _]]; rewrite E' in *.
Qed.

(** Packing for the destinations, whoever they are. *)
Lemma deliver_everywhere lim b ctx v d :
  nbool_wf d → (∀ j, j ∈ nset d → ∃ c, slot_at b j = Some (Live c)) → d ≠ None →
  carries ctx v → meta_ok lim (hmeta ctx) → (v = None → mtype (hmeta ctx) ≠ RPCMSG_T_ERROR) → hvalid ctx = true →
  ∃ ctx' p, (packs ← multipack_init new_file d;
     '(ctx, packs) ← repacked cp_unpack_chainpack_func ctx (pack_func cp_pack_chainpack_func) packs;
     let '(ctx, valid) := rpchandler_msg_valid ctx in
     multipack_done packs d valid;; mret (ctx, RPCHANDLER_MSG_SKIP)) b =
    inl (emits ((λ j, Sent j p) <$> for_nbool d) b, (ctx', RPCHANDLER_MSG_SKIP)) ∧
    arrives lim p (forwarded (hmeta ctx)) v.
Proof.
  intros Hd Hlive Hne Hc Hm Hv Hval. assert (∃ n, length (for_nbool d) = S n) as [n En].
  { destruct (length (for_nbool d)) as [|n] eqn:E; [|by exists n]. apply length_zero_iff_nil in E.
    destruct Hne. apply nset_empty; [done|]. unfold nset. by rewrite E. }
  rewrite (bind_run _ _ _ _ _ (multipack_init_spec new_file b d Hlive)), En.
  destruct (repacked_everywhere lim ctx v n b Hc Hm Hv) as (ctx' & p & E & _ & Ev & Ha).
  rewrite (bind_run _ _ _ _ _ E). unfold rpchandler_msg_valid. rewrite Ev, Hval.
  rewrite (bind_run _ _ _ _ _ (multipack_done_spec b d _ true Hlive)), <-En, delivered_everywhere.
  eexists _, p. by split.
Qed.

Lemma signal_forwarded lim b now i c r point ctx v so :
  broker_inv b → slot_at b i = Some (Live c) → role c = Some r → mount_point r = Some point →
  mtype (hmeta ctx) = RPCMSG_T_SIGNAL → source (hmeta ctx) = Some so → hvalid ctx = true → carries ctx v →
  let p := signal_path point (path (hmeta ctx)) in
  let m := with_path (Some p) (hmeta ctx) in
  meta_ok lim m →
  ∃ ctx' q l, request now i ctx b =
      inl (emits ((λ j, Sent j q) <$> l) (set_locked (negb (nolock b)) b), (ctx', RPCHANDLER_MSG_SKIP)) ∧
    arrives lim q (forwarded m) v ∧ NoDup l ∧
    ∀ j, j ∈ l ↔ receives b p so (method (hmeta ctx)) (maccess (hmeta ctx)) j.
Proof.
  intros Hinv Hi Er Ep Ht Hso Hval Hc p m Hm. pose proof Hinv as (Hcl & [Hs Hw] & _ & _ & _ & Hl).
  unfold rpc_msg. rewrite Ht. unfold rpc_msg_signal. rewrite (bind_run _ _ _ _ _ (lock_run b Hl)). set (b0 := set_locked _ b).
  rewrite (bind_run _ _ b0 b0 c) by (unfold client_at; change (slot_at b0 i) with (slot_at b i); by rewrite Hi).
  rewrite Er. cbn [mbind option_bind]. rewrite Ep. fold p m. cbn zeta. set (ctx1 := set_hmeta m ctx).
  change (source (hmeta ctx1)) with (source (hmeta ctx)). rewrite Hso, (bind_run _ _ b0 b0 so eq_refl).
  change (method (hmeta ctx1)) with (method (hmeta ctx)). change (maccess (hmeta ctx1)) with (maccess (hmeta ctx)).
  pose proof Hm as (_ & _ & _ & _ & Hp & Hmt & Hsr & _). simpl in Hp. change (source m) with (source (hmeta ctx)) in Hsr.
  change (method m) with (method (hmeta ctx)) in Hmt. rewrite Hso in Hsr.
  destruct (destinations_spec b0 p so (method (hmeta ctx)) (maccess (hmeta ctx)) Hcl Hs) as (d & E & Hd & Hin);
    [apply Hp|apply Hsr|by apply (opt_within_text (name_limit (default rpcmsg_meta_limits_default lim)))|].
  rewrite (bind_run _ _ _ _ _ E).
  assert (∀ j, j ∈ for_nbool d ↔ receives b p so (method (hmeta ctx)) (maccess (hmeta ctx)) j) as Hin'.
  { intros j. assert (j ∈ for_nbool d ↔ j ∈ nset d) as -> by (unfold nset; by rewrite elem_of_list_to_set). apply Hin. }
  assert (v = None → mtype (hmeta ctx1) ≠ RPCMSG_T_ERROR) as Hv by (intros _; simpl; by rewrite Ht).
  destruct d as [vals|].
  - destruct (deliver_everywhere lim b0 ctx1 v (Some vals)) as (ctx' & q & E' & Ha);
      [done| |done|by apply carries_meta|done|done|done|].
    { intros j (_ & c' & r' & ? & _)%Hin. by exists c'. }
    exists ctx', q, (for_nbool (Some vals)). split_and!; [exact E'|done|apply for_nbool_NoDup|done].
  - destruct (repacked_arrives lim ctx1 v b (carries_meta m ctx v Hc) Hm Hv) as (_ & q & _ & _ & _ & Ha).
    exists ctx1, q, []. change ((λ j, Sent j q) <$> @nil Z) with (@nil (event ofile)). rewrite emits_nil. split_and!; [done|done|constructor|done].
Qed.
End routing.
