(* ===== verification/BrokerProps.v ===== *)
(** * The broker

    The operations of clients as steps of one system, the properties that hold in
    every state they lead to, and what the operations do that they should not. *)

From stdpp Require Import sorting gmap.
From S2P Require Import Prelude Effects Stdio Chainpack CpItem ChainpackPack ChainpackUnpack ChainpackRoundtrip.
From S2P Require Import CpUnpack CpUnpackChainpack CpPack CpTools CpObstack CpLoops Arr Nbool Rpcri Rpcaccess.
From S2P Require Import RpcError RpcDir RpcMsg RpcHead RpcLogin Strset Subscription Mount Broker BrokerSpec.
From S2P Require Import Handler HandlerSpec BrokerApi BrokerStage BrokerStageSpec BrokerMessages BrokerRouting.

#[local] Opaque unsubscribe_all unsubscribe subscribe add_mount del_mount search_mounts.

(** ** Steps *)

Section steps.
Context {P U : Type} (unpack : U → cpitem → U * cpitem) (ck : chunks) (alloc : Z → bool).
Context (pack : P → cpitem → P * bool) (fresh : P).
Context (random : list Z) (login_ : rpclogin → cstr → rpcbroker_login_res).
Context (gperf_broker : cstr → option api_broker_methods).
Context (gperf_current_client : cstr → option current_client_methods).
Implicit Types b : rpcbroker P.

(** What is done to the broker: clients come and go, their two stages get a message,
    their connection is reset, and time passes. *)
Inductive op :=
  | Register (now : Z) (contrack : bool) (r : option rpcbroker_role)
  | Unregister (now i : Z)
  | Access (now i : Z) (ctx : rpchandler_msg U)
  | AccessReset (i : Z)
  | RpcReset (i : Z)
  | AccessIdle (now i : Z)
  | Idle (now i : Z)
  | Message (now i : Z) (ctx : rpchandler_msg U).

(** The result is [false] when a client is not registered. *)
Definition run_op (o : op) : M (rpcbroker P) bool :=
  match o with
  | Register now contrack r => i ← rpcbroker_client_register pack fresh now contrack r; mret (negb (i =? -1))
  | Unregister now i => rpcbroker_client_unregister pack fresh now i;; mret true
  | Access now i ctx => access_msg unpack ck alloc pack fresh random login_ now i ctx;; mret true
  | AccessReset i => access_reset pack fresh i;; mret true
  | RpcReset i => rpc_reset i;; mret true
  | AccessIdle now i => access_idle now i;; mret true
  | Idle now i => rpc_idle now i;; mret true
  | Message now i ctx => rpc_msg unpack ck pack fresh gperf_broker gperf_current_client now i ctx;; mret true
  end.

Definition live b (i : Z) : Prop := ∃ c, slot_at b i = Some (Live c).

(** When the program may do it: to clients that are there, with roles that promise
    what they have to, and memory for one more.  Messages are those of
    [message_ok]. *)
Definition enabled b (o : op) : Prop :=
  match o with
  | Register _ _ r => ∀ r', r = Some r' → role_ok r' ∧ fits b (length (subscriptions r'))
  | Unregister _ i | AccessReset i => live b i ∧ fits b 0
  | RpcReset i | AccessIdle _ i | Idle _ i => live b i
  | Access _ i ctx =>
      live b i ∧
      (is_type (hmeta ctx) RPCMSG_T_REQUEST = true → is_Some (method (hmeta ctx)) ∧ is_Some (hunpack ctx)) ∧
      ∀ l n r, login_ l n = LoginOk r → role_ok r ∧ fits b (length (subscriptions r))
  | Message _ i ctx =>
      ∃ c, slot_at b i = Some (Live c) ∧ siz b ≤ 2 ^ 31 ∧ fits b 0 ∧
        message_ok unpack ck gperf_broker gperf_current_client b i c ctx
  end.

(** The states the broker gets to. *)
Inductive reachable : rpcbroker P → Prop :=
  | reachable_new name nolock : reachable (rpcbroker_new name nolock)
  | reachable_step b o b' : reachable b → enabled b o → run_op o b = inl (b', true) → reachable b'.

(** ** The invariant *)

Lemma new_inv name nolock : broker_inv (P := P) (rpcbroker_new name nolock).
Proof.
  assert (∀ i c, slot_at (P := P) (rpcbroker_new name nolock) i ≠ Some (Live c)) as Hs.
  { intros i c. unfold slot_at. destruct (0 <=? i); [|done]. unfold rpcbroker_new. cbn [clients].
    by intros [? _]%lookup_replicate_1. }
  assert (∀ r i, ¬ wants [] r i) as Hw by (by intros r i (s & ?%not_elem_of_nil & _)).
  split; [|split; [|split; [|split; [|split]]]].
  - split_and!; [done|simpl; lia|]. intros i s. unfold rpcbroker_new. cbn [clients]. by intros [-> _]%lookup_replicate_1.
  - split; [split; [split_and!; [by split; constructor|constructor|done]|]|]; by intros r i ?%Hw.
  - split; [split|]; constructor.
  - intros m. simpl. rewrite elem_of_nil. split; [done|]. by intros (c & r & ?%Hs & _).
  - by intros i c ?%Hs.
  - done.
Qed.

Lemma access_idle_run b now i c :
  broker_inv b → slot_at b i = Some (Live c) → ∃ b' t, access_idle now i b = inl (b', t) ∧ broker_inv b'.
Proof.
  intros Hinv Hi. pose proof Hinv as (_ & _ & _ & _ & _ & Hl). unfold access_idle.
  rewrite (bind_run _ _ _ _ _ (lock_run b Hl)). set (b0 := set_locked _ b).
  rewrite (bind_run _ _ b0 b0 c) by (unfold client_at; change (slot_at b0 i) with (slot_at b i); by rewrite Hi).
  destruct (skip_keeps b (if negb (activity_timeout c =? u32 (-1)) then
      let timeout := i32 (last_activity c + activity_timeout c - now) in
      if timeout >=? 0 then timeout else RPCHANDLER_IDLE_STOP
    else RPCHANDLER_IDLE_SKIP) Hinv) as (b' & E & ?). by eexists _, _.
Qed.

(** Every operation that may be done ends, and keeps the invariant. *)
Lemma op_keeps b o :
  broker_inv b → enabled b o → ∃ b' ok, run_op o b = inl (b', ok) ∧ (ok = true → broker_inv b').
Proof.
  intros Hinv. destruct o as [now ct r|now i|now i ctx|i|i|now i|now i|now i ctx]; cbn [enabled run_op].
  - intros Hr. destruct (register_spec pack fresh b now ct r Hinv Hr) as (b' & [(E & Hinv' & _)|(E & _)]);
      rewrite (bind_run _ _ _ _ _ E); eexists _, _; (split; [done|]); [done|]. by rewrite Z.eqb_refl.
  - intros [[c Hi] Hf]. destruct (unregister_spec pack fresh b now i c Hinv Hi Hf) as (b' & E & Hinv' & _).
    rewrite (bind_run _ _ _ _ _ E). eexists _, _. by split.
  - intros ([c Hi] & Hreq & Hlog). destruct (role c) as [r|] eqn:Er.
    + destruct (update_changed b i c (set_activity now)) as [E (Hinv1 & Hi1 & _)]; [done..|].
      assert (∃ r', access_msg unpack ck alloc pack fresh random login_ now i ctx b =
        inl (put b i (Live (set_activity now c)), r')) as [r' E'].
      { eexists. unfold access_msg. rewrite (bind_run _ _ _ _ _ E).
        rewrite (bind_run _ _ _ (put b i (Live (set_activity now c))) (set_activity now c)) by (unfold client_at; by rewrite Hi1).
        change (role (set_activity now c)) with (role c). rewrite Er. done. }
      rewrite (bind_run _ _ _ _ _ E'). eexists _, _. by split.
    + destruct (access_login_spec pack fresh unpack ck alloc random login_ b now i c ctx) as (b' & ctx' & E & Ho); [done..|].
      rewrite (bind_run _ _ _ _ _ E). eexists _, _. split; [done|]. intros _.
      destruct (is_type (hmeta ctx) RPCMSG_T_REQUEST).
      * by destruct Ho as (? & ? & ? & [? _] & _).
      * subst b'. by apply (update_changed b i c (set_activity now)).
  - intros [[c Hi] Hf]. destruct (access_reset_spec pack fresh b i c Hinv Hi Hf) as (b' & c' & E & [? _] & _).
    rewrite (bind_run _ _ _ _ _ E). eexists _, _. by split.
  - intros [c Hi]. destruct (rpc_reset_spec b i c Hinv Hi) as (b' & E & [? _] & _).
    rewrite (bind_run _ _ _ _ _ E). eexists _, _. by split.
  - intros [c Hi]. destruct (access_idle_run b now i c Hinv Hi) as (b' & t & E & ?).
    rewrite (bind_run _ _ _ _ _ E). eexists _, _. by split.
  - intros [c Hi]. destruct (rpc_idle_spec b now i c Hinv Hi) as (b' & t & E & [? _] & _).
    rewrite (bind_run _ _ _ _ _ E). eexists _, _. by split.
  - intros (c & Hi & Hsiz & [Hlen Hlen'] & Hok). rewrite Nat.add_0_r in Hlen'.
    destruct (message_keeps unpack ck pack fresh gperf_broker gperf_current_client b now i c ctx) as (b' & x & E & ?);
      [done..|lia|lia|done|]. rewrite (bind_run _ _ _ _ _ E). eexists _, _. by split.
Qed.

Lemma reachable_inv b : reachable b → broker_inv b.
Proof.
  induction 1 as [name nolock|b o b' _ Hinv He E]; [apply new_inv|].
  destruct (op_keeps b o Hinv He) as (b1 & ok & E' & Hok). rewrite E in E'. injection E' as <- <-. by apply Hok.
Qed.
End steps.

(** ** A broker with two clients *)

Definition demo_role (point : option cstr) (l : list cstr) : rpcbroker_role :=
  Role (Some (str "demo")) (λ _ _, RPCACCESS_WRITE) point l false.

(** The client [0] is subscribed and the client [1] is mounted. *)
Definition demo_op (n : Z) : op (U := rfile) :=
  Register (1000 + n) true (Some (if n =? 0 then demo_role None [str "dev/**:*:*"] else demo_role (Some (str "dev")) [])).

Definition demo_run (o : op (U := rfile)) : M (rpcbroker ofile) bool :=
  run_op cp_unpack_chainpack_func (Chunks (λ _, 4064) (λ _, 4064)) (λ _, true) cp_pack_chainpack_func new_file
    [1; 2; 3; 4; 5] (λ _ _, LoginFailed None) (assoc api_broker_method_table) (assoc api_current_client_method_table) o.

Definition result {S A} (m : M S A) (s : S) : S := match m s with inl (s, _) => s | inr _ => s end.

Definition demo_start : rpcbroker ofile := rpcbroker_new (Some (str "b")) false.
Definition demo_one : rpcbroker ofile := result (demo_run (demo_op 0)) demo_start.
Definition demo : rpcbroker ofile := result (demo_run (demo_op 1)) demo_one.

Lemma demo_reachable :
  reachable cp_unpack_chainpack_func (Chunks (λ _, 4064) (λ _, 4064)) (λ _, true) cp_pack_chainpack_func new_file
    [1; 2; 3; 4; 5] (λ _ _, LoginFailed None) (assoc api_broker_method_table) (assoc api_current_client_method_table) demo.
Proof.
  apply (reachable_step _ _ _ _ _ _ _ _ _ demo_one (demo_op 1)); [apply (reachable_step _ _ _ _ _ _ _ _ _ demo_start (demo_op 0))|..].
  - constructor.
  - intros r [= <-]. split; [split; [by_evaluation|]|by vm_compute]. constructor; [|constructor].
    apply plain_safe; by_evaluation.
  - by vm_compute.
  - intros r [= <-]. split; [split; [by_evaluation|constructor]|by vm_compute].
  - by vm_compute.
Qed.

Lemma demo_mounts : mounts demo = [Mount (str "dev") 1].
Proof. by vm_compute. Qed.

Lemma demo_inv : broker_inv demo.
Proof. exact (reachable_inv _ _ _ _ _ _ _ _ _ _ demo_reachable). Qed.

(** ** Properties *)


(** A request as the handler of a client has it. *)
Definition demo_request (m : rpcmsg_meta) : rpchandler_msg rfile :=
  Msg m (Some (RFile [] false)) (Item CPITEM_CONTAINER_END (AsError CPERR_NONE) None 0) (Obstack [] 4064) true.


(** C6: the first stage of a client keeps it within its rights.  A client with a role
    passes, and its requests with no more than the access level the role gives for
    the path and method, and no more than they came with.  A message of a client
    that did not log in goes no further; if it is a request it is answered once,
    provided it is valid, and unless the callback accepted a login, nothing that
    concerns other clients has changed and nothing was sent to them. *)
Theorem access_stage_guards {P U} unpack ck alloc (pack : P → cpitem → P * bool) fresh random login_ b now i c
    (ctx : rpchandler_msg U) :
  broker_inv b → slot_at b i = Some (Live c) →
  (is_type (hmeta ctx) RPCMSG_T_REQUEST = true → is_Some (method (hmeta ctx)) ∧ is_Some (hunpack ctx)) →
  (∀ l n r, login_ l n = LoginOk r → role_ok r ∧ fits b (length (subscriptions r))) →
  let b1 := put b i (Live (set_activity now c)) in
  ∃ b' ctx' res, access_msg unpack ck alloc pack fresh random login_ now i ctx b = inl (b', (ctx', res)) ∧
    match role c with
    | Some r =>
        res = RPCHANDLER_MSG_SKIP ∧ b' = b1 ∧ maccess (hmeta ctx') ≤ maccess (hmeta ctx) ∧
        with_access (maccess (hmeta ctx)) (hmeta ctx') = hmeta ctx ∧
        (answers ctx = true → maccess (hmeta ctx') ≤ access r (path (hmeta ctx)) (method (hmeta ctx)))
    | None =>
        res = RPCHANDLER_MSG_DONE ∧
        if is_type (hmeta ctx) RPCMSG_T_REQUEST then login_outcome pack fresh login_ b1 i (set_activity now c) ctx b' else b' = b1
    end.
Proof.
  intros Hinv Hi Hreq Hlog b1. destruct (role c) as [r|] eqn:Er.
  - destruct (update_changed b i c (set_activity now)) as [E (Hinv1 & Hi1 & _)]; [done..|].
    unfold access_msg. rewrite (bind_run _ _ _ _ _ E). fold b1 in Hi1 |- *.
    rewrite (bind_run _ _ b1 b1 (set_activity now c)) by (unfold client_at; by rewrite Hi1).
    change (role (set_activity now c)) with (role c). rewrite Er. eexists _, _, _. split; [done|].
    assert (answers ctx = is_type (hmeta ctx) RPCMSG_T_REQUEST || is_type (hmeta ctx) RPCMSG_T_REQUEST_ABORT) as -> by done.
    destruct (_ || _); simpl; [|by split_and!; [done|done|lia|destruct (hmeta ctx)|]].
    destruct (Z.ltb_spec (maccess (hmeta ctx)) (access r (path (hmeta ctx)) (method (hmeta ctx))));
      (split_and!; [done|done|lia|by destruct (hmeta ctx)|lia]).
  - destruct (access_login_spec pack fresh unpack ck alloc random login_ b now i c ctx) as (b' & ctx' & E & Ho); [done..|].
    exists b', ctx', RPCHANDLER_MSG_DONE. by split_and!.
Qed.

Lemma access_stage_guards_witness :
  let m := request_meta (Some (str "dev/x")) (str "set") None 7 in
  maccess m = RPCACCESS_ADMIN ∧
  ∃ b' ctx', access_msg cp_unpack_chainpack_func (Chunks (λ _, 4064) (λ _, 4064)) (λ _, true) cp_pack_chainpack_func new_file
      [] (λ _ _, LoginFailed None) 1500 0 (demo_request m) demo = inl (b', (ctx', RPCHANDLER_MSG_SKIP)) ∧
    maccess (hmeta ctx') ≤ RPCACCESS_WRITE.
Proof.
  intros m. split; [done|].
  destruct (access_stage_guards cp_unpack_chainpack_func (Chunks (λ _, 4064) (λ _, 4064)) (λ _, true) cp_pack_chainpack_func
    new_file [] (λ _ _, LoginFailed None) demo 1500 0
    (client_new 0 1000 true (Some (demo_role None [str "dev/**:*:*"]))) (demo_request m)) as (b' & ctx' & res & E & H).
  - exact demo_inv.
  - by vm_compute.
  - intros _. by split; eexists.
  - done.
  - destruct H as (-> & _ & _ & _ & Ha). exists b', ctx'. split; [exact E|]. by apply Ha.
Defined.

(** C4: a request on a path at or below a mount point gets to the client that is
    mounted there: it receives the path below the mount point, the method, the access
    level and the identifier, the number of the caller behind those of the callers
    before, and the parameter byte for byte.  What answers it, with the same callers,
    gets back to the caller: it receives the identifier of its request, the callers
    before it, and the result or error byte for byte.  The path is none of the
    broker's own nodes, no mount point is below another one, and mount points that
    extend another one go on with a character above the slash. *)
Theorem request_routed ck gperf_broker gperf_current_client lim b now i c (ctx : rpchandler_msg rfile) v p mnt :
  let request := rpc_msg cp_unpack_chainpack_func ck cp_pack_chainpack_func new_file gperf_broker gperf_current_client in
  let m := forwarded_request (hmeta ctx) (relative p (mpath mnt)) c (bname b) in
  broker_inv b → slot_at b i = Some (Live c) → siz b ≤ 2 ^ 31 → mounts_wf (mounts b) → mounts_apart (mounts b) →
  mtype (hmeta ctx) = RPCMSG_T_REQUEST → path (hmeta ctx) = Some p → wf_cstr p →
  p ≠ str ".broker" → p ≠ str ".broker/currentClient" → outside p →
  mnt ∈ mounts b → below p (mpath mnt) →
  hvalid ctx = true → carries ctx v → meta_ok lim m →
  (∃ ctx' q, request now i ctx b = inl (emits [Sent (mcid mnt) q] b, (ctx', RPCHANDLER_MSG_DONE)) ∧
    arrives lim q (Meta RPCMSG_T_REQUEST (request_id (hmeta ctx)) (maccess (hmeta ctx)) None
      (Some (relative p (mpath mnt))) (method (hmeta ctx))
      None false (user_id m) false 0 (cids (hmeta ctx) ++ [i]) []) v) ∧
  ∀ b2 c2 (ctx2 : rpchandler_msg rfile) v2, broker_inv b2 → slot_at b2 i = Some (Live c2) → siz b2 ≤ 2 ^ 31 →
    mtype (hmeta ctx2) = RPCMSG_T_RESPONSE ∨ mtype (hmeta ctx2) = RPCMSG_T_ERROR ∧ is_Some v2 →
    request_id (hmeta ctx2) = request_id (hmeta ctx) → cids (hmeta ctx2) = cids (hmeta ctx) ++ [i] →
    hvalid ctx2 = true → carries ctx2 v2 → meta_ok lim (with_cids (cids (hmeta ctx)) (hmeta ctx2)) →
    ∃ ctx' q, request now (mcid mnt) ctx2 b2 = inl (emits [Sent i q] b2, (ctx', RPCHANDLER_MSG_DONE)) ∧
      arrives lim q (response_meta (mtype (hmeta ctx2)) (request_id (hmeta ctx)) (cids (hmeta ctx))) v2.
Proof.
  intros request m Hinv Hi Hsiz Hwf Hap Ht Hp Hwp Hb Hcc Ho Hmnt Hbelow Hval Hc Hm. split.
  - destruct (request_forwarded ck gperf_broker gperf_current_client lim b now i (mcid mnt) c ctx v p (relative p (mpath mnt)))
      as (ctx' & q & E & Ha); [done|done|done|apply Hwf|done|done|done|by intros []|done|done|by apply mounted_client_at|done..|].
    exists ctx', q. split; [done|]. destruct Hinv as (Hcl & _).
    unfold forwarded, forwarded_request in Ha. cbn -[m] in Ha. by rewrite Ht, (live_cid b i c Hcl Hi) in Ha.
  - intros b2 c2 ctx2 v2 Hinv2 Hi2 Hsiz2 Ht2 <- Hcids Hval2 Hc2 Hm2. by eapply response_returned.
Qed.

Lemma request_routed_witness :
  let m := request_meta (Some (str "dev/x")) (str "get") None 7 in
  ∃ ctx' q, rpc_msg cp_unpack_chainpack_func (Chunks (λ _, 4064) (λ _, 4064)) cp_pack_chainpack_func new_file
      (assoc api_broker_method_table) (assoc api_current_client_method_table) 1500 0 (demo_request m) demo =
    inl (emits [Sent 1 q] demo, (ctx', RPCHANDLER_MSG_DONE)) ∧
    arrives None q (Meta RPCMSG_T_REQUEST 7 RPCACCESS_ADMIN None (Some (str "x")) (Some (str "get"))
      None false None false 0 [0] []) None.
Proof.
  intros m. destruct (request_routed (Chunks (λ _, 4064) (λ _, 4064)) (assoc api_broker_method_table)
    (assoc api_current_client_method_table) None demo 1500 0 (client_new 0 1000 true (Some (demo_role None [str "dev/**:*:*"])))
    (demo_request m) None (str "dev/x") (Mount (str "dev") 1)) as [H _].
  - exact demo_inv.
  - by vm_compute.
  - by vm_compute.
  - rewrite demo_mounts. split_and!; [split; [by_evaluation|]; repeat constructor|done|by repeat constructor|].
    by intros ? ? ->%list_elem_of_singleton ->%list_elem_of_singleton.
  - rewrite demo_mounts. intros ? ? ->%list_elem_of_singleton ->%list_elem_of_singleton c r E. simplify_eq/=.
  - done.
  - done.
  - by_evaluation.
  - done.
  - done.
  - by vm_compute.
  - rewrite demo_mounts. by left.
  - right. by exists (str "x").
  - done.
  - done.
  - split_and!; try by_evaluation; done.
  - exact H.
Defined.

(** C5: a signal of a client with a mount point gets to exactly the clients that
    subscribed to it, as it is seen from outside of the mount point, and whose role
    gives them the access level of the signal; each gets it once, all of them the
    same message, with the path below the mount point and the value byte for byte.
    The lock is still held when the stage is done. *)
Theorem signal_delivered ck gperf_broker gperf_current_client lim b now i c r point (ctx : rpchandler_msg rfile) v so :
  let p := signal_path point (path (hmeta ctx)) in
  let m := with_path (Some p) (hmeta ctx) in
  broker_inv b → slot_at b i = Some (Live c) → role c = Some r → mount_point r = Some point →
  mtype (hmeta ctx) = RPCMSG_T_SIGNAL → source (hmeta ctx) = Some so → hvalid ctx = true → carries ctx v → meta_ok lim m →
  ∃ ctx' q l, rpc_msg cp_unpack_chainpack_func ck cp_pack_chainpack_func new_file gperf_broker gperf_current_client now i ctx b =
      inl (emits ((λ j, Sent j q) <$> l) (set_locked (negb (nolock b)) b), (ctx', RPCHANDLER_MSG_SKIP)) ∧
    arrives lim q (Meta RPCMSG_T_SIGNAL 0 (maccess (hmeta ctx)) None (Some p) (method (hmeta ctx)) (Some so)
      (repeat (hmeta ctx)) (user_id (hmeta ctx)) false 0 [] []) v ∧ NoDup l ∧
    ∀ j, j ∈ l ↔
      (∃ ri, wants (subs b) ri j ∧ rpcri_match ri p so (method (hmeta ctx)) = Some true) ∧
      ∃ cj rj, slot_at b j = Some (Live cj) ∧ role cj = Some rj ∧ maccess (hmeta ctx) ≤ access rj (Some p) (Some so).
Proof.
  intros p m Hinv Hi Er Ep Ht Hso Hval Hc Hm.
  destruct (signal_forwarded ck gperf_broker gperf_current_client lim b now i c r point ctx v so) as (ctx' & q & l & E & Ha & Hnd & Hl);
    [done..|]. exists ctx', q, l. split; [exact E|]. split; [|done].
  unfold forwarded, m in Ha. simpl in Ha. by rewrite Ht, Hso in Ha.
Qed.

Lemma signal_delivered_witness :
  let m := signal_meta (Some (str "x")) (str "get") (str "chng") None RPCACCESS_READ false in
  ∃ ctx' q l, rpc_msg cp_unpack_chainpack_func (Chunks (λ _, 4064) (λ _, 4064)) cp_pack_chainpack_func new_file
      (assoc api_broker_method_table) (assoc api_current_client_method_table) 1500 1 (demo_request m) demo =
    inl (emits ((λ j, Sent j q) <$> l) (set_locked true demo), (ctx', RPCHANDLER_MSG_SKIP)) ∧ 0 ∈ l ∧
    arrives None q (signal_meta (Some (str "dev/x")) (str "get") (str "chng") None RPCACCESS_READ false) None.
Proof.
  intros m. destruct (signal_delivered (Chunks (λ _, 4064) (λ _, 4064)) (assoc api_broker_method_table)
    (assoc api_current_client_method_table) None demo 1500 1 (client_new 1 1001 true (Some (demo_role (Some (str "dev")) [])))
    (demo_role (Some (str "dev")) []) (str "dev") (demo_request m) None (str "get")) as (ctx' & q & l & E & Ha & _ & Hl).
  - exact demo_inv.
  - by vm_compute.
  - done.
  - done.
  - done.
  - done.
  - done.
  - done.
  - split_and!; try by_evaluation; done.
  - exists ctx', q, l. split; [exact E|]. split; [|exact Ha]. apply Hl. split.
    + exists (str "dev/**:*:*"). split; [|by vm_compute]. exists (Sub (str "dev/**:*:*") (Some [1])).
      split_and!; [apply (list_elem_of_lookup_2 _ 0%nat); by vm_compute|done|by_evaluation].
    + exists (client_new 0 1000 true (Some (demo_role None [str "dev/**:*:*"]))), (demo_role None [str "dev/**:*:*"]).
      split_and!; by vm_compute.
Defined.

(** ** Faults *)

Definition demo_msg (now i : Z) (m : rpcmsg_meta) : M (rpcbroker ofile) (rpchandler_msg rfile * rpchandler_msg_res) :=
  rpc_msg cp_unpack_chainpack_func (Chunks (λ _, 4064) (λ _, 4064)) cp_pack_chainpack_func new_file
    (assoc api_broker_method_table) (assoc api_current_client_method_table) now i (demo_request m).

Definition fault_of {S A} (m : M S A) (s : S) : option fault := match m s with inr f => Some f | inl _ => None end.

(** After a signal every operation waits for the lock. *)
Example signal_then_deadlock :
  let m := signal_meta (Some (str "x")) (str "get") (str "chng") None RPCACCESS_READ false in
  fault_of (demo_msg 1500 1 m;; rpc_idle 1501 0) demo = Some Deadlock.
Proof. by vm_compute. Qed.

(** A client whose mount point is taken is refused with the lock held. *)
Example refused_then_deadlock :
  fault_of (demo_run (Register 1002 true (Some (demo_role (Some (str "dev/sub")) []))) ;; demo_run (Unregister 1003 0)) demo =
  Some Deadlock.
Proof. by vm_compute. Qed.

(** Without locks the client that was refused is still pointed to, and is read. *)
Example refused_then_read :
  let start := rpcbroker_new (Some (str "b")) true in
  fault_of (demo_run (demo_op 0);; demo_run (demo_op 1);;
    demo_run (Register 1002 true (Some (demo_role (Some (str "dev/sub")) [])));;
    demo_msg 1500 0 (request_meta (Some (str ".broker/client/2/x")) (str "get") None 7)) start = Some ReadOutside.
Proof. by vm_compute. Qed.

(** A signal of the application without a value locks twice. *)
Example void_signal_deadlock :
  fault_of (rpcbroker_send_signal_void cp_pack_chainpack_func new_file (str "dev/x") (str "get") (str "chng") None
    RPCACCESS_READ false) demo = Some Deadlock.
Proof. by vm_compute. Qed.

(** The caller of a response is checked as an [int] and used as it is. *)
Example response_out_of_bounds :
  fault_of (demo_msg 1500 1 (response_meta RPCMSG_T_RESPONSE 7 [2 ^ 32])) demo = Some ReadOutside.
Proof.
  assert (client_at (2 ^ 32) (set_locked true demo) = inr ReadOutside) as E.
  { unfold client_at. assert (slot_at (set_locked true demo) (2 ^ 32) = None) as ->; [|done].
    unfold slot_at. rewrite lookup_ge_None_2; [done|]. replace (length (clients _)) with 4%nat by (by vm_compute). lia. }
  unfold fault_of, demo_msg, rpc_msg. cbn [demo_request hmeta mtype response_meta]. unfold rpc_msg_response.
  rewrite (bind_run _ _ _ _ _ (lock_run demo eq_refl)). change (negb (nolock demo)) with true.
  rewrite (bind_run _ _ _ _ _ eq_refl). cbn [demo_request hmeta cids response_meta last].
  replace (cid_valid _ _) with true by (by vm_compute). cbn [negb]. unfold propagate_msg.
  unfold mbind, eff_bind. by rewrite E.
Qed.

Definition answered_request : rpchandler_msg rfile :=
  (rpchandler_msg_valid (demo_request (request_meta None (str "subscribe") None 7))).1.

(** A time for a subscription that has none. *)
Example subscribe_without_time :
  fault_of (api_subscribe cp_pack_chainpack_func new_file 1500 0 answered_request (str "dev/**:*:*", 60)) demo = Some Assertion.
Proof. by vm_compute. Qed.

(** The response to [unsubscribe] ends three containers and starts two. *)
Example unsubscribe_ends_twice :
  match events (result (api_unsubscribe cp_pack_chainpack_func new_file 0 answered_request (str "x")) demo) with
  | [Sent _ (Some w)] => drop (length (wf_out w) - 3) (wf_out w) = [CPS_FALSE; CPS_TERM; CPS_TERM]
  | _ => False
  end.
Proof. by vm_compute. Qed.

(** In the first ten minutes of the clock no number was used long ago enough, so the
    arrays double with every client. *)
Example registered_early :
  let register := rpcbroker_client_register cp_pack_chainpack_func new_file 100 false None in
  match (i ← register; j ← register; k ← register; mret [i; j; k]) demo_start with
  | inl (b, l) => l = [4; 8; 16] ∧ length (clients b) = 32%nat
  | inr _ => False
  end.
Proof. by vm_compute. Qed.

(** A subscription for a month: the time until it ends is negative. *)
Example idle_overflow :
  match (api_subscribe cp_pack_chainpack_func new_file 1500 0 answered_request (str "x:*:*", 2592000);; rpc_idle 1500 0) demo with
  | inl (_, t) => t < 0
  | inr _ => False
  end.
Proof. by vm_compute. Qed.
