(* ===== verification/HandlerClient.v ===== *)
(** * The stages of a client ([libshvrpc/rpchandler/login.c],
      [libshvrpc/rpchandler/responses.c], [libshvrpc/rpchandler/signals.c],
      [libshvrpc/rpccall.c], [libshvrpc/rpcmsg_request_id.c])

    A client logs in to the broker, calls methods and waits for what they respond, and
    subscribes to signals.  The stages keep their state in a part of the state of the
    handler they belong to. *)

From S2P Require Import Prelude Effects Stdio CpItem CpUnpack CpPack CpObstack CpLoops.
From S2P Require Import Rpcri Rpcaccess Strset RpcError RpcDir RpcMsg RpcHead RpcLogin Handler.

(** ** Request identifiers *)

(** One round over the counter, a [uint8_t]: the exchange compares it with the value
    from before it was incremented. *)
Definition request_id_step (n : Z) : Z + Z * Z :=
  let res := n in
  let n := u8 (n + 1) in
  if res <? 64 then inr (n, res) else inl (if n =? res then 4 else n).

Definition request_id_start : Z := 4.

(** The counter and the identifier. *)
Definition rpcmsg_request_id (n : Z) : Z * Z :=
  match cloop request_id_step 64 n with inr r => r | inl n => (n, 0) end.

(** ** Login *)

Definition HELLO_RID : Z := 1.
Definition LOGIN_RID : Z := 2.
Definition HELLO_TIMEOUT : Z := 1.
Definition LOGIN_TIMEOUT : Z := 5.
Definition SHV_NONCE_MAXLEN : Z := 32.
Definition RPC_DEFAULT_IDLE_TIME : Z := 180.

(** A string in allocated memory: [NULL], there, or already freed. *)
Inductive text_ptr := TNull | TText (s : cstr) | TFreed.

(** [lnonce] is the array with the nonce; the times are in seconds. *)
Record rpchandler_login : Type := HandlerLogin {
  opts : rpclogin;
  logged : bool;
  lerrnum : Z;
  lerrmsg : text_ptr;
  last_request : Z;
  lnonce : list Z }.

Definition set_logged (v : bool) (l : rpchandler_login) : rpchandler_login :=
  HandlerLogin (opts l) v (lerrnum l) (lerrmsg l) (last_request l) (lnonce l).
Definition set_error (n : Z) (m : text_ptr) (l : rpchandler_login) : rpchandler_login :=
  HandlerLogin (opts l) (logged l) n m (last_request l) (lnonce l).
Definition set_last_request (v : Z) (l : rpchandler_login) : rpchandler_login :=
  HandlerLogin (opts l) (logged l) (lerrnum l) (lerrmsg l) v (lnonce l).
Definition set_lnonce (v : list Z) (l : rpchandler_login) : rpchandler_login :=
  HandlerLogin (opts l) (logged l) (lerrnum l) (lerrmsg l) (last_request l) v.

(** [nonce[0] = '\0'] *)
Definition no_nonce (l : rpchandler_login) : rpchandler_login := set_lnonce (<[0%nat := 0]> (lnonce l)) l.

(** What is not initialized is zero here. *)
Definition rpchandler_login_new (login : rpclogin) : rpchandler_login :=
  HandlerLogin login false RPCERR_NO_ERROR TNull 0 (replicate (Z.to_nat (SHV_NONCE_MAXLEN + 1)) 0).

Definition rpchandler_login_status (l : rpchandler_login) : bool * Z * text_ptr :=
  (logged l && (lerrnum l =? RPCERR_NO_ERROR), lerrnum l, lerrmsg l).

Section login.
Context {S P U : Type} (unpack : U → cpitem → U * cpitem) (alloc : Z → bool) (sha1 : list Z → list Z).
Context (pack : P → cpitem → P * bool) (fresh : P) (sendmsg : P → M S bool).
Context (login_of : S → rpchandler_login) (set_login : rpchandler_login → S → S).
Notation M := (M S).
Notation msg := (rpchandler_msg U).

Definition change_login (f : rpchandler_login → rpchandler_login) : M unit :=
  modify (λ s, set_login (f (login_of s)) s).

(** The loop over the result of hello: the array with the nonce. *)
Definition nonce_key (key : cstr) (u : U) (it : cpitem) (nonce : list Z) : U * cpitem * (list Z + list Z) :=
  if strcmp (str "nonce") key =? 0 then
    let '(u, it, _) := cp_unpack_strncpy unpack u it (Some nonce) 32 in (u, it, inr (default nonce (buf it)))
  else let '(u, it) := cp_unpack_skip unpack u it in (u, it, inl nonce).

Definition read_nonce (u : U) (it : cpitem) (nonce : list Z) : U * cpitem * list Z :=
  let '(u, it, ty) := cp_unpack_type unpack u it in
  if bool_decide (ty = CPITEM_MAP) then
    let '(u, it, r) := for_cp_unpack_map unpack 5 nonce_key u it nonce in
    (u, it, match r with inl n | inr n => n end)
  else (u, it, nonce).

Definition hello_response (ctx : msg) : M (msg * rpchandler_msg_res) :=
  l ← gets login_of;
  '(ctx, nonce) ← reading (λ u it, read_nonce u it (lnonce l)) ctx;
  let '(ctx, valid) := rpchandler_msg_valid ctx in
  change_login (λ l, let l := set_lnonce nonce l in if valid : bool then set_last_request 0 l else no_nonce l);;
  mret (ctx, RPCHANDLER_MSG_DONE).

(** [free(handler_login->errmsg)] *)
Definition free_errmsg : M unit :=
  l ← gets login_of;
  match lerrmsg l with
  | TNull => mret tt
  | TText _ => change_login (set_error (lerrnum l) TFreed)
  | TFreed => fails InvalidFree
  end.

Definition login_error (ctx : msg) : M (msg * rpchandler_msg_res) :=
  '(ctx, (_, errnum, errmsg)) ← reading (rpcerror_unpack unpack alloc true) ctx;
  let '(ctx, valid) := rpchandler_msg_valid ctx in
  if valid : bool then
    change_login (set_error errnum (match errmsg with Some s => TText s | None => TNull end));;
    mret (ctx, RPCHANDLER_MSG_STOP)
  else
    free_errmsg;;
    mret (ctx, RPCHANDLER_MSG_DONE).

Definition login_msg (ctx : msg) : M (msg * rpchandler_msg_res) :=
  l ← gets login_of;
  let rid := request_id (hmeta ctx) in
  if logged l then mret (ctx, RPCHANDLER_MSG_SKIP)
  else if is_type (hmeta ctx) RPCMSG_T_RESPONSE then
    if rid =? HELLO_RID then hello_response ctx
    else if rid =? LOGIN_RID then
      let '(ctx, valid) := rpchandler_msg_valid ctx in
      (if valid : bool then change_login (set_logged true) else mret tt);;
      mret (ctx, RPCHANDLER_MSG_DONE)
    else mret (ctx, RPCHANDLER_MSG_DONE)
  else if is_type (hmeta ctx) RPCMSG_T_ERROR && ((rid =? HELLO_RID) || (rid =? LOGIN_RID)) then login_error ctx
  else mret (ctx, RPCHANDLER_MSG_DONE).

Definition ping (now : Z) (ctx : idle_ctx) : M (idle_ctx * Z) :=
  let res := i32 (RPC_DEFAULT_IDLE_TIME / 2 - now + last_send ctx) in
  if res <=? 0 then
    match rpchandler_idle_msg_new fresh ctx with
    | None => mret (ctx, 0)
    | Some p =>
        '(ctx, _) ← rpchandler_idle_msg_send sendmsg ctx
          (rpcmsg_pack_request_void pack (Some (str ".app")) (str "ping") None 3 p).1;
        mret (ctx, RPC_DEFAULT_IDLE_TIME / 2 * 1000)
    end
  else mret (ctx, i32 (res * 1000)).

Definition hello_request : P → P * bool := rpcmsg_pack_request_void pack (Some []) (str "hello") None HELLO_RID.

Definition login_request (l : rpchandler_login) : P → P * bool :=
  rpcmsg_pack_request pack (Some []) (str "login") None LOGIN_RID >>>
  rpclogin_pack sha1 pack (opts l) (until_nul (lnonce l)) false >>>
  cp_pack_container_end pack.

Definition login_idle (now : Z) (ctx : idle_ctx) : M (idle_ctx * Z) :=
  l ← gets login_of;
  if logged l then ping now ctx
  else if negb (lerrnum l =? RPCERR_NO_ERROR) then mret (ctx, RPCHANDLER_IDLE_STOP)
  else
    let has_nonce := negb (cget (lnonce l) 0 =? 0) in
    let diff := i32 ((if has_nonce then LOGIN_TIMEOUT else HELLO_TIMEOUT) - (now - last_request l)) in
    if diff >? 0 then mret (ctx, RPCHANDLER_IDLE_LAST (diff * 1000))
    else
      match rpchandler_idle_msg_new fresh ctx with
      | None => mret (ctx, RPCHANDLER_IDLE_LAST 0)
      | Some p =>
          change_login (set_last_request now);;
          if has_nonce then
            '(ctx, _) ← rpchandler_idle_msg_send sendmsg ctx (login_request l p).1;
            mret (ctx, LOGIN_TIMEOUT * 1000)
          else
            '(ctx, _) ← rpchandler_idle_msg_send sendmsg ctx (hello_request p).1;
            mret (ctx, HELLO_TIMEOUT * 1000)
      end.

Definition login_reset : M unit :=
  change_login (λ l, set_last_request 0 (set_error RPCERR_NO_ERROR TNull (no_nonce (set_logged false l)))).

Definition rpchandler_login_stage (now : Z) : rpchandler_funcs S P U :=
  Funcs (Some login_msg) None None (Some (login_idle now)) (Some login_reset).
End login.

(** ** Expected responses

    A response that is expected is known by its address; what is called with it is
    given by [callback] for the function and its cookie, [C].  Handlers of messages
    run with the lock of the responses held, which is not part of the state. *)

Record rpcresponse (C : Type) : Type := Response { raddr : Z; rrid : Z; rcookie : C }.
Arguments Response {C} _ _ _.
Arguments raddr {C} _.
Arguments rrid {C} _.
Arguments rcookie {C} _.

Section responses.
Context {S U C : Type} (callback : C → rpchandler_msg U → M S (rpchandler_msg U * bool)).
Context (resp : S → list (rpcresponse C)) (set_resp : list (rpcresponse C) → S → S).
Notation M := (M S).
Notation msg := (rpchandler_msg U).

(** [*pr = r->next] for the response with the address. *)
Definition unlink (addr : Z) (l : list (rpcresponse C)) : list (rpcresponse C) :=
  match list_find (λ r, raddr r = addr) l with Some (i, _) => delete i l | None => l end.

Definition change_resp (f : list (rpcresponse C) → list (rpcresponse C)) : M unit :=
  modify (λ s, set_resp (f (resp s)) s).

Definition responses_msg (ctx : msg) : M (msg * rpchandler_msg_res) :=
  if is_type (hmeta ctx) RPCMSG_T_RESPONSE || is_type (hmeta ctx) RPCMSG_T_ERROR then
    l ← gets resp;
    match list_find (λ r, rrid r = request_id (hmeta ctx)) l with
    | Some (_, r) =>
        '(ctx, taken) ← callback (rcookie r) ctx;
        (if taken : bool then change_resp (unlink (raddr r)) else mret tt);;
        mret (ctx, RPCHANDLER_MSG_DONE)
    | None => mret (ctx, RPCHANDLER_MSG_SKIP)
    end
  else mret (ctx, RPCHANDLER_MSG_SKIP).

Definition rpchandler_responses_stage {P} : rpchandler_funcs S P U := Funcs (Some responses_msg) None None None None.

(** [addr] is what [malloc] returns. *)
Definition rpcresponse_expect (addr rid : Z) (c : C) : M unit := change_resp (λ l, l ++ [Response addr rid c]).

(** Whether the response is still expected: its owner is not [NULL]. *)
Definition expected (addr : Z) : M bool := gets (λ s, bool_decide (addr ∈ raddr <$> resp s)).

Definition rpcresponse_discard (addr : Z) : M unit :=
  owner ← expected addr;
  if owner : bool then change_resp (unlink addr) else mret tt.

(** Other threads hand over the messages that come in until the time is up; the wait
    ends with the one that is taken. *)
Fixpoint wait_for (addr : Z) (received : list msg) : M bool :=
  owner ← expected addr;
  if negb owner then mret true
  else
    match received with
    | [] => mret false
    | ctx :: received => responses_msg ctx;; wait_for addr received
    end.

(** [missed] come between the look at the owner and the wait: nobody is woken up for
    them. *)
Definition rpcresponse_waitfor (addr : Z) (missed received : list msg) : M bool :=
  owner ← expected addr;
  if negb owner then mret true
  else
    each (λ ctx, responses_msg ctx;; mret tt) missed;;
    owner ← expected addr;
    if negb owner then each (λ ctx, responses_msg ctx;; mret tt) received;; mret false
    else wait_for addr received.

(** A request that expects a response. *)
Definition rpcresponse_send_request_void {P} (pack : P → cpitem → P * bool) (fresh : P) (sendmsg : P → M bool)
    (next_id : M Z) (addr : Z) (path : option cstr) (method : cstr) (uid : option cstr) (c : C) : M bool :=
  rid ← next_id;
  let '(p, ok) := rpcmsg_pack_request_void pack path method uid rid fresh in
  if negb ok then mret false
  else
    rpcresponse_expect addr rid c;;
    ok ← sendmsg p;
    if ok : bool then mret true
    else rpcresponse_discard addr;; mret false.
End responses.

(** ** Calls

    The words of the union in [rpccall_ctx]: the packer, the unpacker and the number
    of the error share the first, the item of a result and the text of an error the
    second. *)
Inductive call_word := WNull | WText (s : cstr) | WItem.

Record rpccall_ctx : Type := CallCtx { crid : Z; cerrnum : option Z; cerrmsg : call_word }.

Inductive rpccall_stage := CALL_S_REQUEST | CALL_S_RESULT | CALL_S_DONE | CALL_S_COMERR | CALL_S_TIMERR.

(** The function of the caller by stages: packing a request with the identifier, reading
    a result, and the end of the call. *)
Record rpccall_func (S P U : Type) : Type := CallFunc {
  on_request : Z → P → M S (P * Z);
  on_result : U → cpitem → M S (U * cpitem);
  on_end : rpccall_stage → rpccall_ctx → M S Z }.
Arguments CallFunc {S P U} _ _ _.
Arguments on_request {S P U} _.
Arguments on_result {S P U} _.
Arguments on_end {S P U} _.

Section call.
Context {S P U C : Type} (unpack : U → cpitem → U * cpitem) (alloc : Z → bool) (fresh : P) (sendmsg : P → M S bool).
Context (other : C → rpchandler_msg U → M S (rpchandler_msg U * bool)).
Context (resp : S → list (rpcresponse (option C))) (set_resp : list (rpcresponse (option C)) → S → S).
Context (call : S → rpccall_ctx) (set_call : rpccall_ctx → S → S).
Context (func : rpccall_func S P U).
Notation M := (M S).
Notation msg := (rpchandler_msg U).

Definition change_call (f : rpccall_ctx → rpccall_ctx) : M unit := modify (λ s, set_call (f (call s)) s).

Definition put_error (n : option Z) (m : call_word) (c : rpccall_ctx) : rpccall_ctx := CallCtx (crid c) n m.

(** [free(c->pub.errmsg)] *)
Definition free_word : M unit :=
  c ← gets call;
  match cerrmsg c with WItem => fails InvalidFree | _ => mret tt end.

Definition response_callback (ctx : msg) : M (msg * bool) :=
  if is_type (hmeta ctx) RPCMSG_T_ERROR then
    '(ctx, (_, errnum, errmsg)) ← reading (rpcerror_unpack unpack alloc true) ctx;
    change_call (put_error (Some errnum) (match errmsg with Some s => WText s | None => WNull end));;
    let '(ctx, valid) := rpchandler_msg_valid ctx in
    if valid : bool then mret (ctx, true)
    else
      free_word;;
      change_call (put_error (Some RPCERR_NO_ERROR) WNull);;
      mret (ctx, false)
  else
    ctx ← (if rpcmsg_has_value (hitem ctx) then
             u ← need NullPointer (hunpack ctx);
             change_call (put_error None WItem);;
             '(u, it) ← on_result func u (hitem ctx);
             mret (set_read u it ctx)
           else mret ctx);
    let '(ctx, valid) := rpchandler_msg_valid ctx in
    if negb valid then mret (ctx, false)
    else
      change_call (put_error (Some RPCERR_NO_ERROR) WNull);;
      mret (ctx, true).

(** What is called with a response: [None] stands for this call, the other responses are
    expected by somebody else. *)
Definition callbacks (c : option C) : msg → M (msg * bool) :=
  match c with None => response_callback | Some c => other c end.

(** Messages that other threads hand over meanwhile. *)
Definition meanwhile (l : list msg) : M unit :=
  each (λ ctx, responses_msg callbacks resp set_resp ctx;; mret tt) l.

(** [func] at the end, then the release of what is left. *)
Definition call_ends (addr : Z) (answered : bool) (result : Z) : M Z :=
  free_word;;
  (if answered then mret tt else rpcresponse_discard resp set_resp addr);;
  mret result.

(** The attempts that are left; for each the messages that come before its time is
    up: before the wait for them starts, those nobody is woken up for, and those that
    come during the wait. *)
Fixpoint call_attempts (addr rid : Z) (env : list (list msg * list msg * list msg)) : M Z :=
  match env with
  | [] =>
      c ← gets call;
      result ← on_end func CALL_S_TIMERR c;
      call_ends addr false result
  | (early, missed, received) :: env =>
      change_call (λ c, put_error None (cerrmsg c) c);;
      '(p, result) ← on_request func rid fresh;
      if negb (result =? 0) then call_ends addr false result
      else
        ok ← sendmsg p;
        if negb ok then
          c ← gets call;
          result ← on_end func CALL_S_COMERR c;
          call_ends addr false result
        else
          meanwhile early;;
          answered ← rpcresponse_waitfor callbacks resp set_resp addr missed received;
          if answered : bool then
            c ← gets call;
            result ← on_end func CALL_S_DONE c;
            call_ends addr true result
          else call_attempts addr rid env
  end.

Definition _rpccall (addr rid : Z) (env : list (list msg * list msg * list msg)) : M Z :=
  change_call (λ _, CallCtx rid (Some RPCERR_NO_ERROR) WNull);;
  rpcresponse_expect resp set_resp addr rid None;;
  call_attempts addr rid env.
End call.

(** ** Subscriptions to signals *)

Definition MSGRETRY : Z := 5.

(** The identifier of a subscription, when it was last asked for, and the request that
    is to be sent: none for zero, and to unsubscribe for negative ones. *)
Record signal_sub : Type := SignalSub { sri : cstr; last_msg : Z; srid : Z }.

Record rpchandler_signals : Type := HandlerSignals { ssubs : list signal_sub; all_done : bool }.

Section signals.
Context {S P U : Type} (pack : P → cpitem → P * bool) (fresh : P) (sendmsg : P → M S bool).
Context (signals : S → rpchandler_signals) (set_signals : rpchandler_signals → S → S).
Context (next_id : M S Z) (func : option (rpchandler_msg U → M S (rpchandler_msg U))).
Notation M := (M S).
Notation msg := (rpchandler_msg U).

Definition put_signals (l : list signal_sub) (done : bool) : M unit := modify (set_signals (HandlerSignals l done)).

(** The subscription the response is for is settled; the check of the others goes on
    behind the element that follows, which has moved when one was removed. *)
Definition settle_sub (l : list signal_sub) (i : nat) (s : signal_sub) : list signal_sub :=
  if srid s <? 0 then delete i l else <[i := SignalSub (sri s) (last_msg s) 0]> l.

Definition signals_msg (ctx : msg) : M (msg * rpchandler_msg_res) :=
  h ← gets signals;
  match mtype (hmeta ctx) with
  | RPCMSG_T_SIGNAL =>
      match func with
      | Some f => ctx ← f ctx; mret (ctx, RPCHANDLER_MSG_DONE)
      | None => mret (ctx, RPCHANDLER_MSG_SKIP)
      end
  | RPCMSG_T_RESPONSE =>
      if all_done h then mret (ctx, RPCHANDLER_MSG_SKIP)
      else
        match list_find (λ s, request_id (hmeta ctx) = Z.abs (srid s)) (ssubs h) with
        | None => mret (ctx, RPCHANDLER_MSG_SKIP)
        | Some (i, s) =>
            let l := settle_sub (ssubs h) i s in
            let settled := forallb (λ s, srid s =? 0) in
            put_signals l (settled (take i l) && settled (drop (i + 1) l));;
            mret (ctx, RPCHANDLER_MSG_DONE)
        end
  | _ => mret (ctx, RPCHANDLER_MSG_SKIP)
  end.

Definition signal_request (s : signal_sub) : P → P * bool :=
  rpcmsg_pack_request pack (Some (str ".broker/currentClient"))
    (if srid s >? 0 then str "subscribe" else str "unsubscribe") None (Z.abs (srid s)) >>>
  cp_pack_str pack (Some (sri s)) >>>
  cp_pack_container_end pack.

(** The rest of the loop from the element [i] on. *)
Fixpoint signals_idle_from (now : Z) (i : nat) (l : list signal_sub) (ctx : idle_ctx) (res : Z) : M (idle_ctx * Z) :=
  match l with
  | [] => mret (ctx, res)
  | s :: l =>
      if srid s =? 0 then signals_idle_from now (i + 1) l ctx res
      else
        let difft := last_msg s + MSGRETRY - now in
        if difft <=? 0 then
          match rpchandler_idle_msg_new fresh ctx with
          | None => mret (ctx, 0)
          | Some p =>
              '(ctx, ok) ← rpchandler_idle_msg_send sendmsg ctx (signal_request s p).1;
              h ← gets signals;
              (if ok : bool then put_signals (<[i := SignalSub (sri s) now (srid s)]> (ssubs h)) (all_done h) else mret tt);;
              mret (ctx, 0)
          end
        else signals_idle_from now (i + 1) l ctx (if res >? difft * 1000 then i32 (difft * 1000) else res)
  end.

Definition signals_idle (now : Z) (ctx : idle_ctx) : M (idle_ctx * Z) :=
  h ← gets signals;
  if all_done h then mret (ctx, RPCHANDLER_IDLE_SKIP)
  else signals_idle_from now 0 (ssubs h) ctx RPCHANDLER_IDLE_SKIP.

Definition signals_reset : M unit :=
  h ← gets signals;
  l ← fold (λ l s, rid ← next_id; mret (l ++ [SignalSub (sri s) 0 rid])) [] (ssubs h);
  put_signals l false.

Definition rpchandler_signals_stage (now : Z) : rpchandler_funcs S P U :=
  Funcs (Some signals_msg) None None (Some (signals_idle now)) (Some signals_reset).

(** [bsearch] over the subscriptions.  The comparison takes the elements of the array
    for pointers to elements, so any comparison reads the identifier's text as a
    structure. *)
Definition find_signal (l : list signal_sub) : M (option nat) :=
  match l with [] => mret None | _ => fails ReadOutside end.

(** The array is sorted with the same comparison, which is not called for one
    element. *)
Definition rpchandler_signals_subscribe (ri : cstr) : M unit :=
  h ← gets signals;
  sub ← find_signal (ssubs h);
  match sub with
  | Some _ => mret tt
  | None => rid ← next_id; put_signals (ssubs h ++ [SignalSub ri 0 rid]) false
  end.

Definition rpchandler_signals_unsubscribe (ri : cstr) : M unit :=
  h ← gets signals;
  sub ← find_signal (ssubs h);
  match sub with
  | Some i => rid ← next_id; put_signals (alter (λ s, SignalSub (sri s) 0 (- rid)) i (ssubs h)) false
  | None => mret tt
  end.

Definition rpchandler_signals_status : M bool := gets (λ s, all_done (signals s)).
End signals.

Definition rpchandler_signals_new : rpchandler_signals := HandlerSignals [] true.
