(* ===== verification/HandlerCall.v ===== *)
(** * Calls end

    Theorems about [HandlerClient]: the identifiers of requests, and a call, which ends
    with the first valid response to any of its requests or, without one, when the time
    of the last attempt is up. *)

From S2P Require Import Prelude Effects Stdio CpItem CpUnpack CpPack CpObstack CpLoops.
From S2P Require Import ChainpackUnpack CpUnpackChainpack Rpcri Rpcaccess Strset RpcError RpcDir RpcMsg RpcHead RpcLogin Handler HandlerClient.

(** ** Removing from a list *)

Lemma filter_delete {A} (P : A → Prop) `{!∀ x, Decision (P x)} (l : list A) (i : nat) x :
  l !! i = Some x → ¬ P x → filter P (delete i l) = filter P l.
Proof.
  intros E Hn. rewrite delete_take_drop. rewrite <-(take_drop_middle l i x E) at 3.
  rewrite !filter_app, filter_cons_False by done. done.
Qed.

Lemma filter_delete_only {A} (P : A → Prop) `{!∀ x, Decision (P x)} (l : list A) (i : nat) x y :
  l !! i = Some x → P x → filter P l = [y] → filter P (delete i l) = [].
Proof.
  intros E Hp. rewrite delete_take_drop, filter_app. rewrite <-(take_drop_middle l i x E) at 1.
  rewrite filter_app, filter_cons_True by done. intros E1.
  destruct (filter P (take i l)) as [|z k]; [by simplify_eq/=|].
  apply (f_equal length) in E1. simpl in E1. rewrite length_app in E1. simpl in E1. lia.
Qed.

Lemma filter_none {A} (P : A → Prop) `{!∀ x, Decision (P x)} (l : list A) : Forall (λ x, ¬ P x) l → filter P l = [].
Proof. induction 1; [done|]. by rewrite filter_cons_False. Qed.

Lemma find_app {A} (f : A → bool) l1 l2 :
  List.find f (l1 ++ l2) = match List.find f l1 with Some x => Some x | None => List.find f l2 end.
Proof. induction l1 as [|x l1 IH]; [done|]. simpl. by destruct (f x). Qed.

(** ** Calls *)

Section call.
Context {S P U C : Type} (unpack : U → cpitem → U * cpitem) (alloc : Z → bool) (fresh : P) (sendmsg : P → M S bool).
Context (other : C → rpchandler_msg U → M S (rpchandler_msg U * bool)).
Context (resp : S → list (rpcresponse (option C))) (set_resp : list (rpcresponse (option C)) → S → S).
Context (call : S → rpccall_ctx) (set_call : rpccall_ctx → S → S).
Context (func : rpccall_func S P U) (sent : S → list P).
Notation msg := (rpchandler_msg U).

(** The state apart from what belongs to the caller. *)
Definition keeps (s s' : S) : Prop := resp s' = resp s ∧ call s' = call s ∧ sent s' = sent s.

(** The parts of the state are independent; what the caller and others do is in their
    own part; requests are packed and sent. *)
Class CallEnv : Prop := {
  resp_set l s : resp (set_resp l s) = l;
  call_set_resp l s : call (set_resp l s) = call s;
  sent_set_resp l s : sent (set_resp l s) = sent s;
  call_set c s : call (set_call c s) = c;
  resp_set_call c s : resp (set_call c s) = resp s;
  sent_set_call c s : sent (set_call c s) = sent s;
  request_packed rid s : ∃ s' p, on_request func rid fresh s = inl (s', (p, 0)) ∧ keeps s s';
  result_read u it s : ∃ s' u' it', on_result func u it s = inl (s', (u', it')) ∧ keeps s s';
  end_returns stage c s : ∃ s' r, on_end func stage c s = inl (s', r) ∧ keeps s s';
  other_returns c ctx s : ∃ s' ctx' taken, other c ctx s = inl (s', (ctx', taken)) ∧ keeps s s';
  message_sent p s : ∃ s', sendmsg p s = inl (s', true) ∧ resp s' = resp s ∧ call s' = call s ∧ sent s' = sent s ++ [p] }.

Context `{!CallEnv} (addr rid : Z).

Abbreviation receive := (responses_msg (callbacks unpack alloc other call set_call func) resp set_resp).
Abbreviation while := (meanwhile unpack alloc other resp set_resp call set_call func).
Definition mine : rpcresponse (option C) := Response addr rid None.

(** What somebody else expects. *)
Definition elses (r : rpcresponse (option C)) : Prop := rrid r ≠ rid ∧ rcookie r ≠ None.

(** Among what is expected is, or is no more, the response to this call. *)
Definition among (l : list (rpcresponse (option C))) (s : S) : Prop :=
  filter (λ r, raddr r = addr) (resp s) = l ∧ ∀ r, r ∈ resp s → raddr r ≠ addr → elses r.
Definition waits := among [mine].
Definition gone := among [].

Definition awaited (ctx : msg) : bool :=
  (is_type (hmeta ctx) RPCMSG_T_RESPONSE || is_type (hmeta ctx) RPCMSG_T_ERROR) &&
  (request_id (hmeta ctx) =? rid).

(** A valid response to the call. *)
Definition answer (ctx : msg) : bool := awaited ctx && hvalid ctx.

(** A response with a value that turns out not to be valid. *)
Definition spoiled (ctx : msg) : bool :=
  awaited ctx && negb (hvalid ctx) && negb (is_type (hmeta ctx) RPCMSG_T_ERROR) && rpcmsg_has_value (hitem ctx).

(** What the caller gets to know of an answer. *)
Definition outcome (ctx : msg) : rpccall_ctx :=
  match hunpack ctx with
  | Some u =>
      if is_type (hmeta ctx) RPCMSG_T_ERROR then
        let '(_, _, (_, errnum, errmsg)) := rpcerror_unpack unpack alloc true u (hitem ctx) in
        CallCtx rid (Some errnum) (match errmsg with Some s => WText s | None => WNull end)
      else CallCtx rid (Some RPCERR_NO_ERROR) WNull
  | None => CallCtx rid None WNull
  end.

(** The message is there to be read. *)
Definition unread (ctx : msg) : Prop := is_Some (hunpack ctx).

Definition releasable (s : S) : Prop := cerrmsg (call s) ≠ WItem.

(** ** A message *)

Lemma among_same l s s' : resp s' = resp s → among l s → among l s'.
Proof. unfold among. by intros ->. Qed.

(** A response somebody else expects. *)
Lemma receive_else l s ctx :
  among l s →
  (∀ r, r ∈ resp s → rrid r = request_id (hmeta ctx) → raddr r ≠ addr) →
  ∃ s' x, receive ctx s = inl (s', x) ∧ among l s' ∧ call s' = call s ∧ sent s' = sent s.
Proof.
  intros [Hl He] Hn. unfold responses_msg. destruct (_ || _); [|by exists s; eexists].
  erewrite bind_run by done. destruct (list_find _ _) as [[i r]|] eqn:E; [|by exists s; eexists].
  apply list_find_Some in E as (Ei & Er & _). pose proof (list_elem_of_lookup_2 _ _ _ Ei) as Hr.
  pose proof (Hn r Hr Er) as Ha. destruct (He r Hr Ha) as [_ Hc].
  destruct (rcookie r) as [c|]; [|done]. cbn [callbacks].
  destruct (other_returns c ctx s) as (s1 & ctx1 & taken & Ho & Er1 & Ec1 & Es1).
  erewrite bind_run by exact Ho. destruct taken; erewrite bind_run by done;
    (eexists _, _; split; [done|]); [|split; [by apply (among_same _ s)|done]].
  rewrite call_set_resp, sent_set_resp. split; [|done]. unfold among. rewrite resp_set, Er1. unfold unlink.
  destruct (list_find (λ q, raddr q = raddr r) (resp s)) as [[j q]|] eqn:E; [|done].
  apply list_find_Some in E as (Ej & Eq & _). rewrite (filter_delete _ _ _ q) by (simpl; congruence).
  split; [done|]. intros x Hx. apply He. by eapply elem_of_sublist, sublist_delete.
Qed.

Lemma foreign_kept s ctx :
  waits s → awaited ctx = false →
  ∃ s' x, receive ctx s = inl (s', x) ∧ waits s' ∧ call s' = call s ∧ sent s' = sent s.
Proof.
  intros Hw Hf. destruct (is_type (hmeta ctx) RPCMSG_T_RESPONSE || is_type (hmeta ctx) RPCMSG_T_ERROR) eqn:Et.
  - apply receive_else; [done|]. intros r Hr Er Ha. destruct Hw as [Hl _].
    assert (r ∈ [mine]) as ->%list_elem_of_singleton by (rewrite <-Hl; by apply list_elem_of_filter).
    unfold awaited in Hf. rewrite Et in Hf. simpl in *. lia.
  - exists s. eexists. split; [|done]. unfold responses_msg. by rewrite Et.
Qed.

(** Once the response is there, the rest does not matter. *)
Lemma gone_kept s ctx :
  gone s → ∃ s' x, receive ctx s = inl (s', x) ∧ gone s' ∧ call s' = call s ∧ sent s' = sent s.
Proof.
  intros Hg. apply receive_else; [done|]. intros r Hr _ Ha. destruct Hg as [Hl _].
  assert (r ∈ []) as Hx; [|by apply not_elem_of_nil in Hx]. rewrite <-Hl. by apply list_elem_of_filter.
Qed.

Lemma free_word_run s : releasable s → free_word call s = inl (s, tt).
Proof. unfold releasable, free_word. intros Hr. erewrite bind_run by done. by destruct (cerrmsg (call s)). Qed.

(** What the response does to the state of the call. *)
Lemma callback_valid s ctx :
  crid (call s) = rid → unread ctx → hvalid ctx = true →
  ∃ s' ctx', response_callback unpack alloc call set_call func ctx s = inl (s', (ctx', true)) ∧
    resp s' = resp s ∧ call s' = outcome ctx ∧ sent s' = sent s.
Proof.
  intros Hc [u Hu] Hv. unfold response_callback, outcome. rewrite Hu.
  destruct (is_type (hmeta ctx) RPCMSG_T_ERROR).
  - unfold reading. rewrite Hu. destruct (rpcerror_unpack _ _ _ _ _) as [[u1 it1] [[ok n] m]] eqn:E.
    erewrite bind_run; [|erewrite bind_run by done; by rewrite E]. cbn beta iota.
    erewrite bind_run by done. cbn [set_read rpchandler_msg_valid hvalid]. rewrite Hv.
    do 2 eexists. split; [done|]. rewrite resp_set_call, call_set, sent_set_call. unfold put_error. by rewrite Hc.
  - assert (∃ s1 ctx1, (if rpcmsg_has_value (hitem ctx) then
        u ← need NullPointer (Some u); change_call call set_call (put_error None WItem);;
        '(u, it) ← on_result func u (hitem ctx); mret (set_read u it ctx)
      else mret ctx) s = inl (s1, ctx1) ∧ hvalid ctx1 = true ∧
      resp s1 = resp s ∧ crid (call s1) = rid ∧ sent s1 = sent s) as (s1 & ctx1 & E & Hv1 & Er & Ec & Es).
    { destruct (rpcmsg_has_value _); [|by exists s; eexists]. erewrite bind_run by done.
      erewrite bind_run by done.
      destruct (result_read u (hitem ctx) (set_call (put_error None WItem (call s)) s))
        as (s2 & u2 & it2 & E2 & Er & Ec & Es).
      erewrite bind_run by exact E2. do 2 eexists. split; [done|].
      by rewrite Er, Ec, Es, call_set, resp_set_call, sent_set_call. }
    erewrite bind_run by exact E. cbn [rpchandler_msg_valid]. rewrite Hv1. cbn [negb].
    do 2 eexists. split; [done|]. rewrite resp_set_call, call_set, sent_set_call. unfold put_error. by rewrite Ec.
Qed.

Lemma callback_invalid s ctx :
  unread ctx → hvalid ctx = false →
  ∃ s' ctx', response_callback unpack alloc call set_call func ctx s = inl (s', (ctx', false)) ∧
    resp s' = resp s ∧ crid (call s') = crid (call s) ∧ sent s' = sent s ∧
    (negb (is_type (hmeta ctx) RPCMSG_T_ERROR) && rpcmsg_has_value (hitem ctx) = false → releasable s → releasable s').
Proof.
  intros [u Hu] Hv. unfold response_callback. destruct (is_type (hmeta ctx) RPCMSG_T_ERROR).
  - unfold reading. rewrite Hu. destruct (rpcerror_unpack unpack alloc true u (hitem ctx)) as [[u1 it1] [[ok n] m]] eqn:E.
    erewrite bind_run; [|erewrite bind_run by done; by rewrite E]. cbn beta iota.
    erewrite bind_run by done. cbn [set_read rpchandler_msg_valid hvalid]. rewrite Hv.
    erewrite bind_run; [|apply free_word_run; unfold releasable; rewrite call_set; by destruct m].
    do 2 eexists. split; [done|]. unfold releasable.
    by rewrite !resp_set_call, !call_set, !sent_set_call.
  - destruct (rpcmsg_has_value _) eqn:Hval.
    + rewrite Hu. destruct (result_read u (hitem ctx) (set_call (put_error None WItem (call s)) s))
        as (s2 & u2 & it2 & E2 & Er & Ec & Es).
      erewrite bind_run; [|erewrite bind_run by done; erewrite bind_run by done; by erewrite bind_run by exact E2].
      cbn [set_read rpchandler_msg_valid hvalid]. rewrite Hv. do 2 eexists. split; [done|].
      by rewrite Er, Ec, Es, call_set, resp_set_call, sent_set_call.
    + erewrite bind_run by done. cbn [rpchandler_msg_valid]. rewrite Hv. by do 2 eexists.
Qed.

Lemma mine_among s : waits s → mine ∈ resp s.
Proof.
  intros [Hl _]. apply (list_elem_of_filter (λ r, raddr r = addr)). rewrite Hl. by apply list_elem_of_singleton.
Qed.

(** The response to the call is found. *)
Lemma mine_found s ctx :
  waits s → awaited ctx = true →
  ∃ i, list_find (λ r, rrid r = request_id (hmeta ctx)) (resp s) = Some (i, mine).
Proof.
  intros Hw Ha. pose proof (mine_among s Hw) as Hm. destruct Hw as [Hl He].
  unfold awaited in Ha. apply andb_true_iff in Ha as [_ Ha]. apply Z.eqb_eq in Ha.
  destruct (list_find_elem_of (λ r, rrid r = request_id (hmeta ctx)) (resp s) mine Hm) as [[i r] E]; [by rewrite Ha|].
  rewrite E. exists i. do 2 f_equal. apply list_find_Some in E as (Ei & Er & _).
  pose proof (list_elem_of_lookup_2 _ _ _ Ei) as Hr.
  destruct (decide (raddr r = addr)); [|destruct (He r Hr); congruence].
  apply list_elem_of_singleton. rewrite <-Hl. by apply list_elem_of_filter.
Qed.

Lemma unlink_mine s s1 : waits s → resp s1 = resp s → gone (set_resp (unlink addr (resp s1)) s1).
Proof.
  intros Hw ->. pose proof (mine_among s Hw) as Hm. destruct Hw as [Hl He].
  unfold gone, among. rewrite resp_set. unfold unlink.
  destruct (list_find (λ r, raddr r = addr) (resp s)) as [[j q]|] eqn:E.
  - apply list_find_Some in E as (Ej & Eq & _).
    split; [exact (filter_delete_only _ _ _ q _ Ej Eq Hl)|].
    intros r Hr. apply He. by eapply elem_of_sublist, sublist_delete.
  - apply list_find_None in E. rewrite Forall_forall in E. by destruct (E _ Hm).
Qed.

Lemma receive_answer s ctx :
  waits s → crid (call s) = rid → unread ctx → answer ctx = true →
  ∃ s' x, receive ctx s = inl (s', x) ∧ gone s' ∧ call s' = outcome ctx ∧ sent s' = sent s.
Proof.
  intros Hw Hc Hu [Ha Hv]%andb_true_iff. destruct (mine_found s ctx Hw Ha) as [i Hi].
  unfold responses_msg. unfold awaited in Ha. apply andb_true_iff in Ha as [-> _].
  erewrite bind_run by done. rewrite Hi. cbn [mine rcookie callbacks raddr].
  destruct (callback_valid s ctx Hc Hu Hv) as (s1 & ctx1 & E & Er & Ec & Es).
  erewrite bind_run by exact E. cbn beta iota. erewrite bind_run by done.
  do 2 eexists. split; [done|]. rewrite call_set_resp, sent_set_resp. split; [|done].
  by apply (unlink_mine s).
Qed.

Lemma receive_other s ctx :
  waits s → unread ctx → answer ctx = false →
  ∃ s' x, receive ctx s = inl (s', x) ∧ waits s' ∧ crid (call s') = crid (call s) ∧ sent s' = sent s ∧
    (spoiled ctx = false → releasable s → releasable s').
Proof.
  intros Hw Hu Hn. unfold answer in Hn. destruct (awaited ctx) eqn:Ha.
  - simpl in Hn. destruct (mine_found s ctx Hw Ha) as [i Hi].
    destruct (callback_invalid s ctx Hu Hn) as (s1 & ctx1 & E & Er & Ec & Es & Hrel).
    exists s1. eexists. split.
    + unfold responses_msg. unfold awaited in Ha. apply andb_true_iff in Ha as [-> _].
      erewrite bind_run by done. rewrite Hi. cbn [mine rcookie callbacks]. erewrite bind_run by exact E. done.
    + split; [by apply (among_same _ s)|]. do 2 (split; [done|]). unfold spoiled. by rewrite Ha, Hn.
  - destruct (foreign_kept s ctx Hw Ha) as (s1 & x & E & Hw1 & Ec & Es). exists s1, x.
    split; [done|]. split; [done|]. unfold releasable. by rewrite Ec.
Qed.

(** ** Messages one after the other *)

(** The state after the messages, of which the first answer ends the call. *)
Definition after (l : list msg) (s s' : S) : Prop :=
  sent s' = sent s ∧
  match List.find answer l with
  | Some m => gone s' ∧ call s' = outcome m
  | None =>
      waits s' ∧ crid (call s') = rid ∧
      (Forall (λ m, spoiled m = false) l → releasable s → releasable s')
  end.

Lemma after_step ctx l s s1 s' :
  answer ctx = false → sent s1 = sent s → (spoiled ctx = false → releasable s → releasable s1) →
  after l s1 s' → after (ctx :: l) s s'.
Proof.
  unfold after. intros Ha Hs Hr [Es Hf]. cbn [List.find]. rewrite Ha. split; [congruence|].
  destruct (List.find _ l); [done|]. destruct Hf as (? & ? & Hr'). do 2 (split; [done|]).
  intros [? ?]%Forall_cons Hs0. by auto.
Qed.

Lemma after_app l1 l2 s s1 s2 :
  List.find answer l1 = None → after l1 s s1 → after l2 s1 s2 → after (l1 ++ l2) s s2.
Proof.
  unfold after. rewrite find_app. intros -> (Es1 & _ & _ & Hr1) [Es2 H2]. split; [congruence|].
  destruct (List.find _ l2); [done|]. destruct H2 as (? & ? & Hr2). do 2 (split; [done|]).
  intros [? ?]%Forall_app Hs0. by auto.
Qed.

Lemma while_gone l s :
  gone s → ∃ s', while l s = inl (s', tt) ∧ gone s' ∧ call s' = call s ∧ sent s' = sent s.
Proof.
  revert s. induction l as [|ctx l IH]; intros s Hg; [by exists s|].
  destruct (gone_kept s ctx Hg) as (s1 & x & E & Hg1 & Ec & Es).
  destruct (IH s1 Hg1) as (s2 & E2 & Hg2 & Ec2 & Es2).
  exists s2. split; [|by rewrite Ec2, Es2]. unfold meanwhile in *. cbn [each].
  erewrite bind_run; [exact E2|]. by erewrite bind_run by exact E.
Qed.

Lemma while_after l s :
  waits s → crid (call s) = rid → Forall unread l →
  ∃ s', while l s = inl (s', tt) ∧ after l s s'.
Proof.
  revert s. induction l as [|ctx l IH]; intros s Hw Hc Hu.
  { exists s. by split. }
  apply Forall_cons in Hu as [Hu1 Hu]. destruct (answer ctx) eqn:Ha.
  - destruct (receive_answer s ctx Hw Hc Hu1 Ha) as (s1 & x & E & Hg & Ec & Es).
    destruct (while_gone l s1 Hg) as (s2 & E2 & Hg2 & Ec2 & Es2). exists s2. split.
    + unfold meanwhile in *. cbn [each]. erewrite bind_run; [exact E2|]. by erewrite bind_run by exact E.
    + unfold after. cbn [List.find]. rewrite Ha, Ec2, Es2. done.
  - destruct (receive_other s ctx Hw Hu1 Ha) as (s1 & x & E & Hw1 & Ec & Es & Hr).
    destruct (IH s1 Hw1) as (s2 & E2 & Haf); [by rewrite Ec|done|]. exists s2. split.
    + unfold meanwhile in *. cbn [each]. erewrite bind_run; [exact E2|]. by erewrite bind_run by exact E.
    + by eapply after_step.
Qed.

Lemma expected_waits s : waits s → expected resp addr s = inl (s, true).
Proof.
  intros Hw. unfold expected, gets. rewrite bool_decide_true; [done|].
  apply list_elem_of_fmap. exists mine. split; [done|by apply mine_among].
Qed.

Lemma expected_gone s : gone s → expected resp addr s = inl (s, false).
Proof.
  intros [Hl _]. unfold expected, gets. rewrite bool_decide_false; [done|].
  intros (r & Hr & Hin)%list_elem_of_fmap. apply (not_elem_of_nil r). rewrite <-Hl.
  by apply list_elem_of_filter.
Qed.

Definition found (l : list msg) : bool := if List.find answer l then true else false.

Lemma wait_for_after l s :
  waits s → crid (call s) = rid → Forall unread l →
  ∃ s', wait_for (callbacks unpack alloc other call set_call func) resp set_resp addr l s = inl (s', found l) ∧
    after l s s'.
Proof.
  revert s. induction l as [|ctx l IH]; intros s Hw Hc Hu; cbn [wait_for];
    erewrite bind_run by (by apply expected_waits); cbn [negb].
  { exists s. by split. }
  apply Forall_cons in Hu as [Hu1 Hu]. unfold found. cbn [List.find]. destruct (answer ctx) eqn:Ha.
  - destruct (receive_answer s ctx Hw Hc Hu1 Ha) as (s1 & x & E & Hg & Ec & Es).
    exists s1. erewrite bind_run by exact E. split.
    + destruct l; cbn [wait_for]; by erewrite bind_run by (by apply expected_gone).
    + unfold after. cbn [List.find]. by rewrite Ha.
  - destruct (receive_other s ctx Hw Hu1 Ha) as (s1 & x & E & Hw1 & Ec & Es & Hr).
    destruct (IH s1 Hw1) as (s2 & E2 & Haf); [by rewrite Ec|done|]. exists s2.
    erewrite bind_run by exact E. split; [exact E2|by eapply after_step].
Qed.

(** ** Attempts *)

(** The messages of an attempt, none of which comes without anybody being woken up. *)
Definition messages (a : list msg * list msg * list msg) : list msg := a.1.1 ++ a.2.
Definition heard (a : list msg * list msg * list msg) : Prop := a.1.2 = [] ∧ Forall unread (messages a).

(** The attempt that is answered and the first answer in it. *)
Fixpoint first_answer (env : list (list msg * list msg * list msg)) : option (nat * msg) :=
  match env with
  | [] => None
  | a :: env =>
      match List.find answer (messages a) with
      | Some m => Some (O, m)
      | None => (λ x, (x.1 + 1, x.2)%nat) <$> first_answer env
      end
  end.

(** Something the caller packed with the identifier of the call. *)
Definition requested (p : P) : Prop := ∃ s s', on_request func rid fresh s = inl (s', (p, 0)).

(** The call has ended: its result is what the caller makes of the outcome [c], [n]
    requests were sent, and no response is expected any more. *)
Definition ended (stage : rpccall_stage) (c : rpccall_ctx) (n : nat) (s : S) (res : S * Z + fault) : Prop :=
  ∃ s1 s2 s' r reqs, res = inl (s', r) ∧ on_end func stage c s1 = inl (s2, r) ∧ gone s' ∧
    sent s' = sent s ++ reqs ∧ length reqs = n ∧ Forall requested reqs.

Lemma attempt_after early received s :
  waits s → crid (call s) = rid → Forall unread (early ++ received) →
  ∃ s', (while early;;
         rpcresponse_waitfor (callbacks unpack alloc other call set_call func) resp set_resp addr [] received) s =
      inl (s', found (early ++ received)) ∧ after (early ++ received) s s'.
Proof.
  intros Hw Hc [Hu1 Hu2]%Forall_app. destruct (while_after early s Hw Hc Hu1) as (s1 & E1 & Haf).
  erewrite bind_run by exact E1. unfold rpcresponse_waitfor, found. rewrite find_app.
  destruct (List.find answer early) as [m|] eqn:Ef.
  - exists s1. unfold after in *. rewrite find_app, Ef in *. destruct Haf as (Es & Hg & Ec).
    by erewrite bind_run by (by apply expected_gone).
  - pose proof Haf as Haf'. unfold after in Haf'. rewrite Ef in Haf'. destruct Haf' as (Es & Hw1 & Hc1 & _).
    erewrite bind_run by (by apply expected_waits). cbn [negb each]. erewrite bind_run by done.
    erewrite bind_run by (by apply expected_waits). cbn [negb].
    destruct (wait_for_after received s1 Hw1 Hc1 Hu2) as (s2 & E2 & Haf2). exists s2.
    split; [exact E2|by eapply after_app].
Qed.

(** The end of the call, with the response expected or not. *)
Lemma ends_gone (answered : bool) result s :
  releasable s → (if answered then gone s else waits s) →
  ∃ s', call_ends resp set_resp call addr answered result s = inl (s', result) ∧ gone s' ∧ sent s' = sent s.
Proof.
  intros Hr Hg. unfold call_ends. erewrite bind_run by (by apply free_word_run). destruct answered; [by exists s|].
  erewrite bind_run; [|unfold rpcresponse_discard; by erewrite bind_run by (by apply expected_waits)].
  eexists. split; [done|]. rewrite sent_set_resp. split; [by apply (unlink_mine s)|done].
Qed.

Lemma outcome_word ctx : cerrmsg (outcome ctx) ≠ WItem.
Proof.
  unfold outcome. destruct (hunpack ctx); [|done]. destruct (is_type _ _); [|done].
  by destruct (rpcerror_unpack _ _ _ _ _) as [[? ?] [[? ?] []]].
Qed.

Lemma ended_more stage c n s s1 p res :
  requested p → sent s1 = sent s ++ [p] → ended stage c n s1 res → ended stage c (n + 1) s res.
Proof.
  intros Hp Es (a & b & s' & r & reqs & ? & ? & ? & Es' & Hl & Hf). exists a, b, s', r, (p :: reqs).
  do 3 (split; [done|]). split; [by rewrite Es', Es, <-app_assoc|]. simpl. split; [lia|by constructor].
Qed.

Lemma ended_now stage (answered : bool) s :
  releasable s → (if answered then gone s else waits s) →
  ended stage (call s) 0 s
    ((c ← gets call; result ← on_end func stage c; call_ends resp set_resp call addr answered result) s).
Proof.
  intros Hr Hg. erewrite bind_run by done. destruct (end_returns stage (call s) s) as (s1 & r & E & Er & Ec & Es).
  erewrite bind_run by exact E.
  destruct (ends_gone answered r s1) as (s2 & E2 & Hg2 & Es2).
  { unfold releasable. by rewrite Ec. }
  { destruct answered; by apply (among_same _ s). }
  exists s, s1, s2, r, []. rewrite Es2, Es, app_nil_r. done.
Qed.

Lemma attempts_end env s :
  waits s → crid (call s) = rid → Forall heard env →
  let res := call_attempts unpack alloc fresh sendmsg other resp set_resp call set_call func addr rid env s in
  match first_answer env with
  | Some (n, m) => ended CALL_S_DONE (outcome m) (n + 1) s res
  | None =>
      Forall (λ a, Forall (λ m, spoiled m = false) (messages a)) env → releasable s →
      ∃ c, ended CALL_S_TIMERR c (length env) s res
  end.
Proof.
  revert s. induction env as [|[[early missed] received] env IH]; intros s Hw Hc Hh; cbn zeta.
  { intros _ Hr. eexists. by apply ended_now. }
  apply Forall_cons in Hh as [[Hm Hu] Hh]. simpl in Hm. subst missed. unfold messages in Hu. simpl in Hu.
  cbn [call_attempts first_answer messages fst snd].
  set (s0 := set_call (put_error None (cerrmsg (call s)) (call s)) s). erewrite (bind_run _ _ s s0) by done.
  destruct (request_packed rid s0) as (s1 & p & E1 & Er1 & Ec1 & Es1).
  erewrite bind_run by exact E1. cbn [Z.eqb negb].
  destruct (message_sent p s1) as (s2 & E2 & Er2 & Ec2 & Es2). erewrite bind_run by exact E2. cbn [negb].
  assert (requested p) as Hp by (by exists s0, s1).
  assert (sent s2 = sent s ++ [p]) as Es by (rewrite Es2, Es1; unfold s0; by rewrite sent_set_call).
  assert (call s2 = put_error None (cerrmsg (call s)) (call s)) as Ec
    by (rewrite Ec2, Ec1; unfold s0; by rewrite call_set).
  destruct (attempt_after early received s2) as (s3 & E3 & Es3 & Haf); [|by rewrite Ec|done|].
  { apply (among_same _ s); [|done]. rewrite Er2, Er1. unfold s0. by rewrite resp_set_call. }
  assert (∀ (k : bool → M S Z), (while early;; answered ← rpcresponse_waitfor (callbacks unpack alloc other call
      set_call func) resp set_resp addr [] received; k answered) s2 = k (found (early ++ received)) s3) as ->.
  { intros k. apply bind_inv in E3 as (s4 & x & E4 & E5). erewrite bind_run by exact E4.
    by erewrite bind_run by exact E5. }
  unfold found, messages in *. cbn [fst snd] in *. destruct (List.find answer (early ++ received)) as [m|].
  - destruct Haf as [Hg Em]. apply (ended_more _ _ _ _ s3 p _ Hp); [by rewrite Es3|]. rewrite <-Em.
    apply ended_now; [|done]. unfold releasable. rewrite Em. apply outcome_word.
  - destruct Haf as (Hw3 & Hc3 & Hr3). specialize (IH s3 Hw3 Hc3 Hh). cbn zeta in IH.
    destruct (first_answer env) as [[n m]|]; cbn [fmap option_fmap option_map fst snd].
    + apply (ended_more _ _ _ _ s3 p _ Hp); [by rewrite Es3|done].
    + intros [Hs1 Hs]%Forall_cons Hrel. destruct IH as [c IH]; [done| |].
      { apply Hr3; [done|]. unfold releasable. by rewrite Ec. }
      exists c. cbn [length]. rewrite <-Nat.add_1_r. apply (ended_more _ _ _ _ s3 p _ Hp); [by rewrite Es3|done].
Qed.

(** C8: a call whose requests can be sent comes to its end.  Whatever messages come for the
    attempts, as long as the waiting thread is woken up for them: when there is a valid response or error with
    the identifier of the call, the first of them ends the call during the attempt it
    comes in, and the caller gets to know the error from it, or that there was none;
    without one the call ends after the last attempt with the stage for a timeout,
    provided no invalid response had a value.  One request was sent for each of the
    attempts, and the response is not expected any more. *)
Theorem rpccall_ends env s :
  Forall (λ r, raddr r ≠ addr ∧ elses r) (resp s) → Forall heard env →
  (first_answer env = None → Forall (λ a, Forall (λ m, spoiled m = false) (messages a)) env) →
  let res := _rpccall unpack alloc fresh sendmsg other resp set_resp call set_call func addr rid env s in
  match first_answer env with
  | Some (n, m) => ended CALL_S_DONE (outcome m) (n + 1) s res
  | None => ∃ c, ended CALL_S_TIMERR c (length env) s res
  end.
Proof.
  intros Hr Hh Hs. unfold _rpccall. cbn zeta. set (s0 := set_call (CallCtx rid (Some RPCERR_NO_ERROR) WNull) s).
  erewrite (bind_run _ _ s s0) by done. set (s1 := set_resp (resp s0 ++ [mine]) s0).
  erewrite (bind_run _ _ s0 s1) by done.
  assert (resp s1 = resp s ++ [mine]) as Er1 by (unfold s1, s0; by rewrite resp_set, resp_set_call).
  assert (call s1 = CallCtx rid (Some RPCERR_NO_ERROR) WNull) as Ec1
    by (unfold s1, s0; by rewrite call_set_resp, call_set).
  assert (sent s1 = sent s) as Es1 by (unfold s1, s0; by rewrite sent_set_resp, sent_set_call).
  assert (waits s1) as Hw.
  { unfold waits, among. rewrite Er1, filter_app. rewrite Forall_forall in Hr. split.
    - rewrite filter_cons_True by done. rewrite filter_none; [done|]. apply Forall_forall.
      intros r Hin. by apply Hr in Hin as [? _].
    - intros r [Hin| ->%list_elem_of_singleton]%elem_of_app Hn; [by apply Hr|done]. }
  assert (crid (call s1) = rid) as Hc1 by (by rewrite Ec1).
  pose proof (attempts_end env s1 Hw Hc1 Hh) as Hend. cbn zeta in Hend. unfold ended in *. rewrite Es1 in Hend.
  destruct (first_answer env) as [[n m]|]; [done|]. apply Hend; [by apply Hs|]. unfold releasable. by rewrite Ec1.
Qed.
End call.

(** A caller that counts: requests are their identifiers, and the result is the number
    of the error, or minus one when the time was up. *)
Module Demo.
Definition S : Type := list (rpcresponse (option Empty_set)) * rpccall_ctx * list Z.
Definition resp (s : S) := s.1.1.
Definition call (s : S) := s.1.2.
Definition sent (s : S) := s.2.
Definition set_resp l (s : S) : S := (l, call s, sent s).
Definition set_call c (s : S) : S := (resp s, c, sent s).
Definition sendmsg (p : Z) : M S bool := λ s, inl ((resp s, call s, sent s ++ [p]), true).
Definition other (c : Empty_set) (ctx : rpchandler_msg rfile) : M S (rpchandler_msg rfile * bool) := match c with end.
Definition func : rpccall_func S Z rfile :=
  CallFunc (λ rid p, mret (rid, 0)) (λ u it, mret (u, it))
    (λ stage c, mret (match stage with CALL_S_DONE => default (-2) (cerrnum c) | _ => -1 end)).
Definition start : S := ([], CallCtx 0 None WNull, []).

Definition run (env : list (list (rpchandler_msg rfile) * list (rpchandler_msg rfile) * list (rpchandler_msg rfile))) :=
  _rpccall cp_unpack_chainpack_func (λ _, true) 0 sendmsg other resp set_resp call set_call func 100 7 env start.

#[global] Instance call_env : CallEnv 0 sendmsg other resp set_resp call set_call func sent.
Proof.
  split; try done.
  - intros rid s. by exists s, rid.
  - intros u it s. by exists s, u, it.
  - intros stage c s. by do 2 eexists.
  - intros p s. by eexists.
Qed.

(** Responses to the request, with a value and without, and the error 3. *)
Definition message (t : rpcmsg_type) (l : list Z) (ty : cpitem_type) (valid : bool) : rpchandler_msg rfile :=
  Msg (Meta t 7 0 None None None None false None false 0 [] []) (Some (RFile l false))
    (Item ty (AsInt 2) None 0) (Obstack [] 64) valid.
Definition response := message RPCMSG_T_RESPONSE [] CPITEM_CONTAINER_END.
Definition value := message RPCMSG_T_RESPONSE [] CPITEM_INT.
Definition error := message RPCMSG_T_ERROR [138; 65; 67; 255] CPITEM_INT true.
End Demo.

Lemma rpccall_ends_witness :
  let env := [([Demo.value false], [], []); ([], [], [Demo.response false; Demo.error])] in
  first_answer 7 env = Some (1%nat, Demo.error) ∧
  ended 0 Demo.resp Demo.func Demo.sent 100 7 CALL_S_DONE (CallCtx 7 (Some 3) WNull) 2 Demo.start (Demo.run env).
Proof.
  intros env. split; [done|].
  apply (rpccall_ends cp_unpack_chainpack_func (λ _, true) 0 Demo.sendmsg Demo.other Demo.resp Demo.set_resp
    Demo.call Demo.set_call Demo.func Demo.sent 100 7 env Demo.start); [by constructor| |done].
  repeat constructor; by eexists.
Defined.

(** An answer that comes when nobody is woken up for it ends the call only with the next
    attempt, and what it said is lost; without another attempt it is a timeout. *)
Example missed_answer :
  Demo.run [([], [Demo.error], []); ([], [], [])] = inl (([], CallCtx 7 None WNull, [7; 7]), -2) ∧
  Demo.run [([], [Demo.error], [])] = inl (([], CallCtx 7 (Some 3) WNull, [7]), -1).
Proof. by vm_compute. Qed.

(** After an invalid response with a value a timeout frees the item. *)
Example spoiled_freed : Demo.run [([], [], [Demo.value false])] = inr InvalidFree.
Proof. by vm_compute. Qed.

(** ** Identifiers *)

(** The identifiers of the next requests. *)
Fixpoint request_ids (k : nat) (n : Z) : list Z :=
  match k with O => [] | S k => let '(n, rid) := rpcmsg_request_id n in rid :: request_ids k n end.

(** The identifiers of 64 requests in a row are all different, and they are small
    enough to be packed to a single byte. *)
Theorem request_ids_distinct n :
  0 ≤ n < 256 → NoDup (request_ids 64 n) ∧ Forall (λ rid, 0 ≤ rid < 64) (request_ids 64 n).
Proof.
  intros Hn.
  pose proof (forall_below 256 (λ n, bool_decide (NoDup (request_ids 64 n)) &&
    forallb (λ rid, (0 <=? rid) && (rid <? 64)) (request_ids 64 n)) ltac:(by vm_compute) n Hn) as H.
  apply andb_true_iff in H as [H1 H2]. split; [by apply bool_decide_eq_true in H1|].
  rewrite forallb_forall in H2. apply Forall_forall. intros rid Hin%list_elem_of_In%H2. lia.
Qed.

Lemma request_ids_distinct_witness : NoDup (request_ids 64 60) ∧ Forall (λ rid, 0 ≤ rid < 64) (request_ids 64 60).
Proof. apply request_ids_distinct. lia. Defined.

(** The identifiers of logging in and of pings are given to other requests. *)
Example reserved_ids_used : request_ids 64 request_id_start = seqZ 4 60 ++ [0; 1; 2; 3].
Proof. by vm_compute. Qed.

(** ** Subscriptions *)

(** The state of the signals alone, with the next identifier. *)
Definition next_demo : M (rpchandler_signals * Z) Z := λ s, inl ((s.1, s.2 + 1), s.2).
Definition put_demo (h : rpchandler_signals) (s : rpchandler_signals * Z) : rpchandler_signals * Z := (h, s.2).

(** The second subscription and any unsubscription compare, and read what is not there. *)
Example second_subscription :
  let subscribe := rpchandler_signals_subscribe fst put_demo next_demo in
  subscribe (str "**:*:*") (rpchandler_signals_new, 4) = inl ((HandlerSignals [SignalSub (str "**:*:*") 0 4] false, 5), tt) ∧
  (subscribe (str "**:*:*");; subscribe (str "dev:*:*")) (rpchandler_signals_new, 4) = inr ReadOutside ∧
  (subscribe (str "**:*:*");; rpchandler_signals_unsubscribe fst put_demo next_demo (str "**:*:*"))
    (rpchandler_signals_new, 4) = inr ReadOutside.
Proof. by vm_compute. Qed.
