(* ===== verification/Handshake.v ===== *)
(** * Logging in

    The login stage of a client and the access stage of the broker together: what each
    of them packs is what the other one reads, and two rounds later the client is logged
    in exactly when the callback of the broker says so. *)

From stdpp Require Import sorting gmap.
From S2P Require Import Prelude Effects Stdio Chainpack CpItem ChainpackPack ChainpackUnpack ChainpackRoundtrip.
From S2P Require Import CpUnpack CpUnpackChainpack CpPack CpTools CpObstack CpLoops Arr Nbool Rpcri Rpcaccess.
From S2P Require Import RpcError RpcDir RpcMsg RpcHead RpcLogin Strset Subscription Mount Broker BrokerSpec.
From S2P Require Import Handler HandlerSpec BrokerApi BrokerStage BrokerStageSpec BrokerRouting BrokerProps HandlerClient.

#[local] Opaque unsubscribe_all unsubscribe subscribe add_mount del_mount search_mounts.

Abbreviation cpack := cp_pack_chainpack_func.
Abbreviation cunpack := cp_unpack_chainpack_func.

(** ** Messages between the two *)

Section messages.
Context (ck : chunks) (ck_wf : chunks_wf ck) (gperf_rpcaccess : cstr → option Z).
Context (o : obstack) (o_ok : obs_ok o).

(** The message the handler makes of what was sent, valid. *)
Definition receive (p : ofile) : option (rpchandler_msg rfile) :=
  match p with
  | None => None
  | Some w =>
      let '(u, it, (head, o)) := rpcmsg_head_unpack cunpack ck (λ _, true) gperf_rpcaccess None
        (RFile (wf_out w) false) (cpitem_unpack_init (Item CPITEM_INVALID (AsError CPERR_NONE) None 0)) o in
      match head with HeadOk m => Some (Msg m (Some u) it o true) | _ => None end
  end.

(** The message with the metadata and, in front of the unpacker, the tokens. *)
Definition received_as (p : ofile) (m : rpcmsg_meta) (value : bool) (ts : list tok) : Prop :=
  ∃ it o', receive p = Some (Msg m (Some (RFile (flat_map tok_bytes ts) false)) it o' true) ∧
    idle_item it ∧ rpcmsg_has_value it = value ∧ obs_ok o'.

Lemma outputs_assoc {P} (pack : P → cpitem → P * bool) `{!PackSpec pack} a b c ts :
  outputs pack ((a >>> b) >>> c) ts → outputs pack (a >>> b >>> c) ts.
Proof. intros H p p' He. rewrite <-(H p p' He). unfold and_then. by destruct (a p). Qed.

Lemma packed_bytes c ts : outputs cpack c ts → (c new_file).1 = Some (WFile (flat_map tok_bytes ts) None false).
Proof.
  intros Hc. pose proof (emitted_list_written ts (WFile [] None false) eq_refl I) as He. apply Hc in He.
  unfold new_file. fold ofile in *. by rewrite He.
Qed.

Lemma receive_head l u it m v o' :
  head_obs cunpack ck gperf_rpcaccess None o (RFile l false)
    (cpitem_unpack_init (Item CPITEM_INVALID (AsError CPERR_NONE) None 0)) = (u, it, (HeadOk m, v, o')) →
  receive (Some (WFile l None false)) = Some (Msg m (Some u) it o' true) ∧ rpcmsg_has_value it = v.
Proof.
  unfold head_obs, receive. cbn [wf_out]. destruct (rpcmsg_head_unpack _ _ _ _ _ _ _ _) as [[u1 it1] [r1 o1]].
  by intros [= -> -> -> -> ->].
Qed.

Lemma message_received c fs key ts m rid acc m' :
  outputs cpack c (head_toks fs (next_tok key) ++ ts) →
  Forall (field_ok rpcmsg_meta_limits_default) fs → Z.of_nat (length fs) < 2 ^ 32 → srange 32 key →
  foldl field_put (meta_init, false, false) fs = (m, rid, acc) →
  (∀ o u it, head_kind cunpack key (Head m rid acc o) u it = (u, it, Some m')) →
  received_as (c new_file).1 m' (negb (key =? 0)) ts.
Proof.
  intros Hc Hfs Hlen Hkey Hput Hkind.
  assert (Forall tok_wf (head_toks fs (next_tok key))) as Hh by (by eapply head_toks_wf).
  rewrite (packed_bytes _ _ Hc), flat_map_app.
  destruct (reads_head_obs cunpack ck gperf_rpcaccess None o fs key m rid acc m' ck_wf o_ok Hfs Hlen Hkey Hput Hkind
    (RFile (flat_map tok_bytes (head_toks fs (next_tok key)) ++ flat_map tok_bytes ts) false)
    (RFile (flat_map tok_bytes ts) false) (cpitem_unpack_init (Item CPITEM_INVALID (AsError CPERR_NONE) None 0)))
    as (it' & [[r v] o'] & E & Hi & [[= -> ->] Ho]); [by apply yields_tok_bytes|done|].
  apply receive_head in E as [Er Ev]. by exists it', o'.
Qed.

(** Requests as the login stage packs them, and what the broker answers. *)
Lemma request_received c method rid key ts :
  outputs cpack c ts → packable_int rid → within (name_limit rpcmsg_meta_limits_default) method →
  key = 0 ∨ key = RPCMSG_KEY_PARAM →
  received_as (((_rpcmsg_pack_request cpack (Some []) method None rid >>> pack_next cpack key) >>> c) new_file).1
    (request_meta (Some []) method None rid) (negb (key =? 0)) ts.
Proof.
  intros Hc Hr Hm Hk. assert (srange 32 key) by (by destruct Hk as [->| ->]).
  eapply (message_received _ (request_fields (Some []) method None rid) key); try done.
  - apply outputs_then; [|done]. apply outputs_request; [by_evaluation|apply Hm|by_evaluation|done|done].
  - unfold request_fields. fields_ok. by_evaluation.
  - intros. by destruct Hk as [->| ->].
Qed.

Lemma response_received c t rid key ts m :
  outputs cpack c ts → packable_int rid → request_id m = rid → cids m = [] →
  (t, key) ∈ [(RPCMSG_T_RESPONSE, 0); (RPCMSG_T_RESPONSE, RPCMSG_KEY_RESULT);
              (RPCMSG_T_ERROR, RPCMSG_KEY_ERROR)] →
  received_as (((_pack_response cpack m >>> pack_next cpack key) >>> c) new_file).1
    (response_meta t rid []) (negb (key =? 0)) ts.
Proof.
  intros Hc Hr Em Ec Hk.
  assert (srange 32 key) by (rewrite !elem_of_cons, elem_of_nil in Hk; by destruct Hk as [|[|[|[]]]]; simplify_eq).
  eapply (message_received _ (response_fields rid []) key); try done.
  - apply outputs_then; [|done]. rewrite <-Em, <-Ec. apply outputs_response; [by rewrite Em|by rewrite Ec; constructor|done].
  - apply (response_fields_ok None); [done|]. by split; [constructor|].
  - intros. by apply (response_kind t rid []).
Qed.
End messages.

(** ** Reading the nonce *)

Definition nonce_toks (n : cstr) : list tok := [TMap; TString (str "nonce"); TString n].

Lemma nonce_read {U} (unpack : U → cpitem → U * cpitem) `{!UnpackSpec unpack} n dest u u' it :
  text n → Z.of_nat (length n) < 32 → length dest = 33%nat → yields_list unpack (nonce_toks n) u u' → idle_item it →
  ∃ it' m, read_nonce unpack u it dest = (u', it', m) ∧ until_nul m = n ∧ length m = 33%nat.
Proof.
  intros Ht Hn Hd (u1 & Hy1 & u2 & Hy2 & u3 & Hy3 & ->) Hi.
  destruct (unpack_idle unpack TMap u u1 it Hy1 eq_refl Hi) as (it1 & Hu1 & [Ht1 _] & Hi1).
  destruct (map_key unpack 5 (str "nonce") u1 u2 it1 Hy2 Hi1) as (it2 & Hu2 & Ht2 & Hi2 & Hkey);
    [by_evaluation|by_evaluation|].
  destruct (strncpy_spec unpack n u2 (set_bufsiz 0 it2) u3 dest 32) as (u4 & it4 & m & Hc & Hb & Hl & Htk & _ & Hz & _);
    [by apply data_next_string|by_evaluation|lia|]. destruct Hz as (Hz & _ & ->); [lia|].
  exists it4, m. split; [|split; [|lia]].
  - unfold read_nonce, cp_unpack_type. rewrite Hu1, Ht1. cbn [tok_type]. rewrite bool_decide_true by done.
    assert (steps (map_step unpack 5 (nonce_key unpack)) 1 (u1, it1, dest) (inr (u3, it4, inr m))) as Hs.
    { apply steps_stop. unfold map_step. rewrite Hu2. cbn [type set_bufsiz as_ buf]. rewrite Ht2, bool_decide_true by done.
      rewrite Hkey. unfold nonce_key. rewrite Hc, Hb. done. }
    unfold for_cp_unpack_map. by rewrite (run_steps _ _ _ _ Hs) by lia.
  - rewrite (take_ge n) in Htk by lia. rewrite <-(take_drop_middle m (length n) 0 Hz), Htk.
    apply until_nul_wf. apply Ht.
Qed.

(** ** What the broker answers *)

Section broker.
Context {P U : Type} (unpack : U → cpitem → U * cpitem) (ck : chunks) (alloc : Z → bool).
Context (pack : P → cpitem → P * bool) (fresh : P).
Context (random : list Z) (login_ : rpclogin → cstr → rpcbroker_login_res).
Implicit Types b : rpcbroker P.
Implicit Types ctx : rpchandler_msg U.

(** The client is [c'] now, and the last thing that happened was that it was sent [p]. *)
Definition answered b (i : Z) (c' : clientctx) (p : P) b' : Prop :=
  changed b i c' b' ∧ last (events b') = Some (Sent i p).

Definition nonce_of (c : clientctx) : cstr := if cget (nonce c) 0 =? 0 then generate_nonce random else nonce c.

Definition pack_nonce (m : rpcmsg_meta) (n : cstr) : P → P * bool :=
  rpcmsg_pack_response pack m >>> cp_pack_map_begin pack >>> cp_pack_str pack (Some (str "nonce")) >>>
  cp_pack_string pack n >>> cp_pack_container_end pack >>> cp_pack_container_end pack.

Lemma last_emits b i p : last (events (emits [Sent i p] b)) = Some (Sent i p).
Proof. simpl. apply last_snoc. Qed.

Lemma hello_run b i c ctx :
  broker_inv b → slot_at b i = Some (Live c) → is_type (hmeta ctx) RPCMSG_T_REQUEST = true → hvalid ctx = true →
  ∃ b' ctx', login_hello pack fresh random i ctx b = inl (b', ctx') ∧
    answered b i (set_nonce (nonce_of c) c) (pack_nonce (hmeta ctx) (nonce_of c) fresh).1 b' ∧
    mounts b' = mounts b ∧ subs b' = subs b ∧ hunpack ctx' = None.
Proof.
  intros Hinv Hi Hr Hv. pose proof (validated_answerable ctx ctx Hr eq_refl) as [_ Ha].
  unfold login_hello, rpchandler_msg_valid in *. cbn [fst] in Ha. rewrite Hv in Ha |- *. cbn [negb].
  rewrite (bind_run _ _ b b c) by (unfold client_at; by rewrite Hi).
  assert ((if cget (nonce c) 0 =? 0 then update_client i (set_nonce (generate_nonce random)) else mret tt) b =
    inl (put b i (Live (set_nonce (nonce_of c) c)), tt) ∧
    changed b i (set_nonce (nonce_of c) c) (put b i (Live (set_nonce (nonce_of c) c)))) as [E Hch].
  { unfold nonce_of. destruct (_ =? 0); [by apply update_changed|].
    replace (set_nonce (nonce c) c) with c by (by destruct c).
    rewrite put_same by done. split; [done|by apply changed_refl]. }
  rewrite (bind_run _ _ _ _ _ E). pose proof Hch as (_ & Hi' & _).
  set (b1 := put b i _) in *. rewrite (bind_run _ _ _ b1 (set_nonce (nonce_of c) c)) by (unfold client_at; by rewrite Hi').
  unfold rpchandler_msg_new, rpchandler_msg_send. cbn [hunpack hmeta nonce set_nonce]. rewrite Ha.
  rewrite (bind_run _ _ _ _ _ eq_refl). eexists (emits [_] b1), _. split; [done|]. split; [split; [done|apply last_emits]|done].
Qed.

(** A login that is refused. *)
Lemma fails_run b i c ctx text b1 :
  answerable ctx → changed b i c b1 →
  ∃ b', login_fails pack fresh i ctx text b1 = inl (b', ctx) ∧
    answered b i c (rpcmsg_pack_error pack (hmeta ctx) RPCERR_METHOD_CALL_EXCEPTION (Some text) fresh).1 b'.
Proof.
  intros Ha Hc. unfold login_fails, rpchandler_msg_send_error.
  rewrite (bind_run _ _ _ _ _ (send_packed_emits fresh i _ _ b1 Ha)). eexists. split; [done|]. split; [done|apply last_emits].
Qed.

(** The client once the broker has welcomed it. *)
Definition welcomed (l : rpclogin) (r : rpcbroker_role) (c : clientctx) : clientctx :=
  set_timeout (if idle_timeout l =? 0 then SHV_IDLE_TIMEOUT_DEFAULT else idle_timeout l)
    (match RpcLogin.username l with Some u => set_user (Some u) | None => id end (set_role (Some r) c)).

(** The client has the role and is told so, or its mount point is refused and it is sent
    an error. *)
Definition decided b i c (m : rpcmsg_meta) (l : rpclogin) (r : rpcbroker_role) b' : Prop :=
  answered b i (welcomed l r c) (rpcmsg_pack_response_void pack m fresh).1 b' ∨
  (is_Some (mount_point r) ∧ ∃ txt, txt ∈ [str "Mount point not allowed"; str "Mount point already exists"] ∧
    answered b i (set_role None c) (rpcmsg_pack_error pack m RPCERR_METHOD_CALL_EXCEPTION (Some txt) fresh).1 b').

Lemma welcome_run b i c ctx l r b1 :
  answerable ctx → changed b i (set_role (Some r) c) b1 →
  ∃ b', (match RpcLogin.username l with Some u => update_client i (set_user (Some u)) | None => mret tt end;;
      update_client i (set_timeout (if idle_timeout l =? 0 then SHV_IDLE_TIMEOUT_DEFAULT else idle_timeout l));;
      rpchandler_msg_send_response_void pack fresh (sendto i) ctx;; mret ctx) b1 = inl (b', ctx) ∧
    answered b i (welcomed l r c) (rpcmsg_pack_response_void pack (hmeta ctx) fresh).1 b'.
Proof.
  intros Ha Hc. pose proof Hc as (Hinv1 & Hi1 & _).
  set (c2 := match RpcLogin.username l with Some u => set_user (Some u) | None => id end (set_role (Some r) c)).
  assert ((match RpcLogin.username l with Some u => update_client i (set_user (Some u)) | None => mret tt end) b1 =
    inl (put b1 i (Live c2), tt) ∧ changed b1 i c2 (put b1 i (Live c2))) as [E2 Hc2].
  { unfold c2. destruct (RpcLogin.username l); [by apply update_changed|]. rewrite put_same by done. by split. }
  rewrite (bind_run _ _ _ _ _ E2). pose proof Hc2 as (Hinv2 & Hi2 & _).
  destruct (update_changed (put b1 i (Live c2)) i c2
    (set_timeout (if idle_timeout l =? 0 then SHV_IDLE_TIMEOUT_DEFAULT else idle_timeout l))) as [E3 Hc3]; [done..|].
  rewrite (bind_run _ _ _ _ _ E3). unfold rpchandler_msg_send_response_void.
  rewrite (bind_run _ _ _ _ _ (send_packed_emits fresh i _ _ _ Ha)). eexists. split; [done|].
  split; [|apply last_emits]. exact (changed_trans _ _ _ _ _ _ Hc (changed_trans _ _ _ _ _ _ Hc2 Hc3)).
Qed.

Lemma accept_run b i c ctx l r :
  broker_inv b → slot_at b i = Some (Live c) → role c = None → answerable ctx → role_ok r →
  fits b (length (subscriptions r)) →
  ∃ b', login_accept pack fresh i ctx l r b = inl (b', ctx) ∧ decided b i c (hmeta ctx) l r b'.
Proof.
  intros Hinv Hi Er Ha Hr Hf. pose proof Hinv as (Hcl & Hsu & Hmo & Hmt & _ & Hl).
  destruct (role_assign_spec pack fresh (set_locked (negb (nolock b)) b) i c r) as (b1 & res & Eb & Has & Hnone);
    try done; [by apply (mounted_but_none b i c)|].
  destruct (assigned_changed b i c r b1 res Hinv Hi Has) as [Eu Hch].
  unfold login_accept. rewrite (bind_run _ _ _ _ _ (lock_run b Hl)), (bind_run _ _ _ _ _ Eb), (bind_run _ _ _ _ _ Eu).
  destruct (decide (res = ROLE_RES_OK)) as [->|Hres].
  - destruct (welcome_run b i c ctx l r (set_locked false b1) Ha Hch) as (b' & E & Hw). exists b'. split; [exact E|by left].
  - assert (settled res r = None) as Es by (by destruct res). rewrite Es in Hch.
    assert (is_Some (mount_point r)) as Hmp by (destruct (mount_point r); [done|by rewrite Hnone in Hres]).
    assert (∀ txt, txt ∈ [str "Mount point not allowed"; str "Mount point already exists"] →
      ∃ b', login_fails pack fresh i ctx txt (set_locked false b1) = inl (b', ctx) ∧
        decided b i c (hmeta ctx) l r b') as Hfail.
    { intros txt Ht. destruct (fails_run b i (set_role None c) ctx txt (set_locked false b1) Ha Hch) as (b' & E & Hw).
      exists b'. split; [exact E|]. right. split; [done|]. by exists txt. }
    destruct res; [done|apply Hfail; by left|apply Hfail; by right; left].
Qed.
End broker.

(** ** Rounds *)

Section rounds.
Context (ck : chunks) (ck_wf : chunks_wf ck) (gperf_rpcaccess : cstr → option Z).
Context (o : obstack) (o_ok : obs_ok o) (sha1 : list Z → list Z) (sha1_wf : sha1_ok sha1).
Context (random : list Z) (login_ : rpclogin → cstr → rpcbroker_login_res).
Context (gperf_broker : cstr → option api_broker_methods).
Context (gperf_current_client : cstr → option current_client_methods).

(** The item on the stack of a handler. *)
Definition new_item : cpitem := Item CPITEM_INVALID (AsError CPERR_NONE) None 0.

(** The handler takes over the message, complete and valid. *)
Definition deliver {S} (sendmsg : ofile → M S bool) (stages : list (rpchandler_funcs S ofile rfile)) (p : ofile) : M S bool :=
  w ← need NullPointer p;
  rpchandler_next cunpack ck (λ _, true) gperf_rpcaccess cpack new_file sendmsg (mret tt) (mret true) stages o
    new_item (mret (RPCC_MESSAGE (RFile (wf_out w) false) true)).

(** The client: its login stage and what it sent last. *)
Definition cstate : Type := rpchandler_login * option ofile.
Definition csend (p : ofile) : M cstate bool := λ s, inl ((s.1, Some p), true).
Definition cset (l : rpchandler_login) (s : cstate) : cstate := (l, s.2).

Definition client_stages (now : Z) : list (rpchandler_funcs cstate ofile rfile) :=
  [rpchandler_login_stage cunpack (λ _, true) sha1 cpack new_file csend fst cset now].

Definition broker_stages (now i : Z) : list (rpchandler_funcs (rpcbroker ofile) ofile rfile) :=
  [access_funcs cunpack ck (λ _, true) cpack new_file random login_ now i;
   rpc_funcs cunpack ck cpack new_file gperf_broker gperf_current_client now i].

Definition returned {A} (x : A + fault) : option A := match x with inl a => Some a | inr _ => None end.

(** The client is idle and sends something, the broker gets it and sends something, and
    the client gets that. *)
Definition round (now i : Z) (s : rpchandler_login * rpcbroker ofile) : option (rpchandler_login * rpcbroker ofile) :=
  '((l, sent), _) ← returned (rpchandler_idling (client_stages now) now (s.1, None));
  p ← sent;
  '(b, _) ← returned (deliver (sendto i) (broker_stages now i) p s.2);
  match last (events b) with
  | Some (Sent j q) =>
      if j =? i then '((l, _), _) ← returned (deliver csend (client_stages now) q (l, None)); Some (l, b) else None
  | _ => None
  end.

(** *** The client *)

Definition awaits (l : rpchandler_login) : Prop :=
  logged l = false ∧ lerrnum l = RPCERR_NO_ERROR ∧ lerrmsg l = TNull ∧ length (lnonce l) = 33%nat.

Lemma until_nul_head l : cget l 0 =? 0 = match until_nul l with [] => true | _ => false end.
Proof. destruct l as [|x l]; [done|]. unfold cget. simpl. by destruct (x =? 0). Qed.

Lemma i32_small z : - 2 ^ 31 ≤ z < 2 ^ 31 → i32 z = z.
Proof. intros Hz. by apply swrap_small. Qed.

Lemma idle_one now s s' :
  (∃ x, login_idle sha1 cpack new_file csend fst cset now (IdleCtx now false) s = inl (s', x)) →
  ∃ t, rpchandler_idling (client_stages now) now s = inl (s', t).
Proof.
  intros [[ctx t] E]. unfold rpchandler_idling. eexists. erewrite bind_run; [done|].
  cbn [idle_stages client_stages rpchandler_login_stage fidle]. change (RPCHANDLER_IDLE_SKIP >? 0) with true. cbn iota.
  by rewrite (bind_run _ _ _ _ _ E).
Qed.

Lemma idle_hello now l :
  awaits l → until_nul (lnonce l) = [] → last_request l = 0 → HELLO_TIMEOUT ≤ now < 2 ^ 31 →
  ∃ t, rpchandler_idling (client_stages now) now (l, None) =
    inl ((set_last_request now l, Some (hello_request cpack new_file).1), t).
Proof.
  intros (Hl & He & _) Hn Hr Hnow. unfold HELLO_TIMEOUT in Hnow.
  apply idle_one.
  unfold login_idle. erewrite bind_run by done. cbn [fst]. rewrite Hl, He. cbn [Z.eqb RPCERR_NO_ERROR negb].
  rewrite until_nul_head, Hn. cbn [negb]. rewrite Hr, i32_small by (unfold HELLO_TIMEOUT; lia).
  destruct (Z.gtb_spec (HELLO_TIMEOUT - (now - 0)) 0); [unfold HELLO_TIMEOUT in *; lia|].
  cbn [rpchandler_idle_msg_new msg_sent]. eexists. by erewrite bind_run by done.
Qed.

Lemma idle_login now l n :
  awaits l → until_nul (lnonce l) = n → n ≠ [] → last_request l = 0 → LOGIN_TIMEOUT ≤ now < 2 ^ 31 →
  ∃ t, rpchandler_idling (client_stages now) now (l, None) =
    inl ((set_last_request now l, Some (login_request sha1 cpack l new_file).1), t).
Proof.
  intros (Hl & He & _) Hn Hne Hr Hnow. unfold LOGIN_TIMEOUT in Hnow.
  apply idle_one.
  unfold login_idle. erewrite bind_run by done. cbn [fst]. rewrite Hl, He. cbn [Z.eqb RPCERR_NO_ERROR negb].
  rewrite until_nul_head, Hn. destruct n as [|x n]; [done|]. cbn [negb].
  rewrite Hr, i32_small by (unfold LOGIN_TIMEOUT; lia).
  destruct (Z.gtb_spec (LOGIN_TIMEOUT - (now - 0)) 0); [unfold LOGIN_TIMEOUT in *; lia|].
  cbn [rpchandler_idle_msg_new msg_sent]. eexists. by erewrite bind_run by done.
Qed.

Lemma deliver_run {S} sendmsg (stages : list (rpchandler_funcs S ofile rfile)) p ctx s s' r :
  receive ck gperf_rpcaccess o p = Some ctx →
  handle_msg cunpack ck cpack new_file sendmsg (mret tt) stages ctx s = inl (s', r) →
  deliver sendmsg stages p s = inl (s', r).
Proof.
  destruct p as [w|]; [|done]. unfold receive, deliver. cbn [need]. intros Hr Hh. erewrite bind_run by done.
  unfold rpchandler_next. erewrite bind_run by done. cbn beta iota.
  change (cpitem_unpack_init new_item) with (cpitem_unpack_init (Item CPITEM_INVALID (AsError CPERR_NONE) None 0)).
  destruct (rpcmsg_head_unpack _ _ _ _ _ _ _ _) as [[u it] [[m| |] o']]; [|done..].
  injection Hr as <-. erewrite bind_run by exact Hh. by destruct r.
Qed.

(** A stage that deals with the message. *)
Lemma handled_by {S} sendmsg (f : rpchandler_funcs S ofile rfile) g stages ctx s s' ctx' res :
  fmsg f = Some g → g ctx s = inl (s', (ctx', res)) → hunpack ctx' = None → res ≠ RPCHANDLER_MSG_SKIP →
  handle_msg cunpack ck cpack new_file sendmsg (mret tt) (f :: stages) ctx s =
    inl (s', bool_decide (res = RPCHANDLER_MSG_DONE)).
Proof.
  intros Hf Hg Hu Hs. unfold handle_msg. cbn [handle_stages]. rewrite Hf. erewrite bind_run by exact Hg.
  cbn beta iota. rewrite decide_False by done. by rewrite Hu.
Qed.

Abbreviation to_client now := (deliver csend (client_stages now)).

Lemma client_nonce now l q n rest :
  awaits l → text n → Z.of_nat (length n) < 32 →
  received_as ck gperf_rpcaccess o q (response_meta RPCMSG_T_RESPONSE HELLO_RID []) true (nonce_toks n ++ rest) →
  ∃ l', to_client now q (l, None) = inl ((l', None), true) ∧
    awaits l' ∧ until_nul (lnonce l') = n ∧ last_request l' = 0 ∧ opts l' = opts l.
Proof.
  intros (Hl & He & Hm0 & Hlen) Ht Hn (it & o' & Hr & Hi & _ & _). rewrite flat_map_app in Hr.
  destruct (nonce_read cunpack n (lnonce l) (RFile (flat_map tok_bytes (nonce_toks n) ++ flat_map tok_bytes rest) false)
    (RFile (flat_map tok_bytes rest) false) it) as (it' & m & E & Em & Hm); [done..| |done|].
  { apply yields_tok_bytes. toks_wf. apply text_bytes. by_evaluation. }
  set (l' := set_last_request 0 (set_lnonce m l)). exists l'. split; [|done].
  eapply deliver_run; [exact Hr|]. eapply (handled_by _ _ _ _ _ _ _ _ RPCHANDLER_MSG_DONE); [done| | |done].
  - unfold login_msg. erewrite bind_run by done. cbn [fst]. rewrite Hl. unfold hello_response.
    change (is_type _ RPCMSG_T_RESPONSE) with true. cbn [hmeta response_meta request_id]. cbn iota.
    change (HELLO_RID =? HELLO_RID) with true. cbn iota. erewrite bind_run by done. unfold reading. cbn [hunpack hitem fst].
    erewrite bind_run; [|erewrite bind_run by done; by rewrite E]. done.
  - done.
Qed.

Lemma client_welcome now l q value ts :
  awaits l → received_as ck gperf_rpcaccess o q (response_meta RPCMSG_T_RESPONSE LOGIN_RID []) value ts →
  to_client now q (l, None) = inl ((set_logged true l, None), true).
Proof.
  intros (Hl & He & Hm0 & Hlen) (it & o' & Hr & _). eapply deliver_run; [exact Hr|].
  eapply (handled_by _ _ _ _ _ _ _ _ RPCHANDLER_MSG_DONE); [done| | |done].
  - unfold login_msg. erewrite bind_run by done. cbn [fst]. by rewrite Hl.
  - done.
Qed.

Lemma client_refused now l q errnum txt :
  awaits l → urange 32 errnum → text txt →
  received_as ck gperf_rpcaccess o q (response_meta RPCMSG_T_ERROR LOGIN_RID []) true (error_toks errnum (Some txt) ++ [TEnd]) →
  to_client now q (l, None) = inl ((set_error errnum (TText txt) l, None), false).
Proof.
  intros (Hl & He & Hm0 & Hlen) Hn Ht (it & o' & Hr & Hi & _). rewrite flat_map_app in Hr.
  destruct (reads_error cunpack errnum (Some txt) Hn Ht
    (RFile (flat_map tok_bytes (error_toks errnum (Some txt)) ++ flat_map tok_bytes [TEnd]) false)
    (RFile (flat_map tok_bytes [TEnd]) false) it) as (it' & ? & E & _ & ->); [|done|].
  { apply yields_tok_bytes. by apply error_toks_wf. }
  eapply deliver_run; [exact Hr|].
  eapply (handled_by _ _ _ _ _ _ _ _ RPCHANDLER_MSG_STOP); [done| | |done].
  - unfold login_msg. erewrite bind_run by done. cbn [fst]. rewrite Hl.
    change (is_type _ RPCMSG_T_RESPONSE) with false. change (is_type _ RPCMSG_T_ERROR && _) with true. cbn iota.
    unfold login_error, reading. cbn [hunpack hitem].
    erewrite bind_run; [|erewrite bind_run by done; by rewrite E]. done.
  - done.
Qed.

(** *** The broker *)

Lemma access_run now i b c ctx b' ctx' :
  slot_at b i = Some (Live c) → broker_inv b → role c = None → is_type (hmeta ctx) RPCMSG_T_REQUEST = true →
  rpcbroker_api_login_msg cunpack ck (λ _, true) cpack new_file random login_ i ctx (put b i (Live (set_activity now c))) =
    inl (b', ctx') →
  access_msg cunpack ck (λ _, true) cpack new_file random login_ now i ctx b = inl (b', (ctx', RPCHANDLER_MSG_DONE)).
Proof.
  intros Hi Hinv Er Hr E. unfold access_msg.
  destruct (update_changed b i c (set_activity now)) as [E1 (_ & Hi1 & _)]; [done..|]. rewrite (bind_run _ _ _ _ _ E1).
  set (b1 := put _ _ _) in *. rewrite (bind_run _ _ b1 b1 (set_activity now c)) by (unfold client_at; by rewrite Hi1).
  change (role (set_activity now c)) with (role c). rewrite Er, Hr. by rewrite (bind_run _ _ _ _ _ E).
Qed.

Abbreviation to_broker now i := (deliver (sendto i) (broker_stages now i)).

Lemma active (b : rpcbroker ofile) i c now :
  slot_at b i = Some (Live c) → broker_inv b → changed b i (set_activity now c) (put b i (Live (set_activity now c))).
Proof. intros. by apply (update_changed b i c (set_activity now)). Qed.

Lemma answered_active (b : rpcbroker ofile) i c c' now p b' :
  slot_at b i = Some (Live c) → broker_inv b → answered (put b i (Live (set_activity now c))) i c' p b' → answered b i c' p b'.
Proof.
  intros Hi Hinv [Hc He]. split; [|done]. exact (changed_trans _ _ _ _ _ _ (active b i c now Hi Hinv) Hc).
Qed.

Lemma broker_hello now i (b : rpcbroker ofile) c p :
  broker_inv b → slot_at b i = Some (Live c) → role c = None →
  received_as ck gperf_rpcaccess o p (request_meta (Some []) (str "hello") None HELLO_RID) false [] →
  ∃ b', to_broker now i p b = inl (b', true) ∧
    answered b i (set_nonce (nonce_of random c) (set_activity now c))
      (pack_nonce cpack (request_meta (Some []) (str "hello") None HELLO_RID) (nonce_of random c) new_file).1 b' ∧
    mounts b' = mounts b ∧ subs b' = subs b.
Proof.
  intros Hinv Hi Er (it & o' & Hr & _). set (ctx := Msg _ _ it o' true) in Hr.
  destruct (active b i c now Hi Hinv) as (Hinv1 & Hi1 & _).
  destruct (hello_run cpack new_file random _ i (set_activity now c) ctx Hinv1 Hi1 eq_refl eq_refl)
    as (b' & ctx' & E & Ha & Em & Es & Hu).
  exists b'. split; [|split; [exact (answered_active _ _ _ _ _ _ _ Hi Hinv Ha)|done]].
  eapply deliver_run; [exact Hr|]. eapply (handled_by _ _ _ _ _ _ _ ctx' RPCHANDLER_MSG_DONE); [done| |exact Hu|done].
  by apply (access_run now i b c).
Qed.

(** What becomes of a login. *)
Definition verdict (b : rpcbroker ofile) i c (m : rpcmsg_meta) (l : rpclogin) b' : Prop :=
  match login_ l (nonce c) with
  | LoginOk r => decided cpack new_file b i c m l r b'
  | LoginFailed errmsg =>
      answered b i c (rpcmsg_pack_error cpack m RPCERR_METHOD_CALL_EXCEPTION
        (Some (default (str "Invalid login") errmsg)) new_file).1 b'
  end.

Lemma verdict_active (b : rpcbroker ofile) i c now m l b' :
  slot_at b i = Some (Live c) → broker_inv b →
  verdict (put b i (Live (set_activity now c))) i (set_activity now c) m l b' → verdict b i (set_activity now c) m l b'.
Proof.
  intros Hi Hinv. unfold verdict, decided. destruct (login_ _ _) as [r|]; [|by apply answered_active].
  intros [Ha|(Hm & txt & Ht & Ha)]; [left; by eapply answered_active|].
  right. split; [done|]. exists txt. split; [done|]. by eapply answered_active.
Qed.

Lemma login_run i b c l n ctx rest :
  broker_inv b → slot_at b i = Some (Live c) → role c = None → login_wf l → obs_ok (hobs ctx) → idle_item (hitem ctx) →
  is_type (hmeta ctx) RPCMSG_T_REQUEST = true → hvalid ctx = true →
  hunpack ctx = Some (RFile (flat_map tok_bytes (map_toks (login_pairs sha1 l n false)) ++ rest) false) →
  (∀ l n r, login_ l n = LoginOk r → role_ok r ∧ fits b (length (subscriptions r))) →
  ∃ b' ctx', login_login cunpack ck (λ _, true) cpack new_file login_ i ctx b = inl (b', ctx') ∧ hunpack ctx' = None ∧
    verdict b i c (hmeta ctx) (received sha1 l n false) b'.
Proof.
  intros Hinv Hi Er Hl Ho Hit Hr Hv Hu Hlog. unfold login_login. rewrite Hu, (bind_run _ _ b b _ eq_refl).
  destruct (reads_login sha1 sha1_wf cunpack ck ck_wf l n false (hobs ctx) Hl Ho
    (RFile (flat_map tok_bytes (map_toks (login_pairs sha1 l n false)) ++ rest) false) (RFile rest false) (hitem ctx))
    as (it' & [l' o'] & E & _ & El); [by apply yields_tok_bytes, login_toks_wf|done|].
  simpl in El. subst l'. rewrite E. set (ctx1 := set_hobs o' (set_read _ it' ctx)).
  pose proof (validated_answerable ctx ctx1 Hr eq_refl) as Ha. unfold rpchandler_msg_valid in *.
  change (hvalid ctx1) with (hvalid ctx) in *. rewrite Hv in *. cbn [negb fst] in *. set (ctx2 := Msg _ _ _ _ _) in *.
  rewrite (bind_run _ _ b b c) by (unfold client_at; by rewrite Hi). unfold verdict.
  destruct (login_ _ (nonce c)) as [r|errmsg] eqn:Eg.
  - destruct (Hlog _ _ _ Eg). destruct (accept_run cpack new_file b i c ctx2 (received sha1 l n false) r)
      as (b' & Eb & Hd); [done..|]. by exists b', ctx2.
  - destruct (fails_run cpack new_file b i c ctx2 (default (str "Invalid login") errmsg) b Ha) as (b' & Eb & Hd);
      [by apply changed_refl|]. by exists b', ctx2.
Qed.

Lemma broker_login now i (b : rpcbroker ofile) c l n p :
  broker_inv b → slot_at b i = Some (Live c) → role c = None → login_wf l →
  (∀ l n r, login_ l n = LoginOk r → role_ok r ∧ fits b (length (subscriptions r))) →
  let m := request_meta (Some []) (str "login") None LOGIN_RID in
  received_as ck gperf_rpcaccess o p m true (map_toks (login_pairs sha1 l n false) ++ [TEnd]) →
  ∃ b', to_broker now i p b = inl (b', true) ∧
    verdict b i (set_activity now c) m (received sha1 l n false) b'.
Proof.
  intros Hinv Hi Er Hl Hlog m (it & o' & Hr & Hit & _ & Ho). rewrite flat_map_app in Hr.
  set (ctx := Msg _ _ it o' true) in Hr. destruct (active b i c now Hi Hinv) as (Hinv1 & Hi1 & _).
  destruct (login_run i _ (set_activity now c) l n ctx (flat_map tok_bytes [TEnd]) Hinv1 Hi1)
    as (b' & ctx' & E & Hu & Hd); [done..|].
  exists b'. split; [|by apply verdict_active].
  eapply deliver_run; [exact Hr|]. eapply (handled_by _ _ _ _ _ _ _ ctx' RPCHANDLER_MSG_DONE); [done| |exact Hu|done].
  by apply (access_run now i b c).
Qed.

(** *** What is sent *)

Lemma hello_sent : received_as ck gperf_rpcaccess o (hello_request cpack new_file).1
  (request_meta (Some []) (str "hello") None HELLO_RID) false [].
Proof.
  pose proof (request_received ck ck_wf gperf_rpcaccess o o_ok nop (str "hello") HELLO_RID 0 []) as H.
  rewrite and_then_fst in H. apply H; [exact (outputs_nop cpack)|done|by_evaluation|by left].
Qed.

Lemma login_sent l :
  login_wf (opts l) →
  received_as ck gperf_rpcaccess o (login_request sha1 cpack l new_file).1
    (request_meta (Some []) (str "login") None LOGIN_RID) true
    (map_toks (login_pairs sha1 (opts l) (until_nul (lnonce l)) false) ++ [TEnd]).
Proof.
  intros Hl. apply (request_received ck ck_wf gperf_rpcaccess o o_ok _ (str "login") LOGIN_RID RPCMSG_KEY_PARAM);
    [|done|by_evaluation|by right].
  apply outputs_then; [by apply outputs_login|auto with shv].
Qed.

Lemma nonce_sent m n :
  text n → packable_int (request_id m) → cids m = [] →
  received_as ck gperf_rpcaccess o (pack_nonce cpack m n new_file).1
    (response_meta RPCMSG_T_RESPONSE (request_id m) []) true (nonce_toks n ++ [TEnd; TEnd]).
Proof.
  intros Hn Hr Hc. apply (response_received ck ck_wf gperf_rpcaccess o o_ok _ _ _ RPCMSG_KEY_RESULT);
    [|done|done|done|by_evaluation].
  apply (outputs_then _ _ _ [TMap]); [auto with shv|]. apply (outputs_then _ _ _ [TString _]); [apply outputs_str; by_evaluation|].
  destruct (text_bytes _ Hn). apply (outputs_then _ _ _ [TString _]); [by apply outputs_string|].
  apply (outputs_then _ _ _ [TEnd]); auto with shv.
Qed.

Lemma welcome_sent m :
  packable_int (request_id m) → cids m = [] →
  received_as ck gperf_rpcaccess o (rpcmsg_pack_response_void cpack m new_file).1
    (response_meta RPCMSG_T_RESPONSE (request_id m) []) false [].
Proof.
  intros Hr Hc.
  pose proof (response_received ck ck_wf gperf_rpcaccess o o_ok nop RPCMSG_T_RESPONSE (request_id m) 0 [] m) as H.
  rewrite and_then_fst in H. apply H; [exact (outputs_nop cpack)|done|done|done|by_evaluation].
Qed.

Lemma error_sent m errnum txt :
  packable_int (request_id m) → cids m = [] → urange 32 errnum → text txt →
  received_as ck gperf_rpcaccess o (rpcmsg_pack_error cpack m errnum (Some txt) new_file).1
    (response_meta RPCMSG_T_ERROR (request_id m) []) true (error_toks errnum (Some txt) ++ [TEnd]).
Proof.
  intros Hr Hc He Ht. unfold rpcmsg_pack_error.
  rewrite and_then_fst, (and_then_fst (cp_pack_int _ _)), <-(and_then_fst (_pack_response _ _)), <-and_then_fst.
  apply (response_received ck ck_wf gperf_rpcaccess o o_ok _ _ _ RPCMSG_KEY_ERROR); [|done|done|done|by_evaluation].
  apply outputs_then; [by apply outputs_error|auto with shv].
Qed.

Lemma round_run now i l b l' p t b' r q l'' r' :
  rpchandler_idling (client_stages now) now (l, None) = inl ((l', Some p), t) → to_broker now i p b = inl (b', r) →
  last (events b') = Some (Sent i q) → to_client now q (l', None) = inl ((l'', None), r') →
  round now i (l, b) = Some (l'', b').
Proof.
  intros E1 E2 E3 E4. unfold round. cbn [fst snd]. rewrite E1. cbn. rewrite E2. cbn. by rewrite E3, Z.eqb_refl, E4.
Qed.

Lemma nonce_of_ok c :
  text (nonce c) → (length (nonce c) < 32)%nat → (5 ≤ length random)%nat →
  text (nonce_of random c) ∧ nonce_of random c ≠ [] ∧ Z.of_nat (length (nonce_of random c)) < 32.
Proof.
  intros Ht Hl Hr. unfold nonce_of. rewrite until_nul_head.
  rewrite (proj2 (until_nul_wf (nonce c) [] (proj1 Ht))). destruct (nonce c) as [|x k]; [|split; [done|split; [done|lia]]].
  unfold generate_nonce. change (Z.to_nat (NONCE_LEN / 2)) with 5%nat.
  destruct random as [|r0 [|r1 [|r2 [|r3 [|r4 rs]]]]]; simpl in Hr; try lia. cbn [take flat_map app].
  split; [|split; [done|simpl; lia]]. split; [|simpl; lia].
  repeat (apply Forall_cons_2; [apply hex_text|]). constructor.
Qed.

Lemma first_round now i login b c :
  broker_inv b → slot_at b i = Some (Live c) → role c = None → text (nonce c) → (length (nonce c) < 32)%nat →
  (5 ≤ length random)%nat → HELLO_TIMEOUT ≤ now < 2 ^ 31 →
  let n := nonce_of random c in
  ∃ l1 b1, round now i (rpchandler_login_new login, b) = Some (l1, b1) ∧ awaits l1 ∧ until_nul (lnonce l1) = n ∧
    last_request l1 = 0 ∧ opts l1 = login ∧ changed b i (set_nonce n (set_activity now c)) b1 ∧
    mounts b1 = mounts b ∧ subs b1 = subs b.
Proof.
  intros Hinv Hi Er Ht Hl Hr Hnow n. destruct (nonce_of_ok c Ht Hl Hr) as (Htn & _ & Hln). fold n in Htn, Hln.
  assert (awaits (rpchandler_login_new login)) as Hw by done.
  destruct (idle_hello now (rpchandler_login_new login) Hw) as [t Et]; [done..|].
  destruct (broker_hello now i b c _ Hinv Hi Er hello_sent) as (b1 & Eb & [Hc He] & Hm & Hs).
  destruct (client_nonce now (set_last_request now (rpchandler_login_new login))
    (pack_nonce cpack (request_meta (Some []) (str "hello") None HELLO_RID) n new_file).1 n [TEnd; TEnd])
    as (l1 & El & Hw1 & Hn1 & Hr1 & Ho1); [done..|by apply nonce_sent|].
  exists l1, b1. split; [exact (round_run _ _ _ _ _ _ _ _ _ _ _ _ Et Eb He El)|by split_and!].
Qed.

(** What the two sides hold at the end for what the callback said. *)
Definition agreed (res : rpcbroker_login_res) (user : option cstr) (l : rpchandler_login) (c : clientctx) : Prop :=
  match res with
  | LoginOk r =>
      (rpchandler_login_status l = (true, RPCERR_NO_ERROR, TNull) ∧ role c = Some r ∧
       (is_Some user → username c = user)) ∨
      (is_Some (mount_point r) ∧ role c = None ∧
       ∃ txt, rpchandler_login_status l = (false, RPCERR_METHOD_CALL_EXCEPTION, TText txt))
  | LoginFailed errmsg =>
      role c = None ∧
      rpchandler_login_status l = (false, RPCERR_METHOD_CALL_EXCEPTION, TText (default (str "Invalid login") errmsg))
  end.

Lemma second_round now i l1 b1 c1 n :
  broker_inv b1 → slot_at b1 i = Some (Live c1) → role c1 = None → nonce c1 = n →
  awaits l1 → until_nul (lnonce l1) = n → n ≠ [] → last_request l1 = 0 → login_wf (opts l1) →
  LOGIN_TIMEOUT ≤ now < 2 ^ 31 →
  (∀ l n r, login_ l n = LoginOk r → role_ok r ∧ fits b1 (length (subscriptions r))) →
  (∀ l n e, login_ l n = LoginFailed (Some e) → text e) →
  ∃ l2 b2 c2, round now i (l1, b1) = Some (l2, b2) ∧ changed b1 i c2 b2 ∧
    agreed (login_ (received sha1 (opts l1) n false) n) (RpcLogin.username (opts l1)) l2 c2.
Proof.
  intros Hinv Hi Er En Hw Hn Hne Hr Hl Hnow Hlog Htxt.
  destruct (idle_login now l1 n Hw Hn Hne Hr Hnow) as [t Et].
  pose proof (login_sent l1 Hl) as Hs. rewrite Hn in Hs.
  destruct (broker_login now i b1 c1 (opts l1) n _ Hinv Hi Er Hl Hlog Hs) as (b2 & Eb & Hv).
  set (l' := set_last_request now l1) in *. assert (awaits l') as Hw' by done. destruct Hw as (Hlg & Hen & Hem & _).
  assert (∀ txt c2, text txt → answered b1 i c2
      (rpcmsg_pack_error cpack (request_meta (Some []) (str "login") None LOGIN_RID) RPCERR_METHOD_CALL_EXCEPTION
        (Some txt) new_file).1 b2 →
    ∃ l2, round now i (l1, b1) = Some (l2, b2) ∧ changed b1 i c2 b2 ∧
      rpchandler_login_status l2 = (false, RPCERR_METHOD_CALL_EXCEPTION, TText txt)) as Hfail.
  { intros txt c2 Ht [Hc He]. exists (set_error RPCERR_METHOD_CALL_EXCEPTION (TText txt) l'). split; [|split; [done|]].
    - eapply round_run; [exact Et|exact Eb|exact He|]. apply client_refused; [done|done|done|].
      by apply (error_sent (request_meta (Some []) (str "login") None LOGIN_RID)).
    - unfold rpchandler_login_status. simpl. by rewrite Hlg. }
  unfold verdict in Hv. change (nonce (set_activity now c1)) with (nonce c1) in Hv. rewrite En in Hv. unfold agreed.
  destruct (login_ _ n) as [r|errmsg] eqn:Eg.
  - destruct Hv as [[Hc He]|(Hm & txt & Ht & Ha)].
    + exists (set_logged true l'), b2. eexists. split; [|split; [exact Hc|left]].
      * eapply round_run; [exact Et|exact Eb|exact He|]. eapply client_welcome; [done|].
        by apply (welcome_sent (request_meta (Some []) (str "login") None LOGIN_RID)).
      * unfold rpchandler_login_status, welcomed. simpl. rewrite Hen, Hem. split; [done|].
        unfold received. by destruct (RpcLogin.username (opts l1)).
    + destruct (Hfail txt (set_role None (set_activity now c1))) as (l2 & E2 & Hc & Hst); [|done|].
      { rewrite !elem_of_cons, elem_of_nil in Ht. destruct Ht as [->|[->|[]]]; by_evaluation. }
      exists l2, b2. eexists. split; [exact E2|split; [exact Hc|right]]. split; [done|]. split; [done|by exists txt].
  - destruct (Hfail (default (str "Invalid login") errmsg) (set_activity now c1)) as (l2 & E2 & Hc & Hst); [|done|].
    { destruct errmsg; [by eapply Htxt|by_evaluation]. }
    exists l2, b2. by eexists.
Qed.

(** C7: logging in comes to an end on which the client and the broker agree.  A client that
    starts to log in over a connection the broker has no role for yet gets a nonce in
    the first round and sends its login, hashed with it, in the second.  If the callback
    of the broker accepts what the client sent, the client is logged in and the broker
    has assigned the role and the name of the user, unless it refuses the mount point of
    the role; if the callback refuses it, the client ends with the error and its text and
    has no role.  No other client of the broker is touched. *)
Theorem login_handshake now1 now2 i login b c :
  broker_inv b → slot_at b i = Some (Live c) → role c = None → text (nonce c) → (length (nonce c) < 32)%nat →
  (5 ≤ length random)%nat → login_wf login → HELLO_TIMEOUT ≤ now1 < 2 ^ 31 → LOGIN_TIMEOUT ≤ now2 < 2 ^ 31 →
  (∀ l n r, login_ l n = LoginOk r → role_ok r ∧ fits b (length (subscriptions r))) →
  (∀ l n e, login_ l n = LoginFailed (Some e) → text e) →
  let n := nonce_of random c in
  ∃ s1 l2 b2 c2, round now1 i (rpchandler_login_new login, b) = Some s1 ∧ round now2 i s1 = Some (l2, b2) ∧
    changed b i c2 b2 ∧ agreed (login_ (received sha1 login n false) n) (RpcLogin.username login) l2 c2.
Proof.
  intros Hinv Hi Er Ht Hl Hr Hwf Hn1 Hn2 Hlog Htxt n.
  destruct (first_round now1 i login b c Hinv Hi Er Ht Hl Hr Hn1)
    as (l1 & b1 & E1 & Hw & Hnn & Hlr & Ho & Hc & Hm & Hs). fold n in Hnn, Hc.
  destruct (nonce_of_ok c Ht Hl Hr) as (_ & Hne & _). pose proof Hc as (Hinv1 & Hi1 & _). subst login.
  destruct (second_round now2 i l1 b1 (set_nonce n (set_activity now1 c)) n) as (l2 & b2 & c2 & E2 & Hc2 & Ha); try done.
  { intros l k r Hk. destruct (Hlog l k r Hk). split; [done|]. unfold fits. by rewrite Hm, Hs. }
  exists (l1, b1), l2, b2, c2. split; [done|]. split; [done|]. split; [exact (changed_trans _ _ _ _ _ _ Hc Hc2)|done].
Qed.
End rounds.

(** The password is checked by what the library has for it. *)
Definition demo_login (l : rpclogin) (n : cstr) : rpcbroker_login_res :=
  if rpclogin_validate_password sum_digest l (str "secret") (Some n) RPC_LOGIN_PLAIN then LoginOk (demo_role None [])
  else LoginFailed None.

(** A broker with one client that has no role. *)
Definition demo_guest : rpcbroker ofile := result (demo_run (Register 1000 true None)) demo_start.

Lemma demo_guest_inv : broker_inv demo_guest.
Proof.
  apply (reachable_inv cp_unpack_chainpack_func (Chunks (λ _, 4064) (λ _, 4064)) (λ _, true) cp_pack_chainpack_func new_file
    [1; 2; 3; 4; 5] (λ _ _, LoginFailed None) (assoc api_broker_method_table) (assoc api_current_client_method_table)).
  apply (reachable_step _ _ _ _ _ _ _ _ _ demo_start (Register 1000 true None)); [constructor|done|by vm_compute].
Qed.

Definition demo_user (password : cstr) : rpclogin := Login (Some (str "joe")) (Some password) RPC_LOGIN_PLAIN 60 None None.

Lemma login_handshake_witness :
  let round := round (Chunks (λ _, 4064) (λ _, 4064)) (assoc rpcaccess_table) (Obstack [] 4064) sum_digest [18; 52; 86; 120; 154]
    demo_login (assoc api_broker_method_table) (assoc api_current_client_method_table) in
  ∃ s1 l2 b2 c2, round 1001 0 (rpchandler_login_new (demo_user (str "secret")), demo_guest) = Some s1 ∧
    round 1007 0 s1 = Some (l2, b2) ∧ slot_at b2 0 = Some (Live c2) ∧ logged l2 = true ∧
    role c2 = Some (demo_role None []) ∧ username c2 = Some (str "joe").
Proof.
  intros round. destruct (login_handshake (Chunks (λ _, 4064) (λ _, 4064)) ltac:(done) (assoc rpcaccess_table) (Obstack [] 4064)
    ltac:(done) sum_digest sum_digest_ok [18; 52; 86; 120; 154] demo_login (assoc api_broker_method_table)
    (assoc api_current_client_method_table) 1001 1007 0 (demo_user (str "secret")) demo_guest (client_new 0 1000 true None))
    as (s1 & l2 & b2 & c2 & E1 & E2 & (_ & Hi & _) & Ha).
  - exact demo_guest_inv.
  - by vm_compute.
  - reflexivity.
  - by_evaluation.
  - simpl. lia.
  - simpl. lia.
  - split_and!; by_evaluation.
  - by vm_compute.
  - by vm_compute.
  - intros l n r. unfold demo_login. destruct (rpclogin_validate_password _ _ _ _ _); [|done]. intros [= <-].
    split; [split; [by_evaluation|constructor]|by vm_compute].
  - intros l n e. unfold demo_login. by destruct (rpclogin_validate_password _ _ _ _ _).
  - exists s1, l2, b2, c2. do 3 (split; [assumption|]). revert Ha.
    set (x := demo_login _ _). assert (x = LoginOk (demo_role None [])) as -> by (by vm_compute).
    intros [(Hs & Hr & Hu)|([k Hk] & _)]; [|discriminate Hk]. injection Hs as Hl _ _.
    apply andb_true_iff in Hl as [Hl _]. split; [exact Hl|]. split; [exact Hr|]. apply Hu. by eexists.
Defined.

(** The error 8 without a text, in answer to the login. *)
Definition demo_error (valid : bool) : rpchandler_msg rfile :=
  Msg (response_meta RPCMSG_T_ERROR LOGIN_RID []) (Some (RFile [138; 65; 72; 255; 255] false)) new_item (Obstack [] 4064) valid.

(** An error that is not valid frees the text of the last valid one and keeps the pointer. *)
Example invalid_error_frees :
  let l := set_error RPCERR_METHOD_CALL_EXCEPTION (TText (str "Invalid login")) (rpchandler_login_new (demo_user [])) in
  let msg := login_msg cunpack (λ _, true) (λ s : cstate, s.1) cset in
  (∃ s' x, msg (demo_error false) (l, None) = inl (s', x) ∧ rpchandler_login_status s'.1 = (false, 8, TFreed)) ∧
  (msg (demo_error false);; msg (demo_error false)) (l, None) = inr InvalidFree.
Proof.
  intros l msg. split; [|by vm_compute].
  destruct (msg (demo_error false) (l, None)) as [[s' x]|f] eqn:E; vm_compute in E; [|done].
  exists s', x. split; [done|]. injection E as <- _. done.
Qed.
