(* ===== verification/HandlerStage.v ===== *)
(** * Stages by their parts

    What the stages of an application are made of: names that are listed one after the
    other, and methods that read their parameter, have the message validated and answer. *)

From S2P Require Import Prelude Effects Stdio CpItem CpUnpack CpPack CpObstack CpLoops.
From S2P Require Import Rpcri Rpcaccess Strset RpcError RpcFile RpcDir RpcMsg RpcHead Handler HandlerSpec HandlerApp.

Section parts.
Context {S P U : Type} (unpack : U → cpitem → U * cpitem).
Context (pack : P → cpitem → P * bool) (fresh : P).
Context (sendmsg : P → M S bool) (ignoremsg : M S unit) `{!ClientSpec sendmsg ignoremsg}.
Notation msg := (rpchandler_msg U).
Notation ls := (ls_ctx P U).
Notation settled_with := (settled_with pack fresh sendmsg ignoremsg).
Notation answered := (answered pack fresh sendmsg ignoremsg).
Notation silent := (silent sendmsg ignoremsg).
Notation ls_ok := (ls_ok pack fresh).
Implicit Types ctx : msg.

(** ** Names *)

Lemma bind_singleton {A} (l : list A) : (l ≫= λ x, [x]) = l.
Proof. induction l as [|x l IH]; [done|]. rewrite bind_cons, IH. done. Qed.

Notation lists_names := (lists_names (U := U) pack fresh sendmsg ignoremsg).

Lemma lists_names_ret path : lists_names path [] mret.
Proof.
  intros m l _ Hl Hc. apply silent_ret. split_and!; [done..|simpl; lia|]. unfold named. destruct (lname l).
  - intros _. by rewrite bool_decide_false, orb_false_r by apply not_elem_of_nil.
  - intros x. rewrite elem_of_nil. tauto.
Qed.

Lemma lists_names_bind path k n f g :
  lists_names path k f → lists_names path n g → lists_names path (k ++ n) (λ l, f l ≫= g).
Proof.
  intros Hf Hg m l Hp Hl Hc. rewrite length_app in *. eapply silent_bind; [apply (Hf m l Hp Hl); lia|].
  intros l1 (Hl1 & (E1 & E2 & E3) & Hc1 & Hn1). eapply silent_impl; [apply (Hg m l1); [congruence|done|lia]|].
  intros l2 (Hl2 & (E4 & E5 & E6) & Hc2 & Hn2). split; [done|]. split; [split_and!; congruence|]. split; [lia|].
  unfold named in *. rewrite E2 in Hn2. destruct (lname l).
  - intros Hw. rewrite Hn2, Hn1, <-orb_assoc by done. f_equal. apply eq_bool_prop_intro.
    rewrite orb_True, !bool_decide_spec. by rewrite elem_of_app.
  - intros x. rewrite Hn2, Hn1, elem_of_app. tauto.
Qed.

Lemma lists_names_if path (b : bool) names f g :
  lists_names path names f → lists_names path [] g → lists_names path (if b then names else []) (λ l, if b then f l else g l).
Proof. by destruct b. Qed.

Lemma ls_result_fmt_names path name :
  wf_cstr name → name ≠ [] → lists_names path [name] (rpchandler_ls_result_fmt pack fresh name).
Proof.
  intros Hn Hne m l Hpath Hl Hc. cbn [length] in *. unfold rpchandler_ls_result_fmt, rpchandler_ls_result_vfmt.
  pose proof Hl as [Hm Hp Hset]. assert (strlen name >? 0 = true) as -> by (unfold strlen; destruct name; [done|]; by apply Z.gtb_lt).
  destruct (lname l) as [n|] eqn:En.
  - destruct (llocated l) eqn:El; apply silent_ret; unfold named; rewrite En; (split_and!; try done); try (simpl; lia).
    + intros _. by rewrite El.
    + split; simpl; by rewrite ?En.
    + intros Hw. simpl. by rewrite El, strcmp_is.
  - apply (ls_name_names pack fresh sendmsg ignoremsg path _ name Hn); [|done..|simpl; lia].
    intros set Hs Hlt. unfold shv_strset_add_dyn. destruct (add_grows set name true Hs Hlt Hn) as (set' & new & -> & ?).
    by exists set', new.
Qed.

Lemma fold_names {A} path (f : A → ls → M S ls) (g : A → list cstr) l :
  (∀ x, x ∈ l → lists_names path (g x) (f x)) → lists_names path (l ≫= g) (λ l0, fold (λ l1 x, f x l1) l0 l).
Proof.
  induction l as [|x l IH]; intros Hf; [apply lists_names_ret|].
  rewrite bind_cons. apply (lists_names_bind path (g x) (l ≫= g) (f x)); [apply Hf; by left|]. apply IH. intros y Hy. apply Hf. by right.
Qed.

(** ** Descriptions *)

(** The methods that a part of a stage describes: the one that is asked for is found, or
    all of them are packed. *)
Definition described_as (dirs : list rpcdir) (d d' : dir_ctx P) : Prop :=
  dname d' = dname d ∧ dpath d' = dpath d ∧
  match dname d with
  | Some x => wf_cstr x → dlocated d' = dlocated d || bool_decide (Some x ∈ RpcDir.name <$> dirs)
  | None => dpack d' = (for_each (rpcdir_pack pack) dirs (dpack d)).1
  end.

Lemma described_nil d : described_as [] d d.
Proof.
  split_and!; [done..|]. destruct (dname d); [|done]. intros _.
  by rewrite bool_decide_false, orb_false_r by apply not_elem_of_nil.
Qed.

Lemma for_each_app {A} (g : A → P → P * bool) l1 l2 p : (for_each g (l1 ++ l2) p).1 = (for_each g l2 (for_each g l1 p).1).1.
Proof.
  revert p. induction l1 as [|x l1 IH]; intros p; [done|]. cbn [app for_each foldr]. unfold and_then.
  destruct (g x p) as [p1 ok]. apply IH.
Qed.

Lemma described_app k n d d1 d2 : described_as k d d1 → described_as n d1 d2 → described_as (k ++ n) d d2.
Proof.
  intros (En & Ep & H1) (En2 & Ep2 & H2). split_and!; [congruence..|]. rewrite En in H2. destruct (dname d) as [x|].
  - intros Hx. rewrite H2, H1, <-orb_assoc by done. f_equal. apply eq_bool_prop_intro.
    rewrite orb_True, !bool_decide_spec, fmap_app, elem_of_app. done.
  - by rewrite H2, H1, for_each_app.
Qed.

Lemma dir_result_describes_as m n d (s : S) :
  RpcDir.name m = Some n → wf_cstr n →
  ∃ d', rpchandler_dir_result (S := S) pack m d s = inl (s, d') ∧ described_as [m] d d'.
Proof.
  intros Hm Hn. unfold rpchandler_dir_result, described_as. destruct (dname d) as [x|] eqn:Ex.
  - destruct (dlocated d) eqn:El; [by exists d; rewrite El|]. rewrite Hm. eexists. split; [done|]. split_and!; [done..|].
    intros Hx. simpl. rewrite Hm, strcmp_is by done. apply bool_decide_ext. rewrite !list_elem_of_singleton. split; congruence.
  - eexists. split; [done|]. split_and!; [done..|]. simpl. unfold and_then, nop. by destruct (rpcdir_pack pack m (dpack d)).
Qed.

Lemma fold_described {A} (f : A → dir_ctx P → M S (dir_ctx P)) (g : A → list rpcdir) l d (s : S) :
  (∀ x d1, x ∈ l → dpath d1 = dpath d → ∃ d', f x d1 s = inl (s, d') ∧ described_as (g x) d1 d') →
  ∃ d', fold (λ d x, f x d) d l s = inl (s, d') ∧ described_as (l ≫= g) d d'.
Proof.
  revert d. induction l as [|x l IH]; intros d Hf; [exists d; split; [done|apply described_nil]|].
  destruct (Hf x d) as (d1 & E1 & H1); [by left|done|]. destruct (IH d1) as (d2 & E2 & H2).
  { intros y d0 Hy Hp. apply Hf; [by right|]. rewrite Hp. apply H1. }
  exists d2. split; [|rewrite bind_cons; by eapply described_app].
  change (fold (λ d x, f x d) d (x :: l)) with (f x d ≫= λ d, fold (λ d x, f x d) d l). by rewrite (bind_run _ _ _ _ _ E1).
Qed.

Lemma dir_results_describe_as dirs d (s : S) :
  Forall (λ m, ∃ n, RpcDir.name m = Some n ∧ wf_cstr n) dirs →
  ∃ d', dir_results (S := S) pack dirs d s = inl (s, d') ∧ described_as dirs d d'.
Proof.
  intros Hd. destruct (fold_described (rpchandler_dir_result (S := S) pack) (λ m, [m]) dirs d s) as (d' & E & H).
  - intros m d1 Hin _. eapply Forall_forall in Hd as (n & ? & ?); [|exact Hin]. by eapply dir_result_describes_as.
  - exists d'. split; [done|]. by rewrite bind_singleton in H.
Qed.

(** ** Methods *)

(** A stage takes the request and settles it. *)
Definition taken ctx (c : M S (msg * rpchandler_msg_res)) : Prop :=
  ∀ s, ∃ s' ctx', c s = inl (s', (ctx', RPCHANDLER_MSG_DONE)) ∧ same_request ctx ctx' ∧ hunpack ctx' = None ∧
    settled_with (hvalid ctx) (hmeta ctx) s s'.

(** Or it does nothing. *)
Definition handled ctx (c : M S (msg * rpchandler_msg_res)) : Prop :=
  taken ctx c ∨ ∀ s, c s = inl (s, (ctx, RPCHANDLER_MSG_SKIP)).

Lemma handled_takes (f : msg → M S (msg * rpchandler_msg_res)) :
  (∀ ctx, request ctx → handled ctx (f ctx)) → takes pack fresh sendmsg ignoremsg f.
Proof.
  intros Hf ctx s Hr. destruct (Hf ctx Hr) as [Ht|Hs].
  - destruct (Ht s) as (s' & ctx' & E & Hsame & Hu & Hset). exists s', ctx', RPCHANDLER_MSG_DONE.
    split; [done|]. split; [done|]. by rewrite Hu.
  - exists s, ctx, RPCHANDLER_MSG_SKIP. split; [apply Hs|]. split; [done|].
    by destruct Hr as (_ & _ & _ & [u ->]).
Qed.

Lemma handled_if ctx (b : bool) c1 c2 :
  (b = true → handled ctx c1) → (b = false → handled ctx c2) → handled ctx (if b then c1 else c2).
Proof. destruct b; auto. Qed.

Lemma handled_skip ctx : handled ctx (mret (ctx, RPCHANDLER_MSG_SKIP)).
Proof. by right. Qed.

Lemma handled_need {A} ctx f (x : A) k : handled ctx (k x) → handled ctx (need f (Some x) ≫= k).
Proof.
  intros [H|H]; [left|right]; intros s; by rewrite (bind_run _ _ s s x eq_refl).
Qed.

(** A stage takes the request where [Q] holds and only there. *)
Definition decides (Q : Prop) ctx (c : M S (msg * rpchandler_msg_res)) : Prop :=
  Q ∧ taken ctx c ∨ ¬ Q ∧ ∀ s, c s = inl (s, (ctx, RPCHANDLER_MSG_SKIP)).

Lemma decides_handled Q ctx c : decides Q ctx c → handled ctx c.
Proof. intros [[_ H]|[_ H]]; [by left|by right]. Qed.

Lemma decides_if (Q Q1 Q2 : Prop) ctx (b : bool) c1 c2 :
  (b = true → (Q ↔ Q1) ∧ decides Q1 ctx c1) → (b = false → (Q ↔ Q2) ∧ decides Q2 ctx c2) →
  decides Q ctx (if b then c1 else c2).
Proof. intros H1 H2. unfold decides in *. destruct b; [destruct H1|destruct H2]; tauto. Qed.

Lemma decides_need {A} Q ctx f (x : A) k : decides Q ctx (k x) → decides Q ctx (need f (Some x) ≫= k).
Proof. intros [[HQ H]|[HQ H]]; [left|right]; (split; [done|]); intros s; by rewrite (bind_run _ _ s s x eq_refl). Qed.

Lemma decides_taken ctx c : taken ctx c → decides True ctx c.
Proof. by left. Qed.

Lemma decides_skip ctx : decides False ctx (mret (ctx, RPCHANDLER_MSG_SKIP)).
Proof. right. by split; [intros []|]. Qed.

(** The parameter is read and the message validated, and if it is valid it is answered. *)
Lemma validate_taken {A} ctx (rd : M S (msg * A)) (k : msg → A → M S unit) :
  request ctx → silent rd (λ r, hmeta r.1 = hmeta ctx ∧ hvalid r.1 = hvalid ctx) →
  (∀ ctx1 x, answerable ctx1 → hmeta ctx1 = hmeta ctx → answered (hmeta ctx) (k ctx1 x)) →
  taken ctx ('(ctx1, x) ← rd;
             let '(ctx1, valid) := rpchandler_msg_valid ctx1 in
             (if valid : bool then k ctx1 x else mret tt);; mret (ctx1, RPCHANDLER_MSG_DONE)).
Proof.
  intros Hr Hrd Hk s. destruct (Hrd s) as (s1 & [ctx1 x] & E & Hs & Em & Ev). simpl in Em, Ev.
  rewrite (bind_run _ _ _ _ _ E). destruct (validated ctx ctx1 Hr Em) as [Ha Em'].
  destruct (rpchandler_msg_valid ctx1) as [ctx2 valid] eqn:Evalid. unfold rpchandler_msg_valid in Evalid.
  injection Evalid as <- <-. simpl in Ha, Em'. rewrite Ev in *.
  assert (same_request ctx (Msg (hmeta ctx1) None (hitem ctx1) (hobs ctx1) (hvalid ctx))) as Hsame
    by (by apply same_request_meta).
  destruct (hvalid ctx) eqn:Hv.
  - destruct (Hk _ x Ha Em s1) as (s2 & y & p & E2 & Hs2 & Hp). rewrite (bind_run _ _ _ _ _ E2).
    do 2 eexists. split; [reflexivity|]. split; [done|]. split; [done|]. exists p. by rewrite Hs2, Hs.
  - do 2 eexists. split; [reflexivity|]. done.
Qed.

Lemma null_method_taken ctx (ok : msg → M S unit) :
  request ctx → (∀ ctx1, answerable ctx1 → hmeta ctx1 = hmeta ctx → answered (hmeta ctx) (ok ctx1)) →
  taken ctx (null_method unpack pack fresh sendmsg ctx ok (nothing (S := S) (U := U))).
Proof.
  intros Hr Hok s. unfold null_method, nothing.
  destruct (nullparam_settles unpack pack fresh sendmsg ignoremsg ctx s Hr) as (s1 & ctx1 & b & E & Ha & Em & Ev & Hb).
  rewrite (bind_run _ _ _ _ _ E). destruct b.
  - destruct Hb as [Hv Hs]. destruct (Hok ctx1 Ha Em s1) as (s2 & y & p & E2 & Hs2 & Hp).
    rewrite (bind_run _ _ _ _ _ E2). do 2 eexists. split; [reflexivity|]. split; [by apply same_request_meta|].
    split; [apply Ha|]. rewrite Hv. exists p. by rewrite Hs2, Hs.
  - do 2 eexists. split; [reflexivity|]. split; [by apply same_request_meta|]. split; [apply Ha|done].
Qed.

Lemma respond_done ctx ctx1 body `{!OnlyPacks pack body} :
  answerable ctx1 → hmeta ctx1 = hmeta ctx → answered (hmeta ctx) (respond pack fresh sendmsg ctx1 body;; mret tt).
Proof. intros Ha <-. apply answered_then. by apply respond_answered. Qed.

Lemma error_done ctx ctx1 e t :
  answerable ctx1 → hmeta ctx1 = hmeta ctx →
  answered (hmeta ctx) (rpchandler_msg_send_error pack fresh sendmsg ctx1 e t;; mret tt).
Proof. intros Ha <-. by apply answered_then, send_error_answered. Qed.
End parts.
