(* ===== verification/History.v ===== *)
(** * Records and requests of the history ([libshvhistory/rpchistory.c])

    What is logged is packed as integer maps, for three places: the records of a log, the
    answers to [getLog] and the files of a log.  The parameters of [getLog] and
    [getSnapshot] are unpacked from maps whose fields come in any order. *)

From S2P Require Import Prelude Stdio Chainpack CpItem ChainpackPack ChainpackUnpack.
From S2P Require Import CpUnpack CpUnpackChainpack CpPack CpObstack CpLoops Rpcaccess RpcFile RpcDir.

(** ** Definitions *)

Definition RPCHISTORY_RECORD_NORMAL : Z := 1.
Definition RPCHISTORY_RECORD_KEEP : Z := 2.
Definition RPCHISTORY_RECORD_TIMEJUMP : Z := 3.
Definition RPCHISTORY_RECORD_TIMEABIG : Z := 4.

(** [enum rpchistory_fetch_keys] *)
Definition RPCHISTORY_FETCH_KEY_TYPE : Z := 0.
Definition RPCHISTORY_FETCH_KEY_TIMESTAMP : Z := 1.
Definition RPCHISTORY_FETCH_KEY_PATH : Z := 2.
Definition RPCHISTORY_FETCH_KEY_SIGNAL : Z := 3.
Definition RPCHISTORY_FETCH_KEY_SOURCE : Z := 4.
Definition RPCHISTORY_FETCH_KEY_VALUE : Z := 5.
Definition RPCHISTORY_FETCH_KEY_ACCESSLEVEL : Z := 6.
Definition RPCHISTORY_FETCH_KEY_USERID : Z := 7.
Definition RPCHISTORY_FETCH_KEY_REPEAT : Z := 8.
Definition RPCHISTORY_FETCH_KEY_ID : Z := 9.
Definition RPCHISTORY_FETCH_KEY_REF : Z := 10.
Definition RPCHISTORY_FETCH_KEY_TIMEJUMP : Z := 60.

(** [enum rpchistory_getlog_request_keys] *)
Definition RPCHISTORY_GETLOG_REQ_KEY_SINCE : Z := 1.
Definition RPCHISTORY_GETLOG_REQ_KEY_UNTIL : Z := 2.
Definition RPCHISTORY_GETLOG_REQ_KEY_COUNT : Z := 3.
Definition RPCHISTORY_GETLOG_REQ_KEY_RI : Z := 4.

(** [enum rpchistory_getlog_keys] *)
Definition RPCHISTORY_GETLOG_KEY_TIMESTAMP : Z := 1.
Definition RPCHISTORY_GETLOG_KEY_REF : Z := 2.
Definition RPCHISTORY_GETLOG_KEY_PATH : Z := 3.
Definition RPCHISTORY_GETLOG_KEY_SIGNAL : Z := 4.
Definition RPCHISTORY_GETLOG_KEY_SOURCE : Z := 5.
Definition RPCHISTORY_GETLOG_KEY_VALUE : Z := 6.
Definition RPCHISTORY_GETLOG_KEY_USERID : Z := 7.
Definition RPCHISTORY_GETLOG_KEY_REPEAT : Z := 8.

(** [enum rpchistory_file_keys] *)
Definition RPCHISTORY_FILE_KEY_DATETIME : Z := 1.
Definition RPCHISTORY_FILE_KEY_PATH : Z := 2.
Definition RPCHISTORY_FILE_KEY_SIGNAL : Z := 3.
Definition RPCHISTORY_FILE_KEY_SOURCE : Z := 4.
Definition RPCHISTORY_FILE_KEY_VALUE : Z := 5.
Definition RPCHISTORY_FILE_KEY_ACCESS : Z := 6.
Definition RPCHISTORY_FILE_KEY_USERID : Z := 7.
Definition RPCHISTORY_FILE_KEY_REPEAT : Z := 8.

(** [enum rpchistory_getsnapshot_req_keys] *)
Definition RPCHISTORY_GETSNAPSHOT_REQ_KEY_TIME : Z := 1.
Definition RPCHISTORY_GETSNAPSHOT_REQ_KEY_RI : Z := 2.

Record rpchistory_record_head : Type := RecordHead {
  rtype : Z; raccess : Z; timejump : Z; rrepeat : bool; rid : Z; ref : Z;
  rpath : option cstr; rsignal : option cstr; rsource : option cstr; ruserid : option cstr;
  rdatetime : cpdatetime }.

Record rpchistory_getlog_request : Type := GetlogRequest {
  since : cpdatetime; until : cpdatetime; count : Z; gri : cstr }.

Record rpchistory_getsnapshot_request : Type := GetsnapshotRequest { stime : cpdatetime; sri : cstr }.

(** The descriptions of the methods. *)
Definition rpchistory_fetch : rpcdir :=
  Dir (Some (str "fetch")) (Some (str "[i:offset,i(0,):count]")) (Some (str "!historyRecords"))
    RPCDIR_F_LARGE_RESULT RPCACCESS_SERVICE [].
Definition rpchistory_span : rpcdir :=
  Dir (Some (str "span")) None (Some (str "[i:smallest,i:biggest,i(1,):span]")) RPCDIR_F_GETTER RPCACCESS_SERVICE [].
Definition rpchistory_getlog : rpcdir :=
  Dir (Some (str "getLog")) (Some (str "!getLogP")) (Some (str "!getLogR")) RPCDIR_F_LARGE_RESULT RPCACCESS_BROWSE [].
Definition rpchistory_getsnapshot : rpcdir :=
  Dir (Some (str "getSnapshot")) (Some (str "!getSnapshotP")) (Some (str "!getLogR")) RPCDIR_F_LARGE_RESULT
    RPCACCESS_BROWSE [].
Definition rpchistory_sync : rpcdir := Dir (Some (str "sync")) None None 0 RPCACCESS_SUPER_SERVICE [].
Definition rpchistory_lastsync : rpcdir :=
  Dir (Some (str "lastSync")) None (Some (str "t|n")) RPCDIR_F_GETTER RPCACCESS_SERVICE [].

Definition INT64_MAX : Z := 2 ^ 63 - 1.

Section pack.
Context {P : Type} (pack : P → cpitem → P * bool).

(** [if (head->x && *head->x != '\0')] *)
Definition pack_text (key : Z) (s : option cstr) : P → P * bool :=
  when (match s with Some (_ :: _) => true | _ => false end) (cp_pack_int pack key >>> cp_pack_str pack s).

Definition pack_userid (key : Z) (head : rpchistory_record_head) : P → P * bool :=
  when (bool_decide (is_Some (ruserid head))) (cp_pack_int pack key >>> cp_pack_str pack (ruserid head)).

Definition pack_repeat (key : Z) (head : rpchistory_record_head) : P → P * bool :=
  when (rrepeat head) (cp_pack_int pack key >>> cp_pack_bool pack (rrepeat head)).

Definition rpchistory_getlog_response_pack_begin (head : rpchistory_record_head) : P → P * bool :=
  cp_pack_imap_begin pack >>>
  when (negb (msecs (rdatetime head) =? INT64_MAX))
    (cp_pack_int pack RPCHISTORY_GETLOG_KEY_TIMESTAMP >>> cp_pack_datetime pack (rdatetime head)) >>>
  (if 0 <=? ref head then cp_pack_int pack RPCHISTORY_GETLOG_KEY_REF >>> cp_pack_int pack (ref head)
   else
     pack_text RPCHISTORY_GETLOG_KEY_PATH (rpath head) >>>
     pack_text RPCHISTORY_GETLOG_KEY_SIGNAL (rsignal head) >>>
     pack_text RPCHISTORY_GETLOG_KEY_SOURCE (rsource head)) >>>
  pack_userid RPCHISTORY_GETLOG_KEY_USERID head >>>
  pack_repeat RPCHISTORY_GETLOG_KEY_REPEAT head >>>
  cp_pack_int pack RPCHISTORY_GETLOG_KEY_VALUE.

Definition rpchistory_getlog_response_pack_end : P → P * bool := cp_pack_container_end pack.

(** The part every record has. *)
Definition record_start (head : rpchistory_record_head) : P → P * bool :=
  cp_pack_imap_begin pack >>>
  cp_pack_int pack RPCHISTORY_FETCH_KEY_TYPE >>> cp_pack_int pack (rtype head) >>>
  cp_pack_int pack RPCHISTORY_FETCH_KEY_TIMESTAMP >>>
  (if 0 <=? rid head then
     cp_pack_datetime pack (rdatetime head) >>>
     cp_pack_int pack RPCHISTORY_FETCH_KEY_ID >>> cp_pack_int pack (rid head)
   else cp_pack_datetime pack (rdatetime head)).

Definition rpchistory_record_pack_begin (head : rpchistory_record_head) : P → P * bool :=
  if (rtype head =? RPCHISTORY_RECORD_NORMAL) || (rtype head =? RPCHISTORY_RECORD_KEEP) then
    record_start head >>>
    (if 0 <=? ref head then cp_pack_int pack RPCHISTORY_FETCH_KEY_REF >>> cp_pack_int pack (ref head)
     else
       pack_text RPCHISTORY_FETCH_KEY_PATH (rpath head) >>>
       pack_text RPCHISTORY_FETCH_KEY_SIGNAL (rsignal head) >>>
       pack_text RPCHISTORY_FETCH_KEY_SOURCE (rsource head)) >>>
    when (RPCACCESS_NONE <? raccess head)
      (cp_pack_int pack RPCHISTORY_FETCH_KEY_ACCESSLEVEL >>> cp_pack_int pack (raccess head)) >>>
    pack_userid RPCHISTORY_FETCH_KEY_USERID head >>>
    pack_repeat RPCHISTORY_FETCH_KEY_REPEAT head >>>
    cp_pack_int pack RPCHISTORY_FETCH_KEY_VALUE
  else if rtype head =? RPCHISTORY_RECORD_TIMEJUMP then
    record_start head >>>
    cp_pack_int pack RPCHISTORY_FETCH_KEY_TIMEJUMP >>> cp_pack_int pack (timejump head)
  else record_start head.

Definition rpchistory_record_pack_end : P → P * bool := cp_pack_container_end pack.

Definition rpchistory_file_record_pack_begin (head : rpchistory_record_head) : P → P * bool :=
  cp_pack_imap_begin pack >>>
  cp_pack_int pack RPCHISTORY_FILE_KEY_DATETIME >>>
  (if msecs (rdatetime head) =? INT64_MAX then cp_pack_null pack else cp_pack_datetime pack (rdatetime head)) >>>
  pack_text RPCHISTORY_FILE_KEY_PATH (rpath head) >>>
  pack_text RPCHISTORY_FILE_KEY_SIGNAL (rsignal head) >>>
  pack_text RPCHISTORY_FILE_KEY_SOURCE (rsource head) >>>
  when (negb (raccess head =? RPCACCESS_READ) && negb (raccess head =? RPCACCESS_NONE))
    (cp_pack_int pack RPCHISTORY_FILE_KEY_ACCESS >>> cp_pack_int pack (raccess head)) >>>
  pack_userid RPCHISTORY_FILE_KEY_USERID head >>>
  pack_repeat RPCHISTORY_FILE_KEY_REPEAT head >>>
  cp_pack_int pack RPCHISTORY_FILE_KEY_VALUE.

Definition rpchistory_file_record_pack_end : P → P * bool := cp_pack_container_end pack.
End pack.

(** *** Requests

    [limit] is [SHVC_GETLOG_LIMIT] of the build, [now] the time of the clock in
    milliseconds. *)
Section unpack.
Context {U : Type} (unpack : U → cpitem → U * cpitem) (ck : chunks) (limit now : Z).

Definition UINT_MAX : Z := 2 ^ 32 - 1.
Definition any_ri : cstr := str "**:*".

(** A text, or the default when there is none. *)
Definition unpack_ri (u : U) (it : cpitem) (o : obstack) : U * cpitem * obstack * cstr :=
  let '(u, it, o, r) := strdupo unpack ck u it o in (u, it, o, default any_ri r).

(** The field of the key is set; [inr] is the result [false], with the obstack. *)
Definition unpack_value (key : Z) (u : U) (it : cpitem) (s : rpchistory_getlog_request * obstack) :
    U * cpitem * (rpchistory_getlog_request * obstack + obstack) :=
  let '(GetlogRequest si un co ri as res, o) := s in
  if key =? RPCHISTORY_GETLOG_REQ_KEY_SINCE then
    let '(u, it, v) := cp_unpack_datetime unpack u it in
    (u, it, match v with Some d => inl (GetlogRequest d un co ri, o) | None => inr o end)
  else if key =? RPCHISTORY_GETLOG_REQ_KEY_UNTIL then
    let '(u, it, v) := cp_unpack_datetime unpack u it in
    (u, it, match v with Some d => inl (GetlogRequest si d co ri, o) | None => inr o end)
  else if key =? RPCHISTORY_GETLOG_REQ_KEY_COUNT then
    let '(u, it, ty) := cp_unpack_type unpack u it in
    (u, it,
      match ty with
      | CPITEM_INT =>
          match cpitem_extract_int (Unsigned 32) it with
          | Some v => inl (GetlogRequest si un v ri, o)
          | None => inr o
          end
      | CPITEM_NULL => inl (GetlogRequest si un UINT_MAX ri, o)
      | _ => inr o
      end)
  else if key =? RPCHISTORY_GETLOG_REQ_KEY_RI then
    let '(u, it, o, r) := unpack_ri u it o in (u, it, inl (GetlogRequest si un co r, o))
  else (u, it, inr o).

Definition getlog_default : rpchistory_getlog_request :=
  GetlogRequest (Datetime now 0) (Datetime now 0) UINT_MAX any_ri.

Definition getlog_limit (r : rpchistory_getlog_request) : rpchistory_getlog_request :=
  if limit <? count r then GetlogRequest (since r) (until r) limit (gri r) else r.

(** The size of the structure. *)
Definition getlog_size : Z := 48.

(** The key of the loop is a [long long], that of the function an [int]. *)
Definition rpchistory_getlog_request_unpack (u : U) (it : cpitem) (o : obstack) :
    U * cpitem * (option rpchistory_getlog_request * obstack) :=
  let '(u, it, ty) := cp_unpack_type unpack u it in
  if bool_decide (ty = CPITEM_IMAP) then
    let o := obstack_alloc ck getlog_size o in
    let '(u, it, r) := for_cp_unpack_imap unpack (λ key, unpack_value (i32 key)) u it (getlog_default, o) in
    (u, it, match r with
            | inl (res, o) => (Some (getlog_limit res), o)
            | inr o => (None, obstack_free ck o)
            end)
  else (u, it, (None, o)).

Definition snapshot_value (key : Z) (u : U) (it : cpitem) (s : rpchistory_getsnapshot_request * obstack) :
    U * cpitem * (rpchistory_getsnapshot_request * obstack + obstack) :=
  let '(GetsnapshotRequest ti ri, o) := s in
  if key =? RPCHISTORY_GETSNAPSHOT_REQ_KEY_TIME then
    let '(u, it, v) := cp_unpack_datetime unpack u it in
    (u, it, match v with Some d => inl (GetsnapshotRequest d ri, o) | None => inr o end)
  else if key =? RPCHISTORY_GETSNAPSHOT_REQ_KEY_RI then
    let '(u, it, o, r) := unpack_ri u it o in (u, it, inl (GetsnapshotRequest ti r, o))
  else (u, it, inr o).

Definition snapshot_size : Z := 24.

Definition rpchistory_getsnapshot_request_unpack (u : U) (it : cpitem) (o : obstack) :
    U * cpitem * (option rpchistory_getsnapshot_request * obstack) :=
  let '(u, it, ty) := cp_unpack_type unpack u it in
  if bool_decide (ty = CPITEM_IMAP) then
    let o := obstack_alloc ck snapshot_size o in
    let '(u, it, r) := for_cp_unpack_imap unpack snapshot_value u it (GetsnapshotRequest (Datetime now 0) any_ri, o) in
    (u, it, match r with
            | inl (res, o) => (Some res, o)
            | inr o => (None, obstack_free ck o)
            end)
  else (u, it, (None, o)).
End unpack.

(** ** What is packed *)

(** A text that is there and not empty. *)
Definition text_pair (key : Z) (s : option cstr) : list (Z * list tok) :=
  match s with Some (c :: s) => [(key, [TString (c :: s)])] | _ => [] end.

Definition userid_pair (key : Z) (h : rpchistory_record_head) : list (Z * list tok) :=
  match ruserid h with Some s => [(key, [TString s])] | None => [] end.

Definition repeat_pair (key : Z) (h : rpchistory_record_head) : list (Z * list tok) :=
  if rrepeat h then [(key, [TBool true])] else [].

(** Where it came from: a record before this one, or the path, the signal and the source. *)
Definition origin_pairs (kref kpath ksignal ksource : Z) (h : rpchistory_record_head) : list (Z * list tok) :=
  if 0 <=? ref h then [(kref, [TInt (ref h)])]
  else text_pair kpath (rpath h) ++ text_pair ksignal (rsignal h) ++ text_pair ksource (rsource h).

Definition getlog_pairs (h : rpchistory_record_head) : list (Z * list tok) :=
  (if msecs (rdatetime h) =? INT64_MAX then [] else [(RPCHISTORY_GETLOG_KEY_TIMESTAMP, [TDatetime (rdatetime h)])]) ++
  origin_pairs RPCHISTORY_GETLOG_KEY_REF RPCHISTORY_GETLOG_KEY_PATH RPCHISTORY_GETLOG_KEY_SIGNAL
    RPCHISTORY_GETLOG_KEY_SOURCE h ++
  userid_pair RPCHISTORY_GETLOG_KEY_USERID h ++ repeat_pair RPCHISTORY_GETLOG_KEY_REPEAT h.

Definition record_pairs (h : rpchistory_record_head) : list (Z * list tok) :=
  [(RPCHISTORY_FETCH_KEY_TYPE, [TInt (rtype h)]); (RPCHISTORY_FETCH_KEY_TIMESTAMP, [TDatetime (rdatetime h)])] ++
  (if 0 <=? rid h then [(RPCHISTORY_FETCH_KEY_ID, [TInt (rid h)])] else []) ++
  if (rtype h =? RPCHISTORY_RECORD_NORMAL) || (rtype h =? RPCHISTORY_RECORD_KEEP) then
    origin_pairs RPCHISTORY_FETCH_KEY_REF RPCHISTORY_FETCH_KEY_PATH RPCHISTORY_FETCH_KEY_SIGNAL
      RPCHISTORY_FETCH_KEY_SOURCE h ++
    (if RPCACCESS_NONE <? raccess h then [(RPCHISTORY_FETCH_KEY_ACCESSLEVEL, [TInt (raccess h)])] else []) ++
    userid_pair RPCHISTORY_FETCH_KEY_USERID h ++ repeat_pair RPCHISTORY_FETCH_KEY_REPEAT h
  else if rtype h =? RPCHISTORY_RECORD_TIMEJUMP then [(RPCHISTORY_FETCH_KEY_TIMEJUMP, [TInt (timejump h)])]
  else [].

(** A record of one of the first two types has a value. *)
Definition has_value (h : rpchistory_record_head) : bool :=
  (rtype h =? RPCHISTORY_RECORD_NORMAL) || (rtype h =? RPCHISTORY_RECORD_KEEP).

Definition file_pairs (h : rpchistory_record_head) : list (Z * list tok) :=
  [(RPCHISTORY_FILE_KEY_DATETIME, [if msecs (rdatetime h) =? INT64_MAX then TNull else TDatetime (rdatetime h)])] ++
  text_pair RPCHISTORY_FILE_KEY_PATH (rpath h) ++ text_pair RPCHISTORY_FILE_KEY_SIGNAL (rsignal h) ++
  text_pair RPCHISTORY_FILE_KEY_SOURCE (rsource h) ++
  (if negb (raccess h =? RPCACCESS_READ) && negb (raccess h =? RPCACCESS_NONE)
   then [(RPCHISTORY_FILE_KEY_ACCESS, [TInt (raccess h)])] else []) ++
  userid_pair RPCHISTORY_FILE_KEY_USERID h ++ repeat_pair RPCHISTORY_FILE_KEY_REPEAT h.

Definition opt_text (s : option cstr) : Prop := match s with Some s => text s | None => True end.

(** The numbers are C integers and the date is one ChainPack carries, if it is one. *)
Definition head_wf (h : rpchistory_record_head) : Prop :=
  small (rtype h) ∧ small (raccess h) ∧ small (timejump h) ∧ small (rid h) ∧ small (ref h) ∧
  opt_text (rpath h) ∧ opt_text (rsignal h) ∧ opt_text (rsource h) ∧ opt_text (ruserid h) ∧
  (msecs (rdatetime h) = INT64_MAX ∨ datetime_ok (rdatetime h)).

Definition flat (ps : list (Z * list tok)) : list tok := flat_map (λ p, TInt p.1 :: p.2) ps.

Lemma flat_app ps qs : flat (ps ++ qs) = flat ps ++ flat qs.
Proof. apply flat_map_app. Qed.

Section outputs.
Context {P : Type} (pack : P → cpitem → P * bool) `{!PackSpec pack}.

Lemma outputs_text_pair key s : small key → opt_text s → outputs pack (pack_text pack key s) (flat (text_pair key s)).
Proof.
  intros Hk Hs. unfold pack_text. destruct s as [[|c s]|]; try apply outputs_nop.
  apply (outputs_then pack _ _ [_] [_]); [by apply outputs_key|by apply outputs_str].
Qed.

Lemma outputs_userid key h :
  small key → opt_text (ruserid h) → outputs pack (pack_userid pack key h) (flat (userid_pair key h)).
Proof.
  intros Hk Hs. unfold pack_userid, userid_pair. destruct (ruserid h) as [s|]; [|apply outputs_nop].
  apply (outputs_then pack _ _ [_] [_]); [by apply outputs_key|by apply outputs_str].
Qed.

Lemma outputs_repeat key h : small key → outputs pack (pack_repeat pack key h) (flat (repeat_pair key h)).
Proof.
  intros Hk. unfold pack_repeat, repeat_pair. destruct (rrepeat h); [|apply outputs_nop].
  apply (outputs_then pack _ _ [_] [_]); [by apply outputs_key|apply outputs_bool].
Qed.

Lemma outputs_pair key v c t :
  small key → outputs pack c [t] → t = v → outputs pack (cp_pack_int pack key >>> c) (flat [(key, [v])]).
Proof. intros Hk Hc <-. apply (outputs_then pack _ _ [_] [_]); [by apply outputs_key|done]. Qed.

Lemma outputs_origin kref kpath ksignal ksource h :
  small kref → small kpath → small ksignal → small ksource → head_wf h →
  outputs pack
    (if 0 <=? ref h then cp_pack_int pack kref >>> cp_pack_int pack (ref h)
     else pack_text pack kpath (rpath h) >>> pack_text pack ksignal (rsignal h) >>> pack_text pack ksource (rsource h))
    (flat (origin_pairs kref kpath ksignal ksource h)).
Proof.
  intros H1 H2 H3 H4 (_ & _ & _ & _ & Href & Hp & Hsig & Hsrc & _). unfold origin_pairs. destruct (0 <=? ref h).
  - by apply (outputs_pair _ _ _ (TInt (ref h))); [|apply outputs_key|].
  - rewrite !flat_app. repeat apply outputs_then; by apply outputs_text_pair.
Qed.

Lemma outputs_optional key c v (b : bool) :
  small key → (b = true → outputs pack c [v]) →
  outputs pack (when b (cp_pack_int pack key >>> c)) (flat (if b then [(key, [v])] else [])).
Proof.
  intros Hk Hc. destruct b; [|apply outputs_nop]. by apply (outputs_pair _ _ _ v); [|apply Hc|].
Qed.

Ltac key := lazymatch goal with |- small _ => by vm_compute | |- srange _ _ => by vm_compute end.

Lemma outputs_getlog_begin h :
  head_wf h →
  outputs pack (rpchistory_getlog_response_pack_begin pack h)
    (TIMap :: flat (getlog_pairs h) ++ [TInt RPCHISTORY_GETLOG_KEY_VALUE]).
Proof.
  intros Hh. pose proof Hh as (_ & _ & _ & _ & _ & _ & _ & _ & Hu & Hd). unfold getlog_pairs.
  rewrite !flat_app, <-!app_assoc. apply (outputs_then pack _ _ [TIMap]); [apply outputs_imap_begin|].
  apply outputs_then.
  { destruct (Z.eqb_spec (msecs (rdatetime h)) INT64_MAX); [apply outputs_nop|]. destruct Hd as [|Hd]; [done|].
    apply (outputs_pair _ _ _ (TDatetime (rdatetime h))); [key|by apply outputs_datetime|done]. }
  apply outputs_then; [apply outputs_origin; [key..|done]|].
  apply outputs_then; [apply outputs_userid; [key|done]|].
  apply outputs_then; [apply outputs_repeat; key|apply outputs_key; key].
Qed.

Lemma outputs_record_start h :
  head_wf h → datetime_ok (rdatetime h) →
  outputs pack (record_start pack h) (TIMap :: flat (
    [(RPCHISTORY_FETCH_KEY_TYPE, [TInt (rtype h)]); (RPCHISTORY_FETCH_KEY_TIMESTAMP, [TDatetime (rdatetime h)])] ++
    (if 0 <=? rid h then [(RPCHISTORY_FETCH_KEY_ID, [TInt (rid h)])] else []))).
Proof.
  intros (Ht & _ & _ & Hi & _) Hd. unfold record_start. apply (outputs_then pack _ _ [TIMap]); [apply outputs_imap_begin|].
  apply (outputs_then pack _ _ [TInt RPCHISTORY_FETCH_KEY_TYPE]); [apply outputs_key; key|].
  apply (outputs_then pack _ _ [TInt (rtype h)]); [by apply outputs_key|].
  apply (outputs_then pack _ _ [TInt RPCHISTORY_FETCH_KEY_TIMESTAMP]); [apply outputs_key; key|].
  destruct (0 <=? rid h); [|by apply outputs_datetime].
  apply (outputs_then pack _ _ [TDatetime (rdatetime h)]); [by apply outputs_datetime|].
  apply (outputs_pair _ _ _ (TInt (rid h))); [key|by apply outputs_key|done].
Qed.

(** The date has to be one here. *)
Lemma outputs_record_begin h :
  head_wf h → datetime_ok (rdatetime h) →
  outputs pack (rpchistory_record_pack_begin pack h)
    (TIMap :: flat (record_pairs h) ++ (if has_value h then [TInt RPCHISTORY_FETCH_KEY_VALUE] else [])).
Proof.
  intros Hh Hd. pose proof Hh as (_ & Ha & Hj & _ & _ & _ & _ & _ & Hu & _).
  pose proof (outputs_record_start h Hh Hd) as Hs. unfold rpchistory_record_pack_begin, record_pairs, has_value.
  rewrite app_assoc, flat_app, <-app_assoc. set (start := flat (_ ++ _)) in *.
  destruct ((rtype h =? RPCHISTORY_RECORD_NORMAL) || (rtype h =? RPCHISTORY_RECORD_KEEP)).
  - apply (outputs_then pack _ _ (TIMap :: start)); [done|]. rewrite !flat_app, <-!app_assoc.
    apply outputs_then; [apply outputs_origin; [key..|done]|].
    apply outputs_then; [apply outputs_optional; [key|]; intros _; by apply outputs_key|].
    apply outputs_then; [apply outputs_userid; [key|done]|].
    apply outputs_then; [apply outputs_repeat; key|apply outputs_key; key].
  - rewrite app_nil_r. destruct (rtype h =? RPCHISTORY_RECORD_TIMEJUMP).
    + apply (outputs_then pack _ _ (TIMap :: start)); [done|].
      apply (outputs_pair _ _ _ (TInt (timejump h))); [key|by apply outputs_key|done].
    + cbn [flat flat_map]. by rewrite app_nil_r.
Qed.

Lemma outputs_file_begin h :
  head_wf h →
  outputs pack (rpchistory_file_record_pack_begin pack h)
    (TIMap :: flat (file_pairs h) ++ [TInt RPCHISTORY_FILE_KEY_VALUE]).
Proof.
  intros (_ & Ha & _ & _ & _ & Hp & Hsig & Hsrc & Hu & Hd). unfold file_pairs.
  rewrite !flat_app, <-!app_assoc. apply (outputs_then pack _ _ [TIMap]); [apply outputs_imap_begin|].
  apply (outputs_then pack _ _ [TInt RPCHISTORY_FILE_KEY_DATETIME]); [apply outputs_key; key|].
  apply (outputs_then pack _ _ [if msecs (rdatetime h) =? INT64_MAX then TNull else TDatetime (rdatetime h)]).
  { destruct (Z.eqb_spec (msecs (rdatetime h)) INT64_MAX); [apply outputs_null|]. destruct Hd; [done|]. by apply outputs_datetime. }
  apply outputs_then; [apply outputs_text_pair; [key|done]|].
  apply outputs_then; [apply outputs_text_pair; [key|done]|].
  apply outputs_then; [apply outputs_text_pair; [key|done]|].
  apply outputs_then; [apply outputs_optional; [key|]; intros _; by apply outputs_key|].
  apply outputs_then; [apply outputs_userid; [key|done]|].
  apply outputs_then; [apply outputs_repeat; key|apply outputs_key; key].
Qed.
End outputs.

(** *** No key twice *)

Notation keys ps := (fst <$> (ps : list (Z * list tok))).

Lemma text_keys k s : keys (text_pair k s) `sublist_of` [k].
Proof. destruct s as [[|c s]|]; simpl; repeat constructor. Qed.

Lemma userid_keys k h : keys (userid_pair k h) `sublist_of` [k].
Proof. unfold userid_pair. destruct (ruserid h); simpl; repeat constructor. Qed.

Lemma repeat_keys k h : keys (repeat_pair k h) `sublist_of` [k].
Proof. unfold repeat_pair. destruct (rrepeat h); simpl; repeat constructor. Qed.

Lemma opt_keys (b : bool) k v : keys (if b then [(k, v)] else []) `sublist_of` [k].
Proof. destruct b; simpl; repeat constructor. Qed.

Lemma origin_keys k1 k2 k3 k4 h : keys (origin_pairs k1 k2 k3 k4 h) `sublist_of` [k1; k2; k3; k4].
Proof.
  unfold origin_pairs. destruct (0 <=? ref h); simpl; [repeat constructor|]. rewrite !fmap_app.
  apply sublist_cons, (sublist_app _ [k2]); [apply text_keys|].
  apply (sublist_app _ [k3]); apply text_keys.
Qed.

(** The keys in the order they are packed in, of which some may be left out. *)
Definition getlog_keys : list Z := [1] ++ [2; 3; 4; 5] ++ [7] ++ [8] ++ [6].
Definition record_keys : list Z := [0; 1] ++ [9] ++ [10; 2; 3; 4] ++ [6] ++ [7] ++ [8] ++ [5] ++ [60].
Definition file_keys : list Z := [1] ++ [2] ++ [3] ++ [4] ++ [6] ++ [7] ++ [8] ++ [5].

Definition value_pair (key : Z) (v : list tok) : list (Z * list tok) := [(key, v)].

Lemma getlog_keys_once h v : keys (getlog_pairs h ++ value_pair RPCHISTORY_GETLOG_KEY_VALUE v) `sublist_of` getlog_keys.
Proof.
  unfold getlog_pairs. rewrite !fmap_app, <-!app_assoc. apply sublist_app; [|apply sublist_app; [apply origin_keys|]].
  - destruct (_ =? _); simpl; repeat constructor.
  - apply sublist_app; [apply userid_keys|]. apply sublist_app; [apply repeat_keys|]. done.
Qed.

Lemma record_keys_once h v :
  keys (record_pairs h ++ (if has_value h then value_pair RPCHISTORY_FETCH_KEY_VALUE v else [])) `sublist_of` record_keys.
Proof.
  unfold record_pairs, has_value. rewrite !fmap_app, <-!app_assoc. apply sublist_app; [done|].
  apply sublist_app; [apply opt_keys|]. destruct (_ || _).
  - rewrite !fmap_app, <-!app_assoc. apply sublist_app; [apply origin_keys|]. apply sublist_app; [apply opt_keys|].
    apply sublist_app; [apply userid_keys|]. apply sublist_app; [apply repeat_keys|].
    apply sublist_skip, sublist_nil_l.
  - rewrite app_nil_r. do 8 apply sublist_cons. destruct (_ =? _); simpl; repeat constructor.
Qed.

Lemma file_keys_once h v : keys (file_pairs h ++ value_pair RPCHISTORY_FILE_KEY_VALUE v) `sublist_of` file_keys.
Proof.
  unfold file_pairs. rewrite !fmap_app, <-!app_assoc. apply sublist_app; [done|].
  do 3 (apply sublist_app; [apply text_keys|]). apply sublist_app; [apply opt_keys|].
  apply sublist_app; [apply userid_keys|]. apply sublist_app; [apply repeat_keys|]. done.
Qed.

Lemma imap_toks_flat ps k v : imap_toks (ps ++ [(k, v)]) = (TIMap :: flat ps ++ [TInt k]) ++ v ++ [TEnd].
Proof. unfold imap_toks, flat. rewrite flat_map_app. simpl. by rewrite app_nil_r, <-!app_assoc. Qed.

(** What is logged is packed as one map: the value is between the two calls, every field
    that is there has its key, and no key is there twice. *)
Theorem history_records_packed {P} (pack : P → cpitem → P * bool) `{!PackSpec pack} h value v :
  head_wf h → outputs pack value v →
  outputs pack (rpchistory_getlog_response_pack_begin pack h >>> value >>> rpchistory_getlog_response_pack_end pack)
    (imap_toks (getlog_pairs h ++ value_pair RPCHISTORY_GETLOG_KEY_VALUE v)) ∧
  outputs pack (rpchistory_file_record_pack_begin pack h >>> value >>> rpchistory_file_record_pack_end pack)
    (imap_toks (file_pairs h ++ value_pair RPCHISTORY_FILE_KEY_VALUE v)) ∧
  (has_value h = true → datetime_ok (rdatetime h) →
   outputs pack (rpchistory_record_pack_begin pack h >>> value >>> rpchistory_record_pack_end pack)
     (imap_toks (record_pairs h ++ value_pair RPCHISTORY_FETCH_KEY_VALUE v))) ∧
  NoDup (keys (getlog_pairs h ++ value_pair RPCHISTORY_GETLOG_KEY_VALUE v)) ∧
  NoDup (keys (file_pairs h ++ value_pair RPCHISTORY_FILE_KEY_VALUE v)) ∧
  (has_value h = true → NoDup (keys (record_pairs h ++ value_pair RPCHISTORY_FETCH_KEY_VALUE v))).
Proof.
  intros Hh Hv. unfold value_pair at 1 2 3. rewrite !imap_toks_flat. split_and!.
  - apply outputs_then; [by apply outputs_getlog_begin|]. apply outputs_then; [done|apply outputs_container_end].
  - apply outputs_then; [by apply outputs_file_begin|]. apply outputs_then; [done|apply outputs_container_end].
  - intros Hval Hd. pose proof (outputs_record_begin pack h Hh Hd) as Hb. rewrite Hval in Hb.
    apply outputs_then; [done|]. apply outputs_then; [done|apply outputs_container_end].
  - eapply sublist_NoDup; [|apply getlog_keys_once]. by apply (bool_decide_unpack _); vm_compute.
  - eapply sublist_NoDup; [|apply file_keys_once]. by apply (bool_decide_unpack _); vm_compute.
  - intros Hval. pose proof (record_keys_once h v) as Hs. rewrite Hval in Hs. eapply sublist_NoDup; [|exact Hs].
    by apply (bool_decide_unpack _); vm_compute.
Qed.

(** ** What is unpacked *)

(** A field of the parameter of [getLog]. *)
Inductive getlog_field :=
  | FSince (d : cpdatetime) | FUntil (d : cpdatetime) | FCount (n : option Z) | FRi (r : cstr).

Definition field_pair (f : getlog_field) : Z * list tok :=
  match f with
  | FSince d => (RPCHISTORY_GETLOG_REQ_KEY_SINCE, [TDatetime d])
  | FUntil d => (RPCHISTORY_GETLOG_REQ_KEY_UNTIL, [TDatetime d])
  | FCount n => (RPCHISTORY_GETLOG_REQ_KEY_COUNT, [match n with Some n => TInt n | None => TNull end])
  | FRi r => (RPCHISTORY_GETLOG_REQ_KEY_RI, [TString r])
  end.

Definition set_field (r : rpchistory_getlog_request) (f : getlog_field) : rpchistory_getlog_request :=
  match f with
  | FSince d => GetlogRequest d (until r) (count r) (gri r)
  | FUntil d => GetlogRequest (since r) d (count r) (gri r)
  | FCount n => GetlogRequest (since r) (until r) (default UINT_MAX n) (gri r)
  | FRi s => GetlogRequest (since r) (until r) (count r) s
  end.

Definition field_wf (f : getlog_field) : Prop :=
  match f with FCount (Some n) => urange 32 n | FRi s => text s | _ => True end.

Section requests.
Context {U : Type} (unpack : U → cpitem → U * cpitem) `{!UnpackSpec unpack} (ck : chunks) (ck_wf : chunks_wf ck).
Context (limit now : Z).
Notation body := (λ key, unpack_value unpack ck (i32 key)).

(** A function of one token that is no string, and that leaves the obstack alone. *)
Lemma steps_token {A} (f : U → cpitem → U * cpitem * A) t (x : A) m m' (b : U → cpitem → rpchistory_getlog_request * obstack →
    U * cpitem * (rpchistory_getlog_request * obstack + obstack)) :
  reads unpack f [t] (λ r, r = x) →
  (∀ u it u1 it1 o, f u it = (u1, it1, x) → b u it (m, o) = (u1, it1, inl (m', o))) →
  steps_to unpack b [t] (kept_as m) (kept_as m').
Proof.
  intros Hf Hb [r o] [Er Ho] u u' it Hy Hi. simpl in Er. subst r.
  destruct (Hf u u' it Hy Hi) as (it' & ? & E & Hi' & ->). exists it'. eexists.
  split; [by apply (Hb _ _ _ _ _ E)|]. split; [done|]. by exists (m', o).
Qed.

Lemma field_steps f r :
  field_wf f →
  steps_to unpack (body (field_pair f).1) (field_pair f).2 (kept_as r) (kept_as (set_field r f)).
Proof.
  intros Hf. destruct r as [si un co ri]. destruct f as [d|d|n|s]; cbn [field_pair fst snd set_field since until count gri].
  - apply (steps_token _ _ _ _ _ _ (reads_datetime unpack d)). intros u it u1 it1 o E.
    unfold unpack_value. change (i32 1) with 1. eval_keys. by rewrite E.
  - apply (steps_token _ _ _ _ _ _ (reads_datetime unpack d)). intros u it u1 it1 o E.
    unfold unpack_value. change (i32 2) with 2. eval_keys. by rewrite E.
  - intros [r o] [Er Ho] u u' it (u1 & Hy & ->) Hi. simpl in Er. subst r.
    destruct (unpack_idle unpack _ u u1 it Hy ltac:(by destruct n) Hi) as (it' & Hu & Hh & Hi').
    exists it'. unfold unpack_value, cp_unpack_type. change (i32 3) with 3. eval_keys. rewrite Hu. destruct Hh as [Ht Hv].
    eexists. split; [reflexivity|]. split; [done|]. destruct n as [n|]; cbn [tok_type] in Ht; rewrite Ht; [|by eexists].
    unfold cpitem_extract_int. rewrite Ht, Hv, bool_decide_true by done. cbn [as_Int andb].
    destruct (fits_unsigned 32 n ltac:(lia) Hf) as [-> ->]. by eexists.
  - apply (steps_string unpack ck ck_wf _ s (λ v m, set_field m (FRi (default any_ri v)))); [|done].
    intros u it o u1 it1 o1 E. unfold unpack_value, unpack_ri. change (i32 4) with 4. eval_keys. by rewrite E.
Qed.

Lemma getlog_chain fs r :
  Forall field_wf fs → chain unpack body (kept_as r) (field_pair <$> fs) (kept_as (foldl set_field r fs)).
Proof.
  intros Hf. revert r. induction Hf as [|f fs Hf Hfs IH]; intros r; [by constructor|].
  rewrite fmap_cons, (surjective_pairing (field_pair f)). econstructor; [by apply field_steps|apply IH].
Qed.

Lemma keys_small fs : Forall (λ p, srange 64 p.1) (field_pair <$> fs).
Proof. apply Forall_fmap, Forall_true. by intros []. Qed.

(** A loop that a key ends, after the pairs of a chain. *)
Lemma imap_refused {S R} (b : Z → U → cpitem → S → U * cpitem * (S + R)) Q ps Q' k :
  chain unpack b Q ps Q' → Forall (λ p, srange 64 p.1) ps → srange 64 k →
  (∀ u it s, Q' s → ∃ x, b k u it s = (u, it, inr x)) →
  ∀ u u' it s, Q s → idle_item it → yields_list unpack (flat ps ++ [TInt k]) u u' →
  ∃ it' x, steps (imap_step unpack b) (length ps + 1) (u, it, s) (inr (u', it', inr x)) ∧ idle_item it'.
Proof.
  intros Hc Hps Hk Hb. induction Hc as [Q Q' HQ'|Q Q1 Q2 k' v ps Hs Hc IH]; intros u u' it s HQ Hi Hy.
  - destruct (reads_int unpack 64 k ltac:(lia) Hk Hk u u' it Hy Hi) as (it1 & ? & Hu & Hi1 & ->).
    destruct (Hb u' it1 s (HQ' s HQ)) as [x Hx]. exists it1, x. split; [|done]. apply steps_stop.
    unfold imap_step. by rewrite Hu, Hx.
  - apply Forall_cons in Hps as [Hk' Hps]. destruct Hy as (u1 & Hy1 & Hy). simpl in Hk'.
    change (flat_map _ ?l) with (flat l) in Hy. rewrite <-app_assoc in Hy. apply yields_list_app in Hy as (u2 & Hv & Hy).
    destruct (reads_int unpack 64 k' ltac:(lia) Hk' Hk' u u1 it) as (it1 & ? & Hu & Hi1 & ->); [by exists u1|done|].
    destruct (Hs s HQ u1 u2 it1 Hv Hi1) as (it2 & ? & Hbody & Hi2 & s1 & -> & HQ1).
    destruct (IH Hps Hb u2 u' it2 s1 HQ1 Hi2 Hy) as (it' & x & Hst & ?). exists it', x. split; [|done].
    simpl. eapply steps_next; [|done]. unfold imap_step. by rewrite Hu, Hbody.
Qed.
End requests.

Lemma getlog_limit_spec limit r :
  let q := getlog_limit limit r in
  since q = since r ∧ until q = until r ∧ gri q = gri r ∧ count q = Z.min limit (count r).
Proof. unfold getlog_limit. destruct (Z.ltb_spec limit (count r)); simpl; (split_and!; [done..|lia]). Qed.

(** Without a number the one of the default is left, which null sets too. *)
Lemma no_count r fs :
  count r = UINT_MAX → (∀ n, FCount (Some n) ∉ fs) → count (foldl set_field r fs) = UINT_MAX.
Proof.
  revert r. induction fs as [|f fs IH]; intros r Hr Hno; [done|]. simpl. apply IH.
  - destruct f as [?|?|[n|]|?]; [done|done| |done|done]. destruct (Hno n). by left.
  - intros n Hin. apply (Hno n). by right.
Qed.


