(* ===== verification/HandlerHistory.v ===== *)
(** * The history stage ([libshvhistory/rpchandler_history.c])

    The logs of a device are below [.records], and the paths whose signals are logged are
    a tree of nodes with [getLog] and [getSnapshot].  What there is in the logs is up to
    the callbacks of the application. *)

From S2P Require Import Prelude Effects Stdio CpItem CpUnpack CpPack CpObstack CpLoops.
From S2P Require Import Rpcri Rpcaccess Strset RpcError RpcFile RpcDir RpcMsg RpcHead Handler HandlerSpec HandlerApp HandlerStage History.

(** ** Definitions *)

Definition RECORDS_PREFIX : cstr := str ".records/".
Definition FILES_PREFIX : cstr := str ".files/".

(** [pack_records] gets the start and the number, [get_index_range] gives the smallest and
    the biggest index and the span. *)
Record rpchandler_history_records (P : Type) : Type := HistoryRecords {
  hname : cstr;
  pack_records : Z → Z → P → P * bool;
  get_index_range : option (Z * Z * Z) }.
Arguments HistoryRecords {P} _ _ _.
Arguments hname {P} _.
Arguments pack_records {P} _.
Arguments get_index_range {P} _.

Record rpchandler_history_facilities (P : Type) : Type := HistoryFacilities {
  hrecords : option (list (rpchandler_history_records P));
  hfiles : option (list cstr);
  pack_getlog : option (rpchistory_getlog_request → cstr → P → P * bool);
  pack_getsnapshot : option (rpchistory_getsnapshot_request → cstr → P → P * bool) }.
Arguments HistoryFacilities {P} _ _ _ _.
Arguments hrecords {P} _.
Arguments hfiles {P} _.
Arguments pack_getlog {P} _.
Arguments pack_getsnapshot {P} _.

Record rpchandler_history (P : Type) : Type := History {
  has_records : bool; has_files : bool; has_getlog : bool;
  hsignals : list cstr;
  facilities : rpchandler_history_facilities P }.
Arguments History {P} _ _ _ _ _.
Arguments has_records {P} _.
Arguments has_files {P} _.
Arguments has_getlog {P} _.
Arguments hsignals {P} _.
Arguments facilities {P} _.

Definition rpchandler_history_new {P} (f : rpchandler_history_facilities P) (signals : list cstr) : rpchandler_history P :=
  History (bool_decide (is_Some (hrecords f))) (bool_decide (is_Some (hfiles f)))
    (bool_decide (is_Some (pack_getlog f)) && bool_decide (is_Some (pack_getsnapshot f))) signals f.

(** What is in front of the next slash. *)
Definition segment (s : cstr) : cstr := take (length s - length (strchrnul s SLASH)) s.

(** The child of [path] that a signal is at or below. *)
Definition child (path s : cstr) : option cstr :=
  if negb (strncmp s path (length path) =? 0) || negb (cget s (strlen path) =? SLASH) then None
  else Some (segment (drop (length path + 1) s)).

(** Is the signal at or below the path? *)
Definition below (path s : cstr) : bool :=
  (cget path 0 =? 0) ||
  ((strncmp s path (length path) =? 0) && ((cget s (strlen path) =? 0) || (cget s (strlen path) =? SLASH))).

(** [strncmp(PREFIX, path, strlen(PREFIX))] *)
Definition prefixed (prefix path : cstr) : bool := strncmp prefix path (length prefix) =? 0.

Section stage.
Context {S P U : Type} (unpack : U → cpitem → U * cpitem) (ck : chunks) (limit now : Z).
Context (pack : P → cpitem → P * bool) (fresh : P) (sendmsg : P → M S bool).
Notation M := (M S).
Notation msg := (rpchandler_msg U).
Notation ls := (ls_ctx P U).
Notation dir := (dir_ctx P).
Notation respond := (respond pack fresh sendmsg).
Notation history := (rpchandler_history P).

Definition ls_results (l : list cstr) (ctx : ls) : M ls := fold (λ ctx n, rpchandler_ls_result pack fresh n ctx) ctx l.
Definition ls_results_fmt (l : list cstr) (ctx : ls) : M ls := fold (λ ctx n, rpchandler_ls_result_fmt pack fresh n ctx) ctx l.

Definition history_ls (h : history) (ctx : ls) : M ls :=
  if cget (lpath ctx) 0 =? 0 then
    ctx ← (if has_records h then rpchandler_ls_result pack fresh (str ".records") ctx else mret ctx);
    ctx ← (if has_files h then rpchandler_ls_result pack fresh (str ".files") ctx else mret ctx);
    if has_getlog h then ls_results_fmt (segment <$> hsignals h) ctx else mret ctx
  else if strcmp (lpath ctx) (str ".records") =? 0 then
    ls_results (hname <$> default [] (hrecords (facilities h))) ctx
  else if strcmp (lpath ctx) (str ".files") =? 0 then ls_results (default [] (hfiles (facilities h))) ctx
  else if has_getlog h then ls_results_fmt (omap (child (lpath ctx)) (hsignals h)) ctx
  else mret ctx.

Definition history_dir (h : history) (ctx : dir) : M dir :=
  if prefixed RECORDS_PREFIX (dpath ctx) then
    fold (λ ctx r,
      if strcmp (hname r) (drop (length RECORDS_PREFIX) (dpath ctx)) =? 0
      then dir_results pack [rpchistory_fetch; rpchistory_span] ctx else mret ctx)
      ctx (default [] (hrecords (facilities h)))
  else if prefixed FILES_PREFIX (dpath ctx) then mret ctx
  else if has_getlog h then
    if existsb (below (dpath ctx)) (hsignals h)
    then dir_results pack [rpchistory_getlog; rpchistory_getsnapshot] ctx else mret ctx
  else mret ctx.

Definition pack_span (r : Z * Z * Z) : P → P * bool :=
  cp_pack_list_begin pack >>> cp_pack_int pack (i64 r.1.1) >>> cp_pack_int pack (i64 r.1.2) >>>
  cp_pack_int pack (i64 r.2) >>> cp_pack_container_end pack.

Definition rpcspan_result (ctx : msg) (r : Z * Z * Z) : M unit := respond ctx (pack_span r);; mret tt.

Definition rpcfetch_result (record : rpchandler_history_records P) (ctx : msg) (start num : Z) : M unit :=
  respond ctx (cp_pack_list_begin pack >>> pack_records record (i32 start) (i32 num) >>> cp_pack_container_end pack);;
  mret tt.

(** The two numbers of [fetch], if they are there. *)
Definition fetch_param (ctx : msg) : M (msg * option (Z * Z)) :=
  '(ctx, ty) ← reading (cp_unpack_type unpack) ctx;
  if negb (bool_decide (ty = CPITEM_LIST)) then mret (ctx, None)
  else
    '(ctx, start) ← reading (cp_unpack_int unpack (Unsigned 64)) ctx;
    match start with
    | None => mret (ctx, None)
    | Some start => '(ctx, num) ← reading (cp_unpack_int unpack (Unsigned 64)) ctx; mret (ctx, pair start <$> num)
    end.

Definition handle_records_history (record : rpchandler_history_records P) (ctx : msg) : M (msg * rpchandler_msg_res) :=
  name ← need NullPointer (method (hmeta ctx));
  if (strcmp name (str "fetch") =? 0) && (RPCACCESS_SERVICE <=? maccess (hmeta ctx)) then
    '(ctx, param) ← fetch_param ctx;
    let '(ctx, valid) := rpchandler_msg_valid ctx in
    (if valid : bool then
       match param with
       | None => rpchandler_msg_send_error pack fresh sendmsg ctx RPCERR_INVALID_PARAM (Some (str "[Int, Int] expected."));; mret tt
       | Some (start, num) => rpcfetch_result record ctx start num
       end
     else mret tt);;
    mret (ctx, RPCHANDLER_MSG_DONE)
  else if (strcmp name (str "span") =? 0) && (RPCACCESS_SERVICE <=? maccess (hmeta ctx)) then
    null_method unpack pack fresh sendmsg ctx (λ ctx,
      match get_index_range record with
      | Some r => rpcspan_result ctx r
      | None =>
          rpchandler_msg_send_error pack fresh sendmsg ctx RPCERR_INVALID_PARAM
            (Some (str "Could not retrieve information from the log."));; mret tt
      end) (nothing (S := S) (U := U))
  else mret (ctx, RPCHANDLER_MSG_SKIP).

(** The list that the callback fills, or an error when it cannot. *)
Definition log_result (body : P → P * bool) (ctx : msg) : M unit :=
  p ← need NullPointer (rpchandler_msg_new_response pack fresh ctx);
  let '(p, ok) := body (cp_pack_list_begin pack p).1 in
  if ok : bool then
    rpchandler_msg_send_response pack sendmsg ctx (Some (cp_pack_container_end pack p).1);; mret tt
  else
    rpchandler_msg_send_error pack fresh sendmsg ctx RPCERR_METHOD_CALL_EXCEPTION
      (Some (str "Time in the logs is not valid, not possible to provide records."));; mret tt.

Definition reading_obs {A} (f : U → cpitem → obstack → U * cpitem * (A * obstack)) (ctx : msg) : M (msg * A) :=
  u ← need NullPointer (hunpack ctx);
  let '(u, it, (x, o)) := f u (hitem ctx) (hobs ctx) in mret (set_hobs o (set_read u it ctx), x).

(** A parameter is unpacked and the callback asked. *)
Definition log_method {R} (f : U → cpitem → obstack → U * cpitem * (option R * obstack))
    (cb : option (R → cstr → P → P * bool)) (expected path : cstr) (ctx : msg) : M (msg * rpchandler_msg_res) :=
  '(ctx, request) ← reading_obs f ctx;
  let '(ctx, valid) := rpchandler_msg_valid ctx in
  (if valid : bool then
     match request with
     | None => rpchandler_msg_send_error pack fresh sendmsg ctx RPCERR_INVALID_PARAM (Some expected);; mret tt
     | Some r => cb ← need NullPointer cb; log_result (cb r path) ctx
     end
   else mret tt);;
  mret (ctx, RPCHANDLER_MSG_DONE).

Definition skipped (ctx : msg) : M (msg * rpchandler_msg_res) := mret (ctx, RPCHANDLER_MSG_SKIP).

(** Files are not implemented. *)
Definition handle_files_history : msg → M (msg * rpchandler_msg_res) := skipped.

Definition history_msg (h : history) (ctx : msg) : M (msg * rpchandler_msg_res) :=
  if negb (is_type (hmeta ctx) RPCMSG_T_REQUEST) then skipped ctx
  else
    path ← need NullPointer (path (hmeta ctx));
    name ← need NullPointer (method (hmeta ctx));
    if has_records h && prefixed RECORDS_PREFIX path then
      match List.find (λ r, strcmp (drop (length RECORDS_PREFIX) path) (hname r) =? 0)
              (default [] (hrecords (facilities h))) with
      | Some r => handle_records_history r ctx
      | None => skipped ctx
      end
    else if has_files h && prefixed FILES_PREFIX path then
      match List.find (λ n, strcmp (drop (length FILES_PREFIX) path) n =? 0) (default [] (hfiles (facilities h))) with
      | Some _ => handle_files_history ctx
      | None => skipped ctx
      end
    else if (strcmp name (str "getLog") =? 0) && has_getlog h then
      if existsb (below path) (hsignals h) then
        log_method (rpchistory_getlog_request_unpack unpack ck limit now) (pack_getlog (facilities h))
          (str "!getLogP expected.") path ctx
      else skipped ctx
    else if (strcmp name (str "getSnapshot") =? 0) && has_getlog h then
      if existsb (below path) (hsignals h) then
        log_method (rpchistory_getsnapshot_request_unpack unpack ck now) (pack_getsnapshot (facilities h))
          (str "!getSnapshotP expected.") path ctx
      else skipped ctx
    else skipped ctx.

Definition rpchandler_history_stage (h : history) : rpchandler_funcs S P U :=
  Funcs (Some (history_msg h)) (Some (history_ls h)) (Some (history_dir h)) None None.
End stage.

(** ** Paths *)

Lemma segment_nil : segment [] = [].
Proof. done. Qed.

Lemma segment_slash s : segment (SLASH :: s) = [].
Proof. unfold segment, strchrnul. simpl. by rewrite Nat.sub_diag. Qed.

Lemma strchrnul_length s c : (length (strchrnul s c) ≤ length s)%nat.
Proof.
  unfold strchrnul. induction s as [|x s IH]; simpl; [lia|]. destruct (x =? c); simpl; [lia|].
  destruct (strchr s c); simpl in *; lia.
Qed.

Lemma segment_cons x s : x ≠ SLASH → segment (x :: s) = x :: segment s.
Proof.
  intros Hx. pose proof (strchrnul_length s SLASH) as Hl. unfold segment, strchrnul in *. simpl strchr.
  rewrite (proj2 (Z.eqb_neq x SLASH)) by done. set (t := default [] (strchr s SLASH)) in *.
  cbn [length]. replace (Datatypes.S (length s) - length t)%nat with (Datatypes.S (length s - length t)) by lia. done.
Qed.

Lemma segment_spec s :
  ∃ t, s = segment s ++ t ∧ SLASH ∉ segment s ∧ (t = [] ∨ ∃ t', t = SLASH :: t').
Proof.
  induction s as [|x s (t & Ht & Hn & He)]; [exists []; split_and!; [done|by apply not_elem_of_nil|by left]|].
  destruct (decide (x = SLASH)) as [->|Hx].
  - rewrite segment_slash. exists (SLASH :: s). split_and!; [done|by apply not_elem_of_nil|right; by eexists].
  - rewrite segment_cons by done. exists t. split; [simpl; by f_equal|]. split; [|done]. by apply not_elem_of_cons.
Qed.

Lemma segment_app n t : SLASH ∉ n → t = [] ∨ (∃ t', t = SLASH :: t') → segment (n ++ t) = n.
Proof.
  induction n as [|x n IH]; intros Hn Ht; simpl.
  - destruct Ht as [->|[t' ->]]; [done|apply segment_slash].
  - apply not_elem_of_cons in Hn as [Hx Hn]. rewrite segment_cons by done. by rewrite IH.
Qed.

Lemma segment_wf s : wf_cstr s → wf_cstr (segment s).
Proof. intros Hs. unfold segment. by apply Forall_take. Qed.

(** [strncmp] over the whole of a path. *)
Lemma strncmp_prefix_of s path : wf_cstr path → (strncmp s path (length path) =? 0) = bool_decide (path `prefix_of` s).
Proof.
  revert s. induction path as [|y path IH]; intros s Hp; cbn [length strncmp]; [destruct s; symmetry; apply bool_decide_eq_true_2, prefix_nil|].
  apply Forall_cons in Hp as [Hy Hp]. destruct s as [|x s]; cbn [strncmp].
  - rewrite bool_decide_false by (intros H%prefix_nil_inv; done).
    apply Z.eqb_neq. lia.
  - destruct (Z.eqb_spec x y) as [->|Hxy].
    + rewrite IH by done. apply bool_decide_ext. split; [apply prefix_cons|apply prefix_cons_inv_2].
    + rewrite bool_decide_false by (intros H%prefix_cons_inv_1; congruence). apply Z.eqb_neq. lia.
Qed.

Lemma cget_app path t : cget (path ++ t) (strlen path) = cget t 0.
Proof. unfold cget, strlen. rewrite Nat2Z.id, lookup_app_r by lia. by rewrite Nat.sub_diag. Qed.

(** No node of the path of a signal is without a name. *)
Definition signal_ok (s : cstr) : Prop :=
  wf_cstr s ∧ (∀ p t, s = p ++ SLASH :: t → p ≠ [] ∧ segment t ≠ []) ∧ s ≠ [].

(** The nodes of the tree of a signal: itself and what it is below. *)
Definition node_of (path s : cstr) : Prop := path = [] ∨ path = s ∨ ∃ t, s = path ++ SLASH :: t.

Lemma cget_0 t : wf_cstr t → ((cget t 0 =? 0) = true ↔ t = []) ∧ ((cget t 0 =? SLASH) = true ↔ ∃ t', t = SLASH :: t').
Proof.
  destruct t as [|x t]; intros Ht.
  - split; [done|]. split; [done|]. by intros [].
  - apply Forall_cons in Ht as [Hx _]. unfold cget. simpl. split.
    + split; [|done]. intros H%Z.eqb_eq. lia.
    + split; [intros ->%Z.eqb_eq; by eexists|intros [t' [= -> ->]]; by rewrite Z.eqb_refl].
Qed.

Lemma below_spec path s : wf_cstr path → wf_cstr s → below path s = true ↔ node_of path s.
Proof.
  intros Hp Hs. unfold below, node_of. rewrite orb_true_iff, (proj1 (cget_0 path Hp)), andb_true_iff, orb_true_iff.
  rewrite strncmp_prefix_of, bool_decide_eq_true by done. split.
  - intros [->|[[t ->] He]]; [by left|]. right. apply Forall_app in Hs as [_ Ht]. rewrite cget_app in He.
    destruct He as [He|He]; [left|right]; [by rewrite (proj1 (proj1 (cget_0 t Ht)) He), app_nil_r|].
    destruct (proj1 (proj2 (cget_0 t Ht)) He) as [t' ->]. by exists t'.
  - intros [->|[->|[t ->]]]; [by left|right..].
    + split; [done|]. left. rewrite <-(app_nil_r s) at 1. by rewrite cget_app.
    + split; [by apply prefix_app_r|]. right. by rewrite cget_app.
Qed.

Lemma child_spec path s n :
  wf_cstr path → wf_cstr s → child path s = Some n ↔ ∃ t, s = path ++ SLASH :: t ∧ n = segment t.
Proof.
  intros Hp Hs. unfold child. rewrite strncmp_prefix_of by done. case_bool_decide as Hpre; simpl.
  - destruct Hpre as [t ->]. apply Forall_app in Hs as [_ Ht]. rewrite cget_app.
    destruct (cget_0 t Ht) as [_ H1]. destruct (cget t 0 =? SLASH); simpl.
    + destruct (proj1 H1 eq_refl) as [t' ->]. rewrite <-drop_drop, drop_app_length. simpl. split.
      * intros [= <-]. by exists t'.
      * intros (t'' & Heq & ->). apply (inj (app path)) in Heq. by injection Heq as <-.
    + split; [done|]. intros (t'' & Heq & _). apply (inj (app path)) in Heq. subst t. discriminate (proj2 H1 ltac:(by eexists)).
  - split; [done|]. intros (t & -> & _). destruct Hpre. by apply prefix_app_r.
Qed.

(** ** The tree *)

Definition join (path n : cstr) : cstr := match path with [] => n | _ => path ++ SLASH :: n end.

Lemma child_node path s n :
  wf_cstr path → wf_cstr s → n ≠ [] → SLASH ∉ n → path ≠ [] →
  child path s = Some n ↔ node_of (join path n) s.
Proof.
  intros Hp Hs Hn Hslash Hne. rewrite child_spec by done. unfold join, node_of. destruct path as [|x path]; [done|].
  set (p := x :: path) in *. split.
  - intros (t & -> & ->). right. destruct (segment_spec t) as (t2 & Ht & _ & [->|[t' ->]]).
    + left. by rewrite app_nil_r in Ht; rewrite <-Ht.
    + right. exists t'. rewrite Ht at 1. by rewrite <-app_assoc.
  - intros [H|[<-|[t ->]]]; [by destruct p|exists n; split; [done|]; symmetry; rewrite <-(app_nil_r n) at 1; apply segment_app; [done|by left]|].
    exists (n ++ SLASH :: t). rewrite <-app_assoc. split; [done|]. symmetry. apply segment_app; [done|]. right. by eexists.
Qed.

Lemma segment_node s n : n ≠ [] → SLASH ∉ n → segment s = n ↔ node_of n s.
Proof.
  intros Hn Hslash. unfold node_of. split.
  - intros <-. right. destruct (segment_spec s) as (t & Ht & _ & [->|[t' ->]]); [left; by rewrite app_nil_r in Ht|right; by exists t'].
  - intros [->|[->|[t ->]]]; [done| |].
    + rewrite <-(app_nil_r s) at 1. apply segment_app; [done|by left].
    + apply segment_app; [done|]. right. by eexists.
Qed.

(** The node of a name that is asked for. *)
Definition is_node (signals : list cstr) (path : cstr) : Prop := ∃ s, s ∈ signals ∧ node_of path s.

Lemma existsb_node signals path :
  wf_cstr path → Forall signal_ok signals → existsb (below path) signals = true ↔ is_node signals path.
Proof.
  intros Hp Hs. rewrite existsb_exists. unfold is_node. split; intros (s & Hin & Hb); exists s.
  - apply list_elem_of_In in Hin. split; [done|]. apply below_spec; [done| |done].
    by eapply Forall_forall in Hs as [? _].
  - split; [by apply list_elem_of_In|]. apply below_spec; [done| |done]. by eapply Forall_forall in Hs as [? _].
Qed.

(** What a path starts with. *)
Lemma prefixed_spec prefix path : wf_cstr prefix → prefixed prefix path = bool_decide (prefix `prefix_of` path).
Proof.
  unfold prefixed. revert path. induction prefix as [|y prefix IH]; intros path Hp; cbn [length strncmp].
  { symmetry. apply bool_decide_eq_true_2, prefix_nil. }
  apply Forall_cons in Hp as [Hy Hp]. destruct path as [|x path]; cbn [strncmp].
  - rewrite bool_decide_false by (intros H%prefix_nil_inv; done). apply Z.eqb_neq. lia.
  - destruct (Z.eqb_spec y x) as [->|Hxy].
    + rewrite IH by done. apply bool_decide_ext. split; [apply prefix_cons|apply prefix_cons_inv_2].
    + rewrite bool_decide_false by (intros H%prefix_cons_inv_1; congruence). apply Z.eqb_neq. lia.
Qed.

(** The last name of a path. *)
Lemma last_name (p q n k : cstr) : SLASH ∉ n → SLASH ∉ k → p ++ SLASH :: n = q ++ SLASH :: k → p = q ∧ n = k.
Proof.
  intros Hn Hk. revert q. induction p as [|x p IH]; intros [|y q] E; cbn [app] in E.
  - by injection E.
  - injection E as _ ->. destruct Hn. apply elem_of_app. right. apply list_elem_of_here.
  - injection E as _ <-. destruct Hk. apply elem_of_app. right. apply list_elem_of_here.
  - injection E as -> E. by destruct (IH q E) as [-> ->].
Qed.

(** ** The stage keeps its part *)

(** The name of a node. *)
Definition name_ok (n : cstr) : Prop := wf_cstr n ∧ n ≠ [] ∧ SLASH ∉ n.

#[export] Instance name_ok_dec n : Decision (name_ok n).
Proof. unfold name_ok, wf_cstr. apply _. Defined.

(** The logs and files have names of nodes, no node of the path of a signal is without a
    name and none of them is at or below the nodes of the logs and files, there are not
    more of them than an [int] counts, and the callbacks do nothing but pack. *)
Record history_wf {P} (pack : P → cpitem → P * bool) (f : rpchandler_history_facilities P) (signals : list cstr) : Prop := {
  wf_signals : Forall signal_ok signals;
  wf_reserved : Forall (λ s, segment s ∉ [str ".records"; str ".files"]) signals;
  wf_records : Forall name_ok (hname <$> default [] (hrecords f));
  wf_files : Forall name_ok (default [] (hfiles f));
  wf_many : Z.of_nat (length signals) + 2 ≤ 2 ^ 31 ∧ Z.of_nat (length (default [] (hrecords f))) ≤ 2 ^ 31 ∧
    Z.of_nat (length (default [] (hfiles f))) ≤ 2 ^ 31;
  wf_fetch r start num : r ∈ default [] (hrecords f) → OnlyPacks pack (pack_records r start num);
  wf_getlog cb r path : pack_getlog f = Some cb → OnlyPacks pack (cb r path);
  wf_getsnapshot cb r path : pack_getsnapshot f = Some cb → OnlyPacks pack (cb r path) }.

(** The names that are listed at a path. *)
Definition history_names {P} (h : rpchandler_history P) (path : cstr) : list cstr :=
  if cget path 0 =? 0 then
    (if has_records h then [str ".records"] else []) ++ (if has_files h then [str ".files"] else []) ++
    (if has_getlog h then segment <$> hsignals h else [])
  else if strcmp path (str ".records") =? 0 then hname <$> default [] (hrecords (facilities h))
  else if strcmp path (str ".files") =? 0 then default [] (hfiles (facilities h))
  else if has_getlog h then omap (child path) (hsignals h) else [].

Section proofs.
Context {S P U : Type} (unpack : U → cpitem → U * cpitem) (ck : chunks) (limit now : Z).
Context (pack : P → cpitem → P * bool) (fresh : P).
Context (sendmsg : P → M S bool) (ignoremsg : M S unit) `{!ClientSpec sendmsg ignoremsg}.
Context (f : rpchandler_history_facilities P) (signals : list cstr) (wf : history_wf pack f signals).
Notation h := (rpchandler_history_new f signals).
Notation msg := (rpchandler_msg U).
Notation lists_names := (lists_names (U := U) pack fresh sendmsg ignoremsg).
Implicit Types ctx : msg.

Lemma ls_results_names path l : Forall wf_cstr l → lists_names path l (ls_results pack fresh l).
Proof.
  intros Hl. rewrite <-(bind_singleton l) at 1. apply (fold_names pack fresh sendmsg ignoremsg path (rpchandler_ls_result pack fresh)).
  intros x Hx. eapply Forall_forall in Hl; [|exact Hx]. by apply ls_result_names.
Qed.

Lemma ls_results_fmt_names path l : Forall (λ n, wf_cstr n ∧ n ≠ []) l → lists_names path l (ls_results_fmt pack fresh l).
Proof.
  intros Hl. rewrite <-(bind_singleton l) at 1. apply (fold_names pack fresh sendmsg ignoremsg path (rpchandler_ls_result_fmt pack fresh)).
  intros x Hx. eapply Forall_forall in Hl as [Hw Hn]; [|exact Hx]. by apply ls_result_fmt_names.
Qed.

Lemma signal_segments : Forall (λ n, wf_cstr n ∧ n ≠ []) (segment <$> signals).
Proof.
  apply Forall_fmap. eapply Forall_impl; [apply wf|]. intros s (Hw & Hs & Hne). simpl. split; [by apply segment_wf|].
  destruct s as [|x s]; [done|]. destruct (decide (x = SLASH)) as [->|Hx]; [|by rewrite segment_cons].
  by destruct (Hs [] s eq_refl).
Qed.

Lemma child_some path s n : child path s = Some n → ∃ p t, s = p ++ SLASH :: t ∧ n = segment t.
Proof.
  unfold child. destruct (_ || negb (cget s (strlen path) =? SLASH)) eqn:E; [done|]. intros [= <-].
  apply orb_false_iff in E as [_ E%negb_false_iff%Z.eqb_eq]. unfold cget, strlen in E. rewrite Nat2Z.id in E.
  destruct (s !! length path) as [x|] eqn:Hx; simpl in E; [|done]. subst x.
  exists (take (length path) s), (drop (length path + 1) s). split; [|done].
  rewrite Nat.add_1_r. by rewrite take_drop_middle.
Qed.

Lemma children_ok path : Forall (λ n, wf_cstr n ∧ n ≠ []) (omap (child path) signals).
Proof.
  apply Forall_forall. intros n (s & Hin & Hc)%list_elem_of_omap.
  pose proof (wf_signals _ _ _ wf) as Hsig. eapply Forall_forall in Hsig as (Hw & Hs & _); [|exact Hin].
  apply child_some in Hc as (p & t & -> & ->). destruct (Hs _ _ eq_refl) as [_ Hne].
  split; [|done]. apply segment_wf. by apply Forall_app in Hw as [_ [_ ?]%Forall_cons].
Qed.

Lemma omap_length {A B} (g : A → option B) l : (length (omap g l) ≤ length l)%nat.
Proof. 
  induction l as [|x l IH]; [done|]. change (omap g (x :: l)) with (match g x with Some y => y :: omap g l | None => omap g l end).
  destruct (g x); simpl length; lia.
Qed.

Lemma names_wf l : Forall name_ok l → Forall wf_cstr l.
Proof. intros Hl. eapply Forall_impl; [exact Hl|]. by intros n []. Qed.

Lemma history_ls_names m (l : ls_ctx P U) :
  ls_ok pack fresh m l → cnt_of (lstrset l) + 2 ^ 31 ≤ 2 ^ 62 →
  Z.of_nat (length (history_names h (lpath l))) ≤ 2 ^ 31 ∧
  silent sendmsg ignoremsg (history_ls (S := S) pack fresh h l) (λ l', ls_ok pack fresh m l' ∧ same_ls l l' ∧
    cnt_of (lstrset l') ≤ cnt_of (lstrset l) + Z.of_nat (length (history_names h (lpath l))) ∧
    named (history_names h (lpath l)) l l').
Proof.
  intros Hl Hc. assert (∀ names (g : ls_ctx P U → M S (ls_ctx P U)), Z.of_nat (length names) ≤ 2 ^ 31 →
    lists_names (lpath l) names g → Z.of_nat (length names) ≤ 2 ^ 31 ∧
    silent sendmsg ignoremsg (g l) (λ l', ls_ok pack fresh m l' ∧ same_ls l l' ∧
      cnt_of (lstrset l') ≤ cnt_of (lstrset l) + Z.of_nat (length names) ∧ named names l l')) as Hlist.
  { intros names g Hn Hg. split; [done|]. apply Hg; [done|done|lia]. }
  destruct wf as [_ _ Hrec%names_wf Hfil%names_wf (Hm1 & Hm2 & Hm3) _ _ _]. unfold history_ls, history_names.
  destruct (cget (lpath l) 0 =? 0).
  { apply (Hlist _ (λ l, l ← (if has_records h then rpchandler_ls_result pack fresh (str ".records") l else mret l);
      l ← (if has_files h then rpchandler_ls_result pack fresh (str ".files") l else mret l);
      if has_getlog h then ls_results_fmt pack fresh (segment <$> hsignals h) l else mret l)).
    { rewrite !length_app. cbn [has_records has_files has_getlog hsignals rpchandler_history_new].
      repeat case_match; rewrite ?length_fmap; simpl length; lia. }
    apply (lists_names_bind pack fresh sendmsg ignoremsg _ _ _ (λ l, if has_records h then _ l else mret l));
      [|apply (lists_names_bind pack fresh sendmsg ignoremsg _ _ _ (λ l, if has_files h then _ l else mret l))];
      apply lists_names_if; try apply lists_names_ret; try (apply ls_result_names; by_evaluation).
    apply ls_results_fmt_names, signal_segments. }
  destruct (strcmp _ _ =? 0); [apply Hlist; [by rewrite length_fmap|by apply ls_results_names]|].
  destruct (strcmp _ _ =? 0); [apply Hlist; [done|by apply ls_results_names]|].
  destruct (has_getlog h); [|apply (Hlist [] mret); [done|apply lists_names_ret]].
  apply Hlist; [|apply ls_results_fmt_names, children_ok].
  pose proof (omap_length (child (lpath l)) signals). simpl hsignals. lia.
Qed.

Lemma history_ls_lists : lists pack fresh sendmsg ignoremsg (history_ls (S := S) (U := U) pack fresh h).
Proof.
  intros m l Hl Hc. destruct (history_ls_names m l Hl Hc) as [Hn Hs]. eapply silent_impl; [exact Hs|].
  intros l' (? & ? & ? & _). split_and!; [done..|lia].
Qed.

Lemma history_dir_describes : describes pack fresh sendmsg ignoremsg (history_dir (S := S) pack h).
Proof.
  intros m d Hd. unfold history_dir. destruct (prefixed RECORDS_PREFIX (dpath d)).
  - revert d Hd. induction (default [] (hrecords (facilities h))) as [|r l IH]; intros d Hd; [by apply silent_ret|].
    eapply silent_bind with (Q := λ d', started pack fresh m (dpack d') ∧ dname d' = dname d ∧ dpath d' = dpath d).
    + destruct (strcmp _ _ =? 0); [|by apply silent_ret]. apply dir_results_describe; [|done].
      repeat constructor; by eexists.
    + intros d1 (H1 & E1 & E2). eapply silent_impl; [by apply IH|]. intros d2 (? & ? & ?). split_and!; congruence.
  - destruct (prefixed FILES_PREFIX (dpath d)); [by apply silent_ret|]. destruct (has_getlog h); [|by apply silent_ret].
    destruct (existsb _ _); [|by apply silent_ret]. apply dir_results_describe; [|done]. repeat constructor; by eexists.
Qed.

Lemma log_result_answered body ctx `{!OnlyPacks pack body} :
  answerable ctx → answered pack fresh sendmsg ignoremsg (hmeta ctx) (log_result pack fresh sendmsg body ctx).
Proof.
  intros Ha. unfold log_result. rewrite new_response_some by done. apply answered_need.
  pose proof (started_new pack fresh (hmeta ctx)) as Hs. set (p := (rpcmsg_pack_response _ _ _).1) in *.
  apply (started_next _ _ _ _ (cp_pack_list_begin pack)) in Hs.
  apply (started_next _ _ _ _ body) in Hs. destruct (body _) as [q ok]. cbn [fst] in Hs. destruct ok.
  - apply answered_then. cbn [rpchandler_msg_send_response]. apply send_answered; [apply Ha|].
    apply answer_value. by apply (started_next _ _ _ _ (cp_pack_container_end pack)).
  - by apply answered_then, send_error_answered.
Qed.

Lemma reading_obs_silent {A} (g : U → cpitem → obstack → U * cpitem * (A * obstack)) ctx :
  is_Some (hunpack ctx) →
  silent sendmsg ignoremsg (reading_obs g ctx) (λ r, hmeta r.1 = hmeta ctx ∧ hvalid r.1 = hvalid ctx).
Proof.
  intros [u Hu] s. unfold reading_obs. rewrite Hu, (bind_run _ _ s s u eq_refl).
  destruct (g u (hitem ctx) (hobs ctx)) as [[u' it] [x o]]. by exists s, (set_hobs o (set_read u' it ctx), x).
Qed.

Lemma log_method_taken {R} (g : U → cpitem → obstack → U * cpitem * (option R * obstack)) cb expected path ctx :
  request ctx → is_Some cb → (∀ c r, cb = Some c → OnlyPacks pack (c r path)) →
  taken pack fresh sendmsg ignoremsg ctx (log_method pack fresh sendmsg g cb expected path ctx).
Proof.
  intros Hr [c ->] Hcb. unfold log_method.
  apply (validate_taken pack fresh sendmsg ignoremsg ctx (reading_obs g ctx) (λ ctx request,
    match request with
    | None => rpchandler_msg_send_error pack fresh sendmsg ctx RPCERR_INVALID_PARAM (Some expected);; mret tt
    | Some r => cb ← need NullPointer (Some c); log_result pack fresh sendmsg (cb r path) ctx
    end)); [done|apply reading_obs_silent, Hr|].
  intros ctx1 [r|] Ha Em.
  - rewrite <-Em. apply answered_need, log_result_answered; [by apply Hcb|done].
  - by apply error_done.
Qed.

Lemma fetch_param_silent ctx :
  is_Some (hunpack ctx) →
  silent sendmsg ignoremsg (fetch_param unpack ctx) (λ r, hmeta r.1 = hmeta ctx ∧ hvalid r.1 = hvalid ctx).
Proof.
  intros Hu. unfold fetch_param. eapply silent_bind; [by apply reading_silent|]. intros [ctx1 ty] (E1 & E2 & Hu1). cbn [fst] in *.
  destruct (bool_decide _); [|by apply silent_ret]. cbn [negb].
  eapply silent_bind; [by apply reading_silent|]. intros [ctx2 [start|]] (E3 & E4 & Hu2); cbn [fst] in *.
  - eapply silent_bind; [by apply reading_silent|]. intros [ctx3 num] (E5 & E6 & _). apply silent_ret. cbn [fst] in *.
    split; congruence.
  - apply silent_ret. split; cbn [fst]; congruence.
Qed.

(** *** Methods *)

Lemma find_existsb {A} (g : A → bool) l : existsb g l = match List.find g l with Some _ => true | None => false end.
Proof. induction l as [|x l IH]; [done|]. simpl. by destruct (g x). Qed.

(** The methods of a node. *)
Definition method_at (path : cstr) (m : rpcdir) : Prop :=
  (∃ r, r ∈ default [] (hrecords f) ∧ path = RECORDS_PREFIX ++ hname r ∧ m ∈ [rpchistory_fetch; rpchistory_span]) ∨
  (has_getlog h = true ∧ is_node signals path ∧ m ∈ [rpchistory_getlog; rpchistory_getsnapshot]).

(** A method is called with its name and, unless anybody may, with its access level. *)
Definition calls (name : cstr) (level : Z) (m : rpcdir) : Prop :=
  RpcDir.name m = Some name ∧ (RpcDir.access m = RPCACCESS_BROWSE ∨ RpcDir.access m ≤ level).

Definition offers (path name : cstr) (level : Z) : Prop := ∃ m, method_at path m ∧ calls name level m.

Lemma fetch_taken record ctx :
  request ctx → record ∈ default [] (hrecords f) →
  taken pack fresh sendmsg ignoremsg ctx ('(ctx, param) ← fetch_param unpack ctx;
    let '(ctx, valid) := rpchandler_msg_valid ctx in
    (if valid : bool then
       match param with
       | None => rpchandler_msg_send_error pack fresh sendmsg ctx RPCERR_INVALID_PARAM (Some (str "[Int, Int] expected."));; mret tt
       | Some (start, num) => rpcfetch_result pack fresh sendmsg record ctx start num
       end
     else mret tt);;
    mret (ctx, RPCHANDLER_MSG_DONE)).
Proof.
  intros Hr Hin. apply (validate_taken pack fresh sendmsg ignoremsg ctx (fetch_param unpack ctx) (λ ctx param,
    match param with
    | None => rpchandler_msg_send_error pack fresh sendmsg ctx RPCERR_INVALID_PARAM (Some (str "[Int, Int] expected."));; mret tt
    | Some (start, num) => rpcfetch_result pack fresh sendmsg record ctx start num
    end)); [done|by apply fetch_param_silent, Hr|].
  intros ctx1 [[start num]|] Ha Em; [|by apply error_done].
  pose proof (wf_fetch _ _ _ wf record (i32 start) (i32 num) Hin). apply respond_done; [apply _|done..].
Qed.

(** Whether the methods of a log, or [getLog] and [getSnapshot], are called. *)
Definition records_called (name : cstr) (level : Z) : bool :=
  ((strcmp name (str "fetch") =? 0) || (strcmp name (str "span") =? 0)) && (RPCACCESS_SERVICE <=? level).
Definition getlog_called (name : cstr) : bool := (strcmp name (str "getLog") =? 0) || (strcmp name (str "getSnapshot") =? 0).

Definition offered (p name : cstr) (level : Z) : bool :=
  if has_records h && prefixed RECORDS_PREFIX p then
    existsb (λ r, strcmp (drop (length RECORDS_PREFIX) p) (hname r) =? 0) (default [] (hrecords f)) && records_called name level
  else if has_files h && prefixed FILES_PREFIX p then false
  else has_getlog h && existsb (below p) signals && getlog_called name.

Lemma decides_bool (b : bool) ctx c :
  (b = true → taken pack fresh sendmsg ignoremsg ctx c) → (b = false → c = skipped ctx) →
  decides pack fresh sendmsg ignoremsg (b = true) ctx c.
Proof. intros Ht Hf. destruct b; [left; by auto|]. right. rewrite Hf by done. by split. Qed.

Lemma records_decide record ctx name :
  request ctx → record ∈ default [] (hrecords f) → method (hmeta ctx) = Some name →
  decides pack fresh sendmsg ignoremsg (records_called name (maccess (hmeta ctx)) = true) ctx
    (handle_records_history unpack pack fresh sendmsg record ctx).
Proof.
  intros Hr Hin Hn. unfold handle_records_history, records_called. rewrite Hn. apply decides_need.
  destruct (strcmp name (str "fetch") =? 0), (strcmp name (str "span") =? 0), (RPCACCESS_SERVICE <=? maccess (hmeta ctx));
    cbn [andb orb]; apply decides_bool; try done; intros _; try (by apply fetch_taken).
  apply null_method_taken; [done|]. intros ctx1 Ha Em.
  destruct (get_index_range record); [apply respond_done; [unfold pack_span; apply _|done..]|by apply error_done].
Qed.

Lemma history_msg_decides ctx p name :
  request ctx → path (hmeta ctx) = Some p → method (hmeta ctx) = Some name →
  decides pack fresh sendmsg ignoremsg (offered p name (maccess (hmeta ctx)) = true) ctx
    (history_msg unpack ck limit now pack fresh sendmsg h ctx).
Proof.
  intros Hr Hp Hn. unfold history_msg, is_type, offered. rewrite bool_decide_eq_true_2 by apply Hr. cbn [negb].
  rewrite Hp, Hn. do 2 apply decides_need. change (facilities h) with f. change (hsignals h) with signals.
  destruct (has_records h && _).
  { rewrite find_existsb. destruct (List.find _ _) as [r|] eqn:E; cbn [andb]; [|by apply decides_bool].
    apply find_some in E as [Hin%list_elem_of_In _]. by apply records_decide. }
  destruct (has_files h && _); [destruct (List.find _ _); by apply decides_bool|].
  assert (has_getlog h = true → is_Some (pack_getlog f) ∧ is_Some (pack_getsnapshot f)) as Hcb.
  { simpl. intros [?%bool_decide_eq_true ?%bool_decide_eq_true]%andb_true_iff. done. }
  unfold getlog_called. destruct (strcmp name (str "getLog") =? 0), (strcmp name (str "getSnapshot") =? 0), (has_getlog h);
    cbn [andb orb]; destruct (existsb (below p) signals); cbn [andb]; apply decides_bool; try done; intros _;
    (apply log_method_taken; [done|by apply Hcb|]; intros c r Hc; by eapply wf_getlog || by eapply wf_getsnapshot).
Qed.

(** No node of a signal is at or below those of the logs and files. *)
Lemma reserved_not_node n p :
  n ∈ [str ".records"; str ".files"] → p = n ∨ (∃ t, p = n ++ SLASH :: t) → ¬ is_node signals p.
Proof.
  intros Hn Hp (x & Hin & Hx). pose proof (wf_reserved _ _ _ wf) as Hres. eapply Forall_forall in Hres; [|exact Hin].
  destruct Hres. assert (segment x = n) as ->; [|done]. assert (n ≠ [] ∧ SLASH ∉ n) as [Hne Hslash].
  { rewrite !elem_of_cons, elem_of_nil in Hn. destruct Hn as [->|[->|[]]]; split; try done; by_evaluation. }
  apply segment_node; [done..|]. right. destruct Hp as [->|[t ->]].
  - destruct Hx as [?|?]; [done|done].
  - right. destruct Hx as [?|[<-|[u ->]]]; [by destruct n|by eexists|]. exists (t ++ SLASH :: u). by rewrite <-app_assoc.
Qed.

Lemma records_path p r :
  wf_cstr p → r ∈ default [] (hrecords f) → prefixed RECORDS_PREFIX p = true →
  (strcmp (drop (length RECORDS_PREFIX) p) (hname r) =? 0) = true ↔ p = RECORDS_PREFIX ++ hname r.
Proof.
  intros Hp Hin. rewrite prefixed_spec, bool_decide_eq_true by by_evaluation. intros [t ->].
  apply Forall_app in Hp as [_ Ht]. rewrite drop_app_length, Z.eqb_eq. pose proof (wf_records _ _ _ wf) as Hr.
  rewrite Forall_fmap in Hr. eapply Forall_forall in Hr as [Hw _]; [|exact Hin]. rewrite strcmp_eq by done.
  split; [by intros ->|]. intros E. by apply (inj (app RECORDS_PREFIX)) in E.
Qed.

(** The methods of a path that is not below [.records]. *)
Lemma offers_signal p name level :
  has_records h && prefixed RECORDS_PREFIX p = false →
  offers p name level ↔ ∃ m, (has_getlog h = true ∧ is_node signals p) ∧
    m ∈ [rpchistory_getlog; rpchistory_getsnapshot] ∧ calls name level m.
Proof.
  intros Hb. split; intros (m & Hm & Hc); exists m.
  - destruct Hm as [(r & Hin & -> & _)|(? & ? & ?)]; [|done]. exfalso. apply andb_false_iff in Hb as [Hb|Hb].
    + simpl in Hb. destruct (hrecords f); [done|]. by apply elem_of_nil in Hin.
    + by rewrite prefixed_spec, bool_decide_eq_true_2 in Hb by (by_evaluation || by apply prefix_app_r).
  - split; [|by apply Hc]. right. naive_solver.
Qed.

Lemma strcmp_name name x : wf_cstr name → wf_cstr x → (strcmp name x =? 0) = true ↔ name = x.
Proof. intros Hn Hx. rewrite Z.eqb_eq. by apply strcmp_eq. Qed.

Lemma records_called_spec name level :
  wf_cstr name → records_called name level = true ↔ ∃ m, m ∈ [rpchistory_fetch; rpchistory_span] ∧ calls name level m.
Proof.
  intros Hw. unfold records_called, calls. rewrite andb_true_iff, orb_true_iff, Z.leb_le, !strcmp_name by (done || by_evaluation).
  split.
  - intros [[->| ->] Hl]; [exists rpchistory_fetch|exists rpchistory_span]; (split; [by repeat constructor|]); (split; [done|by right]).
  - intros (m & Hm & [= Hn] & Hl). rewrite !elem_of_cons, elem_of_nil in Hm.
    destruct Hm as [->|[->|[]]]; injection Hn as <-; (split; [auto|]); by destruct Hl.
Qed.

Lemma getlog_called_spec name level :
  wf_cstr name → getlog_called name = true ↔ ∃ m, m ∈ [rpchistory_getlog; rpchistory_getsnapshot] ∧ calls name level m.
Proof.
  intros Hw. unfold getlog_called, calls. rewrite orb_true_iff, !strcmp_name by (done || by_evaluation). split.
  - intros [->| ->]; [exists rpchistory_getlog|exists rpchistory_getsnapshot]; (split; [by repeat constructor|]); (split; [done|by left]).
  - intros (m & Hm & Hn & _). rewrite !elem_of_cons, elem_of_nil in Hm.
    destruct Hm as [->|[->|[]]]; injection Hn as <-; auto.
Qed.

Lemma offered_spec p name level : wf_cstr p → wf_cstr name → offered p name level = true ↔ offers p name level.
Proof.
  intros Hp Hn. unfold offered. destruct (has_records h && prefixed RECORDS_PREFIX p) eqn:Hb.
  - apply andb_true_iff in Hb as [_ Hb]. rewrite andb_true_iff, existsb_exists, records_called_spec by done. split.
    + intros [(r & Hin%list_elem_of_In & Hr) (m & Hm & Hc)]. apply records_path in Hr; [|done..].
      exists m. split; [|done]. left. by exists r.
    + intros (m & [(r & Hin & -> & Hm)|(_ & Hx & _)] & Hc).
      * split; [|by exists m]. exists r. split; [by apply list_elem_of_In|]. by apply records_path.
      * exfalso. rewrite prefixed_spec, bool_decide_eq_true in Hb by by_evaluation. destruct Hb as [t ->].
        revert Hx. apply (reserved_not_node (str ".records")); [by_evaluation|right]. by exists t.
  - rewrite offers_signal by done. destruct (has_files h && prefixed FILES_PREFIX p) eqn:Hf.
    + split; [done|]. intros (m & [_ Hx] & _). exfalso. apply andb_true_iff in Hf as [_ Hf].
      rewrite prefixed_spec, bool_decide_eq_true in Hf by by_evaluation. destruct Hf as [t ->].
      revert Hx. apply (reserved_not_node (str ".files")); [by_evaluation|right]. by exists t.
    + rewrite !andb_true_iff, existsb_node, (getlog_called_spec name level) by (done || apply wf). naive_solver.
Qed.

Lemma history_keeps :
  stage_ok pack fresh sendmsg ignoremsg (rpchandler_history_stage unpack ck limit now pack fresh sendmsg h).
Proof.
  split; intros g [= <-]; [|apply history_ls_lists|apply history_dir_describes].
  apply handled_takes. intros ctx Hr. pose proof Hr as (_ & [name Hn] & [p Hp] & _).
  eapply decides_handled. by eapply history_msg_decides.
Qed.
End proofs.

(** ** The tree *)

(** The nodes of the stage: those of the logs and files, and those of the signals. *)
Definition tree_node {P} (f : rpchandler_history_facilities P) (signals : list cstr) (path : cstr) : Prop :=
  (is_Some (hrecords f) ∧ (path = str ".records" ∨ ∃ r, r ∈ default [] (hrecords f) ∧ path = RECORDS_PREFIX ++ hname r)) ∨
  (is_Some (hfiles f) ∧ (path = str ".files" ∨ ∃ n, n ∈ default [] (hfiles f) ∧ path = FILES_PREFIX ++ n)) ∨
  (is_Some (pack_getlog f) ∧ is_Some (pack_getsnapshot f) ∧ is_node signals path).

Section tree.
Context {P : Type} (pack : P → cpitem → P * bool) (f : rpchandler_history_facilities P) (signals : list cstr).
Context (wf : history_wf pack f signals).
Notation h := (rpchandler_history_new f signals).

Lemma getlog_spec : has_getlog h = true ↔ is_Some (pack_getlog f) ∧ is_Some (pack_getsnapshot f).
Proof. simpl. by rewrite andb_true_iff, !bool_decide_eq_true. Qed.

Lemma elem_of_if {A} (b : bool) (l : list A) x : x ∈ (if b then l else []) ↔ b = true ∧ x ∈ l.
Proof. destruct b; [tauto|]. rewrite elem_of_nil. naive_solver. Qed.

Lemma slash_in (p t : cstr) : SLASH ∈ p ++ SLASH :: t.
Proof. apply elem_of_app. right. apply list_elem_of_here. Qed.

Lemma root_names n : n ∈ history_names h [] ↔ name_ok n ∧ tree_node f signals n.
Proof using wf.
  unfold history_names, tree_node. change (cget [] 0 =? 0) with true. cbv iota. rewrite !elem_of_app, !elem_of_if, getlog_spec.
  cbn [has_records has_files rpchandler_history_new hsignals]. rewrite !bool_decide_eq_true, !list_elem_of_singleton, list_elem_of_fmap.
  split.
  - intros [[Hr ->]|[[Hf ->]|[Hg (x & -> & Hin)]]].
    + split; [by_evaluation|]. left. by split; [|left].
    + split; [by_evaluation|]. right. left. by split; [|left].
    + pose proof (signal_segments pack f signals wf) as Hseg. rewrite Forall_fmap in Hseg.
      eapply Forall_forall in Hseg as [Hw Hne]; [|exact Hin]. destruct (segment_spec x) as (_ & _ & Hs & _).
      split; [done|]. right. right. split_and!; [apply Hg..|]. exists x. split; [done|]. by apply segment_node.
  - intros [(Hw & Hne & Hs) [[Hr [->|(r & _ & ->)]]|[[Hf [->|(x & _ & ->)]]|(H1 & H2 & x & Hin & Hx)]]].
    + by left.
    + destruct Hs. apply (slash_in (str ".records")).
    + right. by left.
    + destruct Hs. apply (slash_in (str ".files")).
    + do 2 right. split; [done|]. exists x. split; [|done]. symmetry. by apply segment_node.
Qed.

Lemma slash_join path n p k : path ≠ [] → name_ok n → name_ok k → join path n = p ++ SLASH :: k → path = p ∧ n = k.
Proof. intros Hp (_ & _ & Hn) (_ & _ & Hk) E. destruct path as [|x path]; [done|]. by apply last_name. Qed.

Lemma inner_names path n :
  wf_cstr path → path ≠ [] → path ∉ [str ".records"; str ".files"] →
  n ∈ (if has_getlog h then omap (child path) signals else []) ↔ name_ok n ∧ tree_node f signals (join path n).
Proof using wf.
  intros Hp Hne Hno. rewrite elem_of_if, getlog_spec, list_elem_of_omap. pose proof (wf_signals _ _ _ wf) as Hsig. split.
  - intros [Hg (x & Hin & Hc)]. pose proof (children_ok pack f signals wf path) as Hch.
    eapply Forall_forall in Hch as [Hw Hn]; [|apply list_elem_of_omap; by exists x].
    eapply Forall_forall in Hsig as [Hx _]; [|exact Hin].
    assert (SLASH ∉ n) as Hs by (apply child_some in Hc as (q & t & _ & ->); by destruct (segment_spec t) as (_ & _ & ? & _)).
    split; [done|]. right. right. split_and!; [apply Hg..|]. exists x. split; [done|]. by apply child_node.
  - intros [Hn [[_ [E|(r & Hin & E)]]|[[_ [E|(k & Hin & E)]]|(H1 & H2 & x & Hin & Hx)]]].
    + destruct path as [|y path]; [done|]. assert (SLASH ∉ str ".records") as Hs by by_evaluation.
      destruct Hs. rewrite <-E. apply slash_in.
    + pose proof (wf_records _ _ _ wf) as Hr. rewrite Forall_fmap in Hr. eapply Forall_forall in Hr; [|exact Hin].
      destruct (slash_join path n (str ".records") (hname r)) as [-> _]; [done..|]. destruct Hno. apply list_elem_of_here.
    + destruct path as [|y path]; [done|]. assert (SLASH ∉ str ".files") as Hs by by_evaluation.
      destruct Hs. rewrite <-E. apply slash_in.
    + pose proof (wf_files _ _ _ wf) as Hr. eapply Forall_forall in Hr; [|exact Hin].
      destruct (slash_join path n (str ".files") k) as [-> _]; [done..|]. destruct Hno. apply list_elem_of_further, list_elem_of_here.
    + split; [done|]. exists x. split; [done|]. eapply Forall_forall in Hsig as [Hw _]; [|exact Hin].
      by apply child_node; [..|apply Hn|apply Hn| |].
Qed.

(** The nodes below those of the logs and files. *)
Lemma reserved_names base names n :
  base ∈ [str ".records"; str ".files"] → Forall name_ok names →
  (∀ k, k ∈ names → tree_node f signals (base ++ SLASH :: k)) →
  (tree_node f signals (base ++ SLASH :: n) → n ∈ names ∨ base ++ SLASH :: n ∈ [str ".records"; str ".files"] ∨
     is_node signals (base ++ SLASH :: n)) →
  n ∈ names ↔ name_ok n ∧ tree_node f signals (base ++ SLASH :: n).
Proof using wf.
  intros Hbase Hok Hto Hfrom. split.
  - intros Hin. split; [by eapply Forall_forall in Hok|by apply Hto].
  - intros [_ [?|[Hin|Hn]]%Hfrom]; [done|exfalso..].
    + assert (∀ x, x ∈ [str ".records"; str ".files"] → SLASH ∉ x) as Hno.
      { intros x Hx. rewrite !elem_of_cons, elem_of_nil in Hx. destruct Hx as [->|[->|[]]]; by_evaluation. }
      apply (Hno _ Hin), slash_in.
    + revert Hn. apply (reserved_not_node pack f signals wf base); [done|]. right. by eexists.
Qed.

Lemma records_names n :
  n ∈ hname <$> default [] (hrecords f) ↔ name_ok n ∧ tree_node f signals (str ".records" ++ SLASH :: n).
Proof using wf.
  apply reserved_names; [by_evaluation|apply wf|..].
  - intros k (r & -> & Hin)%list_elem_of_fmap. left. split; [|right; by exists r]. destruct (hrecords f); [done|by apply elem_of_nil in Hin].
  - intros [[_ [E|(r & Hin & E)]]|[[_ [E|(k & Hin & E)]]|(_ & _ & Hn)]].
    + right. left. rewrite E. apply list_elem_of_here.
    + left. apply list_elem_of_fmap. exists r. split; [|done]. by apply (inj (app RECORDS_PREFIX)) in E.
    + right. left. rewrite E. apply list_elem_of_further, list_elem_of_here.
    + discriminate E.
    + by right; right.
Qed.

Lemma files_names n : n ∈ default [] (hfiles f) ↔ name_ok n ∧ tree_node f signals (str ".files" ++ SLASH :: n).
Proof using wf.
  apply reserved_names; [by_evaluation|apply wf|..].
  - intros k Hin. right. left. split; [|right; by exists k]. destruct (hfiles f); [done|by apply elem_of_nil in Hin].
  - intros [[_ [E|(r & Hin & E)]]|[[_ [E|(k & Hin & E)]]|(_ & _ & Hn)]].
    + right. left. rewrite E. apply list_elem_of_here.
    + discriminate E.
    + right. left. rewrite E. apply list_elem_of_further, list_elem_of_here.
    + left. apply (inj (app FILES_PREFIX)) in E. by subst.
    + by right; right.
Qed.

Lemma names_spec path n : wf_cstr path → n ∈ history_names h path ↔ name_ok n ∧ tree_node f signals (join path n).
Proof using wf.
  intros Hp. destruct (decide (path = [])) as [->|Hne]; [apply root_names|].
  destruct (decide (path = str ".records")) as [->|Hr]; [apply records_names|].
  destruct (decide (path = str ".files")) as [->|Hf]; [apply files_names|].
  rewrite <-inner_names; [|done..|rewrite !not_elem_of_cons; split_and!; [done..|apply not_elem_of_nil]]. unfold history_names.
  assert ((cget path 0 =? 0) = false) as -> by (apply not_true_is_false; intros H%(proj1 (proj1 (cget_0 _ Hp))); done).
  assert (∀ x, wf_cstr x → path ≠ x → (strcmp path x =? 0) = false) as Hneq
    by (intros x Hx Hnx; apply Z.eqb_neq; intros E%strcmp_eq; done).
  rewrite !Hneq by (by_evaluation || done). done.
Qed.

Lemma record_at r p :
  r ∈ default [] (hrecords f) → wf_cstr p → prefixed RECORDS_PREFIX p = true →
  (strcmp (hname r) (drop (length RECORDS_PREFIX) p) =? 0) = true ↔ p = RECORDS_PREFIX ++ hname r.
Proof using wf.
  intros Hin Hp Hb. rewrite <-(records_path pack f signals wf p r Hp Hin Hb), !Z.eqb_eq.
  pose proof (wf_records _ _ _ wf) as Hr. rewrite Forall_fmap in Hr. eapply Forall_forall in Hr as [Hw _]; [|exact Hin].
  rewrite !strcmp_eq by (done || by apply Forall_drop). naive_solver.
Qed.

(** The methods of a node, one after the other. *)
Lemma history_dir_as {S} (d : dir_ctx P) (s : S) :
  wf_cstr (dpath d) →
  ∃ d' dirs, history_dir (S := S) pack h d s = inl (s, d') ∧ described_as pack dirs d d' ∧
    ∀ m, m ∈ dirs ↔ method_at f signals (dpath d) m.
Proof using wf.
  intros Hp. unfold history_dir.
  assert (∀ dirs, dirs = [rpchistory_fetch; rpchistory_span] ∨ dirs = [rpchistory_getlog; rpchistory_getsnapshot] →
    Forall (λ m, ∃ n, RpcDir.name m = Some n ∧ wf_cstr n) dirs) as Hnames.
  { intros dirs [->| ->]; repeat constructor; eexists; (split; [done|by_evaluation]). }
  destruct (prefixed RECORDS_PREFIX (dpath d)) eqn:Hb.
  - set (g := λ r : rpchandler_history_records P, if strcmp (hname r) (drop (length RECORDS_PREFIX) (dpath d)) =? 0 then [rpchistory_fetch; rpchistory_span] else []).
    destruct (fold_described (S := S) pack (λ r d, if strcmp (hname r) (drop (length RECORDS_PREFIX) (dpath d)) =? 0
      then dir_results pack [rpchistory_fetch; rpchistory_span] d else mret d) g (default [] (hrecords f)) d s) as (d' & E & Hd).
    { intros r d1 Hin ->. unfold g. destruct (_ =? 0); [apply dir_results_describe_as, Hnames; by left|].
      exists d1. split; [done|apply described_nil]. }
    exists d', (default [] (hrecords f) ≫= g). split_and!; [done..|]. intros m. rewrite list_elem_of_bind. unfold g. split.
    + intros (r & [Hr Hm]%elem_of_if & Hin). left. exists r. split_and!; [done| |done]. by apply (record_at r (dpath d)).
    + intros [(r & Hin & Hr & Hm)|(_ & Hx & _)].
      * exists r. split; [|done]. apply elem_of_if. split; [by apply (record_at r (dpath d))|done].
      * rewrite prefixed_spec, bool_decide_eq_true in Hb by by_evaluation. destruct Hb as [t Ht]. rewrite Ht in Hx.
        exfalso. revert Hx. apply (reserved_not_node pack f signals wf (str ".records")); [by_evaluation|right]. by exists t.
  - assert (∀ dirs d', described_as pack dirs d d' → (∀ m, m ∈ dirs ↔ (has_getlog h = true ∧ is_node signals (dpath d)) ∧
      m ∈ [rpchistory_getlog; rpchistory_getsnapshot]) → ∃ d1 dirs, inl (s, d') = inl (B := fault) (s, d1) ∧
      described_as pack dirs d d1 ∧ ∀ m, m ∈ dirs ↔ method_at f signals (dpath d) m) as Hdone.
    { intros dirs d' Hd Hm. exists d', dirs. split_and!; [done..|]. intros m. rewrite Hm. unfold method_at. split; [naive_solver|].
      intros [(r & _ & E & _)|?]; [|naive_solver]. rewrite prefixed_spec, E, bool_decide_eq_true_2 in Hb; [done|by apply prefix_app_r|by_evaluation]. }
    assert (¬ (has_getlog h = true ∧ is_node signals (dpath d)) → ∃ d1 dirs, inl (s, d) = inl (B := fault) (s, d1) ∧
      described_as pack dirs d d1 ∧ ∀ m, m ∈ dirs ↔ method_at f signals (dpath d) m) as Hnone.
    { intros Hno. apply (Hdone []); [apply described_nil|]. intros m. rewrite elem_of_nil. tauto. }
    destruct (prefixed FILES_PREFIX (dpath d)) eqn:Hf.
    { apply Hnone. intros [_ Hx]. revert Hx. rewrite prefixed_spec, bool_decide_eq_true in Hf by by_evaluation. destruct Hf as [t ->].
      apply (reserved_not_node pack f signals wf (str ".files")); [by_evaluation|right]. by exists t. }
    pose proof (existsb_node signals (dpath d) Hp (wf_signals _ _ _ wf)) as Hnode. change (hsignals h) with signals.
    destruct (has_getlog h); [|by apply Hnone; intros []].
    destruct (existsb _ _); [|apply Hnone; intros [_ Hx]; by apply Hnode in Hx].
    destruct (dir_results_describe_as (S := S) pack [rpchistory_getlog; rpchistory_getsnapshot] d s) as (d' & E & Hd);
      [by apply Hnames; right|]. rewrite E. apply (Hdone _ _ Hd). intros m. rewrite <-Hnode. tauto.
Qed.
End tree.

(** C35: the history stage keeps its part of the contract of stages, and its nodes are a
    tree: at every path the names that are listed are exactly those of the nodes below it,
    the methods that are described are exactly those of the node, and a request is taken
    exactly where the node has the method and the access level is enough for it; all
    others are skipped and left as they are. *)
Theorem history_stage_tree {S P U} (unpack : U → cpitem → U * cpitem) ck limit now (pack : P → cpitem → P * bool) fresh
    (sendmsg : P → M S bool) ignoremsg `{!ClientSpec sendmsg ignoremsg} f signals :
  history_wf pack f signals →
  let h := rpchandler_history_new f signals in
  stage_ok pack fresh sendmsg ignoremsg (rpchandler_history_stage unpack ck limit now pack fresh sendmsg h) ∧
  (∀ m (l : ls_ctx P U) s, ls_ok pack fresh m l → wf_cstr (lpath l) → cnt_of (lstrset l) + 2 ^ 31 ≤ 2 ^ 62 →
     ∃ s' l' names, history_ls (S := S) pack fresh h l s = inl (s', l') ∧ named names l l' ∧
       ∀ n, n ∈ names ↔ name_ok n ∧ tree_node f signals (join (lpath l) n)) ∧
  (∀ (d : dir_ctx P) s, wf_cstr (dpath d) →
     ∃ d' dirs, history_dir (S := S) pack h d s = inl (s, d') ∧ described_as pack dirs d d' ∧
       ∀ m, m ∈ dirs ↔ method_at f signals (dpath d) m) ∧
  (∀ (ctx : rpchandler_msg U) p name, request ctx → path (hmeta ctx) = Some p → method (hmeta ctx) = Some name →
     wf_cstr p → wf_cstr name →
     decides pack fresh sendmsg ignoremsg (offers f signals p name (maccess (hmeta ctx))) ctx
       (history_msg unpack ck limit now pack fresh sendmsg h ctx)).
Proof.
  intros Hwf h. split; [by apply history_keeps|]. split; [|split].
  - intros m l s Hl Hp Hc. destruct (history_ls_names pack fresh sendmsg ignoremsg f signals Hwf m l Hl Hc) as [_ Hs].
    destruct (Hs s) as (s' & l' & E & _ & _ & _ & _ & Hn). exists s', l', (history_names h (lpath l)).
    split_and!; [done..|]. intros n. by apply (names_spec pack).
  - intros d s Hp. by apply (history_dir_as pack).
  - intros ctx p name Hr Hp Hn Hwp Hwn. unfold decides.
    pose proof (offered_spec pack f signals Hwf p name (maccess (hmeta ctx)) Hwp Hwn) as Ho. rewrite <-Ho.
    by apply history_msg_decides.
Qed.

(** The logs of two devices beside one of records. *)
Definition sample_facilities : rpchandler_history_facilities ofile :=
  HistoryFacilities (Some [HistoryRecords (str "journal") (λ _ _ p, (p, true)) None]) None (Some (λ _ _ p, (p, true))) (Some (λ _ _ p, (p, true))).
Definition sample_signals : list cstr := [str "power/main/voltage"; str "power/backup"].

Lemma sample_signals_ok : Forall signal_ok sample_signals.
Proof.
  assert (∀ s, wf_cstr s → s ≠ [] →
    forallb (λ i, negb (cget s (Z.of_nat i) =? SLASH) || (negb (i =? 0)%nat && negb (bool_decide (segment (drop (i + 1) s) = []))))
      (seq 0 (length s)) = true → signal_ok s) as H.
  { intros s Hw Hne Hf. split; [done|]. split; [|done]. intros p t ->. rewrite forallb_forall in Hf.
    specialize (Hf (length p) ltac:(apply in_seq; rewrite length_app; simpl; lia)).
    unfold cget in Hf. rewrite Nat2Z.id, lookup_app_r, Nat.sub_diag in Hf by lia. simpl in Hf.
    apply andb_true_iff in Hf as [Hp Ht]. split; [by intros ->|].
    rewrite <-drop_drop, drop_app_length in Ht. by apply negb_true_iff, bool_decide_eq_false in Ht. }
  apply Forall_cons. split; [apply H; [by_evaluation|done|by vm_compute]|].
  apply Forall_singleton, H; [by_evaluation|done|by vm_compute].
Qed.

Lemma sample_history_wf : history_wf cp_pack_chainpack_func sample_facilities sample_signals.
Proof.
  constructor; [apply sample_signals_ok|by_evaluation..|by vm_compute| | |].
  - intros r start num ->%list_elem_of_singleton. apply packs_nop.
  - intros cb r path [= <-]. apply packs_nop.
  - intros cb r path [= <-]. apply packs_nop.
Qed.

Lemma history_stage_tree_witness :
  let h := rpchandler_history_new sample_facilities sample_signals in
  let ctx := received_request (str "power/main") (str "getLog") RPCACCESS_READ (RFile [] false) no_value true in
  taken cp_pack_chainpack_func out log_send (mret tt) ctx
    (history_msg cp_unpack_chainpack_func (Chunks (λ _, 4064) (λ _, 4064)) 100 0 cp_pack_chainpack_func out log_send h ctx).
Proof.
  intros h ctx. destruct (history_stage_tree cp_unpack_chainpack_func (Chunks (λ _, 4064) (λ _, 4064)) 100 0
    cp_pack_chainpack_func out log_send (mret tt) sample_facilities sample_signals sample_history_wf) as (_ & _ & _ & H).
  destruct (H ctx (str "power/main") (str "getLog")) as [[_ Ht]|[Hno _]]; [split_and!; [done|by eexists..]|done|done|by_evaluation..|exact Ht|].
  destruct Hno. exists rpchistory_getlog. split; [|by split; [|left]]. right. split; [done|]. split; [|apply list_elem_of_here].
  exists (str "power/main/voltage"). split; [by left|]. right. right. by exists (str "voltage").
Defined.
