(* ===== verification/HandlerFile.v ===== *)
(** * The stage of file nodes ([libshvrpc/rpchandler/file.c],
      [include/shv/rpchandler_file.h])

    Files of the application are nodes that are read, written and validated.  The files
    are those of a small model of the system calls the stage uses: what each call does is
    taken from a list of outcomes, so reads and writes may be short or fail at any time.
    The lookup of methods is generated by gperf from the table in [file_method.gperf]. *)

From stdpp Require Import gmap.
From S2P Require Import Prelude Effects Stdio Chainpack CpItem ChainpackPack CpUnpack CpPack CpObstack CpLoops CpDatetime Crc32.
From S2P Require Import Rpcri Rpcaccess Strset RpcError RpcFile RpcDir RpcMsg RpcHead Handler HandlerSpec HandlerApp HandlerStage.

(** ** Definitions *)

Definition RPCFILE_ACCESS_VALIDATION : Z := 1.
Definition RPCFILE_ACCESS_READ : Z := 2.
Definition RPCFILE_ACCESS_WRITE : Z := 4.
Definition RPCFILE_ACCESS_TRUNCATE : Z := 8.
Definition RPCFILE_ACCESS_APPEND : Z := 16.

Inductive file_methods := M_STAT | M_SIZE | M_WRITE | M_TRUNCATE | M_READ | M_APPEND | M_CRC | M_SHA1.

#[export] Instance file_methods_eq_dec : EqDecision file_methods.
Proof. solve_decision. Defined.

Definition file_method_table : list (cstr * file_methods) := [
  (str "stat", M_STAT);
  (str "size", M_SIZE);
  (str "write", M_WRITE);
  (str "truncate", M_TRUNCATE);
  (str "read", M_READ);
  (str "append", M_APPEND);
  (str "crc", M_CRC);
  (str "sha1", M_SHA1)].

Record rpchandler_file_list : Type := FileList { shv_path : cstr; file_path : cstr; faccess : Z }.

Record rpchandler_file_repr : Type := FileRepr { fstat : rpcfile_stat_s; flist : rpchandler_file_list }.

(** [None] is a callback that is not there; listing may give [NULL], and updating the
    path of a file may fail. *)
Record rpchandler_file_cb : Type := FileCb {
  cb_ls : option (option (list rpchandler_file_list));
  update_paths : option (cstr → cstr → option cstr) }.

(** *** Files of the system *)

(** What a call of the system does: all it is asked for, a part of it, or it fails. *)
Inductive outcome := Fine | Short (n : nat) | Failed (e : cstr).

Record fnode : Type := Node { fdata : list Z; fblksize : Z; fatime : Z; fmtime : Z }.

Record stat_t : Type := St { st_size : Z; st_blksize : Z; st_atime : Z; st_mtime : Z }.

(** The handler with its files, the files of the system, and the outcomes of the next
    calls; those after them are fine. *)
Record fstate : Type := FState {
  files : list rpchandler_file_repr; nodes : gmap cstr fnode; outcomes : list outcome }.

(** An open file: its name and the position in it. *)
Record fd_t : Type := Fd { fd_path : cstr; fd_pos : Z }.

(** The state of the handler has them as a part. *)
Class FileState (S : Type) := {
  file_state : S → fstate;
  set_file_state : fstate → S → S;
  file_state_set f s : file_state (set_file_state f s) = f }.

(** What is from the position on. *)
Definition from (pos : Z) (l : list Z) : list Z :=
  if pos <? Z.of_nat (length l) then drop (Z.to_nat pos) l else [].

(** Bytes written at a position; a gap is filled with zeros. *)
Definition overwrite (pos : Z) (new l : list Z) : list Z :=
  match new with
  | [] => l
  | _ =>
      let n := Z.to_nat pos in
      take n l ++ replicate (n - length l) 0 ++ new ++ drop (n + length new) l
  end.

Definition resize (n : Z) (l : list Z) : list Z :=
  take (Z.to_nat n) l ++ replicate (Z.to_nat n - length l) 0.

(** A part of at least one byte. *)
Definition limited (o : outcome) (n : Z) : nat :=
  match o with Short k => min (Z.to_nat n) (max 1 k) | _ => Z.to_nat n end.

(** [lseek(fd, offset, SEEK_SET)] *)
Definition sys_lseek (fd : fd_t) (offset : Z) : fd_t := if offset <? 0 then fd else Fd (fd_path fd) offset.

Section system.
Context {S : Type} `{FileState S} (now : Z).
Notation M := (M S).

Definition with_files (f : list rpchandler_file_repr) (v : fstate) : fstate := FState f (nodes v) (outcomes v).
Definition with_node (p : cstr) (n : fnode) (v : fstate) : fstate := FState (files v) (<[p := n]> (nodes v)) (outcomes v).
Definition with_outcomes (l : list outcome) (v : fstate) : fstate := FState (files v) (nodes v) l.

Definition update (f : fstate → fstate) : M unit := modify (λ s, set_file_state (f (file_state s)) s).

Definition next_outcome : M outcome :=
  v ← gets file_state;
  match outcomes v with
  | [] => mret Fine
  | o :: l => update (with_outcomes l);; mret o
  end.

Definition node_at (p : cstr) : M (option fnode) := gets (λ s, nodes (file_state s) !! p).

(** The descriptor or the text of the error. *)
Definition sys_open (p : cstr) : M (fd_t + cstr) :=
  o ← next_outcome;
  n ← node_at p;
  match o, n with
  | Failed e, _ => mret (inr e)
  | _, None => mret (inr (str "No such file or directory"))
  | _, Some _ => mret (inl (Fd p 0))
  end.

Definition sys_read (fd : fd_t) (n : Z) : M (fd_t * list Z + cstr) :=
  o ← next_outcome;
  node ← node_at (fd_path fd);
  match o with
  | Failed e => mret (inr e)
  | _ =>
      let l := take (limited o n) (from (fd_pos fd) (default [] (fdata <$> node))) in
      mret (inl (Fd (fd_path fd) (fd_pos fd + Z.of_nat (length l)), l))
  end.

(** The number of bytes that were written. *)
Definition sys_write (fd : fd_t) (l : list Z) : M (Z + cstr) :=
  o ← next_outcome;
  node ← node_at (fd_path fd);
  match o, node with
  | Failed e, _ => mret (inr e)
  | _, None => mret (inr (str "Bad file descriptor"))
  | _, Some (Node d b at_ _) =>
      let l := take (limited o (Z.of_nat (length l))) l in
      update (with_node (fd_path fd) (Node (overwrite (fd_pos fd) l d) b at_ now));;
      mret (inl (Z.of_nat (length l)))
  end.

Definition sys_truncate (p : cstr) (n : Z) : M bool :=
  o ← next_outcome;
  node ← node_at p;
  match o, node with
  | Failed _, _ | _, None => mret false
  | _, Some (Node d b at_ _) =>
      if n <? 0 then mret false
      else update (with_node p (Node (resize n d) b at_ now));; mret true
  end.

Definition sys_stat (p : cstr) : M (option stat_t) :=
  o ← next_outcome;
  node ← node_at p;
  match o, node with
  | Failed _, _ | _, None => mret None
  | _, Some (Node d b at_ mt) => mret (Some (St (Z.of_nat (length d)) b at_ mt))
  end.
End system.

(** *** The stage

    [MAXWRITE] is [SHVC_FILE_MAXWRITE] of the build, [stack] what the array on the stack
    holds before it is written to, [junk] the same for the [struct stat], and [sha1] the
    digest of the bytes its context was updated with. *)

Section stage.
Context {S P U : Type} `{!FileState S} (unpack : U → cpitem → U * cpitem).
Context (pack : P → cpitem → P * bool) (fresh : P) (sendmsg : P → M S bool).
Context (gperf_file : cstr → option file_methods) (sha1 : list Z → list Z).
Context (MAXWRITE now : Z) (stack : list Z) (junk : stat_t).
Notation M := (M S).
Notation msg := (rpchandler_msg U).
Notation ls := (ls_ctx P U).
Notation dir := (dir_ctx P).
Notation send_error ctx e t := (rpchandler_msg_send_error pack fresh sendmsg ctx e (Some t)).
Notation send_ferror ctx t := (rpchandler_msg_send_ferror pack fresh sendmsg ctx RPCERR_METHOD_CALL_EXCEPTION t).

Definition get_files : M (list rpchandler_file_repr) := gets (λ s, files (file_state s)).

Definition update_cached_stats (path : cstr) (v : rpcfile_stat_s) : M rpcfile_stat_s :=
  st ← sys_stat path;
  let st := default junk st in
  mret (Stat 0 (i32 (st_size st)) (i32 (st_blksize st)) (max_write v) (max_read v) (erase_size v)
    (cptmtodt (gmtime (st_atime st))) (cptmtodt (gmtime (st_mtime st)))).

(** Access that comes with other access. *)
Definition completed_access (a : Z) : Z :=
  let a := if has a RPCFILE_ACCESS_READ then Z.lor a RPCFILE_ACCESS_VALIDATION else a in
  if has a RPCFILE_ACCESS_TRUNCATE then Z.lor a RPCFILE_ACCESS_WRITE else a.

Fixpoint represent (l : list rpchandler_file_list) : M (list rpchandler_file_repr) :=
  match l with
  | [] => mret []
  | f :: l =>
      st ← update_cached_stats (file_path f) stat_init;
      rest ← represent l;
      mret (FileRepr (Stat (type_ st) (size st) (page_size st) (i32 MAXWRITE) (max_read st) (erase_size st)
                       (access_time st) (mod_time st))
              (FileList (shv_path f) (file_path f) (completed_access (faccess f))) :: rest)
  end.

(** [calloc] says whether there is memory for the files. *)
Definition list_files (cb : rpchandler_file_cb) (calloc : nat → bool) : M bool :=
  match cb_ls cb with
  | None | Some None => mret false
  | Some (Some l) =>
      if calloc (length l) then
        fs ← represent l; update (with_files fs);; mret true
      else mret false
  end.

(** The handler is in the state; there is none if the result is [false]. *)
Definition rpchandler_file_new (cb : rpchandler_file_cb) (calloc : nat → bool) (alloc : bool) : M bool :=
  if alloc then list_files cb calloc else mret false.

(** The list is found through the first file. *)
Definition rpchandler_file_destroy : M unit :=
  fs ← get_files;
  match fs with [] => fails ReadOutside | _ => update (with_files []) end.

(** [shv_path - l - 1] with [l] behind [shv_path], as a [size_t]. *)
Definition parent_length (p : cstr) : Z :=
  match strrchr p SLASH with Some l => u64 (- (strlen p - strlen l) - 1) | None => 0 end.

Definition listed_at (path : cstr) (f : rpchandler_file_repr) : bool :=
  let p := shv_path (flist f) in
  if strlen path =? parent_length p then strncmp path p (length path) =? 0 else false.

Definition base_name (p : cstr) : cstr := match strrchr p SLASH with Some l => drop 1 l | None => p end.

Definition file_ls (ctx : ls) : M ls :=
  fs ← get_files;
  fold (λ ctx f, if listed_at (lpath ctx) f then rpchandler_ls_result pack fresh (base_name (shv_path (flist f))) ctx
                 else mret ctx) ctx fs.

Definition described (f : rpchandler_file_repr) (m : file_methods) : bool :=
  let a := faccess (flist f) in
  match m with
  | M_STAT | M_SIZE => true
  | M_WRITE => has a RPCFILE_ACCESS_WRITE
  | M_TRUNCATE => has a RPCFILE_ACCESS_TRUNCATE
  | M_READ => has a RPCFILE_ACCESS_READ
  | M_APPEND => has a RPCFILE_ACCESS_APPEND
  | M_CRC | M_SHA1 => has a RPCFILE_ACCESS_VALIDATION
  end.

Definition file_dirs (f : rpchandler_file_repr) : list rpcdir :=
  let a := faccess (flist f) in
  [rpcfile_stat; rpcfile_size] ++
  (if has a RPCFILE_ACCESS_VALIDATION then [rpcfile_crc; rpcfile_sha1] else []) ++
  (if has a RPCFILE_ACCESS_READ then [rpcfile_read] else []) ++
  (if has a RPCFILE_ACCESS_WRITE then [rpcfile_write] else []) ++
  (if has a RPCFILE_ACCESS_TRUNCATE then [rpcfile_truncate] else []) ++
  (if has a RPCFILE_ACCESS_APPEND then [rpcfile_append] else []).

Definition file_dir (ctx : dir) : M dir :=
  fs ← get_files;
  let file := List.find (λ f, strcmp (dpath ctx) (shv_path (flist f)) =? 0) fs in
  match dname ctx with
  | Some name =>
      match gperf_file name, file with
      | Some m, Some f => mret (if described f m then rpchandler_dir_exists ctx else ctx)
      | _, _ => mret ctx
      end
  | None => match file with Some f => dir_results pack (file_dirs f) ctx | None => mret ctx end
  end.

(** **** Writing *)

Definition _write_too_large (ctx : msg) : M unit :=
  rpchandler_msg_send_ferror pack fresh sendmsg ctx RPCERR_INVALID_PARAM
    (str "Write exceeds maximum allowed size " ++ print_d MAXWRITE ++ str ".");; mret tt.

Definition _open_file (ctx : msg) (path : cstr) : M (option fd_t) :=
  r ← sys_open path;
  match r with
  | inl fd => mret (Some fd)
  | inr e => send_ferror ctx (str "Could not open the file: " ++ e);; mret None
  end.

(** The blob is copied to the stack and from there to the file, at the offset if there
    is one. *)
Definition write_blob (path : cstr) (offset : option Z) (ctx : msg) : M msg :=
  let b := as_Blob (as_ (hitem ctx)) in
  if has (flags b) CPBI_F_STREAM && (eoff b >? MAXWRITE) then _write_too_large ctx;; mret ctx
  else
    '(ctx, siz) ← reading (λ u it, cp_unpack_memcpy unpack u it (Some stack) MAXWRITE) ctx;
    if siz <? 0 then mret ctx
    else
      let '(ctx, valid) := rpchandler_msg_valid ctx in
      (if negb valid then mret tt
       else if negb (has (flags (as_Blob (as_ (hitem ctx)))) CPBI_F_LAST) then _write_too_large ctx
       else
         fd ← _open_file ctx path;
         match fd with
         | None => mret tt
         | Some fd =>
             let fd := match offset with Some o => sys_lseek fd (i64 o) | None => fd end in
             r ← sys_write now fd (take (Z.to_nat siz) (default [] (buf (hitem ctx))));
             match r with
             | inr e => send_ferror ctx (str "File write failed: " ++ e);; mret tt
             | inl ret =>
                 if i32 ret =? siz then rpchandler_msg_send_response_void pack fresh sendmsg ctx;; mret tt
                 else send_ferror ctx (str "Short file write (" ++ print_d (i32 ret) ++ str " bytes only)");; mret tt
             end
         end);;
      mret ctx.

(** The message is validated and the error is the answer. *)
Definition refuse (ctx : msg) (error : Z) (text : cstr) : M msg :=
  let '(ctx, valid) := rpchandler_msg_valid ctx in
  (if valid : bool then send_error ctx error text;; mret tt else mret tt);; mret ctx.

(** The parameter is not what is expected. *)
Definition unexpected (ctx : msg) (expected : cstr) : M msg := refuse ctx RPCERR_INVALID_PARAM expected.

(** The type of the parameter, if there is one. *)
Definition param_type (ctx : msg) : M (msg * option cpitem_type) :=
  if rpcmsg_has_value (hitem ctx) then
    '(ctx, ty) ← reading (cp_unpack_type unpack) ctx; mret (ctx, Some ty)
  else mret (ctx, None).

Definition write_param (ctx : msg) : M (msg * option Z) :=
  '(ctx, ty) ← param_type ctx;
  if bool_decide (ty = Some CPITEM_LIST) then
    '(ctx, offset) ← reading (cp_unpack_int unpack (Unsigned 64)) ctx;
    match offset with
    | None => mret (ctx, None)
    | Some offset =>
        '(ctx, ty) ← reading (cp_unpack_type unpack) ctx;
        mret (ctx, if bool_decide (ty = CPITEM_BLOB) then Some offset else None)
    end
  else mret (ctx, None).

Definition rpc_handle_write (path : cstr) (ctx : msg) : M msg :=
  '(ctx, offset) ← write_param ctx;
  match offset with
  | None => unexpected ctx (str "[i,b] expected.")
  | Some offset => write_blob path (Some offset) ctx
  end.

Definition rpc_handle_append (path : cstr) (ctx : msg) : M msg :=
  '(ctx, ty) ← param_type ctx;
  if bool_decide (ty = Some CPITEM_BLOB) then write_blob path None ctx
  else unexpected ctx (str "Blob expected.").

(** **** Reading *)

(** The offset and the length, -1 for all that follows, if they are valid. *)
Definition validation_param (ctx : msg) : M (msg * option (Z * Z)) :=
  if rpcmsg_has_value (hitem ctx) then
    '(ctx, ty) ← reading (cp_unpack_type unpack) ctx;
    if bool_decide (ty = CPITEM_LIST) then
      '(ctx, offset) ← reading (cp_unpack_int unpack (Unsigned 64)) ctx;
      match offset with
      | None => mret (ctx, None)
      | Some offset =>
          '(ctx, tmplen) ← reading (cp_unpack_int unpack (Signed 64)) ctx;
          match tmplen with
          | Some len =>
              if 0 <=? len then
                '(ctx, ty) ← reading (cp_unpack_type unpack) ctx;
                mret (ctx, if bool_decide (ty = CPITEM_CONTAINER_END) then Some (offset, len) else None)
              else mret (ctx, None)
          | None =>
              mret (ctx, if bool_decide (type (hitem ctx) = CPITEM_CONTAINER_END) then Some (offset, -1) else None)
          end
      end
    else mret (ctx, if bool_decide (ty = CPITEM_NULL) then Some (0, -1) else None)
  else mret (ctx, Some (0, -1)).

Definition rpcfile_unpack_validation_param (ctx : msg) : M (msg * option (Z * Z)) :=
  '(ctx, param) ← validation_param ctx;
  let '(ctx, valid) := rpchandler_msg_valid ctx in
  if negb valid then mret (ctx, None)
  else
    match param with
    | Some p => mret (ctx, Some p)
    | None => send_error ctx RPCERR_INVALID_PARAM (str "'[i(0,),i(0,)|n]|n' expected.");; mret (ctx, None)
    end.

(** More rounds than there are bytes in the file: the last of them read nothing, and so
    do all that follow. *)
Definition rounds (path : cstr) : M nat :=
  n ← node_at path; mret (Datatypes.S (length (default [] (fdata <$> n)))).

(** The loop of [rpc_handle_crc] and of [rpc_handle_sha1]: the file is read in pieces,
    which [upd] adds to the result. *)
Fixpoint digest_loop {A} (upd : A → list Z → A) (n : nat) (fd : fd_t) (len : Z) (acc : A) : M (A + cstr) :=
  match n with
  | O => fails Deadlock
  | Datatypes.S n =>
      let to_read := if (len <? MAXWRITE) && (0 <=? len) then len else MAXWRITE in
      r ← sys_read fd to_read;
      match r with
      | inr e => mret (inr e)
      | inl (_, []) => mret (inl acc)
      | inl (fd, l) =>
          let acc := upd acc l in
          let len := if 0 <=? len then len - Z.of_nat (length l) else len in
          if (0 <? len) || (len =? -1) then digest_loop upd n fd len acc else mret (inl acc)
      end
  end.

Definition read_digest {A} (upd : A → list Z → A) (fd : fd_t) (len : Z) (acc : A) : M (A + cstr) :=
  n ← rounds (fd_path fd); digest_loop upd n fd len acc.

(** What the two have in common: [result] packs the digest. *)
Definition handle_digest {A} (upd : A → list Z → A) (init : A) (result : A → P → P * bool) (path : cstr)
    (ctx : msg) : M msg :=
  '(ctx, param) ← rpcfile_unpack_validation_param ctx;
  match param with
  | None => mret ctx
  | Some (offset, len) =>
      fd ← _open_file ctx path;
      match fd with
      | None => mret ctx
      | Some fd =>
          r ← read_digest upd (sys_lseek fd (i64 offset)) len init;
          (match r with
           | inr e => send_ferror ctx (str "File read failed: " ++ e)
           | inl acc => respond pack fresh sendmsg ctx (result acc)
           end);;
          mret ctx
      end
  end.

Definition rpc_handle_crc : cstr → msg → M msg :=
  handle_digest crc32_update crc32_init (λ crc, cp_pack_uint pack (crc32_finalize crc)).

(** The context of the digest is the bytes it was updated with. *)
Definition rpc_handle_sha1 : cstr → msg → M msg :=
  handle_digest (A := list Z) app [] (λ l, cp_pack_blob pack (sha1 l)).

(** What is read is packed as a part of the blob.  The response is started, and its lock
    held, when the error of a read is to be sent. *)
Fixpoint read_loop (n : nat) (fd : fd_t) (len : Z) (it : cpitem) (p : P) : M P :=
  match n with
  | O => fails Deadlock
  | Datatypes.S n =>
      r ← sys_read fd (if len <? 256 then len else 256);
      match r with
      | inr _ => fails Deadlock
      | inl (fd, l) =>
          '(p, it, _) ← need Assertion (cp_pack_data_part pack true l it p);
          let len := u64 (len - Z.of_nat (length l)) in
          if 0 <? len then read_loop n fd len it p else mret p
      end
  end.

Definition read_param (ctx : msg) : M (msg * option (Z * Z)) :=
  '(ctx, ty) ← param_type ctx;
  if bool_decide (ty = Some CPITEM_LIST) then
    '(ctx, offset) ← reading (cp_unpack_int unpack (Unsigned 64)) ctx;
    match offset with
    | None => mret (ctx, None)
    | Some offset =>
        '(ctx, len) ← reading (cp_unpack_int unpack (Unsigned 64)) ctx;
        mret (ctx, pair offset <$> len)
    end
  else mret (ctx, None).

Definition rpc_handle_read (path : cstr) (ctx : msg) : M msg :=
  '(ctx, param) ← read_param ctx;
  match param with
  | None => unexpected ctx (str "[i,i] expected.")
  | Some (offset, len) =>
      let '(ctx, valid) := rpchandler_msg_valid ctx in
      (if negb valid then mret tt
       else
         st ← sys_stat path;
         let sz := st_size (default junk st) in
         let len := if u64 (offset + len) >? u64 sz then u64 (sz - offset) else len in
         fd ← _open_file ctx path;
         match fd with
         | None => mret tt
         | Some fd =>
             p ← need NullPointer (rpchandler_msg_new_response pack fresh ctx);
             let '(p, it, _) := cp_pack_data_size pack true len (hitem ctx) p in
             n ← rounds path;
             p ← read_loop n (sys_lseek fd (i64 offset)) len it p;
             rpchandler_msg_send_response pack sendmsg ctx (Some p);; mret tt
         end);;
      mret ctx
  end.

(** **** Messages *)

Definition set_stat (i : nat) (v : rpcfile_stat_s) (s : fstate) : fstate :=
  with_files (alter (λ f, FileRepr v (flist f)) i (files s)) s.

Definition set_file_path (i : nat) (p : cstr) (s : fstate) : fstate :=
  with_files (alter (λ f, FileRepr (fstat f) (FileList (shv_path (flist f)) p (faccess (flist f)))) i (files s)) s.

(** The cached statistics of a file are updated and packed. *)
Definition stat_method (i : nat) (f : rpchandler_file_repr) (result : rpcfile_stat_s → P → P * bool) (ctx : msg) :
    M (msg * rpchandler_msg_res) :=
  null_method unpack pack fresh sendmsg ctx (λ ctx,
    v ← update_cached_stats (file_path (flist f)) (fstat f);
    update (set_stat i v);;
    respond pack fresh sendmsg ctx (result v);; mret tt) (nothing (S := S) (U := U)).

Definition handle_truncate (path : cstr) (ctx : msg) : M msg :=
  '(ctx, length) ← reading (cp_unpack_int unpack (Unsigned 64)) ctx;
  let '(ctx, valid) := rpchandler_msg_valid ctx in
  (if valid : bool then
     match length with
     | Some length =>
         ok ← sys_truncate now path (i64 length);
         if ok : bool then rpchandler_msg_send_response_void pack fresh sendmsg ctx;; mret tt
         else send_error ctx RPCERR_METHOD_CALL_EXCEPTION (str "truncate failed.");; mret tt
     | None => send_error ctx RPCERR_INVALID_PARAM (str "Int expected.");; mret tt
     end
   else mret tt);;
  mret ctx.

Definition finish (c : M msg) : M (msg * rpchandler_msg_res) := ctx ← c; mret (ctx, RPCHANDLER_MSG_DONE).

(** [None] where the [switch] is left by [break]. *)
Definition file_call (i : nat) (f : rpchandler_file_repr) (ctx : msg) (m : file_methods) :
    option (M (msg * rpchandler_msg_res)) :=
  let a := faccess (flist f) in
  let p := file_path (flist f) in
  let level := maccess (hmeta ctx) in
  match m with
  | M_STAT => if level <? RPCACCESS_READ then None else Some (stat_method i f (rpcfile_stat_pack pack) ctx)
  | M_SIZE => if level <? RPCACCESS_READ then None else Some (stat_method i f (λ v, cp_pack_int pack (size v)) ctx)
  | M_WRITE =>
      if negb (has a RPCFILE_ACCESS_WRITE) || (level <? RPCACCESS_WRITE) then None
      else Some (finish (rpc_handle_write p ctx))
  | M_TRUNCATE =>
      if negb (has a RPCFILE_ACCESS_TRUNCATE) || (level <? RPCACCESS_WRITE) then None
      else Some (finish (handle_truncate p ctx))
  | M_READ =>
      if negb (has a RPCFILE_ACCESS_READ) || (level <? RPCACCESS_READ) then None
      else Some (finish (rpc_handle_read p ctx))
  | M_APPEND =>
      if negb (has a RPCFILE_ACCESS_APPEND) || (level <? RPCACCESS_READ) then None
      else Some (finish (rpc_handle_append p ctx))
  | M_CRC =>
      if negb (has a RPCFILE_ACCESS_VALIDATION) || (level <? RPCACCESS_READ) then None
      else Some (finish (rpc_handle_crc p ctx))
  | M_SHA1 =>
      if negb (has a RPCFILE_ACCESS_VALIDATION) || (level <? RPCACCESS_READ) then None
      else Some (finish (rpc_handle_sha1 p ctx))
  end.

(** The path of a file may have changed; [false] if that is not known. *)
Definition refresh_path (cb : rpchandler_file_cb) (i : nat) (f : rpchandler_file_repr) : M (option rpchandler_file_repr) :=
  match update_paths cb with
  | None => mret (Some f)
  | Some g =>
      match g (file_path (flist f)) (shv_path (flist f)) with
      | None => mret None
      | Some p =>
          update (set_file_path i p);;
          mret (Some (FileRepr (fstat f) (FileList (shv_path (flist f)) p (faccess (flist f)))))
      end
  end.

(** The files from the number [i] on. *)
Fixpoint file_each (cb : rpchandler_file_cb) (fs : list rpchandler_file_repr) (i : nat) (ctx : msg) :
    M (msg * rpchandler_msg_res) :=
  match fs with
  | [] => mret (ctx, RPCHANDLER_MSG_SKIP)
  | f :: fs =>
      r ← refresh_path cb i f;
      match r with
      | None => finish (refuse ctx RPCERR_METHOD_CALL_EXCEPTION (str "Could not obtain file paths."))
      | Some f =>
          if match path (hmeta ctx) with Some p => negb (strcmp p (shv_path (flist f)) =? 0) | None => true end
          then file_each cb fs (Datatypes.S i) ctx
          else
            name ← need NullPointer (method (hmeta ctx));
            match gperf_file name ≫= file_call i f ctx with
            | Some c => c
            | None => file_each cb fs (Datatypes.S i) ctx
            end
      end
  end.

Definition file_msg (cb : rpchandler_file_cb) (ctx : msg) : M (msg * rpchandler_msg_res) :=
  if negb (is_type (hmeta ctx) RPCMSG_T_REQUEST) then mret (ctx, RPCHANDLER_MSG_SKIP)
  else fs ← get_files; file_each cb fs 0 ctx.

Definition rpchandler_file_stage (cb : rpchandler_file_cb) : rpchandler_funcs S P U :=
  Funcs (Some (file_msg cb)) (Some file_ls) (Some file_dir) None None.
End stage.

(** ** Calls of the system *)

(** Files are not what is sent. *)
Class FileClient {S P} (sendmsg : P → M S bool) (ignoremsg : M S unit) `{!FileState S} `{!ClientSpec sendmsg ignoremsg} := {
  sent_set_state f s : sent (set_file_state f s) = sent s;
  sendmsg_state p s s' ok : sendmsg p s = inl (s', ok) → file_state s' = file_state s }.

Section calls.
Context {S P : Type} (sendmsg : P → M S bool) (ignoremsg : M S unit) `{!FileState S} `{!ClientSpec sendmsg ignoremsg}.
Context `{!FileClient sendmsg ignoremsg} (now : Z).
Notation silent := (silent sendmsg ignoremsg).

Lemma update_silent f : silent (update f) (λ _, True).
Proof. intros s. do 2 eexists. split; [done|]. split; [apply sent_set_state|done]. Qed.

Lemma gets_silent {A} (f : S → A) : silent (gets f) (λ _, True).
Proof. intros s. by do 2 eexists. Qed.

Lemma next_outcome_silent : silent next_outcome (λ _, True).
Proof.
  eapply silent_bind; [apply gets_silent|]. intros v _. destruct (outcomes v); [by apply silent_ret|].
  eapply silent_bind; [apply update_silent|]. intros _ _. by apply silent_ret.
Qed.

Lemma call_silent {A} p (k : outcome → option fnode → M S A) :
  (∀ o n, silent (k o n) (λ _, True)) → silent (o ← next_outcome; n ← node_at p; k o n) (λ _, True).
Proof.
  intros Hk. eapply silent_bind; [apply next_outcome_silent|]. intros o _.
  eapply silent_bind; [apply gets_silent|]. intros n _. apply Hk.
Qed.

Lemma sys_open_silent p : silent (sys_open p) (λ r, match r with inl fd => fd = Fd p 0 | inr _ => True end).
Proof.
  eapply silent_bind; [apply next_outcome_silent|]. intros o _. eapply silent_bind; [apply gets_silent|]. intros n _.
  destruct o, n; by apply silent_ret.
Qed.

Lemma sys_write_silent fd l : silent (sys_write now fd l) (λ _, True).
Proof.
  apply call_silent. intros o n. destruct o, n as [[]|]; try by apply silent_ret.
  all: eapply silent_bind; [apply update_silent|]; intros _ _; by apply silent_ret.
Qed.

Lemma sys_truncate_silent p n : silent (sys_truncate now p n) (λ _, True).
Proof.
  apply call_silent. intros o node. destruct o, node as [[]|]; try by apply silent_ret.
  all: destruct (n <? 0); [by apply silent_ret|].
  all: eapply silent_bind; [apply update_silent|]; intros _ _; by apply silent_ret.
Qed.

Lemma sys_stat_silent p : silent (sys_stat p) (λ _, True).
Proof. apply call_silent. intros o node. destruct o, node as [[]|]; by apply silent_ret. Qed.

(** What a call takes from the outcomes. *)
Lemma next_outcome_run s :
  ∃ s' o, next_outcome s = inl (s', o) ∧ sent s' = sent s ∧ nodes (file_state s') = nodes (file_state s) ∧
    files (file_state s') = files (file_state s) ∧
    ((o = Fine ∧ outcomes (file_state s) = [] ∧ outcomes (file_state s') = []) ∨
     outcomes (file_state s) = o :: outcomes (file_state s')).
Proof.
  unfold next_outcome. rewrite (bind_run _ _ s s (file_state s) eq_refl).
  destruct (outcomes (file_state s)) as [|o l] eqn:E; [exists s, Fine; split_and!; auto|].
  unfold update. rewrite (bind_run _ _ s _ tt eq_refl). do 2 eexists. split; [done|].
  rewrite sent_set_state, file_state_set. simpl. split_and!; auto.
Qed.

Definition node_data (s : S) (p : cstr) : list Z := default [] (fdata <$> nodes (file_state s) !! p).

Lemma sys_read_run fd n s :
  ∃ s' r, sys_read fd n s = inl (s', r) ∧ sent s' = sent s ∧ nodes (file_state s') = nodes (file_state s) ∧
    (∀ o, o ∈ outcomes (file_state s') → o ∈ outcomes (file_state s)) ∧
    match r with
    | inr e => Failed e ∈ outcomes (file_state s)
    | inl (fd', l) => fd' = Fd (fd_path fd) (fd_pos fd + Z.of_nat (length l)) ∧
        ∃ k, l = take k (from (fd_pos fd) (node_data s (fd_path fd))) ∧ (k ≤ Z.to_nat n)%nat ∧ (0 < n → (0 < k)%nat)
    end.
Proof.
  unfold sys_read. destruct (next_outcome_run s) as (s1 & o & E & Hs & Hn & _ & Ho).
  rewrite (bind_run _ _ _ _ _ E). unfold node_at. rewrite (bind_run _ _ s1 s1 _ eq_refl), Hn. fold (node_data s (fd_path fd)).
  assert (∀ x, x ∈ outcomes (file_state s1) → x ∈ outcomes (file_state s)) as Hin.
  { destruct Ho as [(_ & -> & ->)| ->]; [done|]. intros x Hx. by apply list_elem_of_further. }
  destruct o as [|k|e]; do 2 eexists; (split; [reflexivity|]); (split; [done|]); (split; [done|]); (split; [done|]).
  - split; [done|]. exists (limited Fine n). split; [done|]. simpl. lia.
  - split; [done|]. exists (limited (Short k) n). split; [done|]. unfold limited. lia.
  - destruct Ho as [(? & _)| ->]; [done|]. apply list_elem_of_here.
Qed.
End calls.

(** ** Pieces of a file *)

(** The bytes a digest is over: -1 is for all of them. *)
Definition slice (len : Z) (l : list Z) : list Z := if 0 <=? len then take (Z.to_nat len) l else l.

Lemma from_drop pos l : 0 ≤ pos → from pos l = drop (Z.to_nat pos) l.
Proof.
  intros Hp. unfold from. destruct (Z.ltb_spec pos (Z.of_nat (length l))); [done|]. symmetry. apply drop_ge. lia.
Qed.

Lemma from_next pos k l :
  0 ≤ pos → from (pos + Z.of_nat (length (take k (from pos l)))) l = drop (length (take k (from pos l))) (from pos l).
Proof.
  intros Hp. rewrite !from_drop by lia. rewrite drop_drop. f_equal. lia.
Qed.

Lemma slice_first len k (l : list Z) :
  (0 ≤ len → (k ≤ Z.to_nat len)%nat) → -1 ≤ len →
  let x := take k l in
  x ++ slice (if 0 <=? len then len - Z.of_nat (length x) else len) (drop (length x) l) = slice len l.
Proof.
  intros Hk Hl x. unfold slice. assert (x = take (length x) l) as Hx.
  { unfold x. by rewrite length_take, <-take_take, firstn_all. }
  destruct (Z.leb_spec 0 len) as [H0|H0].
  - assert (length x ≤ Z.to_nat len)%nat as Hle by (specialize (Hk H0); unfold x; rewrite length_take; lia).
    rewrite (proj2 (Z.leb_le 0 _)) by lia. rewrite Hx at 1.
    replace (Z.to_nat len) with (length x + Z.to_nat (len - Z.of_nat (length x)))%nat by lia.
    by rewrite take_take_drop.
  - rewrite (proj2 (Z.leb_gt 0 len)) by lia. rewrite Hx at 1. apply take_drop.
Qed.

Section loops.
Context {S P : Type} (sendmsg : P → M S bool) (ignoremsg : M S unit) `{!FileState S} `{!ClientSpec sendmsg ignoremsg}.
Context `{!FileClient sendmsg ignoremsg} (MAXWRITE : Z) (Hmax : 1 ≤ MAXWRITE).

(** A call only reads files. *)
Definition only_reads (s s' : S) : Prop :=
  sent s' = sent s ∧ nodes (file_state s') = nodes (file_state s) ∧
  (∀ o, o ∈ outcomes (file_state s') → o ∈ outcomes (file_state s)).

Lemma only_reads_trans s1 s2 s3 : only_reads s1 s2 → only_reads s2 s3 → only_reads s1 s3.
Proof. intros (E1 & E2 & E3) (E4 & E5 & E6). split_and!; [congruence..|auto]. Qed.

Lemma only_reads_data s s' p : only_reads s s' → node_data s' p = node_data s p.
Proof. intros (_ & E & _). unfold node_data. by rewrite E. Qed.

Lemma digest_loop_run {A} (upd : A → list Z → A) n fd len acc s :
  -1 ≤ len → 0 ≤ fd_pos fd → (length (from (fd_pos fd) (node_data s (fd_path fd))) < n)%nat →
  ∃ s' r, digest_loop MAXWRITE upd n fd len acc s = inl (s', r) ∧ only_reads s s' ∧
    match r with
    | inr e => Failed e ∈ outcomes (file_state s)
    | inl a => ∃ pieces, a = foldl upd acc pieces ∧
        concat pieces = slice len (from (fd_pos fd) (node_data s (fd_path fd)))
    end.
Proof.
  revert fd len acc s. induction n as [|n IH]; intros fd len acc s Hl Hp Hn; [lia|]. cbn [digest_loop].
  set (to_read := if (len <? MAXWRITE) && (0 <=? len) then len else MAXWRITE).
  assert ((0 ≤ len → to_read ≤ len) ∧ (len ≠ 0 → 0 < to_read)) as [Hto Hpos].
  { unfold to_read. destruct (Z.ltb_spec len MAXWRITE), (Z.leb_spec 0 len); simpl; lia. }
  destruct (sys_read_run sendmsg ignoremsg fd to_read s) as (s1 & r & E & Hs & Hnodes & Hout & Hr).
  assert (only_reads s s1) as Hone by (by split_and!). rewrite (bind_run _ _ _ _ _ E).
  destruct r as [[fd' l]|e]; [|by exists s1, (inr e)]. destruct Hr as (-> & k & Hk & Hkn & Hk0).
  set (rest := from (fd_pos fd) (node_data s (fd_path fd))) in *.
  pose proof (slice_first len k rest ltac:(lia) Hl) as Hslice. cbv zeta in Hslice. rewrite <-Hk in Hslice.
  destruct l as [|x l'].
  { exists s1, (inl acc). split; [done|]. split; [done|]. exists []. split; [done|].
    destruct (decide (len = 0)) as [->|Hne]; [done|]. destruct k as [|k]; [lia|].
    assert (rest = []) as -> by (by destruct rest). simpl. unfold slice. by destruct (0 <=? len), (Z.to_nat len). }
  set (l := x :: l') in *. set (len' := if 0 <=? len then _ else _) in *.
  assert (length l ≤ Z.to_nat to_read ∧ 0 < length l ∧ length l ≤ length rest)%nat as (Hll & Hl1 & Hl2).
  { split; [|split; [simpl; lia|]]; rewrite Hk, length_take; lia. }
  assert (-1 ≤ len') as Hl' by (unfold len'; destruct (Z.leb_spec 0 len); lia).
  assert (from (fd_pos fd + Z.of_nat (length l)) (node_data s (fd_path fd)) = drop (length l) rest) as Hrest.
  { rewrite Hk. by apply from_next. }
  destruct ((0 <? len') || (len' =? -1)) eqn:Ego.
  - destruct (IH (Fd (fd_path fd) (fd_pos fd + Z.of_nat (length l))) len' (upd acc l) s1 Hl') as (s2 & r & E2 & Hr2 & Hres);
      cbn [fd_path fd_pos]; [lia|rewrite (only_reads_data s) by done; rewrite Hrest, length_drop; lia|].
    exists s2, r. split; [done|]. split; [by eapply only_reads_trans|]. destruct r as [a|e]; [|by apply Hout].
    destruct Hres as (pieces & -> & Hc). exists (l :: pieces). split; [done|]. simpl concat.
    cbn [fd_path fd_pos] in Hc. rewrite (only_reads_data s), Hrest in Hc by done. by rewrite Hc.
  - exists s1, (inl (upd acc l)). split; [done|]. split; [done|]. exists [l]. split; [done|]. simpl concat.
    rewrite app_nil_r. assert (len' = 0) as Hz.
    { apply orb_false_iff in Ego as [?%Z.ltb_ge ?%Z.eqb_neq]. lia. }
    rewrite Hz in Hslice. unfold slice at 1 in Hslice. simpl in Hslice. by rewrite app_nil_r in Hslice.
Qed.

Lemma read_digest_run {A} (upd : A → list Z → A) fd len acc s :
  -1 ≤ len → 0 ≤ fd_pos fd →
  ∃ s' r, read_digest MAXWRITE upd fd len acc s = inl (s', r) ∧ only_reads s s' ∧
    match r with
    | inr e => Failed e ∈ outcomes (file_state s)
    | inl a => ∃ pieces, a = foldl upd acc pieces ∧
        concat pieces = slice len (from (fd_pos fd) (node_data s (fd_path fd)))
    end.
Proof.
  intros Hl Hp. unfold read_digest, rounds, node_at.
  rewrite (bind_run _ _ s s (Datatypes.S (length (node_data s (fd_path fd)))) eq_refl).
  apply digest_loop_run; [done..|]. rewrite from_drop, length_drop by done. lia.
Qed.
End loops.

(** ** Names and methods *)

Lemma strrchr_slash p : match strrchr p SLASH with Some l => (length l ≤ length p)%nat ∧ SLASH ∈ p | None => SLASH ∉ p end.
Proof.
  induction p as [|x p IH]; cbn [strrchr]; [apply not_elem_of_nil|]. destruct (strrchr p SLASH) as [l|].
  - destruct IH as [Hl Hin]. split; [simpl; lia|by right].
  - destruct (Z.eqb_spec x SLASH) as [->|Hx]; [split; [done|by left]|]. by apply not_elem_of_cons.
Qed.

(** A file is listed at the root if no slash is in its path, and nowhere else. *)
Lemma listed_at_spec path f :
  text path → text (shv_path (flist f)) → listed_at path f = bool_decide (path = [] ∧ SLASH ∉ shv_path (flist f)).
Proof.
  intros [_ Hp] [_ Hs]. unfold listed_at, parent_length. pose proof (strrchr_slash (shv_path (flist f))) as Hsl.
  destruct (strrchr _ _) as [l|].
  - destruct Hsl as [Hl Hin]. rewrite bool_decide_false by naive_solver. unfold strlen.
    rewrite (proj2 (Z.eqb_neq _ _)); [done|].
    replace (u64 _) with (2 ^ 64 - (Z.of_nat (length (shv_path (flist f))) - Z.of_nat (length l)) - 1); [lia|].
    unfold uwrap. apply (Zmod_unique _ _ (-1)); lia.
  - unfold strlen. destruct path as [|x path]; [|by rewrite bool_decide_false by naive_solver].
    rewrite bool_decide_true by done. destruct (shv_path (flist f)); done.
Qed.

(** The names that are listed at a path. *)
Definition file_names (fs : list rpchandler_file_repr) (path : cstr) : list cstr :=
  fs ≫= λ f, if bool_decide (path = [] ∧ SLASH ∉ shv_path (flist f)) then [shv_path (flist f)] else [].

Lemma base_name_whole p : SLASH ∉ p → base_name p = p.
Proof. intros Hp. unfold base_name. pose proof (strrchr_slash p) as H. destruct (strrchr p SLASH); naive_solver. Qed.

Lemma file_names_length fs path : (length (file_names fs path) ≤ length fs)%nat.
Proof.
  unfold file_names. induction fs as [|f fs IH]; [done|]. rewrite bind_cons, length_app. case_bool_decide; simpl in *; lia.
Qed.

Lemma assoc_in {A} (table : list (cstr * A)) n x : assoc table n = Some x → (n, x) ∈ table.
Proof.
  induction table as [|[k v] table IH]; simpl; [done|]. destruct (decide (k = n)) as [->|]; [intros [= ->]; by left|].
  intros H. right. by apply IH.
Qed.

(** ** Requests are answered *)

Section contract.
Context {S P U : Type} (unpack : U → cpitem → U * cpitem).
Context (pack : P → cpitem → P * bool) (fresh : P).
Context (sendmsg : P → M S bool) (ignoremsg : M S unit) `{!FileState S} `{!ClientSpec sendmsg ignoremsg}.
Context `{!FileClient sendmsg ignoremsg}.
Context (gperf_file : cstr → option file_methods) (sha1 : list Z → list Z).
Context (MAXWRITE now : Z) (stack : list Z) (junk : stat_t) (Hmax : 1 ≤ MAXWRITE).
Notation msg := (rpchandler_msg U).
Notation answered := (answered pack fresh sendmsg ignoremsg).
Notation silent := (silent sendmsg ignoremsg).
Notation settled_with := (settled_with pack fresh sendmsg ignoremsg).
Implicit Types ctx : msg.

(** A message that was read on. *)
Definition kept ctx ctx1 : Prop := hmeta ctx1 = hmeta ctx ∧ hvalid ctx1 = hvalid ctx ∧ is_Some (hunpack ctx1).

(** The request is settled, or left to the handler. *)
Definition concludes ctx (c : M S msg) : Prop :=
  ∀ s, ∃ s' ctx', c s = inl (s', ctx') ∧ same_request ctx ctx' ∧
    match hunpack ctx' with Some _ => sent s' = sent s | None => settled_with (hvalid ctx) (hmeta ctx) s s' end.

Lemma kept_request ctx ctx1 : request ctx → kept ctx ctx1 → request ctx1.
Proof. intros (Ht & Hm & Hp & _) (E & _ & Hu). unfold request. by rewrite E. Qed.

Lemma kept_trans ctx ctx1 ctx2 : kept ctx ctx1 → kept ctx1 ctx2 → kept ctx ctx2.
Proof. intros (E1 & E2 & _) (E3 & E4 & ?). split_and!; [congruence..|done]. Qed.

Lemma concludes_stop ctx : request ctx → concludes ctx (mret ctx).
Proof. intros (_ & _ & _ & [u Hu]) s. exists s, ctx. split; [done|]. split; [by apply same_request_meta|]. by rewrite Hu. Qed.

Lemma concludes_read_with {A} (Q : A → Prop) ctx (rd : M S (msg * A)) k :
  request ctx → silent rd (λ r, kept ctx r.1 ∧ Q r.2) →
  (∀ ctx1 x, request ctx1 → Q x → concludes ctx1 (k (ctx1, x))) → concludes ctx (rd ≫= k).
Proof.
  intros Hr Hrd Hk s. destruct (Hrd s) as (s1 & [ctx1 x] & E & Hs & Hkept & Hq). cbn [fst snd] in Hkept, Hq.
  rewrite (bind_run _ _ _ _ _ E). destruct (Hk ctx1 x ltac:(by eapply kept_request) Hq s1) as (s2 & ctx2 & E2 & Hsame & Hres).
  exists s2, ctx2. split; [done|]. destruct Hkept as (Em & Ev & _).
  split; [assert (same_request ctx ctx1) as H01 by (by apply same_request_meta); by eapply same_request_trans|].
  rewrite Em, Ev in Hres. destruct (hunpack ctx2); [congruence|]. unfold HandlerSpec.settled_with in *. by rewrite <-Hs.
Qed.

Lemma concludes_read {A} ctx (rd : M S (msg * A)) k :
  request ctx → silent rd (λ r, kept ctx r.1) →
  (∀ ctx1 x, request ctx1 → concludes ctx1 (k (ctx1, x))) → concludes ctx (rd ≫= k).
Proof.
  intros Hr Hrd Hk. apply (concludes_read_with (λ _, True)); [done| |auto]. eapply silent_impl; [exact Hrd|]. done.
Qed.

Lemma concludes_validated ctx (c : M S unit) :
  request ctx → (hvalid ctx = true → answered (hmeta ctx) c) → (hvalid ctx = false → c = mret tt) →
  concludes ctx (c;; mret (Msg (hmeta ctx) None (hitem ctx) (hobs ctx) (hvalid ctx))).
Proof.
  intros Hr Ht Hf s. destruct (hvalid ctx) eqn:Ev.
  - destruct (Ht eq_refl s) as (s' & [] & p & E & Hs & Hp). rewrite (bind_run _ _ _ _ _ E).
    do 2 eexists. split; [done|]. split; [by apply same_request_meta|]. simpl. by exists p.
  - rewrite (Hf eq_refl). do 2 eexists. split; [done|]. by split; [apply same_request_meta|].
Qed.

Lemma valid_answerable ctx : request ctx → answerable (U := U) (Msg (hmeta ctx) None (hitem ctx) (hobs ctx) (hvalid ctx)).
Proof. intros Hr. exact (proj1 (validated ctx ctx Hr eq_refl)). Qed.

Lemma reading_kept {A} (f : U → cpitem → U * cpitem * A) ctx : request ctx → silent (reading f ctx) (λ r, kept ctx r.1).
Proof. intros (_ & _ & _ & Hu). by apply reading_silent. Qed.

(** Reading with a result that is put together. *)
Lemma reading_then {A B} (f : U → cpitem → U * cpitem * A) ctx (k : msg * A → M S (msg * B)) :
  request ctx → (∀ ctx1 x, request ctx1 → silent (k (ctx1, x)) (λ r, kept ctx1 r.1)) →
  silent (reading f ctx ≫= k) (λ r, kept ctx r.1).
Proof.
  intros Hr Hk. eapply silent_bind; [by apply reading_kept|]. intros [ctx1 x] H1. cbn [fst] in H1.
  eapply silent_impl; [apply Hk; by eapply kept_request|]. intros r. by apply kept_trans.
Qed.

Lemma kept_refl ctx : request ctx → kept ctx ctx.
Proof. intros (_ & _ & _ & Hu). done. Qed.

Lemma ferror_done ctx ctx1 e t :
  answerable ctx1 → hmeta ctx1 = hmeta ctx →
  answered (hmeta ctx) (rpchandler_msg_send_ferror pack fresh sendmsg ctx1 e t;; mret tt).
Proof. intros Ha <-. by apply answered_then, send_ferror_answered. Qed.

Lemma void_done ctx ctx1 :
  answerable ctx1 → hmeta ctx1 = hmeta ctx →
  answered (hmeta ctx) (rpchandler_msg_send_response_void pack fresh sendmsg ctx1;; mret tt).
Proof. intros Ha <-. by apply answered_then, send_void_answered. Qed.

(** The file is opened, or the error is sent. *)
Lemma open_then {A} m ctx p (k : option fd_t → M S A) x :
  answerable ctx → hmeta ctx = m → k None = mret x → answered m (k (Some (Fd p 0))) →
  answered m (_open_file pack fresh sendmsg ctx p ≫= k).
Proof.
  intros Ha <- Hn Hk s. unfold _open_file. destruct (sys_open_silent sendmsg ignoremsg p s) as (s1 & [fd|e] & E & Hs & Hfd).
  - rewrite (bind_run _ _ s s1 (Some (Fd p 0))); [rewrite <-Hs; apply Hk|].
    rewrite (bind_run _ _ _ _ _ E). by rewrite Hfd.
  - destruct (send_ferror_answered pack fresh sendmsg ignoremsg ctx RPCERR_METHOD_CALL_EXCEPTION
      (str "Could not open the file: " ++ e) Ha s1) as (s2 & y & q & E2 & Hs2 & Hq).
    rewrite (bind_run _ _ s s2 None); [rewrite Hn; exists s2, x, q; by rewrite Hs2, Hs|].
    rewrite (bind_run _ _ _ _ _ E). by rewrite (bind_run _ _ _ _ _ E2).
Qed.

Lemma refuse_concludes ctx e t : request ctx → concludes ctx (refuse pack fresh sendmsg ctx e t).
Proof.
  intros Hr. unfold refuse, rpchandler_msg_valid. apply concludes_validated; [done| |]; intros ->; [|done].
  apply error_done; [by apply valid_answerable|done].
Qed.

Lemma too_large_done ctx ctx1 :
  answerable ctx1 → hmeta ctx1 = hmeta ctx → answered (hmeta ctx) (_write_too_large pack fresh sendmsg MAXWRITE ctx1).
Proof. apply ferror_done. Qed.

(** Before the message is validated no error is sent. *)
Lemma too_large_early ctx : request ctx → concludes ctx (_write_too_large pack fresh sendmsg MAXWRITE ctx;; mret ctx).
Proof.
  intros (Ht & _ & _ & [u Hu]) s. exists s, ctx. rewrite Hu. split; [|by split; [apply same_request_meta|]].
  unfold _write_too_large, rpchandler_msg_send_ferror, rpchandler_msg_send_vferror, send_packed, rpchandler_msg_new.
  by rewrite Hu.
Qed.

Lemma write_blob_concludes p offset ctx :
  request ctx → concludes ctx (write_blob unpack pack fresh sendmsg MAXWRITE now stack p offset ctx).
Proof.
  intros Hr. unfold write_blob. destruct (_ && _); [by apply too_large_early|].
  apply concludes_read; [done|by apply reading_kept|]. clear ctx Hr. intros ctx siz Hr.
  destruct (siz <? 0); [by apply concludes_stop|]. unfold rpchandler_msg_valid.
  apply concludes_validated; [done| |]; intros ->; [|done]. cbn [negb].
  pose proof (valid_answerable ctx Hr) as Ha. destruct (negb (has _ _)); [by apply too_large_done|].
  eapply open_then; [done..|]. eapply silent_answered; [by apply (sys_write_silent sendmsg ignoremsg)|]. intros [ret|e] _; [|by apply ferror_done].
  destruct (_ =? siz); [by apply void_done|by apply ferror_done].
Qed.

Lemma param_type_kept ctx : request ctx → silent (param_type unpack ctx) (λ r, kept ctx r.1).
Proof.
  intros Hr. unfold param_type. destruct (rpcmsg_has_value _); [|by apply silent_ret, kept_refl].
  apply reading_then; [done|]. intros. by apply silent_ret, kept_refl.
Qed.

Lemma param_then {B} ctx (k : msg * option cpitem_type → M S (msg * B)) :
  request ctx → (∀ ctx1 x, request ctx1 → silent (k (ctx1, x)) (λ r, kept ctx1 r.1)) →
  silent (param_type unpack ctx ≫= k) (λ r, kept ctx r.1).
Proof.
  intros Hr Hk. eapply silent_bind; [by apply param_type_kept|]. intros [ctx1 x] H1. cbn [fst] in H1.
  eapply silent_impl; [apply Hk; by eapply kept_request|]. intros r. by apply kept_trans.
Qed.

Lemma write_concludes p ctx :
  request ctx → concludes ctx (rpc_handle_write unpack pack fresh sendmsg MAXWRITE now stack p ctx).
Proof.
  intros Hr. unfold rpc_handle_write. apply concludes_read; [done| |].
  - apply param_then; [done|]. clear ctx Hr. intros ctx ty Hr. destruct (bool_decide _); [|by apply silent_ret, kept_refl].
    apply reading_then; [done|]. clear ctx Hr. intros ctx [offset|] Hr; [|by apply silent_ret, kept_refl].
    apply reading_then; [done|]. intros. by apply silent_ret, kept_refl.
  - intros ctx1 [offset|] H1; [by apply write_blob_concludes|by apply refuse_concludes].
Qed.

Lemma append_concludes p ctx :
  request ctx → concludes ctx (rpc_handle_append unpack pack fresh sendmsg MAXWRITE now stack p ctx).
Proof.
  intros Hr. unfold rpc_handle_append. apply concludes_read; [done|by apply param_type_kept|].
  intros ctx1 ty H1. destruct (bool_decide _); [by apply write_blob_concludes|by apply refuse_concludes].
Qed.

Lemma truncate_concludes p ctx : request ctx → concludes ctx (handle_truncate unpack pack fresh sendmsg now p ctx).
Proof.
  intros Hr. unfold handle_truncate. apply concludes_read; [done|by apply reading_kept|].
  clear ctx Hr. intros ctx n Hr. unfold rpchandler_msg_valid. apply concludes_validated; [done| |]; intros ->; [|done].
  pose proof (valid_answerable ctx Hr) as Ha. destruct n as [n|]; [|by apply error_done].
  eapply silent_answered; [by apply (sys_truncate_silent sendmsg ignoremsg)|]. intros [] _; [by apply void_done|by apply error_done].
Qed.

(** The parameter of a digest. *)
Definition param_ok (x : option (Z * Z)) : Prop := match x with Some (_, len) => -1 ≤ len | None => True end.

Lemma validation_param_kept ctx :
  request ctx → silent (validation_param unpack ctx) (λ r, kept ctx r.1 ∧ param_ok r.2).
Proof.
  intros Hr. unfold validation_param.
  assert (∀ ctx (x : option (Z * Z)), request ctx → param_ok x → silent (mret (ctx, x)) (λ r, kept ctx r.1 ∧ param_ok r.2)) as Hret
    by (intros; apply silent_ret; split; [by apply kept_refl|done]).
  assert (∀ {A} (f : U → cpitem → U * cpitem * A) ctx (k : msg * A → M S (msg * option (Z * Z))), request ctx →
    (∀ ctx1 x, request ctx1 → silent (k (ctx1, x)) (λ r, kept ctx1 r.1 ∧ param_ok r.2)) →
    silent (reading f ctx ≫= k) (λ r, kept ctx r.1 ∧ param_ok r.2)) as Hread.
  { intros A f ctx0 k H0 Hk. eapply silent_bind; [by apply reading_kept|]. intros [ctx1 x] H1. cbn [fst] in H1.
    eapply silent_impl; [apply Hk; by eapply kept_request|]. intros r [? ?]. split; [by eapply kept_trans|done]. }
  destruct (rpcmsg_has_value _); [|apply Hret; [done|simpl; lia]].
  apply Hread; [done|]. clear ctx Hr. intros ctx ty Hr. destruct (bool_decide _); [|apply Hret; [done|case_bool_decide; simpl; lia || done]].
  apply Hread; [done|]. clear ctx Hr. intros ctx [o|] Hr; [|by apply Hret].
  apply Hread; [done|]. clear ctx Hr. intros ctx [len|] Hr; [|apply Hret; [done|case_bool_decide; simpl; lia || done]].
  destruct (Z.leb_spec 0 len); [|by apply Hret].
  apply Hread; [done|]. intros ctx1 ty' H1. apply Hret; [done|]. case_bool_decide; simpl; lia || done.
Qed.

(** The steps of a digest after its parameter was read. *)
Definition digest_rest {A} (upd : A → list Z → A) (init : A) (result : A → P → P * bool) (p : cstr) (ctx : msg)
    (param : option (Z * Z)) : M S msg :=
  let '(ctx, valid) := rpchandler_msg_valid ctx in
  (if negb valid then mret tt
   else
     match param with
     | None =>
         rpchandler_msg_send_error pack fresh sendmsg ctx RPCERR_INVALID_PARAM
           (Some (str "'[i(0,),i(0,)|n]|n' expected."));; mret tt
     | Some (offset, len) =>
         fd ← _open_file pack fresh sendmsg ctx p;
         match fd with
         | None => mret tt
         | Some fd =>
             r ← read_digest MAXWRITE upd (sys_lseek fd (i64 offset)) len init;
             match r with
             | inr e => rpchandler_msg_send_ferror pack fresh sendmsg ctx RPCERR_METHOD_CALL_EXCEPTION
                          (str "File read failed: " ++ e);; mret tt
             | inl acc => respond pack fresh sendmsg ctx (result acc);; mret tt
             end
         end
     end);;
  mret ctx.

Lemma digest_steps {A} (upd : A → list Z → A) init result p ctx s :
  handle_digest unpack pack fresh sendmsg MAXWRITE upd init result p ctx s =
  ('(ctx, param) ← validation_param unpack ctx; digest_rest upd init result p ctx param) s.
Proof.
  unfold handle_digest, rpcfile_unpack_validation_param, digest_rest, mbind, eff_bind.
  destruct (validation_param unpack ctx s) as [[s1 [ctx1 param]]|f]; [|done].
  unfold rpchandler_msg_valid. destruct (hvalid ctx1); [|done]. cbn [negb]. destruct param as [[offset len]|].
  - unfold mret, eff_ret. destruct (_open_file _ _ _ _ _ s1) as [[s2 [fd|]]|f]; [|done..].
    destruct (read_digest _ _ _ _ _ s2) as [[s3 [a|e]]|f]; [| |done].
    + by destruct (respond _ _ _ _ _ s3) as [[]|].
    + by destruct (rpchandler_msg_send_ferror _ _ _ _ _ _ s3) as [[]|].
  - by destruct (rpchandler_msg_send_error _ _ _ _ _ _ s1) as [[]|].
Qed.

Lemma read_digest_silent {A} (upd : A → list Z → A) fd len acc :
  -1 ≤ len → 0 ≤ fd_pos fd → silent (read_digest MAXWRITE upd fd len acc) (λ _, True).
Proof.
  intros Hl Hp s. destruct (read_digest_run sendmsg ignoremsg MAXWRITE Hmax upd fd len acc s Hl Hp) as (s' & r & E & (Hs & _) & _).
  by exists s', r.
Qed.

Lemma lseek_pos p o : 0 ≤ fd_pos (sys_lseek (Fd p 0) o) ∧ fd_path (sys_lseek (Fd p 0) o) = p.
Proof. unfold sys_lseek. destruct (Z.ltb_spec o 0); simpl; split; done || lia. Qed.

Lemma digest_concludes {A} (upd : A → list Z → A) init result p ctx `{!∀ a, OnlyPacks pack (result a)} :
  request ctx → concludes ctx (handle_digest unpack pack fresh sendmsg MAXWRITE upd init result p ctx).
Proof.
  intros Hr.
  assert (concludes ctx ('(ctx, param) ← validation_param unpack ctx; digest_rest upd init result p ctx param)) as Hc.
  2:{ intros s. rewrite digest_steps. apply Hc. }
  apply (concludes_read_with param_ok); [done|by apply validation_param_kept|]. clear ctx Hr. intros ctx param Hr Hok.
  unfold digest_rest, rpchandler_msg_valid. apply concludes_validated; [done| |]; intros ->; [|done]. cbn [negb].
  pose proof (valid_answerable ctx Hr) as Ha. destruct param as [[offset len]|]; [|by apply error_done].
  eapply open_then; [done..|].
  eapply silent_answered; [apply read_digest_silent; [done|apply lseek_pos]|]. intros [a|e] _; [apply respond_done; [apply _|done..]|by apply ferror_done].
Qed.

Lemma update_stats_silent p v : silent (update_cached_stats junk p v) (λ _, True).
Proof.
  eapply silent_bind; [by apply (sys_stat_silent sendmsg ignoremsg)|]. intros st _. by apply silent_ret.
Qed.

Lemma stat_method_taken i f result ctx `{!∀ v, OnlyPacks pack (result v)} :
  request ctx → taken pack fresh sendmsg ignoremsg ctx (stat_method unpack pack fresh sendmsg junk i f result ctx).
Proof.
  intros Hr. apply null_method_taken; [done|]. intros ctx1 Ha Em.
  eapply silent_answered; [apply update_stats_silent|]. intros v _.
  eapply silent_answered; [by apply (update_silent sendmsg ignoremsg)|]. intros _ _. apply respond_done; [apply _|done..].
Qed.

Notation taken_at := (taken_at pack fresh sendmsg ignoremsg).

(** The request is taken: it is settled, or the handler is to settle it. *)
Definition done_at ctx (c : M S (msg * rpchandler_msg_res)) (s : S) : Prop :=
  ∃ s' ctx', c s = inl (s', (ctx', RPCHANDLER_MSG_DONE)) ∧ same_request ctx ctx' ∧
    match hunpack ctx' with Some _ => sent s' = sent s | None => settled_with (hvalid ctx) (hmeta ctx) s s' end.

Lemma done_taken ctx c s : done_at ctx c s → taken_at ctx c s.
Proof.
  intros (s' & ctx' & E & Hs & H). exists s', ctx', RPCHANDLER_MSG_DONE. split; [done|]. split; [done|]. by destruct (hunpack ctx').
Qed.

Lemma taken_done ctx c s : taken pack fresh sendmsg ignoremsg ctx c → done_at ctx c s.
Proof.
  intros Ht. destruct (Ht s) as (s' & ctx' & E & Hs & Hu & Hset). exists s', ctx'.
  split; [done|]. split; [done|]. by rewrite Hu.
Qed.

Lemma finish_done ctx c s : concludes ctx c → done_at ctx (finish c) s.
Proof.
  intros Hc. destruct (Hc s) as (s' & ctx' & E & Hs & Hset). exists s', ctx'.
  unfold finish. by rewrite (bind_run _ _ _ _ _ E).
Qed.

Lemma file_call_done i f ctx m c s :
  request ctx → m ≠ M_READ →
  file_call unpack pack fresh sendmsg sha1 MAXWRITE now stack junk i f ctx m = Some c → done_at ctx c s.
Proof.
  intros Hr Hm. destruct m; simpl; case_match; intros [= <-]; try done.
  - apply taken_done, stat_method_taken; [apply _|done].
  - apply taken_done, stat_method_taken; [apply _|done].
  - by apply finish_done, write_concludes.
  - by apply finish_done, truncate_concludes.
  - by apply finish_done, append_concludes.
  - apply finish_done, digest_concludes; [apply _|done].
  - apply finish_done, digest_concludes; [apply _|done].
Qed.

Lemma refresh_path_silent cb i f : silent (refresh_path cb i f) (λ _, True).
Proof.
  unfold refresh_path. destruct (update_paths cb) as [g|]; [|by apply silent_ret].
  destruct (g _ _); [|by apply silent_ret].
  eapply silent_bind; [by apply (update_silent sendmsg ignoremsg)|]. intros _ _. by apply silent_ret.
Qed.

(** The level a method is called with. *)
Definition needed (m : file_methods) : Z :=
  match m with M_WRITE | M_TRUNCATE => RPCACCESS_WRITE | _ => RPCACCESS_READ end.

(** A file at the path has the method, and the level is enough for it. *)
Definition file_offers (fs : list rpchandler_file_repr) (p name : cstr) (level : Z) : Prop :=
  ∃ f m, f ∈ fs ∧ shv_path (flist f) = p ∧ gperf_file name = Some m ∧ described f m = true ∧ needed m ≤ level.

Lemma file_call_offered i f ctx m :
  is_Some (file_call unpack pack fresh sendmsg sha1 MAXWRITE now stack junk i f ctx m) ↔
    described f m = true ∧ needed m ≤ maccess (hmeta ctx).
Proof.
  assert (∀ (b : bool) x y (c : M S (msg * rpchandler_msg_res)),
    is_Some (if negb b || (x <? y) then None else Some c) ↔ b = true ∧ y ≤ x) as Hc.
  { intros b x y c. destruct b, (Z.ltb_spec x y); cbn; split; try (by intros [? [=]]); try (by intros [? ?]; lia || done). }
  destruct m; apply (Hc true) || apply Hc.
Qed.

(** Every path of a file is known. *)
Definition refreshes (cb : rpchandler_file_cb) : Prop := ∀ g x y, update_paths cb = Some g → is_Some (g x y).

Lemma refresh_path_run cb i f s :
  ∃ s1 r, refresh_path cb i f s = inl (s1, r) ∧ sent s1 = sent s ∧
    match r with
    | Some f' => shv_path (flist f') = shv_path (flist f) ∧ faccess (flist f') = faccess (flist f)
    | None => ¬ refreshes cb
    end.
Proof.
  unfold refresh_path. destruct (update_paths cb) as [g|] eqn:Eg; [|by exists s, (Some f)].
  destruct (g _ _) as [p|] eqn:Ep.
  - eexists _, (Some _). split; [done|]. split; [apply sent_set_state|done].
  - exists s, None. split_and!; [done..|]. intros H. destruct (H g (file_path (flist f)) (shv_path (flist f)) Eg). congruence.
Qed.

(** The request is taken where a file offers the method, and skipped where none does. *)
Definition file_cases cb (fs : list rpchandler_file_repr) (p name : cstr) ctx (c : M S (msg * rpchandler_msg_res)) (s : S) : Prop :=
  (done_at ctx c s ∧ (refreshes cb → file_offers fs p name (maccess (hmeta ctx)))) ∨
  (¬ file_offers fs p name (maccess (hmeta ctx)) ∧ ∃ s', c s = inl (s', (ctx, RPCHANDLER_MSG_SKIP)) ∧ sent s' = sent s).

Lemma file_cases_after {A} cb fs p name ctx (c : M S A) k s s1 x :
  c s = inl (s1, x) → sent s1 = sent s → file_cases cb fs p name ctx (k x) s1 → file_cases cb fs p name ctx (c ≫= k) s.
Proof.
  intros E Hs [[(s' & ctx' & E2 & Hsame & Hres) Ho]|[Ho (s' & E2 & Hs')]].
  - left. split; [|done]. exists s', ctx'. rewrite (bind_run _ _ _ _ _ E). split; [done|]. split; [done|].
    unfold HandlerSpec.settled_with in *. by rewrite <-Hs.
  - right. split; [done|]. exists s'. rewrite (bind_run _ _ _ _ _ E). split; [done|congruence].
Qed.

Lemma file_cases_next cb f fs p name ctx c s :
  (shv_path (flist f) = p → ∀ m, gperf_file name = Some m → ¬ (described f m = true ∧ needed m ≤ maccess (hmeta ctx))) →
  file_cases cb fs p name ctx c s → file_cases cb (f :: fs) p name ctx c s.
Proof.
  intros Hno [[Hd Ho]|[Ho Hs]]; [left|right]; (split; [done || idtac|done || idtac]).
  - intros Hr. destruct (Ho Hr) as (g & m & Hin & ?). exists g, m. split; [by right|done].
  - intros (g & m & Hin & Hp & Hm & Hd). apply elem_of_cons in Hin as [->|Hin]; [by apply (Hno Hp m Hm)|].
    apply Ho. by exists g, m.
Qed.

Lemma file_each_cases cb fs i ctx p name s :
  request ctx → path (hmeta ctx) = Some p → method (hmeta ctx) = Some name → gperf_file name ≠ Some M_READ →
  wf_cstr p → Forall (λ f, wf_cstr (shv_path (flist f))) fs →
  file_cases cb fs p name ctx (file_each unpack pack fresh sendmsg gperf_file sha1 MAXWRITE now stack junk cb fs i ctx) s.
Proof.
  intros Hr Hp Hn Hno Hw Hfs. revert i s. induction Hfs as [|f fs Hf Hfs IH]; intros i s; cbn [file_each].
  { right. split; [|by exists s]. by intros (g & m & ?%elem_of_nil & _). }
  destruct (refresh_path_run cb i f s) as (s1 & r & E & Hs & Hf'). eapply file_cases_after; [done..|]. rewrite Hp.
  destruct r as [f'|]; [|left; split; [by apply finish_done, refuse_concludes|done]].
  destruct Hf' as [Ep Ea]. rewrite Ep. destruct (Z.eqb_spec (strcmp p (shv_path (flist f))) 0) as [Heq|Heq]; cbn [negb].
  - apply strcmp_eq in Heq; [|done..]. rewrite Hn. eapply file_cases_after; [done..|].
    assert (∀ m, described f' m = described f m) as Hd by (intros m; unfold described; by rewrite Ea).
    destruct (gperf_file name) as [m|] eqn:Em; cbn [mbind option_bind]; [|apply file_cases_next; [congruence|apply IH]].
    pose proof (file_call_offered i f' ctx m) as Hoff. rewrite Hd in Hoff.
    destruct (file_call _ _ _ _ _ _ _ _ _ _ _ _ m) as [c|] eqn:Ec.
    + left. split; [apply (file_call_done i f' ctx m); [done|congruence|done]|]. intros _.
      destruct Hoff as [[Hd1 Hl] _]; [by eexists|]. exists f, m. split_and!; [by left|done..].
    + apply file_cases_next; [|apply IH]. intros _ m' Hm'. rewrite Em in Hm'. injection Hm' as <-. intros [? [=]]%Hoff.
  - apply file_cases_next; [|apply IH]. intros Hx. destruct Heq. rewrite Hx. apply strcmp_refl.
Qed.

Lemma file_cases_taken cb fs p name ctx c s : request ctx → file_cases cb fs p name ctx c s → taken_at ctx c s.
Proof.
  intros (_ & _ & _ & [u Hu]) [[Hd _]|[_ (s' & E & Hs)]]; [by apply done_taken|].
  exists s', ctx, RPCHANDLER_MSG_SKIP. split; [done|]. split; [by apply same_request_meta|]. by rewrite Hu.
Qed.

(** The methods of a file are those that are called by their names. *)
Lemma dirs_described `{!Keywords file_method_table gperf_file} f n :
  Some n ∈ RpcDir.name <$> file_dirs f ↔ ∃ m, gperf_file n = Some m ∧ described f m = true.
Proof.
  rewrite (keyword (lookup := gperf_file)). unfold file_dirs, described. set (a := faccess (flist f)). split.
  - rewrite !fmap_app, !elem_of_app. intros H. destruct_or! H; repeat case_match; cbn in H;
      rewrite ?elem_of_cons, ?elem_of_nil in H; destruct_or? H; simplify_eq/=; (eexists; split; [reflexivity|done]) || done.
  - intros (m & Hm & Hd). assert ((n, m) ∈ file_method_table) as Hin by by apply assoc_in.
    rewrite !fmap_app, !elem_of_app. unfold file_method_table in Hin. rewrite !elem_of_cons, elem_of_nil in Hin.
    destruct_or! Hin; simplify_eq; rewrite ?Hd; cbn; rewrite ?elem_of_cons; tauto.
Qed.

(** The methods of the first file at a path. *)
Definition methods_at (fs : list rpchandler_file_repr) (path : cstr) : list rpcdir :=
  default [] (file_dirs <$> List.find (λ f, strcmp path (shv_path (flist f)) =? 0) fs).

Lemma file_dir_as `{!Keywords file_method_table gperf_file} d s :
  ∃ d', file_dir (S := S) pack gperf_file d s = inl (s, d') ∧ described_as pack (methods_at (files (file_state s)) (dpath d)) d d'.
Proof.
  unfold file_dir, methods_at, get_files. rewrite (bind_run _ _ s s (files (file_state s)) eq_refl).
  destruct (List.find _ _) as [f|]; cbn [fmap option_fmap option_map default from_option id].
  - destruct (dname d) as [n|] eqn:En.
    + assert (∀ b, b = bool_decide (Some n ∈ RpcDir.name <$> file_dirs f) →
        described_as pack (file_dirs f) d (if b then rpchandler_dir_exists d else d)) as Hd.
      { intros b Hb. unfold described_as. destruct b; unfold rpchandler_dir_exists; rewrite En; cbn [set_dlocated dname dpath dlocated];
          (split_and!; [done..|]); intros _; rewrite <-Hb; by destruct (dlocated d). }
      pose proof (dirs_described f n) as Hn. destruct (gperf_file n) as [m|].
      * eexists. split; [done|]. apply Hd. symmetry. destruct (described f m) eqn:Em.
        -- apply bool_decide_eq_true, Hn. by exists m.
        -- apply bool_decide_eq_false. intros (m' & [= <-] & ?)%Hn. congruence.
      * exists d. split; [done|]. apply (Hd false). symmetry. apply bool_decide_eq_false. by intros (m' & ? & _)%Hn.
    + apply dir_results_describe_as. unfold file_dirs.
      repeat apply Forall_app_2; repeat case_match; repeat constructor; eexists; (split; [done|by_evaluation]).
  - assert (described_as pack [] d d) as Hd by apply described_nil.
    exists d. destruct (dname d) as [n|]; [|done]. by destruct (gperf_file n).
Qed.

Lemma file_ls_names m l s :
  Forall (λ f, text (shv_path (flist f))) (files (file_state s)) → Z.of_nat (length (files (file_state s))) ≤ 2 ^ 31 →
  text (lpath l) → ls_ok pack fresh m l → cnt_of (lstrset l) + 2 ^ 31 ≤ 2 ^ 62 →
  ∃ s' l', file_ls (U := U) pack fresh l s = inl (s', l') ∧ sent s' = sent s ∧ ls_ok pack fresh m l' ∧ same_ls l l' ∧
    named (file_names (files (file_state s)) (lpath l)) l l'.
Proof.
  intros Hw Hn Hp Hl Hc. unfold file_ls, get_files. rewrite (bind_run _ _ s s (files (file_state s)) eq_refl).
  set (fs := files (file_state s)) in *. pose proof (file_names_length fs (lpath l)) as Hlen.
  destruct (fold_names pack fresh sendmsg ignoremsg (lpath l) (λ f (l : ls_ctx P U),
    if listed_at (lpath l) f then rpchandler_ls_result (S := S) pack fresh (base_name (shv_path (flist f))) l else mret l)
    (λ f, if bool_decide (lpath l = [] ∧ SLASH ∉ shv_path (flist f)) then [shv_path (flist f)] else []) fs) with (m := m) (l := l) (s := s)
    as (s' & l' & E & Hs & Hok & Hsame & _ & Hnamed); [|done..|unfold file_names in Hlen; lia|by exists s', l'].
  intros f Hf m0 l0 Hp0. eapply Forall_forall in Hw; [|exact Hf]. rewrite Hp0, listed_at_spec by done.
  case_bool_decide as Hb; [|exact (lists_names_ret pack fresh sendmsg ignoremsg (lpath l) m0 l0 Hp0)].
  rewrite base_name_whole by apply Hb. exact (ls_result_names pack fresh sendmsg ignoremsg (lpath l) _ (proj1 Hw) m0 l0 Hp0).
Qed.
End contract.

(** The files of the stage as it is set up. *)
Definition files_ok (v : fstate) : Prop :=
  Forall (λ f, text (shv_path (flist f))) (files v) ∧ Z.of_nat (length (files v)) ≤ 2 ^ 31.

(** ** What is read *)

(** The item a blob is packed in parts with; [e] bytes of it are missing. *)
Definition part_item (e : Z) (it : cpitem) : Prop :=
  type it = CPITEM_BLOB ∧ ∃ n fl, as_ it = AsBuf (BufInfo n e fl) ∧ (e = 0 ∨ fl = 0 ∨ fl = CPBI_F_FIRST).

Definition growing (o : list Z) : ofile := Some (WFile o None false).

Lemma blob_part l e it o :
  part_item e it → Z.of_nat (length l) ≤ e → urange 64 e →
  ∃ it' ok, cp_pack_data_part cp_pack_chainpack_func true l it (growing o) = Some (growing (o ++ l), it', ok) ∧
    part_item (e - Z.of_nat (length l)) it'.
Proof.
  intros (Ht & n & fl & Ha & Hfl) Hl He. unfold cp_pack_data_part. rewrite Ha. cbn [as_Blob eoff flags].
  rewrite bool_decide_eq_true_2, (proj2 (Z.leb_le _ _)) by done. cbn [andb].
  destruct (Z.eqb_spec (Z.of_nat (length l)) 0) as [H0|H0].
  { destruct l; [|done]. exists it, true. rewrite app_nil_r, Z.sub_0_r. split; [done|]. split; [done|]. by exists n, fl. }
  destruct Hfl as [?|Hfl]; [lia|].
  set (fl' := if e - Z.of_nat (length l) =? 0 then _ else _).
  assert ((fl' = 0 ∨ (fl' = CPBI_F_LAST ∧ e - Z.of_nat (length l) = 0))) as Hfl'.
  { unfold fl'. destruct (Z.eqb_spec (e - Z.of_nat (length l)) 0); destruct Hfl as [->| ->]; auto. }
  set (it' := set_as _ _). assert (packable it') as Hp.
  { split; simpl; rewrite Ht.
    - eexists. split; [done|]. unfold bufinfo_wf, urange in *. simpl. destruct Hfl' as [->|[-> _]]; unfold CPBI_F_LAST; lia.
    - unfold rbuf. simpl. lia. }
  assert (item_bytes it' = l) as Hb.
  { unfold item_bytes, it', rbuf. simpl. rewrite Ht. unfold blob_bytes. cbn [flags len eoff].
    rewrite (proj2 (Z.eqb_neq _ _)), Nat2Z.id, firstn_all by done. destruct Hfl' as [->|[-> _]]; cbn; by rewrite app_nil_r. }
  exists it', true. unfold cp_pack_chainpack_func, growing. rewrite chainpack_pack_room by done. rewrite Hb.
  rewrite (proj2 (Z.leb_le _ _)) by lia. split; [done|]. split; [done|]. do 2 eexists. split; [done|].
  destruct Hfl' as [->|[-> ?]]; auto.
Qed.

Lemma blob_size n it o :
  urange 64 n →
  ∃ it' ok, cp_pack_data_size cp_pack_chainpack_func true n it (growing o) =
      (growing (o ++ CPS_Blob :: uint_bytes n), it', ok) ∧ part_item n it'.
Proof.
  intros Hn. unfold cp_pack_data_size. set (it' := set_as _ _).
  assert (packable it') as Hp.
  { split; [|simpl; lia]. simpl. eexists. split; [done|]. unfold bufinfo_wf, urange in *. simpl. unfold CPBI_F_FIRST. lia. }
  assert (item_bytes it' = CPS_Blob :: uint_bytes n) as Hb.
  { unfold item_bytes, it'. simpl. unfold blob_bytes. cbn [flags len eoff]. rewrite Z.add_0_l, uwrap_small by done.
    change (has CPBI_F_FIRST CPBI_F_FIRST) with true. change (has CPBI_F_FIRST CPBI_F_STREAM) with false. simpl.
    by rewrite app_nil_r. }
  exists it', true. unfold cp_pack_chainpack_func, growing. rewrite chainpack_pack_room by done. rewrite Hb.
  rewrite (proj2 (Z.leb_le _ _)) by lia. split; [done|]. split; [done|]. do 2 eexists. split; [done|]. auto.
Qed.

Lemma blob_whole l o :
  Z.of_nat (length l) < 2 ^ 64 →
  (cp_pack_blob cp_pack_chainpack_func l (growing o)).1 =
    growing (o ++ CPS_Blob :: uint_bytes (Z.of_nat (length l)) ++ l).
Proof.
  intros Hl. unfold cp_pack_blob. set (it := data_item _ _ _).
  assert (packable it) as Hp.
  { split; [|simpl; unfold rbuf; simpl; lia]. simpl. eexists. split; [done|]. unfold bufinfo_wf, urange. simpl.
    unfold CPBI_F_SINGLE, CPBI_F_FIRST, CPBI_F_LAST. simpl. lia. }
  assert (item_bytes it = CPS_Blob :: uint_bytes (Z.of_nat (length l)) ++ l) as Hb.
  { unfold item_bytes, it, rbuf. simpl. unfold blob_bytes. cbn [flags len eoff].
    rewrite Z.add_0_r, uwrap_small, Nat2Z.id, firstn_all by (unfold urange; lia).
    change (has CPBI_F_SINGLE CPBI_F_FIRST) with true. change (has CPBI_F_SINGLE CPBI_F_STREAM) with false. simpl.
    rewrite app_nil_r. by destruct l. }
  unfold cp_pack_chainpack_func, growing. rewrite chainpack_pack_room by done. by rewrite Hb.
Qed.

Section contents.
Context {S U : Type} (unpack : U → cpitem → U * cpitem) (fresh : ofile).
Context (sendmsg : ofile → M S bool) (ignoremsg : M S unit) `{!FileState S} `{!ClientSpec sendmsg ignoremsg}.
Context `{!FileClient sendmsg ignoremsg}.
Context (sha1 : list Z → list Z) (MAXWRITE now : Z) (junk : stat_t) (Hmax : 1 ≤ MAXWRITE).
Notation pack := cp_pack_chainpack_func.
Notation msg := (rpchandler_msg U).
Implicit Types ctx : msg.

(** No call fails; reads may still be short. *)
Definition quiet (s : S) : Prop := ∀ e, Failed e ∉ outcomes (file_state s).

Lemma quiet_reads s s' : only_reads sendmsg ignoremsg s s' → quiet s → quiet s'.
Proof. intros (_ & _ & Ho) Hq e He. by apply (Hq e), Ho. Qed.

Lemma read_loop_run n fd len it o s :
  quiet s → 0 ≤ fd_pos fd → 0 ≤ len < 2 ^ 64 →
  let rest := from (fd_pos fd) (node_data s (fd_path fd)) in
  len ≤ Z.of_nat (length rest) < Z.of_nat n → part_item len it →
  ∃ s', read_loop pack n fd len it (growing o) s = inl (s', growing (o ++ take (Z.to_nat len) rest)) ∧
    only_reads sendmsg ignoremsg s s'.
Proof.
  intros Hq Hp Hl rest Hn Hit. revert fd len it o s rest Hq Hp Hl Hn Hit.
  induction n as [|n IH]; intros fd len it o s rest Hq Hp Hl Hn Hit; [lia|]. cbn [read_loop].
  set (to_read := if len <? 256 then len else 256).
  assert (to_read ≤ len ∧ (len ≠ 0 → 0 < to_read)) as [Hto Hpos] by (unfold to_read; destruct (Z.ltb_spec len 256); lia).
  destruct (sys_read_run sendmsg ignoremsg fd to_read s) as (s1 & r & E & Hs & Hnodes & Hout & Hr).
  assert (only_reads sendmsg ignoremsg s s1) as Hone by (by split_and!). rewrite (bind_run _ _ _ _ _ E).
  destruct r as [[fd' l]|e]; [|by destruct (Hq e)]. destruct Hr as (-> & k & Hk & Hkn & Hk0). fold rest in Hk.
  assert (length l = min k (length rest)) as Hll by (by rewrite Hk, length_take).
  assert (Z.of_nat (length l) ≤ len) as Hle by lia.
  destruct (blob_part l len it o Hit Hle) as (it' & ok & Epart & Hit'); [done|].
  rewrite Epart. rewrite (bind_run _ _ s1 s1 _ eq_refl). rewrite uwrap_small by (unfold urange; lia).
  assert (take (Z.to_nat len) rest = l ++ take (Z.to_nat (len - Z.of_nat (length l))) (drop (length l) rest)) as Htake.
  { pose proof (slice_first len k rest ltac:(lia) ltac:(lia)) as H1. cbv zeta in H1. rewrite <-Hk in H1. unfold slice in H1.
    rewrite !(proj2 (Z.leb_le 0 len)) in H1 by lia. rewrite (proj2 (Z.leb_le 0 _)) in H1 by lia. by rewrite H1. }
  destruct (Z.ltb_spec 0 (len - Z.of_nat (length l))) as [Hgo|Hend].
  - assert (from (fd_pos fd + Z.of_nat (length l)) (node_data s1 (fd_path fd)) = drop (length l) rest) as Hrest.
    { rewrite (only_reads_data _ _ s s1) by done. rewrite Hk. by apply from_next. }
    destruct (IH (Fd (fd_path fd) (fd_pos fd + Z.of_nat (length l))) (len - Z.of_nat (length l)) it' (o ++ l) s1)
      as (s2 & E2 & Hr2); cbn [fd_path fd_pos]; rewrite ?Hrest, ?length_drop; [by eapply quiet_reads|lia|lia|lia|done|].
    exists s2. split; [|by eapply only_reads_trans]. cbn [fd_path fd_pos] in E2. rewrite Hrest in E2.
    by rewrite Htake, app_assoc.
  - exists s1. split; [|done]. rewrite Htake. replace (Z.to_nat (len - Z.of_nat (length l))) with 0%nat by lia.
    by rewrite app_nil_r.
Qed.

Lemma respond_state ctx body s :
  answerable ctx →
  ∃ s' ok, respond pack fresh sendmsg ctx body s = inl (s', ok) ∧ file_state s' = file_state s ∧
    sent s' = sent s ++ [((rpcmsg_pack_response pack (hmeta ctx) >>> body >>> cp_pack_container_end pack) fresh).1].
Proof.
  intros Ha. destruct (respond_run pack fresh sendmsg ignoremsg ctx body s Ha) as (s' & ok & E & Hs).
  exists s', ok. split; [done|]. split; [|done]. unfold respond in E. rewrite new_response_some in E by done.
  rewrite (bind_run _ _ s s _ eq_refl) in E. simpl in E. unfold rpchandler_msg_send in E. rewrite (proj2 Ha) in E.
  by eapply sendmsg_state.
Qed.

Lemma open_quiet ctx p s :
  quiet s → is_Some (nodes (file_state s) !! p) →
  ∃ s1, _open_file pack fresh sendmsg ctx p s = inl (s1, Some (Fd p 0)) ∧ only_reads sendmsg ignoremsg s s1.
Proof.
  intros Hq [d Hd]. unfold _open_file, sys_open. destruct (next_outcome_run sendmsg ignoremsg s) as (s1 & oc & E & Hs & Hn & _ & Ho).
  assert (only_reads sendmsg ignoremsg s s1) as Hone.
  { split_and!; [done..|]. destruct Ho as [(_ & -> & ->)| ->]; [done|]. intros x Hx. by apply list_elem_of_further. }
  exists s1. split; [|done]. rewrite (bind_run _ _ s s1 (inl (Fd p 0))); [done|]. rewrite (bind_run _ _ _ _ _ E).
  unfold node_at. rewrite (bind_run _ _ s1 s1 _ eq_refl), Hn, Hd. destruct oc as [| |e]; [done..|].
  destruct Ho as [(? & _)|Ho]; [done|]. destruct (Hq e). rewrite Ho. apply list_elem_of_here.
Qed.

Lemma lseek_at p offset : 0 ≤ offset < 2 ^ 63 → sys_lseek (Fd p 0) (i64 offset) = Fd p offset.
Proof.
  intros Ho. unfold sys_lseek. rewrite swrap_small by (unfold srange; lia). by rewrite (proj2 (Z.ltb_ge _ _)) by lia.
Qed.

(** The answer to the request, with the value that [body] packs. *)
Definition reply ctx (body : ofile → ofile * bool) : ofile :=
  ((rpcmsg_pack_response pack (hmeta ctx) >>> body >>> cp_pack_container_end pack) fresh).1.

(** A method answers with a value and leaves the files as they are. *)
Definition replies ctx (c : M S msg) (body : ofile → ofile * bool) (s : S) : Prop :=
  ∃ s' ctx', c s = inl (s', ctx') ∧ sent s' = sent s ++ [reply ctx body] ∧ nodes (file_state s') = nodes (file_state s).

Lemma digest_replies {A} (upd : A → list Z → A) init result p ctx ctx1 s offset len d :
  request ctx → hvalid ctx = true → quiet s → fdata <$> nodes (file_state s) !! p = Some d →
  validation_param unpack ctx s = inl (s, (ctx1, Some (offset, len))) → 0 ≤ offset < 2 ^ 63 →
  ∃ pieces, concat pieces = slice len (from offset d) ∧
    replies ctx (handle_digest unpack pack fresh sendmsg MAXWRITE upd init result p ctx) (result (foldl upd init pieces)) s.
Proof.
  intros Hr Hv Hq Hd Hparam Ho.
  destruct (validation_param_kept unpack sendmsg ignoremsg ctx Hr s) as (s0 & r & E0 & _ & (Em & Ev & _) & Hlen).
  rewrite Hparam in E0. injection E0 as <- <-. cbn [fst snd param_ok] in *.
  destruct (open_quiet (Msg (hmeta ctx1) None (hitem ctx1) (hobs ctx1) (hvalid ctx1)) p s Hq) as (s1 & E1 & H1).
  { destruct (nodes (file_state s) !! p); [by eexists|done]. }
  destruct (read_digest_run sendmsg ignoremsg MAXWRITE Hmax upd (Fd p offset) len init s1 Hlen ltac:(simpl; lia))
    as (s2 & r & E2 & H2 & Hr2).
  destruct r as [a|e]; [|by destruct (quiet_reads _ _ H1 Hq e)]. destruct Hr2 as (pieces & -> & Hc).
  exists pieces. cbn [fd_path fd_pos] in Hc. rewrite (only_reads_data _ _ s s1) in Hc by done.
  unfold node_data in Hc. rewrite Hd in Hc. split; [exact Hc|].
  destruct (respond_state (Msg (hmeta ctx1) None (hitem ctx1) (hobs ctx1) (hvalid ctx1)) (result (foldl upd init pieces)) s2)
    as (s3 & ok & E3 & H3 & Hsent).
  { apply (validated ctx ctx1 Hr Em). }
  unfold replies. rewrite digest_steps, (bind_run _ _ _ _ _ Hparam). unfold digest_rest, rpchandler_msg_valid.
  rewrite Ev, Hv in *. cbn [negb]. do 2 eexists. split.
  - rewrite (bind_run _ _ s s3 tt); [done|]. rewrite (bind_run _ _ _ _ _ E1), (lseek_at p offset Ho), (bind_run _ _ _ _ _ E2).
    by rewrite (bind_run _ _ _ _ _ E3).
  - unfold reply. rewrite Hsent, H3. cbn [hmeta]. rewrite Em. destruct H1 as (<- & <- & _), H2 as (<- & <- & _). done.
Qed.

Lemma stat_quiet p s d :
  quiet s → fdata <$> nodes (file_state s) !! p = Some d →
  ∃ s1 st, sys_stat p s = inl (s1, Some st) ∧ st_size st = Z.of_nat (length d) ∧ only_reads sendmsg ignoremsg s s1.
Proof.
  intros Hq Hd. unfold sys_stat. destruct (next_outcome_run sendmsg ignoremsg s) as (s1 & oc & E & Hs & Hn & _ & Ho).
  assert (only_reads sendmsg ignoremsg s s1) as Hone.
  { split_and!; [done..|]. destruct Ho as [(_ & -> & ->)| ->]; [done|]. intros x Hx. by apply list_elem_of_further. }
  rewrite (bind_run _ _ _ _ _ E). unfold node_at. rewrite (bind_run _ _ s1 s1 _ eq_refl), Hn.
  destruct (nodes (file_state s) !! p) as [[d' b at_ mt]|]; [|done]. injection Hd as <-.
  destruct oc as [| |e]; [by do 2 eexists..|].
  destruct Ho as [(? & _)|Ho]; [done|]. destruct (Hq e). rewrite Ho. apply list_elem_of_here.
Qed.

(** The bytes that are there of those asked for. *)
Lemma clamped_take offset len d :
  0 ≤ offset ≤ Z.of_nat (length d) → 0 ≤ len → offset + len < 2 ^ 64 → Z.of_nat (length d) < 2 ^ 63 →
  let n := if u64 (offset + len) >? u64 (Z.of_nat (length d)) then u64 (Z.of_nat (length d) - offset) else len in
  0 ≤ n ≤ Z.of_nat (length (from offset d)) ∧ n < 2 ^ 63 ∧
  take (Z.to_nat n) (from offset d) = take (Z.to_nat len) (drop (Z.to_nat offset) d).
Proof.
  intros Ho Hl Hw Hd. rewrite !uwrap_small, from_drop, length_drop by (unfold urange; lia). cbv zeta.
  rewrite Z.gtb_ltb. destruct (Z.ltb_spec (Z.of_nat (length d)) (offset + len)); (split; [lia|]); (split; [lia|]); [|done].
  rewrite !take_ge; [done|rewrite length_drop; lia..].
Qed.

Lemma read_param_kept ctx : request ctx → silent sendmsg ignoremsg (read_param unpack ctx) (λ r, kept ctx r.1).
Proof.
  intros Hr. unfold read_param. apply (param_then unpack); [done..|]. clear ctx Hr. intros ctx ty Hr.
  destruct (bool_decide _); [|by apply silent_ret, kept_refl].
  apply reading_then; [done|]. clear ctx Hr. intros ctx [offset|] Hr; [|by apply silent_ret, kept_refl].
  apply reading_then; [done|]. intros. by apply silent_ret, kept_refl.
Qed.

Lemma read_replies p ctx ctx1 s offset len d o :
  request ctx → hvalid ctx = true → quiet s → fdata <$> nodes (file_state s) !! p = Some d →
  (rpcmsg_pack_response pack (hmeta ctx) fresh).1 = growing o →
  read_param unpack ctx s = inl (s, (ctx1, Some (offset, len))) →
  0 ≤ offset ≤ Z.of_nat (length d) → 0 ≤ len → offset + len < 2 ^ 64 → Z.of_nat (length d) < 2 ^ 63 →
  replies ctx (rpc_handle_read unpack pack fresh sendmsg junk p ctx)
    (cp_pack_blob pack (take (Z.to_nat len) (drop (Z.to_nat offset) d))) s.
Proof.
  intros Hr Hv Hq Hd Hstart Hparam Ho Hl Hw Hsz.
  destruct (read_param_kept ctx Hr s) as (s0 & r & E0 & _ & (Em & Ev & _)).
  rewrite Hparam in E0. injection E0 as <- <-. cbn [fst] in *.
  destruct (stat_quiet p s d Hq Hd) as (s1 & st & E1 & Hst & H1).
  set (ctx2 := Msg (U := U) (hmeta ctx1) None (hitem ctx1) (hobs ctx1) (hvalid ctx1)).
  assert (answerable (U := U) ctx2) as Ha by apply (validated ctx ctx1 Hr Em).
  destruct (open_quiet ctx2 p s1 (quiet_reads _ _ H1 Hq)) as (s2 & E2 & H2).
  { destruct H1 as (_ & -> & _). destruct (nodes (file_state s) !! p); [by eexists|done]. }
  pose proof (only_reads_trans _ _ _ _ _ H1 H2) as H12.
  destruct (clamped_take offset len d Ho Hl Hw Hsz) as (Hn & Hn2 & Htake). cbv zeta in *. rewrite <-Hst in Hn, Hn2, Htake.
  set (n := if _ >? _ then _ else _) in *.
  destruct (blob_size n (hitem ctx1) o) as (it & ok & E3 & Hit); [unfold urange; lia|].
  assert (node_data s2 p = d) as Hdata.
  { rewrite (only_reads_data _ _ s s2) by done. unfold node_data. by rewrite Hd. }
  destruct (read_loop_run (Datatypes.S (length d)) (Fd p offset) n it (o ++ CPS_Blob :: uint_bytes n) s2)
    as (s3 & E4 & H3); cbn [fd_path fd_pos]; rewrite ?Hdata; [by eapply quiet_reads|lia|lia| |done|].
  { rewrite from_drop, length_drop in * by lia. lia. }
  cbn [fd_path fd_pos] in E4. rewrite Hdata, Htake in E4.
  set (l := take (Z.to_nat len) _) in *.
  assert (n = Z.of_nat (length l)) as Hnl by (rewrite <-Htake, length_take; lia).
  set (q := (cp_pack_container_end pack (growing (o ++ CPS_Blob :: uint_bytes n ++ l))).1).
  destruct (sendmsg_sent q s3) as (s4 & ok2 & E5 & Hsent).
  unfold replies, rpc_handle_read. rewrite (bind_run _ _ _ _ _ Hparam). unfold rpchandler_msg_valid. fold ctx2.
  rewrite Ev, Hv. cbn [negb]. do 2 eexists. split; [rewrite (bind_run _ _ s s4 tt); [done|]|].
  - rewrite (bind_run _ _ _ _ _ E1). cbv zeta. change (default junk (Some st)) with st. fold n. rewrite (bind_run _ _ _ _ _ E2).
    rewrite new_response_some by done. rewrite (bind_run _ _ s2 s2 _ eq_refl).
    change (hmeta ctx2) with (hmeta ctx1) at 1. change (hitem ctx2) with (hitem ctx1). rewrite Em, Hstart, E3. unfold rounds, node_at.
    rewrite (bind_run _ _ s2 s2 (Datatypes.S (length (node_data s2 p))) eq_refl), Hdata, lseek_at by lia.
    rewrite (bind_run _ _ _ _ _ E4). rewrite (bind_run _ _ s3 s4 ok2); [done|].
    cbn [rpchandler_msg_send_response]. unfold rpchandler_msg_send. rewrite (proj2 Ha), <-app_assoc. exact E5.
  - rewrite Hsent. rewrite (sendmsg_state _ _ _ _ E5). destruct H12 as (<- & <- & _), H3 as (<- & <- & _).
    split; [|done]. unfold reply, and_then, q. do 2 f_equal.
    destruct (rpcmsg_pack_response pack (hmeta ctx) fresh) as [p0 ok0]. cbn [fst] in Hstart. subst p0.
    rewrite Hnl, <-(blob_whole l o) by lia. by destruct (cp_pack_blob _ l (growing o)).
Qed.

Lemma open_fine ctx p s :
  outcomes (file_state s) = [] → is_Some (nodes (file_state s) !! p) →
  _open_file pack fresh sendmsg ctx p s = inl (s, Some (Fd p 0)).
Proof.
  intros Ho [n Hn]. unfold _open_file, sys_open, next_outcome, node_at, mbind, eff_bind, gets, mret, eff_ret.
  by rewrite Ho, Hn.
Qed.

Lemma write_fine p pos l s d b at_ mt :
  outcomes (file_state s) = [] → nodes (file_state s) !! p = Some (Node d b at_ mt) →
  sys_write now (Fd p pos) l s =
    inl (set_file_state (with_node p (Node (overwrite pos l d) b at_ now) (file_state s)) s, inl (Z.of_nat (length l))).
Proof.
  intros Ho Hn. unfold sys_write, next_outcome, node_at, update, modify, mbind, eff_bind, gets, mret, eff_ret. cbn [fd_path fd_pos].
  rewrite Ho, Hn. unfold limited. by rewrite Nat2Z.id, firstn_all.
Qed.

(** The message that was read on with the blob of the parameter. *)
Lemma write_replies stack p ctx ctx1 s offset u u' it siz d b at_ mt :
  request ctx → hvalid ctx = true → outcomes (file_state s) = [] → nodes (file_state s) !! p = Some (Node d b at_ mt) →
  write_param unpack ctx s = inl (s, (ctx1, Some offset)) → 0 ≤ offset < 2 ^ 63 →
  hunpack ctx1 = Some u → has (flags (as_Blob (as_ (hitem ctx1)))) CPBI_F_STREAM = false →
  cp_unpack_memcpy unpack u (hitem ctx1) (Some stack) MAXWRITE = (u', it, siz) →
  has (flags (as_Blob (as_ it))) CPBI_F_LAST = true → 0 ≤ siz < 2 ^ 31 → siz ≤ Z.of_nat (length (default [] (buf it))) →
  ∃ s' ctx', rpc_handle_write unpack pack fresh sendmsg MAXWRITE now stack p ctx s = inl (s', ctx') ∧
    sent s' = sent s ++ [(rpcmsg_pack_response_void pack (hmeta ctx) fresh).1] ∧
    nodes (file_state s') =
      <[p := Node (overwrite offset (take (Z.to_nat siz) (default [] (buf it))) d) b at_ now]> (nodes (file_state s)).
Proof.
  intros Hr Hv Hq Hn Hparam Ho Hu Hst Hcpy Hlast Hsiz Hbuf.
  assert (hmeta ctx1 = hmeta ctx ∧ hvalid ctx1 = hvalid ctx) as [Em Ev].
  { assert (silent sendmsg ignoremsg (write_param unpack ctx) (λ r, kept ctx r.1)) as Hk.
    { apply (param_then unpack); [done..|]. clear dependent ctx. intros ctx ty Hr. destruct (bool_decide _); [|by apply silent_ret, kept_refl].
      apply reading_then; [done|]. clear ctx Hr. intros ctx [o|] Hr; [|by apply silent_ret, kept_refl].
      apply reading_then; [done|]. intros. by apply silent_ret, kept_refl. }
    destruct (Hk s) as (s0 & r & E0 & _ & (? & ? & _)). rewrite Hparam in E0. by injection E0 as <- <-. }
  unfold rpc_handle_write. rewrite (bind_run _ _ _ _ _ Hparam). unfold write_blob. rewrite Hst. cbn [andb].
  set (ctx2 := set_read u' it ctx1).
  rewrite (bind_run _ _ s s (ctx2, siz)) by (unfold reading; by rewrite Hu, (bind_run _ _ s s u eq_refl), Hcpy).
  rewrite (proj2 (Z.ltb_ge _ _)) by lia. unfold rpchandler_msg_valid. change (hitem ctx2) with it. change (hvalid ctx2) with (hvalid ctx1).
  cbn [hitem]. rewrite Ev, Hv, Hlast. cbn [negb].
  set (ctx3 := Msg _ _ _ _ _). set (l := take (Z.to_nat siz) _).
  assert (Z.of_nat (length l) = siz) as Hl by (unfold l; rewrite length_take; lia).
  set (s1 := set_file_state (with_node p (Node (overwrite offset l d) b at_ now) (file_state s)) s).
  assert (answerable (U := U) ctx3) as Ha by apply (validated ctx ctx1 Hr Em).
  destruct (send_packed_run fresh sendmsg ignoremsg ctx3 (rpcmsg_pack_response_void pack (hmeta ctx3)) s1 Ha) as (s2 & ok & E & Hsent).
  exists s2, ctx3. split; [|split].
  - rewrite (bind_run _ _ s s2 tt); [done|].
    rewrite (bind_run _ _ s s (Some (Fd p 0))) by (apply open_fine; [done|by eexists]). rewrite lseek_at by done.
    rewrite (bind_run _ _ s s1 (inl (Z.of_nat (length l)))), Hl by (by eapply write_fine).
    rewrite swrap_small, Z.eqb_refl by (unfold srange; lia). by rewrite (bind_run _ _ _ _ _ E).
  - rewrite Hsent. unfold s1. rewrite sent_set_state. change (hmeta ctx3) with (hmeta ctx1). by rewrite Em.
  - unfold send_packed, rpchandler_msg_new in E. rewrite (proj1 Ha), (proj2 Ha) in E. unfold rpchandler_msg_send in E.
    rewrite (proj2 Ha) in E. rewrite (sendmsg_state _ _ _ _ E). unfold s1. by rewrite file_state_set.
Qed.
End contents.

(** What was written is read back, and nothing in front of it or behind it changes. *)
Lemma overwrite_read pos l d :
  0 ≤ pos ≤ Z.of_nat (length d) → l ≠ [] →
  take (length l) (drop (Z.to_nat pos) (overwrite pos l d)) = l ∧
  take (Z.to_nat pos) (overwrite pos l d) = take (Z.to_nat pos) d ∧
  drop (Z.to_nat pos + length l) (overwrite pos l d) = drop (Z.to_nat pos + length l) d.
Proof.
  intros Hp Hl. unfold overwrite. destruct l as [|x l']; [done|]. set (l := x :: l') in *. cbv zeta.
  replace (Z.to_nat pos - length d)%nat with 0%nat by lia. cbn [replicate app].
  assert (length (take (Z.to_nat pos) d) = Z.to_nat pos) as Ht by (rewrite length_take; lia).
  split_and!.
  - rewrite drop_app_length' by done. by rewrite take_app_length.
  - by rewrite take_app_length'.
  - rewrite app_assoc. apply drop_app_length'. rewrite length_app. lia.
Qed.

Lemma crc32_pieces c pieces :
  urange 32 c → bytes (concat pieces) → foldl crc32_update c pieces = crc32_update c (concat pieces).
Proof.
  revert c. induction pieces as [|l pieces IH]; intros c Hc Hb; cbn [foldl concat] in *.
  - unfold crc32_update. simpl. by rewrite land_mask32.
  - apply bytes_app in Hb as [Hl Hb]. rewrite crc32_update_app by done. apply IH; [|done].
    by apply crc32_update_foldl.
Qed.


(** ** Examples *)

(** A client that keeps what it is to send beside the files. *)
Definition node_send (p : ofile) : M (list ofile * fstate) bool := λ s, inl ((s.1 ++ [p], s.2), true).

#[export] Instance node_files : FileState (list ofile * fstate) := {
  file_state := snd; set_file_state f s := (s.1, f); file_state_set f s := eq_refl }.

#[export] Program Instance node_client : ClientSpec node_send (mret tt) := { sent := fst }.
Next Obligation. intros p s. by eexists _, true. Qed.
Next Obligation. intros s. by exists s. Qed.

#[export] Instance node_file_client : FileClient node_send (mret tt).
Proof. split; [done|]. by intros p s s' ok [= <- <-]. Qed.

Definition sample_node : fnode := Node (str "0123456789") 512 0 0.
Definition all_access : Z := 31.

(** One file at a path, with the outcomes of the next calls. *)
Definition sample_state (node : cstr) (a : Z) (l : list outcome) : list ofile * fstate :=
  ([], FState [FileRepr stat_init (FileList node (str "/tmp/log") a)] {[str "/tmp/log" := sample_node]} l).

Definition sample_junk : stat_t := St 0 0 0 0.

(** A request with the parameter that is packed to the bytes. *)
Definition file_request (node name : cstr) (acc : Z) (param : list Z) : rpchandler_msg rfile :=
  received_request node name acc (RFile (param ++ [0xff; 0xff]) false) int_key true.

Definition sample_msg : rpchandler_msg rfile → M (list ofile * fstate) (rpchandler_msg rfile * rpchandler_msg_res) :=
  file_msg cp_unpack_chainpack_func cp_pack_chainpack_func out node_send (assoc file_method_table) (λ l, l) 4 7
    (replicate 4 0) sample_junk (FileCb None None).

(** What is left: the content of the file and the number of answers, or the fault. *)
Definition sample_run (node : cstr) (a : Z) (l : list outcome) (ctx : rpchandler_msg rfile) :
    option (list Z) * nat + fault :=
  match sample_msg ctx (sample_state node a l) with
  | inl (s, _) => inl (fdata <$> nodes s.2 !! str "/tmp/log", length s.1)
  | inr f => inr f
  end.



(** [append] writes over the start of the file, and does so with access for reading. *)
Example append_overwrites :
  sample_run (str "log") all_access [] (file_request (str "log") (str "append") RPCACCESS_READ [0x85; 2; 65; 66]) =
    inl (Some (str "AB23456789"), 1%nat) ∧
  rpcfile_append.(access) = RPCACCESS_WRITE.
Proof. by vm_compute. Qed.

(** Reading from behind the end never ends, and an error while reading blocks on the lock
    of the response that was started. *)
Example read_behind_the_end :
  sample_run (str "log") all_access [] (file_request (str "log") (str "read") RPCACCESS_READ [0x88; 64 + 20; 67; 0xff]) =
    inr Deadlock ∧
  sample_run (str "log") all_access [Fine; Fine; Failed (str "I/O error")]
    (file_request (str "log") (str "read") RPCACCESS_READ [0x88; 66; 67; 0xff]) = inr Deadlock.
Proof. by vm_compute. Qed.

(** The seek to a negative offset fails and the start of the file is written. *)
Example negative_offset_written :
  sample_run (str "log") all_access []
    (file_request (str "log") (str "write") RPCACCESS_WRITE [0x88; 0x82; 0x45; 0x85; 2; 65; 66; 0xff]) =
    inl (Some (str "AB23456789"), 1%nat).
Proof. by vm_compute. Qed.

(** The error of a chain that starts with a piece that is too large is not sent, as the
    message is not validated yet. *)
Example too_large_unsent :
  sample_run (str "log") all_access []
    (file_request (str "log") (str "append") RPCACCESS_WRITE [CPS_BlobChain; 5; 65; 65; 65; 65; 65; 0]) =
    inl (Some (str "0123456789"), 0%nat).
Proof. by vm_compute. Qed.

(** Whether the file at the path is listed at the node. *)
Definition sample_listed (file node name : cstr) : option bool :=
  match file_ls (S := list ofile * fstate) (U := rfile) cp_pack_chainpack_func out
          (LsCtx node (Some name) None None (Strset [] 0) false) (sample_state file all_access []) with
  | inl (_, l) => Some (llocated l)
  | inr _ => None
  end.

(** Only a file at the root is listed. *)
Example nested_not_listed :
  sample_listed (str "log") [] (str "log") = Some true ∧ sample_listed (str "dev/log") (str "dev") (str "log") = Some false.
Proof. by vm_compute. Qed.

(** The size that is [null] in the description of [crc] is refused: the answer is an error
    and not the checksum. *)
Example null_size_refused :
  match rpcfile_unpack_validation_param (S := list ofile * fstate) cp_unpack_chainpack_func cp_pack_chainpack_func out node_send
          (file_request (str "log") (str "crc") RPCACCESS_READ [0x88; 66; 0x80; 0xff]) (sample_state (str "log") all_access []) with
  | inl (s, (_, r)) => (r, length s.1) = (None, 1%nat)
  | inr _ => False
  end.
Proof. by vm_compute. Qed.

(** Without files the list is looked for in a file that is not there. *)
Example destroy_no_files :
  rpchandler_file_destroy (S := list ofile * fstate) ([], FState [] ∅ []) = inr ReadOutside.
Proof. done. Qed.
