(* ===== verification/RpcUrl.v ===== *)
(** * URLs of clients and servers ([libshvrpc/rpcurl.c], [libshvrpc/rpcurl_new.c],
      [include/shv/rpcurl.h])

    The text of a URL is taken apart and put together by uriparser, which is not part of
    the sources: its functions are parameters.  The lookups of schemes and options are
    generated by gperf from the tables in [rpcurl_scheme.gperf] and [rpcurl_query.gperf]. *)

From S2P Require Import Prelude Stdio CpItem Cpon CponSpec Stream Effects Rpcri Rpcaccess RpcLogin Mount.

(** ** Definitions *)

Inductive rpc_protocol :=
  | RPC_PROTOCOL_TCP | RPC_PROTOCOL_TCPS | RPC_PROTOCOL_SSL | RPC_PROTOCOL_SSLS
  | RPC_PROTOCOL_UNIX | RPC_PROTOCOL_UNIXS | RPC_PROTOCOL_TTY | RPC_PROTOCOL_CAN.

#[export] Instance rpc_protocol_eq_dec : EqDecision rpc_protocol.
Proof. solve_decision. Defined.

Definition RPCURL_TCP_PORT : Z := 3755.
Definition RPCURL_TCPS_PORT : Z := 3765.
Definition RPCURL_SSL_PORT : Z := 3756.
Definition RPCURL_SSLS_PORT : Z := 3766.
Definition DEFAULT_PROTOCOL : rpc_protocol := RPC_PROTOCOL_UNIX.
Definition DEFAULT_BAUDRATE : Z := 115200.

(** The first word of the union: [tty.baudrate], [can.local_address] and [ssl.ca] share
    it; it is zero at first. *)
Inductive url_word := WordZero | WordBaudrate (v : Z) | WordAddress (v : Z) | WordCa (s : cstr).

(** The fields from [cert] on are those of [ssl] behind that word. *)
Record rpcurl : Type := Url {
  protocol : rpc_protocol; location : option cstr; port : Z; login : rpclogin;
  word : url_word; cert : option cstr; key : option cstr; crl : option cstr; noverify : bool }.

(** [UriUriA] as far as it is used: the texts of its parts, empty where they are not
    there; the path is without the slash of an absolute path. *)
Record uri : Type := Uri {
  scheme : cstr; userInfo : cstr; hostText : cstr; portText : cstr;
  uri_path : option cstr; absolutePath : bool; query : cstr }.

Definition rpcurl_scheme_table : list (cstr * rpc_protocol) := [
  (str "tcp", RPC_PROTOCOL_TCP);
  (str "tcps", RPC_PROTOCOL_TCPS);
  (str "ssl", RPC_PROTOCOL_SSL);
  (str "ssls", RPC_PROTOCOL_SSLS);
  (str "unix", RPC_PROTOCOL_UNIX);
  (str "unixs", RPC_PROTOCOL_UNIXS);
  (str "serial", RPC_PROTOCOL_TTY);
  (str "tty", RPC_PROTOCOL_TTY);
  (str "can", RPC_PROTOCOL_CAN)].

Inductive rpcurl_query :=
  | QUERY_SHAPASS | QUERY_USER | QUERY_PASSWORD | QUERY_DEVID | QUERY_DEVMOUNT | QUERY_CA | QUERY_CERT | QUERY_KEY
  | QUERY_CRL | QUERY_VERIFY | QUERY_BAUDRATE | QUERY_CADDR.

Definition rpcurl_query_table : list (cstr * rpcurl_query) := [
  (str "shapass", QUERY_SHAPASS);
  (str "user", QUERY_USER);
  (str "password", QUERY_PASSWORD);
  (str "devid", QUERY_DEVID);
  (str "devmount", QUERY_DEVMOUNT);
  (str "ca", QUERY_CA);
  (str "cert", QUERY_CERT);
  (str "key", QUERY_KEY);
  (str "crl", QUERY_CRL);
  (str "verify", QUERY_VERIFY);
  (str "baudrate", QUERY_BAUDRATE);
  (str "caddr", QUERY_CADDR)].

(** Where an error is: what uriparser says, the part of the URL, or the character of the
    port that is not a digit. *)
Inductive errpos := AtUri (n : nat) | AtScheme | BeforePort | AtPath | AtPort | InPort (i : nat) | AtQuery.

(** A URL that is refused, and what has no result. *)
Inductive url_error := ErrorAt (p : errpos) | Faulty (f : fault).

Definition protocol_contains_authority (p : rpc_protocol) : bool :=
  match p with
  | RPC_PROTOCOL_TCP | RPC_PROTOCOL_TCPS | RPC_PROTOCOL_SSL | RPC_PROTOCOL_SSLS | RPC_PROTOCOL_CAN => true
  | _ => false
  end.

Definition protocol_must_contain_path (p : rpc_protocol) : bool :=
  match p with RPC_PROTOCOL_UNIX | RPC_PROTOCOL_UNIXS | RPC_PROTOCOL_TTY => true | _ => false end.

Definition protocol_ssl (p : rpc_protocol) : bool :=
  match p with RPC_PROTOCOL_SSL | RPC_PROTOCOL_SSLS => true | _ => false end.

Definition default_port (p : rpc_protocol) : Z :=
  match p with
  | RPC_PROTOCOL_TCP => RPCURL_TCP_PORT
  | RPC_PROTOCOL_TCPS => RPCURL_TCPS_PORT
  | RPC_PROTOCOL_SSL => RPCURL_SSL_PORT
  | RPC_PROTOCOL_SSLS => RPCURL_SSLS_PORT
  | RPC_PROTOCOL_CAN => 255
  | _ => 0
  end.

(** [strcasecmp] with a text in lower case. *)
Definition tolower (c : Z) : Z := if (65 <=? c) && (c <=? 90) then c + 32 else c.
Definition same_text (s t : cstr) : bool := strcmp (tolower <$> s) t =? 0.

(** *** Setters *)

Definition with_protocol (p : rpc_protocol) (u : rpcurl) : rpcurl :=
  Url p (location u) (port u) (login u) (word u) (cert u) (key u) (crl u) (noverify u).
Definition with_location (l : cstr) (u : rpcurl) : rpcurl :=
  Url (protocol u) (Some l) (port u) (login u) (word u) (cert u) (key u) (crl u) (noverify u).
Definition with_port (p : Z) (u : rpcurl) : rpcurl :=
  Url (protocol u) (location u) p (login u) (word u) (cert u) (key u) (crl u) (noverify u).
Definition with_login (l : rpclogin) (u : rpcurl) : rpcurl :=
  Url (protocol u) (location u) (port u) l (word u) (cert u) (key u) (crl u) (noverify u).
Definition with_word (w : url_word) (u : rpcurl) : rpcurl :=
  Url (protocol u) (location u) (port u) (login u) w (cert u) (key u) (crl u) (noverify u).
Definition with_ssl (c k r : option cstr) (v : bool) (u : rpcurl) : rpcurl :=
  Url (protocol u) (location u) (port u) (login u) (word u) c k r v.
Definition with_user (s : cstr) (u : rpcurl) : rpcurl :=
  let l := login u in
  with_login (Login (Some s) (password l) (login_type l) (idle_timeout l) (device_id l) (device_mountpoint l)) u.
Definition with_password (t : rpclogin_type) (s : cstr) (u : rpcurl) : rpcurl :=
  let l := login u in
  with_login (Login (username l) (Some s) t (idle_timeout l) (device_id l) (device_mountpoint l)) u.
Definition with_device_id (s : cstr) (u : rpcurl) : rpcurl :=
  let l := login u in
  with_login (Login (username l) (password l) (login_type l) (idle_timeout l) (Some s) (device_mountpoint l)) u.
Definition with_mountpoint (s : cstr) (u : rpcurl) : rpcurl :=
  let l := login u in
  with_login (Login (username l) (password l) (login_type l) (idle_timeout l) (device_id l) (Some s)) u.

(** [memset] to zero. *)
Definition url_zero : rpcurl :=
  Url RPC_PROTOCOL_TCP None 0 (Login None None RPC_LOGIN_PLAIN 0 None None) WordZero None None None false.

Section url.
Context (uriParseSingleUriA : cstr → uri + nat) (uriDissectQueryMallocA : cstr → option (list (cstr * option cstr))).
Context (uriComposeQueryA : list (cstr * option cstr) → cstr) (uriToStringA : uri → cstr).
Context (gperf_scheme : cstr → option rpc_protocol) (gperf_query : cstr → option rpcurl_query).

(** *** Parsing *)

(** One option of the query; [strlen] and the like are not to be given [NULL]. *)
Definition query_option (q : rpcurl_query) (value : option cstr) (u : rpcurl) : rpcurl + url_error :=
  let err := inr (ErrorAt AtQuery) in
  let ssl k := if protocol_ssl (protocol u) then err
               else match value with Some v => k v | None => inr (Faulty NullPointer) end in
  let set k := match value with Some v => inl (k v u) | None => inr (Faulty NullPointer) end in
  match q with
  | QUERY_USER => set with_user
  | QUERY_SHAPASS => set (with_password RPC_LOGIN_SHA1)
  | QUERY_PASSWORD => set (with_password RPC_LOGIN_PLAIN)
  | QUERY_DEVID => set with_device_id
  | QUERY_DEVMOUNT => set with_mountpoint
  | QUERY_CA => ssl (λ v, inl (with_word (WordCa v) u))
  | QUERY_CERT => ssl (λ v, inl (with_ssl (Some v) (key u) (crl u) (noverify u) u))
  | QUERY_KEY => ssl (λ v, inl (with_ssl (cert u) (Some v) (crl u) (noverify u) u))
  | QUERY_CRL => ssl (λ v, inl (with_ssl (cert u) (key u) (Some v) (noverify u) u))
  | QUERY_VERIFY =>
      ssl (λ v, if same_text v (str "true") then inl (with_ssl (cert u) (key u) (crl u) false u)
                else if same_text v (str "false") then inl (with_ssl (cert u) (key u) (crl u) true u)
                else err)
  | QUERY_BAUDRATE =>
      (* the list is freed here and once more with the error *)
      if negb (bool_decide (protocol u = RPC_PROTOCOL_TTY)) then inr (Faulty InvalidFree)
      else match value with
           | None => inr (Faulty NullPointer)
           | Some v => let '(n, e) := strtol v in
                       match e with [] => inl (with_word (WordBaudrate (u32 n)) u) | _ => err end
           end
  | QUERY_CADDR =>
      if negb (bool_decide (protocol u = RPC_PROTOCOL_CAN)) then inr (Faulty InvalidFree)
      else match value with
           | None => inr (Faulty NullPointer)
           | Some v =>
               let '(n, e) := strtol v in
               match e with
               | [] => if (i32 n <? 0) || (i32 n >? 256) then err else inl (with_word (WordAddress (u8 (i32 n))) u)
               | _ => err
               end
           end
  end.

Fixpoint query_options (l : list (cstr * option cstr)) (u : rpcurl) : rpcurl + url_error :=
  match l with
  | [] => inl u
  | (k, v) :: l =>
      match gperf_query k with
      | None => inr (ErrorAt AtQuery)
      | Some q => match query_option q v u with inl u => query_options l u | inr e => inr e end
      end
  end.

Definition parse_query (v : uri) (u : rpcurl) : rpcurl + url_error :=
  match query v with
  | [] => inl u
  | _ => match uriDissectQueryMallocA (query v) with Some l => query_options l u | None => inr (ErrorAt AtQuery) end
  end.

(** The digits of the port, the last one first: [i] is the number of those in front. *)
Fixpoint parse_port (l : cstr) (base acc : Z) : Z + nat :=
  match l with
  | [] => inl acc
  | c :: l =>
      if (c <? 48) || (57 <? c) then inr (length l)
      else parse_port l (i32 (base * 10)) (i32 (acc + i32 ((c - 48) * base)))
  end.

(** The parts of the URL before the query, in the order of the code. *)
Definition parse_scheme (v : uri) (u : rpcurl) : rpcurl + url_error :=
  match scheme v with
  | [] => inl u
  | s => match gperf_scheme s with Some p => inl (with_protocol p u) | None => inr (ErrorAt AtScheme) end
  end.

Definition url_defaults (u : rpcurl) : rpcurl :=
  let u := with_port (default_port (protocol u)) u in
  let u := if decide (protocol u = RPC_PROTOCOL_TTY) then with_word (WordBaudrate DEFAULT_BAUDRATE) u else u in
  if decide (protocol u = RPC_PROTOCOL_CAN) then with_word (WordAddress 255) u else u.

Definition parse_user (v : uri) (u : rpcurl) : rpcurl :=
  match userInfo v with [] => u | s => with_user s u end.

Definition parse_host (v : uri) (u : rpcurl) : rpcurl + url_error :=
  match hostText v with
  | [] => inl u
  | s => if protocol_contains_authority (protocol u) then inl (with_location s u) else inr (ErrorAt BeforePort)
  end.

Definition parse_path (v : uri) (u : rpcurl) : rpcurl + url_error :=
  match uri_path v with
  | None | Some [] => inl u
  | Some p =>
      if protocol_must_contain_path (protocol u) then
        inl (with_location ((if absolutePath v then [SLASH] else []) ++ p) u)
      else inr (ErrorAt AtPath)
  end.

Definition parse_port_text (v : uri) (u : rpcurl) : rpcurl + url_error :=
  match portText v with
  | [] => inl u
  | s =>
      if protocol_contains_authority (protocol u) then
        match parse_port (rev s) 1 0 with inl n => inl (with_port n u) | inr i => inr (ErrorAt (InPort i)) end
      else inr (ErrorAt AtPort)
  end.

Definition and_parse (r : rpcurl + url_error) (k : rpcurl → rpcurl + url_error) : rpcurl + url_error :=
  match r with inl u => k u | inr e => inr e end.

Definition parse_uri (v : uri) : rpcurl + url_error :=
  and_parse (parse_scheme v (with_protocol DEFAULT_PROTOCOL url_zero)) (λ u,
  and_parse (parse_host v (parse_user v (url_defaults u))) (λ u,
  and_parse (parse_path v u) (λ u,
  and_parse (parse_port_text v u) (parse_query v)))).

Definition rpcurl_parse (url : cstr) : rpcurl + url_error :=
  match uriParseSingleUriA url with inr n => inr (ErrorAt (AtUri n)) | inl v => parse_uri v end.

(** *** Printing *)

Definition protocol_str (p : rpc_protocol) : cstr :=
  match p with
  | RPC_PROTOCOL_TCP => str "tcp"
  | RPC_PROTOCOL_TCPS => str "tcps"
  | RPC_PROTOCOL_SSL => str "ssl"
  | RPC_PROTOCOL_SSLS => str "ssls"
  | RPC_PROTOCOL_UNIX => str "unix"
  | RPC_PROTOCOL_UNIXS => str "unixs"
  | RPC_PROTOCOL_TTY => str "tty"
  | RPC_PROTOCOL_CAN => str "can"
  end.

Definition AT : Z := 64.
Definition has_at (s : cstr) : bool := match strchr s AT with Some _ => true | None => false end.

(** [QUERY_ADD] of what is there. *)
Definition query_add (k : cstr) (v : option cstr) : list (cstr * option cstr) :=
  match v with Some v => [(k, Some v)] | None => [] end.

Definition login_query (l : rpclogin) : list (cstr * option cstr) :=
  query_add (str "user") (match username l with Some s => if has_at s then Some s else None | None => None end) ++
  query_add (match login_type l with RPC_LOGIN_PLAIN => str "password" | RPC_LOGIN_SHA1 => str "shapass" end) (password l) ++
  query_add (str "devid") (device_id l) ++
  query_add (str "devmount") (device_mountpoint l).

(** [junk] is what the word reads as when something else was written to it. *)
Definition option_query (junk : Z) (u : rpcurl) : list (cstr * option cstr) :=
  (if protocol_ssl (protocol u) then
     query_add (str "ca") (match word u with WordCa s => Some s | _ => None end) ++
     query_add (str "cert") (cert u) ++ query_add (str "key") (key u) ++ query_add (str "crl") (crl u) ++
     query_add (str "verify") (if noverify u then Some (str "false") else None)
   else []) ++
  (if decide (protocol u = RPC_PROTOCOL_TTY) then
     query_add (str "baudrate") (Some (signed (i32 (match word u with WordBaudrate b => b | WordZero => 0 | _ => junk end))))
   else []) ++
  (if decide (protocol u = RPC_PROTOCOL_CAN) then
     let a := match word u with WordAddress a => a | WordZero => 0 | _ => u8 junk end in
     if a >? 127 then query_add (str "caddr") (Some (signed a)) else []
   else []).

Definition url_query (junk : Z) (u : rpcurl) : list (cstr * option cstr) := login_query (login u) ++ option_query junk u.

(** [uri_range] follows the location. *)
Definition url_uri (junk : Z) (u : rpcurl) : option uri :=
  loc ← location u;
  let auth := protocol_contains_authority (protocol u) in
  let q := url_query junk u in
  Some (Uri (protocol_str (protocol u))
    (match username (login u) with Some s => if has_at s then [] else s | None => [] end)
    (if auth then loc else [])
    (if auth && negb (port u =? default_port (protocol u)) then signed (port u) else [])
    (if auth then None else Some loc) false
    (match q with [] => [] | _ => uriComposeQueryA q end)).

(** The text for a buffer of the size, nothing if it does not fit, and its length. *)
Definition rpcurl_str (junk : Z) (u : rpcurl) (size : Z) : option (cstr * Z) :=
  v ← url_uri junk u;
  let s := uriToStringA v in
  Some (if strlen s <? size then s else [], strlen s).
End url.

(** *** Clients and servers *)

(** The transport and what it is created with; [None] is [abort]. *)
Inductive transport :=
  | TcpTransport (location : option cstr) (port : Z) (proto : rpcstream_proto)
  | UnixTransport (location : option cstr) (proto : rpcstream_proto)
  | TtyTransport (location : option cstr) (baudrate : Z) (proto : rpcstream_proto)
  | CanTransport (location : option cstr) (port : Z) (address : option Z).

Definition baudrate (junk : Z) (u : rpcurl) : Z :=
  match word u with WordBaudrate b => b | WordZero => 0 | _ => junk end.

Definition rpcurl_new_client (junk : Z) (u : rpcurl) : option transport :=
  match protocol u with
  | RPC_PROTOCOL_TCP => Some (TcpTransport (location u) (port u) RPCSTREAM_P_BLOCK)
  | RPC_PROTOCOL_TCPS => Some (TcpTransport (location u) (port u) RPCSTREAM_P_SERIAL)
  | RPC_PROTOCOL_UNIX => Some (UnixTransport (location u) RPCSTREAM_P_BLOCK)
  | RPC_PROTOCOL_UNIXS => Some (UnixTransport (location u) RPCSTREAM_P_SERIAL)
  | RPC_PROTOCOL_TTY => Some (TtyTransport (location u) (baudrate junk u) RPCSTREAM_P_SERIAL_CRC)
  | RPC_PROTOCOL_CAN =>
      Some (CanTransport (location u) (port u)
        (Some (match word u with WordAddress a => a | WordZero => 0 | _ => u8 junk end)))
  | _ => None
  end.

Definition rpcurl_new_server (junk : Z) (u : rpcurl) : option transport :=
  match protocol u with
  | RPC_PROTOCOL_TCP => Some (TcpTransport (location u) (port u) RPCSTREAM_P_BLOCK)
  | RPC_PROTOCOL_TCPS => Some (TcpTransport (location u) (port u) RPCSTREAM_P_SERIAL)
  | RPC_PROTOCOL_UNIX => Some (UnixTransport (location u) RPCSTREAM_P_BLOCK)
  | RPC_PROTOCOL_UNIXS => Some (UnixTransport (location u) RPCSTREAM_P_SERIAL)
  | RPC_PROTOCOL_TTY => Some (TtyTransport (location u) (baudrate junk u) RPCSTREAM_P_SERIAL_CRC)
  | RPC_PROTOCOL_CAN => Some (CanTransport (location u) (port u) None)
  | _ => None
  end.

(** ** Numbers *)

Lemma strtol_signed v : - 2 ^ 63 < v < 2 ^ 63 → strtol (signed v) = (v, []).
Proof. intros Hv. rewrite <-(app_nil_r (signed v)). by apply strtol_number. Qed.

(** The value of digits from the last one on. *)
Fixpoint rev_value (l : cstr) : Z := match l with [] => 0 | c :: l => (c - 48) + 10 * rev_value l end.

Lemma rev_value_rev d : rev_value (rev d) = dec_value 0 d.
Proof.
  assert (∀ l c, rev_value (l ++ [c]) = rev_value l + (c - 48) * 10 ^ Z.of_nat (length l)) as Happ.
  { induction l as [|x l IH]; intros c; cbn [app rev_value length]; [simpl; lia|].
    rewrite IH, Nat2Z.inj_succ, Z.pow_succ_r by lia. lia. }
  assert (∀ d v, dec_value v d = v * 10 ^ Z.of_nat (length d) + rev_value (rev d)) as H.
  2:{ by rewrite H. }
  induction d0 as [|c d0 IH]; intros v; unfold dec_value in *; cbn [foldl rev rev_value length]; [simpl; lia|].
  rewrite IH, Happ, length_rev, Nat2Z.inj_succ, Z.pow_succ_r by lia. lia.
Qed.

Lemma parse_port_value l b a :
  Forall CponSpec.is_digit l →
  ∃ n, parse_port l b a = inl n ∧ u32 n = u32 (a + b * rev_value l) ∧ (srange 32 a → srange 32 n).
Proof.
  intros Hl. revert b a. induction Hl as [|c l Hc Hl IH]; intros b a; cbn [parse_port rev_value].
  { exists a. split_and!; [done| |done]. f_equal. lia. }
  unfold CponSpec.is_digit in Hc. rewrite (proj2 (Z.ltb_ge c 48)), (proj2 (Z.ltb_ge 57 c)) by lia. cbn [orb].
  destruct (IH (i32 (b * 10)) (i32 (a + i32 ((c - 48) * b)))) as (n & E & Hn & Hr). exists n. split; [done|].
  split; [|intros _; apply Hr, swrap_range; lia]. rewrite Hn.
  assert (∀ x y, u32 (i32 x + y) = u32 (x + y)) as Hl1.
  { intros x y. unfold uwrap. rewrite <-(Zplus_mod_idemp_l (i32 x)), <-(Zplus_mod_idemp_l x).
    fold (uwrap 32 (i32 x)). fold (uwrap 32 x). by rewrite uwrap_swrap by lia. }
  assert (∀ x y z, u32 (x + i32 y * z) = u32 (x + y * z)) as Hl2.
  { intros x y z. unfold uwrap. rewrite <-(Zplus_mod_idemp_r (i32 y * z)), <-(Zplus_mod_idemp_r (y * z)).
    rewrite <-(Zmult_mod_idemp_l (i32 y)), <-(Zmult_mod_idemp_l y).
    fold (uwrap 32 (i32 y)). fold (uwrap 32 y). by rewrite uwrap_swrap by lia. }
  rewrite Hl2, Hl1. rewrite (Z.add_comm a (i32 _)), <-Z.add_assoc, Hl1. f_equal. lia.
Qed.

Lemma parse_port_signed p : 0 ≤ p < 2 ^ 31 → parse_port (rev (signed p)) 1 0 = inl p.
Proof.
  intros Hp. unfold signed. rewrite (proj2 (Z.ltb_ge p 0)), Z.abs_eq by lia. cbn [app].
  destruct (digits_spec p) as (Hd & Hval & _); [lia|].
  destruct (parse_port_value (rev (CponSpec.digits p)) 1 0) as (n & E & Hn & Hr); [by apply Forall_rev|].
  rewrite E. f_equal. rewrite rev_value_rev, Hval in Hn. specialize (Hr ltac:(unfold srange; lia)).
  rewrite Z.mul_1_l, Z.add_0_l in Hn. rewrite <-(swrap_small 32 n), <-(swrap_small 32 p) by (done || unfold srange; lia).
  unfold swrap, uwrap in *. 
  rewrite <-(Zplus_mod_idemp_l n), <-(Zplus_mod_idemp_l p), Hn. done.
Qed.

(** ** Printed and parsed *)

(** What uriparser reads from the text of a URI: the slash in front of a path is not a
    part of it, and there is no user without a host. *)
Definition reread (v : uri) : uri :=
  Uri (scheme v) (match hostText v with [] => [] | _ => userInfo v end) (hostText v) (portText v)
    (match uri_path v with Some (c :: p) => if c =? SLASH then Some p else Some (c :: p) | p => p end)
    (match uri_path v with Some (c :: p) => c =? SLASH | _ => false end) (query v).

(** URLs whose text has all of their fields: a user without a host is in the query, the
    address of a CAN client is one that is printed, and there are no SSL options. *)
Record url_ok (u : rpcurl) : Prop := {
  ok_location : ∃ loc, location u = Some loc ∧ loc ≠ [] ∧ loc ≠ [SLASH];
  ok_port : if protocol_contains_authority (protocol u) then 0 ≤ port u < 2 ^ 31 else port u = 0;
  ok_user : ∀ s, username (login u) = Some s →
    has_at s = true ∨ (s ≠ [] ∧ protocol_contains_authority (protocol u) = true);
  ok_password : password (login u) = None → login_type (login u) = RPC_LOGIN_PLAIN;
  ok_idle : idle_timeout (login u) = 0;
  ok_word : match protocol u with
            | RPC_PROTOCOL_TTY => ∃ b, word u = WordBaudrate b ∧ urange 32 b
            | RPC_PROTOCOL_CAN => ∃ a, word u = WordAddress a ∧ 127 < a < 256
            | _ => word u = WordZero
            end;
  ok_ssl : cert u = None ∧ key u = None ∧ crl u = None ∧ noverify u = false }.

Section roundtrip.
Context (uriParseSingleUriA : cstr → uri + nat) (uriDissectQueryMallocA : cstr → option (list (cstr * option cstr))).
Context (uriComposeQueryA : list (cstr * option cstr) → cstr) (uriToStringA : uri → cstr).
Context (gperf_scheme : cstr → option rpc_protocol) `{!Keywords rpcurl_scheme_table gperf_scheme}.
Context (gperf_query : cstr → option rpcurl_query) `{!Keywords rpcurl_query_table gperf_query}.
Notation read_options := (query_options gperf_query).

Lemma query_options_add k q v l u u' :
  assoc rpcurl_query_table k = Some q → (∀ s, v = Some s → query_option q (Some s) u = inl u') → (v = None → u = u') →
  read_options (query_add k v ++ l) u = read_options l u'.
Proof.
  intros Hk Hs Hn. destruct v as [s|]; [|by rewrite (Hn eq_refl)]. cbn [query_add app query_options].
  by rewrite keyword, Hk, (Hs s eq_refl).
Qed.

Lemma login_query_read l rest u :
  (password l = None → login_type l = RPC_LOGIN_PLAIN) → idle_timeout l = 0 →
  login u = Login (match username l with Some s => if has_at s then None else Some s | None => None end)
              None RPC_LOGIN_PLAIN 0 None None →
  read_options (login_query l ++ rest) u = read_options rest (with_login l u).
Proof.
  destruct l as [us pw ty idle dev mnt], u as [pr loc po lo wo ce ke cr nv]. cbn [password login_type idle_timeout username login].
  intros Hp -> ->. unfold login_query. cbn [password login_type idle_timeout username device_id device_mountpoint].
  rewrite <-!app_assoc. set (url l := Url pr loc po l wo ce ke cr nv).
  rewrite (query_options_add _ QUERY_USER _ _ _ (url (Login us None RPC_LOGIN_PLAIN 0 None None))); [|done|..].
  2:{ intros s. destruct us as [s'|]; [|done]. destruct (has_at s'); [|done]. by intros [= <-]. }
  2:{ destruct us as [s'|]; [|done]. by destruct (has_at s'). }
  rewrite (query_options_add _ (match ty with RPC_LOGIN_PLAIN => QUERY_PASSWORD | RPC_LOGIN_SHA1 => QUERY_SHAPASS end) _ _ _
    (url (Login us pw ty 0 None None))); [|by destruct ty|intros s ->; by destruct ty|intros ->; by rewrite (Hp eq_refl)].
  rewrite (query_options_add _ QUERY_DEVID _ _ _ (url (Login us pw ty 0 dev None))); [|done|by intros s ->|by intros ->].
  by rewrite (query_options_add _ QUERY_DEVMOUNT _ _ _ (url (Login us pw ty 0 dev mnt))); [|done|intros s ->|intros ->].
Qed.

Lemma option_query_read junk u v :
  url_ok u → protocol v = protocol u → word v = word (url_defaults (with_protocol (protocol u) url_zero)) →
  read_options (option_query junk u) v = inl (with_word (word u) v).
Proof.
  intros [_ _ _ _ _ Hw (Hc & Hk & Hr & Hn)] Hp Hv. unfold option_query. rewrite Hc, Hk, Hr, Hn.
  destruct v as [pr loc po lo wo ce ke cr nv], u as [pr' loc' po' lo' wo' ce' ke' cr' nv']. simpl in *. subst pr' wo.
  assert (∀ k q s u', assoc rpcurl_query_table k = Some q → query_option q (Some s) (Url pr loc po lo
      (word (url_defaults (with_protocol pr url_zero))) ce ke cr nv) = inl u' →
    read_options [(k, Some s)] (Url pr loc po lo (word (url_defaults (with_protocol pr url_zero))) ce ke cr nv) = inl u') as Hone.
  { intros k q s u' Hkq Hq. cbn [query_options]. by rewrite keyword, Hkq, Hq. }
  destruct pr; try (subst wo'; done).
  - destruct Hw as (b & -> & Hb). cbn [protocol_ssl app]. apply (Hone _ QUERY_BAUDRATE); [done|]. cbn [query_option protocol].
    rewrite bool_decide_eq_true_2 by done. cbn [negb]. pose proof (swrap_range 32 b ltac:(lia)) as Hr32. unfold srange in Hr32.
    rewrite strtol_signed by lia. by rewrite uwrap_swrap, uwrap_small.
  - destruct Hw as (a & -> & Ha). cbn [protocol_ssl app]. simpl decide. rewrite (proj2 (Z.gtb_lt a 127)) by lia. apply (Hone _ QUERY_CADDR); [done|]. cbn [query_option protocol].
    rewrite bool_decide_eq_true_2 by done. cbn [negb]. rewrite strtol_signed by lia.
    rewrite swrap_small by (unfold srange; lia). rewrite (proj2 (Z.ltb_ge a 0)) by lia.
    assert (a >? 256 = false) as -> by lia. cbn [orb]. by rewrite uwrap_small by (unfold urange; lia).
Qed.

(** The URL before its query. *)
Definition parsed_parts (u : rpcurl) (loc : cstr) : rpcurl :=
  Url (protocol u) (Some loc) (port u)
    (Login (match username (login u) with Some s => if has_at s then None else Some s | None => None end)
      None RPC_LOGIN_PLAIN 0 None None)
    (word (url_defaults (with_protocol (protocol u) url_zero))) None None None false.

Lemma parse_query_options v junk u pre :
  query v = match url_query junk u with [] => [] | _ => uriComposeQueryA (url_query junk u) end →
  (url_query junk u ≠ [] → uriComposeQueryA (url_query junk u) ≠ [] ∧
     uriDissectQueryMallocA (uriComposeQueryA (url_query junk u)) = Some (url_query junk u)) →
  parse_query uriDissectQueryMallocA gperf_query v pre = read_options (url_query junk u) pre.
Proof.
  intros Hv Hq. unfold parse_query. rewrite Hv. destruct (url_query junk u) as [|e q]; [done|].
  destruct (Hq ltac:(done)) as [Hne ->]. by destruct (uriComposeQueryA (e :: q)).
Qed.

Lemma query_restores junk u loc :
  url_ok u → location u = Some loc → read_options (url_query junk u) (parsed_parts u loc) = inl u.
Proof.
  intros Hok Hloc. unfold url_query. rewrite login_query_read by (done || apply Hok).
  rewrite option_query_read by done. destruct Hok as [_ _ _ _ _ _ (Hc & Hk & Hr & Hn)].
  destruct u as [pr lo po l wo ce ke cr nv]. simpl in *. by subst.
Qed.

Lemma parse_scheme_str v p u :
  scheme v = protocol_str p → parse_scheme gperf_scheme v u = inl (with_protocol p u).
Proof.
  intros Hv. unfold parse_scheme. rewrite Hv. destruct p; simpl; by rewrite (keyword (table := rpcurl_scheme_table)).
Qed.

Lemma uint_digits_not_nil n u : uint_digits (S n) u [] ≠ [].
Proof.
  cbn [uint_digits]. destruct (_ =? 0); [done|]. rewrite uint_digits_app. by destruct (uint_digits n (u / 10) []).
Qed.

Lemma signed_not_nil x : signed x ≠ [].
Proof.
  unfold signed, CponSpec.digits. pose proof (uint_digits_not_nil 38 (Z.abs x)) as H.
  by destruct (x <? 0), (uint_digits 39 (Z.abs x) []).
Qed.

Lemma parse_port_read v u n :
  portText v = (if protocol_contains_authority (protocol u) && negb (n =? default_port (protocol u)) then signed n else []) →
  (if protocol_contains_authority (protocol u) then 0 ≤ n < 2 ^ 31 else n = 0) → port u = default_port (protocol u) →
  parse_port_text v u = inl (with_port n u).
Proof.
  intros Hv Hn Hu. unfold parse_port_text. rewrite Hv. destruct (protocol_contains_authority (protocol u)) eqn:Ea; cbn [andb].
  - destruct (Z.eqb_spec n (default_port (protocol u))) as [Heq|Hne]; cbn [negb].
    + rewrite Heq, <-Hu. by destruct u.
    + pose proof (signed_not_nil n) as Hs. pose proof (parse_port_signed n Hn) as Hp.
      destruct (signed n) as [|x d]; [done|]. by rewrite Hp.
  - subst n. destruct u as [[] ? ? ? ? ? ? ? ?]; try done; simpl in *; by subst.
Qed.

(** The place is the host or the path. *)
Lemma parse_place v u loc :
  loc ≠ [] → loc ≠ [SLASH] →
  hostText v = (if protocol_contains_authority (protocol u) then loc else []) →
  uri_path v = (if protocol_contains_authority (protocol u) then None else Some loc) →
  and_parse (parse_host (reread v) u) (parse_path (reread v)) = inl (with_location loc u).
Proof.
  intros Hne Hs Hh Hp. destruct loc as [|c loc]; [done|]. unfold parse_host, parse_path, reread. simpl.
  rewrite Hh, Hp. destruct (protocol_contains_authority (protocol u)) eqn:Ea; [done|]. cbn [and_parse].
  assert (protocol_must_contain_path (protocol u) = true) as Hm by (by destruct (protocol u)).
  destruct (Z.eqb_spec c SLASH) as [->|Hc]; [|by rewrite Hm]. destruct loc as [|x loc]; [done|]. by rewrite Hm.
Qed.

Lemma parts_parsed junk u v loc :
  url_ok u → url_uri uriComposeQueryA junk u = Some v → location u = Some loc →
  parse_uri uriDissectQueryMallocA gperf_scheme gperf_query (reread v) =
    parse_query uriDissectQueryMallocA gperf_query (reread v) (parsed_parts u loc).
Proof.
  intros [(loc' & Hl & Hne & Hslash) Hport Huser _ _ _ _] Hv Hloc. rewrite Hloc in Hl. injection Hl as <-.
  unfold url_uri in Hv. rewrite Hloc in Hv. cbn [mbind option_bind] in Hv. injection Hv as Hv.
  unfold parse_uri. rewrite (parse_scheme_str _ (protocol u)) by (by rewrite <-Hv). cbn [and_parse].
  set (u0 := url_defaults _).
  assert (parse_user (reread v) u0 = Url (protocol u) None (default_port (protocol u))
    (Login (match username (login u) with Some s => if has_at s then None else Some s | None => None end) None RPC_LOGIN_PLAIN 0 None None)
    (word (url_defaults (with_protocol (protocol u) url_zero))) None None None false) as ->.
  { assert (u0 = Url (protocol u) None (default_port (protocol u)) (Login None None RPC_LOGIN_PLAIN 0 None None)
      (word (url_defaults (with_protocol (protocol u) url_zero))) None None None false) as -> by (unfold u0; by destruct (protocol u)).
    unfold parse_user, reread. rewrite <-Hv. cbn [userInfo hostText].
    destruct (username (login u)) as [s|]; [|by destruct (if protocol_contains_authority (protocol u) then loc else [])].
    destruct (Huser s eq_refl) as [->|[Hs Ha]]; [by destruct (if protocol_contains_authority (protocol u) then loc else [])|].
    rewrite Ha. destruct loc; [done|]. destruct (has_at s); [done|]. by destruct s. }
  set (u1 := Url _ _ _ _ _ _ _ _ _).
  pose proof (parse_place v u1 loc Hne Hslash ltac:(by rewrite <-Hv) ltac:(by rewrite <-Hv)) as Hplace.
  destruct (parse_host (reread v) u1) as [u2|e]; [|done]. cbn [and_parse] in *. rewrite Hplace. cbn [and_parse].
  rewrite (parse_port_read _ _ (port u)); [done|by rewrite <-Hv|done..].
Qed.
End roundtrip.

(** C38: a URL that is printed and parsed again is the same, where uriparser reads what it
    printed.  It has a location, no SSL options and no idle timeout, its user has an at
    sign or the protocol has a host, and the address of a CAN client is above 127: the
    text does not have the other ones. *)
Theorem url_roundtrip uriParseSingleUriA uriDissectQueryMallocA uriComposeQueryA uriToStringA
    gperf_scheme `{!Keywords rpcurl_scheme_table gperf_scheme} gperf_query `{!Keywords rpcurl_query_table gperf_query}
    junk u v size :
  url_ok u → url_uri uriComposeQueryA junk u = Some v → strlen (uriToStringA v) < size →
  uriParseSingleUriA (uriToStringA v) = inl (reread v) →
  (url_query junk u ≠ [] → uriComposeQueryA (url_query junk u) ≠ [] ∧
     uriDissectQueryMallocA (uriComposeQueryA (url_query junk u)) = Some (url_query junk u)) →
  ∃ s, rpcurl_str uriComposeQueryA uriToStringA junk u size = Some (s, strlen s) ∧
    rpcurl_parse uriParseSingleUriA uriDissectQueryMallocA gperf_scheme gperf_query s = inl u.
Proof.
  intros Hok Hv Hsize Hparse Hq. exists (uriToStringA v). unfold rpcurl_str. rewrite Hv. cbn [mbind option_bind].
  rewrite (proj2 (Z.ltb_lt _ _)) by done. split; [done|]. unfold rpcurl_parse. rewrite Hparse.
  destruct (ok_location _ Hok) as (loc & Hloc & _). erewrite parts_parsed by done.
  erewrite parse_query_options; [by apply query_restores| |exact Hq].
  unfold url_uri in Hv. rewrite Hloc in Hv. cbn [mbind option_bind] in Hv. injection Hv as <-. done.
Qed.

(** ** Examples

    A uriparser for texts without escapes. *)

Definition split_at (c : Z) (s : cstr) : cstr * option cstr :=
  match strchr s c with Some t => (take (length s - length t) s, Some (drop 1 t)) | None => (s, None) end.

Definition plain_parse (url : cstr) : uri + nat :=
  let '(s, q) := split_at 63 url in
  let q := default [] q in
  let '(a, b) := split_at 58 s in
  match b with
  | None => inl (Uri [] [] [] [] (Some (if bool_decide (head a = Some SLASH) then drop 1 a else a)) (bool_decide (head a = Some SLASH)) q)
  | Some r =>
      if bool_decide (take 2 r = str "//") then
        let '(us, h) := split_at AT (drop 2 r) in
        let '(us, h) := match h with Some h => (us, h) | None => ([], us) end in
        let '(h, p) := split_at 58 h in
        inl (Uri a us h (default [] p) None false q)
      else if bool_decide (head r = Some SLASH) then inl (Uri a [] [] [] (Some (drop 1 r)) true q)
      else inl (Uri a [] [] [] (Some r) false q)
  end.

Definition plain_print (v : uri) : cstr :=
  scheme v ++ str ":" ++
  (match hostText v with
   | [] => []
   | h => str "//" ++ (match userInfo v with [] => [] | us => us ++ [AT] end) ++ h ++
          (match portText v with [] => [] | p => str ":" ++ p end)
   end) ++ default [] (uri_path v) ++ (match query v with [] => [] | q => str "?" ++ q end).

Definition print_option (p : cstr * option cstr) : cstr := p.1 ++ match p.2 with Some v => str "=" ++ v | None => [] end.

Fixpoint plain_compose (l : list (cstr * option cstr)) : cstr :=
  match l with [] => [] | [p] => print_option p | p :: l => print_option p ++ str "&" ++ plain_compose l end.

(** [n] is more than there are options. *)
Fixpoint plain_split (n : nat) (s : cstr) : list (cstr * option cstr) :=
  match n with
  | O => []
  | S n =>
      let '(a, r) := split_at 38 s in
      split_at 61 a :: match r with Some r => plain_split n r | None => [] end
  end.

Definition plain_dissect (s : cstr) : option (list (cstr * option cstr)) := Some (plain_split 20 s).

Definition plain_url : cstr → rpcurl + url_error :=
  rpcurl_parse plain_parse plain_dissect (assoc rpcurl_scheme_table) (assoc rpcurl_query_table).
Definition plain_str (u : rpcurl) : option cstr := fst <$> rpcurl_str plain_compose plain_print 0 u 100.

Definition sample_url : rpcurl :=
  Url RPC_PROTOCOL_CAN (Some (str "vcan")) 40 (Login (Some (str "someone")) (Some (str "test")) RPC_LOGIN_PLAIN 0 None (Some (str "a/b")))
    (WordAddress 200) None None None false.

Lemma url_roundtrip_witness :
  (∃ s, rpcurl_str plain_compose plain_print 0 sample_url 100 = Some (s, strlen s) ∧ plain_url s = inl sample_url) ∧
  plain_str sample_url = Some (str "can://someone@vcan:40?password=test&devmount=a/b&caddr=200").
Proof.
  split; [|by vm_compute].
  eapply (url_roundtrip plain_parse plain_dissect plain_compose plain_print (assoc rpcurl_scheme_table) (assoc rpcurl_query_table));
    [|by vm_compute|by vm_compute|by vm_compute|intros _; by vm_compute].
  split; [by exists (str "vcan")|simpl; lia|intros s [= <-]; by right|done|done|by exists 200|done].
Defined.

(** The options of SSL are refused for the protocols they are for and taken for others. *)
Example ssl_options_inverted :
  plain_url (str "ssl://localhost?ca=ca.pem") = inr (ErrorAt AtQuery) ∧
  (word <$> match plain_url (str "tcp://localhost?ca=ca.pem") with inl u => Some u | inr _ => None end) =
    Some (WordCa (str "ca.pem")).
Proof. by vm_compute. Qed.

(** For a serial line they overwrite the baudrate. *)
Example ssl_option_overwrites :
  (word <$> match plain_url (str "tty:/dev/ttyS0?baudrate=9600&ca=x") with inl u => Some u | inr _ => None end) =
    Some (WordCa (str "x")).
Proof. by vm_compute. Qed.

(** An option without a value is followed to [NULL], and one of another protocol has the
    list of options freed twice. *)
Example option_faults :
  plain_url (str "tcp://localhost?user") = inr (Faulty NullPointer) ∧
  plain_url (str "tcp://localhost?baudrate=9600") = inr (Faulty InvalidFree) ∧
  plain_url (str "tcp://localhost?caddr=3") = inr (Faulty InvalidFree).
Proof. by vm_compute. Qed.

(** The address 256 is accepted and is zero, and a static address is not printed. *)
Example can_addresses :
  (word <$> match plain_url (str "can://vcan?caddr=256") with inl u => Some u | inr _ => None end) = Some (WordAddress 0) ∧
  plain_str (with_word (WordAddress 80) sample_url) = Some (str "can://someone@vcan:40?password=test&devmount=a/b").
Proof. by vm_compute. Qed.

(** The name of a user without an at sign is lost without a host. *)
Example unix_user_lost :
  plain_str (with_user (str "me") (with_location (str "/run/s") (with_protocol RPC_PROTOCOL_UNIX url_zero))) =
    Some (str "unix:/run/s").
Proof. by vm_compute. Qed.

(** The empty URL has no location, and it cannot be printed. *)
Example empty_url_unprinted :
  match plain_url [] with inl u => plain_str u = None | inr _ => False end.
Proof. by vm_compute. Qed.

(** URLs of SSL are parsed, but no client or server is created for them. *)
Example ssl_aborts :
  match plain_url (str "ssl://localhost") with
  | inl u => rpcurl_new_client 0 u = None ∧ rpcurl_new_server 0 u = None
  | inr _ => False
  end.
Proof. by vm_compute. Qed.
