(* ===== verification/Can.v ===== *)
(** * The CAN transport ([libshvrpc/rpctransport/can.c])

    Messages are sent in frames of CAN FD that are numbered; the first one is repeated
    until it is acknowledged.  Frames are received by a thread of their own, which hands
    them over to the client one at a time: who has the token may use the buffer.  The
    variant for Linux is modelled, of a client that is registered; what the clock and the
    other side do are arguments.  The sender and the steps of the receiver, with their
    invariant, make up [can_transfer]. *)

From stdpp Require Import relations sorting.
From S2P Require Import Prelude Effects.

(** ** Definitions *)

Definition CANID_SHVCAN : Z := 0x400.
Definition CANID_UNUSED : Z := 0x200.
Definition CANID_FIRST_MASK : Z := 0x100.
Definition CANID_ADDRESS_MASK : Z := 0x0ff.

(** [CAN_EFF_FLAG], [CAN_RTR_FLAG] and [CAN_ERR_FLAG] of the kernel. *)
Definition CAN_EFF_FLAG : Z := 0x80000000.
Definition CAN_RTR_FLAG : Z := 0x40000000.
Definition CAN_ERR_FLAG : Z := 0x20000000.

(** A frame with as many bytes of data as its length says; one that requests data has
    none. *)
Record frame : Type := Frame { can_id : Z; flen : Z; fdata : list Z }.

Definition byte_at (i : nat) (l : list Z) : Z := default 0 (l !! i).

(** The frames that are sent at once: an acknowledge and a frame that requests data. *)
Definition send_ack (local_address address counter : Z) : frame :=
  Frame (Z.lor (Z.lor local_address CANID_SHVCAN) CANID_UNUSED) 2 [address; counter].
Definition send_rtr_frame (local_address dlc : Z) : frame :=
  Frame (Z.lor (Z.lor (Z.lor CAN_RTR_FLAG local_address) CANID_SHVCAN) CANID_UNUSED) dlc [].

(** *** Peers

    The array of clients of one interface, each by the address of its peer. *)

(** The search between [l] and [h]: where it ended, and whether the address is there; [i]
    is where it was before. *)
Fixpoint getctx_loop (n : nat) (ctxs : list Z) (address : Z) (l h i : nat) : nat * bool :=
  match n with
  | O => (i, false)
  | S n =>
      if (l =? h)%nat then (i, false)
      else
        let i := (l + (h - l) / 2)%nat in
        let a := byte_at i ctxs in
        if a <? address then getctx_loop n ctxs address (S i) h i
        else if a >? address then getctx_loop n ctxs address l i i
        else (i, true)
  end.

(** Every round makes the range shorter. *)
Definition _getctx (ctxs : list Z) (address : Z) : nat * bool :=
  getctx_loop (S (length ctxs)) ctxs address 0 (length ctxs) 0.

Definition getctx (ctxs : list Z) (address : Z) : option nat :=
  let '(i, found) := _getctx ctxs address in if found then Some i else None.

(** [alloc] says whether the array can grow. *)
Definition ctx_register (alloc : bool) (ctxs : list Z) (address : Z) : option (list Z) :=
  let '(i, found) := _getctx ctxs address in
  if found then None else if alloc then Some (take i ctxs ++ address :: drop i ctxs) else None.

(** An assertion wants the client to be found. *)
Definition ctx_unregister (ctxs : list Z) (address : Z) : list Z + fault :=
  match getctx ctxs address with Some i => inl (take i ctxs ++ drop (S i) ctxs) | None => inr Assertion end.

(** *** Sending *)

(** [wframe] is being filled: the array of data has 64 bytes, the second of which is the
    number of the frame.  [wackframe] waits for its acknowledge.  The identifier zero is
    for none.  [bus] is what was sent, [waits] how often the frame is repeated until the
    acknowledge comes, [None] if it does not, and [writes] whether frames can be sent;
    after these the acknowledge comes at once and all frames are sent. *)
Record wctx : Type := Wctx {
  wid : Z; wdata : list Z; wlen : Z; wackframe : frame;
  bus : list frame; waits : list (option nat); writes : list bool }.

Definition set_wid (v : Z) (c : wctx) : wctx := Wctx v (wdata c) (wlen c) (wackframe c) (bus c) (waits c) (writes c).
Definition set_wdata (v : list Z) (c : wctx) : wctx := Wctx (wid c) v (wlen c) (wackframe c) (bus c) (waits c) (writes c).
Definition set_wlen (v : Z) (c : wctx) : wctx := Wctx (wid c) (wdata c) v (wackframe c) (bus c) (waits c) (writes c).
Definition set_wackframe (v : frame) (c : wctx) : wctx := Wctx (wid c) (wdata c) (wlen c) v (bus c) (waits c) (writes c).
Definition set_waits (v : list (option nat)) (c : wctx) : wctx := Wctx (wid c) (wdata c) (wlen c) (wackframe c) (bus c) v (writes c).

Definition no_frame : frame := Frame 0 0 [].

(** [wframe] as it is sent. *)
Definition wframe (c : wctx) : frame := Frame (wid c) (wlen c) (take (Z.to_nat (wlen c)) (wdata c)).

Definition _write_frame (f : frame) (c : wctx) : wctx * bool :=
  let '(ok, l) := match writes c with [] => (true, []) | ok :: l => (ok, l) end in
  (Wctx (wid c) (wdata c) (wlen c) (wackframe c) (if ok : bool then bus c ++ [f] else bus c) (waits c) l, ok).

(** The frame is sent once more for every second without the acknowledge. *)
Fixpoint repeat_frame (n : nat) (c : wctx) : wctx * bool :=
  match n with
  | O => (c, true)
  | S n => let '(c, ok) := _write_frame (wackframe c) c in if ok : bool then repeat_frame n c else (c, false)
  end.

(** Waiting for the acknowledge, five seconds at most; [false] if sending failed. *)
Definition wait_ack (c : wctx) : wctx * bool :=
  if can_id (wackframe c) =? 0 then (c, true)
  else
    let '(w, l) := match waits c with [] => (Some O, []) | w :: l => (w, l) end in
    let c := set_waits l c in
    match w with
    | Some n =>
        let '(c, ok) := repeat_frame (min n 4) c in
        (if ok : bool then set_wackframe (Frame 0 (flen (wackframe c)) (fdata (wackframe c))) c else c, ok)
    | None => repeat_frame 5 c
    end.

Definition send_data_frame (c : wctx) : wctx * bool :=
  let '(c, ok) := wait_ack c in
  if negb ok then (c, false)
  else
    let missing := negb (can_id (wackframe c) =? 0) in
    let c := if missing then set_wackframe (Frame 0 (flen (wackframe c)) (fdata (wackframe c))) c else c in
    if missing && negb (has (wid c) CANID_FIRST_MASK) then (c, false)
    else
      let '(c, ok) := _write_frame (wframe c) c in
      if negb ok then (c, false)
      else
        let c := if has (wid c) CANID_FIRST_MASK then set_wackframe (wframe c) c else c in
        let d := wdata c in
        let c := set_wdata (<[1%nat := Z.land (byte_at 1 d + 1) 0x7f]> d) c in
        (set_wid 0 c, true).

Section addresses.
Context (local_address address : Z).

Definition frame_id (first : bool) : Z :=
  Z.lor (Z.lor (Z.lor local_address CANID_SHVCAN) CANID_UNUSED) (if first then CANID_FIRST_MASK else 0).

Definition start_frame (first : bool) (c : wctx) : wctx :=
  set_wlen 2 (set_wdata (<[0%nat := address]> (wdata c)) (set_wid (frame_id first) c)).

(** At least one byte is taken in every round. *)
Fixpoint write_loop (n : nat) (buf : list Z) (c : wctx) : wctx * bool :=
  match n, buf with
  | _, [] => (c, true)
  | O, _ => (c, false)
  | S n, _ =>
      let '(c, ok) :=
        if wid c =? 0 then (start_frame true c, true)
        else if wlen c =? 64 then
          let '(c, ok) := send_data_frame c in
          if ok : bool then (start_frame false c, true) else (c, false)
        else (c, true) in
      if negb ok then (c, false)
      else
        let siz := Z.to_nat (Z.min (Z.of_nat (length buf)) (64 - wlen c)) in
        let k := Z.to_nat (wlen c) in
        let c := set_wdata (take k (wdata c) ++ take siz buf ++ drop (k + siz) (wdata c)) c in
        write_loop n (drop siz buf) (set_wlen (wlen c + Z.of_nat siz) c)
  end.

(** The number of bytes that were written, zero being the error of a stream. *)
Definition cookie_write (buf : list Z) (c : wctx) : wctx * Z :=
  let '(c, ok) := write_loop (length buf) buf c in (c, if ok then Z.of_nat (length buf) else 0).

Definition can_sendmsg (c : wctx) : wctx * bool :=
  if wid c =? 0 then (c, true)
  else
    let d := <[1%nat := Z.lor (byte_at 1 (wdata c)) 0x80]> (wdata c) in
    let k := Z.to_nat (wlen c) in
    let c := set_wdata (take k d ++ replicate (64 - k) 0) c in
    let '(c, res) := send_data_frame c in
    (set_wlen 0 (set_wid 0 c), res).

Definition can_dropmsg (c : wctx) : wctx :=
  if wid c =? 0 then c
  else
    let c :=
      if has (wid c) CANID_FIRST_MASK then c
      else
        let d := <[1%nat := u8 (Z.lor (byte_at 1 (wdata c)) 0x80 + 1)]> (wdata c) in
        (send_data_frame (set_wlen 2 (set_wdata d c))).1 in
    set_wlen 0 (set_wid 0 c).

(** A reset is a message of one zero. *)
Definition can_reset (c : wctx) : wctx * bool := can_sendmsg (cookie_write [0] c).1.

(** The bytes of a message in the pieces they are written in; the first of them says
    that it is ChainPack. *)
Fixpoint cookie_writes (l : list (list Z)) (c : wctx) : wctx * bool :=
  match l with
  | [] => (c, true)
  | buf :: l =>
      let '(c, n) := cookie_write buf c in
      if n =? Z.of_nat (length buf) then cookie_writes l c else (c, false)
  end.
End addresses.

(** *** Receiving *)

Inductive rstate_t := RS_NONE | RS_FIRST | RS_MSG | RS_ABORT | RS_DISCONNECT.

#[export] Instance rstate_eq_dec : EqDecision rstate_t.
Proof. solve_decision. Defined.

(** What the thread that reads waits for the token with. *)
Inductive waiting := WaitData (first : bool) (number : Z) (payload : list Z) | WaitDisconnect.

(** [rtoken] is with the client when it is set; [revents] is the counter of [reventfd].
    The array has 62 bytes. *)
Record rctx : Type := Rctx {
  rcounter : Z; rdata : list Z; rsiz : Z; roff : Z; rstate : rstate_t; rtoken : bool; revents : Z;
  rwaiting : option waiting }.

Definition set_rstate (v : rstate_t) (r : rctx) : rctx :=
  Rctx (rcounter r) (rdata r) (rsiz r) (roff r) v (rtoken r) (revents r) (rwaiting r).
Definition set_rtoken (v : bool) (r : rctx) : rctx :=
  Rctx (rcounter r) (rdata r) (rsiz r) (roff r) (rstate r) v (revents r) (rwaiting r).
Definition set_revents (v : Z) (r : rctx) : rctx :=
  Rctx (rcounter r) (rdata r) (rsiz r) (roff r) (rstate r) (rtoken r) v (rwaiting r).
Definition set_rwaiting (v : option waiting) (r : rctx) : rctx :=
  Rctx (rcounter r) (rdata r) (rsiz r) (roff r) (rstate r) (rtoken r) (revents r) v.
Definition set_roff (v : Z) (r : rctx) : rctx :=
  Rctx (rcounter r) (rdata r) (rsiz r) v (rstate r) (rtoken r) (revents r) (rwaiting r).

(** [ctx_new] *)
Definition rctx_new : rctx := Rctx 0 (replicate 62 0) 0 0 RS_NONE false 0 None.
Definition wctx_new : wctx := Wctx 0 (replicate 64 0) 0 no_frame [] [] [].

Definition is_last (number : Z) : bool := has number 0x80.

(** What is done with the token. *)
Definition take_frame (first : bool) (number : Z) (payload : list Z) (r : rctx) : rctx :=
  if first || bool_decide (rstate r = RS_MSG) then
    Rctx number (payload ++ drop (length payload) (rdata r)) (Z.of_nat (length payload)) 0
      (if first then RS_FIRST else RS_MSG) true (if first then revents r + 1 else revents r) (rwaiting r)
  else r.

Definition proceed (w : waiting) (r : rctx) : rctx :=
  match w with
  | WaitData first number payload => take_frame first number payload r
  | WaitDisconnect => set_revents (revents r + 1) (set_rtoken true (set_rstate RS_DISCONNECT r))
  end.

(** The token is waited for unless it is there. *)
Definition wait_token (w : waiting) (r : rctx) : rctx :=
  if rtoken r then set_rwaiting (Some w) r else proceed w r.

(** Zeros at the end of the last frame are not a part of it: it may have to be filled up
    to a length CAN FD has. *)
Fixpoint crop (l : list Z) : list Z :=
  match l with
  | [] => []
  | x :: l => match crop l with [] => if x =? 0 then [] else [x] | l' => x :: l' end
  end.

(** The bytes of a data frame behind the first two. *)
Definition frame_payload (f : frame) : list Z :=
  let l := drop 2 (fdata f) in
  if is_last (byte_at 1 (fdata f)) && (flen f >? 8) then crop l else l.

Definition receive_data (f : frame) (r : rctx) : rctx :=
  let first := has (can_id f) CANID_FIRST_MASK in
  let number := byte_at 1 (fdata f) in
  let payload := frame_payload f in
  let retransmit := (rcounter r =? number) &&
    (negb first || bool_decide (take (length payload) (rdata r) = payload)) in
  if negb retransmit && (first || bool_decide (rstate r = RS_MSG)) then
    let seq := Z.land (rcounter r + 1) 0x7f =? Z.land number 0x7f in
    if first then
      if bool_decide (rstate r = RS_NONE) || bool_decide (rstate r = RS_FIRST)
      then take_frame true number payload r
      else
        let r := if is_last (rcounter r) then r else set_rtoken true (set_rstate RS_ABORT r) in
        wait_token (WaitData true number payload) r
    else if seq then wait_token (WaitData false number payload) r
    else set_rtoken true (set_rstate RS_ABORT r)
  else r.

(** A frame of the peer; acknowledges are for [wctx]. *)
Definition receive_frame (f : frame) (r : rctx) : rctx :=
  if bool_decide (rstate r = RS_DISCONNECT) then r
  else if flen f =? 1 then wait_token WaitDisconnect r
  else if flen f =? 2 then r
  else receive_data f r.

Definition receive_ack (f : frame) (c : wctx) : wctx :=
  if byte_at 1 (fdata f) =? byte_at 1 (fdata (wackframe c))
  then set_wackframe (Frame 0 (flen (wackframe c)) (fdata (wackframe c))) c else c.

(** The thread goes on when it has the token. *)
Definition resume (r : rctx) : option rctx :=
  match rwaiting r with
  | Some w => if rtoken r then None else Some (proceed w (set_rwaiting None r))
  | None => None
  end.

(** *** Which peer a frame is for *)

Inductive dispatch := Skipped | Reply (dlc : Z) | ForPeer (i : nat) | NewPeer (src : Z) (reset : bool).

Definition dispatch_frame (local_address : Z) (listening : bool) (ctxs : list Z) (f : frame) : dispatch :=
  if negb (has (can_id f) CANID_SHVCAN) || has (can_id f) CAN_EFF_FLAG || has (can_id f) CAN_ERR_FLAG then Skipped
  else
    let src := Z.land (can_id f) CANID_ADDRESS_MASK in
    let first := has (can_id f) CANID_FIRST_MASK in
    if has (can_id f) CAN_RTR_FLAG then
      if flen f =? 5 then if listening then Reply 1 else Skipped
      else if flen f =? 6 then if listening then Skipped else Reply 2
      else if flen f =? 7 then Reply (if listening then 1 else 2)
      else Skipped
    else if flen f <? 1 then Skipped
    else if negb (byte_at 0 (fdata f) =? local_address) then Skipped
    else
      match getctx ctxs src with
      | Some i => ForPeer i
      | None =>
          if (flen f >? 2) && first && listening
          then NewPeer src ((flen f =? 3) && (byte_at 2 (fdata f) =? 0)) else Skipped
      end.

(** The peer that [dispatch_frame] found to be new; [alloc] and [grow] say whether there is
    memory.  What could not be registered is freed with an assertion that it was. *)
Definition accept_peer (alloc grow : bool) (ctxs : list Z) (src : Z) : option (list Z) + fault :=
  if alloc then match ctx_register grow ctxs src with Some l => inl (Some l) | None => inr Assertion end
  else inl None.

(** *** The client *)

(** With the token; [None] is the error. *)
Definition cookie_read (size : Z) (r : rctx) : rctx * option (list Z) :=
  if bool_decide (rstate r = RS_MSG) then
    let siz := Z.min size (rsiz r - roff r) in
    let l := take (Z.to_nat siz) (drop (Z.to_nat (roff r)) (rdata r)) in
    let r := set_roff (roff r + siz) r in
    (if (rsiz r =? roff r) && negb (is_last (rcounter r)) then set_rtoken false r else r, Some l)
  else (r, None).

(** The token did not come. *)
Definition read_timeout (r : rctx) : rctx := set_rstate RS_NONE r.

Inductive next_res := NextMessage | NextReset | NextNothing | NextError | NextAssertion.

(** There was an event; [ack] says whether the acknowledge was sent.  A reset is validated
    next. *)
Definition can_nextmsg (ack : bool) (r : rctx) : rctx * next_res :=
  let r := set_revents 0 r in
  if negb (rtoken r) then (r, NextAssertion)
  else if bool_decide (rstate r = RS_DISCONNECT) then (set_rtoken false r, NextError)
  else if negb (bool_decide (rstate r = RS_FIRST)) then (r, NextAssertion)
  else if negb ack then (r, NextError)
  else
    let r := set_rstate RS_MSG r in
    if negb ((rsiz r >? 0) && (roff r =? 0)) then (r, NextAssertion)
    else
      let r := set_roff 1 r in
      let b := byte_at 0 (rdata r) in
      if b =? 0 then (r, NextReset)
      else if (b =? 1) && (rsiz r >? 1) then (r, NextMessage)
      else (set_rtoken false (set_rstate RS_NONE r), NextNothing).

(** One round of [RPCC_CTRLOP_VALIDMSG]: the result, or the token is waited for. *)
Definition can_validmsg (r : rctx) : rctx * option bool :=
  let r := set_rtoken false r in
  if negb (bool_decide (rstate r = RS_MSG)) || is_last (rcounter r)
  then (set_rstate RS_NONE r, Some (bool_decide (rstate r = RS_MSG)))
  else (r, None).

Definition can_ignoremsg (r : rctx) : rctx := set_rtoken false (set_rstate RS_NONE r).

(** The client and the server are created for these addresses only. *)
Definition rpcclient_can_new (address local_address : Z) : option (rctx * wctx) :=
  if local_address >? 128 then None else Some (rctx_new, wctx_new).

Definition rpcserver_can_new (address : Z) : bool := negb (address >? 128).

(** ** One side sends *)

Section sending.
Context (local_address address number : Z) (repeats : nat).
Hypothesis Hrepeats : (repeats ≤ 4)%nat.
Hypothesis Hlocal : urange 8 local_address.

(** The number of a frame of the message. *)
Definition frame_number (k : nat) : Z := (number + Z.of_nat k) mod 128.

Definition first_at (k : nat) : bool := (k =? 0)%nat.

(** The frames of a message: all but the last are full. *)
Definition mid_frame (k : nat) (p : list Z) : frame :=
  Frame (frame_id local_address (first_at k)) (2 + Z.of_nat (length p)) (address :: frame_number k :: p).
Definition last_frame (k : nat) (p : list Z) : frame :=
  Frame (frame_id local_address (first_at k)) (2 + Z.of_nat (length p)) (address :: Z.lor (frame_number k) 0x80 :: p).
Definition message_frames (ps : list (list Z)) (p : list Z) : list frame := imap mid_frame ps ++ [last_frame (length ps) p].

(** The first frame is repeated before the second one. *)
Definition with_repeats (fs : list frame) : list frame :=
  match fs with f :: _ :: _ => replicate repeats f ++ fs | _ => fs end.

(** How the acknowledge of the first frame comes. *)
Definition acknowledged (c : wctx) : Prop :=
  match waits c with [] => repeats = 0%nat | w :: _ => w = Some repeats end.

(** The frame number [length ps] is being filled and has [p]. *)
Record filling (start : list frame) (ps : list (list Z)) (p : list Z) (c : wctx) : Prop := {
  fill_id : wid c = frame_id local_address (first_at (length ps));
  fill_len : wlen c = 2 + Z.of_nat (length p);
  fill_size : length (wdata c) = 64%nat;
  fill_data : take (2 + length p) (wdata c) = address :: frame_number (length ps) :: p;
  fill_short : (length p ≤ 62)%nat;
  fill_full : Forall (λ p, length p = 62%nat) ps;
  fill_writes : writes c = [];
  fill_bus : bus c = start ++ with_repeats (imap mid_frame ps);
  fill_ack : match ps with
             | [] => can_id (wackframe c) = 0 ∧ acknowledged c
             | [p0] => wackframe c = mid_frame 0 p0 ∧ acknowledged c
             | _ => can_id (wackframe c) = 0
             end }.

(** Nothing is being sent. *)
Record idle_at (k : nat) (c : wctx) : Prop := {
  idle_id : wid c = 0;
  idle_size : length (wdata c) = 64%nat;
  idle_number : byte_at 1 (wdata c) = frame_number k;
  idle_writes : writes c = [] }.

Lemma frame_id_range first : frame_id local_address first ≠ 0 ∧ has (frame_id local_address first) CANID_FIRST_MASK = first.
Proof using Hlocal.
  assert (forallb (λ a, negb (frame_id a first =? 0) && Bool.eqb (has (frame_id a first) CANID_FIRST_MASK) first) (seqZ 0 256) = true) as H
    by (by destruct first; vm_compute).
  pose proof (forall_below 256 _ H local_address Hlocal) as [H1%negb_true_iff H2]%andb_true_iff.
  split; [by apply Z.eqb_neq|by apply Bool.eqb_prop].
Qed.

Lemma frame_number_next k : Z.land (frame_number k + 1) 0x7f = frame_number (S k).
Proof.
  change 0x7f with (Z.ones 7). rewrite Z.land_ones by done. unfold frame_number. change (2 ^ 7) with 128.
  rewrite Zplus_mod_idemp_l. f_equal. clear. lia.
Qed.

Lemma frame_number_range k : 0 ≤ frame_number k < 128.
Proof. by apply Z.mod_pos_bound. Qed.

Lemma byte_at_take i n l : (i < n)%nat → byte_at i (take n l) = byte_at i l.
Proof. intros Hi. unfold byte_at. by rewrite lookup_take_lt by done. Qed.

Lemma write_frame_ok f c : writes c = [] →
  _write_frame f c = (Wctx (wid c) (wdata c) (wlen c) (wackframe c) (bus c ++ [f]) (waits c) [], true).
Proof. intros H. unfold _write_frame. by rewrite H. Qed.

Lemma repeat_frame_ok n c : writes c = [] →
  repeat_frame n c = (Wctx (wid c) (wdata c) (wlen c) (wackframe c) (bus c ++ replicate n (wackframe c)) (waits c) [], true).
Proof.
  revert c. induction n as [|n IH]; intros c Hw; cbn [repeat_frame replicate].
  - destruct c. simpl in *. by rewrite Hw, app_nil_r.
  - rewrite write_frame_ok by done. cbn [wackframe]. rewrite IH by done. simpl. by rewrite <-app_assoc.
Qed.

(** What is sent before a frame. *)
Definition repeated (c : wctx) : list frame :=
  if can_id (wackframe c) =? 0 then [] else replicate repeats (wackframe c).

Lemma wait_ack_ok c :
  writes c = [] → (can_id (wackframe c) = 0 ∨ acknowledged c) →
  ∃ a l, wait_ack c = (Wctx (wid c) (wdata c) (wlen c) a (bus c ++ repeated c) l [], true) ∧ can_id a = 0 ∧
    (can_id (wackframe c) = 0 → l = waits c).
Proof using Hrepeats.
  intros Hw Ha. unfold wait_ack, repeated. destruct (Z.eqb_spec (can_id (wackframe c)) 0) as [H0|H0].
  { exists (wackframe c), (waits c). rewrite app_nil_r. destruct c. simpl in *. by rewrite Hw. }
  destruct Ha as [?|Ha]; [done|]. unfold acknowledged in Ha. destruct (waits c) as [|w l].
  - subst. destruct c. simpl in *. subst. do 2 eexists. split; [by rewrite app_nil_r|]. done.
  - subst w. replace (min repeats 4) with repeats by lia. rewrite repeat_frame_ok by done.
    destruct c. simpl in *. do 2 eexists. split; [done|]. done.
Qed.

Lemma send_ok c :
  writes c = [] → (can_id (wackframe c) = 0 ∨ acknowledged c) →
  ∃ a l, send_data_frame c =
      (Wctx 0 (<[1%nat := Z.land (byte_at 1 (wdata c) + 1) 0x7f]> (wdata c)) (wlen c) a
         (bus c ++ repeated c ++ [wframe c]) l [], true) ∧
    (if has (wid c) CANID_FIRST_MASK then a = wframe c else can_id a = 0) ∧ (can_id (wackframe c) = 0 → l = waits c).
Proof using Hrepeats.
  intros Hw Ha. unfold send_data_frame. destruct (wait_ack_ok c Hw Ha) as (a & l & -> & H0 & Hl). cbn [negb wackframe].
  rewrite H0. cbn [Z.eqb negb andb]. rewrite write_frame_ok by done.
  cbn [negb wid wframe wdata wlen bus waits wackframe]. rewrite <-app_assoc.
  destruct (has (wid c) CANID_FIRST_MASK); do 2 eexists; (split; [reflexivity|]); by split.
Qed.

Lemma imap_snoc {A B} (f : nat → A → B) l x : imap f (l ++ [x]) = imap f l ++ [f (length l) x].
Proof. rewrite imap_app. simpl. by rewrite Nat.add_0_r. Qed.

(** A frame was sent: the one before it, if it was the first, was repeated. *)
Lemma repeats_snoc ps p start c f :
  filling start ps p c → bus c ++ repeated c ++ [f] = start ++ with_repeats (imap mid_frame ps ++ [f]).
Proof using Hlocal.
  intros Hf. rewrite (fill_bus _ _ _ _ Hf), <-app_assoc. f_equal. unfold repeated.
  pose proof (fill_ack _ _ _ _ Hf) as Ha. destruct ps as [|p0 [|p1 ps]].
  - destruct Ha as [-> _]. done.
  - destruct Ha as [-> _]. simpl. rewrite (proj2 (Z.eqb_neq _ _)) by apply frame_id_range.
    clear. induction repeats as [|n IH]; simpl; [done|]. by rewrite <-IH.
  - rewrite Ha. cbn [Z.eqb app imap with_repeats]. by rewrite <-app_assoc.
Qed.

Lemma start_filling start ps c :
  idle_at (length ps) c → Forall (λ p, length p = 62%nat) ps → bus c = start ++ with_repeats (imap mid_frame ps) →
  match ps with
  | [] => can_id (wackframe c) = 0 ∧ acknowledged c
  | [p0] => wackframe c = mid_frame 0 p0 ∧ acknowledged c
  | _ => can_id (wackframe c) = 0
  end →
  filling start ps [] (start_frame local_address address (first_at (length ps)) c).
Proof.
  intros [Hid Hsize Hnum Hw] Hfull Hbus Hack. destruct c as [id d len a b w wr]. simpl in *.
  split; try done; simpl; [by rewrite length_insert| |lia].
  destruct d as [|x [|y d]]; [done..|]. simpl. unfold byte_at in Hnum. simpl in Hnum. by subst.
Qed.

Lemma filling_wframe start ps p c : filling start ps p c → wframe c = mid_frame (length ps) p.
Proof.
  intros [Hid Hlen _ Hdata _ _ _ _ _]. unfold wframe, mid_frame. rewrite Hid, Hlen.
  replace (Z.to_nat (2 + Z.of_nat (length p))) with (2 + length p)%nat by lia. by rewrite Hdata.
Qed.

Lemma filling_number start ps p c : filling start ps p c → byte_at 1 (wdata c) = frame_number (length ps).
Proof.
  intros Hf. rewrite <-(byte_at_take 1 (2 + length p)) by lia. by rewrite (fill_data _ _ _ _ Hf).
Qed.

Lemma filling_acknowledged start ps p c : filling start ps p c → can_id (wackframe c) = 0 ∨ acknowledged c.
Proof. intros Hf. pose proof (fill_ack _ _ _ _ Hf) as Ha. destruct ps as [|p0 [|p1 ps]]; [by left; apply Ha|by right; apply Ha|by left]. Qed.

Lemma send_filling start ps p c :
  filling start ps p c → length p = 62%nat →
  ∃ c', send_data_frame c = (c', true) ∧ filling start (ps ++ [p]) [] (start_frame local_address address false c').
Proof using Hrepeats Hlocal.
  intros Hf Hp. destruct (send_ok c (fill_writes _ _ _ _ Hf) (filling_acknowledged _ _ _ _ Hf)) as (a & l & E & Ha & Hl).
  eexists. split; [exact E|]. rewrite (filling_wframe _ _ _ _ Hf) in *. rewrite (fill_id _ _ _ _ Hf) in Ha.
  rewrite (proj2 (frame_id_range _)) in Ha.
  assert (false = first_at (length (ps ++ [p]))) as -> by (rewrite length_app; simpl; by rewrite Nat.add_1_r).
  rewrite (filling_number _ _ _ _ Hf). apply start_filling.
  - split; simpl; [done|by rewrite length_insert, (fill_size _ _ _ _ Hf)| |done].
    unfold byte_at. rewrite list_lookup_insert_eq by (rewrite (fill_size _ _ _ _ Hf); lia). simpl.
    rewrite frame_number_next. f_equal. rewrite length_app. simpl. lia.
  - apply Forall_app. split; [apply Hf|by apply Forall_singleton].
  - simpl. rewrite (repeats_snoc ps p start c _ Hf), imap_snoc. done.
  - simpl. pose proof (fill_ack _ _ _ _ Hf) as Hack. destruct ps as [|p0 ps]; simpl in *.
    + split; [done|]. destruct Hack as [H0 Hack]. unfold acknowledged in *. simpl. by rewrite (Hl H0).
    + destruct ps; done.
Qed.

Lemma copy_filling start ps p c l :
  filling start ps p c → (length p + length l ≤ 62)%nat →
  filling start ps (p ++ l) (set_wlen (wlen c + Z.of_nat (length l))
    (set_wdata (take (Z.to_nat (wlen c)) (wdata c) ++ l ++ drop (Z.to_nat (wlen c) + length l) (wdata c)) c)).
Proof.
  intros [Hid Hlen Hsize Hdata Hshort Hfull Hw Hbus Hack] Hl. destruct c as [id d len a b w wr].
  cbn [wid wdata wlen wackframe bus waits writes set_wlen set_wdata] in *. subst len.
  replace (Z.to_nat (2 + Z.of_nat (length p))) with (2 + length p)%nat by lia.
  assert (length (take (2 + length p) d) = (2 + length p)%nat) as Ht by (rewrite length_take; lia).
  remember (take (2 + length p) d) as t eqn:Et. clear Et.
  split; cbn [wid wdata wlen wackframe bus waits writes set_wlen set_wdata]; try done.
  - rewrite length_app. lia.
  - rewrite !length_app, Ht, length_drop. lia.
  - rewrite app_assoc. rewrite take_app_length'; [by rewrite Hdata|].
    rewrite !length_app, Ht. lia.
  - rewrite length_app. lia.
Qed.

Lemma write_loop_filling start n buf ps p c :
  filling start ps p c → (length buf ≤ n)%nat →
  ∃ ps' p' c', write_loop local_address address n buf c = (c', true) ∧ filling start ps' p' c' ∧
    concat ps' ++ p' = concat ps ++ p ++ buf ∧ (buf ≠ [] ∨ p ≠ [] → p' ≠ []).
Proof using Hrepeats Hlocal.
  revert buf ps p c. induction n as [|n IH]; intros buf ps p c Hf Hn.
  { destruct buf; [|simpl in Hn; lia]. exists ps, p, c. rewrite app_nil_r. split_and!; [done..|]. by intros [?|?]. }
  destruct buf as [|x buf]; [exists ps, p, c; rewrite app_nil_r; split_and!; [done..|]; by intros [?|?]|].
  assert (∃ ps1 p1 c1, (if wid c =? 0 then (start_frame local_address address true c, true)
      else if wlen c =? 64 then
        let '(c, ok) := send_data_frame c in if ok : bool then (start_frame local_address address false c, true) else (c, false)
      else (c, true)) = (c1, true) ∧ filling start ps1 p1 c1 ∧ concat ps1 ++ p1 = concat ps ++ p ∧ (length p1 < 62)%nat)
    as (ps1 & p1 & c1 & E & Hf1 & Hc1 & Hlt).
  { rewrite (proj2 (Z.eqb_neq (wid c) 0)) by (rewrite (fill_id _ _ _ _ Hf); apply frame_id_range).
    rewrite (fill_len _ _ _ _ Hf). pose proof (fill_short _ _ _ _ Hf). destruct (Z.eqb_spec (2 + Z.of_nat (length p)) 64).
    - destruct (send_filling start ps p c Hf ltac:(lia)) as (c' & -> & Hf').
      do 3 eexists. split; [done|]. split; [done|]. rewrite concat_app. simpl. rewrite !app_nil_r. split; [done|lia].
    - exists ps, p, c. split_and!; [done..|lia]. }
  cbn [write_loop]. rewrite E. cbn [negb]. set (buf' := x :: buf) in *.
  set (siz := Z.to_nat (Z.min (Z.of_nat (length buf')) (64 - wlen c1))).
  assert ((0 < siz)%nat ∧ (siz ≤ length buf')%nat ∧ (length p1 + siz ≤ 62)%nat) as (Hs1 & Hs2 & Hs3).
  { unfold siz. rewrite (fill_len _ _ _ _ Hf1). simpl length. lia. }
  assert (length (take siz buf') = siz) as Hts by (rewrite length_take; lia).
  pose proof (copy_filling start ps1 p1 c1 (take siz buf') Hf1 ltac:(lia)) as Hf2. rewrite Hts in Hf2.
  destruct (IH (drop siz buf') ps1 (p1 ++ take siz buf') _ Hf2) as (ps2 & p2 & c2 & E2 & Hf3 & Hc2 & Hne);
    [rewrite length_drop; simpl in *; lia|].
  exists ps2, p2, c2. split; [exact E2|]. split; [done|]. split.
  - rewrite Hc2, <-(app_assoc p1), take_drop, !app_assoc, Hc1. done.
  - intros _. apply Hne. right. destruct siz; [lia|]. by destruct p1.
Qed.

Lemma cookie_writes_filling start l ps p c :
  filling start ps p c → p ≠ [] →
  ∃ ps' p' c', cookie_writes local_address address l c = (c', true) ∧ filling start ps' p' c' ∧
    concat ps' ++ p' = concat ps ++ p ++ concat l ∧ p' ≠ [].
Proof using Hrepeats Hlocal.
  revert ps p c. induction l as [|buf l IH]; intros ps p c Hf Hp.
  { exists ps, p, c. rewrite app_nil_r. done. }
  cbn [cookie_writes]. unfold cookie_write.
  destruct (write_loop_filling start (length buf) buf ps p c Hf ltac:(lia)) as (ps1 & p1 & c1 & -> & Hf1 & Hc & Hp1).
  rewrite Z.eqb_refl. destruct (IH ps1 p1 c1 Hf1 (Hp1 (or_intror Hp))) as (ps2 & p2 & c2 & E & Hf2 & Hc2 & Hp2).
  exists ps2, p2, c2. split; [done|]. split; [done|]. split; [|done].
  rewrite Hc2. simpl. by rewrite !app_assoc, Hc, !app_assoc.
Qed.

(** The first piece of a message starts its first frame. *)
Lemma cookie_write_start start x c :
  idle_at 0 c → can_id (wackframe c) = 0 → acknowledged c → bus c = start →
  ∃ c', cookie_write local_address address [x] c = (c', 1) ∧ filling start [] [x] c'.
Proof using Hrepeats Hlocal.
  intros Hi H0 Ha Hb. unfold cookie_write. cbn [length write_loop]. rewrite (idle_id _ _ Hi). cbn [Z.eqb negb].
  assert (filling start [] [] (start_frame local_address address true c)) as Hf.
  { apply (start_filling start [] c); simpl; [done..| |done]. by rewrite app_nil_r. }
  apply (copy_filling _ _ _ _ [x]) in Hf; [|simpl; lia]. eexists. split; [reflexivity|]. exact Hf.
Qed.

Lemma last_number k : Z.land (Z.lor (frame_number k) 0x80 + 1) 0x7f = frame_number (S k).
Proof.
  rewrite <-frame_number_next.
  assert (forallb (λ a, Z.land (Z.lor a 0x80 + 1) 0x7f =? Z.land (a + 1) 0x7f) (seqZ 0 128) = true) as H by (by vm_compute).
  by apply Z.eqb_eq, (forall_below 128 _ H), frame_number_range.
Qed.

Lemma sendmsg_ok start ps p c :
  filling start ps p c →
  ∃ c', can_sendmsg c = (c', true) ∧ bus c' = start ++ with_repeats (message_frames ps p) ∧ idle_at (S (length ps)) c'.
Proof using Hrepeats Hlocal.
  intros Hf. unfold can_sendmsg. rewrite (proj2 (Z.eqb_neq (wid c) 0)) by (rewrite (fill_id _ _ _ _ Hf); apply frame_id_range).
  rewrite (filling_number _ _ _ _ Hf). pose proof (fill_len _ _ _ _ Hf) as Hlen. pose proof (fill_size _ _ _ _ Hf) as Hsize.
  pose proof (fill_short _ _ _ _ Hf) as Hshort. pose proof (fill_data _ _ _ _ Hf) as Hdata.
  replace (Z.to_nat (wlen c)) with (2 + length p)%nat by lia.
  assert (take (2 + length p) (<[1%nat := Z.lor (frame_number (length ps)) 0x80]> (wdata c)) =
    address :: Z.lor (frame_number (length ps)) 0x80 :: p) as Ht.
  { rewrite take_insert_lt by lia. by rewrite Hdata. }
  rewrite Ht. set (d := _ ++ replicate _ _). set (c1 := set_wdata d c).
  assert (wframe c1 = last_frame (length ps) p) as Hw.
  { unfold wframe, last_frame, c1. cbn [wid wlen wdata set_wdata]. rewrite (fill_id _ _ _ _ Hf), Hlen. f_equal.
    unfold d. rewrite take_app_length' by (simpl; lia). done. }
  destruct (send_ok c1 (fill_writes _ _ _ _ Hf) (filling_acknowledged _ _ _ _ Hf)) as (a & w & -> & _ & _).
  eexists. split; [reflexivity|]. rewrite Hw. split.
  - cbn [bus set_wlen set_wid]. change (bus c1) with (bus c). change (repeated c1) with (repeated c).
    by rewrite (repeats_snoc ps p start c _ Hf).
  - change (wdata c1) with d. change (byte_at 1 d) with (Z.lor (frame_number (length ps)) 0x80).
    rewrite last_number. split; [done| |done|done]. cbn [wdata set_wlen set_wid]. rewrite length_insert.
    unfold d. rewrite length_app, length_replicate. simpl. lia.
Qed.

(** A message is sent as its frames. *)
Lemma message_sent l c :
  idle_at 0 c → can_id (wackframe c) = 0 → acknowledged c →
  ∃ ps p c1 c2, cookie_writes local_address address ([1] :: l) c = (c1, true) ∧ can_sendmsg c1 = (c2, true) ∧
    bus c2 = bus c ++ with_repeats (message_frames ps p) ∧ idle_at (S (length ps)) c2 ∧
    concat ps ++ p = 1 :: concat l ∧ Forall (λ p, length p = 62%nat) ps ∧ p ≠ [] ∧ (length p ≤ 62)%nat.
Proof using Hrepeats Hlocal.
  intros Hi H0 Ha. destruct (cookie_write_start (bus c) 1 c Hi H0 Ha eq_refl) as (c0 & E0 & Hf0).
  destruct (cookie_writes_filling (bus c) l [] [1] c0 Hf0 ltac:(done)) as (ps & p & c1 & E1 & Hf1 & Hc & Hp).
  destruct (sendmsg_ok (bus c) ps p c1 Hf1) as (c2 & E2 & Hb & Hi2).
  exists ps, p, c1, c2. cbn [cookie_writes]. rewrite E0. split; [exact E1|]. split_and!; try done; apply Hf1.
Qed.
End sending.

(** ** The other side receives

    The thread that reads and the client take turns in any order.  A frame that is not the
    first comes after the acknowledge was sent, as the sender waits for it; frames come in
    time. *)

Inductive phase := CIdle | CReading | CValidating | CDone (res : bool) | CFailed.

(** [acks] are the acknowledges that were sent, [got] is what the client read and [ended]
    whether it came to the end. *)
Record sys : Type := Sys {
  chan : list frame; receiver : rctx; client : phase; acks : list frame; got : list Z; ended : bool }.

Inductive reader_step : sys → sys → Prop :=
  | reader_receive f fs r p a g e :
      rwaiting r = None → has (can_id f) CANID_FIRST_MASK = true ∨ a ≠ [] →
      reader_step (Sys (f :: fs) r p a g e) (Sys fs (receive_frame f r) p a g e)
  | reader_resume fs r r' p a g e :
      resume r = Some r' → reader_step (Sys fs r p a g e) (Sys fs r' p a g e).

(** No message is being received, and the last one is not to be taken for the next, whose
    first frame has the number [n]. *)
Record ready (n : Z) (r : rctx) : Prop := {
  ready_state : rstate r = RS_NONE;
  ready_token : rtoken r = false;
  ready_waiting : rwaiting r = None;
  ready_events : revents r = 0;
  ready_number : Z.land (rcounter r) 0x7f ≠ n ∨ byte_at 0 (rdata r) ≠ 1 }.

(** What the client may rely on: [ack] is the acknowledge, [n] the number that is next and
    [m] the message. *)
Record transferred (ack : frame) (n : Z) (m : list Z) (s : sys) : Prop := {
  tr_prefix : ∃ rest, got s ++ rest = m ∧ (ended s = true → rest = []);
  tr_valid : client s ≠ CFailed ∧ client s ≠ CDone false;
  tr_event : client s = CIdle → 0 < revents (receiver s) ∨ ∃ s', reader_step s s';
  tr_token : client s = CReading ∨ client s = CValidating → rtoken (receiver s) = true ∨ ∃ s', reader_step s s';
  tr_acks : client s ≠ CIdle → acks s = [ack];
  tr_ready : client s = CDone true → ready n (receiver s) }.

(** What is read from a buffer that starts with [l]. *)
Lemma take_slice (d l : list Z) o n :
  take (length l) d = l → (o + n ≤ length l)%nat →
  take n (drop o d) ++ drop (o + n) l = drop o l ∧ length (take n (drop o d)) = n.
Proof.
  intros Hd Hl. assert (d = l ++ drop (length l) d) as -> by (by rewrite <-Hd at 1; rewrite take_drop).
  rewrite drop_app_le, take_app_le by (rewrite ?length_drop; lia). split.
  - rewrite <-drop_drop. apply take_drop.
  - rewrite length_take, length_drop. lia.
Qed.

Section receiving.
Context (local_address address : Z).

(** What the client is after a round of the validation. *)
Definition validated (fs : list frame) (r : rctx) (a : list frame) (g : list Z) (e : bool) : sys :=
  let '(r, res) := can_validmsg r in
  Sys fs r (match res with Some b => CDone b | None => CValidating end) a g e.

Definition next_message (fs : list frame) (r : rctx) (a : list frame) (g : list Z) (e : bool) : sys :=
  let '(r', res) := can_nextmsg true r in
  match res with
  | NextMessage => Sys fs r' CReading (a ++ [send_ack local_address address (rcounter r)]) g e
  | _ => Sys fs r' CFailed a g e
  end.

Definition read_bytes (size : Z) (fs : list frame) (r : rctx) (a : list frame) (g : list Z) (e : bool) : sys :=
  let '(r, res) := cookie_read size r in
  match res with
  | Some l => Sys fs r CReading a (g ++ l) (e || bool_decide (l = []))
  | None => Sys fs r CFailed a g e
  end.

Inductive client_step : sys → sys → Prop :=
  | client_next fs r a g e :
      0 < revents r → client_step (Sys fs r CIdle a g e) (next_message fs r a g e)
  | client_read size fs r a g e :
      0 < size → rtoken r = true → client_step (Sys fs r CReading a g e) (read_bytes size fs r a g e)
  | client_validate fs r a g e :
      client_step (Sys fs r CReading a g e) (validated fs r a g e)
  | client_round fs r a g e :
      rtoken r = true → client_step (Sys fs r CValidating a g e) (validated fs r a g e).

Definition step (s s' : sys) : Prop := reader_step s s' ∨ client_step s s'.

(** A frame as it is received. *)
Record carries (first : bool) (number : Z) (q : list Z) (f : frame) : Prop := {
  carries_first : has (can_id f) CANID_FIRST_MASK = first;
  carries_number : byte_at 1 (fdata f) = number;
  carries_payload : frame_payload f = q;
  carries_len : flen f > 2 }.

(** The frames, what they have, and their numbers. *)
Context (gs : list frame) (qs : list (list Z)) (num : nat → Z).
Notation q k := (nth k qs []).
Notation N := (length qs).
Hypothesis Hgs : Forall2 (λ k g, carries (first_at k) (num k) (q k) g) (seq 0 N) gs.
Hypothesis Hstart : ∃ x l, q 0 = 1 :: x :: l.
Hypothesis Hsome : ∀ k, (k < N)%nat → q k ≠ [].
Hypothesis Hnext : ∀ k, (S k < N)%nat → num k ≠ num (S k) ∧ Z.land (num k + 1) 0x7f = Z.land (num (S k)) 0x7f.
Hypothesis Hlast : ∀ k, (k < N)%nat → is_last (num k) = (S k =? N)%nat.

(** All that the client is to read. *)
Definition contents : list Z := drop 1 (concat qs).

(** Frames that repeat the first. *)
Definition repeated_first : list frame → Prop := Forall (carries true (num 0) (q 0)).

(** The frame in the buffer. *)
Record buffered (k : nat) (r : rctx) : Prop := {
  buf_counter : rcounter r = num k;
  buf_data : take (length (q k)) (rdata r) = q k;
  buf_size : rsiz r = Z.of_nat (length (q k)) }.

(** What is to come when frame [k] is in the buffer: the thread may wait with the next. *)
Inductive to_come (k : nat) (r : rctx) : list frame → Prop :=
  | come_frames fs : rwaiting r = None → repeated_first fs → (k ≠ 0%nat → fs = []) → to_come k r (fs ++ drop (S k) gs)
  | come_waiting : rwaiting r = Some (WaitData false (num (S k)) (q (S k))) → (S k < N)%nat → to_come k r (drop (S (S k)) gs).

(** How far the client is. *)
Definition client_at (k : nat) (r : rctx) (p : phase) (g : list Z) (e : bool) : Prop :=
  match p with
  | CReading =>
      g ++ drop (Z.to_nat (roff r)) (q k) ++ concat (drop (S k) qs) = contents ∧
      (if rtoken r then roff r < rsiz r ∨ S k = N else roff r = rsiz r ∧ (S k < N)%nat) ∧
      (e = true → roff r = rsiz r ∧ S k = N)
  | CValidating => (∃ rest, g ++ rest = contents ∧ (e = true → rest = [])) ∧ (rtoken r = false → (S k < N)%nat)
  | _ => False
  end.

Inductive inv : sys → Prop :=
  | inv_before f fs r :
      repeated_first (f :: fs) → rstate r = RS_NONE → rtoken r = false → rwaiting r = None → revents r = 0 →
      ¬ (rcounter r = num 0 ∧ take (length (q 0)) (rdata r) = q 0) →
      inv (Sys ((f :: fs) ++ drop 1 gs) r CIdle [] [] false)
  | inv_first fs r :
      repeated_first fs → buffered 0 r → rstate r = RS_FIRST → rtoken r = true → rwaiting r = None → revents r = 1 →
      roff r = 0 → inv (Sys (fs ++ drop 1 gs) r CIdle [] [] false)
  | inv_message k fs r p g e :
      (k < N)%nat → buffered k r → rstate r = RS_MSG → revents r = 0 → 0 ≤ roff r ≤ rsiz r → to_come k r fs →
      client_at k r p g e → inv (Sys fs r p [send_ack local_address address (num 0)] g e)
  | inv_done fs r g rest e :
      repeated_first fs → (N ≠ 1%nat → fs = []) → buffered (pred N) r → rstate r = RS_NONE → rtoken r = false →
      rwaiting r = None → revents r = 0 → g ++ rest = contents → (e = true → rest = []) →
      inv (Sys fs r (CDone true) [send_ack local_address address (num 0)] g e).

Lemma gs_drop k : (k < N)%nat → ∃ g, drop k gs = g :: drop (S k) gs ∧ carries (first_at k) (num k) (q k) g.
Proof using Hgs.
  intros Hk. pose proof (Forall2_length _ _ _ Hgs) as Hl. rewrite length_seq in Hl.
  destruct (gs !! k) as [g|] eqn:Eg; [|apply lookup_ge_None_1 in Eg; lia].
  exists g. split; [by apply drop_S|].
  destruct (Forall2_lookup_r _ _ _ _ _ Hgs Eg) as (k' & Hk' & Hc). apply lookup_seq in Hk' as [-> _]. exact Hc.
Qed.

Lemma gs_end : drop N gs = [].
Proof using Hgs. apply drop_ge. by rewrite <-(Forall2_length _ _ _ Hgs), length_seq. Qed.

Lemma receive_data_frame first n l f r :
  carries first n l f → rstate r ≠ RS_DISCONNECT → receive_frame f r = receive_data f r.
Proof.
  intros Hc Hr. unfold receive_frame. rewrite bool_decide_false by done. pose proof (carries_len _ _ _ _ Hc).
  rewrite !(proj2 (Z.eqb_neq (flen f) _)) by lia. done.
Qed.

(** The first frame once more is not taken. *)
Lemma receive_repeat f r :
  carries true (num 0) (q 0) f → buffered 0 r → rstate r ≠ RS_DISCONNECT → receive_frame f r = r.
Proof.
  intros Hc Hb Hr. rewrite (receive_data_frame _ _ _ _ _ Hc Hr). unfold receive_data.
  rewrite (carries_payload _ _ _ _ Hc), (carries_number _ _ _ _ Hc), (buf_counter _ _ Hb), (buf_data _ _ Hb), Z.eqb_refl.
  rewrite bool_decide_true by done. by rewrite orb_true_r.
Qed.

Lemma receive_first f r :
  carries true (num 0) (q 0) f → rstate r = RS_NONE → ¬ (rcounter r = num 0 ∧ take (length (q 0)) (rdata r) = q 0) →
  receive_frame f r = take_frame true (num 0) (q 0) r.
Proof.
  intros Hc Hr Hn. rewrite (receive_data_frame _ _ _ _ _ Hc) by (by rewrite Hr). unfold receive_data.
  rewrite (carries_payload _ _ _ _ Hc), (carries_number _ _ _ _ Hc), (carries_first _ _ _ _ Hc), Hr. cbn [negb orb].
  destruct (Z.eqb_spec (rcounter r) (num 0)); [|done].
  rewrite bool_decide_false by (intros ?; by apply Hn). done.
Qed.

Lemma receive_next k f r :
  (S k < N)%nat → carries false (num (S k)) (q (S k)) f → buffered k r → rstate r = RS_MSG →
  receive_frame f r = wait_token (WaitData false (num (S k)) (q (S k))) r.
Proof using Hnext.
  intros Hk Hc Hb Hr. rewrite (receive_data_frame _ _ _ _ _ Hc) by (by rewrite Hr). unfold receive_data.
  rewrite (carries_payload _ _ _ _ Hc), (carries_number _ _ _ _ Hc), (carries_first _ _ _ _ Hc), Hr, (buf_counter _ _ Hb).
  destruct (Hnext k Hk) as [Hne Hseq]. rewrite (proj2 (Z.eqb_neq _ _) Hne), Hseq, Z.eqb_refl. done.
Qed.

Lemma taken_buffered first k r : first || bool_decide (rstate r = RS_MSG) = true → buffered k (take_frame first (num k) (q k) r).
Proof. intros E. unfold take_frame. rewrite E. split; simpl; [done|by rewrite take_app_length|done]. Qed.

(** The next frame takes the place of one that was read. *)
Lemma inv_taken k r p g e :
  (S k < N)%nat → rstate r = RS_MSG → rtoken r = false → revents r = 0 → rwaiting r = None →
  client_at k r p g e → buffered k r →
  inv (Sys (drop (S (S k)) gs) (take_frame false (num (S k)) (q (S k)) r) p [send_ack local_address address (num 0)] g e).
Proof using Hsome.
  intros Hk Hr Ht He Hw Hc Hb.
  assert (take_frame false (num (S k)) (q (S k)) r =
    Rctx (num (S k)) (q (S k) ++ drop (length (q (S k))) (rdata r)) (Z.of_nat (length (q (S k)))) 0 RS_MSG true 0 None) as E
    by (unfold take_frame; by rewrite Hr, He, Hw).
  assert (buffered (S k) (take_frame false (num (S k)) (q (S k)) r)) as Hb'
    by (apply taken_buffered; by rewrite Hr).
  rewrite E in *. apply (inv_message (S k)); simpl; [done|done|done|done|lia| |].
  - apply (come_frames (S k) _ []); [done|by apply Forall_nil|done].
  - pose proof (Hsome (S k) Hk) as Hq. destruct p; simpl in *; try done; rewrite Ht in Hc.
    + destruct Hc as (Hg & [Ho _] & Hend). split; [|split].
      * rewrite <-Hg, Ho, (buf_size _ _ Hb), Nat2Z.id, drop_all. simpl. f_equal.
        rewrite (drop_S qs (nth (S k) qs []) (S k)); [done|].
        destruct (nth_lookup_or_length qs (S k) []); [done|lia].
      * left. destruct (nth (S k) qs []); simpl; [done|lia].
      * intros ->. destruct (Hend eq_refl). lia.
    + destruct Hc as [Hc _]. done.
Qed.

Lemma take_first r :
  rtoken r = false → rwaiting r = None → revents r = 0 →
  take_frame true (num 0) (q 0) r =
    Rctx (num 0) (q 0 ++ drop (length (q 0)) (rdata r)) (Z.of_nat (length (q 0))) 0 RS_FIRST true 1 None.
Proof. intros Ht Hw He. unfold take_frame. simpl. by rewrite Hw, He. Qed.

Lemma inv_reader s s' : inv s → reader_step s s' → inv s'.
Proof using Hgs Hsome Hnext.
  intros Hi Hs. destruct Hs as [f fs r p a g e Hw Hf|fs r r' p a g e Hr].
  - inversion Hi as [f0 fs0 r0 Hrep Hst Ht Hw0 He Hn|fs0 r0 Hrep Hb Hst Ht Hw0 He Ho E|
      k fs0 r0 p0 g0 e0 Hk Hb Hst He Ho Hcome Hc|fs0 r0 g0 rest e0 Hrep HN Hb Hst Ht Hw0 He Hg Hend]; subst.
    + apply Forall_cons in Hrep as [H0 Hrep]. rewrite receive_first by done.
      apply inv_first; try done; [by apply taken_buffered|..]; by rewrite take_first.
    + destruct fs0 as [|f0 fs0]; simpl in E.
      { exfalso. destruct (decide (1 < N)%nat) as [H1|H1].
        - destruct (gs_drop 1 H1) as (g1 & E1 & Hc). rewrite E1 in E. simplify_eq. rewrite (carries_first _ _ _ _ Hc) in Hf. by destruct Hf.
        - rewrite drop_ge in E; [done|]. rewrite <-(Forall2_length _ _ _ Hgs), length_seq. lia. }
      simplify_eq. apply Forall_cons in Hrep as [H0 Hrep]. rewrite receive_repeat; [by apply inv_first|done..|by rewrite Hst].
    + inversion Hcome as [fs0 _ Hrep H0 E|Hw0]; [|congruence]. destruct fs0 as [|f0 fs0]; simpl in E.
      * destruct (decide (S k < N)%nat) as [Hk'|]; [|rewrite drop_ge in E; [done|];
          rewrite <-(Forall2_length _ _ _ Hgs), length_seq; lia].
        destruct (gs_drop (S k) Hk') as (g1 & E1 & Hc1). rewrite E1 in E. simplify_eq.
        rewrite (receive_next k) by done. unfold wait_token. destruct (rtoken r) eqn:Ht; [|by apply (inv_taken k)].
        apply (inv_message k); try done; [by destruct Hb|by apply come_waiting].
      * destruct k; [|by specialize (H0 ltac:(done))]. simplify_eq. apply Forall_cons in Hrep as [Hf0 Hrep].
        rewrite receive_repeat; [|done..|by rewrite Hst]. apply (inv_message 0); try done. by apply come_frames.
    + apply Forall_cons in Hrep as [H0 Hrep]. destruct (decide (N = 1%nat)) as [E1|E1]; [|by specialize (HN E1)].
      rewrite receive_repeat; [|done|by rewrite E1 in Hb|by rewrite Hst]. by apply (inv_done fs r g rest e).
  - unfold resume in Hr. destruct (rwaiting r) as [w|] eqn:Hw; [|done]. destruct (rtoken r) eqn:Ht; [done|]. simplify_eq.
    inversion Hi as [| |k fs0 r0 p0 g0 e0 Hk Hb Hst He Ho Hcome Hc|]; subst; try congruence.
    inversion Hcome as [|Hw0 Hk']; subst; [congruence|]. rewrite Hw in Hw0. simplify_eq. simpl.
    apply (inv_taken k); try done. by destruct Hb.
Qed.

Lemma contents_start : drop 1 (q 0) ++ concat (drop 1 qs) = contents.
Proof using Hstart.
  destruct Hstart as (x & l & E). unfold contents. clear -E. destruct qs as [|q0 qs']; [done|]. simpl in *. by rewrite E.
Qed.

Lemma inv_next fs r a g e : inv (Sys fs r CIdle a g e) → 0 < revents r → inv (next_message fs r a g e).
Proof using Hstart.
  intros Hi He. inversion Hi as [|fs0 r0 Hrep Hb Hst Ht Hw0 He0 Ho|k fs0 r0 p0 g0 e0 Hk Hb Hst He0 Ho Hcome Hc|]; subst; [lia| |done].
  destruct Hstart as (x & l & E). assert (0 < N)%nat as HN by (clear -E; destruct qs; [done|simpl; lia]).
  pose proof (buf_data _ _ Hb) as Hd. rewrite E in Hd. destruct r as [cnt d siz off st tok ev w]. simpl in *. subst.
  destruct Hb as [Hcnt _ Hsiz]. simpl in *. subst. destruct d as [|d0 d]; [done|]. injection Hd as -> Hd.
  unfold next_message, can_nextmsg, set_revents, set_rstate, set_roff. cbn [rtoken rstate negb rsiz roff rdata rcounter].
  change (bool_decide (RS_FIRST = RS_DISCONNECT)) with false. change (bool_decide (RS_FIRST = RS_FIRST)) with true.
  rewrite E. cbn [negb length byte_at]. rewrite (proj2 (Z.gtb_lt _ 0)) by lia. rewrite (proj2 (Z.gtb_lt _ 1)) by lia.
  apply (inv_message 0); simpl; [done| |done|done|lia|by apply come_frames|].
  - split; simpl; [done|rewrite E; simpl; by rewrite Hd|by rewrite E].
  - split; [exact contents_start|]. split; [left; lia|done].
Qed.

Lemma inv_read size fs r a g e :
  inv (Sys fs r CReading a g e) → 0 < size → rtoken r = true → inv (read_bytes size fs r a g e).
Proof using Hlast.
  intros Hi Hs Ht. inversion Hi as [| |k fs0 r0 p0 g0 e0 Hk Hb Hst He0 Ho Hcome Hc|]; subst.
  destruct Hc as (Hg & Htok & Hend). rewrite Ht in Htok. unfold read_bytes, cookie_read. rewrite Hst. simpl.
  set (n := Z.min size (rsiz r - roff r)). assert (0 ≤ n ≤ rsiz r - roff r) by lia.
  set (l := take (Z.to_nat n) (drop (Z.to_nat (roff r)) (rdata r))).
  pose proof (buf_size _ _ Hb) as Hsiz.
  destruct (take_slice (rdata r) (q k) (Z.to_nat (roff r)) (Z.to_nat n) (buf_data _ _ Hb) ltac:(lia)) as [Hl Hn].
  fold l in Hl, Hn. rewrite (buf_counter _ _ Hb), Hlast by done. set (b := (rsiz r =? roff r + n) && negb (S k =? N)%nat).
  assert ((if b then set_rtoken false (set_roff (roff r + n) r) else set_roff (roff r + n) r) =
    set_rtoken (negb b) (set_roff (roff r + n) r)) as -> by (destruct b, r; simpl in *; by subst).
  apply (inv_message k); [done|by destruct Hb|done|done|simpl; lia|by destruct Hcome; constructor|].
  simpl. rewrite Z2Nat.inj_add by lia. split; [by rewrite <-app_assoc, (app_assoc l), Hl|]. split.
  - unfold b. destruct (Z.eqb_spec (rsiz r) (roff r + n)), (Nat.eqb_spec (S k) N); simpl; lia.
  - intros [He%Hend|El%bool_decide_eq_true]%orb_true_iff; [lia|]. rewrite El in Hn. simpl in Hn. lia.
Qed.

(** What the client did not read. *)
Lemma client_rest k r p g e :
  buffered k r → client_at k r p g e → ∃ rest, g ++ rest = contents ∧ (e = true → rest = []).
Proof.
  intros Hb Hc. destruct p; simpl in Hc; try done; [|apply Hc]. destruct Hc as (Hg & _ & Hend).
  eexists. split; [exact Hg|]. intros He. destruct (Hend He) as [-> HN].
  rewrite (buf_size _ _ Hb), Nat2Z.id, drop_all, HN, drop_all. done.
Qed.

Lemma inv_validated fs r p a g e :
  inv (Sys fs r p a g e) → p = CReading ∨ p = CValidating → inv (validated fs r a g e).
Proof using Hlast Hgs.
  intros Hi Hp. inversion Hi as [| |k fs0 r0 p0 g0 e0 Hk Hb Hst He0 Ho Hcome Hc|]; subst; try (by destruct Hp).
  destruct (client_rest _ _ _ _ _ Hb Hc) as (rest & Hg & Hend). unfold validated, can_validmsg.
  simpl. rewrite Hst, (buf_counter _ _ Hb), Hlast by done. change (bool_decide (RS_MSG = RS_MSG)) with true.
  cbn [negb orb]. destruct (Nat.eqb_spec (S k) N) as [HN|HN]; simpl.
  - inversion Hcome as [fs0 Hw Hrep H0|]; subst; [|lia]. rewrite HN, gs_end, app_nil_r.
    apply (inv_done _ _ _ rest); try done; [intros; apply H0; lia|]. rewrite <-HN. by destruct Hb.
  - apply (inv_message k); [done|by destruct Hb|done|done|done|by destruct Hcome; constructor|].
    simpl. split; [by exists rest|lia].
Qed.

Lemma inv_client s s' : inv s → client_step s s' → inv s'.
Proof using Hstart Hlast Hgs.
  intros Hi Hs. destruct Hs; [by apply inv_next|by apply inv_read|by eapply inv_validated; eauto|by eapply inv_validated; eauto].
Qed.

Lemma inv_steps s s' : rtc step s s' → inv s → inv s'.
Proof using Hgs Hstart Hsome Hnext Hlast.
  induction 1 as [|s1 s2 s3 [Hs|Hs] _ IH]; intros Hi; [done|apply IH; by eapply inv_reader|apply IH; by eapply inv_client].
Qed.

Lemma inv_transferred n s :
  Z.land (num (pred N)) 0x7f ≠ n → inv s → transferred (send_ack local_address address (num 0)) n contents s.
Proof using Hgs.
  intros Hn0 Hi. destruct Hi as [f fs r Hrep Hst Ht Hw0 He Hn|fs r Hrep Hb Hst Ht Hw0 He Ho|
      k fs r p g e Hk Hb Hst He Ho Hcome Hc|fs r g rest e Hrep HN Hb Hst Ht Hw0 He Hg Hend].
  - split; simpl; try done; [by eexists| |by intros []]. intros _. right. eexists. constructor; [done|].
    left. by apply Forall_cons in Hrep as [Hc%carries_first _].
  - split; simpl; try done; [by eexists| |by intros []]. intros _. left. lia.
  - split; simpl; [by eapply client_rest|by destruct p|by destruct p| |done|by destruct p]. intros Hp. destruct (rtoken r) eqn:Ht; [by left|right].
    assert (S k < N)%nat as Hk'.
    { destruct Hp as [-> | ->]; simpl in Hc; rewrite Ht in Hc; apply Hc. done. }
    destruct Hcome as [fs Hw Hrep H0|Hw _].
    + destruct (gs_drop (S k) Hk') as (g1 & -> & _).
      destruct fs; (eexists; apply reader_receive; [done|by right]).
    + eexists. apply reader_resume. unfold resume. by rewrite Hw, Ht.
  - split; simpl; try done; [by eexists|by intros []|]. intros _. split; [done..|]. left. by rewrite (buf_counter _ _ Hb).
Qed.
End receiving.

(** ** From one side to the other *)

(** A frame may be filled up with zeros to a length that CAN FD has; those up to eight
    bytes are not. *)
Definition padded (f g : frame) : Prop :=
  g = f ∨ ∃ n, flen f > 8 ∧ flen f + Z.of_nat n ≤ 64 ∧ g = Frame (can_id f) (flen f + Z.of_nat n) (fdata f ++ replicate n 0).

Lemma crop_zeros n : crop (replicate n 0) = [].
Proof. induction n as [|n IH]; [done|]. simpl. by rewrite IH. Qed.

Lemma crop_padded l n : l ≠ [] → last l ≠ Some 0 → crop (l ++ replicate n 0) = l.
Proof.
  induction l as [|x l IH]; intros Hl Hx; [done|]. simpl. destruct l as [|y l].
  - simpl. rewrite crop_zeros. destruct (Z.eqb_spec x 0); [by subst|done].
  - rewrite IH by done. done.
Qed.

Section frames.
Context (local_address address number : Z).
Hypothesis Hlocal : urange 8 local_address.
Notation frame_number := (frame_number number).
Notation mid_frame := (mid_frame local_address address number).
Notation last_frame := (last_frame local_address address number).

Lemma number_bits k :
  is_last (frame_number k) = false ∧ is_last (Z.lor (frame_number k) 0x80) = true ∧
  Z.land (frame_number k) 0x7f = frame_number k ∧ Z.land (Z.lor (frame_number k) 0x80) 0x7f = frame_number k.
Proof.
  assert (forallb (λ a, negb (is_last a) && is_last (Z.lor a 0x80) && (Z.land a 0x7f =? a) && (Z.land (Z.lor a 0x80) 0x7f =? a))
    (seqZ 0 128) = true) as H by (by vm_compute).
  pose proof (forall_below 128 _ H _ (frame_number_range number k)) as Hb.
  rewrite !andb_true_iff, negb_true_iff, !Z.eqb_eq in Hb. tauto.
Qed.

Lemma number_differs k : frame_number (S k) ≠ frame_number k.
Proof.
  rewrite <-frame_number_next.
  assert (forallb (λ a, negb (Z.land (a + 1) 0x7f =? a)) (seqZ 0 128) = true) as H by (by vm_compute).
  pose proof (forall_below 128 _ H _ (frame_number_range number k)) as Hb%negb_true_iff. by apply Z.eqb_neq.
Qed.

Lemma mid_carries k p g : length p = 62%nat → padded (mid_frame k p) g → carries (first_at k) (frame_number k) p g.
Proof using Hlocal.
  intros Hp Hg. assert (g = mid_frame k p) as ->.
  { destruct Hg as [?|(n & _ & Hn & ->)]; [done|]. simpl in Hn. rewrite Hp in Hn. destruct n; [|lia].
    unfold Can.mid_frame. simpl. by rewrite app_nil_r, Z.add_0_r. }
  destruct (number_bits k) as (Hl & _). split; simpl; [by apply frame_id_range|done| |lia].
  unfold frame_payload. simpl. change (byte_at 1 _) with (frame_number k). by rewrite Hl.
Qed.

Lemma last_carries k p g :
  p ≠ [] → last p ≠ Some 0 → padded (last_frame k p) g → carries (first_at k) (Z.lor (frame_number k) 0x80) p g.
Proof using Hlocal.
  intros Hp Hz Hg. destruct (number_bits k) as (_ & Hl & _). pose proof (crop_padded p 0 Hp Hz) as H0. rewrite app_nil_r in H0.
  assert (0 < length p)%nat by (destruct p; simpl; [done|lia]).
  destruct Hg as [-> |(n & Hn & _ & ->)]; split; simpl; try done; try lia; try (by apply frame_id_range);
    unfold frame_payload; simpl; change (byte_at 1 _) with (Z.lor (frame_number k) 0x80); rewrite Hl.
  - by destruct (2 + Z.of_nat (length p) >? 8).
  - simpl in Hn. rewrite (proj2 (Z.gtb_lt _ 8)) by lia. by apply crop_padded.
Qed.

(** The numbers as they are in the frames. *)
Definition numbers (ps : list (list Z)) (k : nat) : Z :=
  if (k =? length ps)%nat then Z.lor (frame_number k) 0x80 else frame_number k.

Lemma frames_carry ps p gs :
  Forall (λ p, length p = 62%nat) ps → p ≠ [] → last p ≠ Some 0 →
  Forall2 padded (message_frames local_address address number ps p) gs →
  Forall2 (λ k g, carries (first_at k) (numbers ps k) (nth k (ps ++ [p]) []) g) (seq 0 (length (ps ++ [p]))) gs.
Proof using Hlocal.
  intros Hps Hp Hz Hg. pose proof (Forall2_length _ _ _ Hg) as Hl. unfold message_frames in *.
  rewrite length_app, length_imap in Hl. simpl in Hl. apply Forall2_same_length_lookup_2.
  { by rewrite length_seq, length_app, <-Hl. }
  intros i k g [-> Hi]%lookup_seq Hgi. simpl. rewrite length_app in Hi. simpl in Hi. unfold numbers.
  destruct (Forall2_lookup_r _ _ _ _ _ Hg Hgi) as (f & Hf & Hpad). apply lookup_app_Some in Hf as [Hf|[Hge Hf]].
  - rewrite list_lookup_imap in Hf. destruct (ps !! i) as [p'|] eqn:Ep; [|done]. simpl in Hf. simplify_eq.
    pose proof (lookup_lt_Some _ _ _ Ep). rewrite (proj2 (Nat.eqb_neq i _)) by lia.
    rewrite app_nth1, (nth_lookup_Some ps i [] p') by done.
    apply mid_carries; [|done]. by eapply (Forall_lookup_1 _ _ _ _ Hps).
  - rewrite length_imap in Hge, Hf. assert (i = length ps) as -> by lia. rewrite Nat.sub_diag in Hf. simpl in Hf. simplify_eq.
    rewrite Nat.eqb_refl, nth_middle. by apply last_carries.
Qed.
End frames.

Lemma with_repeats_cons repeats f fs : ∃ n, with_repeats repeats (f :: fs) = replicate n f ++ f :: fs.
Proof. destruct fs; [by exists 0%nat|by exists repeats]. Qed.

Lemma first_payload ps p m :
  concat ps ++ p = 1 :: m → m ≠ [] → Forall (λ p, length p = 62%nat) ps → ∃ x l, nth 0 (ps ++ [p]) [] = 1 :: x :: l.
Proof.
  intros E Hm Hps. destruct ps as [|p0 ps]; simpl in *.
  - subst p. destruct m; [done|]. eauto.
  - apply Forall_cons in Hps as [Hp _]. destruct p0 as [|a [|b p0]]; [done..|]. simpl in E. simplify_eq. eauto.
Qed.

Lemma last_payload l1 p m : l1 ++ p = 1 :: m → p ≠ [] → m ≠ [] → last m ≠ Some 0 → last p ≠ Some 0.
Proof.
  intros E Hp Hm Hz. assert (last (l1 ++ p) = last m) as El by (rewrite E; by destruct m).
  rewrite last_app in El. destruct (last p) as [x|] eqn:Ex; [by rewrite El|done].
Qed.

Section transfer.
Context (local_address address number : Z) (ps : list (list Z)) (p m : list Z).
Hypothesis Hlocal : urange 8 local_address.
Hypothesis Hps : Forall (λ p, length p = 62%nat) ps.
Hypothesis Hp : p ≠ [] ∧ last p ≠ Some 0.
Hypothesis Hm : concat ps ++ p = 1 :: m ∧ m ≠ [].

Lemma payload_some k : (k < length (ps ++ [p]))%nat → nth k (ps ++ [p]) [] ≠ [].
Proof using Hps Hp.
  intros Hk. assert (Forall (λ q, q ≠ []) (ps ++ [p])) as H.
  { apply Forall_app. split; [|apply Forall_singleton, Hp]. eapply Forall_impl; [exact Hps|]. by intros [] ?. }
  eapply (Forall_lookup_1 _ _ _ _ H). destruct (nth_lookup_or_length (ps ++ [p]) k []) as [E|]; [exact E|lia].
Qed.

Lemma numbers_next k : (S k < length (ps ++ [p]))%nat →
  numbers number ps k ≠ numbers number ps (S k) ∧ Z.land (numbers number ps k + 1) 0x7f = Z.land (numbers number ps (S k)) 0x7f.
Proof.
  rewrite length_app. simpl. intros Hk. unfold numbers. rewrite (proj2 (Nat.eqb_neq k _)) by lia.
  destruct (number_bits number (S k)) as (_ & Hl & Ea & Eb). destruct (number_bits number k) as (Hl' & _).
  rewrite frame_number_next. destruct (S k =? length ps)%nat; split; try done; [congruence|]. apply not_eq_sym, number_differs.
Qed.

Lemma numbers_last k : (k < length (ps ++ [p]))%nat → is_last (numbers number ps k) = (S k =? length (ps ++ [p]))%nat.
Proof.
  rewrite length_app, Nat.add_1_r. simpl. intros Hk. unfold numbers. destruct (number_bits number k) as (H1 & H2 & _).
  by destruct (k =? length ps)%nat.
Qed.

Lemma numbers_land k : Z.land (numbers number ps k) 0x7f = frame_number number k.
Proof. unfold numbers. destruct (number_bits number k) as (_ & _ & H1 & H2). by destruct (k =? length ps)%nat. Qed.

(** The frames as they come are what the invariant starts from. *)
Lemma inv_start repeats gs r :
  Forall2 padded (with_repeats repeats (message_frames local_address address number ps p)) gs →
  ready (frame_number number 0) r →
  ∃ gs', Forall2 padded (message_frames local_address address number ps p) gs' ∧
    inv address local_address gs' (ps ++ [p]) (numbers number ps) (Sys gs r CIdle [] [] false).
Proof using Hlocal Hps Hp Hm.
  intros Hg [Hst Ht Hw He Hn]. destruct (message_frames _ _ _ ps p) as [|f0 fs] eqn:Ef; [by destruct ps|].
  destruct (with_repeats_cons repeats f0 fs) as [n En]. rewrite En in Hg. apply Forall2_app_inv_l in Hg as (a & gs' & Ha & Hg & ->).
  exists gs'. split; [done|]. apply Forall2_cons_inv_l in Hg as (g0 & fs' & Hg0 & Hfs & ->).
  assert (∀ g, padded f0 g → carries true (numbers number ps 0) (nth 0 (ps ++ [p]) []) g) as Hc.
  { intros g Hg. assert (Forall2 padded (message_frames local_address address number ps p) (g :: fs')) as H
      by (rewrite Ef; by constructor).
    apply frames_carry in H; [|done|done|apply Hp|apply Hp]. rewrite length_app, Nat.add_1_r in H.
    by apply Forall2_cons_1 in H as [H _]. }
  assert (repeated_first (ps ++ [p]) (numbers number ps) (a ++ [g0])) as Hrep.
  { apply Forall_app. split; [|by apply Forall_singleton, Hc]. apply Forall_forall. intros g Hin.
    apply list_elem_of_lookup in Hin as [i Hi]. destruct (Forall2_lookup_r _ _ _ _ _ Ha Hi) as (f & Hf & Hpad).
    apply lookup_replicate in Hf as [-> _]. by apply Hc. }
  assert (a ++ g0 :: fs' = (a ++ [g0]) ++ drop 1 (g0 :: fs')) as -> by (by rewrite <-app_assoc).
  destruct (a ++ [g0]) as [|b bs] eqn:Eb; [by destruct a|]. apply inv_before; try done.
  destruct (first_payload ps p m (proj1 Hm) (proj2 Hm) Hps) as (x & l & Eq). rewrite Eq.
  intros [Hcnt Hd]. destruct Hn as [Hn|Hn]; [by rewrite Hcnt, numbers_land in Hn|]. by destruct (rdata r); simplify_eq/=.
Qed.

Lemma received repeats gs r s :
  Forall2 padded (with_repeats repeats (message_frames local_address address number ps p)) gs →
  ready (frame_number number 0) r → rtc (step address local_address) (Sys gs r CIdle [] [] false) s →
  transferred (send_ack address local_address (numbers number ps 0)) (frame_number number (S (length ps))) m s.
Proof using Hlocal Hps Hp Hm.
  intros Hg Hr Hs. destruct (inv_start repeats gs r Hg Hr) as (gs' & Hg' & Hi).
  pose proof (frames_carry local_address address number Hlocal ps p gs' Hps (proj1 Hp) (proj2 Hp) Hg') as Hc.
  assert (m = contents (ps ++ [p])) as Em by (unfold contents; rewrite concat_app; simpl; by rewrite app_nil_r, (proj1 Hm)).
  rewrite Em. apply (inv_transferred _ _ gs' _ _ Hc).
  - rewrite length_app, Nat.add_1_r. simpl. rewrite numbers_land. apply not_eq_sym, number_differs.
  - eapply inv_steps; [done|exact (first_payload ps p m (proj1 Hm) (proj2 Hm) Hps)|exact payload_some|
      exact numbers_next|exact numbers_last|exact Hs|exact Hi].
Qed.
End transfer.

(** Nothing is being sent. *)
Record quiet (c : wctx) : Prop := {
  quiet_id : wid c = 0;
  quiet_size : length (wdata c) = 64%nat;
  quiet_number : 0 ≤ byte_at 1 (wdata c) < 128;
  quiet_writes : writes c = [] }.

(** C9: A message that is written in any pieces and sent goes over the bus in frames, and
    however the thread of the other side and its client take turns, with the first frame
    repeated and the last one filled up with zeros: the client reads the bytes of the
    message in their order and all of them until the end, the message is valid, the thread
    can go on whenever the client waits for it, the acknowledge is that of the first
    frame, and both sides are ready for the next message afterwards. *)
Theorem can_transfer local_address address repeats l c r :
  urange 8 local_address → (repeats ≤ 4)%nat → quiet c → can_id (wackframe c) = 0 → acknowledged repeats c →
  ready (byte_at 1 (wdata c)) r → concat l ≠ [] → last (concat l) ≠ Some 0 →
  ∃ c1 c2 f fs, cookie_writes local_address address ([1] :: l) c = (c1, true) ∧ can_sendmsg c1 = (c2, true) ∧
    bus c2 = bus c ++ f :: fs ∧ quiet c2 ∧
    ∀ gs s, Forall2 padded (f :: fs) gs → rtc (step address local_address) (Sys gs r CIdle [] [] false) s →
      transferred (send_ack address local_address (byte_at 1 (fdata f))) (byte_at 1 (wdata c2)) (concat l) s.
Proof.
  intros Hlocal Hn [Hid Hsize Hnum Hw] H0 Ha Hr Hl Hz. set (number := byte_at 1 (wdata c)) in *.
  assert (number = frame_number number 0) as En by (unfold frame_number; rewrite Z.add_0_r, Z.mod_small; done).
  destruct (message_sent local_address address number repeats Hn Hlocal l c) as
    (ps & p & c1 & c2 & E1 & E2 & Hb & Hi & Hc & Hps & Hp & _); [by split|done..|].
  assert (last p ≠ Some 0) as Hzp by (by eapply last_payload).
  assert (∃ f fs, with_repeats repeats (message_frames local_address address number ps p) = f :: fs ∧
    byte_at 1 (fdata f) = numbers number ps 0) as (f & fs & Ef & Enum).
  { destruct ps as [|p0 ps]; [by do 2 eexists|]. unfold message_frames. simpl.
    destruct (imap _ ps ++ _) eqn:Ei; [by destruct (app_eq_nil _ _ Ei)|]. destruct repeats; by do 2 eexists. }
  exists c1, c2, f, fs. rewrite <-Ef, Enum. split_and!; try done.
  - split; [apply Hi|apply Hi| |apply Hi]. rewrite (idle_number _ _ _ Hi). apply frame_number_range.
  - intros gs s Hg Hs. rewrite (idle_number _ _ _ Hi). eapply received; try done. by rewrite <-En.
Qed.

(** A message of 99 bytes in two pieces, the first frame being repeated twice. *)
Definition sample_sender : wctx := Wctx 0 (0 :: 127 :: replicate 62 0) 0 no_frame [] [Some 2%nat] [].
Definition sample_message : list (list Z) := [seqZ 1 59; seqZ 60 40].

Lemma can_transfer_witness :
  ∃ c1 c2 f fs, cookie_writes 1 2 ([1] :: sample_message) sample_sender = (c1, true) ∧ can_sendmsg c1 = (c2, true) ∧
    bus c2 = bus sample_sender ++ f :: fs ∧ quiet c2 ∧
    ∀ gs s, Forall2 padded (f :: fs) gs → rtc (step 2 1) (Sys gs rctx_new CIdle [] [] false) s →
      transferred (send_ack 2 1 (byte_at 1 (fdata f))) (byte_at 1 (wdata c2)) (concat sample_message) s.
Proof.
  apply (can_transfer 1 2 2).
  - by vm_compute.
  - lia.
  - split; by vm_compute.
  - reflexivity.
  - reflexivity.
  - split; try reflexivity. right. by vm_compute.
  - by vm_compute.
  - by vm_compute.
Defined.

(** ** Peers *)

Lemma address_order (ctxs : list Z) i j a b :
  StronglySorted Z.lt ctxs → (i < j)%nat → ctxs !! i = Some a → ctxs !! j = Some b → a < b.
Proof.
  intros Hs. revert i j. induction Hs as [|x l Hs IH Hx]; intros i j Hij Hi Hj; [done|].
  destruct i as [|i], j as [|j]; simplify_eq/=; [lia| |lia|].
  - rewrite Forall_lookup in Hx. by apply (Hx j).
  - apply (IH i j); [lia|done|done].
Qed.

(** The addresses between [l] and [h] are those that are not ruled out. *)
Lemma getctx_loop_sorted n ctxs address l h i :
  StronglySorted Z.lt ctxs → (h ≤ length ctxs)%nat → (l ≤ h)%nat → (h - l < n)%nat →
  (∀ j a, ctxs !! j = Some a → (j < l)%nat → a < address) → (∀ j a, ctxs !! j = Some a → (h ≤ j)%nat → address < a) →
  match getctx_loop n ctxs address l h i with
  | (j, true) => ctxs !! j = Some address
  | (_, false) => address ∉ ctxs
  end.
Proof.
  intros Hs. revert l h i. induction n as [|n IH]; intros l h i Hh Hlh Hn Hlow Hhigh; [lia|]. cbn [getctx_loop].
  destruct (Nat.eqb_spec l h) as [->|Hne].
  { intros [j Hj]%list_elem_of_lookup. destruct (decide (j < h)%nat) as [H|H].
    - specialize (Hlow j _ Hj H). lia.
    - specialize (Hhigh j _ Hj ltac:(lia)). lia. }
  set (m := (l + (h - l) / 2)%nat).
  assert ((h - l) / 2 < h - l)%nat by (apply Nat.div_lt; lia). assert (l ≤ m < h)%nat as Hm by (unfold m; lia).
  destruct (lookup_lt_is_Some_2 ctxs m ltac:(lia)) as [b Hb]. unfold byte_at. fold m. rewrite Hb. cbn [default id].
  assert (∀ j a, ctxs !! j = Some a → (j < m)%nat → a < b) as Hbelow
    by (intros j a Hj Hjm; by apply (address_order ctxs j m)).
  assert (∀ j a, ctxs !! j = Some a → (m < j)%nat → b < a) as Habove
    by (intros j a Hj Hjm; by apply (address_order ctxs m j)).
  destruct (Z.ltb_spec b address) as [Hlt|Hge].
  - apply IH; try lia; [|done]. intros j a Hj Hjm. destruct (decide (j = m)) as [->|]; [by simplify_eq|].
    specialize (Hbelow j a Hj ltac:(lia)). lia.
  - destruct (Z.gtb_spec b address) as [Hgt|Hle]; [|by assert (address = b) as -> by lia].
    apply IH; try lia; [done|]. intros j a Hj Hjm. destruct (decide (j = m)) as [->|]; [simplify_eq; lia|].
    specialize (Habove j a Hj ltac:(lia)). lia.
Qed.

(** In an array that is sorted every peer is found. *)
Lemma getctx_sorted ctxs address i :
  StronglySorted Z.lt ctxs → getctx ctxs address = Some i ↔ ctxs !! i = Some address.
Proof.
  intros Hs. pose proof (getctx_loop_sorted (S (length ctxs)) ctxs address 0 (length ctxs) 0 Hs) as H.
  unfold getctx, _getctx. destruct (getctx_loop _ _ _ _ _ _) as [j found].
  specialize (H ltac:(lia) ltac:(lia) ltac:(lia) ltac:(lia)).
  assert (∀ j a, ctxs !! j = Some a → (length ctxs ≤ j)%nat → address < a) as Hend
    by (intros k a Hk%lookup_lt_Some ?; lia).
  specialize (H Hend). destruct found; split; intros E; simplify_eq; try done.
  - f_equal. destruct (Nat.lt_trichotomy i j) as [Hlt|[->|Hlt]]; [|done|].
    + pose proof (address_order ctxs i j _ _ Hs Hlt E H). lia.
    + pose proof (address_order ctxs j i _ _ Hs Hlt H E). lia.
  - exfalso. apply H, list_elem_of_lookup. eauto.
Qed.

(** ** What goes wrong *)

(** The search ends at the address that was compared last, not where a new one belongs:
    the second peer is put in front of the first and is not found any more. *)
Example second_peer_lost :
  ctx_register true [5] 7 = Some [7; 5] ∧ getctx [7; 5] 7 = None ∧ ctx_unregister [7; 5] 7 = inr Assertion.
Proof. by vm_compute. Qed.

(** Without memory for a new peer the assertion of [ctx_free] fails. *)
Example peer_without_memory : accept_peer true false [] 7 = inr Assertion.
Proof. by vm_compute. Qed.

(** A message of zeros only is cropped to nothing, which [RPCC_CTRLOP_NEXTMSG] asserts not
    to happen. *)
Example zeros_assert :
  (can_nextmsg true (receive_frame (Frame (frame_id 1 true) 12 ([2; 0x80] ++ replicate 10 0)) rctx_new)).2 = NextAssertion.
Proof. by vm_compute. Qed.

(** Zeros at the end of a message are lost, which those of ChainPack do not have. *)
Example zeros_lost :
  frame_payload (Frame (frame_id 1 true) 12 [2; 0x80; 1; 5; 6; 7; 8; 9; 10; 11; 0; 0]) = [1; 5; 6; 7; 8; 9; 10; 11].
Proof. by vm_compute. Qed.

(** A message starts after reading timed out and before the validation: its frame is
    dropped, but not the event, and [RPCC_CTRLOP_NEXTMSG] asserts that there is a frame. *)
Example late_first_frame :
  let r := (can_nextmsg true (receive_frame (Frame (frame_id 1 true) 4 [2; 0; 1; 5]) rctx_new)).1 in
  let r := read_timeout (cookie_read 1 r).1 in
  let r := (can_validmsg (receive_frame (Frame (frame_id 1 true) 4 [2; 0x87; 1; 6]) r)).1 in
  revents r = 1 ∧ (can_nextmsg true r).2 = NextAssertion.
Proof. by vm_compute. Qed.

(** A message that is dropped ends with a frame of two bytes, which is taken for an
    acknowledge: the other side goes on waiting for the rest of the message. *)
Example drop_not_noticed :
  let c := (cookie_write 1 2 (replicate 70 1) wctx_new).1 in
  let r := (can_nextmsg true (foldl (λ r f, receive_frame f r) rctx_new (take 1 (bus c)))).1 in
  let dropped := drop (length (bus c)) (bus (can_dropmsg c)) in
  dropped = [Frame (frame_id 1 false) 2 [2; 0x82]] ∧ foldl (λ r f, receive_frame f r) r dropped = r.
Proof. by vm_compute. Qed.

(** The thread waits with a frame for the client, and has the lock that [ctx_unregister]
    needs. *)
Example disconnect_waits :
  let r := (can_nextmsg true (receive_frame (Frame (frame_id 1 true) 64 (2 :: 0 :: replicate 62 1)) rctx_new)).1 in
  let r := receive_frame (Frame (frame_id 1 false) 4 [2; 0x81; 5; 6]) r in
  rwaiting r = Some (WaitData false 0x81 [5; 6]) ∧ rtoken r = true ∧ resume r = None.
Proof. by vm_compute. Qed.

(** The address that is said to be for dynamic ones is refused. *)
Example no_dynamic_address address : rpcclient_can_new address (u8 (-1)) = None.
Proof. done. Qed.
